(* ===== verification/_CoqProject ===== *)
-Q . S2P
Prelude.v
Endian.v
WsParser.v
WsFrame.v
WsSpec.v
WsRefine.v
WsProps.v
CppString.v
Thread.v
Base64.v
Sha1.v
Handshake.v
WsCodec.v
IdAlloc.v
Session.v
WsSession.v
WsServer.v
WsServerProps.v
WsSend.v
Timer.v
TimerProps.v
TimerSpec.v
TimerRace.v
TimerTasks.v
TimerLife.v
TimeLimit.v
TaskCoro.v
Scheduler.v
SchedThreads.v
SchedStop.v
CoroTask.v
Awaiter.v
CoroFrame.v
TaskStore.v
CoroCall.v
CoroThreads.v
CoroSched.v
FdContext.v
FdQueue.v
IoManager.v
IoProps.v
FdManager.v
Hook.v
DbPool.v
Snowflake.v
Address.v
Socket.v
SocketEvents.v
Http.v
HttpMessage.v
HttpRequest.v
HttpLimits.v
HttpResponse.v
HttpApi.v
HttpParams.v
HttpServer.v
Upgrade.v
Route.v
WsHandlers.v
StdMap.v
LogFormat.v
Logger.v
LogManager.v
Config.v
LogConfig.v
Mysql.v
MysqlStmt.v
StmtRow.v
DbQuery.v
DbLive.v
DbFaults.v
DbWrapper.v
Redis.v
Result.v
