(* ===== verification/Prelude.v ===== *)
(** * m_sylar: a verification library

    m_sylar is a C++20 server framework built on coroutines.  A [Scheduler]
    owns a task pool and worker threads; the [IOManager] derives from it, keeps
    one [FdContext] per descriptor and turns epoll's reports into scheduled
    coroutines; the [TimeManager] keeps timers in time slices behind one timerfd,
    whose descriptor is registered with the IO manager.  The hooks make blocking
    calls on descriptors wait in the IO manager.  On top of these stand sockets,
    sessions with a receive buffer, the WebSocket protocol (handshake, frames,
    sessions, server), the HTTP protocol and server, pools of MySQL and Redis
    connections with their queries and statements, and a generator of identifiers; beside them the loggers, whose
    settings come from the configuration.

    This library models those parts as executable functions and step relations
    and proves what makes each of them correct.  All file names below are under
    [src/sylar/].

    ** Files and sources

    - [Prelude]: machine integers, notations, tactics, shared lemmas.
    - [Endian]: [basic/endian.h], byte swaps and memory images.
    - [WsParser]: [protocol/websocket/websocket_parser.cc], the incremental
      parser [websocket_parser_execute] with its callbacks, and the frame builder.
    - [WsFrame]: [protocol/websocket/parser.cc], [Frame] and [FrameBuffer].
    - [WsSpec]: an abstract decoder, one octet at a time, and [WsRefine]: the
      frame buffer implements it.  [WsProps]: the theorems on frames.
    - [CppString], [Base64], [Sha1]: [std::string] operations,
      [websocket/base64/base64.cpp], [websocket/sha1/sha1.cpp].
    - [Handshake]: [websocket/WebSocket.cc]; [WsCodec]: its codec against [WsFrame].
    - [IdAlloc]: [basic/tool.cc], with the class [IdAllocator], the contract the
      server relies on.
    - [Session]: [server/common/session.cc].
    - [WsSession], [WsServer]: [server/websocket/wsserver.cc] and [.tpp];
      [WsServerProps]: their theorems.  [WsSend]: [co_sendFrame] with several
      senders as a step relation.  [WsHandlers]: the default handlers.
    - [Timer]: [basic/timer/]; [TimerProps]: invariant and lemmas; [TimerSpec]:
      the abstract timer and the refinement; [TimerRace]: the window between
      look-up and insertion; [TimerTasks]: any number of insertions and triggers in
      their critical sections; [TimerLife]: its descriptor and the manager of a thread;
      [TimeLimit]: time limits as interleaved threads.
    - [TaskCoro]: [coroutine/coro20/fiber.h], a schedulable task.
    - [Thread]: [basic/thread.cc], starting, joining and destroying a thread.
    - [Scheduler]: [coro20/taskPool.cc], [coro20/scheduler.cc], one worker;
      [SchedThreads]: all workers with [schedule], [stop], [autoStop], and [idle] and
      [tickle] of [coro20/ioManager.cc], as a step relation; [SchedStop]: what
      follows a stop.
    - [CoroTask], [CoroFrame], [Awaiter], [TaskStore]: [coro20/task.hpp], completion and
      awaiting; who destroys the frame; resuming an awaiter from several threads; the
      task objects of a program and the frames they own.  [CoroCall]: programs of
      coroutines that await each other, on an explicit stack; [CoroThreads]: the same on
      any number of threads; [CoroSched]: as tasks of the workers of [SchedThreads].
    - [FdContext], [FdQueue]: [coro20/fdContext.cc], the context with the class
      [Epoll] (what [epoll_ctl] does to the interest list when it returns 0 and when it
      fails, and what closing a descriptor does), and the queue protocol between threads.
    - [IoManager], [IoProps]: [coro20/ioManager.cc].
    - [FdManager]: [basic/fdManager.cc]; [Hook]: [coro20/hook.cc] on top of it.
    - [DbPool]: [DBPool/database.tpp]; [DbWrapper]: the objects that hold a connection.
      [DbQuery], [DbLive], [DbFaults]: [executeQuery] of the pool managers as
      interleaved queries: exclusion, termination, and what faults do.
    - [Mysql]: [DBPool/mysql.cc], queries over the non-blocking client library, results
      and tables; [MysqlStmt]: [DBPool/mysql.tpp], prepared statements, with their rows in [StmtRow], over the
      class [FetchLib] (what the client library promises).
    - [Redis]: [DBPool/redis.cc] and [DBPool/factory.cc], replies, connections and the
      public instances.
    - [Result]: [basic/utils/result.hpp].
    - [Snowflake]: [tools/Snowflake.hpp].
    - [Address]: [basic/address.cc]; [Socket]: [basic/socket.cc] and the binding of
      [server/tcp/tcpServer.cc]; [SocketEvents]: cancelling on the IO manager.
    - [Http]: [protocol/http/http.cc] and, of [server/http/httpServer.cc] and
      [server/tcp/tcpServer.cc], routing, sending and accepting.
    - [HttpMessage], [HttpRequest], [HttpLimits], [HttpResponse], [HttpParams]:
      [protocol/http/parser.hpp] and [protocol/http/impl/], the incremental parsers
      of requests and responses, their limits, and parameter lists.
      [HttpApi]: the class [Response] of [protocol/http/http.hpp], as a map.
    - [HttpServer]: the receive loop and [handleClient] of [httpServer.cc].  [Upgrade],
      [Route]: [handShake] and the route of a WebSocket of [wsserver.cc] and [.tpp],
      which join the HTTP and the WebSocket server.
    - [StdMap]: [std::map] and [std::set] with string keys.  [LogFormat], [Logger],
      [LogManager]: [basic/log.cc], the pattern language, the loggers and
      appenders, the manager.  [Config]: [basic/config.h] and [config.cc], over
      the class [Json] (the JSON library).  [LogConfig]: the two together.

    ** How the code is modelled

    An unsigned integer of [w] bits is a [Z], and every operation that can leave
    the range writes the wrap-around with [wrap].  Octets are [Z]; buffers are
    lists with the positions the source keeps.  Fallible functions return
    [option] or a result type with one constructor per way of ending: a return
    code, an exception, a failed assertion, waiting for an answer, an access the
    language leaves undefined.  Shared objects ([TimerBlock]s, sessions) live in
    a heap or a table, so that aliases see each other's changes.  Code that runs
    under one lock is one step; where several threads take turns, each access to
    shared state is a step of an [Inductive] relation, and the theorems hold for
    every interleaving.  What comes from outside (the clock, the socket, epoll,
    connecting to a database, the random mask key) is an argument.

    ** What the theorems show

    - WebSocket frames: [FrameBuffer::consume] computes the abstract decoder for
      every cut of the stream into reads; encoding and decoding are inverse, for
      plain, masked and close frames and for the stand-alone codec.
    - Handshake: an upgrade request that the HTTP session received in any pieces, unless
      they are so many that the head is refused, is answered with the accept key of
      RFC 6455 ([upgrade_accepts]); SHA-1 agrees with the standard, Base64 decodes what it encodes.
    - Sessions and server: the handler is called for exactly the frames of the
      stream, however many there are ([route_serves], which names what it asks of reads
      and handlers); the session table and the id allocator agree at all times;
      [alloc] returns the least free id; heartbeat; concurrent sends never
      interleave two frames and keep their order, with the two ways in which a frame is
      left behind.
    - Timers: over any sequence of insertions and expiries, one at a time, the manager is
      its abstract timer, with the descriptor armed for the earliest task; in every
      interleaving of insertions and triggers each task is in exactly one place, and in a
      block the manager has unless an insertion and a trigger overlapped
      ([timer_conserves_tasks]; [insert_trigger_race] is what happens then); periodic
      timers do not drift; a time limit and its event run exactly one of their two branches.
    - Scheduler, threads: in every interleaving of workers and callers no task is lost
      or run twice, no wake-up is lost ([no_task_stranded]), after a stop the workers come to their end
      ([stop_ends_threads]); one
      worker runs a given load to the end; a thread is started and released once.
    - Coroutines: awaiting is calling ([awaiting_is_calling]): a program of coroutines
      does what the same program does in direct style, but that the caller of a callee that
      throws hangs; so it does on any number of threads,
      whatever their order, and they come to rest ([threads_keep_the_program]); and on the
      workers of a scheduler, where no answer is lost on its way to the coroutine that
      waits for it ([scheduler_runs_clients]); the last two are stated against ordinary
      calls ([called]), with the hang as an outcome of its own; a completed coroutine notifies each callback once; the frame is
      never destroyed twice; whatever a program does with task
      objects, none refers to a frame that is gone, and a frame is left only through the
      window at the end of a coroutine ([tasks_leave_no_frame]); an awaiter resumes its
      coroutine once, and may be used by a late [resume] when it is gone.
    - IO manager: the descriptors' event masks and the kernel's stay in step
      under every operation, for every descriptor for which no call failed and which was
      not closed with events registered; cancelling wakes a waiter once; the task queue of a
      descriptor runs every task exactly once, in order, unless a task throws.
    - Connection pools: counters and free list agree; as long as connecting succeeds, no
      two queries share a connection, and every query ends within a bound on the steps
      ([DbFaults] is what happens otherwise); a wrapper gives its connection back once.  MySQL: every cell of a result is found under its
      column and row; a statement makes only calls its protocol allows, and follows a null handle exactly
      when it was closed or could not be made; a row reads back as
      the server sent it.  Redis: a reply
      reads back and is freed once.  A result type stands for what was put into it.
    - Identifiers increase.
    - Addresses: subnets of IPv4 addresses, the order on addresses, the memory
      image and back, the split of a host; where IPv6 prefixes and [operator==]
      go wrong.
    - HTTP: a request or response that is printed and parsed, in whatever pieces it
      arrives, comes out as it was or is refused because the pieces count against the
      header limit; what the parser accepts is well formed, what
      it stores is bounded by its limits, what breaks a limit is refused; the
      receive loop ends, and the server answers each request of a connection in
      turn; parameters and cookies are decoded, the handler chosen for a request,
      partial sends, the accept loops; a response is a map of headers without regard to case.
    - Hooks: a hooked call repeats interrupted and would-block calls, waits with the
      descriptor's time limit and never reports EAGAIN; descriptor flags read back.
    - Sockets: no two socket objects own one descriptor, and none is closed twice.
    - Logging: the formatter prints what the directives of its pattern stand for;
      an event reaches exactly the appenders that admit it; which calls
      make logging fail is known ([logging_never_fails]); a document that is loaded reconfigures the loggers in
      place, and definitions with appenders survive the way through JSON.
    - Configuration: variables have the values of the current document, but for
      assignments and loads that an exception interrupted.
    - Each behaviour of the code that differs from its intent (listed as findings
      of the manifest) is a theorem about the same definitions.

    ** Fuel and bounds

    [websocket_parser_execute] runs with one unit of fuel per octet of the input
    and one more, since every round takes an octet; [WsRefine] proves that this
    never runs out.  [explode_loop] has fuel for every position of its string
    ([explode_loop_split]), [countr_one] for the 64 bits of a chunk.  [handle_loop]
    is the source's loop of 1000 rounds.  [recv_loop] has two rounds more than
    the largest request has octets, which [recv_total] proves enough; the loops over
    lines, parameters and log patterns have one round per octet, shown enough where
    they are specified; [logger_log] needs two, as a root logger has no root.  [fetch] and [run_worker] take fuel as an
    argument, and [worker_runs_all] gives an amount that is enough; a lone call of [co_sendFrame] takes fewer than the ten
    steps of [send_alone].  Recursions over answers of
    the environment (peers, clock readings, results of connecting) are structural
    on the list of answers: running past its end is waiting, not a result.

    ** What is not modelled

    The singleton template, back traces and macros, the message-queue stubs, and
    third-party code the program does not call ([protocol/common], the MD5 and test programs of
    [protocol/websocket]).  The client libraries of MySQL and Redis, the JSON library, the kernel
    and the resolver are parameters.  Messages the code prints are left out.  Loggers
    are taken one operation at a time, but for the two critical sections of [getLogger];
    memory orders other than sequential consistency are not considered.  A task of
    [SchedThreads] is a number; [CoroSched] gives those that start or resume coroutines their
    meaning.  The coroutines of [CoroCall], [CoroThreads] and [CoroSched] keep their frames:
    who destroys them is in [CoroFrame] and [TaskStore], and what a program does to memory
    other than through its operations and results is not seen. *)

From stdpp Require Export base list numbers option strings.
From Stdlib Require Export ZArith Lia.

Open Scope Z_scope.

(** ** Machine integers

    A [w]-bit unsigned integer is a [Z]; every operation of the source that can
    leave the range writes the wrap-around out with [wrap]. *)

Definition wrap (w x : Z) : Z := x mod 2 ^ w.

Declare Scope cpp_scope.
Delimit Scope cpp_scope with cpp.
Notation "'u8' x" := (wrap 8 x) (at level 9, x at level 9) : cpp_scope.
Notation "'u16' x" := (wrap 16 x) (at level 9, x at level 9) : cpp_scope.
Notation "'u32' x" := (wrap 32 x) (at level 9, x at level 9) : cpp_scope.
Notation "'u64' x" := (wrap 64 x) (at level 9, x at level 9) : cpp_scope.
Notation "x & y" := (Z.land x y) (at level 40, left associativity) : cpp_scope.
Notation "x ||| y" := (Z.lor x y) (at level 50, left associativity) : cpp_scope.
Notation "x ^^ y" := (Z.lxor x y) (at level 45, left associativity) : cpp_scope.
Notation "x '<<<' n" := (Z.shiftl x n) (at level 36, left associativity) : cpp_scope.
Notation "x '>>>' n" := (Z.shiftr x n) (at level 36, left associativity) : cpp_scope.
Open Scope cpp_scope.

(** Conversion to a 32-bit [int]. *)
Definition to_int (x : Z) : Z := (x + 2 ^ 31) mod 2 ^ 32 - 2 ^ 31.

Lemma to_int_small x : - 2 ^ 31 <= x < 2 ^ 31 -> to_int x = x.
Proof. intros. unfold to_int. rewrite Z.mod_small by lia. lia. Qed.

(** C's conversion of an integer to a condition. *)
Definition truthy (x : Z) : bool := negb (x =? 0).

(** An octet. *)
Definition byte_ok (b : Z) : Prop := 0 <= b < 256.
#[global] Instance byte_ok_dec b : Decision (byte_ok b).
Proof. unfold byte_ok. apply _. Defined.

Definition bytes_ok : list Z -> Prop := Forall byte_ok.
#[global] Instance bytes_ok_dec l : Decision (bytes_ok l).
Proof. unfold bytes_ok. apply _. Defined.

(** The length of a container as the [size_t] the source computes with. *)
Definition zlen {A} (l : list A) : Z := Z.of_nat (length l).

Create HintDb sylar.
Create Rewrite HintDb sylar.

(** ** Tactics *)

(** Case on the boolean tests of the goal, turning each into an inequality. *)
Ltac case_bool :=
  match goal with
  | |- context [if ?b then _ else _] => let E := fresh "E" in destruct b eqn:E
  end.

Ltac bool_to_prop :=
  repeat match goal with
  | H : (_ && _)%bool = true |- _ => apply andb_true_iff in H; destruct H
  | H : (_ || _)%bool = false |- _ => apply orb_false_iff in H; destruct H
  | H : (_ <=? _) = true |- _ => apply Z.leb_le in H
  | H : (_ <=? _) = false |- _ => apply Z.leb_gt in H
  | H : (_ <? _) = true |- _ => apply Z.ltb_lt in H
  | H : (_ <? _) = false |- _ => apply Z.ltb_ge in H
  | H : (_ =? _) = true |- _ => apply Z.eqb_eq in H
  | H : (_ =? _) = false |- _ => apply Z.eqb_neq in H
  end.

(** Equality of lists up to the association of [++]. *)
Ltac app_simpl := repeat (rewrite <- app_assoc; cbn [app]); reflexivity.

(** ** Lemmas on machine integers *)

Lemma wrap_small w x : 0 <= x < 2 ^ w -> wrap w x = x.
Proof. apply Z.mod_small. Qed.

Lemma wrap_range w x : 0 <= w -> 0 <= wrap w x < 2 ^ w.
Proof. intros. apply Z.mod_pos_bound. by apply Z.pow_pos_nonneg. Qed.

Lemma wrap_idemp w x : 0 <= w -> wrap w (wrap w x) = wrap w x.
Proof. intros. apply wrap_small. by apply wrap_range. Qed.

Lemma truthy_spec x : truthy x = true <-> x <> 0.
Proof. unfold truthy. rewrite negb_true_iff, Z.eqb_neq. done. Qed.

Lemma truthy_false x : truthy x = false <-> x = 0.
Proof. unfold truthy. rewrite negb_false_iff, Z.eqb_eq. done. Qed.

Lemma land_255_byte x : byte_ok (x & 255).
Proof.
  unfold byte_ok. change 255 with (Z.ones 8). rewrite Z.land_ones by lia.
  apply Z.mod_pos_bound. lia.
Qed.

Lemma land_ones_small x w : 0 <= w -> 0 <= x < 2 ^ w -> (x & Z.ones w) = x.
Proof. intros. rewrite Z.land_ones by done. by apply Z.mod_small. Qed.

Lemma lxor_byte x y : byte_ok x -> byte_ok y -> byte_ok (x ^^ y).
Proof.
  unfold byte_ok. intros Hx Hy.
  assert (0 <= x ^^ y) by (apply Z.lxor_nonneg; lia).
  split; [done|].
  destruct (Z.eq_dec (x ^^ y) 0) as [->|]; [lia|].
  apply (Z.log2_lt_pow2 _ 8); [lia|].
  eapply Z.le_lt_trans; [apply Z.log2_lxor; lia|].
  assert (forall z, 0 <= z < 256 -> Z.log2 z < 8).
  { intros z Hz. destruct (Z.eq_dec z 0) as [->|]; [done|].
    apply (Z.log2_lt_pow2 z 8); [lia|]. change (2 ^ 8) with 256. lia. }
  apply Z.max_lub_lt; auto.
Qed.

Lemma lxor_cancel_r x y : ((x ^^ y) ^^ y) = x.
Proof. by rewrite Z.lxor_assoc, Z.lxor_nilpotent, Z.lxor_0_r. Qed.

(** One step of reading a big-endian number octet by octet. *)
Lemma be_step x s :
  0 <= s -> (((x >>> (s + 8)) <<< 8) ||| ((x >>> s) & 255)) = (x >>> s).
Proof.
  intros Hs. change 255 with (Z.ones 8). apply Z.bits_inj'. intros i Hi.
  rewrite Z.lor_spec, Z.shiftl_spec, Z.land_spec, (Z.shiftr_spec x s) by lia.
  destruct (decide (i < 8)).
  - rewrite (Z.testbit_neg_r _ (i - 8)) by lia.
    rewrite Z.ones_spec_low by lia. by rewrite andb_true_r.
  - rewrite Z.shiftr_spec by lia. rewrite Z.ones_spec_high by lia.
    rewrite andb_false_r, orb_false_r. f_equal. lia.
Qed.

(** Two disjoint bit fields: [lor] is the sum. *)
Lemma lor_add_disjoint x y n :
  0 <= n -> 0 <= y < 2 ^ n -> ((x <<< n) ||| y) = x * 2 ^ n + y.
Proof.
  intros Hn Hy. rewrite Z.shiftl_mul_pow2 by done.
  rewrite <- Z.lxor_lor.
  - rewrite <- Z.add_nocarry_lxor; [done|].
    rewrite <- Z.shiftl_mul_pow2 by done. apply Z.bits_inj'. intros i Hi.
    rewrite Z.land_spec, Z.bits_0. destruct (decide (i < n)).
    + rewrite Z.shiftl_spec_low by lia. done.
    + rewrite <- (Z.mod_small y (2 ^ n)) by done.
      rewrite Z.mod_pow2_bits_high by lia. by rewrite andb_false_r.
  - rewrite <- Z.shiftl_mul_pow2 by done. apply Z.bits_inj'. intros i Hi.
    rewrite Z.land_spec, Z.bits_0. destruct (decide (i < n)).
    + rewrite Z.shiftl_spec_low by lia. done.
    + rewrite <- (Z.mod_small y (2 ^ n)) by done.
      rewrite Z.mod_pow2_bits_high by lia. by rewrite andb_false_r.
Qed.

(** ** Lemmas on lists *)

Lemma zlen_nonneg {A} (l : list A) : 0 <= zlen l.
Proof. unfold zlen. lia. Qed.

Lemma zlen_app {A} (l k : list A) : zlen (l ++ k) = zlen l + zlen k.
Proof. unfold zlen. rewrite length_app. lia. Qed.

Lemma zlen_cons {A} (x : A) l : zlen (x :: l) = 1 + zlen l.
Proof. unfold zlen. simpl. lia. Qed.

Lemma zlen_nil {A} : zlen (@nil A) = 0.
Proof. done. Qed.

#[export] Hint Rewrite @zlen_app @zlen_cons : sylar.
#[export] Hint Resolve zlen_nonneg : sylar.

(** Push [zlen] to the atoms of the goal. *)
Ltac zlen_nil_simpl :=
  repeat match goal with
  | |- context [zlen (@nil ?A)] => change (zlen (@nil A)) with 0
  end.
Ltac zlen_simpl := zlen_nil_simpl; autorewrite with sylar; zlen_nil_simpl.

(** Writing a block of octets into a buffer at an offset ([memcpy]-like loops). *)
Definition write_at {A} (off : nat) (xs buf : list A) : list A :=
  take off buf ++ xs ++ drop (off + length xs) buf.

Lemma write_at_nil {A} off (buf : list A) : write_at off [] buf = buf.
Proof. unfold write_at. simpl. by rewrite Nat.add_0_r, take_drop. Qed.

Lemma length_write_at {A} off (xs buf : list A) :
  (off + length xs <= length buf)%nat -> length (write_at off xs buf) = length buf.
Proof. intros. unfold write_at. rewrite !length_app, length_take, length_drop. lia. Qed.

Lemma write_at_app {A} off (xs ys buf : list A) :
  (off + length xs <= length buf)%nat ->
  write_at off (xs ++ ys) buf = write_at (off + length xs) ys (write_at off xs buf).
Proof.
  intros H. unfold write_at.
  rewrite (take_app_ge _ _ (off + length xs)), (drop_app_ge _ _ (off + length xs + length ys))
    by (rewrite length_take; lia).
  rewrite length_take, Nat.min_l by lia.
  replace (off + length xs - off)%nat with (length xs) by lia.
  rewrite (take_app_length' xs) by lia. rewrite (drop_app_ge xs) by lia.
  rewrite drop_drop, length_app, <- !app_assoc. do 3 f_equal. f_equal. lia.
Qed.

Lemma write_at_full {A} (xs buf : list A) :
  length xs = length buf -> write_at 0 xs buf = xs.
Proof. intros H. unfold write_at. simpl. rewrite H, drop_all. by rewrite app_nil_r. Qed.

(** Of two prefixes of a list the shorter one is a prefix of the longer one. *)
Lemma app_prefix {A} (a b c d : list A) :
  a ++ b = c ++ d -> (length a <= length c)%nat -> c = a ++ drop (length a) c.
Proof.
  intros E Hl. apply (f_equal (take (length a))) in E. rewrite take_app_length, take_app_le in E by done.
  rewrite E at 1. by rewrite take_drop.
Qed.

(** ** Facts about small numbers, decided by evaluation *)

Lemma below_decide (n : Z) (P : Z -> Prop) `{!forall b, Decision (P b)} :
  forallb (fun b => bool_decide (P b)) (seqZ 0 n) = true -> forall b, 0 <= b < n -> P b.
Proof.
  intros Hall b Hb. rewrite forallb_forall in Hall.
  apply (bool_decide_eq_true_1 (P b)), Hall.
  apply list_elem_of_In, elem_of_seqZ. lia.
Qed.

(** Closes a decidable proposition with no variables by evaluation. *)
Ltac decide_now :=
  match goal with |- ?P => refine (bool_decide_unpack P _); vm_compute; exact I end.
