(* ===== verification/Endian.v ===== *)
(** * Byte order

    Models [sylar/basic/endian.h] on the little-endian hosts the library is
    built for (the [#else] branch: [BYTE_ORDER] is [LITTLE_ENDIAN]), together
    with the memory image of an integer, which the sources read and write with
    [memcpy]. *)

From S2P Require Import Prelude.

(** ** Memory image of an [n]-octet integer on a little-endian host *)

Fixpoint le_bytes (n : nat) (x : Z) : list Z :=
  match n with
  | O => []
  | S n => (x & 255) :: le_bytes n (x >>> 8)
  end.

Fixpoint of_le_bytes (bs : list Z) : Z :=
  match bs with
  | [] => 0
  | b :: bs => b ||| (of_le_bytes bs <<< 8)
  end.

(** ** The swaps *)

(** [byteSwap<T>] for [sizeof(T) = n]: [bswap_16], [bswap_32], [bswap_64]. *)
Definition byteSwap (n : nat) (x : Z) : Z := of_le_bytes (reverse (le_bytes n x)).

Definition byteSwapToLittleEndian (n : nat) (x : Z) : Z := x.
Definition byteSwapToBigEndian (n : nat) (x : Z) : Z := byteSwap n x.
Definition NetByteSwapToHostEndian (n : nat) (x : Z) : Z := byteSwap n x.

(** ** Lemmas *)

Lemma length_le_bytes n x : length (le_bytes n x) = n.
Proof. revert x. induction n; intros; simpl; auto. Qed.

Lemma le_bytes_ok n x : bytes_ok (le_bytes n x).
Proof.
  revert x. induction n; intros; constructor; [apply land_255_byte|apply IHn].
Qed.

Lemma of_le_bytes_cons b bs :
  byte_ok b -> of_le_bytes (b :: bs) = of_le_bytes bs * 256 + b.
Proof.
  intros Hb. simpl. rewrite Z.lor_comm. rewrite lor_add_disjoint; [done|lia|done].
Qed.

Lemma of_le_bytes_range bs :
  bytes_ok bs -> 0 <= of_le_bytes bs < 2 ^ (8 * zlen bs).
Proof.
  induction 1 as [|b bs Hb _ IH]; [simpl; unfold zlen; simpl; lia|].
  rewrite of_le_bytes_cons by done. rewrite zlen_cons.
  replace (8 * (1 + zlen bs)) with (8 + 8 * zlen bs) by lia.
  rewrite Z.pow_add_r by (pose proof (zlen_nonneg bs); lia).
  change (2 ^ 8) with 256. destruct Hb. nia.
Qed.

Lemma of_le_bytes_le_bytes n x :
  0 <= x < 2 ^ (8 * Z.of_nat n) -> of_le_bytes (le_bytes n x) = x.
Proof.
  revert x. induction n as [|n IH]; intros x Hx; [simpl in *; lia|].
  cbn [le_bytes]. rewrite of_le_bytes_cons by apply land_255_byte.
  rewrite IH.
  - change 255 with (Z.ones 8). rewrite Z.land_ones, Z.shiftr_div_pow2 by lia.
    pose proof (Z.div_mod x (2 ^ 8)). lia.
  - rewrite Z.shiftr_div_pow2 by lia.
    replace (8 * Z.of_nat (S n)) with (8 + 8 * Z.of_nat n) in Hx by lia.
    rewrite Z.pow_add_r in Hx by lia. split; [apply Z.div_pos; lia|].
    apply Z.div_lt_upper_bound; lia.
Qed.

Lemma le_bytes_of_le_bytes bs :
  bytes_ok bs -> le_bytes (length bs) (of_le_bytes bs) = bs.
Proof.
  induction 1 as [|b bs Hb Hbs IH]; [done|].
  cbn [length le_bytes]. rewrite of_le_bytes_cons by done.
  destruct Hb. f_equal.
  - change 255 with (Z.ones 8). rewrite Z.land_ones by lia.
    change (2 ^ 8) with 256. rewrite Z.add_comm, Z.mod_add by lia.
    by apply Z.mod_small.
  - rewrite Z.shiftr_div_pow2 by lia. change (2 ^ 8) with 256.
    rewrite Z.add_comm, Z.div_add, Z.div_small by lia. apply IH.
Qed.

Lemma bytes_ok_reverse bs : bytes_ok bs -> bytes_ok (reverse bs).
Proof. unfold bytes_ok. rewrite Forall_reverse. done. Qed.

#[export] Hint Resolve le_bytes_ok bytes_ok_reverse : sylar.

Lemma byteSwap_range n x : 0 <= byteSwap n x < 2 ^ (8 * Z.of_nat n).
Proof.
  pose proof (of_le_bytes_range (reverse (le_bytes n x))) as H.
  unfold byteSwap. rewrite <- (length_le_bytes n x) at 3.
  rewrite <- length_reverse. apply H. auto with sylar.
Qed.

(** The image of the swapped value is the reversed image: [byteSwapToBigEndian]
    writes the most significant octet first. *)
Lemma le_bytes_byteSwap n x : le_bytes n (byteSwap n x) = reverse (le_bytes n x).
Proof.
  unfold byteSwap. rewrite <- (length_le_bytes n x) at 1.
  rewrite <- length_reverse. apply le_bytes_of_le_bytes. auto with sylar.
Qed.

Lemma byteSwap_involutive n x :
  0 <= x < 2 ^ (8 * Z.of_nat n) -> byteSwap n (byteSwap n x) = x.
Proof.
  intros Hx. unfold byteSwap at 1. rewrite le_bytes_byteSwap, reverse_involutive.
  by apply of_le_bytes_le_bytes.
Qed.

(** Reading a two-octet big-endian field of memory. *)
Lemma net16_of_image b0 b1 :
  byte_ok b0 -> byte_ok b1 ->
  NetByteSwapToHostEndian 2 (of_le_bytes [b0; b1]) = b0 * 256 + b1.
Proof.
  intros H0 H1. unfold NetByteSwapToHostEndian, byteSwap.
  pose proof (le_bytes_of_le_bytes [b0; b1]) as E. cbn [length] in E.
  rewrite E by (repeat constructor; apply H0 || apply H1).
  change (reverse [b0; b1]) with [b1; b0].
  rewrite !of_le_bytes_cons by done. cbn [of_le_bytes]. lia.
Qed.
