(* ===== verification/WsParser.v ===== *)
(** * The incremental WebSocket frame parser

    Models [sylar/protocol/websocket/websocket_parser.h] and
    [websocket_parser.cc]: the parser record, the state machine
    [websocket_parser_execute] with its three callbacks, the XOR masking and the
    frame builder.  A callback is a function of the parser and of the
    application data [U] behind [parser->data]; it returns its [int] with the
    new parser and data, or it throws. *)

From S2P Require Import Prelude.

(** ** Flags ([enum websocket_flags]) *)

Definition WS_OP_CONTINUE : Z := 0x0.
Definition WS_OP_TEXT : Z := 0x1.
Definition WS_OP_BINARY : Z := 0x2.
Definition WS_OP_CLOSE : Z := 0x8.
Definition WS_OP_PING : Z := 0x9.
Definition WS_OP_PONG : Z := 0xA.
Definition WS_FINAL_FRAME : Z := 0x10.
Definition WS_HAS_MASK : Z := 0x20.
Definition WS_OP_MASK : Z := 0xF.
Definition WS_FIN : Z := WS_FINAL_FRAME.

(** ** The parser record *)

(** [enum state]; the field only ever holds one of these. *)
Inductive pstate := s_start | s_head | s_length | s_mask | s_body.

#[global] Instance pstate_eq_dec : EqDecision pstate.
Proof. solve_decision. Defined.

Record websocket_parser := mk_parser {
  p_state : pstate;
  p_flags : Z;
  p_mask : list Z;            (* char mask[4] *)
  p_mask_offset : Z;          (* uint8_t *)
  p_length : Z;               (* size_t *)
  p_require : Z;              (* size_t *)
  p_offset : Z;               (* size_t *)
}.

Definition set_state (s : pstate) (p : websocket_parser) : websocket_parser :=
  mk_parser s (p_flags p) (p_mask p) (p_mask_offset p) (p_length p) (p_require p) (p_offset p).
Definition set_flags (f : Z) (p : websocket_parser) : websocket_parser :=
  mk_parser (p_state p) f (p_mask p) (p_mask_offset p) (p_length p) (p_require p) (p_offset p).
Definition set_mask (m : list Z) (p : websocket_parser) : websocket_parser :=
  mk_parser (p_state p) (p_flags p) m (p_mask_offset p) (p_length p) (p_require p) (p_offset p).
Definition set_mask_offset (o : Z) (p : websocket_parser) : websocket_parser :=
  mk_parser (p_state p) (p_flags p) (p_mask p) o (p_length p) (p_require p) (p_offset p).
Definition set_length (n : Z) (p : websocket_parser) : websocket_parser :=
  mk_parser (p_state p) (p_flags p) (p_mask p) (p_mask_offset p) n (p_require p) (p_offset p).
Definition set_require (n : Z) (p : websocket_parser) : websocket_parser :=
  mk_parser (p_state p) (p_flags p) (p_mask p) (p_mask_offset p) (p_length p) n (p_offset p).
Definition set_offset (n : Z) (p : websocket_parser) : websocket_parser :=
  mk_parser (p_state p) (p_flags p) (p_mask p) (p_mask_offset p) (p_length p) (p_require p) n.

(** [websocket_parser_init]: [memset] to zero, keeping [parser->data]. *)
Definition websocket_parser_init : websocket_parser :=
  mk_parser s_start 0 [0; 0; 0; 0] 0 0 0 0.

Definition websocket_parser_get_opcode (p : websocket_parser) : Z := p_flags p & WS_OP_MASK.
Definition websocket_parser_has_mask (p : websocket_parser) : Z := p_flags p & WS_HAS_MASK.
Definition websocket_parser_has_final (p : websocket_parser) : Z := p_flags p & WS_FIN.

(** ** Callbacks *)

Inductive cb_res (U : Type) :=
  | cb_ret (rc : Z) (p : websocket_parser) (u : U)
  | cb_throw (p : websocket_parser) (u : U).
Arguments cb_ret {U}.
Arguments cb_throw {U}.

(** [struct websocket_parser_settings]; a null pointer is [None]. *)
Record websocket_parser_settings (U : Type) := mk_settings {
  on_frame_header : option (websocket_parser -> U -> cb_res U);
  on_frame_body : option (websocket_parser -> list Z -> U -> cb_res U);
  on_frame_end : option (websocket_parser -> U -> cb_res U);
}.
Arguments mk_settings {U}.
Arguments on_frame_header {U}.
Arguments on_frame_body {U}.
Arguments on_frame_end {U}.

Definition websocket_parser_settings_init {U} : websocket_parser_settings U :=
  mk_settings None None None.

(** What a call of [websocket_parser_execute] does: it returns [nparsed], a
    callback's exception leaves it, or (never from a well-formed parser, see
    the termination results of the frame buffer) the iteration bound is hit. *)
Inductive exec_res (U : Type) :=
  | exec_ret (nparsed : Z) (p : websocket_parser) (u : U)
  | exec_throw (p : websocket_parser) (u : U)
  | exec_fuel.
Arguments exec_ret {U}.
Arguments exec_throw {U}.
Arguments exec_fuel {U}.

(** ** [websocket_parser_execute] *)

(** [while(HAS_DATA() && parser->require)] of [case s_length]: returns the
    parser, the unread input and the number of octets read. *)
Fixpoint read_length (p : websocket_parser) (rest : list Z) : websocket_parser * list Z * Z :=
  match rest with
  | [] => (p, [], 0)
  | c :: rest' =>
      if truthy (p_require p) then
        let '(p', r, n) :=
          read_length (set_require (u64 (p_require p - 1))
                        (set_length ((u64 (p_length p <<< 8)) ||| c) p)) rest' in
        (p', r, n + 1)
      else (p, rest, 0)
  end.

(** [while(HAS_DATA() && parser->require)] of [case s_mask]. *)
Fixpoint read_mask (p : websocket_parser) (rest : list Z) : websocket_parser * list Z * Z :=
  match rest with
  | [] => (p, [], 0)
  | c :: rest' =>
      if truthy (p_require p) then
        let '(p', r, n) :=
          read_mask (set_require (u64 (p_require p - 1))
                      (set_mask (<[Z.to_nat (4 - p_require p) := c]> (p_mask p)) p)) rest' in
        (p', r, n + 1)
      else (p, rest, 0)
  end.

Section Execute.
Context {U : Type} (settings : websocket_parser_settings U).

(** [NOTIFY_CB] and [EMIT_DATA_CB]: [pos] is [p - data], the value of
    [GET_NPARSED()] when the callback fails. *)
Definition NOTIFY_CB (cb : option (websocket_parser -> U -> cb_res U)) (pos : Z)
    (p : websocket_parser) (u : U)
    (k : websocket_parser -> U -> exec_res U) : exec_res U :=
  match cb with
  | None => k p u
  | Some f =>
      match f p u with
      | cb_throw p' u' => exec_throw p' u'
      | cb_ret rc p' u' => if truthy rc then exec_ret pos p' u' else k p' u'
      end
  end.

Definition EMIT_DATA_CB (at_ : list Z) (pos : Z) (p : websocket_parser) (u : U)
    (k : websocket_parser -> U -> exec_res U) : exec_res U :=
  match on_frame_body settings with
  | None => k p u
  | Some f =>
      match f p at_ u with
      | cb_throw p' u' => exec_throw p' u'
      | cb_ret rc p' u' => if truthy rc then exec_ret pos p' u' else k p' u'
      end
  end.

(** The three-way exit of a complete header: wait for the mask, go on with the
    body, or finish an empty frame.  [after_header] is the part without mask. *)
Definition after_header (pos : Z) (p : websocket_parser) (u : U)
    (k : websocket_parser -> U -> exec_res U) : exec_res U :=
  if truthy (p_length p) then
    NOTIFY_CB (on_frame_header settings) pos
      (set_require (p_length p) (set_state s_body p)) u k
  else
    NOTIFY_CB (on_frame_header settings) pos (set_state s_start p) u
      (fun p u => NOTIFY_CB (on_frame_end settings) pos p u k).

Definition after_length (pos : Z) (p : websocket_parser) (u : U)
    (k : websocket_parser -> U -> exec_res U) : exec_res U :=
  if truthy (websocket_parser_has_mask p) then
    k (set_require 4 (set_state s_mask p)) u
  else after_header pos p u k.

(** [case s_start] *)
Definition on_start (CC : Z) (p : websocket_parser) : websocket_parser :=
  let flags := CC & WS_OP_MASK in
  let flags := if truthy (CC & (1 <<< 7)) then flags ||| WS_FIN else flags in
  mk_parser s_head flags (p_mask p) 0 0 (p_require p) 0.

(** [case s_head], up to the choice of the next state *)
Definition on_head (CC : Z) (p : websocket_parser) : websocket_parser :=
  let p := set_length (CC & 0x7F) p in
  if truthy (CC & 0x80) then set_flags (p_flags p ||| WS_HAS_MASK) p else p.

(** The [for(p = data; p != end; p++)] loop: [rest] is the input from [p] to
    [end], [pos] is [p - data].  In [s_length], [s_mask] and [s_body] the code
    leaves [p] one before the next octet ([p--]) for the loop's [p++]. *)
Fixpoint execute_loop (fuel : nat) (p : websocket_parser) (u : U)
    (pos : Z) (rest : list Z) (frame_offset : Z) : exec_res U :=
  match fuel with
  | O => exec_fuel
  | S fuel =>
    match rest with
    | [] => exec_ret pos p u
    | CC :: rest' =>
      match p_state p with
      | s_start =>
          execute_loop fuel (on_start CC p) u (pos + 1) rest' (frame_offset + 1)
      | s_head =>
          let p := on_head CC p in
          if 126 <=? p_length p then
            let p := set_require (if p_length p =? 127 then 8 else 2) p in
            execute_loop fuel (set_state s_length (set_length 0 p)) u
              (pos + 1) rest' (frame_offset + 1)
          else
            after_length pos p u (fun p u =>
              execute_loop fuel p u (pos + 1) rest' (frame_offset + 1))
      | s_length =>
          let '(p, rest'', n) := read_length p rest in
          let k := fun p u => execute_loop fuel p u (pos + n) rest'' (frame_offset + n) in
          if truthy (p_require p) then k p u
          else after_length (pos + n - 1) p u k
      | s_mask =>
          let '(p, rest'', n) := read_mask p rest in
          let k := fun p u => execute_loop fuel p u (pos + n) rest'' (frame_offset + n) in
          if truthy (p_require p) then k p u
          else after_header (pos + n - 1) p u k
      | s_body =>
          if truthy (p_require p) then
            if p_require p <=? zlen rest then
              EMIT_DATA_CB (take (Z.to_nat (p_require p)) rest) pos p u (fun p u =>
                let n := p_require p in
                NOTIFY_CB (on_frame_end settings) (pos + n - 1) (set_require 0 p) u
                  (fun p u =>
                    execute_loop fuel (set_state s_start p) u (pos + n)
                      (drop (Z.to_nat n) rest) (pos + n)))
            else
              EMIT_DATA_CB rest pos p u (fun p u =>
                let n := zlen rest in
                let p := set_require (u64 (p_require p - n)) p in
                let p := set_offset (u64 (p_offset p + (pos + n - frame_offset))) p in
                if truthy (p_require p) then execute_loop fuel p u (pos + n) [] 0
                else
                  NOTIFY_CB (on_frame_end settings) (pos + n - 1) p u (fun p u =>
                    execute_loop fuel (set_state s_start p) u (pos + n) [] 0))
          else
            NOTIFY_CB (on_frame_end settings) pos p u (fun p u =>
              execute_loop fuel (set_state s_start p) u (pos + 1) rest' frame_offset)
      end
    end
  end.

(** One iteration per octet is enough from every well-formed parser, and one
    more for the exit test. *)
Definition websocket_parser_execute (p : websocket_parser) (u : U) (data : list Z) : exec_res U :=
  execute_loop (S (length data)) p u 0 data 0.

End Execute.

(** ** Masking *)

(** [dst[i] = src[i] ^ mask[(i + mask_offset) % 4]] for [i < len]: returns the
    octets written and the new offset. *)
Fixpoint mask_octets (mask : list Z) (mask_offset i : Z) (src : list Z) : list Z :=
  match src with
  | [] => []
  | c :: src' =>
      (c ^^ (default 0 (mask !! Z.to_nat ((i + mask_offset) mod 4))))
        :: mask_octets mask mask_offset (i + 1) src'
  end.

Definition websocket_decode (src mask : list Z) (mask_offset : Z) : list Z * Z :=
  (mask_octets mask mask_offset 0 src, u8 ((zlen src + mask_offset) mod 4)).

Definition websocket_parser_decode (src : list Z) (p : websocket_parser)
    : list Z * websocket_parser :=
  let (dst, off) := websocket_decode src (p_mask p) (p_mask_offset p) in
  (dst, set_mask_offset off p).

(** ** Building frames *)

Definition websocket_calc_frame_size (flags data_len : Z) : Z :=
  let size := u64 (data_len + 2) in
  let size :=
    if 126 <=? data_len then
      if 0xFFFF <? data_len then u64 (size + 8) else u64 (size + 2)
    else size in
  if truthy (flags & WS_HAS_MASK) then u64 (size + 4) else size.

(** The octets [websocket_build_frame] leaves in [frame]; [data_len] is the
    length of [data].  With [WS_HAS_MASK] and a null [mask] the code keeps the
    octets the caller left in the buffer, the argument [stale]. *)
Definition websocket_build_frame (flags : Z) (mask : option (list Z)) (stale data : list Z)
    : list Z :=
  let data_len := zlen data in
  let frame0 := (if truthy (flags & WS_FIN) then 1 <<< 7 else 0) ||| (flags & WS_OP_MASK) in
  let frame1 := if truthy (flags & WS_HAS_MASK) then 1 <<< 7 else 0 in
  let head :=
    if data_len <? 126 then [frame0; u8 (frame1 ||| data_len)]
    else if data_len <=? 0xFFFF then
      [frame0; frame1 ||| 126; u8 (data_len >>> 8); data_len & 0xFF]
    else
      [frame0; frame1 ||| 127;
       (data_len >>> 56) & 0xFF; (data_len >>> 48) & 0xFF;
       (data_len >>> 40) & 0xFF; (data_len >>> 32) & 0xFF;
       (data_len >>> 24) & 0xFF; (data_len >>> 16) & 0xFF;
       (data_len >>> 8) & 0xFF; data_len & 0xFF] in
  if truthy (flags & WS_HAS_MASK) then
    let m := default stale mask in
    head ++ m ++ fst (websocket_decode data m 0)
  else head ++ data.
