(* ===== verification/WsFrame.v ===== *)
(** * Frames and the frame buffer

    Models [sylar/protocol/websocket/parser.hpp] and [parser.cc]: [Frame], its
    constructors, setters and [make], and [FrameBuffer], which drives
    [websocket_parser_execute] with its three callbacks.

    [max_size] is the largest length [std::string]/[std::vector] accept in
    [resize]: the allocator decides it, and a longer payload makes
    [on_frame_header] throw [std::length_error]. *)

From S2P Require Import Prelude Endian WsParser.

(** ** Data *)

(** [FrameBuffer::Context] without its two back pointers: the parser and the
    frame list it points to are passed alongside it. *)
Record Context := mk_context {
  c_opcode : Z;
  c_payload_length : Z;
  c_payload_text : list Z;
  c_payload_binary : list Z;
  c_payload_received : Z;
}.

Definition Context_init : Context := mk_context WS_OP_CONTINUE 0 [] [] 0.

Definition Context_reset (c : Context) : Context := mk_context WS_OP_CONTINUE 0 [] [] 0.

Record Frame := mk_frame {
  m_opcode : Z;
  m_payload_length : Z;
  m_payload_text : list Z;
  m_payload_binary : list Z;
  m_close_code : Z;               (* uint16_t *)
  m_close_reason : list Z;
}.

Definition Frame_default : Frame := mk_frame WS_OP_CONTINUE 0 [] [] 1000 [].

(** ** Constructors *)

(** The close status of a payload: [memcpy] of two octets into a [uint16_t],
    then [NetByteSwapToHostEndian]; the rest is the reason. *)
Definition close_code_of (payload : list Z) : Z :=
  NetByteSwapToHostEndian 2 (of_le_bytes (take 2 payload)).

Definition extract_close (opcode payload_length : Z) (payload : list Z) : Z * list Z :=
  if (opcode =? WS_OP_CLOSE) && (2 <=? payload_length) then
    (close_code_of payload, drop 2 payload)
  else (m_close_code Frame_default, m_close_reason Frame_default).

(** [Frame(Context* )]; [std::make_shared<Frame>(std::move(context))] moves a
    pointer and calls this one. *)
Definition Frame_of_ptr (context : option Context) : Frame :=
  match context with
  | None => Frame_default
  | Some c =>
      let (code, reason) :=
        extract_close (c_opcode c) (c_payload_length c) (c_payload_text c) in
      mk_frame (c_opcode c) (c_payload_length c) (c_payload_text c) (c_payload_binary c)
        code reason
  end.

(** [Frame(Context&)] *)
Definition Frame_of_ref (c : Context) : Frame :=
  let (code, reason) :=
    extract_close (c_opcode c) (c_payload_length c) (c_payload_text c) in
  mk_frame (c_opcode c) (c_payload_length c) (c_payload_text c) (c_payload_binary c)
    code reason.

(** [Frame(Context&&)]: the close test reads [m_payload_length] before it is
    assigned, while it still holds its default 0. *)
Definition Frame_of_rvalue (c : Context) : Frame * Context :=
  let (code, reason) :=
    extract_close (c_opcode c) (m_payload_length Frame_default) (c_payload_text c) in
  (mk_frame (c_opcode c) (c_payload_length c) (c_payload_text c) (c_payload_binary c)
     code reason,
   Context_reset c).

(** ** Accessors and setters *)

Definition getType (f : Frame) : Z := m_opcode f.
Definition getBinaryPayload (f : Frame) : list Z := m_payload_binary f.
Definition getTextPayload (f : Frame) : list Z := m_payload_text f.
Definition getPayloadLength (f : Frame) : Z := m_payload_length f.
Definition getCloseCode (f : Frame) : Z := m_close_code f.
Definition getCloseReason (f : Frame) : list Z := m_close_reason f.

Definition setOpcode (opcode : Z) (f : Frame) : Frame :=
  mk_frame opcode (m_payload_length f) (m_payload_text f) (m_payload_binary f)
    (m_close_code f) (m_close_reason f).

Definition setTextPayload (text : list Z) (f : Frame) : Frame :=
  mk_frame (m_opcode f) (zlen text) text (m_payload_binary f)
    (m_close_code f) (m_close_reason f).

Definition setBinaryPayload (data : list Z) (f : Frame) : Frame :=
  mk_frame (m_opcode f)
    (if m_opcode f =? WS_OP_BINARY then zlen data else m_payload_length f)
    (m_payload_text f) data (m_close_code f) (m_close_reason f).

Definition setClosePayload (code : Z) (reason : list Z) (f : Frame) : Frame :=
  if negb (m_opcode f =? WS_OP_CLOSE) then f
  else
    let f := mk_frame (m_opcode f) (m_payload_length f) (m_payload_text f)
               (m_payload_binary f) code reason in
    let bcode := byteSwapToBigEndian 2 code in
    setTextPayload (le_bytes 2 bcode ++ reason) f.

Definition setPingPayload (msg : list Z) (f : Frame) : Frame := setTextPayload msg f.
Definition setPongPayload (msg : list Z) (f : Frame) : Frame := setTextPayload msg f.

(** ** [Frame::make] *)

(** The length field: the second octet and the extended length. *)
Definition make_length (byte1 len : Z) : list Z :=
  if len <? 126 then [u8 (byte1 ||| len)]
  else if len <=? 0xFFFF then
    [byte1 ||| 126; (len >>> 8) & 0xFF; len & 0xFF]
  else
    (byte1 ||| 127) :: map (fun i => (len >>> i) & 0xFF) [56; 48; 40; 32; 24; 16; 8; 0].

(** [mask_key] is [Some key] when the caller asks for a mask: the key is drawn
    from the random generator.  The payload is appended as it is. *)
Definition make (f : Frame) (mask_key : option Z) : list Z :=
  let first_byte := (m_opcode f & WS_OP_MASK) ||| 0x80 in
  let len := m_payload_length f in
  let byte1 := match mask_key with Some _ => 0x80 | None => 0 end in
  let key :=
    match mask_key with
    | Some k => [(k >>> 24) & 0xFF; (k >>> 16) & 0xFF; (k >>> 8) & 0xFF; k & 0xFF]
    | None => []
    end in
  let payload :=
    if m_opcode f =? WS_OP_BINARY then m_payload_binary f
    else if m_opcode f =? WS_OP_CLOSE then m_payload_text f
    else m_payload_text f in
  first_byte :: make_length byte1 len ++ key ++ payload.

(** ** [FrameBuffer] *)

Record FrameBuffer := mk_fb {
  m_parser : websocket_parser;
  m_context : Context;
  m_buffered_frames : list Frame;
}.

(** The application data the callbacks reach through [parser->data]. *)
Abbreviation udata := (Context * list Frame)%type.

Section FrameBufferOps.
Context (max_size : Z).

Definition FrameBuffer_on_frame_header (p : websocket_parser) (u : udata) : cb_res udata :=
  let (c, frames) := u in
  let opcode := websocket_parser_get_opcode p in
  let n := p_length p in
  let c := mk_context opcode n [] [] 0 in
  if max_size <? n then cb_throw p (c, frames)
  else
    let zeros := replicate (Z.to_nat n) 0 in
    if opcode =? WS_OP_BINARY then cb_ret 0 p (mk_context opcode n [] zeros 0, frames)
    else cb_ret 0 p (mk_context opcode n zeros [] 0, frames).

Definition FrameBuffer_on_frame_body (p : websocket_parser) (at_ : list Z) (u : udata)
    : cb_res udata :=
  let (c, frames) := u in
  let length := zlen at_ in
  if c_payload_length c <? u64 (c_payload_received c + length) then cb_ret (-1) p u
  else
    let (dst, p) := websocket_parser_decode at_ p in
    let off := Z.to_nat (c_payload_received c) in
    let received := u64 (c_payload_received c + length) in
    if c_opcode c =? WS_OP_BINARY then
      cb_ret 0 p
        (mk_context (c_opcode c) (c_payload_length c) (c_payload_text c)
           (write_at off dst (c_payload_binary c)) received, frames)
    else
      cb_ret 0 p
        (mk_context (c_opcode c) (c_payload_length c)
           (write_at off dst (c_payload_text c)) (c_payload_binary c) received, frames).

Definition FrameBuffer_on_frame_end (p : websocket_parser) (u : udata) : cb_res udata :=
  let (c, frames) := u in
  if negb (c_payload_received c =? c_payload_length c) then cb_ret (-1) p u
  else cb_ret 0 p (c, frames ++ [Frame_of_ptr (Some c)]).

(** [FrameBuffer::FrameBuffer]: the settings it installs and the initial state. *)
Definition FrameBuffer_settings : websocket_parser_settings udata :=
  mk_settings (Some FrameBuffer_on_frame_header) (Some FrameBuffer_on_frame_body)
    (Some FrameBuffer_on_frame_end).

Definition FrameBuffer_init : FrameBuffer :=
  mk_fb websocket_parser_init Context_init [].

(** What [consume] does: the count it returns, or the exception it lets out. *)
Inductive consume_res :=
  | consumed (n : Z) (fb : FrameBuffer)
  | consume_threw (fb : FrameBuffer)
  | consume_fuel.

Definition consume (fb : FrameBuffer) (in_buffer : list Z) : consume_res :=
  match websocket_parser_execute FrameBuffer_settings (m_parser fb)
          (m_context fb, m_buffered_frames fb) in_buffer with
  | exec_ret n p (c, frames) => consumed n (mk_fb p c frames)
  | exec_throw p (c, frames) => consume_threw (mk_fb p c frames)
  | exec_fuel => consume_fuel
  end.

End FrameBufferOps.

Definition getFrameCount (fb : FrameBuffer) : Z := zlen (m_buffered_frames fb).

Definition getFrame (fb : FrameBuffer) : option Frame * FrameBuffer :=
  match m_buffered_frames fb with
  | [] => (None, fb)
  | f :: fs => (Some f, mk_fb (m_parser fb) (m_context fb) fs)
  end.
