(* ===== verification/WsSpec.v ===== *)
(** * Abstract WebSocket stream decoder

    The specification the frame buffer is verified against: a decoder that
    reads a connection octet by octet, keeps the payload as the list of octets
    decoded so far and appends every finished frame.  It has no preallocated
    buffers, no positions and no callbacks.  The refinement theorem of
    [WsRefine] shows that [FrameBuffer::consume] computes exactly this, however
    the connection is cut into reads. *)

From S2P Require Import Prelude Endian WsParser WsFrame.

Inductive dstate :=
  | D_start
  | D_head (flags : Z)
  | D_len (flags remaining acc : Z)
  | D_mask (flags len remaining : Z)
  | D_body (flags len : Z) (done : list Z).

(** [d_key] is the key payload octets are XORed with; a masked frame replaces
    it, an unmasked frame leaves it as it is. *)
Record decoder := mk_decoder {
  d_state : dstate;
  d_key : list Z;
  d_frames : list Frame;
}.

Definition decoder_init : decoder := mk_decoder D_start [0; 0; 0; 0] [].

(** XOR with a repeating key, from position [i] of the payload. *)
Fixpoint unmask (key : list Z) (i : Z) (src : list Z) : list Z :=
  match src with
  | [] => []
  | c :: src => (c ^^ default 0 (key !! Z.to_nat (i mod 4))) :: unmask key (i + 1) src
  end.

(** The frame delivered for a payload; a close payload of two octets or more
    starts with a big-endian status. *)
Definition spec_frame (opcode : Z) (payload : list Z) : Frame :=
  let binary := opcode =? WS_OP_BINARY in
  let '(code, reason) :=
    match payload with
    | b0 :: b1 :: reason =>
        if opcode =? WS_OP_CLOSE then (b0 * 256 + b1, reason) else (1000, [])
    | _ => (1000, [])
    end in
  mk_frame opcode (zlen payload) (if binary then [] else payload)
    (if binary then payload else []) code reason.

Definition finish_frame (flags : Z) (payload : list Z) (d : decoder) : decoder :=
  mk_decoder D_start (d_key d) (d_frames d ++ [spec_frame (flags & WS_OP_MASK) payload]).

Section Decode.
Context (max_size : Z).

(** A complete header announces [len] payload octets. *)
Definition spec_header (flags len : Z) (d : decoder) : option decoder :=
  if max_size <? len then None
  else if len =? 0 then Some (finish_frame flags [] d)
  else Some (mk_decoder (D_body flags len []) (d_key d) (d_frames d)).

Definition spec_after_length (flags len : Z) (d : decoder) : option decoder :=
  if truthy (flags & WS_HAS_MASK) then
    Some (mk_decoder (D_mask flags len 4) (d_key d) (d_frames d))
  else spec_header flags len d.

(** One octet; [None] is the exception of an over-long announced payload. *)
Definition decode1 (d : decoder) (c : Z) : option decoder :=
  match d_state d with
  | D_start =>
      let flags := if truthy (c & 0x80) then (c & WS_OP_MASK) ||| WS_FIN else c & WS_OP_MASK in
      Some (mk_decoder (D_head flags) (d_key d) (d_frames d))
  | D_head flags =>
      let len := c & 0x7F in
      let flags := if truthy (c & 0x80) then flags ||| WS_HAS_MASK else flags in
      if 126 <=? len then
        Some (mk_decoder (D_len flags (if len =? 127 then 8 else 2) 0) (d_key d) (d_frames d))
      else spec_after_length flags len d
  | D_len flags k acc =>
      let acc := acc * 256 + c in
      if k =? 1 then spec_after_length flags acc d
      else Some (mk_decoder (D_len flags (k - 1) acc) (d_key d) (d_frames d))
  | D_mask flags len k =>
      let key := <[Z.to_nat (4 - k) := c]> (d_key d) in
      let d := mk_decoder (D_mask flags len (k - 1)) key (d_frames d) in
      if k =? 1 then spec_header flags len d else Some d
  | D_body flags len done =>
      let done := done ++ unmask (d_key d) (zlen done) [c] in
      if zlen done =? len then Some (finish_frame flags done d)
      else Some (mk_decoder (D_body flags len done) (d_key d) (d_frames d))
  end.

Fixpoint decode (d : decoder) (input : list Z) : option decoder :=
  match input with
  | [] => Some d
  | c :: input => match decode1 d c with Some d => decode d input | None => None end
  end.

End Decode.

(** ** Lemmas *)

Lemma decode_cons max_size d c input :
  decode max_size d (c :: input) =
  match decode1 max_size d c with Some d => decode max_size d input | None => None end.
Proof. done. Qed.

Lemma decode_app max_size d xs ys :
  decode max_size d (xs ++ ys) =
  match decode max_size d xs with Some d => decode max_size d ys | None => None end.
Proof.
  revert d. induction xs as [|c xs IH]; intros d; simpl; [done|].
  by destruct (decode1 max_size d c).
Qed.

Lemma unmask_app key i xs ys :
  unmask key i (xs ++ ys) = unmask key i xs ++ unmask key (i + zlen xs) ys.
Proof.
  revert i. induction xs as [|x xs IH]; intros i; simpl.
  - by rewrite zlen_nil, Z.add_0_r.
  - rewrite IH, zlen_cons. do 3 f_equal. lia.
Qed.

Lemma length_unmask key i xs : length (unmask key i xs) = length xs.
Proof. revert i. induction xs; intros; simpl; auto. Qed.

Lemma zlen_unmask key i xs : zlen (unmask key i xs) = zlen xs.
Proof. unfold zlen. by rewrite length_unmask. Qed.

Lemma unmask_mod4 key i xs : unmask key (i mod 4) xs = unmask key i xs.
Proof.
  assert (forall j, i mod 4 = j mod 4 -> unmask key i xs = unmask key j xs) as H.
  { revert i. induction xs as [|x xs IH]; intros i j Hj; simpl; [done|].
    rewrite Hj. f_equal. apply IH.
    rewrite Z.add_mod, Hj, <- Z.add_mod; lia. }
  symmetry. apply H. by rewrite Z.mod_mod by lia.
Qed.

Lemma mask_octets_unmask mask off i xs :
  mask_octets mask off i xs = unmask mask (i + off) xs.
Proof.
  revert i. induction xs as [|x xs IH]; intros i; simpl; [done|].
  rewrite IH. do 2 f_equal. lia.
Qed.

Lemma unmask_zero i xs : unmask [0; 0; 0; 0] i xs = xs.
Proof.
  revert i. induction xs as [|x xs IH]; intros i; simpl; [done|]. rewrite IH.
  pose proof (Z.mod_pos_bound i 4). f_equal.
  assert (default 0 ([0; 0; 0; 0] !! Z.to_nat (i mod 4)) = 0) as ->.
  { destruct (Z.to_nat (i mod 4)) as [|[|[|[|n]]]]; done. }
  apply Z.lxor_0_r.
Qed.

Lemma unmask_involutive key i xs : unmask key i (unmask key i xs) = xs.
Proof.
  revert i. induction xs as [|x xs IH]; intros i; simpl; [done|].
  by rewrite IH, lxor_cancel_r.
Qed.

Lemma key_byte key i : bytes_ok key -> byte_ok (default 0 (key !! i)).
Proof.
  intros H. destruct (key !! i) as [b|] eqn:E; simpl; [|unfold byte_ok; lia].
  by eapply (Forall_lookup_1 _ _ _ _ H).
Qed.

Lemma unmask_ok key i xs : bytes_ok key -> bytes_ok xs -> bytes_ok (unmask key i xs).
Proof.
  intros Hk Hx. revert i. induction Hx as [|x xs Hb Hx IH]; intros i; simpl; constructor.
  - apply lxor_byte; [done|]. by apply key_byte.
  - apply IH.
Qed.

#[export] Hint Resolve unmask_ok : sylar.
#[export] Hint Rewrite zlen_unmask : sylar.

(** Frames already delivered do not influence decoding. *)
Definition with_prefix (pre : list Frame) (d : decoder) : decoder :=
  mk_decoder (d_state d) (d_key d) (pre ++ d_frames d).

Lemma decode1_prefix max_size pre d c :
  decode1 max_size (with_prefix pre d) c = with_prefix pre <$> decode1 max_size d c.
Proof.
  destruct d as [st key fs]. destruct st; unfold decode1; cbn [d_state with_prefix d_key d_frames];
    unfold spec_after_length, spec_header, finish_frame; cbn [d_state d_key d_frames];
    repeat (case_bool; try done); unfold with_prefix; cbn;
    rewrite ?app_assoc; done.
Qed.

Lemma decode_prefix max_size pre d input :
  decode max_size (with_prefix pre d) input = with_prefix pre <$> decode max_size d input.
Proof.
  revert d. induction input as [|c input IH]; intros d; [done|].
  rewrite !decode_cons, decode1_prefix.
  destruct (decode1 max_size d c) as [d'|]; cbn [fmap option_fmap option_map]; [apply IH|done].
Qed.
