(* ===== verification/WsRefine.v ===== *)
(** * The frame buffer implements the abstract decoder

    [consume_refines]: from related states, [FrameBuffer::consume] takes every
    octet it is given, its callbacks never report an error, and it ends in a
    state related to that of the abstract decoder of [WsSpec]; it throws exactly
    when the decoder rejects an announced length. *)

From S2P Require Import Prelude Endian WsParser WsFrame WsSpec.

#[local] Arguments FrameBuffer_on_frame_header : simpl never.
#[local] Arguments FrameBuffer_on_frame_body : simpl never.
#[local] Arguments FrameBuffer_on_frame_end : simpl never.
#[local] Arguments decode1 : simpl never.

Section Refine.
Context (max_size : Z) (max_size_range : 0 <= max_size < 2 ^ 63).

(** ** The simulation relation *)

(** The context while a body is read: the octets decoded so far, then the
    zeroes [resize] left. *)
Definition body_ctx (flags len : Z) (done : list Z) : Context :=
  let op := flags & WS_OP_MASK in
  let buf := done ++ replicate (Z.to_nat (len - zlen done)) 0 in
  if op =? WS_OP_BINARY then mk_context op len [] buf (zlen done)
  else mk_context op len buf [] (zlen done).

Definition state_rel (p : websocket_parser) (c : Context) (s : dstate) : Prop :=
  match s with
  | D_start => p_state p = s_start
  | D_head flags => p_state p = s_head /\ p_flags p = flags /\ p_mask_offset p = 0
  | D_len flags k acc =>
      p_state p = s_length /\ p_flags p = flags /\ p_mask_offset p = 0 /\
      p_require p = k /\ p_length p = acc /\ 0 < k <= 8 /\
      0 <= acc /\ acc < 2 ^ (8 * (8 - k))
  | D_mask flags len k =>
      p_state p = s_mask /\ p_flags p = flags /\ p_mask_offset p = 0 /\
      p_require p = k /\ p_length p = len /\ 0 < k <= 4 /\ 0 <= len
  | D_body flags len done =>
      p_state p = s_body /\ p_flags p = flags /\ p_mask_offset p = zlen done mod 4 /\
      p_require p = len - zlen done /\ p_length p = len /\ zlen done < len <= max_size /\
      bytes_ok done /\ c = body_ctx flags len done
  end.

Definition rel (p : websocket_parser) (c : Context) (d : decoder) : Prop :=
  p_mask p = d_key d /\ length (d_key d) = 4%nat /\ bytes_ok (d_key d) /\
  state_rel p c (d_state d).

(** What a run must give: the decoder's outcome, all [n] octets taken. *)
Definition good (d : option decoder) (n : Z) (r : exec_res udata) : Prop :=
  match d with
  | None => exists p u, r = exec_throw p u
  | Some d => exists p c, r = exec_ret n p (c, d_frames d) /\ rel p c d
  end.

Abbreviation settings := (FrameBuffer_settings max_size).

(** ** Callbacks *)

Lemma frame_of_body_ctx flags payload :
  bytes_ok payload ->
  Frame_of_ptr (Some (body_ctx flags (zlen payload) payload)) =
  spec_frame (flags & WS_OP_MASK) payload.
Proof.
  intros Hok. unfold body_ctx, spec_frame, Frame_of_ptr, extract_close.
  rewrite Z.sub_diag. simpl replicate. rewrite app_nil_r.
  destruct (flags & WS_OP_MASK =? WS_OP_BINARY) eqn:Eb; simpl.
  - apply Z.eqb_eq in Eb. rewrite Eb. simpl.
    destruct payload as [|b0 [|b1 reason]]; done.
  - destruct (flags & WS_OP_MASK =? WS_OP_CLOSE) eqn:Ec; simpl.
    + destruct payload as [|b0 [|b1 reason]]; [done..|].
      apply Forall_cons in Hok as [Hb0 [Hb1 _]%Forall_cons].
      assert ((2 <=? zlen (b0 :: b1 :: reason)) = true) as ->.
      { apply Z.leb_le. rewrite !zlen_cons. pose proof (zlen_nonneg reason). lia. }
      unfold close_code_of. simpl take. by rewrite net16_of_image.
    + destruct payload as [|b0 [|b1 reason]]; done.
Qed.

Lemma write_at_done (done xs : list Z) (len : Z) :
  zlen done + zlen xs <= len ->
  write_at (Z.to_nat (zlen done)) xs (done ++ replicate (Z.to_nat (len - zlen done)) 0) =
  (done ++ xs) ++ replicate (Z.to_nat (len - zlen (done ++ xs))) 0.
Proof.
  intros H. unfold write_at, zlen in *. rewrite Nat2Z.id.
  rewrite take_app_length, drop_app_ge by lia.
  rewrite <- app_assoc. do 2 f_equal.
  replace (length done + length xs - length done)%nat with (length xs) by lia.
  rewrite length_app, drop_replicate. f_equal. lia.
Qed.

Lemma body_cb_ok p flags len done xs frames :
  zlen done + zlen xs <= len -> len <= max_size ->
  p_mask_offset p = zlen done mod 4 ->
  FrameBuffer_on_frame_body p xs (body_ctx flags len done, frames) =
  cb_ret 0 (set_mask_offset ((zlen done + zlen xs) mod 4) p)
    (body_ctx flags len (done ++ unmask (p_mask p) (zlen done) xs), frames).
Proof.
  intros Hle Hmax Hoff. unfold FrameBuffer_on_frame_body, websocket_parser_decode.
  pose proof (zlen_nonneg done). pose proof (zlen_nonneg xs).
  assert (Hw : wrap 64 (zlen done + zlen xs) = zlen done + zlen xs)
    by (apply wrap_small; lia).
  unfold websocket_decode. rewrite mask_octets_unmask, Z.add_0_l, Hoff, unmask_mod4.
  assert (Hm : wrap 8 ((zlen xs + zlen done mod 4) mod 4) = (zlen done + zlen xs) mod 4).
  { rewrite Z.add_comm, Z.add_mod_idemp_l by lia. apply wrap_small.
    pose proof (Z.mod_pos_bound (zlen done + zlen xs) 4). lia. }
  rewrite Hm.
  pose proof (write_at_done done (unmask (p_mask p) (zlen done) xs) len) as Hwr.
  rewrite zlen_unmask in Hwr.
  assert (Hlt : (len <? zlen done + zlen xs) = false) by (apply Z.ltb_ge; lia).
  unfold body_ctx.
  destruct (flags & WS_OP_MASK =? WS_OP_BINARY) eqn:Eb; simpl;
    rewrite Hw, Hlt, Eb, Hwr, zlen_app, zlen_unmask by done; done.
Qed.

Lemma end_cb_ok p flags payload frames :
  bytes_ok payload ->
  FrameBuffer_on_frame_end p (body_ctx flags (zlen payload) payload, frames) =
  cb_ret 0 p (body_ctx flags (zlen payload) payload,
              frames ++ [spec_frame (flags & WS_OP_MASK) payload]).
Proof.
  intros Hok. unfold FrameBuffer_on_frame_end.
  rewrite frame_of_body_ctx by done.
  assert (c_payload_received (body_ctx flags (zlen payload) payload) = zlen payload /\
          c_payload_length (body_ctx flags (zlen payload) payload) = zlen payload) as [-> ->].
  { unfold body_ctx. by destruct (_ =? _). }
  by rewrite Z.eqb_refl.
Qed.

Lemma header_cb p c frames :
  FrameBuffer_on_frame_header max_size p (c, frames) =
  if max_size <? p_length p
  then cb_throw p (mk_context (p_flags p & WS_OP_MASK) (p_length p) [] [] 0, frames)
  else cb_ret 0 p (body_ctx (p_flags p) (p_length p) [], frames).
Proof.
  unfold FrameBuffer_on_frame_header, body_ctx, websocket_parser_get_opcode.
  simpl. zlen_simpl. rewrite Z.sub_0_r.
  destruct (max_size <? p_length p); [done|]. by destruct (_ =? _).
Qed.

(** ** Completing a header *)

Lemma after_header_good pos p c d k rest n :
  p_mask p = d_key d -> length (d_key d) = 4%nat -> bytes_ok (d_key d) ->
  p_mask_offset p = 0 -> 0 <= p_length p ->
  (forall p' c' d', rel p' c' d' ->
     good (decode max_size d' rest) n (k p' (c', d_frames d'))) ->
  good (match spec_header max_size (p_flags p) (p_length p) d with
        | Some d' => decode max_size d' rest
        | None => None
        end) n (after_header settings pos p (c, d_frames d) k).
Proof.
  intros Hm Hl Hb Ho Hlen Hk. unfold after_header, NOTIFY_CB, settings, spec_header; simpl.
  destruct (truthy (p_length p)) eqn:Et; rewrite header_cb; simpl.
  - apply truthy_spec in Et. destruct (max_size <? p_length p) eqn:Em; [by simpl; eauto|].
    bool_to_prop. assert ((p_length p =? 0) = false) as -> by (by apply Z.eqb_neq).
    apply (Hk _ _ (mk_decoder (D_body (p_flags p) (p_length p) []) (d_key d) (d_frames d))).
    repeat split; simpl; try done; zlen_simpl; try lia.
    constructor.
  - apply truthy_false in Et. rewrite Et.
    assert ((max_size <? 0) = false) as -> by (apply Z.ltb_ge; lia).
    rewrite Z.eqb_refl. change 0 with (zlen (@nil Z)).
    rewrite end_cb_ok by constructor. simpl.
    apply (Hk _ _ (finish_frame (p_flags p) [] d)). repeat split; done.
Qed.

Lemma after_length_good pos p c d k rest n :
  p_mask p = d_key d -> length (d_key d) = 4%nat -> bytes_ok (d_key d) ->
  p_mask_offset p = 0 -> 0 <= p_length p ->
  (forall p' c' d', rel p' c' d' ->
     good (decode max_size d' rest) n (k p' (c', d_frames d'))) ->
  good (match spec_after_length max_size (p_flags p) (p_length p) d with
        | Some d' => decode max_size d' rest
        | None => None
        end) n (after_length settings pos p (c, d_frames d) k).
Proof.
  intros Hm Hl Hb Ho Hlen Hk. unfold after_length, spec_after_length.
  unfold websocket_parser_has_mask.
  destruct (truthy (p_flags p & WS_HAS_MASK)).
  - apply (Hk _ _ (mk_decoder (D_mask (p_flags p) (p_length p) 4) (d_key d) (d_frames d))).
    repeat split; simpl; try done; lia.
  - by apply after_header_good.
Qed.

(** ** Reading the extended length and the mask *)

Lemma length_step k acc x :
  0 < k <= 8 -> 0 <= acc < 2 ^ (8 * (8 - k)) -> byte_ok x ->
  (wrap 64 (acc <<< 8) ||| x) = acc * 256 + x /\
  0 <= acc * 256 + x < 2 ^ (8 * (8 - (k - 1))).
Proof.
  intros Hk Hacc Hx. pose proof Hx as [].
  assert (Hp : 2 ^ (8 * (8 - (k - 1))) = 256 * 2 ^ (8 * (8 - k))).
  { replace (8 * (8 - (k - 1))) with (8 + 8 * (8 - k)) by lia.
    by rewrite Z.pow_add_r by lia. }
  assert (H64 : 2 ^ (8 * (8 - (k - 1))) <= 2 ^ 64) by (apply Z.pow_le_mono_r; lia).
  split; [|nia].
  rewrite Z.shiftl_mul_pow2, wrap_small by (change (2 ^ 8) with 256; lia).
  pose proof (lor_add_disjoint acc x 8) as E.
  rewrite Z.shiftl_mul_pow2 in E by lia. by apply E.
Qed.

(** The loop of [case s_length] against the decoder: it stops at the end of the
    input or with the length complete. *)
Lemma read_length_good rest : forall p c d flags k acc,
  rel p c d -> d_state d = D_len flags k acc -> bytes_ok rest -> rest <> [] ->
  exists p' rest' m,
    read_length p rest = (p', rest', m) /\ m = zlen rest - zlen rest' /\
    (length rest' < length rest)%nat /\ bytes_ok rest' /\
    if truthy (p_require p') then
      rest' = [] /\ exists d', decode max_size d rest = Some d' /\ rel p' c d' /\
                               d_frames d' = d_frames d
    else
      p_mask p' = d_key d /\ p_mask_offset p' = 0 /\ 0 <= p_length p' /\
      p_flags p' = flags /\
      decode max_size d rest =
        match spec_after_length max_size flags (p_length p') d with
        | Some d' => decode max_size d' rest'
        | None => None
        end.
Proof.
  induction rest as [|x rest IH]; intros p c d flags k acc Hrel Hs Hok Hne; [done|].
  apply Forall_cons in Hok as [Hx Hok'].
  destruct Hrel as (Hm & Hl & Hb & Hst). rewrite Hs in Hst.
  destruct Hst as (Hps & Hf & Ho & Hr & Hlen & Hk & Hacc0 & Hacc).
  cbn [read_length]. rewrite Hr.
  assert (truthy k = true) as -> by (apply truthy_spec; lia).
  destruct (length_step k acc x) as [Hsh Hacc']; [lia..|done|].
  rewrite Hlen, Hsh, (wrap_small 64 (k - 1)) by lia.
  destruct (decide (k = 1)) as [->|Hk1].
  - assert (read_length (set_require (1 - 1) (set_length (acc * 256 + x) p)) rest =
            (set_require 0 (set_length (acc * 256 + x) p), rest, 0)) as ->.
    { destruct rest; done. }
    exists (set_require 0 (set_length (acc * 256 + x) p)), rest, (0 + 1).
    repeat split; try done; rewrite ?zlen_cons; try lia.
    + simpl; lia.
    + simpl; lia.
    + cbn [decode]. unfold decode1. by rewrite Hs.
  - set (d1 := mk_decoder (D_len flags (k - 1) (acc * 256 + x)) (d_key d) (d_frames d)).
    assert (Hd : decode max_size d (x :: rest) = decode max_size d1 rest).
    { cbn [decode]. unfold decode1. rewrite Hs.
      assert ((k =? 1) = false) as -> by (by apply Z.eqb_neq). done. }
    set (p1 := set_require (k - 1) (set_length (acc * 256 + x) p)).
    assert (Hrel1 : rel p1 c d1).
    { repeat split; simpl; try done; lia. }
    destruct rest as [|y rest].
    + exists p1, [], (0 + 1). rewrite Hd. split; [done|].
      assert (truthy (p_require p1) = true) as -> by (apply truthy_spec; simpl; lia).
      repeat split; [simpl; lia|constructor|]. by exists d1.
    + destruct (IH p1 c d1 flags (k - 1) (acc * 256 + x) Hrel1 eq_refl Hok')
        as (p' & rest' & m & Heq & Hmm & Hlt & Hok2 & Hcase); [done|].
      fold p1. rewrite Heq. exists p', rest', (m + 1).
      repeat split; try done; rewrite ?zlen_cons in *; simpl in *; try lia.
      rewrite Hd. destruct (truthy (p_require p')); [done|].
      destruct Hcase as (? & ? & ? & ? & Hdec). repeat split; try done.
Qed.

(** The loop of [case s_mask]. *)
Lemma read_mask_good rest : forall p c d flags len k,
  rel p c d -> d_state d = D_mask flags len k -> bytes_ok rest -> rest <> [] ->
  exists p' rest' m d',
    read_mask p rest = (p', rest', m) /\ m = zlen rest - zlen rest' /\
    (length rest' < length rest)%nat /\ bytes_ok rest' /\ d_frames d' = d_frames d /\
    if truthy (p_require p') then
      rest' = [] /\ decode max_size d rest = Some d' /\ rel p' c d'
    else
      p_mask p' = d_key d' /\ length (d_key d') = 4%nat /\ bytes_ok (d_key d') /\
      p_mask_offset p' = 0 /\ 0 <= p_length p' /\
      decode max_size d rest =
        match spec_header max_size (p_flags p') (p_length p') d' with
        | Some d' => decode max_size d' rest'
        | None => None
        end.
Proof.
  induction rest as [|x rest IH]; intros p c d flags len k Hrel Hs Hok Hne; [done|].
  apply Forall_cons in Hok as [Hx Hok'].
  destruct Hrel as (Hm & Hl & Hb & Hst). rewrite Hs in Hst.
  destruct Hst as (Hps & Hf & Ho & Hr & Hlen & Hk & Hlen0).
  cbn [read_mask]. rewrite Hr, Hm.
  assert (truthy k = true) as -> by (apply truthy_spec; lia).
  rewrite (wrap_small 64 (k - 1)) by lia.
  set (key := <[Z.to_nat (4 - k) := x]> (d_key d)).
  assert (Hkl : length key = 4%nat) by (unfold key; by rewrite length_insert).
  assert (Hkb : bytes_ok key) by (by apply Forall_insert).
  set (d1 := mk_decoder (D_mask flags len (k - 1)) key (d_frames d)).
  set (p1 := set_require (k - 1) (set_mask key p)).
  destruct (decide (k = 1)) as [->|Hk1].
  - assert (read_mask p1 rest = (p1, rest, 0)) as -> by (by destruct rest).
    exists p1, rest, (0 + 1), d1.
    repeat split; try done; rewrite ?zlen_cons; simpl; try lia.
    unfold decode1. by rewrite Hs, Hf, Hlen.
  - assert (Hd : decode max_size d (x :: rest) = decode max_size d1 rest).
    { cbn [decode]. unfold decode1. rewrite Hs.
      assert ((k =? 1) = false) as -> by (by apply Z.eqb_neq). done. }
    assert (Hrel1 : rel p1 c d1) by (repeat split; simpl; try done; lia).
    rewrite Hd. destruct rest as [|y rest].
    + exists p1, [], (0 + 1), d1. split; [done|].
      assert (truthy (p_require p1) = true) as -> by (apply truthy_spec; simpl; lia).
      repeat split; try done; try (simpl; lia); apply Hrel1.
    + destruct (IH p1 c d1 flags len (k - 1) Hrel1 eq_refl Hok')
        as (p' & rest' & m & d' & Heq & Hmm & Hlt & Hok2 & Hfr & Hcase); [done|].
      rewrite Heq. exists p', rest', (m + 1), d'.
      repeat split; try done; rewrite ?zlen_cons in *; simpl in *; lia.
Qed.

(** ** Reading the body *)

Lemma decode_body flags len : forall xs d dn rest,
  d_state d = D_body flags len dn -> zlen dn < len ->
  zlen dn + zlen xs <= len -> xs <> [] ->
  let all := dn ++ unmask (d_key d) (zlen dn) xs in
  decode max_size d (xs ++ rest) =
  if zlen dn + zlen xs =? len then decode max_size (finish_frame flags all d) rest
  else decode max_size (mk_decoder (D_body flags len all) (d_key d) (d_frames d)) rest.
Proof.
  induction xs as [|x xs IH]; intros d dn rest Hs Hlt Hle Hne; [done|].
  cbn [app decode]. unfold decode1. rewrite Hs.
  set (dn1 := dn ++ unmask (d_key d) (zlen dn) [x]).
  assert (Hz1 : zlen dn1 = zlen dn + 1)
    by (unfold dn1; rewrite zlen_app, zlen_unmask; done).
  assert (Hall : dn ++ unmask (d_key d) (zlen dn) (x :: xs) =
                 dn1 ++ unmask (d_key d) (zlen dn1) xs).
  { unfold dn1 at 1. rewrite <- app_assoc, Hz1. done. }
  cbv zeta. rewrite Hall, zlen_cons in *. rewrite Hz1.
  destruct xs as [|y xs].
  - change (unmask _ _ []) with (@nil Z). rewrite app_nil_r.
    change (1 + zlen []) with 1. by destruct (_ =? _).
  - rewrite !zlen_cons in *. pose proof (zlen_nonneg xs).
    assert ((zlen dn + 1 =? len) = false) as -> by (apply Z.eqb_neq; lia).
    rewrite IH with (dn := dn1); rewrite ?zlen_cons, ?Hz1; try done; try lia.
    simpl. rewrite <- Hz1.
    by replace (zlen dn1 + (1 + zlen xs)) with (zlen dn + (1 + (1 + zlen xs))) by lia.
Qed.

Lemma take_drop_bytes n (l : list Z) : bytes_ok l -> bytes_ok (take n l) /\ bytes_ok (drop n l).
Proof. intros. split; [by apply Forall_take|by apply Forall_drop]. Qed.

(** The end of a body inside the input. *)
Lemma body_end_good fuel p d flags len dn pos rest fo n :
  (forall p c d pos rest fo, rel p c d -> bytes_ok rest -> (length rest < fuel)%nat ->
     pos + zlen rest = n ->
     good (decode max_size d rest) n (execute_loop settings fuel p (c, d_frames d) pos rest fo)) ->
  rel p (body_ctx flags len dn) d -> d_state d = D_body flags len dn -> bytes_ok rest ->
  (length rest < S fuel)%nat -> pos + zlen rest = n -> p_require p <= zlen rest ->
  good (decode max_size d rest) n
    (execute_loop settings (S fuel) p (body_ctx flags len dn, d_frames d) pos rest fo).
Proof.
  intros IH (Hm & Hl & Hb & Hst) Hs Hok Hfuel Hn Hle. rewrite Hs in Hst.
  destruct Hst as (Hps & Hf & Ho & Hr & Hlen & Hrange & Hdn & _).
  pose proof (zlen_nonneg dn).
  destruct rest as [|CC rest']; [change (zlen []) with 0 in Hle; lia|].
  set (rest := CC :: rest') in *. cbn [execute_loop]. fold rest. rewrite Hps.
  assert (truthy (p_require p) = true) as -> by (apply truthy_spec; lia).
  assert ((p_require p <=? zlen rest) = true) as -> by (by apply Z.leb_le).
  destruct (take_drop_bytes (Z.to_nat (p_require p)) rest Hok) as [Hxs Hrest].
  set (xs := take (Z.to_nat (p_require p)) rest) in *.
  assert (Hzx : zlen xs = len - zlen dn).
  { unfold xs, zlen in *. rewrite length_take. lia. }
  unfold EMIT_DATA_CB, settings; cbn [on_frame_body FrameBuffer_settings].
  rewrite body_cb_ok by (done || lia). cbn [truthy Z.eqb negb].
  set (all := dn ++ unmask (p_mask p) (zlen dn) xs).
  assert (Hza : zlen all = len) by (unfold all; rewrite zlen_app, zlen_unmask; lia).
  assert (Hall : bytes_ok all).
  { apply Forall_app. split; [done|]. apply unmask_ok; [by rewrite Hm|done]. }
  unfold NOTIFY_CB; cbn [on_frame_end FrameBuffer_settings].
  rewrite <- Hza, end_cb_ok by done. cbn [truthy Z.eqb negb].
  cbn [set_mask_offset p_require].
  assert (Hdec : decode max_size d rest =
                 decode max_size (finish_frame flags all d) (drop (Z.to_nat (p_require p)) rest)).
  { rewrite <- (take_drop (Z.to_nat (p_require p)) rest) at 1. fold xs.
    rewrite (decode_body flags len xs d dn); try done; try lia.
    - assert ((zlen dn + zlen xs =? len) = true) as -> by (apply Z.eqb_eq; lia).
      by rewrite <- Hm.
    - intros Hx. rewrite Hx in Hzx. change (zlen []) with 0 in Hzx. lia. }
  rewrite Hdec. apply (IH _ _ (finish_frame flags all d)); [|done|..].
  - repeat split; done.
  - unfold zlen in *. rewrite length_drop. lia.
  - unfold zlen in *. rewrite length_drop. lia.
Qed.

(** The end of the input inside a body. *)
Lemma body_part_good fuel p d flags len dn pos rest fo n :
  rel p (body_ctx flags len dn) d -> d_state d = D_body flags len dn -> bytes_ok rest ->
  rest <> [] -> pos + zlen rest = n -> zlen rest < p_require p ->
  good (decode max_size d rest) n
    (execute_loop settings (S (S fuel)) p (body_ctx flags len dn, d_frames d) pos rest fo).
Proof.
  intros (Hm & Hl & Hb & Hst) Hs Hok Hne Hn Hlt. rewrite Hs in Hst.
  destruct Hst as (Hps & Hf & Ho & Hr & Hlen & Hrange & Hdn & _).
  pose proof (zlen_nonneg dn). pose proof (zlen_nonneg rest).
  destruct rest as [|CC rest']; [done|].
  set (rest := CC :: rest') in *.
  change (execute_loop settings (S (S fuel)) p (body_ctx flags len dn, d_frames d) pos rest fo)
    with (execute_loop settings (S (S fuel)) p (body_ctx flags len dn, d_frames d) pos (CC :: rest') fo).
  cbn [execute_loop]. fold rest. rewrite Hps.
  assert (truthy (p_require p) = true) as -> by (apply truthy_spec; lia).
  assert ((p_require p <=? zlen rest) = false) as -> by (apply Z.leb_gt; lia).
  unfold EMIT_DATA_CB, settings; cbn [on_frame_body FrameBuffer_settings].
  rewrite body_cb_ok by (done || lia). cbn [truthy Z.eqb negb].
  cbn [set_mask_offset set_require set_offset p_require p_offset].
  rewrite (wrap_small 64 (p_require p - zlen rest)) by lia.
  assert (truthy (p_require p - zlen rest) = true) as -> by (apply truthy_spec; lia).
  set (all := dn ++ unmask (p_mask p) (zlen dn) rest).
  rewrite <- (app_nil_r rest) at 1.
  rewrite (decode_body flags len rest d dn) by (done || lia).
  assert ((zlen dn + zlen rest =? len) = false) as -> by (apply Z.eqb_neq; lia).
  rewrite <- Hm. fold all. cbn [decode good].
  eexists _, _. split; [by rewrite Hn|].
  assert (Hza : zlen all = zlen dn + zlen rest) by (unfold all; rewrite zlen_app, zlen_unmask; lia).
  repeat split; simpl; rewrite ?Hza; try done; try lia.
  - by rewrite Hm.
  - by rewrite Hm.
  - apply Forall_app. split; [done|]. apply unmask_ok; [by rewrite Hm|done].
Qed.

Lemma execute_loop_good fuel : forall p c d pos rest fo n,
  rel p c d -> bytes_ok rest -> (length rest < fuel)%nat -> pos + zlen rest = n ->
  good (decode max_size d rest) n (execute_loop settings fuel p (c, d_frames d) pos rest fo).
Proof.
  induction fuel as [|fuel IH]; intros p c d pos rest fo n Hrel Hok Hfuel Hn; [lia|].
  destruct rest as [|CC rest'].
  { cbn [execute_loop decode good]. eexists _, _. split; [|done].
    f_equal. change (zlen []) with 0 in Hn. lia. }
  pose proof Hrel as (Hm & Hl & Hb & Hst).
  apply Forall_cons in Hok as Hok'. destruct Hok' as [Hc Hok'].
  destruct (d_state d) as [|flags|flags k acc|flags len k|flags len dn] eqn:Hs; simpl in Hst.
  - (* start *)
    cbn [execute_loop]. rewrite Hst. cbn [decode]. unfold decode1. rewrite Hs.
    eapply (IH _ _ (mk_decoder _ _ _)); [|done|simpl in *; lia|rewrite zlen_cons in Hn; lia].
    repeat split; done.
  - (* head *)
    destruct Hst as (Hps & Hf & Ho).
    cbn [execute_loop]. rewrite Hps. cbn [decode]. unfold decode1. rewrite Hs.
    assert (p_length (on_head CC p) = (CC & 0x7F) /\
            p_flags (on_head CC p) =
              (if truthy (CC & 0x80) then flags ||| WS_HAS_MASK else flags) /\
            p_mask (on_head CC p) = d_key d /\ p_mask_offset (on_head CC p) = 0) as
      (El & Ef & Em & Eo).
    { unfold on_head. simpl. rewrite Hf. by destruct (truthy _). }
    assert (0 <= (CC & 0x7F)) by (apply Z.land_nonneg; lia).
    rewrite El. destruct (126 <=? (CC & 0x7F)) eqn:E126.
    + eapply (IH _ _ (mk_decoder _ _ _)); [|done|simpl in *; lia|rewrite zlen_cons in Hn; lia].
      repeat split; simpl; try done; destruct (_ =? 127); done || lia.
    + rewrite <- El, <- Ef. apply after_length_good; try done; [by rewrite El|].
      intros. apply IH; try done; [simpl in *; lia|rewrite zlen_cons in Hn; lia].
  - (* extended length *)
    destruct (read_length_good (CC :: rest') p c d flags k acc)
      as (p' & rest'' & m & Heq & Hmm & Hlt & Hok2 & Hcase); try done.
    destruct Hst as (Hps & Hf & _).
    cbn [execute_loop]. rewrite Hps, Heq.
    destruct (truthy (p_require p')).
    + destruct Hcase as (-> & d' & -> & Hrel' & <-).
      apply IH with (rest := []); try done; simpl in *; lia.
    + destruct Hcase as (Em & Eo & El & Ef & ->). rewrite <- Ef.
      apply after_length_good; try done.
      intros. apply IH; try done; simpl in *; lia.
  - (* mask *)
    destruct (read_mask_good (CC :: rest') p c d flags len k)
      as (p' & rest'' & m & d' & Heq & Hmm & Hlt & Hok2 & Hfr & Hcase); try done.
    destruct Hst as (Hps & _).
    cbn [execute_loop]. rewrite Hps, Heq, <- Hfr.
    destruct (truthy (p_require p')).
    + destruct Hcase as (-> & -> & Hrel').
      apply IH with (rest := []); try done; simpl in *; lia.
    + destruct Hcase as (Em & El & Eb & Eo & Ep & ->).
      apply after_header_good; try done.
      intros. apply IH; try done; simpl in *; lia.
  - (* body *)
    destruct Hst as (Hps & Hf & Ho & Hr & Hlen & Hrange & Hdn & ->).
    destruct (decide (p_require p <= zlen (CC :: rest'))).
    + eapply body_end_good; try done. intros. by apply IH.
    + destruct fuel as [|fuel]; [simpl in *; lia|].
      apply body_part_good; try done. lia.
Qed.

(** ** Main results *)

Definition fb_rel (fb : FrameBuffer) (d : decoder) : Prop :=
  rel (m_parser fb) (m_context fb) d /\ m_buffered_frames fb = d_frames d.

Lemma consume_good fb d data :
  fb_rel fb d -> bytes_ok data ->
  match decode max_size d data with
  | Some d' => exists fb', consume max_size fb data = consumed (zlen data) fb' /\ fb_rel fb' d'
  | None => exists fb', consume max_size fb data = consume_threw fb'
  end.
Proof.
  intros [Hrel Hfr] Hok. unfold consume, websocket_parser_execute. rewrite Hfr.
  pose proof (execute_loop_good (S (length data)) (m_parser fb) (m_context fb) d 0 data 0
    (zlen data) Hrel Hok) as Hgood.
  destruct (decode max_size d data) as [d'|]; unfold good in Hgood;
    (destruct Hgood as (p & u & Hg); [lia|done|]).
  - destruct Hg as [-> Hrel']. by eexists.
  - rewrite Hg. destruct u as [c fr]. by eexists.
Qed.

Lemma fb_rel_init : fb_rel FrameBuffer_init decoder_init.
Proof. repeat split; repeat constructor; lia. Qed.

(** Taking a frame out keeps the relation. *)
Lemma fb_rel_getFrame fb d f fb' :
  fb_rel fb d -> getFrame fb = (Some f, fb') ->
  exists fs, d_frames d = f :: fs /\ fb_rel fb' (mk_decoder (d_state d) (d_key d) fs).
Proof.
  intros [Hrel Hfr]. unfold getFrame. rewrite Hfr.
  destruct (d_frames d) as [|g fs] eqn:E; [done|]. intros [= <- <-].
  exists fs. split; [done|]. split; [|done]. apply Hrel.
Qed.

End Refine.
