(* ===== verification/WsProps.v ===== *)
(** * Properties of the WebSocket frame layer

    Encoding ([Frame::make], [websocket_build_frame]) against the abstract
    decoder, and the results for [FrameBuffer] that follow from the refinement:
    independence from how reads cut the stream, and the round trips. *)

From S2P Require Import Prelude Endian WsParser WsFrame WsSpec WsRefine.

(** ** Encoding lemmas *)

(** The [k] low octets of [x], most significant first. *)
Fixpoint be_bytes (k : nat) (x : Z) : list Z :=
  match k with
  | O => []
  | S k => ((x >>> (8 * Z.of_nat k)) & 255) :: be_bytes k x
  end.

Lemma be_bytes_ok k x : bytes_ok (be_bytes k x).
Proof. induction k; constructor; [apply land_255_byte|done]. Qed.

Lemma length_be_bytes k x : length (be_bytes k x) = k.
Proof. induction k; simpl; auto. Qed.

(** The length field: the second octet, then the extended length. *)
Definition length_field (byte1 len : Z) : list Z :=
  if len <? 126 then [byte1 + len]
  else if len <=? 0xFFFF then (byte1 + 126) :: be_bytes 2 len
  else (byte1 + 127) :: be_bytes 8 len.

Lemma mask_bit_add byte1 len :
  byte1 = 0 \/ byte1 = 128 -> 0 <= len < 128 ->
  wrap 8 (byte1 ||| len) = byte1 + len /\ (byte1 ||| len) = byte1 + len /\
  ((byte1 + len) & 0x7F) = len /\ truthy ((byte1 + len) & 0x80) = truthy byte1.
Proof.
  intros Hb Hl.
  refine (below_decide 128 (fun l =>
    wrap 8 (byte1 ||| l) = byte1 + l /\ (byte1 ||| l) = byte1 + l /\
    ((byte1 + l) & 0x7F) = l /\ truthy ((byte1 + l) & 0x80) = truthy byte1) _ len Hl).
  destruct Hb as [->| ->]; vm_compute; done.
Qed.

Lemma make_length_field byte1 len :
  byte1 = 0 \/ byte1 = 128 -> 0 <= len -> make_length byte1 len = length_field byte1 len.
Proof.
  intros Hb Hl. unfold make_length, length_field.
  destruct (len <? 126) eqn:E.
  - apply Z.ltb_lt in E. f_equal. apply mask_bit_add; [done|lia].
  - destruct (len <=? 0xFFFF).
    + f_equal. by apply mask_bit_add.
    + f_equal. by apply mask_bit_add.
Qed.

(** ** Decoding an encoded header *)

Section Decoding.
Context (max_size : Z).

Lemma decode_be_bytes flags k : forall acc x d rest,
  d_state d = D_len flags (Z.of_nat (S k)) acc ->
  decode max_size d (be_bytes (S k) x ++ rest) =
  match spec_after_length max_size flags (acc * 256 ^ Z.of_nat (S k) + x mod 256 ^ Z.of_nat (S k)) d with
  | Some d' => decode max_size d' rest
  | None => None
  end.
Proof.
  induction k as [|k IH]; intros acc x d rest Hs.
  - cbn [be_bytes app decode]. unfold decode1. rewrite Hs. simpl Z.of_nat.
    rewrite Z.eqb_refl. do 2 f_equal. change (256 ^ 1) with 256.
    change (8 * 0) with 0. rewrite Z.shiftr_0_r.
    change 255 with (Z.ones 8). by rewrite Z.land_ones by lia.
  - set (c := (x >>> (8 * Z.of_nat (S k))) & 255).
    change (be_bytes (S (S k)) x ++ rest) with (c :: (be_bytes (S k) x ++ rest)).
    rewrite decode_cons. unfold decode1. rewrite Hs.
    assert ((Z.of_nat (S (S k)) =? 1) = false) as -> by (apply Z.eqb_neq; lia).
    set (d1 := mk_decoder _ _ _).
    rewrite (IH (acc * 256 + c) x d1 rest) by (unfold d1; simpl; f_equal; lia).
    replace (spec_after_length max_size flags _ d1) with
      (spec_after_length max_size flags
        (acc * 256 ^ Z.of_nat (S (S k)) + x mod 256 ^ Z.of_nat (S (S k))) d); [done|].
    assert (acc * 256 ^ Z.of_nat (S (S k)) + x mod 256 ^ Z.of_nat (S (S k)) =
            (acc * 256 + c) * 256 ^ Z.of_nat (S k) + x mod 256 ^ Z.of_nat (S k)) as ->; [|done].
    unfold c. change 255 with (Z.ones 8). rewrite Z.land_ones, Z.shiftr_div_pow2 by lia.
    rewrite Z.pow_mul_r by lia. change (2 ^ 8) with 256.
    rewrite (Nat2Z.inj_succ (S k)), Z.pow_succ_r by lia.
    set (M := 256 ^ Z.of_nat (S k)).
    assert (0 < M) by (apply Z.pow_pos_nonneg; lia).
    rewrite (Z.mul_comm 256 M), Z.rem_mul_r by lia. ring.
Qed.

Lemma decode_length_field flags byte1 len d rest :
  byte1 = 0 \/ byte1 = 128 -> 0 <= len < 2 ^ 64 -> d_state d = D_head flags ->
  decode max_size d (length_field byte1 len ++ rest) =
  match spec_after_length max_size
          (if truthy byte1 then flags ||| WS_HAS_MASK else flags) len d with
  | Some d' => decode max_size d' rest
  | None => None
  end.
Proof.
  intros Hb Hl Hs. unfold length_field.
  set (fl := if truthy byte1 then flags ||| WS_HAS_MASK else flags).
  destruct (len <? 126) eqn:E; [|destruct (len <=? 0xFFFF) eqn:E2]; bool_to_prop.
  - destruct (mask_bit_add byte1 len) as (_ & _ & H7 & H8); [done|lia|].
    cbn [app decode]. unfold decode1. rewrite Hs, H7, H8.
    by assert ((126 <=? len) = false) as -> by (apply Z.leb_gt; lia).
  - destruct (mask_bit_add byte1 126) as (_ & _ & H7 & H8); [done|lia|].
    cbn [app]. rewrite decode_cons. unfold decode1. rewrite Hs, H7, H8.
    change (126 <=? 126) with true. change (126 =? 127) with false. cbv iota.
    rewrite (decode_be_bytes fl 1 0 len); [|done].
    change (256 ^ Z.of_nat 2) with 65536. rewrite Z.mod_small by lia. done.
  - destruct (mask_bit_add byte1 127) as (_ & _ & H7 & H8); [done|lia|].
    cbn [app]. rewrite decode_cons. unfold decode1. rewrite Hs, H7, H8.
    change (126 <=? 127) with true. change (127 =? 127) with true. cbv iota.
    rewrite (decode_be_bytes fl 7 0 len); [|done].
    change (256 ^ Z.of_nat 8) with (2 ^ 64). rewrite Z.mod_small by lia. done.
Qed.

Lemma decode_payload flags payload d rest :
  zlen payload <= max_size ->
  match spec_header max_size flags (zlen payload) d with
  | Some d' => decode max_size d' (payload ++ rest)
  | None => None
  end = decode max_size (finish_frame flags (unmask (d_key d) 0 payload) d) rest.
Proof.
  intros Hm. unfold spec_header.
  assert ((max_size <? zlen payload) = false) as -> by (by apply Z.ltb_ge).
  destruct payload as [|x payload]; [done|].
  rewrite zlen_cons. pose proof (zlen_nonneg payload).
  assert ((1 + zlen payload =? 0) = false) as -> by (apply Z.eqb_neq; lia).
  rewrite (decode_body max_size flags (1 + zlen payload) (x :: payload) _ []); try done;
    rewrite ?zlen_cons; change (zlen []) with 0; try lia.
  by rewrite Z.add_0_l, Z.eqb_refl.
Qed.

Lemma decode_key flags len k0 k1 k2 k3 d rest :
  d_state d = D_mask flags len 4 -> length (d_key d) = 4%nat ->
  decode max_size d ([k0; k1; k2; k3] ++ rest) =
  match spec_header max_size flags len
          (mk_decoder (D_mask flags len 0) [k0; k1; k2; k3] (d_frames d)) with
  | Some d' => decode max_size d' rest
  | None => None
  end.
Proof.
  destruct d as [st key frs]; cbn [d_state d_key d_frames]. intros -> Hl.
  destruct key as [|m0 [|m1 [|m2 [|m3 [|]]]]]; try discriminate. cbn [app].
  set (step k l := mk_decoder (D_mask flags len k) l frs).
  rewrite decode_cons. change (decode1 _ _ _) with (Some (step 3 [k0; m1; m2; m3])).
  cbv iota beta. rewrite decode_cons.
  change (decode1 _ _ _) with (Some (step 2 [k0; k1; m2; m3])).
  cbv iota beta. rewrite decode_cons.
  change (decode1 _ _ _) with (Some (step 1 [k0; k1; k2; m3])).
  cbv iota beta. by rewrite decode_cons.
Qed.

(** First octet and flags. *)
Definition first_octet (op : Z) (fin : bool) : Z := op + (if fin then 128 else 0).

Definition first_flags (op : Z) (fin : bool) : Z :=
  if truthy (first_octet op fin & 0x80) then (first_octet op fin & WS_OP_MASK) ||| WS_FIN
  else first_octet op fin & WS_OP_MASK.

Lemma first_octet_facts op fin :
  0 <= op < 16 ->
  truthy (first_flags op fin & WS_HAS_MASK) = false /\ (first_flags op fin & WS_OP_MASK) = op /\
  truthy ((first_flags op fin ||| WS_HAS_MASK) & WS_HAS_MASK) = true /\
  ((first_flags op fin ||| WS_HAS_MASK) & WS_OP_MASK) = op.
Proof.
  intros Hop.
  refine (below_decide 16 (fun op =>
    truthy (first_flags op fin & WS_HAS_MASK) = false /\ (first_flags op fin & WS_OP_MASK) = op /\
    truthy ((first_flags op fin ||| WS_HAS_MASK) & WS_HAS_MASK) = true /\
    ((first_flags op fin ||| WS_HAS_MASK) & WS_OP_MASK) = op) _ op Hop). destruct fin; vm_compute; done.
Qed.

(** The decoder after a whole frame: [key] is the key in force afterwards. *)
Definition deliver (op : Z) (key payload : list Z) (d : decoder) : decoder :=
  mk_decoder D_start key (d_frames d ++ [spec_frame op (unmask key 0 payload)]).

Lemma decode_unmasked op fin payload d rest :
  0 <= op < 16 -> zlen payload <= max_size < 2 ^ 63 -> d_state d = D_start ->
  decode max_size d (first_octet op fin :: length_field 0 (zlen payload) ++ payload ++ rest) =
  decode max_size (deliver op (d_key d) payload d) rest.
Proof.
  intros Hop Hm Hs. pose proof (zlen_nonneg payload).
  destruct (first_octet_facts op fin Hop) as (Hf1 & Hf2 & _ & _).
  rewrite decode_cons. unfold decode1. rewrite Hs. cbv zeta. fold (first_flags op fin).
  erewrite decode_length_field; [|by left|lia|done].
  cbn [truthy Z.eqb negb].
  unfold spec_after_length. rewrite Hf1, decode_payload by lia.
  unfold finish_frame. by rewrite Hf2.
Qed.

Lemma decode_masked op fin k0 k1 k2 k3 payload d rest :
  0 <= op < 16 -> zlen payload <= max_size < 2 ^ 63 -> d_state d = D_start ->
  length (d_key d) = 4%nat ->
  decode max_size d
    (first_octet op fin :: length_field 128 (zlen payload) ++ [k0; k1; k2; k3] ++ payload ++ rest) =
  decode max_size (deliver op [k0; k1; k2; k3] payload d) rest.
Proof.
  intros Hop Hm Hs Hk. pose proof (zlen_nonneg payload).
  destruct (first_octet_facts op fin Hop) as (_ & _ & Hf3 & Hf4).
  rewrite decode_cons. unfold decode1. rewrite Hs. cbv zeta. fold (first_flags op fin).
  erewrite decode_length_field; [|by right|lia|done].
  cbn [truthy Z.eqb negb].
  unfold spec_after_length. rewrite Hf3.
  erewrite decode_key; [|done|done]. rewrite decode_payload by lia.
  unfold finish_frame. by rewrite Hf4.
Qed.
End Decoding.

(** ** Encoded frames *)

Definition payload_of (f : Frame) : list Z :=
  if m_opcode f =? WS_OP_BINARY then m_payload_binary f else m_payload_text f.

(** A frame ready to be sent: a four-bit opcode and a length field that is the
    length of the payload that goes with the opcode. *)
Definition frame_wf (max_size : Z) (f : Frame) : Prop :=
  0 <= m_opcode f < 16 /\ m_payload_length f = zlen (payload_of f) /\
  zlen (payload_of f) <= max_size /\ bytes_ok (payload_of f).

#[global] Instance frame_wf_dec max_size f : Decision (frame_wf max_size f).
Proof. unfold frame_wf. apply _. Defined.

Lemma make_shape f mask_key :
  0 <= m_opcode f < 16 -> m_payload_length f = zlen (payload_of f) ->
  make f mask_key =
  first_octet (m_opcode f) true ::
    length_field (match mask_key with Some _ => 128 | None => 0 end) (zlen (payload_of f)) ++
    match mask_key with Some k => be_bytes 4 k | None => [] end ++ payload_of f.
Proof.
  intros Hop Hl. unfold make. rewrite Hl.
  assert (((m_opcode f & WS_OP_MASK) ||| 0x80) = first_octet (m_opcode f) true) as ->.
  { refine (below_decide 16 (fun op =>
      ((op & WS_OP_MASK) ||| 0x80) = first_octet op true) _ (m_opcode f) Hop). vm_compute; done. }
  rewrite make_length_field by (destruct mask_key; auto using zlen_nonneg).
  assert ((if m_opcode f =? WS_OP_BINARY then m_payload_binary f
           else if m_opcode f =? WS_OP_CLOSE then m_payload_text f else m_payload_text f)
          = payload_of f) as ->.
  { unfold payload_of. repeat case_match; done. }
  by destruct mask_key.
Qed.

Lemma decode_make max_size f d rest :
  frame_wf max_size f -> max_size < 2 ^ 63 -> d_state d = D_start ->
  decode max_size d (make f None ++ rest) =
  decode max_size (deliver (m_opcode f) (d_key d) (payload_of f) d) rest.
Proof.
  intros (Hop & Hl & Hm & _) Hmax Hs. rewrite make_shape by done.
  cbn [app]. rewrite <- app_assoc. apply decode_unmasked; done || lia.
Qed.

Lemma decode_make_masked max_size f k d rest :
  frame_wf max_size f -> max_size < 2 ^ 63 -> d_state d = D_start ->
  length (d_key d) = 4%nat ->
  decode max_size d (make f (Some k) ++ rest) =
  decode max_size (deliver (m_opcode f) (be_bytes 4 k) (payload_of f) d) rest.
Proof.
  intros (Hop & Hl & Hm & _) Hmax Hs Hk. rewrite make_shape by done.
  cbn [app]. rewrite <- !app_assoc. by apply decode_masked.
Qed.

Lemma length_field_ok byte1 len :
  byte1 = 0 \/ byte1 = 128 -> 0 <= len -> bytes_ok (length_field byte1 len).
Proof.
  intros Hb Hl. unfold length_field, bytes_ok.
  repeat case_match; bool_to_prop; constructor; try apply be_bytes_ok;
    try constructor; unfold byte_ok; lia.
Qed.

Lemma make_ok max_size f mask_key : frame_wf max_size f -> bytes_ok (make f mask_key).
Proof.
  intros (Hop & Hl & Hm & Hok). rewrite make_shape by done. constructor.
  { unfold first_octet, byte_ok. lia. }
  apply Forall_app. split.
  { apply length_field_ok; [destruct mask_key; auto|apply zlen_nonneg]. }
  apply Forall_app. split; [|done]. destruct mask_key; [apply be_bytes_ok|constructor].
Qed.

(** ** Feeding a connection, read by read *)

Section Feed.
Context (max_size : Z).

(** One [consume] per read; the total of the counts returned. *)
Fixpoint feed (fb : FrameBuffer) (reads : list (list Z)) : consume_res :=
  match reads with
  | [] => consumed 0 fb
  | data :: reads =>
      match consume max_size fb data with
      | consumed n fb =>
          match feed fb reads with
          | consumed m fb => consumed (n + m) fb
          | r => r
          end
      | r => r
      end
  end.
End Feed.

Definition frames_of (r : consume_res) : option (list Frame) :=
  match r with
  | consumed _ fb => Some (m_buffered_frames fb)
  | _ => None
  end.

Section FeedProps.
Context (max_size : Z) (max_size_range : 0 <= max_size < 2 ^ 63).

Lemma feed_good reads : forall fb d,
  fb_rel max_size fb d -> bytes_ok (concat reads) ->
  match decode max_size d (concat reads) with
  | Some d' =>
      exists fb', feed max_size fb reads = consumed (zlen (concat reads)) fb' /\
                  fb_rel max_size fb' d'
  | None => exists fb', feed max_size fb reads = consume_threw fb'
  end.
Proof.
  induction reads as [|data reads IH]; intros fb d Hrel Hok; simpl concat in *.
  { exists fb. done. }
  apply Forall_app in Hok as [Hok1 Hok2]. rewrite decode_app.
  pose proof (consume_good max_size max_size_range fb d data Hrel Hok1) as Hc.
  destruct (decode max_size d data) as [d1|].
  - destruct Hc as (fb1 & Hc & Hrel1). specialize (IH fb1 d1 Hrel1 Hok2).
    destruct (decode max_size d1 (concat reads)).
    + destruct IH as (fb2 & Hf & Hrel2). exists fb2. split; [|done].
      simpl. rewrite Hc, Hf. by rewrite zlen_app.
    + destruct IH as (fb2 & Hf). exists fb2. simpl. by rewrite Hc, Hf.
  - destruct Hc as (fb1 & Hc). exists fb1. simpl. by rewrite Hc.
Qed.

Lemma feed_init reads d :
  bytes_ok (concat reads) -> decode max_size decoder_init (concat reads) = Some d ->
  exists fb, feed max_size FrameBuffer_init reads = consumed (zlen (concat reads)) fb /\
             m_buffered_frames fb = d_frames d.
Proof.
  intros Hok Hd.
  pose proof (feed_good reads _ _ (fb_rel_init max_size) Hok) as H. rewrite Hd in H.
  destruct H as (fb & Hf & _ & Hfr). by exists fb.
Qed.

(** A stream of encoded unmasked frames through the decoder. *)
Lemma decode_stream fs : forall d,
  Forall (frame_wf max_size) fs -> d_state d = D_start -> d_key d = [0; 0; 0; 0] ->
  decode max_size d (concat (map (fun f => make f None) fs)) =
  Some (mk_decoder D_start [0; 0; 0; 0]
    (d_frames d ++ map (fun f => spec_frame (m_opcode f) (payload_of f)) fs)).
Proof.
  induction fs as [|f fs IH]; intros d Hwf Hs Hk; cbn [map concat].
  - simpl. rewrite app_nil_r. destruct d; simpl in *; by subst.
  - apply Forall_cons in Hwf as [Hf Hwf].
    rewrite decode_make by (done || lia). rewrite IH by done. unfold deliver.
    rewrite Hk, unmask_zero. simpl. by rewrite <- app_assoc.
Qed.

Lemma stream_ok fs :
  Forall (frame_wf max_size) fs -> bytes_ok (concat (map (fun f => make f None) fs)).
Proof.
  induction 1; cbn [map concat]; [constructor|]. apply Forall_app. split; [|done].
  by eapply make_ok.
Qed.

(** * Claims *)

(** C1. [FrameBuffer::consume] implements the abstract decoder: however a
    connection is cut into reads, the calls terminate, none of the callbacks
    fails, every octet is taken, and the buffered frames are those the decoder
    delivers for the whole stream; a call throws exactly when the decoder
    rejects an announced payload length. *)
Theorem consume_implements_decoder reads :
  bytes_ok (concat reads) ->
  match decode max_size decoder_init (concat reads) with
  | Some d =>
      exists fb, feed max_size FrameBuffer_init reads = consumed (zlen (concat reads)) fb /\
                 m_buffered_frames fb = d_frames d
  | None => exists fb, feed max_size FrameBuffer_init reads = consume_threw fb
  end.
Proof.
  intros Hok. pose proof (feed_good reads _ _ (fb_rel_init max_size) Hok) as H.
  destruct (decode _ _ _); [|done]. destruct H as (fb & Hf & _ & Hfr). by exists fb.
Qed.

(** The frames do not depend on how the reads cut the stream. *)
Theorem chunking_invariance reads1 reads2 :
  bytes_ok (concat reads1) -> concat reads1 = concat reads2 ->
  frames_of (feed max_size FrameBuffer_init reads1) =
  frames_of (feed max_size FrameBuffer_init reads2).
Proof.
  intros Hok Heq.
  pose proof (feed_good reads1 _ _ (fb_rel_init max_size) Hok) as H1.
  rewrite Heq in Hok, H1.
  pose proof (feed_good reads2 _ _ (fb_rel_init max_size) Hok) as H2.
  destruct (decode _ _ _).
  - destruct H1 as (fb1 & -> & _ & E1), H2 as (fb2 & -> & _ & E2). simpl. congruence.
  - by destruct H1 as (? & ->), H2 as (? & ->).
Qed.

(** C12. Round trip: a stream of frames encoded with [Frame::make(false)], cut
    into reads in any way, is decoded into exactly those frames, in order. *)
Theorem make_roundtrip fs reads :
  Forall (frame_wf max_size) fs -> concat reads = concat (map (fun f => make f None) fs) ->
  exists fb,
    feed max_size FrameBuffer_init reads = consumed (zlen (concat reads)) fb /\
    m_buffered_frames fb = map (fun f => spec_frame (m_opcode f) (payload_of f)) fs.
Proof.
  intros Hwf Heq.
  pose proof (decode_stream fs decoder_init Hwf eq_refl eq_refl) as Hd.
  rewrite <- Heq in Hd. apply (feed_init reads _) in Hd; [done|].
  rewrite Heq. by apply stream_ok.
Qed.

(** A close frame keeps its status and reason: [setClosePayload], [make] and
    the frame buffer give back the code and the reason that were set. *)
Theorem close_roundtrip code reason reads :
  0 <= code < 65536 -> bytes_ok reason -> 2 + zlen reason <= max_size ->
  concat reads = make (setClosePayload code reason (setOpcode WS_OP_CLOSE Frame_default)) None ->
  exists fb f,
    feed max_size FrameBuffer_init reads = consumed (zlen (concat reads)) fb /\
    m_buffered_frames fb = [f] /\ getType f = WS_OP_CLOSE /\
    getCloseCode f = code /\ getCloseReason f = reason.
Proof.
  intros Hcode Hok Hm Heq. set (f := setClosePayload _ _ _) in Heq.
  assert (Hp : payload_of f = reverse (le_bytes 2 code) ++ reason).
  { change (payload_of f) with (le_bytes 2 (byteSwapToBigEndian 2 code) ++ reason).
    unfold byteSwapToBigEndian. by rewrite le_bytes_byteSwap. }
  assert (Hwf : frame_wf max_size f).
  { split; [done|]. rewrite Hp. split; [|split].
    - change (m_payload_length f) with
        (zlen (le_bytes 2 (byteSwapToBigEndian 2 code) ++ reason)). done.
    - rewrite zlen_app. change (zlen (reverse (le_bytes 2 code))) with 2. lia.
    - apply Forall_app. split; [apply bytes_ok_reverse, le_bytes_ok|done]. }
  assert (Hall : Forall (frame_wf max_size) [f]) by (by constructor).
  pose proof (decode_stream [f] decoder_init Hall eq_refl eq_refl) as Hd.
  cbn [map concat] in Hd. rewrite app_nil_r, <- Heq in Hd.
  apply feed_init in Hd as (fb & Hf & Hfr); [|rewrite Heq; by eapply make_ok].
  exists fb, (spec_frame (m_opcode f) (payload_of f)). split; [done|]. split; [done|]. rewrite Hp.
  change (reverse (le_bytes 2 code)) with [(code >>> 8) & 255; code & 255].
  repeat split. simpl. change 255 with (Z.ones 8).
  rewrite !Z.land_ones, Z.shiftr_div_pow2 by lia. change (2 ^ 8) with 256.
  rewrite (Z.mod_small (code / 256)) by (split; [apply Z.div_pos|apply Z.div_lt_upper_bound]; lia).
  pose proof (Z.div_mod code 256). lia.
Qed.

(** [Frame::make(true)] announces a mask but sends the payload as it is: the
    receiver gets the payload XORed with the key. *)
Theorem make_masked_delivers_xored f k reads :
  frame_wf max_size f -> concat reads = make f (Some k) ->
  exists fb,
    feed max_size FrameBuffer_init reads = consumed (zlen (concat reads)) fb /\
    m_buffered_frames fb =
      [spec_frame (m_opcode f) (unmask (be_bytes 4 k) 0 (payload_of f))].
Proof.
  intros Hwf Heq.
  pose proof (decode_make_masked max_size f k decoder_init []) as Hd.
  rewrite app_nil_r, <- Heq in Hd.
  apply (feed_init reads (deliver (m_opcode f) (be_bytes 4 k) (payload_of f) decoder_init)).
  - rewrite Heq. by eapply make_ok.
  - rewrite Hd by (done || lia). done.
Qed.

(** A stale mask: an unmasked frame that follows a masked one is XORed with
    the key of the masked frame, which the parser still holds. *)
Theorem unmasked_after_masked_is_xored f k g reads :
  frame_wf max_size f -> frame_wf max_size g ->
  concat reads = make f (Some k) ++ make g None ->
  exists fb,
    feed max_size FrameBuffer_init reads = consumed (zlen (concat reads)) fb /\
    m_buffered_frames fb =
      [spec_frame (m_opcode f) (unmask (be_bytes 4 k) 0 (payload_of f));
       spec_frame (m_opcode g) (unmask (be_bytes 4 k) 0 (payload_of g))].
Proof.
  intros Hf Hg Heq.
  apply (feed_init reads (deliver (m_opcode g) (be_bytes 4 k) (payload_of g)
           (deliver (m_opcode f) (be_bytes 4 k) (payload_of f) decoder_init))).
  - rewrite Heq. apply Forall_app. split; by eapply make_ok.
  - rewrite Heq, decode_make_masked by (done || lia).
    rewrite <- (app_nil_r (make g None)), decode_make by (done || lia). done.
Qed.
End FeedProps.

(** ** [websocket_build_frame] *)

Lemma wrap8_land x : wrap 8 x = (x & 255).
Proof. unfold wrap. change 255 with (Z.ones 8). by rewrite Z.land_ones by lia. Qed.

Lemma opcode_range flags : 0 <= (flags & WS_OP_MASK) < 16.
Proof.
  unfold WS_OP_MASK. change 15 with (Z.ones 4). rewrite Z.land_ones by lia.
  apply Z.mod_pos_bound. lia.
Qed.

Lemma build_head_length f0 b1 len :
  (if len <? 126 then [f0; wrap 8 (b1 ||| len)]
   else if len <=? 0xFFFF then [f0; b1 ||| 126; wrap 8 (len >>> 8); len & 0xFF]
   else
     [f0; b1 ||| 127;
      (len >>> 56) & 0xFF; (len >>> 48) & 0xFF; (len >>> 40) & 0xFF; (len >>> 32) & 0xFF;
      (len >>> 24) & 0xFF; (len >>> 16) & 0xFF; (len >>> 8) & 0xFF; len & 0xFF])
  = f0 :: make_length b1 len.
Proof.
  unfold make_length. destruct (len <? 126); [done|].
  destruct (len <=? 65535); [by rewrite wrap8_land|done].
Qed.

Lemma build_frame_shape flags mask stale data :
  let masked := truthy (flags & WS_HAS_MASK) in
  let key := default stale mask in
  websocket_build_frame flags mask stale data =
  first_octet (flags & WS_OP_MASK) (truthy (flags & WS_FIN)) ::
    length_field (if masked then 128 else 0) (zlen data) ++
    (if masked then key ++ unmask key 0 data else data).
Proof.
  cbv zeta. unfold websocket_build_frame. pose proof (zlen_nonneg data).
  assert (H0 : ((if truthy (flags & WS_FIN) then 1 <<< 7 else 0) ||| (flags & WS_OP_MASK)) =
          first_octet (flags & WS_OP_MASK) (truthy (flags & WS_FIN))).
  { refine (below_decide 16 (fun op =>
      ((if truthy (flags & WS_FIN) then 1 <<< 7 else 0) ||| op) =
      first_octet op (truthy (flags & WS_FIN))) _ (flags & WS_OP_MASK) (opcode_range flags)).
    destruct (truthy (flags & WS_FIN)); vm_compute; done. }
  change (1 <<< 7) with 128 in *. rewrite H0.
  set (b1 := if truthy (flags & WS_HAS_MASK) then 128 else 0).
  assert (Hb1 : b1 = 0 \/ b1 = 128) by (subst b1; destruct (truthy (flags & WS_HAS_MASK)); [by right|by left]).
  rewrite build_head_length, make_length_field by done.
  unfold websocket_decode; cbn [fst]. rewrite mask_octets_unmask.
  by destruct (truthy (flags & WS_HAS_MASK)).
Qed.

(** A message sent with [websocket_build_frame]: flags, key and data. *)
Definition msg_wf (max_size : Z) (m : Z * list Z * list Z) : Prop :=
  let '(flags, key, data) := m in
  truthy (flags & WS_HAS_MASK) = true /\ length key = 4%nat /\ bytes_ok key /\
  bytes_ok data /\ zlen data <= max_size.

Definition msg_bytes (m : Z * list Z * list Z) : list Z :=
  let '(flags, key, data) := m in websocket_build_frame flags (Some key) [] data.

Definition msg_frame (m : Z * list Z * list Z) : Frame :=
  let '(flags, key, data) := m in spec_frame (flags & WS_OP_MASK) data.

Lemma msg_bytes_ok max_size m : msg_wf max_size m -> bytes_ok (msg_bytes m).
Proof.
  destruct m as [[flags key] data]. intros (Hm & Hl & Hk & Hd & _).
  unfold msg_bytes. rewrite build_frame_shape, Hm. constructor.
  { pose proof (opcode_range flags). unfold first_octet, byte_ok. case_match; lia. }
  apply Forall_app. split; [apply length_field_ok; [auto|apply zlen_nonneg]|].
  apply Forall_app. split; [done|]. by apply unmask_ok.
Qed.

Lemma decode_msgs max_size ms : max_size < 2 ^ 63 -> forall d,
  Forall (msg_wf max_size) ms -> d_state d = D_start -> length (d_key d) = 4%nat ->
  exists key, decode max_size d (concat (map msg_bytes ms)) =
    Some (mk_decoder D_start key (d_frames d ++ map msg_frame ms)).
Proof.
  intros Hmax. induction ms as [|m ms IH]; intros d Hwf Hs Hk; cbn [map concat].
  - exists (d_key d). simpl. rewrite app_nil_r. destruct d; simpl in *; by subst.
  - apply Forall_cons in Hwf as [Hm Hwf]. destruct m as [[flags key] data].
    destruct Hm as (Hmask & Hl & _ & _ & Hlen).
    destruct key as [|k0 [|k1 [|k2 [|k3 [|]]]]]; try discriminate Hl.
    unfold msg_bytes at 1. rewrite build_frame_shape, Hmask.
    cbn [default from_option id]. rewrite <- app_comm_cons, <- !app_assoc.
    rewrite <- (zlen_unmask [k0; k1; k2; k3] 0 data).
    rewrite (decode_masked max_size _ _ k0 k1 k2 k3);
      [|apply opcode_range|rewrite zlen_unmask; lia|done|done].
    destruct (IH (deliver (flags & WS_OP_MASK) [k0; k1; k2; k3]
                   (unmask [k0; k1; k2; k3] 0 data) d)) as [key' ->]; try done.
    exists key'. unfold deliver. cbn [d_frames]. rewrite unmask_involutive.
    by rewrite <- app_assoc.
Qed.

(** Round trip of masked messages: what a client sends with
    [websocket_build_frame] under arbitrary keys is decoded into its messages,
    however the reads cut it. *)
Theorem build_frame_roundtrip max_size ms reads :
  0 <= max_size < 2 ^ 63 -> Forall (msg_wf max_size) ms ->
  concat reads = concat (map msg_bytes ms) ->
  exists fb,
    feed max_size FrameBuffer_init reads = consumed (zlen (concat reads)) fb /\
    m_buffered_frames fb = map msg_frame ms.
Proof.
  intros Hmax Hwf Heq.
  destruct (decode_msgs max_size ms (proj2 Hmax) decoder_init Hwf eq_refl eq_refl) as [key Hd].
  rewrite <- Heq in Hd. apply (feed_init max_size Hmax) in Hd; [done|].
  rewrite Heq. clear Heq Hd. induction Hwf; cbn [map concat]; [constructor|].
  apply Forall_app. split; [by eapply msg_bytes_ok|done].
Qed.

(** [websocket_calc_frame_size] is the number of octets
    [websocket_build_frame] writes. *)
Theorem calc_frame_size_correct flags mask stale data :
  length (default stale mask) = 4%nat -> zlen data < 2 ^ 63 ->
  websocket_calc_frame_size flags (zlen data) =
  zlen (websocket_build_frame flags mask stale data).
Proof.
  intros Hk Hd. rewrite build_frame_shape. unfold websocket_calc_frame_size, length_field.
  pose proof (zlen_nonneg data). rewrite zlen_cons, !zlen_app.
  rewrite (wrap_small 64 (zlen data + 2)) by lia.
  assert (Hm : zlen (default stale mask) = 4) by (unfold zlen; lia).
  destruct (126 <=? zlen data) eqn:E1, (zlen data <? 126) eqn:E2,
    (65535 <? zlen data) eqn:E3, (zlen data <=? 65535) eqn:E4, (truthy _);
    bool_to_prop; try lia; rewrite ?zlen_app, ?zlen_unmask, ?Hm, ?wrap_small by (rewrite ?wrap_small; lia);
    rewrite ?wrap_small by lia; unfold zlen; simpl length; lia.
Qed.

(** The two encoders agree: [Frame::make(false)] writes what
    [websocket_build_frame] writes for the same opcode, [FIN] and payload. *)
Theorem make_is_build_frame max_size f stale :
  frame_wf max_size f ->
  make f None = websocket_build_frame (m_opcode f ||| WS_FIN) None stale (payload_of f).
Proof.
  intros (Hop & Hl & _ & _). rewrite make_shape, build_frame_shape by done.
  destruct (below_decide 16 (fun op =>
    ((op ||| WS_FIN) & WS_OP_MASK) = op /\ truthy ((op ||| WS_FIN) & WS_FIN) = true /\
    truthy ((op ||| WS_FIN) & WS_HAS_MASK) = false) ltac:(by vm_compute) (m_opcode f) Hop)
    as (-> & -> & ->).
  done.
Qed.

(** * Witnesses *)

Definition ex_text : Frame := setTextPayload [72; 105] (setOpcode WS_OP_TEXT Frame_default).
Definition ex_bin : Frame := setBinaryPayload [1; 2; 255] (setOpcode WS_OP_BINARY Frame_default).
Definition ex_reads : list (list Z) := [[129]; [2; 72]; [105; 130; 3; 1]; [2; 255]].

Lemma consume_implements_decoder_witness :
  exists fb, feed 1000 FrameBuffer_init ex_reads = consumed 9 fb /\ zlen (m_buffered_frames fb) = 2.
Proof.
  pose proof (consume_implements_decoder 1000 ltac:(lia) ex_reads ltac:(decide_now)) as (fb & Hf & Hfr).
  exists fb. split; [exact Hf|]. rewrite Hfr. reflexivity.
Defined.

Lemma chunking_invariance_witness :
  frames_of (feed 1000 FrameBuffer_init ex_reads) =
  frames_of (feed 1000 FrameBuffer_init [concat ex_reads]).
Proof.
  apply (chunking_invariance 1000); [lia| |reflexivity].
  decide_now.
Defined.

Lemma make_roundtrip_witness :
  exists fb, feed 1000 FrameBuffer_init ex_reads = consumed 9 fb /\
             m_buffered_frames fb = [spec_frame 1 [72; 105]; spec_frame 2 [1; 2; 255]].
Proof.
  apply (make_roundtrip 1000 ltac:(lia) [ex_text; ex_bin]); [|reflexivity].
  decide_now.
Defined.

Lemma close_roundtrip_witness :
  exists fb f, feed 1000 FrameBuffer_init [[136; 5]; [3; 233; 98; 121; 101]] = consumed 7 fb /\
    m_buffered_frames fb = [f] /\ getType f = WS_OP_CLOSE /\
    getCloseCode f = 1001 /\ getCloseReason f = [98; 121; 101].
Proof.
  apply (close_roundtrip 1000 ltac:(lia) 1001 [98; 121; 101]); [lia| |vm_compute; done|reflexivity].
  decide_now.
Defined.

Lemma make_masked_delivers_xored_witness :
  exists fb, feed 1000 FrameBuffer_init [make ex_text (Some 0x01020304)] = consumed 8 fb /\
    m_buffered_frames fb = [spec_frame 1 [73; 107]].
Proof.
  apply (make_masked_delivers_xored 1000 ltac:(lia) ex_text 0x01020304); [|reflexivity].
  decide_now.
Defined.

Lemma unmasked_after_masked_is_xored_witness :
  exists fb, feed 1000 FrameBuffer_init
      [make ex_text (Some 0x01020304) ++ make ex_text None] = consumed 12 fb /\
    m_buffered_frames fb = [spec_frame 1 [73; 107]; spec_frame 1 [73; 107]].
Proof.
  apply (unmasked_after_masked_is_xored 1000 ltac:(lia) ex_text 0x01020304 ex_text);
    [..|reflexivity]; decide_now.
Defined.

Lemma build_frame_roundtrip_witness :
  exists fb, feed 1000 FrameBuffer_init
      [websocket_build_frame 0x31 (Some [1; 2; 3; 4]) [] [72; 105]] = consumed 8 fb /\
    m_buffered_frames fb = [spec_frame 1 [72; 105]].
Proof.
  apply (build_frame_roundtrip 1000 [(0x31, [1; 2; 3; 4], [72; 105])]); [lia| |reflexivity].
  repeat constructor; try (vm_compute; done).
Defined.

Lemma calc_frame_size_correct_witness :
  websocket_calc_frame_size 0x31 2 =
  zlen (websocket_build_frame 0x31 (Some [1; 2; 3; 4]) [] [72; 105]).
Proof.
  apply (calc_frame_size_correct 0x31 (Some [1; 2; 3; 4]) [] [72; 105]); [done|vm_compute; done].
Defined.

Lemma make_is_build_frame_witness :
  make ex_text None = websocket_build_frame 0x11 None [] [72; 105].
Proof.
  apply (make_is_build_frame 1000 ex_text []).
  decide_now.
Defined.
