(* ===== verification/CppString.v ===== *)
(** * [std::string] as the sources use it

    A string is the list of its octets.  [npos] is [None]. *)

From S2P Require Import Prelude.

(** The octets of a literal. *)
Definition str (s : string) : list Z := map (fun c => Z.of_N (Ascii.N_of_ascii c)) (String.list_ascii_of_string s).

Definition CR : Z := 13.
Definition LF : Z := 10.
Definition CRLF : list Z := [CR; LF].

(** [pat] starts [s]. *)
Fixpoint starts_with (pat s : list Z) : bool :=
  match pat, s with
  | [], _ => true
  | a :: pat, b :: s => (a =? b) && starts_with pat s
  | _ :: _, [] => false
  end.

(** [s.find(pat)] *)
Fixpoint str_find (pat s : list Z) : option nat :=
  if starts_with pat s then Some 0%nat
  else match s with
       | [] => None
       | _ :: s' => S <$> str_find pat s'
       end.

(** [s.find(pat, pos)] *)
Definition str_find_from (pat : list Z) (pos : nat) (s : list Z) : option nat :=
  if (pos <=? length s)%nat then Nat.add pos <$> str_find pat (drop pos s) else None.

(** [s.substr(pos, n)] for [pos <= s.size()]; [None] is [npos]. *)
Definition str_substr (pos : nat) (n : option nat) (s : list Z) : list Z :=
  match n with None => drop pos s | Some n => take n (drop pos s) end.

(** [std::to_string] of an unsigned 64-bit number: twenty digits are enough. *)
Fixpoint digits (fuel : nat) (n : Z) (acc : list Z) : list Z :=
  match fuel with
  | O => acc
  | S fuel => if n <? 10 then (48 + n) :: acc else digits fuel (n / 10) ((48 + n mod 10) :: acc)
  end.
Definition to_string (n : Z) : list Z := digits 20 n [].

(** The value of the digits a text starts with. *)
Definition isdigit (c : Z) : bool := (48 <=? c) && (c <=? 57).

Fixpoint digits_value (acc : Z) (s : list Z) : Z :=
  match s with
  | c :: s => if isdigit c then digits_value (acc * 10 + (c - 48)) s else acc
  | [] => acc
  end.

Definition str_eqb (a b : list Z) : bool := bool_decide (a = b).

(** ** Lemmas *)

Lemma starts_with_spec pat s : starts_with pat s = true <-> exists r, s = pat ++ r.
Proof.
  revert s. induction pat as [|a pat IH]; intros [|b s]; simpl.
  - split; [by eexists|done].
  - split; [by eexists|done].
  - split; [done|]. by intros [? [=]].
  - rewrite andb_true_iff, Z.eqb_eq, IH. split.
    + intros [-> [r ->]]. by eexists.
    + intros [r [= -> ->]]. split; [done|by eexists].
Qed.

(** [find] gives the first position where the pattern occurs. *)
Lemma str_find_Some pat s n :
  str_find pat s = Some n ->
  exists a r, s = a ++ pat ++ r /\ length a = n /\
    forall m, (m < n)%nat -> starts_with pat (drop m s) = false.
Proof.
  revert n. induction s as [|c s IH]; intros n; cbn [str_find].
  - destruct (starts_with pat []) eqn:E; [|done]. intros [= <-].
    apply starts_with_spec in E as [r E]. exists [], r. split_and!; [done..|lia].
  - destruct (starts_with pat (c :: s)) eqn:E.
    + intros [= <-]. apply starts_with_spec in E as [r E]. exists [], r. split_and!; [done..|lia].
    + destruct (str_find pat s) as [k|]; [|done]. intros [= <-].
      destruct (IH k eq_refl) as (a & r & -> & Hl & Hm). exists (c :: a), r.
      split_and!; [done|simpl; lia|]. intros [|m] Hlt; [done|]. simpl. apply Hm. lia.
Qed.

Lemma str_find_None pat s :
  str_find pat s = None -> forall m, starts_with pat (drop m s) = false.
Proof.
  induction s as [|c s IH]; cbn [str_find]; destruct (starts_with pat _) eqn:E; try done.
  - intros _ m. by rewrite drop_nil.
  - destruct (str_find pat s); [done|]. intros _ [|m]; [done|]. by apply IH.
Qed.

(** A prefix holds no more occurrences. *)
Lemma str_find_prefix pat a b : str_find pat (a ++ b) = None -> str_find pat a = None.
Proof.
  intros Hn. destruct (str_find pat a) as [n|] eqn:E; [|done]. exfalso. apply str_find_Some in E as (x & r & -> & _ & _).
  pose proof (str_find_None _ _ Hn (length x)) as H. rewrite <- !app_assoc, drop_app_length in H.
  assert (starts_with pat (pat ++ r ++ b) = true) by (apply starts_with_spec; by eexists). congruence.
Qed.

(** The first occurrence when the prefix before it contains none. *)
Lemma str_find_app pat a r :
  (forall m, (m < length a)%nat -> starts_with pat (drop m (a ++ pat ++ r)) = false) ->
  str_find pat (a ++ pat ++ r) = Some (length a).
Proof.
  induction a as [|c a IH]; intros Hm.
  - assert (starts_with pat (pat ++ r) = true) as E by (apply starts_with_spec; by eexists).
    simpl. destruct (pat ++ r); cbn [str_find]; by rewrite E.
  - assert (E : starts_with pat (c :: a ++ pat ++ r) = false) by (apply (Hm 0%nat); simpl; lia).
    cbn [app str_find]. rewrite E, IH; [done|].
    intros m Hlt. apply (Hm (S m)). simpl. lia.
Qed.

Lemma str_eqb_spec a b : str_eqb a b = true <-> a = b.
Proof. apply bool_decide_eq_true. Qed.

(** Finding a single character. *)
Lemma str_find_char c a r : c ∉ a -> str_find [c] (a ++ c :: r) = Some (length a).
Proof.
  induction a as [|x a IH]; intros Hc; cbn [app str_find starts_with].
  - by rewrite Z.eqb_refl.
  - rewrite not_elem_of_cons in Hc. destruct Hc as [Hx Ha].
    rewrite (proj2 (Z.eqb_neq c x) Hx). cbn [andb]. by rewrite IH.
Qed.

Lemma str_find_char_None c s : c ∉ s -> str_find [c] s = None.
Proof.
  induction s as [|x s IH]; intros Hc; [done|]. cbn [str_find starts_with].
  rewrite not_elem_of_cons in Hc. destruct Hc as [Hx Ha].
  rewrite (proj2 (Z.eqb_neq c x) Hx). cbn [andb]. by rewrite IH.
Qed.

(** The lexicographic order of octets. *)
Fixpoint lex (a b : list Z) : comparison :=
  match a, b with
  | [], [] => Eq
  | [], _ :: _ => Lt
  | _ :: _, [] => Gt
  | x :: a, y :: b => match x ?= y with Eq => lex a b | c => c end
  end.

Lemma lex_refl a : lex a a = Eq.
Proof. induction a; cbn; [done|]. by rewrite Z.compare_refl. Qed.

Lemma lex_Eq a b : lex a b = Eq -> a = b.
Proof.
  revert b. induction a as [|x a IH]; intros [|y b]; cbn; try done.
  destruct (x ?= y) eqn:E; try done. apply Z.compare_eq in E as ->. intros H. f_equal. by apply IH.
Qed.

Lemma lex_opp a b : lex b a = CompOpp (lex a b).
Proof.
  revert b. induction a as [|x a IH]; intros [|y b]; cbn; try done.
  rewrite (Z.compare_antisym x y). destruct (x ?= y); cbn; auto.
Qed.

Lemma lex_trans a b c : lex a b = Lt -> lex b c = Lt -> lex a c = Lt.
Proof.
  revert b c. induction a as [|x a IH]; intros [|y b] [|z c]; cbn; try done.
  destruct (Z.compare_spec x y), (Z.compare_spec y z), (Z.compare_spec x z); subst; try done; try lia.
  apply IH.
Qed.
