(* ===== verification/Thread.v ===== *)
(** * Threads

    Models [Semaphore] and [Thread] ([sylar/basic/thread.h], [thread.cc]): the constructor,
    which starts the thread and waits until it has taken its function, the new thread in
    [Thread::run], and joining, detaching and destroying the object.  What the operating
    system does with a thread is a log of the calls that name it; the results of the calls
    are arguments. *)

From stdpp Require Import relations.
From S2P Require Import Prelude CppString.

Inductive State := INIT | RUNNING | JOINED | DETACHED.
#[global] Instance thread_State_eq_dec : EqDecision State.
Proof. solve_decision. Defined.

(** ** Starting *)

(** Where the constructor and the new thread stand; after [notify] the thread calls its own
    copy of the function. *)
Inductive ctor_pc := K_create | K_wait | K_done | K_throw.
Inductive run_pc := R_none | R_start | R_named | R_id | R_taken | R_call (f : nat) | R_over.

Record start := MkStart {
  k_pc : ctor_pc;
  r_pc : run_pc;
  m_cb : option nat;              (* the function, until it is swapped out *)
  r_cb : option nat;              (* the copy of the thread *)
  semaphore : Z;
  t_thread : bool;                (* the thread-local pointer to the object is set *)
  called : list nat;
}.

Definition start_init (f : nat) : start := MkStart K_create R_none (Some f) None 0 false [].

(** One step of the constructor; [ok]: the result of [pthread_create]. *)
Definition ctor_step (ok : bool) (s : start) : option start :=
  match k_pc s with
  | K_create =>
      Some (if ok then MkStart K_wait R_start (m_cb s) (r_cb s) (semaphore s) (t_thread s) (called s)
            else MkStart K_throw R_none (m_cb s) (r_cb s) (semaphore s) (t_thread s) (called s))
  | K_wait =>
      if 0 <? semaphore s then Some (MkStart K_done (r_pc s) (m_cb s) (r_cb s) (semaphore s - 1) (t_thread s) (called s)) else None
  | _ => None
  end.

(** One step of [Thread::run]; calling nothing throws. *)
Definition run_step (s : start) : option start :=
  match r_pc s with
  | R_start => Some (MkStart (k_pc s) R_named (m_cb s) (r_cb s) (semaphore s) true (called s))
  | R_named => Some (MkStart (k_pc s) R_id (m_cb s) (r_cb s) (semaphore s) (t_thread s) (called s))
  | R_id => Some (MkStart (k_pc s) R_taken None (m_cb s) (semaphore s) (t_thread s) (called s))
  | R_taken =>
      match r_cb s with
      | Some f => Some (MkStart (k_pc s) (R_call f) (m_cb s) (r_cb s) (semaphore s + 1) (t_thread s) (called s))
      | None => None
      end
  | R_call f => Some (MkStart (k_pc s) R_over (m_cb s) (r_cb s) (semaphore s) (t_thread s) (called s ++ [f]))
  | _ => None
  end.

Inductive start_step : start -> start -> Prop :=
  | ss_ctor ok s s' : ctor_step ok s = Some s' -> start_step s s'
  | ss_run s s' : run_step s = Some s' -> start_step s s'.

(** The thread does not touch the object any more. *)
Definition off_object (r : run_pc) : bool := match r with R_call _ | R_over => true | _ => false end.

(** ** Joining *)

(** What is asked of the operating system about the thread of an object. *)
Inductive os_call := Join | Detach.

Record Thread := MkThread { m_thread : bool; m_state : State; calls : list os_call }.

Definition newThread : Thread := MkThread true INIT [].

(** The flag tells that an exception leaves the operation. *)
Definition join (ok : bool) (t : Thread) : bool * Thread :=
  match m_state t with
  | JOINED | DETACHED => (false, t)
  | _ =>
      if m_thread t then
        if ok then (false, MkThread false JOINED (calls t ++ [Join])) else (true, MkThread true JOINED (calls t ++ [Join]))
      else (false, MkThread false JOINED (calls t))
  end.

Definition detach (ok : bool) (t : Thread) : bool * Thread :=
  if m_thread t then
    if ok then (false, MkThread false (m_state t) (calls t ++ [Detach])) else (true, MkThread true (m_state t) (calls t ++ [Detach]))
  else (false, t).

Definition dtorThread (t : Thread) : Thread :=
  match m_state t with
  | RUNNING => MkThread (m_thread t) JOINED (calls t ++ [Join])
  | _ => t
  end.

(** [setName], with [named]: the calling thread has an object. *)
Fixpoint setName (fuel : nat) (named : bool) (name : list Z) : option (list Z) :=
  match fuel with
  | O => None
  | S fuel => if named then match setName fuel named name with Some _ => Some name | None => None end else Some name
  end.

(** ** What the start keeps *)

Inductive start_ok (f : nat) : start -> Prop :=
  | so_create : start_ok f (MkStart K_create R_none (Some f) None 0 false [])
  | so_throw : start_ok f (MkStart K_throw R_none (Some f) None 0 false [])
  | so_before r b : r = R_start \/ r = R_named \/ r = R_id -> start_ok f (MkStart K_wait r (Some f) None 0 b [])
  | so_taken b : start_ok f (MkStart K_wait R_taken None (Some f) 0 b [])
  | so_posted b : start_ok f (MkStart K_wait (R_call f) None (Some f) 1 b [])
  | so_ran b : start_ok f (MkStart K_wait R_over None (Some f) 1 b [f])
  | so_done b : start_ok f (MkStart K_done (R_call f) None (Some f) 0 b [])
  | so_done_ran b : start_ok f (MkStart K_done R_over None (Some f) 0 b [f]).
#[local] Hint Constructors start_ok : core.

Lemma start_ok_step f s s' : start_step s s' -> start_ok f s -> start_ok f s'.
Proof.
  intros Hs H. destruct Hs as [ok s s' E|s s' E].
  - destruct H as [| |r b Hr|b|b|b|b|b]; cbn in E; repeat case_match; simplify_eq; eauto.
  - destruct H as [| |r b Hr|b|b|b|b|b]; cbn in E; simplify_eq; eauto.
    destruct Hr as [-> | [-> | ->]]; cbn in E; simplify_eq; eauto.
Qed.

Lemma start_reachable f s : rtc start_step (start_init f) s -> start_ok f s.
Proof.
  revert s. apply (rtc_ind_r (start_ok f)); [constructor|]. intros s s' _ Hs H. by eapply start_ok_step.
Qed.

(** Once the constructor of a thread has returned, the new thread does not touch the
    object any more: it has taken its function, calls it exactly once, and the object may
    be moved on or destroyed; until then the constructor waits, and the two never wait for
    each other. *)
Theorem thread_start f s :
  rtc start_step (start_init f) s ->
  (k_pc s = K_done -> off_object (r_pc s) = true /\ m_cb s = None) /\
  (called s = [] \/ called s = [f]) /\
  ((exists s', start_step s s') \/ k_pc s = K_throw \/ k_pc s = K_done /\ called s = [f]).
Proof.
  intros H%start_reachable. split_and!.
  - destruct H; by intros.
  - destruct H; eauto.
  - destruct H as [| |r b Hr|b|b|b|b|b]; try (by right; left); try (by right; right); left.
    2: destruct Hr as [-> | [-> | ->]].
    all: eexists; first [by apply ss_run | by apply (ss_ctor true)].
Qed.

Lemma thread_start_witness : exists s, rtc start_step (start_init 3) s /\ k_pc s = K_done /\ off_object (r_pc s) = true.
Proof.
  exists (MkStart K_done (R_call 3) None (Some 3%nat) 0 true []).
  assert (H : rtc start_step (start_init 3) (MkStart K_done (R_call 3) None (Some 3%nat) 0 true [])).
  { eapply rtc_l; [by apply (ss_ctor true)|]. do 4 (eapply rtc_l; [by apply ss_run|]).
    eapply rtc_l; [by apply (ss_ctor true)|]. apply rtc_refl. }
  split; [exact H|]. split; [reflexivity|]. by apply (thread_start 3 _ H).
Defined.

(** ** What happens to the thread *)

Inductive thread_op := T_join | T_detach | T_dtor.

Definition thread_exec (op : thread_op) (t : Thread) : Thread :=
  match op with T_join => (join true t).2 | T_detach => (detach true t).2 | T_dtor => dtorThread t end.

(** As long as the calls succeed, a thread is joined or detached at most once. *)
Theorem thread_released_once ops : (length (calls (fold_left (fun t op => thread_exec op t) ops newThread)) <= 1)%nat.
Proof.
  assert (H : forall ops t, m_state t <> RUNNING -> (length (calls t) <= (if m_thread t then 0 else 1))%nat ->
    (length (calls (fold_left (fun t op => thread_exec op t) ops t)) <= 1)%nat).
  { clear. intros ops. induction ops as [|op ops IH]; intros [th st l] Hs Hl; cbn [fold_left]; [destruct th; cbn in *; lia|].
    apply IH; destruct op, st, th; cbn in *; rewrite ?length_app; cbn; try done; lia. }
  by apply H.
Qed.

(** The destructor never joins: no operation makes the state [RUNNING], so that a thread
    that was not joined by hand is neither joined nor detached. *)
Theorem dtor_never_joins ops :
  m_state (fold_left (fun t op => thread_exec op t) ops newThread) <> RUNNING /\
  calls (dtorThread newThread) = [].
Proof.
  split; [|done]. assert (H : forall ops t, m_state t <> RUNNING -> m_state (fold_left (fun t op => thread_exec op t) ops t) <> RUNNING).
  { clear. intros ops. induction ops as [|op ops IH]; intros [th st l] Hs; cbn [fold_left]; [done|]. apply IH. by destruct op, st, th. }
  by apply H.
Qed.

(** [setName] in a thread that has an object calls itself without end. *)
Theorem setName_diverges fuel name : setName fuel true name = None.
Proof. induction fuel as [|fuel IH]; [done|]. cbn [setName]. by rewrite IH. Qed.
