(* ===== verification/Base64.v ===== *)
(** * Base64

    Models [sylar/protocol/websocket/base64/base64.cpp].  The fixed arrays
    [char_array_3] and [char_array_4] are the lists of their first [i] entries;
    the entries above [i] are not read before they are set. *)

From S2P Require Import Prelude CppString.

Definition base64_chars : list Z :=
  str "ABCDEFGHIJKLMNOPQRSTUVWXYZabcdefghijklmnopqrstuvwxyz0123456789+/".

Definition isalnum (c : Z) : bool :=
  ((48 <=? c) && (c <=? 57)) || ((65 <=? c) && (c <=? 90)) || ((97 <=? c) && (c <=? 122)).

Definition is_base64 (c : Z) : bool := isalnum c || (c =? 43) || (c =? 47).

(** [base64_chars[k]] *)
Definition char_of (k : Z) : Z := default 0 (base64_chars !! Z.to_nat k).

(** [static_cast<unsigned char>(base64_chars.find(c))]: [npos] becomes 255. *)
Definition index_of (c : Z) : Z :=
  match str_find [c] base64_chars with Some k => Z.of_nat k | None => 255 end.

(** ** Encoding *)

(** [char_array_4] from [char_array_3]. *)
Definition to_sextets (a b c : Z) : list Z :=
  [(a & 0xfc) >>> 2;
   u8 (((a & 0x03) <<< 4) + ((b & 0xf0) >>> 4));
   u8 (((b & 0x0f) <<< 2) + ((c & 0xc0) >>> 6));
   c & 0x3f].

(** The tail after the loop: [arr3] holds the [i] octets left over. *)
Definition encode_tail (arr3 ret : list Z) : list Z :=
  let i := length arr3 in
  if (i =? 0)%nat then ret
  else
    let padded := arr3 ++ replicate (3 - i) 0 in
    let arr4 := to_sextets (default 0 (padded !! 0%nat)) (default 0 (padded !! 1%nat))
                  (default 0 (padded !! 2%nat)) in
    ret ++ map char_of (take (i + 1) arr4) ++ replicate (3 - i) 61.

Fixpoint encode_loop (bytes arr3 ret : list Z) : list Z :=
  match bytes with
  | [] => encode_tail arr3 ret
  | b :: bytes =>
      match arr3 ++ [b] with
      | [x; y; z] => encode_loop bytes [] (ret ++ map char_of (to_sextets x y z))
      | arr3 => encode_loop bytes arr3 ret
      end
  end.

Definition base64_encode (bytes_to_encode : list Z) : list Z :=
  encode_loop bytes_to_encode [] [].

(** ** Decoding *)

(** [char_array_3] from [char_array_4]. *)
Definition to_octets (s0 s1 s2 s3 : Z) : list Z :=
  [u8 ((s0 <<< 2) + ((s1 & 0x30) >>> 4));
   u8 (((s1 & 0xf) <<< 4) + ((s2 & 0x3c) >>> 2));
   u8 (((s2 & 0x3) <<< 6) + s3)].

(** The tail: the missing characters are set to 0 before [find] is applied to
    all four, so they index as 255. *)
Definition decode_tail (arr4 ret : list Z) : list Z :=
  let i := length arr4 in
  if (i =? 0)%nat then ret
  else
    let arr4 := map index_of (arr4 ++ replicate (4 - i) 0) in
    ret ++ take (i - 1)
      (to_octets (default 0 (arr4 !! 0%nat)) (default 0 (arr4 !! 1%nat))
         (default 0 (arr4 !! 2%nat)) (default 0 (arr4 !! 3%nat))).

Fixpoint decode_loop (encoded arr4 ret : list Z) : list Z :=
  match encoded with
  | [] => decode_tail arr4 ret
  | c :: encoded =>
      if (c =? 61) || negb (is_base64 c) then decode_tail arr4 ret
      else
        match arr4 ++ [c] with
        | [w; x; y; z] =>
            decode_loop encoded []
              (ret ++ to_octets (index_of w) (index_of x) (index_of y) (index_of z))
        | arr4 => decode_loop encoded arr4 ret
        end
  end.

Definition base64_decode (encoded_string : list Z) : list Z :=
  decode_loop encoded_string [] [].

(** ** Lemmas *)

Definition char_good (s : Z) : Prop :=
  index_of (char_of s) = s /\ is_base64 (char_of s) = true /\ (char_of s =? 61) = false.
#[local] Instance char_good_dec s : Decision (char_good s).
Proof. unfold char_good. apply _. Defined.

Lemma char_of_good s : 0 <= s < 64 -> char_good s.
Proof. apply (below_decide 64 char_good). by vm_compute. Qed.

Definition split_ok (b : Z) : Prop :=
  ((b & 0xfc) >>> 2) = b / 4 /\ ((b & 0x03) <<< 4) = (b mod 4) * 16 /\
  ((b & 0xf0) >>> 4) = b / 16 /\ ((b & 0x0f) <<< 2) = (b mod 16) * 4 /\
  ((b & 0xc0) >>> 6) = b / 64 /\ (b & 0x3f) = b mod 64.
#[local] Instance split_ok_dec s : Decision (split_ok s).
Proof. unfold split_ok. apply _. Defined.

Lemma byte_split b : byte_ok b -> split_ok b.
Proof. apply (below_decide 256 split_ok). by vm_compute. Qed.

Definition join_ok (s : Z) : Prop :=
  (s <<< 2) = s * 4 /\ ((s & 0x30) >>> 4) = s / 16 /\ ((s & 0xf) <<< 4) = (s mod 16) * 16 /\
  ((s & 0x3c) >>> 2) = s / 4 /\ ((s & 0x3) <<< 6) = (s mod 4) * 64.
#[local] Instance join_ok_dec s : Decision (join_ok s).
Proof. unfold join_ok. apply _. Defined.

Lemma sextet_join s : 0 <= s < 64 -> join_ok s.
Proof. apply (below_decide 64 join_ok). by vm_compute. Qed.

(** The four sextets of three octets, as quotients and remainders. *)
Lemma to_sextets_arith a b c :
  byte_ok a -> byte_ok b -> byte_ok c ->
  to_sextets a b c = [a / 4; (a mod 4) * 16 + b / 16; (b mod 16) * 4 + c / 64; c mod 64] /\
  0 <= a / 4 < 64 /\ 0 <= (a mod 4) * 16 + b / 16 < 64 /\
  0 <= (b mod 16) * 4 + c / 64 < 64 /\ 0 <= c mod 64 < 64.
Proof.
  intros Ha Hb Hc. unfold to_sextets.
  destruct (byte_split a Ha) as (-> & -> & _), (byte_split b Hb) as (_ & _ & -> & -> & _),
    (byte_split c Hc) as (_ & _ & _ & _ & -> & ->).
  unfold byte_ok in *.
  assert (0 <= (a mod 4) * 16 + b / 16 < 64 /\ 0 <= (b mod 16) * 4 + c / 64 < 64)
    by (Z.to_euclidean_division_equations; lia).
  rewrite !wrap_small by lia. split; [done|]. Z.to_euclidean_division_equations; lia.
Qed.

Lemma to_octets_arith s0 s1 s2 s3 :
  0 <= s0 < 64 -> 0 <= s1 < 64 -> 0 <= s2 < 64 -> 0 <= s3 < 64 ->
  to_octets s0 s1 s2 s3 =
  [s0 * 4 + s1 / 16; (s1 mod 16) * 16 + s2 / 4; (s2 mod 4) * 64 + s3].
Proof.
  intros H0 H1 H2 H3. unfold to_octets.
  destruct (sextet_join s0 H0) as (-> & _), (sextet_join s1 H1) as (_ & -> & -> & _),
    (sextet_join s2 H2) as (_ & _ & _ & -> & ->).
  rewrite !wrap_small; [done|Z.to_euclidean_division_equations; lia..].
Qed.

(** Taking a block apart and together again. *)
Lemma octets_of_sextets a b c :
  byte_ok a -> byte_ok b -> byte_ok c ->
  exists s0 s1 s2 s3, to_sextets a b c = [s0; s1; s2; s3] /\
    char_good s0 /\ char_good s1 /\ char_good s2 /\ char_good s3 /\
    to_octets s0 s1 s2 s3 = [a; b; c].
Proof.
  intros Ha Hb Hc. destruct (to_sextets_arith a b c Ha Hb Hc) as (-> & H0 & H1 & H2 & H3).
  eexists _, _, _, _. split; [done|].
  split_and!; try (by apply char_of_good).
  rewrite to_octets_arith by done. unfold byte_ok in *.
  repeat f_equal; Z.to_euclidean_division_equations; lia.
Qed.

(** One full block through the decoder. *)
Lemma decode_loop_block s0 s1 s2 s3 enc ret :
  char_good s0 -> char_good s1 -> char_good s2 -> char_good s3 ->
  decode_loop (map char_of [s0; s1; s2; s3] ++ enc) [] ret =
  decode_loop enc [] (ret ++ to_octets s0 s1 s2 s3).
Proof.
  intros (I0 & B0 & N0) (I1 & B1 & N1) (I2 & B2 & N2) (I3 & B3 & N3).
  cbn [map app decode_loop].
  rewrite N0, B0, N1, B1, N2, B2, N3, B3. cbn [orb negb app]. by rewrite I0, I1, I2, I3.
Qed.

(** The tails: one or two octets left over. *)
Lemma decode_encode_tail1 a ret :
  byte_ok a -> decode_loop (encode_tail [a] []) [] ret = ret ++ [a].
Proof.
  intros Ha. destruct (octets_of_sextets a 0 0) as (s0 & s1 & s2 & s3 & E & G0 & G1 & _ & _ & O);
    [done|done..|].
  change (encode_tail [a] []) with (map char_of (take 2 (to_sextets a 0 0)) ++ [61; 61]).
  rewrite E. destruct G0 as (I0 & B0 & N0), G1 as (I1 & B1 & N1).
  cbn [take map app decode_loop]. rewrite N0, B0, N1, B1. cbn [orb negb app].
  unfold decode_tail. cbn. rewrite I0, I1. unfold to_octets in O. congruence.
Qed.

Lemma decode_encode_tail2 a b ret :
  byte_ok a -> byte_ok b -> decode_loop (encode_tail [a; b] []) [] ret = ret ++ [a; b].
Proof.
  intros Ha Hb. destruct (octets_of_sextets a b 0) as (s0 & s1 & s2 & s3 & E & G0 & G1 & G2 & _ & O);
    [done..|].
  change (encode_tail [a; b] []) with (map char_of (take 3 (to_sextets a b 0)) ++ [61]).
  rewrite E. destruct G0 as (I0 & B0 & N0), G1 as (I1 & B1 & N1), G2 as (I2 & B2 & N2).
  cbn [take map app decode_loop]. rewrite N0, B0, N1, B1, N2, B2. cbn [orb negb app].
  unfold decode_tail. cbn. rewrite I0, I1, I2. unfold to_octets in O. congruence.
Qed.

(** The accumulator only grows at its end. *)
Lemma encode_tail_ret arr3 ret : encode_tail arr3 ret = ret ++ encode_tail arr3 [].
Proof. unfold encode_tail. case_bool; [by rewrite app_nil_r|done]. Qed.

Lemma encode_loop_ret bytes arr3 ret :
  encode_loop bytes arr3 ret = ret ++ encode_loop bytes arr3 [].
Proof.
  revert arr3 ret. induction bytes as [|b bytes IH]; intros arr3 ret; [apply encode_tail_ret|].
  cbn [encode_loop]. destruct (arr3 ++ [b]) as [|x [|y [|z [|]]]]; try apply IH.
  rewrite IH, (IH _ ([] ++ _)). by rewrite app_assoc.
Qed.

Lemma encode_loop_block a b c bytes :
  encode_loop (a :: b :: c :: bytes) [] [] =
  map char_of (to_sextets a b c) ++ encode_loop bytes [] [].
Proof. cbn [encode_loop app]. by rewrite encode_loop_ret. Qed.

(** Induction three octets at a time. *)
Lemma list_ind3 {A} (P : list A -> Prop) :
  P [] -> (forall a, P [a]) -> (forall a b, P [a; b]) ->
  (forall a b c l, P l -> P (a :: b :: c :: l)) -> forall l, P l.
Proof.
  intros H0 H1 H2 H3. fix IH 1. intros [|a [|b [|c l]]]; [done|apply H1|apply H2|].
  apply H3, IH.
Qed.

Lemma decode_encode_loop bytes ret :
  bytes_ok bytes -> decode_loop (encode_loop bytes [] []) [] ret = ret ++ bytes.
Proof.
  revert ret. induction bytes as [|a|a b|a b c bytes IH] using list_ind3; intros ret Hok.
  - cbn. by rewrite app_nil_r.
  - inversion_clear Hok. by apply decode_encode_tail1.
  - inversion_clear Hok as [|? ? Ha Hok']. inversion_clear Hok'. by apply decode_encode_tail2.
  - inversion_clear Hok as [|? ? Ha Hok1]. inversion_clear Hok1 as [|? ? Hb Hok2].
    inversion_clear Hok2 as [|? ? Hc Hok3].
    destruct (octets_of_sextets a b c) as (s0 & s1 & s2 & s3 & E & G0 & G1 & G2 & G3 & O);
      [done..|].
    rewrite encode_loop_block, E, decode_loop_block, O, IH by done.
    by rewrite <- app_assoc.
Qed.

(** * Results *)

(** [base64_decode] inverts [base64_encode] on every octet string. *)
Theorem base64_roundtrip bytes :
  bytes_ok bytes -> base64_decode (base64_encode bytes) = bytes.
Proof. apply (decode_encode_loop bytes []). Qed.

Lemma base64_roundtrip_witness :
  base64_decode (str "AP8BKw==") = [0; 255; 1; 43].
Proof. apply (base64_roundtrip [0; 255; 1; 43]). decide_now. Defined.

(** The length of an encoding: four characters per started block. *)
Lemma base64_encode_length bytes :
  zlen (base64_encode bytes) = 4 * ((zlen bytes + 2) / 3).
Proof.
  unfold base64_encode. induction bytes as [|a|a b|a b c bytes IH] using list_ind3;
    [done..|].
  rewrite encode_loop_block, zlen_app, IH, !zlen_cons. change (zlen (map _ _)) with 4.
  pose proof (zlen_nonneg bytes). Z.to_euclidean_division_equations; lia.
Qed.
