(* ===== verification/Sha1.v ===== *)
(** * SHA-1

    Models [sylar/protocol/websocket/sha1/sha1.cpp]: the class with its message
    block, its two length words and its flags, and relates it to the standard's
    definition (FIPS 180-1: pad, split into blocks, compress). *)

From S2P Require Import Prelude Endian CppString.

(** ** The class *)

Record SHA1 := mk_sha1 {
  H_buf : list Z;                   (* unsigned H[5] *)
  Length_Low : Z;
  Length_High : Z;
  Message_Block : list Z;         (* unsigned char Message_Block[64] *)
  Message_Block_Index : nat;      (* int, between 0 and 64 *)
  Computed : bool;
  Corrupted : bool;
}.

Definition set_block (b : list Z) (i : nat) (s : SHA1) : SHA1 :=
  mk_sha1 (H_buf s) (Length_Low s) (Length_High s) b i (Computed s) (Corrupted s).
Definition set_length_words (lo hi : Z) (s : SHA1) : SHA1 :=
  mk_sha1 (H_buf s) lo hi (Message_Block s) (Message_Block_Index s) (Computed s) (Corrupted s).
Definition set_computed (b : bool) (s : SHA1) : SHA1 :=
  mk_sha1 (H_buf s) (Length_Low s) (Length_High s) (Message_Block s) (Message_Block_Index s)
    b (Corrupted s).
Definition set_corrupted (b : bool) (s : SHA1) : SHA1 :=
  mk_sha1 (H_buf s) (Length_Low s) (Length_High s) (Message_Block s) (Message_Block_Index s)
    (Computed s) b.

Definition H_init : list Z :=
  [0x67452301; 0xEFCDAB89; 0x98BADCFE; 0x10325476; 0xC3D2E1F0].

(** [Reset]; the message block keeps its content. *)
Definition Reset (s : SHA1) : SHA1 :=
  mk_sha1 H_init 0 0 (Message_Block s) 0 false false.

(** The constructor on memory whose message block holds [garbage]. *)
Definition SHA1_ctor (garbage : list Z) : SHA1 :=
  Reset (mk_sha1 [] 0 0 garbage 0 false false).

Definition CircularShift (bits word : Z) : Z :=
  ((u32 (word <<< bits)) & 0xFFFFFFFF) ||| ((word & 0xFFFFFFFF) >>> (32 - bits)).

(** ** [ProcessMessageBlock] *)

Definition octet_at (b : list Z) (i : nat) : Z := default 0 (b !! i).
Definition word_at (w : list Z) (t : nat) : Z := default 0 (w !! t).

(** The first sixteen words. *)
Definition initial_words (block : list Z) : list Z :=
  map (fun t : nat =>
    ((octet_at block (t * 4) <<< 24) ||| (octet_at block (t * 4 + 1) <<< 16)
      ||| (octet_at block (t * 4 + 2) <<< 8)) ||| octet_at block (t * 4 + 3)) (seq 0 16).

(** The loop [for(t = 16; t < 80; t++)], which fills [W] from left to right. *)
Definition extend_words (w : list Z) (n : nat) : list Z :=
  fold_left (fun w t =>
    w ++ [CircularShift 1 (word_at w (t - 3) ^^ word_at w (t - 8)
            ^^ word_at w (t - 14) ^^ word_at w (t - 16))]) (seq 16 n) w.

Definition words : Type := Z * Z * Z * Z * Z.

(** One iteration of a round loop: [f] is the loop's Boolean function. *)
Definition round_step (f : Z -> Z -> Z -> Z) (k : Z) (w : list Z) (v : words) (t : nat) : words :=
  let '(A, B, C, D, E) := v in
  let temp := u32 (CircularShift 5 A + f B C D + E + word_at w t + k) & 0xFFFFFFFF in
  (temp, A, CircularShift 30 B, C, D).

Definition round_loop f k w (from : nat) (v : words) : words :=
  fold_left (round_step f k w) (seq from 20) v.

Definition f_choose (B C D : Z) : Z := (B & C) ||| ((u32 (Z.lnot B)) & D).
Definition f_parity (B C D : Z) : Z := (B ^^ C) ^^ D.
Definition f_majority (B C D : Z) : Z := ((B & C) ||| (B & D)) ||| (C & D).

Definition process_block (h block : list Z) : list Z :=
  let w := extend_words (initial_words block) 64 in
  let v := (word_at h 0, word_at h 1, word_at h 2, word_at h 3, word_at h 4) in
  let v := round_loop f_choose 0x5A827999 w 0 v in
  let v := round_loop f_parity 0x6ED9EBA1 w 20 v in
  let v := round_loop f_majority 0x8F1BBCDC w 40 v in
  let '(A, B, C, D, E) := round_loop f_parity 0xCA62C1D6 w 60 v in
  [(u32 (word_at h 0 + A)) & 0xFFFFFFFF; (u32 (word_at h 1 + B)) & 0xFFFFFFFF;
   (u32 (word_at h 2 + C)) & 0xFFFFFFFF; (u32 (word_at h 3 + D)) & 0xFFFFFFFF;
   (u32 (word_at h 4 + E)) & 0xFFFFFFFF].

Definition ProcessMessageBlock (s : SHA1) : SHA1 :=
  mk_sha1 (process_block (H_buf s) (Message_Block s)) (Length_Low s) (Length_High s)
    (Message_Block s) 0 (Computed s) (Corrupted s).

(** ** [Input] *)

(** [Message_Block[Message_Block_Index++] = b] *)
Definition put_octet (b : Z) (s : SHA1) : SHA1 :=
  set_block (<[Message_Block_Index s := b]> (Message_Block s)) (S (Message_Block_Index s)) s.

Definition count_octet (s : SHA1) : SHA1 :=
  let lo := (u32 (Length_Low s + 8)) & 0xFFFFFFFF in
  if lo =? 0 then
    let hi := (u32 (Length_High s + 1)) & 0xFFFFFFFF in
    let s := set_length_words lo hi s in
    if hi =? 0 then set_corrupted true s else s
  else set_length_words lo (Length_High s) s.

Definition input_octet (s : SHA1) (b : Z) : SHA1 :=
  let s := count_octet (put_octet (b & 0xFF) s) in
  if (Message_Block_Index s =? 64)%nat then ProcessMessageBlock s else s.

Fixpoint input_loop (s : SHA1) (message_array : list Z) : SHA1 :=
  match message_array with
  | [] => s
  | b :: rest => if Corrupted s then s else input_loop (input_octet s b) rest
  end.

(** [Input(const unsigned char* , unsigned)] on the [length] octets it is given;
    the overloads for [char] and for one element call it. *)
Definition Input (s : SHA1) (message_array : list Z) : SHA1 :=
  if (length message_array =? 0)%nat then s
  else if Computed s || Corrupted s then set_corrupted true s
  else input_loop s message_array.

Definition Input_element (s : SHA1) (message_element : Z) : SHA1 := Input s [message_element].

(** [operator<<(const char* )]: one element at a time up to the terminator. *)
Fixpoint stream_cstring (s : SHA1) (p : list Z) : SHA1 :=
  match p with
  | [] => s
  | c :: p => if c =? 0 then s else stream_cstring (Input_element s c) p
  end.

(** ** [PadMessage] and [Result] *)

(** [while(Message_Block_Index < target) Message_Block[Message_Block_Index++] = 0] *)
Definition pad_zeros (target : nat) (s : SHA1) : SHA1 :=
  Nat.iter (target - Message_Block_Index s) (put_octet 0) s.

(** The stores into [Message_Block[56..63]]. *)
Definition store_length (s : SHA1) : SHA1 :=
  let hi := Length_High s in
  let lo := Length_Low s in
  set_block
    (write_at 56
       [(hi >>> 24) & 0xFF; (hi >>> 16) & 0xFF; (hi >>> 8) & 0xFF; hi & 0xFF;
        (lo >>> 24) & 0xFF; (lo >>> 16) & 0xFF; (lo >>> 8) & 0xFF; lo & 0xFF]
       (Message_Block s))
    (Message_Block_Index s) s.

Definition PadMessage (s : SHA1) : SHA1 :=
  let s :=
    if (55 <? Message_Block_Index s)%nat then
      pad_zeros 56 (ProcessMessageBlock (pad_zeros 64 (put_octet 0x80 s)))
    else pad_zeros 56 (put_octet 0x80 s) in
  ProcessMessageBlock (store_length s).

(** The digest, or [None] when [Result] returns [false]. *)
Definition Result (s : SHA1) : option (list Z) * SHA1 :=
  if Corrupted s then (None, s)
  else
    let s := if negb (Computed s) then set_computed true (PadMessage s) else s in
    (Some (take 5 (H_buf s)), s).

(** ** The standard *)

(** Rotation of a 32-bit word. *)
Definition rotl (n x : Z) : Z := (x * 2 ^ n) mod 2 ^ 32 + x / 2 ^ (32 - n).

Fixpoint of_be (bs : list Z) (acc : Z) : Z :=
  match bs with [] => acc | b :: bs => of_be bs (acc * 256 + b) end.

(** The message schedule, a function of the word's number. *)
Fixpoint schedule (block : list Z) (n : nat) : list Z :=
  match n with
  | O => []
  | S t =>
      let w := schedule block t in
      w ++ [if (t <? 16)%nat then of_be (take 4 (drop (4 * t) block)) 0
            else rotl 1 (word_at w (t - 3) ^^ word_at w (t - 8)
                          ^^ word_at w (t - 14) ^^ word_at w (t - 16))]
  end.

Definition f_of (t : nat) : Z -> Z -> Z -> Z :=
  if (t <? 20)%nat then f_choose else if (t <? 40)%nat then f_parity
  else if (t <? 60)%nat then f_majority else f_parity.
Definition k_of (t : nat) : Z :=
  if (t <? 20)%nat then 0x5A827999 else if (t <? 40)%nat then 0x6ED9EBA1
  else if (t <? 60)%nat then 0x8F1BBCDC else 0xCA62C1D6.

Definition spec_round (w : list Z) (v : words) (t : nat) : words :=
  let '(a, b, c, d, e) := v in
  ((rotl 5 a + f_of t b c d + e + word_at w t + k_of t) mod 2 ^ 32, a, rotl 30 b, c, d).

Definition compress (h block : list Z) : list Z :=
  let w := schedule block 80 in
  let '(a, b, c, d, e) :=
    fold_left (spec_round w) (seq 0 80)
      (word_at h 0, word_at h 1, word_at h 2, word_at h 3, word_at h 4) in
  [(word_at h 0 + a) mod 2 ^ 32; (word_at h 1 + b) mod 2 ^ 32; (word_at h 2 + c) mod 2 ^ 32;
   (word_at h 3 + d) mod 2 ^ 32; (word_at h 4 + e) mod 2 ^ 32].

Fixpoint blocks (n : nat) (l : list Z) : list (list Z) :=
  match n with O => [] | S n => take 64 l :: blocks n (drop 64 l) end.

(** Padding: a one bit, zeros, and the bit length in 64 bits. *)
Definition pad (m : list Z) : list Z :=
  m ++ [0x80] ++ replicate (Z.to_nat ((55 - zlen m) mod 64)) 0
    ++ reverse (le_bytes 8 (8 * zlen m)).

Definition sha1 (m : list Z) : list Z :=
  let p := pad m in fold_left compress (blocks (length p / 64) p) H_init.

(** ** The block function is the standard's *)

Definition word_ok (x : Z) : Prop := 0 <= x < 2 ^ 32.
Definition words_ok (v : words) : Prop :=
  let '(a, b, c, d, e) := v in word_ok a /\ word_ok b /\ word_ok c /\ word_ok d /\ word_ok e.

Lemma mask32 x : ((u32 x) & 0xFFFFFFFF) = x mod 2 ^ 32.
Proof.
  change 0xFFFFFFFF with (Z.ones 32). apply land_ones_small; [lia|]. by apply wrap_range.
Qed.

Lemma CircularShift_rotl n x : 0 < n < 32 -> word_ok x -> CircularShift n x = rotl n x.
Proof.
  intros Hn Hx. unfold CircularShift, rotl. rewrite mask32.
  change 0xFFFFFFFF with (Z.ones 32). rewrite land_ones_small by (done || lia).
  rewrite Z.shiftr_div_pow2, Z.shiftl_mul_pow2 by lia.
  assert (E : (x * 2 ^ n) mod 2 ^ 32 = ((x mod 2 ^ (32 - n)) <<< n)).
  { rewrite Z.shiftl_mul_pow2 by lia.
    replace (2 ^ 32) with (2 ^ (32 - n) * 2 ^ n) by (rewrite <- Z.pow_add_r by lia; f_equal; lia).
    apply Z.mul_mod_distr_r; apply Z.pow_nonzero; lia. }
  rewrite E, lor_add_disjoint; [by rewrite Z.shiftl_mul_pow2 by lia|lia|].
  split; [apply Z.div_pos; [apply Hx|lia]|].
  apply Z.div_lt_upper_bound; [lia|]. rewrite <- Z.pow_add_r by lia.
  replace (32 - n + n) with 32 by lia. apply Hx.
Qed.

Lemma rotl_ok n x : 0 < n < 32 -> word_ok x -> word_ok (rotl n x).
Proof.
  intros Hn Hx. rewrite <- CircularShift_rotl by done. unfold CircularShift.
  rewrite mask32. change 0xFFFFFFFF with (Z.ones 32). rewrite land_ones_small by (done || lia).
  set (a := _ mod _). set (b := x >>> _).
  assert (Ha : word_ok a) by (apply Z.mod_pos_bound; lia).
  assert (Hb : word_ok b).
  { unfold b. rewrite Z.shiftr_div_pow2 by lia. destruct Hx. split; [apply Z.div_pos; lia|].
    apply Z.le_lt_trans with x; [|done]. apply Z.div_le_upper_bound; [lia|].
    assert (0 < 2 ^ (32 - n)) by (apply Z.pow_pos_nonneg; lia). nia. }
  split; [apply Z.lor_nonneg; split; [apply Ha|apply Hb]|].
  rewrite <- (Z.mod_small a (2 ^ 32)), <- (Z.mod_small b (2 ^ 32)) by done.
  rewrite <- !Z.land_ones, <- Z.land_lor_distr_l, Z.land_ones by lia.
  apply Z.mod_pos_bound. lia.
Qed.

Lemma lxor_word x y : word_ok x -> word_ok y -> word_ok (x ^^ y).
Proof.
  intros Hx Hy. rewrite <- (Z.mod_small x (2 ^ 32)), <- (Z.mod_small y (2 ^ 32)) by done.
  rewrite <- !Z.land_ones by lia.
  replace ((x & Z.ones 32) ^^ (y & Z.ones 32)) with ((x ^^ y) & Z.ones 32).
  - rewrite Z.land_ones by lia. apply Z.mod_pos_bound. lia.
  - apply Z.bits_inj'. intros i Hi. rewrite Z.land_spec, !Z.lxor_spec, !Z.land_spec.
    by destruct (Z.testbit x i), (Z.testbit y i), (Z.testbit (Z.ones 32) i).
Qed.

Lemma word_at_ok w t : Forall word_ok w -> word_ok (word_at w t).
Proof.
  intros Hw. unfold word_at. destruct (w !! t) eqn:E; [|done].
  simpl. by eapply Forall_lookup_1.
Qed.

Lemma octet_at_ok b i : bytes_ok b -> byte_ok (octet_at b i).
Proof.
  intros Hb. unfold octet_at. destruct (b !! i) eqn:E; [|done].
  simpl. by eapply Forall_lookup_1.
Qed.

#[local] Hint Resolve word_at_ok octet_at_ok rotl_ok lxor_word : sylar.

Lemma take4_drop block i :
  (i + 4 <= length block)%nat ->
  take 4 (drop i block) =
  [octet_at block i; octet_at block (i + 1); octet_at block (i + 2); octet_at block (i + 3)].
Proof.
  intros Hl. apply list_eq. intros j.
  destruct (decide (j < 4)%nat) as [Hj|Hj].
  - rewrite lookup_take_lt by done. rewrite lookup_drop.
    destruct (lookup_lt_is_Some_2 block (i + j)) as [x Hx]; [lia|].
    rewrite Hx. unfold octet_at.
    destruct j as [|[|[|[|]]]]; try lia; simpl; by rewrite ?Nat.add_0_r in *; rewrite Hx.
  - rewrite !lookup_ge_None_2; [done|simpl; lia|rewrite length_take; lia].
Qed.

Lemma initial_word_of_be a b c d :
  byte_ok a -> byte_ok b -> byte_ok c -> byte_ok d ->
  (((a <<< 24) ||| (b <<< 16) ||| (c <<< 8)) ||| d) = of_be [a; b; c; d] 0 /\
  word_ok (of_be [a; b; c; d] 0).
Proof.
  intros Ha Hb Hc Hd. unfold byte_ok, word_ok in *. cbn [of_be]. split; [|lia].
  replace (a <<< 24) with (((a <<< 8) <<< 8) <<< 8) by (by rewrite !Z.shiftl_shiftl by lia).
  replace (b <<< 16) with ((b <<< 8) <<< 8) by (by rewrite !Z.shiftl_shiftl by lia).
  rewrite <- !Z.shiftl_lor, !lor_add_disjoint by (done || lia). lia.
Qed.

Lemma of_be_block block t :
  bytes_ok block -> (4 * t + 4 <= length block)%nat ->
  word_ok (of_be (take 4 (drop (4 * t) block)) 0).
Proof. intros. rewrite take4_drop by lia. apply initial_word_of_be; auto with sylar. Qed.

Lemma schedule_S block t :
  schedule block (S t) =
  schedule block t ++
    [if (t <? 16)%nat then of_be (take 4 (drop (4 * t) block)) 0
     else rotl 1 (word_at (schedule block t) (t - 3) ^^ word_at (schedule block t) (t - 8)
            ^^ word_at (schedule block t) (t - 14) ^^ word_at (schedule block t) (t - 16))].
Proof. done. Qed.

Lemma length_schedule block n : length (schedule block n) = n.
Proof. induction n; [done|]. cbn [schedule]. rewrite length_app. simpl. lia. Qed.

Lemma schedule_ok block n :
  bytes_ok block -> (64 <= length block)%nat -> Forall word_ok (schedule block n).
Proof.
  intros Hb Hl. induction n as [|n IH]; [constructor|]. cbn [schedule].
  apply Forall_app. split; [done|]. constructor; [|done].
  destruct (n <? 16)%nat eqn:E; [apply Nat.ltb_lt in E; apply of_be_block; [done|lia]|].
  apply rotl_ok; [lia|auto 10 with sylar].
Qed.

Lemma initial_words_schedule block :
  bytes_ok block -> (64 <= length block)%nat -> initial_words block = schedule block 16.
Proof.
  intros Hb Hl. unfold initial_words.
  assert (Hn : forall n, (n <= 16)%nat ->
    map (fun t : nat =>
      ((octet_at block (t * 4) <<< 24) ||| (octet_at block (t * 4 + 1) <<< 16)
        ||| (octet_at block (t * 4 + 2) <<< 8)) ||| octet_at block (t * 4 + 3)) (seq 0 n)
    = schedule block n); [|by apply Hn].
  induction n as [|n IH]; intros Hn; [done|].
  rewrite seq_S, map_app, IH by lia. cbn [schedule map]. f_equal. f_equal.
  assert ((n <? 16)%nat = true) as -> by (apply Nat.ltb_lt; lia).
  rewrite take4_drop by lia. replace (0 + n)%nat with n by lia.
  replace (n * 4)%nat with (4 * n)%nat by lia. apply initial_word_of_be; auto with sylar.
Qed.

Lemma extend_words_schedule block n :
  bytes_ok block -> (64 <= length block)%nat ->
  extend_words (schedule block 16) n = schedule block (16 + n).
Proof.
  intros Hb Hl. unfold extend_words. induction n as [|n IH]; [done|].
  rewrite seq_S, fold_left_app, IH. rewrite Nat.add_succ_r. cbn [fold_left].
  rewrite schedule_S.
  assert ((16 + n <? 16)%nat = false) as -> by (apply Nat.ltb_ge; lia).
  f_equal. f_equal. apply CircularShift_rotl; [lia|].
  pose proof (schedule_ok block (16 + n) Hb Hl). auto 10 with sylar.
Qed.

Lemma spec_round_ok w v t : words_ok v -> words_ok (spec_round w v t).
Proof.
  destruct v as [[[[a b] c] d] e]. intros (Ha & Hb & Hc & Hd & He). simpl.
  split_and!; try done; [by apply Z.mod_pos_bound|by apply rotl_ok].
Qed.

Lemma fold_spec_round_ok w ts v : words_ok v -> words_ok (fold_left (spec_round w) ts v).
Proof. revert v. induction ts; intros; [done|]. simpl. by apply IHts, spec_round_ok. Qed.

(** A loop of twenty rounds follows the standard's round function. *)
Lemma round_loop_spec f k w from v :
  words_ok v -> (forall t, In t (seq from 20) -> f_of t = f /\ k_of t = k) ->
  round_loop f k w from v = fold_left (spec_round w) (seq from 20) v.
Proof.
  unfold round_loop. generalize (seq from 20) as ts.
  intros ts Hv. revert v Hv. induction ts as [|t ts IH]; intros v Hv Ht; [done|].
  cbn [fold_left]. assert (E : round_step f k w v t = spec_round w v t).
  { destruct v as [[[[a b] c] d] e]. destruct Hv as (Ha & Hb & _).
    destruct (Ht t) as [<- <-]; [by left|]. unfold round_step, spec_round.
    by rewrite mask32, !CircularShift_rotl by (done || lia). }
  rewrite E. apply IH; [by apply spec_round_ok|]. intros. apply Ht. by right.
Qed.

Lemma process_block_compress h block :
  Forall word_ok h -> bytes_ok block -> (64 <= length block)%nat ->
  process_block h block = compress h block.
Proof.
  intros Hh Hb Hl. unfold process_block, compress.
  rewrite initial_words_schedule, extend_words_schedule by done. cbn [Nat.add].
  set (w := schedule block 80). set (v := (_, _, _, _, _)).
  assert (Hv : words_ok v) by (unfold v; simpl; split_and!; by apply word_at_ok).
  rewrite (round_loop_spec f_choose _ w 0), (round_loop_spec f_parity 0x6ED9EBA1 w 20),
    (round_loop_spec f_majority _ w 40), (round_loop_spec f_parity _ w 60);
    try (by repeat apply fold_spec_round_ok);
    try (cbn [seq In]; intros t Ht; repeat (destruct Ht as [<-|Ht]; [done|]); destruct Ht).
  change (seq 0 80) with (seq 0 20 ++ seq 20 20 ++ seq 40 20 ++ seq 60 20).
  rewrite !fold_left_app. destruct (fold_left _ (seq 60 20) _) as [[[[a b] c] d] e].
  by rewrite !mask32.
Qed.

Lemma compress_ok h block : Forall word_ok (compress h block) /\ length (compress h block) = 5%nat.
Proof.
  unfold compress. destruct (fold_left _ _ _) as [[[[a b] c] d] e].
  split; [|done]. repeat constructor; apply Z.mod_pos_bound; lia.
Qed.

(** ** Blocks and the pending octets *)

Lemma blocks_app n k a b :
  length a = (64 * k)%nat -> blocks (k + n) (a ++ b) = blocks k a ++ blocks n b.
Proof.
  revert a. induction k as [|k IH]; intros a Ha.
  - destruct a; [done|simpl in Ha; lia].
  - cbn [blocks Nat.add app]. rewrite take_app_le, drop_app_le by lia.
    rewrite IH; [done|]. rewrite length_drop. lia.
Qed.

Lemma blocks_one a : length a = 64%nat -> blocks 1 a = [a].
Proof. intros. cbn [blocks]. by rewrite take_ge by lia. Qed.

(** The blocks of a message ignore its incomplete tail. *)
Lemma blocks_prefix k m r : length m = (64 * k)%nat -> blocks k (m ++ r) = blocks k m.
Proof.
  intros. rewrite <- (Nat.add_0_r k) at 1. rewrite blocks_app by done. by rewrite app_nil_r.
Qed.

Definition pending (s : SHA1) : list Z := take (Message_Block_Index s) (Message_Block s).

(** The part of the message that is already compressed and the rest. *)
Definition full (m : list Z) : list Z := take (64 * (length m / 64)) m.
Definition rest_of (m : list Z) : list Z := drop (64 * (length m / 64)) m.

Definition hash_blocks (m : list Z) : list Z :=
  fold_left compress (blocks (length m / 64) m) H_init.

Lemma length_full m : length (full m) = (64 * (length m / 64))%nat.
Proof.
  unfold full. rewrite length_take. pose proof (Nat.Div0.mul_div_le (length m) 64). lia.
Qed.

Lemma length_rest m : length (rest_of m) = (length m mod 64)%nat.
Proof. unfold rest_of. rewrite length_drop. pose proof (Nat.div_mod_eq (length m) 64). lia. Qed.

Lemma full_rest m : full m ++ rest_of m = m.
Proof. apply take_drop. Qed.

Lemma hash_blocks_full m : hash_blocks (full m) = hash_blocks m.
Proof.
  unfold hash_blocks. rewrite length_full, (Nat.mul_comm 64), Nat.div_mul by lia.
  pose proof (blocks_prefix _ (full m) (rest_of m) (length_full m)) as E.
  rewrite full_rest in E. by rewrite E.
Qed.

Lemma hash_blocks_snoc a b :
  (length a mod 64 = 0)%nat -> length b = 64%nat ->
  hash_blocks (a ++ b) = compress (hash_blocks a) b.
Proof.
  intros Ha Hb. pose proof (Nat.div_mod_eq (length a) 64) as E.
  unfold hash_blocks. rewrite length_app, Hb.
  replace (length a + 64)%nat with (length a + 1 * 64)%nat by lia.
  rewrite Nat.div_add by lia. rewrite blocks_app by lia.
  rewrite fold_left_app, blocks_one by done. done.
Qed.

Lemma hash_blocks_ok m : Forall word_ok (hash_blocks m) /\ length (hash_blocks m) = 5%nat.
Proof.
  unfold hash_blocks. generalize (blocks (length m / 64) m) as bs. intros bs.
  induction bs as [|b bs IH] using rev_ind.
  - split; [|done]. decide_now || (repeat constructor; unfold word_ok; lia).
  - rewrite fold_left_app. apply compress_ok.
Qed.

Lemma pending_put b s :
  (Message_Block_Index s < length (Message_Block s))%nat ->
  pending (put_octet b s) = pending s ++ [b].
Proof.
  intros Hl. unfold pending, put_octet. cbn [Message_Block_Index Message_Block set_block].
  rewrite (take_S_r _ _ b); [|by rewrite list_lookup_insert_eq].
  by rewrite take_insert_ge by lia.
Qed.

Lemma length_block_put b s :
  length (Message_Block (put_octet b s)) = length (Message_Block s).
Proof. apply length_insert. Qed.

Lemma iter_put n s :
  (Message_Block_Index s + n <= length (Message_Block s))%nat ->
  let s' := Nat.iter n (put_octet 0) s in
  pending s' = pending s ++ replicate n 0 /\
  Message_Block_Index s' = (Message_Block_Index s + n)%nat /\
  length (Message_Block s') = length (Message_Block s) /\
  H_buf s' = H_buf s /\ Length_Low s' = Length_Low s /\ Length_High s' = Length_High s.
Proof.
  induction n as [|n IH]; intros Hl; cbn zeta.
  - cbn [Nat.iter nat_rect replicate]. rewrite app_nil_r. split_and!; (done || lia).
  - change (Nat.iter (S n) (put_octet 0) s) with (put_octet 0 (Nat.iter n (put_octet 0) s)).
    destruct IH as (Hp & Hi & Hb & HH & Hlo & Hhi); [lia|].
    rewrite pending_put, Hp, length_block_put by lia.
    split_and!; try done; [|cbn; lia].
    rewrite <- app_assoc. f_equal. rewrite <- replicate_S_end. done.
Qed.

Lemma pad_zeros_spec target s :
  (Message_Block_Index s <= target <= length (Message_Block s))%nat ->
  let s' := pad_zeros target s in
  pending s' = pending s ++ replicate (target - Message_Block_Index s) 0 /\
  Message_Block_Index s' = target /\
  length (Message_Block s') = length (Message_Block s) /\
  H_buf s' = H_buf s /\ Length_Low s' = Length_Low s /\ Length_High s' = Length_High s.
Proof.
  intros Hl. unfold pad_zeros.
  destruct (iter_put (target - Message_Block_Index s) s) as (? & Hi & ? & ? & ? & ?); [lia|].
  cbn zeta. rewrite Hi. split_and!; try done. lia.
Qed.

(** ** The invariant of a running hash *)

Record hashing (m : list Z) (s : SHA1) : Prop := mk_hashing {
  hs_H : H_buf s = hash_blocks m;
  hs_pending : pending s = rest_of m;
  hs_index : Message_Block_Index s = (length m mod 64)%nat;
  hs_block : length (Message_Block s) = 64%nat;
  hs_low : Length_Low s = (8 * zlen m) mod 2 ^ 32;
  hs_high : Length_High s = (8 * zlen m) / 2 ^ 32;
  hs_computed : Computed s = false;
  hs_corrupted : Corrupted s = false;
}.

Lemma hashing_init g : length g = 64%nat -> hashing [] (SHA1_ctor g).
Proof. by split. Qed.

(** The two length words count bits, with a carry. *)
Lemma count_octet_words n s :
  0 <= n -> 8 * (n + 1) < 2 ^ 64 ->
  Length_Low s = (8 * n) mod 2 ^ 32 -> Length_High s = (8 * n) / 2 ^ 32 ->
  count_octet s = set_length_words ((8 * (n + 1)) mod 2 ^ 32) ((8 * (n + 1)) / 2 ^ 32) s.
Proof.
  intros Hn Hb Hlo Hhi. unfold count_octet. rewrite !mask32, Hlo, Hhi.
  rewrite (Z.add_mod_idemp_l (8 * n)) by lia.
  replace (8 * n + 8) with (8 * (n + 1)) by lia.
  destruct (_ =? 0) eqn:E; bool_to_prop.
  - assert (E2 : (8 * n) / 2 ^ 32 + 1 = (8 * (n + 1)) / 2 ^ 32)
      by (Z.to_euclidean_division_equations; lia).
    rewrite E2, E, (Z.mod_small (_ / _)) by (Z.to_euclidean_division_equations; lia).
    assert (((8 * (n + 1)) / 2 ^ 32 =? 0) = false) as ->; [|done].
    apply Z.eqb_neq. Z.to_euclidean_division_equations; lia.
  - f_equal. Z.to_euclidean_division_equations; lia.
Qed.

Lemma rest_snoc m b :
  (S (length m mod 64) < 64)%nat ->
  (length (m ++ [b]) / 64 = length m / 64)%nat /\ rest_of (m ++ [b]) = rest_of m ++ [b] /\
  (length (m ++ [b]) mod 64 = S (length m mod 64))%nat /\ full (m ++ [b]) = full m.
Proof.
  intros Hlt. rewrite length_app. cbn [length].
  pose proof (Nat.div_mod_eq (length m) 64). 
  assert (E : ((length m + 1) / 64 = length m / 64)%nat).
  { symmetry. apply (Nat.div_unique _ _ _ (S (length m mod 64))); lia. }
  assert (E' : ((length m + 1) mod 64 = S (length m mod 64))%nat).
  { symmetry. apply (Nat.mod_unique _ _ (length m / 64)); lia. }
  unfold rest_of, full. rewrite length_app. cbn [length]. rewrite E. split_and!; try done.
  - rewrite drop_app_le by lia. done.
  - rewrite take_app_le by lia. done.
Qed.

Lemma rest_snoc_full m b :
  (length m mod 64 = 63)%nat ->
  (length (m ++ [b]) mod 64 = 0)%nat /\ full m ++ (rest_of m ++ [b]) = m ++ [b].
Proof.
  intros E. split; [|by rewrite app_assoc, full_rest].
  rewrite length_app. cbn [length]. pose proof (Nat.div_mod_eq (length m) 64).
  symmetry. apply (Nat.mod_unique _ _ (S (length m / 64))); lia.
Qed.

Lemma full_mod m : (length (full m) mod 64 = 0)%nat.
Proof. rewrite length_full, Nat.mul_comm. apply Nat.Div0.mod_mul. Qed.

Lemma bytes_ok_rest m : bytes_ok m -> bytes_ok (rest_of m).
Proof. apply Forall_drop. Qed.

Lemma input_octet_hashing m s b :
  hashing m s -> bytes_ok m -> byte_ok b -> 8 * (zlen m + 1) < 2 ^ 64 ->
  hashing (m ++ [b]) (input_octet s b).
Proof.
  intros [HH Hp Hi Hb Hlo Hhi Hc Hk] Hm Hok Hbd. unfold input_octet.
  change 0xFF with (Z.ones 8). rewrite land_ones_small by (done || lia).
  rewrite (count_octet_words (zlen m)) by (done || apply zlen_nonneg).
  pose proof (Nat.mod_upper_bound (length m) 64 ltac:(lia)) as Hub.
  assert (Hput : pending (put_octet b s) = rest_of m ++ [b])
    by (rewrite pending_put, Hp by lia; done).
  assert (Hz : zlen (m ++ [b]) = zlen m + 1) by (zlen_simpl; lia).
  cbn [Message_Block_Index set_length_words put_octet set_block].
  case_bool; [apply Nat.eqb_eq in E|apply Nat.eqb_neq in E].
  - destruct (rest_snoc_full m b) as [Hmod Hfull]; [lia|].
    assert (Hblk : Message_Block (put_octet b s) = rest_of m ++ [b]).
    { rewrite <- Hput. unfold pending. rewrite take_ge; [done|].
      rewrite length_block_put, Hb.
      cbn. lia. }
    assert (Hrl : length (rest_of m ++ [b]) = 64%nat)
      by (rewrite length_app, length_rest; cbn [length]; lia).
    split; try done; try (rewrite Hz; done).
    + cbn [H_buf ProcessMessageBlock Message_Block set_length_words].
      change (Message_Block _) with (Message_Block (put_octet b s)). rewrite Hblk.
      change (H_buf _) with (H_buf s). rewrite HH, process_block_compress.
      * rewrite <- Hfull, hash_blocks_snoc, hash_blocks_full by (done || apply full_mod). done.
      * apply hash_blocks_ok.
      * apply Forall_app. split; [by apply bytes_ok_rest|by constructor].
      * lia.
    + change (pending _) with (@nil Z). symmetry. apply nil_length_inv. by rewrite length_rest.
    + cbn. rewrite length_insert. done.
  - destruct (rest_snoc m b) as (Hd & Hr & Hmod & Hfull); [lia|].
    split; try done; try (rewrite Hz; done).
    + cbn [H_buf set_length_words put_octet set_block]. rewrite HH, <- (hash_blocks_full (m ++ [b])), Hfull. symmetry. apply hash_blocks_full.
    + rewrite Hr, <- Hput. done.
    + cbn [Message_Block_Index set_length_words put_octet set_block]. lia.
    + cbn. by rewrite length_insert.
Qed.

Lemma input_loop_hashing msg m s :
  hashing m s -> bytes_ok m -> bytes_ok msg -> 8 * zlen (m ++ msg) < 2 ^ 64 ->
  hashing (m ++ msg) (input_loop s msg).
Proof.
  revert m s. induction msg as [|b msg IH]; intros m s Hh Hm Hok Hbd.
  - by rewrite app_nil_r.
  - inversion_clear Hok as [|? ? Hb Hmsg]. cbn [input_loop]. rewrite (hs_corrupted _ _ Hh).
    replace (m ++ b :: msg) with ((m ++ [b]) ++ msg) in * by (by rewrite <- app_assoc).
    revert Hbd. zlen_simpl. intros Hbd. pose proof (zlen_nonneg msg).
    apply IH; [apply input_octet_hashing; (done || lia)| |done|zlen_simpl; lia].
    apply Forall_app. split; [done|by constructor].
Qed.

Lemma Input_hashing msg m s :
  hashing m s -> bytes_ok m -> bytes_ok msg -> 8 * zlen (m ++ msg) < 2 ^ 64 ->
  hashing (m ++ msg) (Input s msg).
Proof.
  intros Hh Hm Hok Hbd. unfold Input. case_bool.
  - apply Nat.eqb_eq, nil_length_inv in E as ->. by rewrite app_nil_r.
  - rewrite (hs_computed _ _ Hh), (hs_corrupted _ _ Hh). by apply input_loop_hashing.
Qed.

(** ** Padding *)

Lemma octet_of_mod n k : 0 <= k <= 24 -> (((n mod 2 ^ 32) >>> k) & 255) = ((n >>> k) & 255).
Proof.
  intros Hk. rewrite <- Z.land_ones by lia. change 255 with (Z.ones 8).
  apply Z.bits_inj'. intros i Hi. rewrite !Z.land_spec, !Z.shiftr_spec, Z.land_spec by lia.
  destruct (decide (i < 8)); [rewrite (Z.ones_spec_low 32) by lia; by rewrite andb_true_r|].
  rewrite (Z.ones_spec_high 8) by lia. by rewrite !andb_false_r.
Qed.

(** The eight octets [store_length] writes are the bit length, big-endian. *)
Lemma length_octets n :
  let hi := n / 2 ^ 32 in
  let lo := n mod 2 ^ 32 in
  [(hi >>> 24) & 0xFF; (hi >>> 16) & 0xFF; (hi >>> 8) & 0xFF; hi & 0xFF;
   (lo >>> 24) & 0xFF; (lo >>> 16) & 0xFF; (lo >>> 8) & 0xFF; lo & 0xFF] =
  reverse (le_bytes 8 n).
Proof.
  cbn zeta. change (reverse (le_bytes 8 n)) with (rev_append (le_bytes 8 n) []).
  cbn [le_bytes rev_append]. rewrite !Z.shiftr_shiftr by lia.
  rewrite <- (Z.shiftr_div_pow2 n 32) by lia. rewrite !Z.shiftr_shiftr by lia.
  rewrite !octet_of_mod by lia.
  pose proof (octet_of_mod n 0 ltac:(lia)) as E. rewrite !Z.shiftr_0_r in E. rewrite E. done.
Qed.

Definition len_field (m : list Z) : list Z := reverse (le_bytes 8 (8 * zlen m)).

Lemma length_len_field m : length (len_field m) = 8%nat.
Proof. unfold len_field. by rewrite length_reverse, length_le_bytes. Qed.

Lemma sha1_hash_blocks m : sha1 m = hash_blocks (pad m).
Proof. done. Qed.

Lemma pad_zeros_count (m : list Z) :
  Z.to_nat ((55 - zlen m) mod 64) =
  (if decide (length m mod 64 <= 55)%nat then 55 - length m mod 64
   else 119 - length m mod 64)%nat.
Proof.
  pose proof (Nat.div_mod_eq (length m) 64) as E.
  pose proof (Nat.mod_upper_bound (length m) 64 ltac:(lia)) as Hub.
  set (q := (length m / 64)%nat) in *. set (r := (length m mod 64)%nat) in *.
  destruct (decide _).
  - rewrite <- (Z.mod_unique _ 64 (- Z.of_nat q) (55 - Z.of_nat r)); unfold zlen; lia.
  - rewrite <- (Z.mod_unique _ 64 (- Z.of_nat q - 1) (119 - Z.of_nat r)); unfold zlen; lia.
Qed.

Lemma pad_short (m : list Z) :
  (length m mod 64 <= 55)%nat ->
  pad m = full m ++ (rest_of m ++ 0x80 :: replicate (55 - length m mod 64) 0 ++ len_field m).
Proof.
  intros Hl. rewrite app_assoc, full_rest. unfold pad. rewrite pad_zeros_count.
  by destruct (decide _).
Qed.

Lemma pad_long (m : list Z) :
  ~ (length m mod 64 <= 55)%nat ->
  pad m = (full m ++ (rest_of m ++ 0x80 :: replicate (63 - length m mod 64) 0))
          ++ (replicate 56 0 ++ len_field m).
Proof.
  intros Hl. rewrite (app_assoc (full m)), full_rest, <- app_assoc. unfold pad.
  rewrite pad_zeros_count. destruct (decide _); [done|].
  pose proof (Nat.mod_upper_bound (length m) 64 ltac:(lia)) as Hub.
  replace (119 - length m mod 64)%nat with (63 - length m mod 64 + 56)%nat by lia.
  rewrite replicate_add, <- !app_assoc. done.
Qed.

(** [store_length] and the last block. *)
Lemma final_block m s h r :
  Message_Block_Index s = 56%nat -> length (Message_Block s) = 64%nat -> pending s = r ->
  Length_Low s = (8 * zlen m) mod 2 ^ 32 -> Length_High s = (8 * zlen m) / 2 ^ 32 ->
  H_buf s = h -> Forall word_ok h -> bytes_ok r ->
  H_buf (ProcessMessageBlock (store_length s)) = compress h (r ++ len_field m).
Proof.
  intros Hi Hb Hp Hlo Hhi HH Hh Hr.
  assert (E : Message_Block (store_length s) = r ++ len_field m).
  { unfold store_length. cbn [Message_Block set_block]. rewrite Hlo, Hhi, length_octets.
    unfold write_at. rewrite <- Hp. unfold pending. rewrite Hi. f_equal.
    rewrite drop_ge; [by rewrite app_nil_r|]. rewrite length_reverse, length_le_bytes. lia. }
  cbn [H_buf ProcessMessageBlock]. change (H_buf (store_length s)) with (H_buf s).
  rewrite E, HH. apply process_block_compress; [done| |].
  - apply Forall_app. split; [done|]. apply bytes_ok_reverse, le_bytes_ok.
  - rewrite length_app, length_len_field. rewrite <- Hp. unfold pending.
    rewrite length_take. lia.
Qed.

Lemma bytes_ok_zeros n : bytes_ok (replicate n 0).
Proof. by apply Forall_replicate. Qed.
#[local] Hint Resolve bytes_ok_zeros bytes_ok_rest : sylar.

Lemma bytes_ok_padded m n : bytes_ok m -> bytes_ok (rest_of m ++ 0x80 :: replicate n 0).
Proof. intros. apply Forall_app. split; [by apply bytes_ok_rest|]. constructor; [done|apply bytes_ok_zeros]. Qed.

Lemma PadMessage_short m s :
  hashing m s -> bytes_ok m -> (length m mod 64 <= 55)%nat ->
  H_buf (PadMessage s) = sha1 m.
Proof.
  intros [HH Hp Hi Hb Hlo Hhi _ _] Hm Hl. unfold PadMessage.
  assert ((55 <? Message_Block_Index s)%nat = false) as -> by (apply Nat.ltb_ge; lia).
  pose proof (pending_put 0x80 s ltac:(lia)) as Hput. rewrite Hp in Hput.
  destruct (pad_zeros_spec 56 (put_octet 0x80 s))
    as (Hp' & Hi' & Hb' & HH' & Hlo' & Hhi').
  { rewrite length_block_put. cbn [Message_Block_Index put_octet set_block]. lia. }
  set (s1 := pad_zeros 56 _) in *.
  cbn [Message_Block_Index H_buf Length_Low Length_High put_octet set_block] in Hi', Hp', HH', Hlo', Hhi'.
  rewrite length_block_put in Hb'.
  rewrite Hput, <- app_assoc in Hp'.
  rewrite sha1_hash_blocks, (pad_short m Hl), hash_blocks_snoc, hash_blocks_full;
    [|apply full_mod|].
  - replace (55 - length m mod 64)%nat with (56 - S (Message_Block_Index s))%nat by lia.
    rewrite app_comm_cons, app_assoc.
    clearbody s1.
    apply (final_block m s1); [lia|lia|done|congruence..| |].
    + apply hash_blocks_ok.
    + by apply bytes_ok_padded.
  - rewrite length_app. cbn [length]. rewrite length_app, length_rest, length_replicate,
      length_len_field. lia.
Qed.

Lemma PadMessage_long m s :
  hashing m s -> bytes_ok m -> ~ (length m mod 64 <= 55)%nat ->
  H_buf (PadMessage s) = sha1 m.
Proof.
  intros [HH Hp Hi Hb Hlo Hhi _ _] Hm Hl. unfold PadMessage.
  pose proof (Nat.mod_upper_bound (length m) 64 ltac:(lia)) as Hub.
  assert ((55 <? Message_Block_Index s)%nat = true) as -> by (apply Nat.ltb_lt; lia).
  pose proof (pending_put 0x80 s ltac:(lia)) as Hput. rewrite Hp in Hput.
  destruct (pad_zeros_spec 64 (put_octet 0x80 s))
    as (Hp1 & Hi1 & Hb1 & HH1 & Hlo1 & Hhi1).
  { rewrite length_block_put. cbn [Message_Block_Index put_octet set_block]. lia. }
  set (s1 := pad_zeros 64 _) in *. rewrite length_block_put in Hb1.
  cbn [Message_Block_Index H_buf Length_Low Length_High put_octet set_block] in Hi1, Hp1, HH1, Hlo1, Hhi1.
  rewrite Hput, <- app_assoc in Hp1.
  assert (Hblk : Message_Block s1 = rest_of m ++ 0x80 :: replicate (63 - length m mod 64) 0).
  { unfold pending in Hp1. rewrite take_ge in Hp1 by lia. rewrite Hp1.
    do 3 f_equal. lia. }
  assert (H1 : H_buf (ProcessMessageBlock s1) =
               hash_blocks (full m ++ (rest_of m ++ 0x80 :: replicate (63 - length m mod 64) 0))).
  { rewrite hash_blocks_snoc, hash_blocks_full; [|apply full_mod|rewrite <- Hblk; lia].
    cbn [H_buf ProcessMessageBlock]. rewrite Hblk, HH1, HH.
    apply process_block_compress; [apply hash_blocks_ok|by apply bytes_ok_padded|].
    rewrite <- Hblk. lia. }
  destruct (pad_zeros_spec 56 (ProcessMessageBlock s1)) as (Hp2 & Hi2 & Hb2 & HH2 & Hlo2 & Hhi2);
    [change (0 <= 56 <= length (Message_Block s1))%nat; lia|].
  set (s2 := pad_zeros 56 (ProcessMessageBlock s1)) in *.
  cbn [Length_Low Length_High Message_Block Message_Block_Index ProcessMessageBlock]
    in Hlo2, Hhi2, Hb2, Hp2.
  change (pending (ProcessMessageBlock s1)) with (@nil Z) in Hp2.
  rewrite H1 in HH2. clearbody s1 s2.
  rewrite sha1_hash_blocks, (pad_long m Hl), hash_blocks_snoc.
  - apply (final_block m s2 _ (replicate 56 0)); [lia|lia|done|congruence..|exact HH2| |].
    + apply hash_blocks_ok.
    + apply bytes_ok_zeros.
  - rewrite <- Hblk, length_app, length_full, Hb1, Hb.
    replace (64 * (length m / 64) + 64)%nat with ((length m / 64 + 1) * 64)%nat by lia.
    apply Nat.Div0.mod_mul.
  - by rewrite length_app, length_replicate, length_len_field.
Qed.

Lemma PadMessage_correct m s : hashing m s -> bytes_ok m -> H_buf (PadMessage s) = sha1 m.
Proof.
  intros Hh Hm. destruct (decide (length m mod 64 <= 55)%nat);
    [by apply PadMessage_short|by apply PadMessage_long].
Qed.

Lemma Result_hashing m s :
  hashing m s -> bytes_ok m -> exists s', Result s = (Some (sha1 m), s').
Proof.
  intros Hh Hm. unfold Result. rewrite (hs_computed _ _ Hh), (hs_corrupted _ _ Hh).
  cbn [negb]. eexists. change (H_buf (set_computed true ?x)) with (H_buf x).
  rewrite (PadMessage_correct m) by done.
  rewrite take_ge; [done|]. rewrite sha1_hash_blocks. by rewrite (proj2 (hash_blocks_ok _)).
Qed.

(** The digest of a message given in pieces. *)
Definition digest_of (garbage : list Z) (pieces : list (list Z)) : option (list Z) :=
  (Result (fold_left Input pieces (SHA1_ctor garbage))).1.

Lemma fold_Input_hashing pieces m s :
  hashing m s -> bytes_ok m -> bytes_ok (concat pieces) -> 8 * zlen (m ++ concat pieces) < 2 ^ 64 ->
  hashing (m ++ concat pieces) (fold_left Input pieces s).
Proof.
  revert m s. induction pieces as [|p pieces IH]; intros m s Hh Hm Hok Hbd.
  - cbn. by rewrite app_nil_r.
  - cbn [concat fold_left] in *. apply Forall_app in Hok as [Hp Hps].
    revert Hbd. rewrite app_assoc. intros Hbd. apply IH; [|by apply Forall_app|done|done].
    apply Input_hashing; try done. revert Hbd. zlen_simpl.
    pose proof (zlen_nonneg (concat pieces)). lia.
Qed.

(** * Results *)

(** C31. [Input] and [Result] compute SHA-1: from any memory, however the
    message is cut into calls of [Input], the digest is the standard's (pad,
    split into blocks, compress), for messages of fewer than 2^61 octets. *)
Theorem sha1_correct garbage pieces :
  length garbage = 64%nat -> bytes_ok (concat pieces) -> zlen (concat pieces) < 2 ^ 61 ->
  digest_of garbage pieces = Some (sha1 (concat pieces)).
Proof.
  intros Hg Hok Hbd. unfold digest_of.
  destruct (Result_hashing (concat pieces) (fold_left Input pieces (SHA1_ctor garbage)))
    as [s' ->]; [|done|done].
  apply (fold_Input_hashing pieces []); [by apply hashing_init|by constructor|done|].
  cbn [app]. lia.
Qed.

Lemma sha1_correct_witness :
  digest_of (replicate 64 7) [str "a"; []; str "bc"] =
  Some [0xa9993e36; 0x4706816a; 0xba3e2571; 0x7850c26c; 0x9cd0d89d].
Proof. rewrite (sha1_correct (replicate 64 7) [str "a"; []; str "bc"]); [by vm_compute|done|decide_now|by vm_compute]. Defined.

(** Input after the digest was computed is refused and the object is spoilt. *)
Lemma input_after_result m s b p :
  hashing m s -> let s' := (Result s).2 in (Result (Input s' (b :: p))).1 = None.
Proof.
  intros Hh s'. assert (E : Computed s' = true).
  { unfold s', Result. by rewrite (hs_computed _ _ Hh), (hs_corrupted _ _ Hh). }
  unfold Input. cbn [length Nat.eqb]. rewrite E. done.
Qed.

(** The two-block vector of the standard. *)
Example sha1_two_blocks :
  sha1 (str "abcdbcdecdefdefgefghfghighijhijkijkljklmklmnlmnomnopnopq") =
  [0x84983e44; 0x1c3bd26e; 0xbaae4aa1; 0xf95129e5; 0xe54670f1].
Proof. by vm_compute. Qed.
