(* ===== verification/Handshake.v ===== *)
(** * The opening handshake and the stand-alone codec

    Models [sylar/protocol/websocket/WebSocket.h] and [WebSocket.cc]: the header
    parser, the answer with its accept key (SHA-1 and Base64), and the pair
    [makeFrame]/[getFrame].  Sizes are [int] in the source; the inputs are below
    2^31 octets, so positions are natural numbers here. *)

From S2P Require Import Prelude Endian CppString Base64 Sha1.

Inductive WebSocketFrameType :=
  | ERROR_FRAME | INCOMPLETE_FRAME | OPENING_FRAME | CLOSING_FRAME
  | INCOMPLETE_TEXT_FRAME | INCOMPLETE_BINARY_FRAME | TEXT_FRAME | BINARY_FRAME
  | PING_FRAME | PONG_FRAME.

#[global] Instance WebSocketFrameType_eq_dec : EqDecision WebSocketFrameType.
Proof. solve_decision. Defined.

Definition frame_type_code (t : WebSocketFrameType) : Z :=
  match t with
  | ERROR_FRAME => 0xFF00 | INCOMPLETE_FRAME => 0xFE00
  | OPENING_FRAME => 0x3300 | CLOSING_FRAME => 0x3400
  | INCOMPLETE_TEXT_FRAME => 0x01 | INCOMPLETE_BINARY_FRAME => 0x02
  | TEXT_FRAME => 0x81 | BINARY_FRAME => 0x82
  | PING_FRAME => 0x19 | PONG_FRAME => 0x1A
  end.

Record WebSocket := mk_ws {
  ws_resource : list Z;
  ws_host : list Z;
  ws_origin : list Z;
  ws_protocol : list Z;
  ws_key : list Z;
}.

Definition WebSocket_ctor : WebSocket := mk_ws [] [] [] [] [].

(** ** [trim] *)

Definition is_whitespace (c : Z) : bool := (c =? 32) || (c =? 9) || (c =? 13) || (c =? 10).

(** [find_first_not_of(whitespace)] *)
Fixpoint find_first_not_of (s : list Z) : option nat :=
  match s with
  | [] => None
  | c :: s' => if is_whitespace c then S <$> find_first_not_of s' else Some 0%nat
  end.

(** [find_last_not_of(whitespace)] *)
Definition find_last_not_of (s : list Z) : option nat :=
  (fun k => length s - 1 - k)%nat <$> find_first_not_of (reverse s).

Definition trim (s : list Z) : list Z :=
  match find_last_not_of s with
  | Some pos =>
      let s := take (pos + 1) s in
      match find_first_not_of s with Some pos => drop pos s | None => s end
  | None => []
  end.

(** ** [explode] *)

(** The loop from [start].  When the delimiter is not found, [end] and
    [length] are [(int) npos], that is -1: the test [length > 0] fails and only
    [theIncludeEmptyStrings] pushes the last piece.  [None] when the iteration
    bound is hit (an empty delimiter loops forever). *)
Fixpoint explode_loop (fuel start : nat) (theString theDelimiter : list Z)
    (theIncludeEmptyStrings : bool) : option (list (list Z)) :=
  match fuel with
  | O => None
  | S fuel =>
      match str_find_from theDelimiter start theString with
      | None =>
          Some (if theIncludeEmptyStrings then [str_substr start None theString] else [])
      | Some end_ =>
          let length_ := (end_ - start)%nat in
          let pushed :=
            if theIncludeEmptyStrings
               || ((0 <? length_)%nat && (start <? length theString)%nat)
            then [str_substr start (Some length_) theString] else [] in
          rest ← explode_loop fuel (end_ + length theDelimiter) theString theDelimiter
                   theIncludeEmptyStrings;
          Some (pushed ++ rest)
      end
  end.

Definition explode (theString theDelimiter : list Z) (theIncludeEmptyStrings : bool)
    : option (list (list Z)) :=
  explode_loop (S (length theString)) 0 theString theDelimiter theIncludeEmptyStrings.

(** ** [parseHandshake] *)

(** A row that is not a request line: [key: value]. *)
Definition parse_field (header : list Z) (ws : WebSocket) : WebSocket :=
  match str_find [58] header with
  | None => ws
  | Some pos =>
      let header_key := take pos header in
      let header_value := trim (drop (pos + 1) header) in
      if str_eqb header_key (str "Host") then
        mk_ws (ws_resource ws) header_value (ws_origin ws) (ws_protocol ws) (ws_key ws)
      else if str_eqb header_key (str "Origin") then
        mk_ws (ws_resource ws) (ws_host ws) header_value (ws_protocol ws) (ws_key ws)
      else if str_eqb header_key (str "Sec-WebSocket-Key") then
        mk_ws (ws_resource ws) (ws_host ws) (ws_origin ws) (ws_protocol ws) header_value
      else if str_eqb header_key (str "Sec-WebSocket-Protocol") then
        mk_ws (ws_resource ws) (ws_host ws) (ws_origin ws) header_value (ws_key ws)
      else ws
  end.

Definition parse_row (ws : WebSocket) (header : list Z) : WebSocket :=
  if starts_with (str "GET") header then
    match explode header [32] false with
    | Some (_ :: resource :: _) =>
        mk_ws resource (ws_host ws) (ws_origin ws) (ws_protocol ws) (ws_key ws)
    | _ => ws
    end
  else parse_field header ws.

Definition parseHandshake (ws : WebSocket) (input_frame : list Z) : WebSocketFrameType * WebSocket :=
  match str_find (CRLF ++ CRLF) input_frame with
  | None => (INCOMPLETE_FRAME, ws)
  | Some header_end =>
      match explode (take header_end input_frame) CRLF false with
      | Some headers_rows => (OPENING_FRAME, fold_left parse_row headers_rows ws)
      | None => (ERROR_FRAME, ws)       (* not reached: the delimiter is not empty *)
      end
  end.

(** ** [answerHandshake] *)

Definition RFC6544_MAGIC_KEY : list Z := str "258EAFA5-E914-47DA-95CA-C5AB0DC85B11".

(** The swap loop [for(int i=0; i<20; i+=4)] over the digest in memory. *)
Fixpoint swap_groups (digest : list Z) : list Z :=
  match digest with
  | a :: b :: c :: d :: rest => d :: c :: b :: a :: swap_groups rest
  | rest => rest
  end.

(** The accept key of [accept_key = key + magic].  [garbage] is the memory of
    the [SHA1] object, [uninit] the digest array, which stays as it is when
    [Result] fails; [Input] takes the length as a 32-bit [unsigned]. *)
Definition accept_of (garbage uninit accept_key : list Z) : list Z :=
  let sha := Input (SHA1_ctor garbage) (take (Z.to_nat (u32 (zlen accept_key))) accept_key) in
  let digest := default uninit (Result sha).1 in
  base64_encode (swap_groups (concat (map (le_bytes 4) digest))).

Definition answerHandshake (garbage uninit : list Z) (ws : WebSocket) : list Z :=
  str "HTTP/1.1 101 Switching Protocols" ++ CRLF
  ++ str "Upgrade: WebSocket" ++ CRLF
  ++ str "Connection: Upgrade" ++ CRLF
  ++ (if (0 <? length (ws_key ws))%nat then
        str "Sec-WebSocket-Accept: "
        ++ accept_of garbage uninit (ws_key ws ++ RFC6544_MAGIC_KEY) ++ CRLF
      else [])
  ++ (if (0 <? length (ws_protocol ws))%nat then
        str "Sec-WebSocket-Protocol: " ++ ws_protocol ws ++ CRLF
      else [])
  ++ CRLF.

(** ** [makeFrame] *)

Definition makeFrame (frame_type : WebSocketFrameType) (msg : list Z) : list Z :=
  let size := zlen msg in
  let head := u8 (frame_type_code frame_type) in
  let len :=
    if size <=? 125 then [size]
    else if size <=? 65535 then [126; (size >>> 8) & 0xFF; size & 0xFF]
    else [127; 0; 0; 0; 0] ++ map (fun i => (size >>> (8 * i)) & 0xFF) [3; 2; 1; 0] in
  (head :: len) ++ msg.

(** ** [getFrame] *)

(** A call returns its frame type, the octets of the message and the input
    buffer (unmasked in place), or its behaviour is undefined: it reads outside
    the [length in_buffer] octets of the buffer, or shifts an [int] by more than
    its width. *)
Inductive getFrame_res :=
  | GF_ret (t : WebSocketFrameType) (out : option (list Z)) (in_buffer : list Z)
  | GF_undefined.

Definition frame_type_of (msg_opcode msg_fin : Z) : WebSocketFrameType :=
  if msg_opcode =? 0x0 then if truthy msg_fin then TEXT_FRAME else INCOMPLETE_TEXT_FRAME
  else if msg_opcode =? 0x1 then if truthy msg_fin then TEXT_FRAME else INCOMPLETE_TEXT_FRAME
  else if msg_opcode =? 0x2 then if truthy msg_fin then BINARY_FRAME else INCOMPLETE_BINARY_FRAME
  else if msg_opcode =? 0x9 then PING_FRAME
  else if msg_opcode =? 0xA then PONG_FRAME
  else ERROR_FRAME.

(** [c[i] ^ ((unsigned char* )(&mask))[i%4]] *)
Fixpoint xor_mask (mask : list Z) (i : nat) (c : list Z) : list Z :=
  match c with
  | [] => []
  | b :: c => (b ^^ default 0 (mask !! (i mod 4)%nat)) :: xor_mask mask (S i) c
  end.

(** The payload length and the position after the length field. *)
Definition read_payload_length (in_buffer : list Z) (length_field : Z) : option (nat * nat) :=
  if length_field <=? 125 then Some (Z.to_nat length_field, 2%nat)
  else if length_field =? 126 then
    b2 ← in_buffer !! 2%nat; b3 ← in_buffer !! 3%nat;
    Some (Z.to_nat ((b2 <<< 8) ||| b3), 4%nat)
  else None.

Definition getFrame (in_buffer : list Z) (in_length : nat) : getFrame_res :=
  if (in_length <? 2)%nat then GF_ret INCOMPLETE_FRAME None in_buffer
  else
    match in_buffer !! 0%nat, in_buffer !! 1%nat with
    | Some b0, Some b1 =>
        let msg_opcode := b0 & 0x0F in
        let msg_fin := (b0 >>> 7) & 0x01 in
        let msg_masked := (b1 >>> 7) & 0x01 in
        match read_payload_length in_buffer (b1 & 0x7F) with
        | None => GF_undefined
        | Some (payload_length, pos) =>
            if (in_length <? payload_length + pos)%nat then
              GF_ret INCOMPLETE_FRAME None in_buffer
            else
              let pos' := if truthy msg_masked then (pos + 4)%nat else pos in
              if (length in_buffer <? payload_length + pos')%nat then GF_undefined
              else
                let data := take payload_length (drop pos' in_buffer) in
                let payload :=
                  if truthy msg_masked then xor_mask (take 4 (drop pos in_buffer)) 0 data
                  else data in
                GF_ret (frame_type_of msg_opcode msg_fin) (Some payload)
                  (write_at pos' payload in_buffer)
        end
    | _, _ => GF_undefined
    end.

(** ** Splitting and joining *)

Fixpoint join (d : list Z) (pieces : list (list Z)) : list Z :=
  match pieces with
  | [] => []
  | [p] => p
  | p :: pieces => p ++ d ++ join d pieces
  end.

Fixpoint split (fuel : nat) (d s : list Z) : list (list Z) :=
  match fuel with
  | O => [s]
  | S fuel =>
      match str_find d s with
      | None => [s]
      | Some n => take n s :: split fuel d (drop (n + length d) s)
      end
  end.

Lemma split_not_nil fuel d s : split fuel d s <> [].
Proof. destruct fuel; cbn; [done|]. by destruct (str_find d s). Qed.

Definition nonempty (p : list Z) : bool := (0 <? length p)%nat.

Lemma removelast_cons_split {A} (x : A) l : l <> [] -> removelast (x :: l) = x :: removelast l.
Proof. by destruct l. Qed.

Lemma join_cons d p pieces : pieces <> [] -> join d (p :: pieces) = p ++ d ++ join d pieces.
Proof. by destruct pieces. Qed.

Lemma str_find_bound pat s n : str_find pat s = Some n -> (n + length pat <= length s)%nat.
Proof.
  intros E. destruct (str_find_Some _ _ _ E) as (a & r & -> & <- & _).
  rewrite !length_app. lia.
Qed.

Lemma join_split fuel d s : join d (split fuel d s) = s.
Proof.
  revert s. induction fuel as [|fuel IH]; intros s; [done|]. cbn [split].
  destruct (str_find d s) as [n|] eqn:E; [|done].
  rewrite join_cons by apply split_not_nil. rewrite IH.
  destruct (str_find_Some _ _ _ E) as (a & r & -> & <- & _).
  rewrite take_app_length, drop_app_ge by lia.
  replace (length a + length d - length a)%nat with (length d) by lia.
  by rewrite drop_app_length.
Qed.

(** [explode] follows [split]. *)
Lemma explode_loop_split fuel start s d incl :
  d <> [] -> (start <= length s)%nat -> (length s - start < fuel)%nat ->
  explode_loop fuel start s d incl =
  Some (if incl then split fuel d (drop start s)
        else filter nonempty (removelast (split fuel d (drop start s)))).
Proof.
  intros Hd. revert start. induction fuel as [|fuel IH]; intros start Hs Hf; [lia|].
  cbn [explode_loop split]. unfold str_find_from.
  rewrite (proj2 (Nat.leb_le _ _) Hs).
  destruct (str_find d (drop start s)) as [n|] eqn:E; cbn [fmap option_fmap option_map];
    [|by destruct incl].
  pose proof (str_find_bound _ _ _ E) as Hb. rewrite length_drop in Hb.
  assert (length d <> 0%nat) by (by destruct d).
  rewrite IH by lia. cbn [mbind option_bind]. f_equal.
  replace (start + n - start)%nat with n by lia.
  rewrite drop_drop, Nat.add_assoc. unfold str_substr. destruct incl; [done|].
  rewrite removelast_cons_split by apply split_not_nil.
  rewrite filter_cons. cbn [orb].
  assert (Hl : length (take n (drop start s)) = n) by (rewrite length_take, length_drop; lia).
  destruct n as [|n]; [done|]. rewrite decide_True by (unfold nonempty; by rewrite Hl).
  rewrite (proj2 (Nat.ltb_lt start (length s))) by lia. done.
Qed.

Lemma explode_split s d incl :
  d <> [] ->
  explode s d incl =
  Some (if incl then split (S (length s)) d s
        else filter nonempty (removelast (split (S (length s)) d s))).
Proof. intros Hd. unfold explode. rewrite explode_loop_split by (done || lia). by rewrite drop_0. Qed.

(** ** Finding a delimiter after text that does not contain its first octet *)

Definition free_of (c : Z) (s : list Z) : Prop := Forall (fun x => x <> c) s.

Lemma starts_with_neq c p x s : x <> c -> starts_with (c :: p) (x :: s) = false.
Proof. intros Hx. cbn. rewrite andb_false_iff. left. apply Z.eqb_neq. done. Qed.

Lemma drop_free c m s r :
  free_of c s -> (m < length s)%nat -> exists x t, drop m (s ++ r) = x :: t /\ x <> c.
Proof.
  intros Hf Hm. destruct (lookup_lt_is_Some_2 s m Hm) as [x Hx].
  exists x, (drop (S m) (s ++ r)). split; [|by eapply (Forall_lookup_1 _ _ _ _ Hf)].
  apply drop_S. by rewrite lookup_app_l.
Qed.

Lemma str_find_free c p s r :
  free_of c s -> str_find (c :: p) (s ++ (c :: p) ++ r) = Some (length s).
Proof.
  intros Hf. apply str_find_app. intros m Hm.
  destruct (drop_free c m s ((c :: p) ++ r) Hf Hm) as (x & t & -> & Hx).
  by apply starts_with_neq.
Qed.

Lemma str_find_free_None c p s : free_of c s -> str_find (c :: p) s = None.
Proof.
  induction 1 as [|x s Hx Hf IH]; [done|]. cbn [str_find].
  rewrite starts_with_neq by done. by rewrite IH.
Qed.

(** Joining pieces free of the delimiter and splitting again. *)
Lemma split_join fuel c p pieces :
  pieces <> [] -> Forall (free_of c) pieces -> (length pieces <= fuel)%nat ->
  split fuel (c :: p) (join (c :: p) pieces) = pieces.
Proof.
  intros Hn Hf. revert fuel Hn. induction Hf as [|x pieces Hx Hf IH]; intros fuel Hn Hl; [done|].
  destruct fuel as [|fuel]; [simpl in Hl; lia|]. cbn [split].
  destruct pieces as [|y pieces].
  - cbn [join]. by rewrite str_find_free_None.
  - rewrite join_cons, str_find_free by done.
    rewrite take_app_length, drop_app_ge by lia.
    replace (length x + length (c :: p) - length x)%nat with (length (c :: p)) by lia.
    rewrite drop_app_length, IH; [done..|]. simpl in *. lia.
Qed.

Lemma length_join d pieces :
  d <> [] -> pieces <> [] -> (length pieces <= S (length (join d pieces)))%nat.
Proof.
  intros Hd. induction pieces as [|x [|y pieces] IH]; intros Hn; [done|simpl; lia|].
  rewrite join_cons, !length_app by done. specialize (IH ltac:(done)).
  assert (length d <> 0%nat) by (by destruct d). cbn [length] in *. lia.
Qed.

(** ** The rows of a request *)

Definition row_ok (r : list Z) : Prop := r <> [] /\ free_of CR r.
#[global] Instance row_ok_dec r : Decision (row_ok r).
Proof. unfold row_ok, free_of. apply _. Defined.

Lemma row_ok_free rows : Forall row_ok rows -> Forall (free_of CR) rows.
Proof. intros H. eapply Forall_impl; [exact H|]. by intros r [_ ?]. Qed.

(** The end of the headers is found behind the last row. *)
Lemma str_find_header_end rows body :
  rows <> [] -> Forall row_ok rows ->
  str_find (CRLF ++ CRLF) (join CRLF rows ++ (CRLF ++ CRLF) ++ body) =
  Some (length (join CRLF rows)).
Proof.
  intros Hn Hok. apply str_find_app.
  induction Hok as [|r rows [Hr Hf] Hok IH]; [done|]. intros m Hm.
  destruct rows as [|r2 rows].
  - destruct (drop_free CR m r ((CRLF ++ CRLF) ++ body) Hf Hm) as (x & t & E & Hx).
    cbn [join]. rewrite E. by apply starts_with_neq.
  - rewrite join_cons in * by done. rewrite !length_app in Hm. cbn [length CRLF] in Hm.
    destruct (decide (m < length r)%nat) as [Hlt|Hge].
    { rewrite <- app_assoc. destruct (drop_free CR m r
        ((CRLF ++ join CRLF (r2 :: rows)) ++ (CRLF ++ CRLF) ++ body) Hf Hlt) as (x & t & E & Hx).
      rewrite E. by apply starts_with_neq. }
    rewrite <- app_assoc, drop_app_ge by lia.
    destruct (m - length r)%nat as [|[|k]] eqn:Ek.
    + inversion_clear Hok as [|? ? [Hr2 Hf2] _].
      assert (Hj : exists x t, join CRLF (r2 :: rows) = x :: t /\ x <> CR).
      { destruct r2 as [|x r2]; [done|]. inversion_clear Hf2.
        destruct rows; [by eexists _, _|]. eexists x, _. by rewrite join_cons. }
      destruct Hj as (x & t & -> & Hx). cbn [drop app CRLF starts_with].
      rewrite (proj2 (Z.eqb_neq CR x)) by done. done.
    + done.
    + cbn [drop app CRLF]. apply IH; [done|]. lia.
Qed.

Lemma filter_nonempty rows : Forall row_ok rows -> filter nonempty rows = rows.
Proof.
  induction 1 as [|r rows [Hr _] _ IH]; [done|]. rewrite filter_cons_True; [by rewrite IH|].
  unfold nonempty. destruct r; [done|]. by apply Is_true_true.
Qed.

Lemma Forall_removelast {A} (P : A -> Prop) l : Forall P l -> Forall P (removelast l).
Proof.
  induction 1 as [|x l Hx Hl IH]; [done|]. cbn. destruct l; [done|by constructor].
Qed.

Lemma explode_rows c p pieces :
  pieces <> [] -> Forall (free_of c) pieces ->
  explode (join (c :: p) pieces) (c :: p) false = Some (filter nonempty (removelast pieces)).
Proof.
  intros Hn Hf. rewrite explode_split by done. rewrite split_join; [done..|].
  apply length_join; done.
Qed.

(** ** [trim] *)

Definition all_white (s : list Z) : Prop := Forall (fun c => is_whitespace c = true) s.

Lemma find_first_white a x r :
  all_white a -> is_whitespace x = false -> find_first_not_of (a ++ x :: r) = Some (length a).
Proof.
  intros Ha Hx. induction Ha as [|c a Hc _ IH]; cbn; [by rewrite Hx|]. by rewrite Hc, IH.
Qed.

(** [trim] removes the white space around a text, and nothing of the text. *)
Lemma trim_spec a x t y b :
  all_white a -> all_white b -> is_whitespace x = false -> is_whitespace y = false ->
  trim (a ++ (x :: t ++ [y]) ++ b) = x :: t ++ [y].
Proof.
  intros Ha Hb Hx Hy. unfold trim, find_last_not_of.
  replace (reverse (a ++ (x :: t ++ [y]) ++ b)) with (reverse b ++ y :: reverse (a ++ x :: t)).
  2:{ repeat (rewrite reverse_app || rewrite reverse_cons || rewrite reverse_nil).
      by repeat (rewrite <- app_assoc || cbn [app]). }
  rewrite find_first_white by (done || by apply Forall_reverse).
  cbn [fmap option_fmap option_map].
  assert (Hp : (length (a ++ (x :: t ++ [y]) ++ b) - 1 - length (reverse b) + 1)%nat
               = length (a ++ x :: t ++ [y])).
  { rewrite length_reverse. cbn [app]. rewrite !length_app. cbn [length].
    rewrite !length_app. cbn [length]. lia. }
  rewrite Hp, app_assoc, take_app_length.
  rewrite find_first_white by done. by rewrite drop_app_length.
Qed.

Lemma trim_one x : is_whitespace x = false -> trim [32; x] = [x].
Proof. intros Hx. unfold trim, find_last_not_of. cbn. rewrite Hx. cbn. rewrite Hx. done. Qed.

Lemma trim_space key :
  key <> [] -> Forall (fun c => is_whitespace c = false) key -> trim (32 :: key) = key.
Proof.
  intros Hn Hk. destruct key as [|x key]; [done|].
  destruct key as [|z key] using rev_ind; [inversion_clear Hk; by apply trim_one|].
  clear IHkey. inversion_clear Hk as [|? ? Hx Hk']. apply Forall_app in Hk' as [_ Hz].
  inversion_clear Hz. pose proof (trim_spec [32] x key z []) as E. cbn [app] in E.
  rewrite app_nil_r in E. apply E; [by constructor|by constructor|done..].
Qed.

(** ** The key among the rows *)

Definition key_prefix : list Z := str "Sec-WebSocket-Key:".
Definition key_row (key : list Z) : list Z := key_prefix ++ [32] ++ key.

Lemma parse_key_row ws key :
  key <> [] -> Forall (fun c => is_whitespace c = false) key ->
  ws_key (parse_row ws (key_row key)) = key.
Proof.
  intros Hn Hk. unfold parse_row, parse_field.
  change (starts_with (str "GET") (key_row key)) with false. cbn match.
  change (key_row key) with (str "Sec-WebSocket-Key" ++ [58] ++ 32 :: key).
  rewrite str_find_free by decide_now.
  rewrite take_app_length.
  change (drop (length (str "Sec-WebSocket-Key") + 1) _) with (32 :: key).
  rewrite trim_space by done. done.
Qed.

Lemma parse_row_keeps_key ws row :
  starts_with key_prefix row = false -> ws_key (parse_row ws row) = ws_key ws.
Proof.
  intros Hp. unfold parse_row. destruct (starts_with (str "GET") row).
  { destruct (explode row [32] false) as [[|? [|? ?]]|]; done. }
  unfold parse_field. destruct (str_find [58] row) as [n|] eqn:E; [|done].
  destruct (str_find_Some _ _ _ E) as (a & r & -> & <- & _). rewrite take_app_length.
  repeat case_bool; try done. exfalso.
  apply str_eqb_spec in E2 as ->.
  rewrite app_assoc in Hp.
  assert (starts_with key_prefix ((str "Sec-WebSocket-Key" ++ [58]) ++ r) = true); [|congruence].
  apply starts_with_spec. by exists r.
Qed.

Lemma fold_rows_keep_key rows ws :
  Forall (fun r => starts_with key_prefix r = false) rows ->
  ws_key (fold_left parse_row rows ws) = ws_key ws.
Proof.
  intros Hr. revert ws. induction Hr as [|r rows Hr _ IH]; intros ws; [done|].
  cbn [fold_left]. by rewrite IH, parse_row_keeps_key.
Qed.

(** ** The accept key *)

Lemma swap_groups_words ws :
  swap_groups (concat (map (le_bytes 4) ws)) = concat (map (fun w => reverse (le_bytes 4 w)) ws).
Proof.
  induction ws as [|w ws IH]; [done|]. cbn [map concat]. rewrite <- IH.
  generalize (concat (map (le_bytes 4) ws)) as rest. done.
Qed.

(** RFC 6455: the Base64 form of the SHA-1 digest of the key and the magic
    string, the digest's words in network order. *)
Definition accept_spec (key : list Z) : list Z :=
  base64_encode (concat (map (fun w => reverse (le_bytes 4 w)) (sha1 (key ++ RFC6544_MAGIC_KEY)))).

Lemma accept_of_spec garbage uninit key :
  length garbage = 64%nat -> bytes_ok key -> zlen key < 2 ^ 31 ->
  accept_of garbage uninit (key ++ RFC6544_MAGIC_KEY) = accept_spec key.
Proof.
  intros Hg Hk Hl. unfold accept_of, accept_spec.
  set (msg := key ++ RFC6544_MAGIC_KEY).
  assert (Hz : zlen msg = zlen key + 36) by (unfold msg; zlen_simpl; done).
  pose proof (zlen_nonneg key).
  rewrite wrap_small, take_ge by (unfold zlen in *; lia).
  assert (Hok : bytes_ok msg) by (apply Forall_app; split; [done|decide_now]).
  destruct (Result_hashing msg (Input (SHA1_ctor garbage) msg)) as [s' ->]; [|done|].
  - apply (Input_hashing msg []); [by apply hashing_init|by constructor|done|cbn [app]; lia].
  - cbn [fst default from_option]. by rewrite swap_groups_words.
Qed.

(** * Results *)

(** [parseHandshake] on a request of CR-free rows: it returns
    [OPENING_FRAME], ignores what follows the blank line, and processes every
    row but the last one in order.  The last row is lost: [explode] drops the
    piece behind the last delimiter. *)
Theorem parse_handshake_rows ws rows body :
  rows <> [] -> Forall row_ok rows ->
  parseHandshake ws (join CRLF rows ++ (CRLF ++ CRLF) ++ body) =
  (OPENING_FRAME, fold_left parse_row (removelast rows) ws).
Proof.
  intros Hn Hok. unfold parseHandshake.
  rewrite str_find_header_end, take_app_length by done.
  unfold CRLF at 1 2. rewrite explode_rows; [|done|by apply row_ok_free].
  by rewrite filter_nonempty by by apply Forall_removelast.
Qed.

Definition ex_rows : list (list Z) :=
  [str "GET /chat HTTP/1.1"; str "Host: example.com"; key_row (str "dGhlIHNhbXBsZSBub25jZQ==");
   str "Upgrade: websocket"; str "Sec-WebSocket-Protocol: chat"].

Lemma parse_handshake_rows_witness :
  exists ws, parseHandshake WebSocket_ctor (join CRLF ex_rows ++ (CRLF ++ CRLF) ++ str "body") =
    (OPENING_FRAME, ws) /\ ws_resource ws = str "/chat" /\ ws_host ws = str "example.com" /\
    ws_protocol ws = [].
Proof.
  eexists. rewrite (parse_handshake_rows WebSocket_ctor ex_rows (str "body")); [|done|decide_now].
  split; [done|]. by vm_compute.
Defined.

(** The handshake: a request whose rows contain a key that is not the last
    row (and no later key row) is answered with the accept key of RFC 6455,
    whatever memory the digest object starts from. *)
Theorem handshake_accept garbage uninit pre key post last body :
  length garbage = 64%nat ->
  Forall row_ok (pre ++ [key_row key] ++ post ++ [last]) ->
  key <> [] -> Forall (fun c => is_whitespace c = false) key -> bytes_ok key ->
  zlen key < 2 ^ 31 ->
  Forall (fun r => starts_with key_prefix r = false) post ->
  exists ws rest,
    parseHandshake WebSocket_ctor
      (join CRLF (pre ++ [key_row key] ++ post ++ [last]) ++ (CRLF ++ CRLF) ++ body) =
      (OPENING_FRAME, ws) /\ ws_key ws = key /\
    answerHandshake garbage uninit ws =
      str "HTTP/1.1 101 Switching Protocols" ++ CRLF ++ str "Upgrade: WebSocket" ++ CRLF
      ++ str "Connection: Upgrade" ++ CRLF
      ++ str "Sec-WebSocket-Accept: " ++ accept_spec key ++ CRLF ++ rest.
Proof.
  intros Hg Hok Hn Hw Hb Hl Hpost. set (rows := pre ++ _).
  assert (Hnil : rows <> []) by (unfold rows; by destruct pre).
  rewrite parse_handshake_rows by done.
  set (ws := fold_left parse_row (removelast rows) WebSocket_ctor).
  assert (Hrl : removelast rows = pre ++ [key_row key] ++ post).
  { unfold rows. rewrite !app_assoc. apply removelast_last. }
  assert (Hkey : ws_key ws = key).
  { unfold ws. rewrite Hrl, !fold_left_app, fold_rows_keep_key by done. by apply parse_key_row. }
  eexists ws, _. split; [done|]. split; [done|]. unfold answerHandshake. rewrite Hkey.
  assert ((0 <? length key)%nat = true) as -> by (by destruct key).
  rewrite accept_of_spec by done. by rewrite <- !app_assoc.
Qed.

Lemma handshake_accept_witness :
  exists ws rest,
    parseHandshake WebSocket_ctor (join CRLF ex_rows ++ (CRLF ++ CRLF) ++ []) = (OPENING_FRAME, ws) /\
    ws_key ws = str "dGhlIHNhbXBsZSBub25jZQ==" /\
    answerHandshake (replicate 64 0) [] ws =
      str "HTTP/1.1 101 Switching Protocols" ++ CRLF ++ str "Upgrade: WebSocket" ++ CRLF
      ++ str "Connection: Upgrade" ++ CRLF
      ++ str "Sec-WebSocket-Accept: " ++ str "s3pPLMBiTxaQ9kYGzzhZRbK+xOo=" ++ CRLF ++ rest.
Proof.
  replace (str "s3pPLMBiTxaQ9kYGzzhZRbK+xOo=") with (accept_spec (str "dGhlIHNhbXBsZSBub25jZQ=="))
    by (by vm_compute).
  apply (handshake_accept (replicate 64 0) [] [str "GET /chat HTTP/1.1"; str "Host: example.com"]
    (str "dGhlIHNhbXBsZSBub25jZQ==") [str "Upgrade: websocket"] (str "Sec-WebSocket-Protocol: chat") []);
    [done|decide_now|done|decide_now|decide_now|by vm_compute|decide_now].
Defined.

(** The same request with the key as its last row is answered without an accept
    key. *)
Example handshake_key_last :
  let rows := [str "GET /chat HTTP/1.1"; str "Host: example.com";
               key_row (str "dGhlIHNhbXBsZSBub25jZQ==")] in
  exists ws, parseHandshake WebSocket_ctor (join CRLF rows ++ (CRLF ++ CRLF)) = (OPENING_FRAME, ws) /\
    answerHandshake (replicate 64 0) [] ws =
      str "HTTP/1.1 101 Switching Protocols" ++ CRLF ++ str "Upgrade: WebSocket" ++ CRLF
      ++ str "Connection: Upgrade" ++ CRLF ++ CRLF.
Proof.
  exists (mk_ws (str "/chat") (str "example.com") [] [] []).
  split; vm_compute; reflexivity.
Qed.

(** A request without the blank line is incomplete and changes nothing. *)
Lemma parse_handshake_incomplete ws input :
  (forall m, starts_with (CRLF ++ CRLF) (drop m input) = false) ->
  parseHandshake ws input = (INCOMPLETE_FRAME, ws).
Proof.
  intros Hno. unfold parseHandshake. destruct (str_find _ input) as [n|] eqn:E; [|done].
  destruct (str_find_Some _ _ _ E) as (a & r & -> & <- & _).
  specialize (Hno (length a)). rewrite drop_app_length in Hno.
  assert (starts_with (CRLF ++ CRLF) ((CRLF ++ CRLF) ++ r) = true); [|congruence].
  apply starts_with_spec. by exists r.
Qed.
