(* ===== verification/WsCodec.v ===== *)
(** * The stand-alone codec against the frame layer

    Relates [WebSocket::makeFrame] and [WebSocket::getFrame] (modelled in
    [Handshake]) to each other and to [Frame::make]. *)

From S2P Require Import Prelude Endian CppString WsParser WsFrame Handshake.

(** The types [getFrame] can return for a whole message. *)
Definition data_type (t : WebSocketFrameType) : bool :=
  match t with
  | INCOMPLETE_TEXT_FRAME | INCOMPLETE_BINARY_FRAME | TEXT_FRAME | BINARY_FRAME
  | PING_FRAME | PONG_FRAME => true
  | _ => false
  end.

Lemma frame_type_of_code t :
  data_type t = true ->
  frame_type_of ((u8 (frame_type_code t)) & 0x0F) (((u8 (frame_type_code t)) >>> 7) & 0x01) = t.
Proof. by destruct t. Qed.

(** The length field of [makeFrame] for messages below 65536 octets. *)
Definition short_length (n : Z) : list Z :=
  if n <=? 125 then [n] else [126; (n >>> 8) & 0xFF; n & 0xFF].

Lemma makeFrame_short t msg :
  zlen msg <= 65535 -> makeFrame t msg = (u8 (frame_type_code t) :: short_length (zlen msg)) ++ msg.
Proof.
  intros Hl. unfold makeFrame, short_length. destruct (zlen msg <=? 125); [done|].
  by rewrite (proj2 (Z.leb_le (zlen msg) 65535)).
Qed.

Lemma small_length_facts n :
  0 <= n <= 125 -> (n & 0x7F) = n /\ truthy ((n >>> 7) & 0x01) = false.
Proof.
  intros Hn. apply (below_decide 126 (fun n => (n & 0x7F) = n /\ truthy ((n >>> 7) & 0x01) = false));
    [by vm_compute|lia].
Qed.

Lemma be16 n : 0 <= n <= 65535 -> ((((n >>> 8) & 0xFF) <<< 8) ||| (n & 0xFF)) = n.
Proof.
  intros Hn. change 0xFF with (Z.ones 8) at 1. rewrite land_ones_small by
    (rewrite ?Z.shiftr_div_pow2 by lia; try (Z.to_euclidean_division_equations; lia); lia).
  pose proof (be_step n 0 ltac:(lia)) as E. by rewrite !Z.shiftr_0_r in E.
Qed.

(** [getFrame] reads back what [makeFrame] wrote, for messages of at most
    65535 octets, with the type it was given. *)
Theorem getFrame_makeFrame t msg :
  data_type t = true -> zlen msg <= 65535 ->
  let buf := makeFrame t msg in
  Handshake.getFrame buf (length buf) = GF_ret t (Some msg) buf.
Proof.
  intros Ht Hl buf. unfold buf. rewrite makeFrame_short by done.
  pose proof (zlen_nonneg msg) as Hn. unfold Handshake.getFrame, short_length.
  pose proof (frame_type_of_code t Ht) as Hty.
  assert (Hid : Z.to_nat (zlen msg) = length msg) by (unfold zlen; lia).
  destruct (zlen msg <=? 125) eqn:E; bool_to_prop.
  - destruct (small_length_facts (zlen msg) ltac:(lia)) as [E1 E2].
    cbn [app length lookup list_lookup]. rewrite (proj2 (Nat.ltb_ge _ _)) by lia.
    rewrite E1, E2.
    unfold read_payload_length. rewrite (proj2 (Z.leb_le (zlen msg) 125)) by lia.
    rewrite Hid.
    rewrite (proj2 (Nat.ltb_ge _ _)) by lia.
    cbn [drop length]. rewrite drop_0, take_ge by lia.
    rewrite Hty. unfold write_at. cbn [take app drop Nat.add length]. 
    by rewrite ?drop_0, drop_all, app_nil_r.
  - cbn [app length lookup list_lookup]. rewrite (proj2 (Nat.ltb_ge _ _)) by lia.
   
    change (126 & 0x7F) with 126. change (truthy ((126 >>> 7) & 1)) with false.
    unfold read_payload_length. cbn [Z.leb Z.compare Pos.compare Pos.compare_cont Z.eqb Pos.eqb lookup list_lookup mbind option_bind].
    rewrite be16 by lia. rewrite Hid.
    rewrite (proj2 (Nat.ltb_ge _ _)) by lia.
    cbn [drop length]. rewrite drop_0, take_ge by lia.
    rewrite Hty. unfold write_at. cbn [take app drop Nat.add length].
    by rewrite ?drop_0, drop_all, app_nil_r.
Qed.

Lemma getFrame_makeFrame_witness :
  Handshake.getFrame [0x81; 2; 72; 105] 4 = GF_ret TEXT_FRAME (Some [72; 105]) [0x81; 2; 72; 105].
Proof. apply (getFrame_makeFrame TEXT_FRAME [72; 105]); done. Defined.

(** The length test of [getFrame] leaves the mask key out: on a masked
    frame that lacks up to four of its last octets it does not answer
    [INCOMPLETE_FRAME] but reads behind the input. *)
Theorem getFrame_masked_overread b0 n data :
  0 <= n <= 125 -> n <= zlen data < n + 4 ->
  let buf := b0 :: (128 + n) :: data in
  Handshake.getFrame buf (length buf) = GF_undefined.
Proof.
  intros Hn Hd buf. unfold buf, Handshake.getFrame.
  cbn [length lookup list_lookup]. rewrite (proj2 (Nat.ltb_ge _ _)) by lia.
 
  assert (Hf : ((128 + n) & 0x7F) = n /\ truthy (((128 + n) >>> 7) & 0x01) = true).
  { apply (below_decide 126 (fun n => ((128 + n) & 0x7F) = n /\ truthy (((128 + n) >>> 7) & 0x01) = true));
      [by vm_compute|lia]. }
  destruct Hf as [-> ->]. unfold read_payload_length.
  rewrite (proj2 (Z.leb_le n 125)) by lia. unfold zlen in Hd.
  rewrite (proj2 (Nat.ltb_ge _ _)) by lia.
  by rewrite (proj2 (Nat.ltb_lt _ _)) by lia.
Qed.

Lemma getFrame_masked_overread_witness :
  Handshake.getFrame [0x81; 130; 1; 2] 4 = GF_undefined.
Proof. apply (getFrame_masked_overread 0x81 2 [1; 2]); [done|by vm_compute]. Defined.

Lemma high_octet_zero n k : 0 <= n < 2 ^ 31 -> 31 <= k -> ((n >>> k) & 0xFF) = 0.
Proof.
  intros Hn Hk. rewrite Z.shiftr_div_pow2 by lia. rewrite Z.div_small; [done|].
  split; [lia|]. apply Z.lt_le_trans with (2 ^ 31); [lia|]. apply Z.pow_le_mono_r; lia.
Qed.

(** The head of [makeFrame] is the head [Frame::make] writes. *)
Lemma make_length_makeFrame n :
  0 <= n < 2 ^ 31 ->
  make_length 0 n =
  (if n <=? 125 then [n]
   else if n <=? 65535 then [126; (n >>> 8) & 0xFF; n & 0xFF]
   else [127; 0; 0; 0; 0] ++ map (fun i => (n >>> (8 * i)) & 0xFF) [3; 2; 1; 0]).
Proof.
  intros Hn. unfold make_length.
  destruct (n <? 126) eqn:E1, (n <=? 125) eqn:E2; bool_to_prop; try lia.
  - rewrite Z.lor_0_l, wrap_small; [done|lia].
  - change 0xFFFF with 65535. destruct (n <=? 65535); [done|].
    cbn [map app]. rewrite !(high_octet_zero n) by lia. done.
Qed.

(** The two encoders agree: [makeFrame] writes the octets of
    [Frame::make(false)] for a text and for a binary message below 2^31 octets. *)
Theorem makeFrame_is_make msg :
  zlen msg < 2 ^ 31 ->
  makeFrame TEXT_FRAME msg = make (setTextPayload msg (setOpcode WS_OP_TEXT Frame_default)) None /\
  makeFrame BINARY_FRAME msg =
    make (setBinaryPayload msg (setOpcode WS_OP_BINARY Frame_default)) None.
Proof.
  intros Hl. pose proof (zlen_nonneg msg). unfold make, makeFrame.
  rewrite <- make_length_makeFrame by lia. split; done.
Qed.

Lemma makeFrame_is_make_witness :
  makeFrame TEXT_FRAME [72; 105] = [0x81; 2; 72; 105] /\
  makeFrame BINARY_FRAME [72; 105] = [0x82; 2; 72; 105].
Proof. exact (makeFrame_is_make [72; 105] ltac:(by vm_compute)). Defined.
