(* ===== verification/IdAlloc.v ===== *)
(** * The packed id allocator

    Models [sylar/basic/tool.hpp] and [tool.cc]: a bit map of 64-bit chunks and a
    cursor.  Every operation runs under [m_global_mutex], so it is one step.

    The ids in use are the set bits.  The cursor always stands on the least free
    id, so [alloc] hands out the least free id; [free] gives an id back.  The
    class [IdAllocator] states this contract for the clients of the allocator. *)

From S2P Require Import Prelude.

Inductive ErrorCode := SUCCESS | INVALID_ID | ALREADY_FREED | NO_AVAILABLE_ID | EXPAND_FAILED.

Definition UINT64_MAX : Z := 2 ^ 64 - 1.

Record PackedIDAllocator := mk_ids {
  m_bit_map : list Z;           (* std::vector<uint64_t> *)
  m_next_chunk : nat;           (* uint64_t *)
  m_next_bit : Z;               (* int *)
  error_code : ErrorCode;
}.

Definition PackedIDAllocator_ctor (size : nat) : PackedIDAllocator :=
  mk_ids (replicate size 0) 0 0 SUCCESS.

Definition getSize (s : PackedIDAllocator) : Z := 64 * zlen (m_bit_map s).

(** [std::countr_zero(~x)]: the lowest clear bit of [x]. *)
Fixpoint countr_one (fuel : nat) (i x : Z) : Z :=
  match fuel with
  | O => i
  | S fuel => if Z.testbit x i then countr_one fuel (i + 1) x else i
  end.

(** The scan [for(i = m_next_chunk; i < m_bit_map.size(); ++i)] for a chunk
    that is not full. *)
Fixpoint scan (chunks : list Z) (i : nat) : option (nat * Z) :=
  match chunks with
  | [] => None
  | c :: chunks =>
      if negb (c =? UINT64_MAX) then Some (i, countr_one 64 0 c) else scan chunks (S i)
  end.

(** [expand]: [max_chunks] is the largest vector the memory allocator grants;
    beyond it [resize] throws and -1 is returned. *)
Definition expand (max_chunks : nat) (s : PackedIDAllocator) : Z * PackedIDAllocator :=
  let n := length (m_bit_map s) in
  if (n * 2 <=? max_chunks)%nat then
    (0, mk_ids (m_bit_map s ++ replicate n 0) (m_next_chunk s) (m_next_bit s) (error_code s))
  else (-1, mk_ids (m_bit_map s) (m_next_chunk s) (m_next_bit s) EXPAND_FAILED).

(** [alloc]; [None] where its behaviour is undefined: the cursor is outside the
    vector, or the shift count [m_next_bit] is negative. *)
Definition alloc (max_chunks : nat) (s : PackedIDAllocator) : option (Z * PackedIDAllocator) :=
  let chunk := m_next_chunk s in
  let bit := m_next_bit s in
  match m_bit_map s !! chunk with
  | None => None
  | Some c =>
      if bit <? 0 then None
      else
        let rt := to_int (64 * Z.of_nat chunk + bit) in
        let bm := <[chunk := c ||| (u64 (1 <<< bit))]> (m_bit_map s) in
        match scan (drop chunk bm) chunk with
        | Some (i, b) => Some (rt, mk_ids bm i b (error_code s))
        | None =>
            let (rc, s') := expand max_chunks (mk_ids bm (length bm) 0 (error_code s)) in
            if rc <? 0 then
              Some (rt, mk_ids (m_bit_map s') 0 (-1) (error_code s'))
            else Some (rt, s')
        end
  end.

(** [free]; [None] when it indexes outside the vector or shifts by a negative
    count. *)
Definition free (id : Z) (s : PackedIDAllocator) : option (Z * PackedIDAllocator) :=
  if to_int (getSize s) <? id then
    Some (-1, mk_ids (m_bit_map s) (m_next_chunk s) (m_next_bit s) INVALID_ID)
  else
    let chunk_index := Z.quot id 64 in
    let bit_index := Z.rem id 64 in
    if bit_index <? 0 then None
    else
      let mask := u64 (1 <<< bit_index) in
      match m_bit_map s !! Z.to_nat chunk_index with
      | None => None
      | Some c =>
          if (c & mask) =? 0 then
            Some (-1, mk_ids (m_bit_map s) (m_next_chunk s) (m_next_bit s) ALREADY_FREED)
          else
            let bm := <[Z.to_nat chunk_index := Z.ldiff c mask]> (m_bit_map s) in
            if (chunk_index <? Z.of_nat (m_next_chunk s))
               || ((chunk_index =? Z.of_nat (m_next_chunk s)) && (bit_index <? m_next_bit s))
            then Some (0, mk_ids bm (Z.to_nat chunk_index) bit_index (error_code s))
            else Some (0, mk_ids bm (m_next_chunk s) (m_next_bit s) (error_code s))
      end.

(** ** The ids in use *)

Definition bit_at (bm : list Z) (id : Z) : bool :=
  match bm !! Z.to_nat (id / 64) with
  | Some c => Z.testbit c (id mod 64)
  | None => false
  end.

Definition allocated (s : PackedIDAllocator) (id : Z) : bool := (0 <=? id) && bit_at (m_bit_map s) id.

Definition chunk_ok (c : Z) : Prop := 0 <= c <= UINT64_MAX.
#[global] Instance chunk_ok_dec c : Decision (chunk_ok c).
Proof. unfold chunk_ok. apply _. Defined.

(** The invariant: the cursor is inside the map, on the least free id. *)
Record ids_inv (s : PackedIDAllocator) : Prop := mk_inv {
  inv_chunks : Forall chunk_ok (m_bit_map s);
  inv_small : getSize s < 2 ^ 31;
  inv_chunk : (m_next_chunk s < length (m_bit_map s))%nat;
  inv_bit : 0 <= m_next_bit s < 64;
  inv_free : allocated s (64 * Z.of_nat (m_next_chunk s) + m_next_bit s) = false;
  inv_below : forall id, 0 <= id < 64 * Z.of_nat (m_next_chunk s) + m_next_bit s ->
                allocated s id = true;
}.

Definition cursor (s : PackedIDAllocator) : Z := 64 * Z.of_nat (m_next_chunk s) + m_next_bit s.

(** ** The contract *)

(** What a client of an id allocator relies on: [alloc] returns the least id
    that is not live and makes exactly it live, [free] makes exactly its id free.  [ia_room s] says that the next [alloc] leaves the allocator usable. *)
Class IdAllocator (A : Type) := {
  ia_inv : A -> Prop;
  ia_room : A -> Prop;
  ia_live : A -> Z -> bool;
  ia_alloc : A -> option (Z * A);
  ia_free : Z -> A -> option (Z * A);
  ia_live_nonneg : forall a id, ia_live a id = true -> 0 <= id;
  ia_alloc_ok : forall a, ia_inv a -> ia_room a ->
    exists id a', ia_alloc a = Some (id, a') /\ ia_inv a' /\ ia_live a id = false /\ 0 <= id /\
      (forall i, 0 <= i < id -> ia_live a i = true) /\
      forall i, ia_live a' i = (bool_decide (i = id) || ia_live a i);
  ia_free_ok : forall a id, ia_inv a -> ia_live a id = true ->
    exists a', ia_free id a = Some (0, a') /\ ia_inv a' /\
      forall i, ia_live a' i = (negb (bool_decide (i = id)) && ia_live a i);
}.

(** ** Lemmas on chunks *)

Lemma chunk_ok_bits c i : chunk_ok c -> 64 <= i -> Z.testbit c i = false.
Proof.
  intros [Hl Hu] Hi. rewrite <- (Z.mod_small c (2 ^ 64)) by (unfold UINT64_MAX in *; lia).
  apply Z.mod_pow2_bits_high. lia.
Qed.

Lemma chunk_full c : chunk_ok c -> (forall i, 0 <= i < 64 -> Z.testbit c i = true) -> c = UINT64_MAX.
Proof.
  intros Hc Hb. change UINT64_MAX with (Z.ones 64). apply Z.bits_inj'. intros i Hi.
  destruct (decide (i < 64)).
  - rewrite Hb, Z.ones_spec_low by lia. done.
  - rewrite chunk_ok_bits, Z.ones_spec_high by (done || lia). done.
Qed.

Lemma full_bits i : 0 <= i < 64 -> Z.testbit UINT64_MAX i = true.
Proof. intros. change UINT64_MAX with (Z.ones 64). by apply Z.ones_spec_low. Qed.

Lemma countr_one_spec fuel i c :
  let j := countr_one fuel i c in
  i <= j <= i + Z.of_nat fuel /\ (forall k, i <= k < j -> Z.testbit c k = true) /\
  (j < i + Z.of_nat fuel -> Z.testbit c j = false).
Proof.
  revert i. induction fuel as [|fuel IH]; intros i; cbn zeta; cbn [countr_one].
  { split_and!; [lia|lia|intros; lia|lia]. }
  destruct (Z.testbit c i) eqn:E.
  - destruct (IH (i + 1)) as (Hb & Hl & Hz). split_and!; [lia|lia| |intros; apply Hz; lia].
    intros k Hk. destruct (decide (k = i)) as [->|]; [done|]. apply Hl. lia.
  - split_and!; [lia|lia|intros; lia|done].
Qed.

(** A chunk that is not full has a lowest clear bit below 64. *)
Lemma countr_one_chunk c :
  chunk_ok c -> c <> UINT64_MAX ->
  0 <= countr_one 64 0 c < 64 /\ Z.testbit c (countr_one 64 0 c) = false /\
  forall k, 0 <= k < countr_one 64 0 c -> Z.testbit c k = true.
Proof.
  intros Hc Hn. destruct (countr_one_spec 64 0 c) as (Hb & Hl & Hz).
  assert (countr_one 64 0 c <> 64).
  { intros E. apply Hn, chunk_full; [done|]. intros i Hi. apply Hl. lia. }
  split_and!; [lia|lia|apply Hz; lia|apply Hl].
Qed.

Lemma one_shift b : 0 <= b < 64 -> (u64 (1 <<< b)) = 2 ^ b.
Proof.
  intros Hb. rewrite Z.shiftl_mul_pow2, Z.mul_1_l by lia. apply wrap_small.
  split; [lia|]. apply Z.pow_lt_mono_r; lia.
Qed.

Lemma testbit_mask b i : 0 <= b -> 0 <= i -> Z.testbit (2 ^ b) i = bool_decide (i = b).
Proof.
  intros. destruct (decide (i = b)) as [->|].
  - rewrite Z.pow2_bits_true by done. by rewrite bool_decide_eq_true_2.
  - rewrite Z.pow2_bits_false by done. by rewrite bool_decide_eq_false_2.
Qed.

Lemma bits_chunk_ok c : 0 <= c -> (forall i, 64 <= i -> Z.testbit c i = false) -> chunk_ok c.
Proof.
  intros Hc Hb. split; [done|]. assert (E : c = c mod 2 ^ 64).
  { apply Z.bits_inj'. intros i Hi. destruct (decide (i < 64)).
    - by rewrite Z.mod_pow2_bits_low by lia.
    - rewrite Z.mod_pow2_bits_high, Hb by lia. done. }
  rewrite E. pose proof (Z.mod_pos_bound c (2 ^ 64) ltac:(lia)). unfold UINT64_MAX. lia.
Qed.

Lemma set_bit_ok c b : chunk_ok c -> 0 <= b < 64 -> chunk_ok (c ||| 2 ^ b).
Proof.
  intros Hc Hb. apply bits_chunk_ok.
  - apply Z.lor_nonneg. destruct Hc. lia.
  - intros i Hi. rewrite Z.lor_spec, chunk_ok_bits, Z.pow2_bits_false by (done || lia). done.
Qed.

Lemma clear_bit_ok c b : chunk_ok c -> 0 <= b < 64 -> chunk_ok (Z.ldiff c (2 ^ b)).
Proof.
  intros Hc Hb. apply bits_chunk_ok.
  - apply Z.ldiff_nonneg. destruct Hc. lia.
  - intros i Hi. rewrite Z.ldiff_spec, chunk_ok_bits by done. done.
Qed.

(** Testing a bit with a mask. *)
Lemma land_mask_zero c b : 0 <= b -> ((c & 2 ^ b) =? 0) = negb (Z.testbit c b).
Proof.
  intros Hb. destruct (Z.testbit c b) eqn:E; cbn [negb].
  - apply Z.eqb_neq. intros H. assert (Z.testbit (c & 2 ^ b) b = true) as E'.
    { rewrite Z.land_spec, E, Z.pow2_bits_true by done. done. }
    rewrite H, Z.bits_0 in E'. done.
  - apply Z.eqb_eq, Z.bits_inj'. intros i Hi. rewrite Z.land_spec, Z.bits_0, testbit_mask by done.
    destruct (decide (i = b)) as [->|]; [by rewrite E|].
    rewrite bool_decide_eq_false_2 by done. apply andb_false_r.
Qed.

(** ** Lemmas on the map *)

Lemma bit_at_insert bm k c id :
  (k < length bm)%nat -> 0 <= id ->
  bit_at (<[k := c]> bm) id =
  if decide (id / 64 = Z.of_nat k) then Z.testbit c (id mod 64) else bit_at bm id.
Proof.
  intros Hk Hid. unfold bit_at. assert (0 <= id / 64) by (apply Z.div_pos; lia).
  destruct (decide (id / 64 = Z.of_nat k)) as [->|Hn].
  - rewrite Nat2Z.id, list_lookup_insert_eq by done. done.
  - rewrite list_lookup_insert_ne by lia. done.
Qed.

Lemma bit_at_grow bm n id : bit_at (bm ++ replicate n 0) id = bit_at bm id.
Proof.
  unfold bit_at. destruct (bm !! Z.to_nat (id / 64)) as [c|] eqn:E.
  - by rewrite (lookup_app_l_Some _ _ _ _ E).
  - apply lookup_ge_None in E. rewrite lookup_app_r by done.
    destruct (replicate n 0 !! _) as [x|] eqn:E2; [|done].
    apply lookup_replicate in E2 as [-> _]. apply Z.bits_0.
Qed.

(** An id as its chunk and its bit. *)
Lemma id_split k b : 0 <= b < 64 -> (64 * Z.of_nat k + b) / 64 = Z.of_nat k /\
                                    (64 * Z.of_nat k + b) mod 64 = b.
Proof. intros. split; Z.to_euclidean_division_equations; lia. Qed.

Lemma allocated_chunk s id c :
  0 <= id -> m_bit_map s !! Z.to_nat (id / 64) = Some c ->
  allocated s id = Z.testbit c (id mod 64).
Proof. intros H E. unfold allocated, bit_at. rewrite E, (proj2 (Z.leb_le 0 id)) by done. done. Qed.

Lemma allocated_neg s id : id < 0 -> allocated s id = false.
Proof. intros. unfold allocated. by rewrite (proj2 (Z.leb_gt 0 id)). Qed.

(** Replacing one chunk by one that differs at a single bit. *)
Lemma allocated_update s s' k b c c' (v : bool) :
  m_bit_map s !! k = Some c -> m_bit_map s' = <[k := c']> (m_bit_map s) -> 0 <= b < 64 ->
  (forall i, 0 <= i -> Z.testbit c' i = if decide (i = b) then v else Z.testbit c i) ->
  forall id, allocated s' id =
    if decide (id = 64 * Z.of_nat k + b) then v else allocated s id.
Proof.
  intros Hk Hbm Hb Hc id. pose proof (lookup_lt_Some _ _ _ Hk) as Hlt.
  destruct (id_split k b Hb) as [Hd Hm].
  destruct (decide (0 <= id)) as [Hid|Hid].
  - unfold allocated. rewrite (proj2 (Z.leb_le 0 id)), Hbm by done. cbn [andb].
    rewrite bit_at_insert by done.
    assert (0 <= id mod 64) by (by apply Z.mod_pos_bound).
    destruct (decide (id = _)) as [->|Hne].
    + rewrite decide_True by done. rewrite Hm, Hc, decide_True by lia. done.
    + destruct (decide (id / 64 = Z.of_nat k)) as [E|]; [|done].
      rewrite Hc, decide_False by (Z.to_euclidean_division_equations; lia).
      unfold bit_at. rewrite E, Nat2Z.id, Hk. done.
  - rewrite !allocated_neg by lia. by rewrite decide_False by lia.
Qed.

(** The scan stops at the first chunk that is not full. *)
Lemma scan_Some chunks i0 i b :
  scan chunks i0 = Some (i, b) ->
  exists c, (i0 <= i)%nat /\ chunks !! (i - i0)%nat = Some c /\ c <> UINT64_MAX /\
    b = countr_one 64 0 c /\
    forall j, (i0 <= j < i)%nat -> chunks !! (j - i0)%nat = Some UINT64_MAX.
Proof.
  revert i0. induction chunks as [|c chunks IH]; intros i0; cbn [scan]; [done|].
  destruct (c =? UINT64_MAX) eqn:E; cbn [negb]; bool_to_prop.
  - intros Hs. destruct (IH _ Hs) as (c' & Hle & Hl & Hne & Hb & Hall). exists c'.
    split_and!; [lia| |done|done|].
    + replace (i - i0)%nat with (S (i - S i0)) by lia. done.
    + intros j Hj. destruct (decide (j = i0)) as [->|]; [by rewrite Nat.sub_diag, E|].
      replace (j - i0)%nat with (S (j - S i0)) by lia. apply Hall. lia.
  - intros [= <- <-]. exists c. rewrite Nat.sub_diag. split_and!; [lia|done..|lia].
Qed.

Lemma scan_None chunks i0 : scan chunks i0 = None -> Forall (fun c => c = UINT64_MAX) chunks.
Proof.
  revert i0. induction chunks as [|c chunks IH]; intros i0; cbn [scan]; [by constructor|].
  destruct (c =? UINT64_MAX) eqn:E; cbn [negb]; bool_to_prop; [|done].
  intros Hs. constructor; [done|by eapply IH].
Qed.

(** Every id of a full chunk is allocated. *)
Lemma allocated_full s id :
  0 <= id -> m_bit_map s !! Z.to_nat (id / 64) = Some UINT64_MAX -> allocated s id = true.
Proof.
  intros Hid Hc. rewrite (allocated_chunk _ _ _ Hid Hc). apply full_bits.
  by apply Z.mod_pos_bound.
Qed.

(** ** Opening the invariant: the chunk under the cursor *)

Lemma inv_cursor s :
  ids_inv s -> exists c, m_bit_map s !! m_next_chunk s = Some c /\ chunk_ok c /\
    Z.testbit c (m_next_bit s) = false /\ 0 <= cursor s < 2 ^ 31 /\
    to_int (cursor s) = cursor s.
Proof.
  intros [Hc Hs Hk Hb Hf Hl]. destruct (lookup_lt_is_Some_2 _ _ Hk) as [c Ec].
  exists c. assert (Hcur : 0 <= cursor s < 2 ^ 31).
  { unfold cursor, getSize, zlen in *. lia. }
  destruct (id_split (m_next_chunk s) (m_next_bit s) Hb) as [Hd Hm].
  split_and!; try done; [by eapply (Forall_lookup_1 _ _ _ _ Hc)| |lia..|apply to_int_small; lia].
  rewrite (allocated_chunk _ _ c) in Hf; [by rewrite Hm in Hf|apply Hcur|].
  by rewrite Hd, Nat2Z.id.
Qed.

(** The map after marking the cursor's bit. *)
Definition marked (s : PackedIDAllocator) (c : Z) : list Z :=
  <[m_next_chunk s := c ||| 2 ^ m_next_bit s]> (m_bit_map s).

Lemma allocated_marked s s' c :
  ids_inv s -> m_bit_map s !! m_next_chunk s = Some c -> m_bit_map s' = marked s c ->
  forall id, allocated s' id = (bool_decide (id = cursor s) || allocated s id).
Proof.
  intros Hi Hc Hm id.
  rewrite (allocated_update s s' (m_next_chunk s) (m_next_bit s) c (c ||| 2 ^ m_next_bit s) true);
    try done; [|apply Hi|].
  - unfold cursor. by case_decide; [rewrite bool_decide_eq_true_2|rewrite bool_decide_eq_false_2].
  - intros i Hi0. rewrite Z.lor_spec, testbit_mask by (done || apply Hi).
    case_decide; [by rewrite bool_decide_eq_true_2, orb_true_r|].
    by rewrite bool_decide_eq_false_2, orb_false_r.
Qed.

Lemma marked_ok s c :
  ids_inv s -> m_bit_map s !! m_next_chunk s = Some c -> Forall chunk_ok (marked s c).
Proof.
  intros Hi Hc. apply Forall_insert; [apply Hi|].
  apply set_bit_ok; [|apply Hi]. by eapply (Forall_lookup_1 _ _ _ _ (inv_chunks s Hi)).
Qed.

(** All ids below the marked chunk's first free id are allocated. *)
Lemma allocated_below s c :
  ids_inv s -> m_bit_map s !! m_next_chunk s = Some c ->
  forall s', m_bit_map s' = marked s c -> forall i b d,
  (m_next_chunk s <= i)%nat -> m_bit_map s' !! i = Some d ->
  (forall k, 0 <= k < b -> Z.testbit d k = true) -> 0 <= b <= 64 ->
  (forall j, (m_next_chunk s <= j < i)%nat -> m_bit_map s' !! j = Some UINT64_MAX) ->
  forall id, 0 <= id < 64 * Z.of_nat i + b -> allocated s' id = true.
Proof.
  intros Hi Hc s' Hm i b d Hle Hd Hbits Hb Hfull id Hid.
  assert (Hq : 0 <= id / 64 <= Z.of_nat i) by (Z.to_euclidean_division_equations; lia).
  destruct (decide (Z.to_nat (id / 64) < m_next_chunk s)%nat).
  { rewrite (allocated_marked s s' c) by done. rewrite (inv_below s Hi); [apply orb_true_r|].
    pose proof (inv_bit s Hi). Z.to_euclidean_division_equations; lia. }
  destruct (decide (Z.to_nat (id / 64) < i)%nat).
  { apply allocated_full; [lia|]. apply Hfull. lia. }
  assert (E : Z.to_nat (id / 64) = i) by lia.
  rewrite (allocated_chunk s' id d) by (lia || by rewrite E). apply Hbits.
  Z.to_euclidean_division_equations; lia.
Qed.

(** ** [alloc] *)

(** Room for one more id: the map can grow, or a second id is free. *)
Definition ids_room (max_chunks : nat) (s : PackedIDAllocator) : Prop :=
  ((length (m_bit_map s) * 2 <= max_chunks)%nat /\ 2 * getSize s < 2 ^ 31) \/
  exists id, id <> cursor s /\ 0 <= id < getSize s /\ allocated s id = false.

Lemma alloc_scan max_chunks s c i b :
  ids_inv s -> m_bit_map s !! m_next_chunk s = Some c ->
  scan (drop (m_next_chunk s) (marked s c)) (m_next_chunk s) = Some (i, b) ->
  alloc max_chunks s = Some (cursor s, mk_ids (marked s c) i b (error_code s)) /\
  ids_inv (mk_ids (marked s c) i b (error_code s)).
Proof.
  intros Hi Hc Hs. destruct (inv_cursor s Hi) as (c' & Hc' & _ & _ & Hcur & Hint).
  simplify_eq. pose proof (inv_bit s Hi) as Hb.
  assert (Ha : alloc max_chunks s = Some (cursor s, mk_ids (marked s c) i b (error_code s))).
  { unfold alloc. rewrite Hc, (proj2 (Z.ltb_ge _ 0)) by lia. rewrite one_shift by done.
    fold (marked s c). rewrite Hs. fold (cursor s). by rewrite Hint. }
  split; [done|]. destruct (scan_Some _ _ _ _ Hs) as (d & Hle & Hd & Hne & -> & Hfull).
  rewrite lookup_drop in Hd. replace (m_next_chunk s + (i - m_next_chunk s))%nat with i in Hd by lia.
  pose proof (Forall_lookup_1 _ _ _ _ (marked_ok s c Hi Hc) Hd) as Hok.
  destruct (countr_one_chunk d Hok Hne) as (Hb' & Hz & Hone).
  destruct (id_split i _ Hb') as [Hdiv Hmod].
  split; cbn [m_bit_map m_next_chunk m_next_bit]; try done.
  - by apply marked_ok.
  - unfold getSize, zlen in *. cbn [m_bit_map]. unfold marked. rewrite length_insert. apply Hi.
  - by eapply lookup_lt_Some.
  - rewrite (allocated_chunk _ _ d); [by rewrite Hmod|lia|]. cbn [m_bit_map].
    by rewrite Hdiv, Nat2Z.id.
  - eapply (allocated_below s c Hi Hc (mk_ids (marked s c) i _ (error_code s)) eq_refl i);
      try done; [lia|]. cbn [m_bit_map]. intros j Hj.
    specialize (Hfull j Hj). rewrite lookup_drop in Hfull.
    by replace (m_next_chunk s + (j - m_next_chunk s))%nat with j in Hfull by lia.
Qed.

(** When the scan fails every id of the marked map is allocated. *)
Lemma alloc_full s s' c :
  ids_inv s -> m_bit_map s !! m_next_chunk s = Some c -> m_bit_map s' = marked s c ->
  scan (drop (m_next_chunk s) (marked s c)) (m_next_chunk s) = None ->
  forall id, 0 <= id < getSize s -> allocated s' id = true.
Proof.
  intros Hi Hc Hm Hs id Hid. apply scan_None in Hs.
  destruct (decide (Z.to_nat (id / 64) < m_next_chunk s)%nat).
  { rewrite (allocated_marked s s' c) by done. rewrite (inv_below s Hi); [apply orb_true_r|].
    pose proof (inv_bit s Hi). Z.to_euclidean_division_equations; lia. }
  apply allocated_full; [lia|]. rewrite Hm.
  destruct (lookup_lt_is_Some_2 (marked s c) (Z.to_nat (id / 64))) as [x Hx].
  { unfold marked. rewrite length_insert. unfold getSize, zlen in Hid.
    Z.to_euclidean_division_equations; lia. }
  rewrite Hx. f_equal.
  apply (Forall_lookup_1 _ _ (Z.to_nat (id / 64) - m_next_chunk s) x Hs).
  rewrite lookup_drop. by replace (_ + _)%nat with (Z.to_nat (id / 64)) by lia.
Qed.

Lemma alloc_expand max_chunks s c :
  ids_inv s -> m_bit_map s !! m_next_chunk s = Some c ->
  scan (drop (m_next_chunk s) (marked s c)) (m_next_chunk s) = None ->
  (length (m_bit_map s) * 2 <= max_chunks)%nat -> 2 * getSize s < 2 ^ 31 ->
  let n := length (m_bit_map s) in
  let s' := mk_ids (marked s c ++ replicate n 0) n 0 (error_code s) in
  alloc max_chunks s = Some (cursor s, s') /\ ids_inv s'.
Proof.
  intros Hi Hc Hs Hmax Hsz n s'. destruct (inv_cursor s Hi) as (c' & Hc' & _ & _ & Hcur & Hint).
  simplify_eq. pose proof (inv_bit s Hi) as Hb.
  assert (Hlen : length (marked s c) = n) by (unfold marked; by rewrite length_insert).
  assert (Ha : alloc max_chunks s = Some (cursor s, s')).
  { unfold alloc. rewrite Hc, (proj2 (Z.ltb_ge _ 0)) by lia. rewrite one_shift by done.
    fold (marked s c). rewrite Hs. unfold expand. cbn [m_bit_map m_next_chunk m_next_bit error_code].
    rewrite Hlen, (proj2 (Nat.leb_le _ _)) by done. fold (cursor s). by rewrite Hint. }
  split; [done|]. pose proof (inv_chunk s Hi) as Hck. unfold s'.
  split; cbn [m_bit_map m_next_chunk m_next_bit]; try done.
  - apply Forall_app. split; [by apply marked_ok|]. by apply Forall_replicate.
  - unfold getSize, zlen in *. cbn [m_bit_map]. rewrite length_app, length_replicate, Hlen. lia.
  - rewrite length_app, length_replicate, Hlen. lia.
  - unfold allocated. cbn [m_bit_map]. rewrite bit_at_grow. unfold bit_at.
    rewrite (proj1 (id_split n 0 ltac:(lia))), Nat2Z.id, lookup_ge_None_2 by lia. apply andb_false_r.
  - intros id Hid. unfold allocated. cbn [m_bit_map]. rewrite bit_at_grow.
    apply (alloc_full s (mk_ids (marked s c) 0 0 SUCCESS) c); try done.
    unfold getSize, zlen. lia.
Qed.

Lemma alloc_lowest max_chunks s :
  ids_inv s -> ids_room max_chunks s ->
  exists id s', alloc max_chunks s = Some (id, s') /\ ids_inv s' /\
    0 <= id /\ allocated s id = false /\
    (forall i, 0 <= i < id -> allocated s i = true) /\
    forall i, allocated s' i = (bool_decide (i = id) || allocated s i).
Proof.
  intros Hi Hroom. destruct (inv_cursor s Hi) as (c & Hc & _ & _ & Hcur & _).
  assert (Hpost : exists s', alloc max_chunks s = Some (cursor s, s') /\ ids_inv s' /\
    forall i, allocated s' i = (bool_decide (i = cursor s) || allocated s i)).
  { destruct (scan (drop (m_next_chunk s) (marked s c)) (m_next_chunk s)) as [[i b]|] eqn:Es.
    - destruct (alloc_scan max_chunks s c i b Hi Hc Es) as [Ha Hi'].
      eexists. split_and!; [done..|]. by apply (allocated_marked s _ c).
    - destruct Hroom as [[Hm Hz]|(id & Hne & Hid & Hf)].
      + destruct (alloc_expand max_chunks s c Hi Hc Es Hm Hz) as [Ha Hi'].
        eexists. split_and!; [done..|]. intros i. unfold allocated at 1. cbn [m_bit_map].
        rewrite bit_at_grow. apply (allocated_marked s (mk_ids (marked s c) 0 0 SUCCESS) c); done.
      + pose proof (alloc_full s (mk_ids (marked s c) 0 0 SUCCESS) c Hi Hc eq_refl Es id Hid) as Ht.
        rewrite (allocated_marked s _ c Hi Hc), Hf in Ht by done.
        rewrite bool_decide_eq_false_2 in Ht by done. done. }
  destruct Hpost as (s' & Ha & Hi' & Hs'). exists (cursor s), s'.
  split_and!; try done; [lia|apply Hi|]. intros i Hlt. by apply Hi.
Qed.

(** * Results *)

(** [alloc] hands out the least free id: under the invariant and with room
    for one more id it returns an id that is not in use while all smaller ids
    are, marks exactly that id, and keeps the invariant. *)
Theorem alloc_least max_chunks s :
  ids_inv s -> ids_room max_chunks s ->
  exists id s', alloc max_chunks s = Some (id, s') /\ ids_inv s' /\
    0 <= id /\ allocated s id = false /\
    (forall i, 0 <= i < id -> allocated s i = true) /\
    forall i, allocated s' i = (bool_decide (i = id) || allocated s i).
Proof. apply alloc_lowest. Qed.

Lemma PackedIDAllocator_ctor_inv n :
  (0 < n)%nat -> 64 * Z.of_nat n < 2 ^ 31 -> ids_inv (PackedIDAllocator_ctor n).
Proof.
  intros Hn Hs. split; cbn [m_bit_map m_next_chunk m_next_bit PackedIDAllocator_ctor].
  - by apply Forall_replicate.
  - unfold getSize, zlen. cbn [m_bit_map PackedIDAllocator_ctor]. by rewrite length_replicate.
  - by rewrite length_replicate.
  - lia.
  - unfold allocated. cbn [m_bit_map PackedIDAllocator_ctor]. change (replicate n 0) with ([] ++ replicate n 0).
    by rewrite bit_at_grow.
  - lia.
Qed.

Lemma alloc_least_witness :
  exists id s', alloc 4 (PackedIDAllocator_ctor 1) = Some (id, s') /\ ids_inv s' /\
    0 <= id /\ allocated (PackedIDAllocator_ctor 1) id = false /\
    (forall i, 0 <= i < id -> allocated (PackedIDAllocator_ctor 1) i = true) /\
    forall i, allocated s' i = (bool_decide (i = id) || allocated (PackedIDAllocator_ctor 1) i).
Proof.
  apply (alloc_least 4 (PackedIDAllocator_ctor 1)).
  - apply PackedIDAllocator_ctor_inv; [lia|done].
  - left. split; [by vm_compute; lia|done].
Defined.

(** ** [free] *)

(** The map without the bit of [id]. *)
Definition cleared (s : PackedIDAllocator) (id c : Z) : list Z :=
  <[Z.to_nat (id / 64) := Z.ldiff c (2 ^ (id mod 64))]> (m_bit_map s).

Lemma allocated_chunk_of s id :
  allocated s id = true ->
  exists c, 0 <= id /\ m_bit_map s !! Z.to_nat (id / 64) = Some c /\
    Z.testbit c (id mod 64) = true /\ id < getSize s.
Proof.
  intros Ha. destruct (decide (0 <= id)) as [Hid|]; [|by rewrite allocated_neg in Ha by lia].
  destruct (m_bit_map s !! Z.to_nat (id / 64)) as [c|] eqn:Hc.
  - exists c. rewrite (allocated_chunk s id c) in Ha by done. split_and!; try done.
    pose proof (lookup_lt_Some _ _ _ Hc). unfold getSize, zlen.
    Z.to_euclidean_division_equations; lia.
  - unfold allocated, bit_at in Ha. rewrite Hc, andb_false_r in Ha. done.
Qed.

Lemma allocated_cleared s s' id c :
  0 <= id -> m_bit_map s !! Z.to_nat (id / 64) = Some c -> m_bit_map s' = cleared s id c ->
  forall i, allocated s' i = (negb (bool_decide (i = id)) && allocated s i).
Proof.
  intros Hid Hc Hs' i. assert (Hb : 0 <= id mod 64 < 64) by (by apply Z.mod_pos_bound).
  rewrite (allocated_update s s' _ (id mod 64) c _ false Hc Hs' Hb).
  - assert (Hidk : 64 * Z.of_nat (Z.to_nat (id / 64)) + id mod 64 = id)
      by (Z.to_euclidean_division_equations; lia).
    rewrite Hidk. case_decide; [by rewrite bool_decide_eq_true_2|by rewrite bool_decide_eq_false_2].
  - intros j Hj. rewrite Z.ldiff_spec, testbit_mask by lia.
    case_decide; [by rewrite bool_decide_eq_true_2, andb_false_r|].
    by rewrite bool_decide_eq_false_2, andb_true_r.
Qed.

(** The state [free] leaves: the cursor moves down to a smaller id. *)
Definition freed (s : PackedIDAllocator) (id c : Z) : PackedIDAllocator :=
  if decide (id < cursor s) then mk_ids (cleared s id c) (Z.to_nat (id / 64)) (id mod 64) (error_code s)
  else mk_ids (cleared s id c) (m_next_chunk s) (m_next_bit s) (error_code s).

(** The test on chunk and bit compares ids. *)
Lemma below_cursor_test s id :
  0 <= id -> 0 <= m_next_bit s < 64 ->
  (id / 64 <? Z.of_nat (m_next_chunk s))
    || ((id / 64 =? Z.of_nat (m_next_chunk s)) && (id mod 64 <? m_next_bit s))
  = bool_decide (id < cursor s).
Proof.
  intros Hid Hb. unfold cursor. case_bool_decide as H.
  - rewrite orb_true_iff, andb_true_iff, Z.eqb_eq, !Z.ltb_lt.
    Z.to_euclidean_division_equations; lia.
  - rewrite orb_false_iff, andb_false_iff, Z.eqb_neq, !Z.ltb_ge.
    Z.to_euclidean_division_equations; lia.
Qed.

Lemma free_freed s id c :
  ids_inv s -> 0 <= id < getSize s -> m_bit_map s !! Z.to_nat (id / 64) = Some c ->
  Z.testbit c (id mod 64) = true -> free id s = Some (0, freed s id c).
Proof.
  intros Hi Hid Hc Ht. pose proof (inv_small s Hi). pose proof (inv_bit s Hi).
  assert (Hb : 0 <= id mod 64 < 64) by (by apply Z.mod_pos_bound).
  unfold free, freed. rewrite to_int_small by lia.
  rewrite (proj2 (Z.ltb_ge _ _)), Z.quot_div_nonneg, Z.rem_mod_nonneg by lia.
  rewrite (proj2 (Z.ltb_ge (id mod 64) 0)), Hc by lia.
  rewrite one_shift, land_mask_zero, Ht by lia. cbn [negb]. fold (cleared s id c).
  rewrite below_cursor_test by lia. destruct (decide (id < cursor s));
    [by rewrite bool_decide_eq_true_2|by rewrite bool_decide_eq_false_2].
Qed.

Lemma freed_inv s id c :
  ids_inv s -> 0 <= id -> m_bit_map s !! Z.to_nat (id / 64) = Some c -> ids_inv (freed s id c).
Proof.
  intros Hi Hid Hc. pose proof (lookup_lt_Some _ _ _ Hc) as Hlt.
  assert (Hb : 0 <= id mod 64 < 64) by (by apply Z.mod_pos_bound).
  assert (Hok : Forall chunk_ok (cleared s id c)).
  { apply Forall_insert; [apply Hi|]. apply clear_bit_ok; [|done].
    by eapply (Forall_lookup_1 _ _ _ _ (inv_chunks s Hi)). }
  assert (Hlen : length (cleared s id c) = length (m_bit_map s)) by apply length_insert.
  assert (Hidk : 64 * Z.of_nat (Z.to_nat (id / 64)) + id mod 64 = id)
    by (Z.to_euclidean_division_equations; lia).
  pose proof (inv_chunk s Hi). pose proof (inv_bit s Hi). pose proof (inv_small s Hi) as Hsm.
  pose proof (inv_below s Hi) as Hbl. fold (cursor s) in Hbl.
  unfold freed. case_decide as Hcur;
    (split; cbn [m_bit_map m_next_chunk m_next_bit]; [done| |lia|lia|..]);
    try (unfold getSize, zlen in *; cbn [m_bit_map]; rewrite Hlen; exact Hsm).
  - rewrite (allocated_cleared s _ id c), Hidk by done. by rewrite bool_decide_eq_true_2.
  - rewrite Hidk. intros i Hi'. rewrite (allocated_cleared s _ id c), Hbl by (done || lia).
    by rewrite bool_decide_eq_false_2 by lia.
  - rewrite (allocated_cleared s _ id c), (inv_free s Hi) by done. apply andb_false_r.
  - intros i Hi'. rewrite (allocated_cleared s _ id c), Hbl by (done || unfold cursor; lia).
    rewrite bool_decide_eq_false_2; [done|]. unfold cursor in Hcur. lia.
Qed.

Lemma free_allocated s id :
  ids_inv s -> allocated s id = true ->
  exists s', free id s = Some (0, s') /\ ids_inv s' /\
    forall i, allocated s' i = (negb (bool_decide (i = id)) && allocated s i).
Proof.
  intros Hi Ha. destruct (allocated_chunk_of s id Ha) as (c & Hid & Hc & Ht & Hsz).
  exists (freed s id c). split_and!; [by apply free_freed|by apply freed_inv|].
  apply (allocated_cleared s _ id c); try done. unfold freed. by case_decide.
Qed.

(** [free] on every id of the map: an id in use is released (result 0, only
    that id changes), an id not in use is reported as already freed and nothing
    changes; the invariant is kept. *)
Theorem free_correct s id :
  ids_inv s -> 0 <= id < getSize s ->
  exists rc s', free id s = Some (rc, s') /\ ids_inv s' /\
    (allocated s id = true -> rc = 0 /\
       forall i, allocated s' i = (negb (bool_decide (i = id)) && allocated s i)) /\
    (allocated s id = false -> rc = -1 /\ error_code s' = ALREADY_FREED /\
       m_bit_map s' = m_bit_map s).
Proof.
  intros Hi Hid. destruct (allocated s id) eqn:Ha.
  - destruct (free_allocated s id Hi Ha) as (s' & Hf & Hi' & Hs').
    exists 0, s'. by split_and!.
  - exists (-1), (mk_ids (m_bit_map s) (m_next_chunk s) (m_next_bit s) ALREADY_FREED).
    split; [|split; [by destruct Hi; split|done]].
    destruct (lookup_lt_is_Some_2 (m_bit_map s) (Z.to_nat (id / 64))) as [c Hc].
    { unfold getSize, zlen in Hid. Z.to_euclidean_division_equations; lia. }
    rewrite (allocated_chunk s id c) in Ha by (lia || done).
    assert (Hb : 0 <= id mod 64 < 64) by (by apply Z.mod_pos_bound).
    pose proof (inv_small s Hi). unfold free. rewrite to_int_small by lia.
    rewrite (proj2 (Z.ltb_ge _ _)), Z.quot_div_nonneg, Z.rem_mod_nonneg by lia.
    rewrite (proj2 (Z.ltb_ge (id mod 64) 0)), Hc by lia.
    by rewrite one_shift, land_mask_zero, Ha by lia.
Qed.

Definition ex_ids : PackedIDAllocator := mk_ids [7; 0] 0 3 SUCCESS.

Lemma ex_ids_inv : ids_inv ex_ids.
Proof.
  split; cbn; try lia; [decide_now|by vm_compute|done|].
  intros id Hid. assert (id = 0 \/ id = 1 \/ id = 2) as [->|[->| ->]] by lia; done.
Defined.

Lemma free_correct_witness :
  exists s', free 1 ex_ids = Some (0, s') /\ ids_inv s' /\ allocated s' 1 = false.
Proof.
  destruct (free_correct ex_ids 1 ex_ids_inv ltac:(by vm_compute)) as (rc & s' & Hf & Hi & Ht & _).
  destruct (Ht eq_refl) as [-> Hs']. exists s'. split_and!; [done|done|]. by rewrite Hs'.
Defined.

(** Exhaustion: when the last id is handed out and the map cannot grow, the
    call still succeeds but leaves the cursor on bit -1, and the next [alloc]
    shifts by a negative count instead of reporting the failure. *)
Theorem alloc_exhausted_undefined max_chunks s :
  ids_inv s -> (forall id, id <> cursor s -> 0 <= id < getSize s -> allocated s id = true) ->
  (max_chunks < length (m_bit_map s) * 2)%nat ->
  exists s', alloc max_chunks s = Some (cursor s, s') /\ error_code s' = EXPAND_FAILED /\
    alloc max_chunks s' = None.
Proof.
  intros Hi Hall Hmax. destruct (inv_cursor s Hi) as (c & Hc & _ & _ & Hcur & Hint).
  assert (Es : scan (drop (m_next_chunk s) (marked s c)) (m_next_chunk s) = None).
  { destruct (scan _ _) as [[i b]|] eqn:Es; [|done].
    destruct (alloc_scan max_chunks s c i b Hi Hc Es) as [_ Hi'].
    set (s1 := mk_ids _ _ _ _) in Hi'.
    assert (Hsz : 0 <= cursor s1 < getSize s).
    { pose proof (inv_chunk s1 Hi') as Hck. pose proof (inv_bit s1 Hi'). unfold cursor, getSize, zlen.
      change (m_bit_map s1) with (marked s c) in Hck. unfold marked in Hck.
      rewrite length_insert in Hck. lia. }
    pose proof (inv_free s1 Hi') as Hf. fold (cursor s1) in Hf.
    rewrite (allocated_marked s s1 c) in Hf by done.
    apply orb_false_iff in Hf as [Hne Hf]. apply bool_decide_eq_false in Hne.
    rewrite Hall in Hf; done. }
  exists (mk_ids (marked s c) 0 (-1) EXPAND_FAILED). split; [|split; [done|]].
  - unfold alloc. pose proof (inv_bit s Hi). rewrite Hc, (proj2 (Z.ltb_ge _ 0)), one_shift by lia.
    fold (marked s c). rewrite Es. unfold expand. cbn [m_bit_map m_next_chunk m_next_bit error_code].
    assert (length (marked s c) = length (m_bit_map s)) as -> by apply length_insert.
    rewrite (proj2 (Nat.leb_gt _ _)) by done. fold (cursor s). by rewrite Hint.
  - unfold alloc. cbn [m_bit_map m_next_chunk m_next_bit]. by destruct (marked s c !! 0%nat).
Qed.

Definition ex_last : PackedIDAllocator := mk_ids [2 ^ 63 - 1] 0 63 SUCCESS.

Lemma ex_last_below id : 0 <= id < 63 -> allocated ex_last id = true.
Proof. apply (below_decide 63 (fun id => allocated ex_last id = true)). by vm_compute. Defined.

Lemma ex_last_inv : ids_inv ex_last.
Proof. split; cbn; try lia; [decide_now|by vm_compute|done|exact ex_last_below]. Defined.

Lemma alloc_exhausted_undefined_witness :
  exists s', alloc 1 ex_last = Some (63, s') /\ error_code s' = EXPAND_FAILED /\ alloc 1 s' = None.
Proof.
  apply (alloc_exhausted_undefined 1 ex_last).
  - exact ex_last_inv.
  - change (cursor ex_last) with 63. change (getSize ex_last) with 64.
    intros id Hne Hid. apply ex_last_below. lia.
  - cbn. lia.
Defined.

(** The bound test of [free] is off by one: the id one past the last is not
    rejected but indexes the chunk behind the vector. *)
Theorem free_one_past_end s :
  getSize s < 2 ^ 31 -> free (getSize s) s = None.
Proof.
  intros Hs. unfold free. pose proof (zlen_nonneg (m_bit_map s)).
  rewrite to_int_small, Z.ltb_irrefl by (unfold getSize in *; lia).
  rewrite Z.quot_div_nonneg, Z.rem_mod_nonneg by (unfold getSize in *; lia).
  assert (getSize s / 64 = zlen (m_bit_map s) /\ getSize s mod 64 = 0) as [-> ->]
    by (unfold getSize; Z.to_euclidean_division_equations; lia).
  rewrite lookup_ge_None_2; [done|]. unfold zlen. lia.
Qed.

Lemma free_one_past_end_witness : free 128 ex_ids = None.
Proof. exact (free_one_past_end ex_ids ltac:(by vm_compute)). Defined.

(** The allocator meets the contract. *)
#[global] Instance packed_id_allocator (max_chunks : nat) : IdAllocator PackedIDAllocator.
Proof.
  refine (Build_IdAllocator _ ids_inv (ids_room max_chunks) allocated (alloc max_chunks) free _ _ _).
  - intros a id Ha. by destruct (allocated_chunk_of a id Ha) as (? & ? & _).
  - intros a Hi Hr. destruct (alloc_lowest max_chunks a Hi Hr) as (id & a' & ? & ? & ? & ? & ? & ?).
    by exists id, a'.
  - exact free_allocated.
Defined.
