(* ===== verification/Session.v ===== *)
(** * Session buffers

    Models [sylar/server/common/session.hpp] and [session.cc]: the receive
    buffer of a connection with its two positions.  The socket is an argument:
    what [m_socket->recv] answers is given to [recvMessage].  The size of the
    allocation and the size the session believes in are separate fields, as in
    the source ([new char[buffer_size]] against [m_buffer_size]). *)

From S2P Require Import Prelude.

Record Session := mk_session {
  m_buffer : list Z;             (* the allocated memory *)
  m_total_received : Z;
  m_buffer_size : Z;
  m_buffer_begin_pos : Z;
  m_buffer_end_pos : Z;
}.

(** The constructor allocates [basic_buffer_size] octets (the configuration
    [servers.basic.limit.buffer_size]); it leaves [m_buffer_size] unset, the
    argument [unset]. *)
Definition Session_ctor (basic_buffer_size unset : Z) (garbage : Z -> list Z) : Session :=
  mk_session (garbage basic_buffer_size) 0 unset 0 0.

Definition setBufferSize (size : Z) (s : Session) : Session :=
  mk_session (m_buffer s) (m_total_received s) size (m_buffer_begin_pos s) (m_buffer_end_pos s).

(** The move constructor: the new object and what is left of the old one. *)
Definition Session_move (other : Session) : Session * Session :=
  (mk_session (m_buffer other) (m_total_received other) (m_buffer_size other)
     (m_buffer_begin_pos other) (m_buffer_end_pos other),
   mk_session [] 0 0 0 0).

(** What the socket answers to [recv]. *)
Inductive recv_out :=
  | RecvData (data : list Z)      (* at least one octet *)
  | RecvClosed
  | RecvError (errno : Z).

(** [co_return] value and the offset [*buffer - m_buffer]; or the write of the
    received octets leaves the allocation; or the assertion fails. *)
Inductive recv_res :=
  | RM_ret (rc : Z) (at_ : Z) (s : Session)
  | RM_overflow
  | RM_assert.

Definition EBADF : Z := 9.
Definition ENOMEM : Z := 12.
Definition EFAULT : Z := 14.
Definition ENFILE : Z := 23.
Definition EMFILE : Z := 24.

Definition recv_error_code (errno : Z) : Z :=
  if (errno =? EBADF) || (errno =? EFAULT) || (errno =? ENOMEM) || (errno =? EMFILE)
     || (errno =? ENFILE) then -1 else -2.

(** The last part: how much is handed out, from where. *)
Definition recv_return (s : Session) (length : Z) : recv_res :=
  let rt_length := m_buffer_end_pos s - m_buffer_begin_pos s in
  RM_ret (if rt_length <? length then rt_length else length) (m_buffer_begin_pos s) s.

(** [length] is a [size_t]; the default -1 is [2^64 - 1]. *)
Definition recvMessage (s : Session) (length : Z) (r : recv_out) : recv_res :=
  if m_buffer_end_pos s <? m_buffer_size s then
    match r with
    | RecvClosed => RM_ret 0 0 s
    | RecvError e => RM_ret (recv_error_code e) 0 s
    | RecvData data =>
        if zlen (m_buffer s) <? m_buffer_end_pos s + zlen data then RM_overflow
        else
          let s := mk_session (write_at (Z.to_nat (m_buffer_end_pos s)) data (m_buffer s))
                     (u64 (m_total_received s + zlen data)) (m_buffer_size s)
                     (m_buffer_begin_pos s) (m_buffer_end_pos s + zlen data) in
          if m_buffer_size s <? m_buffer_end_pos s then RM_assert else recv_return s length
    end
  else recv_return s length.

Definition consume (length : Z) (s : Session) : Z * Session :=
  let begin_pos := u64 (m_buffer_begin_pos s + length) in
  if m_buffer_end_pos s <=? begin_pos then
    (u64 (length - (begin_pos - m_buffer_end_pos s)),
     mk_session (m_buffer s) (m_total_received s) (m_buffer_size s) 0 0)
  else
    (length, mk_session (m_buffer s) (m_total_received s) (m_buffer_size s)
               begin_pos (m_buffer_end_pos s)).

(** ** The invariant and the unread octets *)

Definition npos : Z := 2 ^ 64 - 1.

Record session_ok (s : Session) : Prop := mk_session_ok {
  so_begin : 0 <= m_buffer_begin_pos s <= m_buffer_end_pos s;
  so_end : m_buffer_end_pos s <= m_buffer_size s;
  so_alloc : m_buffer_size s <= zlen (m_buffer s);
  so_int : m_buffer_size s < 2 ^ 31;
}.

(** The octets a session can hold: what it believes in and what was allocated. *)
Definition capacity (s : Session) : Z := Z.min (m_buffer_size s) (zlen (m_buffer s)).

(** The positions are inside the allocation, also when the believed size is not. *)
Record session_in (s : Session) : Prop := mk_session_in {
  sn_begin : 0 <= m_buffer_begin_pos s <= m_buffer_end_pos s;
  sn_end : m_buffer_end_pos s <= capacity s;
  sn_int : m_buffer_size s < 2 ^ 31;
}.

Lemma session_ok_in s : session_ok s <-> session_in s /\ m_buffer_size s <= zlen (m_buffer s).
Proof.
  unfold capacity. split.
  - intros [? ? ? ?]. split; [split; unfold capacity; lia|done].
  - intros [[? He ?] ?]. unfold capacity in He. split; lia.
Qed.

Definition unread (s : Session) : list Z :=
  take (Z.to_nat (m_buffer_end_pos s - m_buffer_begin_pos s))
    (drop (Z.to_nat (m_buffer_begin_pos s)) (m_buffer s)).

(** The socket writes at most what it is asked for, and something. *)
Definition recv_fits (s : Session) (data : list Z) : Prop :=
  0 < zlen data <= m_buffer_size s - m_buffer_end_pos s.

Lemma zlen_unread_in s : session_in s -> zlen (unread s) = m_buffer_end_pos s - m_buffer_begin_pos s.
Proof.
  intros [Hb He _]. unfold unread, capacity, zlen in *. rewrite length_take, length_drop. lia.
Qed.

Lemma zlen_unread s : session_ok s -> zlen (unread s) = m_buffer_end_pos s - m_buffer_begin_pos s.
Proof. intros [H _]%session_ok_in. by apply zlen_unread_in. Qed.

(** Writing at the end position extends the unread octets. *)
Lemma window_write (b e : nat) (data buf : list Z) :
  (b <= e)%nat -> (e + length data <= length buf)%nat ->
  take (e + length data - b) (drop b (write_at e data buf)) =
  take (e - b) (drop b buf) ++ data.
Proof.
  intros Hbe Hl. unfold write_at.
  rewrite drop_app_le by (rewrite length_take; lia).
  rewrite skipn_firstn_comm. rewrite app_assoc, take_app_le.
  - rewrite take_ge; [done|]. rewrite length_app, length_take, length_drop. lia.
  - rewrite length_app, length_take, length_drop. lia.
Qed.

(** * Results *)

Lemma recv_appends_in s data length :
  session_in s -> 0 < zlen data <= capacity s - m_buffer_end_pos s ->
  exists s', recvMessage s length (RecvData data) =
    RM_ret (Z.min (zlen (unread s ++ data)) length) (m_buffer_begin_pos s) s' /\
    session_in s' /\ unread s' = unread s ++ data /\
    m_buffer_begin_pos s' = m_buffer_begin_pos s /\ m_buffer_size s' = m_buffer_size s /\ zlen (m_buffer s') = zlen (m_buffer s).
Proof.
  intros Hok [Hpos Hfit]. destruct Hok as [Hb He Hi] eqn:EH. clear EH. unfold capacity in *.
  assert (Hu : zlen (unread s ++ data) = m_buffer_end_pos s + zlen data - m_buffer_begin_pos s).
  { rewrite zlen_app, zlen_unread_in by done. lia. }
  assert (Hw : zlen (write_at (Z.to_nat (m_buffer_end_pos s)) data (m_buffer s)) = zlen (m_buffer s))
    by (unfold zlen in *; rewrite length_write_at by lia; lia).
  unfold recvMessage. rewrite (proj2 (Z.ltb_lt _ _)), (proj2 (Z.ltb_ge _ _)) by lia.
  cbn [m_buffer_size m_buffer_end_pos]. rewrite (proj2 (Z.ltb_ge _ _)) by lia.
  unfold recv_return. cbn [m_buffer_begin_pos m_buffer_end_pos].
  eexists. split.
  { f_equal. rewrite Hu. destruct (_ <? _) eqn:E; bool_to_prop; lia. }
  split_and!; try done.
  - split; unfold capacity; cbn [m_buffer m_buffer_size m_buffer_begin_pos m_buffer_end_pos]; rewrite ?Hw; lia.
  - unfold unread. cbn [m_buffer m_buffer_begin_pos m_buffer_end_pos].
    set (b := m_buffer_begin_pos s) in *. set (e := m_buffer_end_pos s) in *.
    replace (Z.to_nat (e + zlen data - b)) with (Z.to_nat e + List.length data - Z.to_nat b)%nat
      by (unfold zlen; lia).
    replace (Z.to_nat (e - b)) with (Z.to_nat e - Z.to_nat b)%nat by lia.
    apply window_write; unfold zlen in *; lia.
Qed.

Lemma recv_appends s data length :
  session_ok s -> recv_fits s data ->
  exists s', recvMessage s length (RecvData data) =
    RM_ret (Z.min (zlen (unread s ++ data)) length) (m_buffer_begin_pos s) s' /\
    session_ok s' /\ unread s' = unread s ++ data /\
    m_buffer_begin_pos s' = m_buffer_begin_pos s /\ m_buffer_size s' = m_buffer_size s.
Proof.
  intros [Hok Ha]%session_ok_in Hf. unfold recv_fits in Hf.
  destruct (recv_appends_in s data length Hok) as (s' & Hr & Hin & Hu & Hb & Hs & Hl); [unfold capacity; lia|].
  exists s'. split_and!; try done. apply session_ok_in. split; [done|lia].
Qed.

Lemma consume_advances_in s n :
  session_in s -> 0 <= n < 2 ^ 63 ->
  exists s', consume n s = (Z.min n (zlen (unread s)), s') /\ session_in s' /\
    unread s' = drop (Z.to_nat n) (unread s) /\ m_buffer_size s' = m_buffer_size s /\ m_buffer s' = m_buffer s.
Proof.
  intros Hok Hn. pose proof (zlen_unread_in s Hok) as Hz. destruct Hok as [Hb He Hi].
  unfold consume. unfold capacity in He. rewrite wrap_small by lia.
  destruct (m_buffer_end_pos s <=? m_buffer_begin_pos s + n) eqn:E; bool_to_prop; eexists.
  - split; [f_equal; rewrite wrap_small; lia|]. split_and!; [split; unfold capacity; cbn; lia| |done|done].
    unfold unread. cbn [m_buffer_begin_pos m_buffer_end_pos m_buffer].
    rewrite (drop_ge (take _ _)) by (rewrite length_take; lia). done.
  - split; [f_equal; lia|]. split_and!; [split; unfold capacity; cbn; lia| |done|done].
    unfold unread. cbn [m_buffer_begin_pos m_buffer_end_pos m_buffer].
    rewrite skipn_firstn_comm, drop_drop. f_equal; [lia|f_equal; lia].
Qed.

Lemma consume_advances s n :
  session_ok s -> 0 <= n < 2 ^ 63 ->
  exists s', consume n s = (Z.min n (zlen (unread s)), s') /\ session_ok s' /\
    unread s' = drop (Z.to_nat n) (unread s) /\ m_buffer_size s' = m_buffer_size s.
Proof.
  intros [Hok Ha]%session_ok_in Hn. destruct (consume_advances_in s n Hok Hn) as (s' & Hc & Hin & Hu & Hs & Hl).
  exists s'. split_and!; try done. apply session_ok_in. rewrite Hs, Hl. done.
Qed.

(** The octets [recvMessage] hands out. *)
Definition handed_out (se : Session) (at_ rc : Z) : list Z :=
  take (Z.to_nat rc) (drop (Z.to_nat at_) (m_buffer se)).

(** The buffer holds nothing unread, and its positions are reset. *)
Definition drained (se : Session) : Prop :=
  m_buffer_begin_pos se = 0 /\ m_buffer_end_pos se = 0.

Lemma drained_recv se data :
  session_in se -> drained se -> 0 < zlen data <= capacity se ->
  exists se', recvMessage se npos (RecvData data) = RM_ret (zlen data) 0 se' /\
    handed_out se' 0 (zlen data) = data /\
    session_in (consume (zlen data) se').2 /\ drained (consume (zlen data) se').2 /\
    capacity (consume (zlen data) se').2 = capacity se.
Proof.
  intros Hok [Hb He] Hd.
  assert (Hun : unread se = []) by (unfold unread; by rewrite Hb, He).
  destruct (recv_appends_in se data npos Hok) as (se' & Hr & Hok' & Hu & Hb' & Hs' & Hl'); [lia|].
  exists se'. rewrite Hun in Hr, Hu. cbn [app] in Hr, Hu.
  pose proof (zlen_unread_in se' Hok') as Hz. rewrite Hu, Hb', Hb in Hz.
  pose proof (sn_int _ Hok). rewrite Hb in Hr, Hb'. unfold capacity in Hd.
  destruct (consume_advances_in se' (zlen data) Hok') as (s2 & Hc & Hin & _ & Hs2 & Hl2); [lia|].
  split_and!.
  - rewrite Hr, Z.min_l by (unfold npos; lia). done.
  - transitivity (unread se'); [|exact Hu]. unfold handed_out, unread. by rewrite Hb', <- Hz.
  - by rewrite Hc.
  - unfold drained, consume. rewrite Hb', wrap_small by lia.
    rewrite (proj2 (Z.leb_le _ _)) by lia. done.
  - rewrite Hc. unfold capacity. cbn [snd]. by rewrite Hs2, Hl2, Hs', Hl'.
Qed.

(** A receive hands out everything unread; consuming a prefix leaves the rest, and
    consuming all of it resets the positions. *)
Lemma recv_hands_out se data :
  session_ok se -> recv_fits se data ->
  exists se', recvMessage se npos (RecvData data) = RM_ret (zlen (unread se ++ data)) (m_buffer_begin_pos se) se' /\
    handed_out se' (m_buffer_begin_pos se) (zlen (unread se ++ data)) = unread se ++ data /\
    forall n, 0 <= n <= zlen (unread se ++ data) ->
      session_ok (consume n se').2 /\ unread (consume n se').2 = drop (Z.to_nat n) (unread se ++ data) /\
      m_buffer_size (consume n se').2 = m_buffer_size se /\
      (n = zlen (unread se ++ data) -> drained (consume n se').2).
Proof.
  intros Hok Hfit. destruct (recv_appends se data npos Hok Hfit) as (se' & Hr & Hok' & Hu & Hb' & Hs').
  pose proof (zlen_unread se' Hok') as Hz. rewrite Hu in Hz. pose proof Hok' as [Hb1 He1 Ha1 Hi1].
  exists se'. rewrite Z.min_l in Hr by (unfold npos; lia). split_and!; [done| |].
  - transitivity (unread se'); [|exact Hu]. rewrite Hz, <- Hb'. done.
  - intros n Hn. destruct (consume_advances se' n Hok') as (s2 & E & H1 & H2 & H3); [lia|]. rewrite E. cbn [snd].
    split_and!; [done|by rewrite H2, Hu|congruence|].
    intros ->. replace s2 with (consume (zlen (unread se ++ data)) se').2 by (by rewrite E).
    unfold drained, consume. rewrite wrap_small by lia. rewrite (proj2 (Z.leb_le _ _)) by lia. done.
Qed.

(** A session is a first-in first-out stream: a receive appends the octets
    of the socket behind the unread ones and hands out everything unread from
    its start, a consume removes a prefix and returns how much it removed; the
    positions stay in order and inside the buffer. *)
Theorem session_stream s data n :
  session_ok s -> recv_fits s data -> 0 <= n < 2 ^ 63 ->
  exists s1 s2,
    recvMessage s npos (RecvData data) = RM_ret (zlen (unread s ++ data)) (m_buffer_begin_pos s) s1 /\
    session_ok s1 /\ unread s1 = unread s ++ data /\
    consume n s1 = (Z.min n (zlen (unread s1)), s2) /\
    session_ok s2 /\ unread s2 = drop (Z.to_nat n) (unread s ++ data).
Proof.
  intros Hok Hfit Hn.
  destruct (recv_appends s data npos Hok Hfit) as (s1 & Hr & Hok1 & Hu1 & _).
  destruct (consume_advances s1 n Hok1 Hn) as (s2 & Hc & Hok2 & Hu2 & _).
  exists s1, s2. rewrite Hr, Hc, Hu2, Hu1. split_and!; try done. do 1 f_equal.
  rewrite Z.min_l; [done|]. rewrite zlen_app, zlen_unread by done.
  destruct Hok, Hfit. unfold npos. lia.
Qed.

Definition ex_session : Session := mk_session (replicate 8 0) 0 8 0 0.

Lemma ex_session_ok : session_ok ex_session.
Proof. by split; vm_compute. Defined.

Lemma session_stream_witness :
  exists s1 s2, recvMessage ex_session npos (RecvData [1; 2; 3]) = RM_ret 3 0 s1 /\
    session_ok s1 /\ unread s1 = [1; 2; 3] /\ consume 2 s1 = (2, s2) /\ session_ok s2 /\
    unread s2 = [3].
Proof.
  destruct (session_stream ex_session [1; 2; 3] 2 ex_session_ok) as (s1 & s2 & Hr & Hs1 & Hu1 & Hc & Hs2 & Hu2);
    [by vm_compute|lia|].
  exists s1, s2. rewrite Hu1 in Hc. by split_and!.
Defined.

(** Raising the buffer size without reallocating: a session whose buffer
    size was set above its allocation (as [WsSession] does, 4096 against 1024)
    writes outside the allocation as soon as the socket delivers more octets
    than were allocated, although it delivers no more than it was asked for. *)
Theorem resized_session_overflows basic size unset garbage data :
  zlen (garbage basic) = basic -> basic < zlen data <= size ->
  recvMessage (setBufferSize size (Session_ctor basic unset garbage)) npos (RecvData data) = RM_overflow.
Proof.
  intros Hg Hd. unfold recvMessage, setBufferSize, Session_ctor.
  cbn [m_buffer m_buffer_end_pos m_buffer_size]. pose proof (zlen_nonneg data).
  rewrite (proj2 (Z.ltb_lt 0 size)) by (rewrite <- Hg in Hd; pose proof (zlen_nonneg (garbage basic)); lia).
  rewrite (proj2 (Z.ltb_lt _ _)) by lia. done.
Qed.

Lemma resized_session_overflows_witness :
  recvMessage (setBufferSize 4096 (Session_ctor 1024 0 (fun n => replicate (Z.to_nat n) 0))) npos
    (RecvData (replicate 1025 65)) = RM_overflow.
Proof.
  apply (resized_session_overflows 1024 4096 0 (fun n => replicate (Z.to_nat n) 0)); by vm_compute.
Defined.

(** A full buffer whose content was consumed only in part is never compacted:
    the socket is not read until everything unread is consumed. *)
Lemma full_buffer_not_read s length r :
  m_buffer_end_pos s = m_buffer_size s -> recvMessage s length r = recv_return s length.
Proof. intros E. unfold recvMessage. by rewrite E, Z.ltb_irrefl. Qed.
