(* ===== verification/WsSession.v ===== *)
(** * WebSocket sessions

    Models [WsSession] of [sylar/server/websocket/wsserver.hpp] and
    [wsserver.cc]: the connection state machine, receiving frames, closing and
    the heartbeat, and the frame routing [WsHandler::co_Route] of
    [wsserver.tpp].  Sending, where several coroutines interleave, is modelled in
    [WsSend].

    The peer is the list of answers its socket gives to [recv].  A coroutine
    that waits for an answer the list does not hold is blocked. *)

From S2P Require Import Prelude Endian CppString WsParser WsFrame Session.

Inductive State := INIT | OPEN | CLOSING | CLOSED.

#[global] Instance State_eq_dec : EqDecision State.
Proof. solve_decision. Defined.

Record WsSession := mk_wss {
  m_session : Session;                 (* the base class *)
  m_sessionId : Z;
  m_frame_buffer : FrameBuffer;
  m_state : State;
  m_timer_task : bool;                 (* a heartbeat timer is registered *)
  m_recent_activate : Z;
  m_recent_frame_time : Z;
}.

Definition with_state (st : State) (s : WsSession) : WsSession :=
  mk_wss (m_session s) (m_sessionId s) (m_frame_buffer s) st (m_timer_task s)
    (m_recent_activate s) (m_recent_frame_time s).
Definition with_io (se : Session) (fb : FrameBuffer) (s : WsSession) : WsSession :=
  mk_wss se (m_sessionId s) fb (m_state s) (m_timer_task s)
    (m_recent_activate s) (m_recent_frame_time s).
Definition with_timer (t : bool) (s : WsSession) : WsSession :=
  mk_wss (m_session s) (m_sessionId s) (m_frame_buffer s) (m_state s) t
    (m_recent_activate s) (m_recent_frame_time s).
Definition with_activate (t : Z) (s : WsSession) : WsSession :=
  mk_wss (m_session s) (m_sessionId s) (m_frame_buffer s) (m_state s) (m_timer_task s)
    t (m_recent_frame_time s).
Definition setRecentFrameTime (t : Z) (s : WsSession) : WsSession :=
  mk_wss (m_session s) (m_sessionId s) (m_frame_buffer s) (m_state s) (m_timer_task s)
    (m_recent_activate s) t.

(** The configuration values the sessions read. *)
Record ws_config := mk_ws_config {
  g_basic_buffer_size : Z;
  g_ws_buffer_size : Z;
  g_ws_pong_timeout : Z;               (* seconds, uint32_t *)
  g_ws_max_request_size : Z;
}.

(** [WsSession::WsSession]: the base constructor allocates the basic size, then
    the size is set to the WebSocket one. *)
Definition WsSession_ctor (cfg : ws_config) (garbage : Z -> list Z) (sessionId : Z) : WsSession :=
  mk_wss (setBufferSize (g_ws_buffer_size cfg) (Session_ctor (g_basic_buffer_size cfg) 0 garbage))
    sessionId FrameBuffer_init INIT false 0 0.

(** [init] at time [now]; [added] tells whether [addConditionTimer] succeeded. *)
Definition init (now : Z) (added : bool) (s : WsSession) : Z * WsSession :=
  let s := setRecentFrameTime now s in
  if added then (0, with_state OPEN (with_timer true s))
  else (-1, with_state CLOSED (with_timer false s)).

(** [clean]: the timer is cancelled. *)
Definition clean (s : WsSession) : WsSession := with_state CLOSED (with_timer false s).

Definition upDateSessionOnRecv (now : Z) (s : WsSession) : WsSession := with_activate now s.

(** ** The heartbeat timer *)

Inductive hb_step :=
  | HB_stop                            (* task->cancel(), co_return false *)
  | HB_ping (frame : Frame).           (* send the ping, then sleep *)

(** The condition up to the sleep. *)
Definition heartbeat_begin (now : Z) (s : WsSession) : hb_step :=
  if negb (bool_decide (m_state s = OPEN)) then HB_stop
  else HB_ping (setPingPayload (to_string now) (setOpcode WS_OP_PING Frame_default)).

(** The condition after the sleep: [(cancelled, result)].  The times are
    [uint64_t]; the timeout in milliseconds is computed in [uint32_t]. *)
Definition heartbeat_check (cfg : ws_config) (now : Z) (s : WsSession) : bool * bool :=
  if negb (bool_decide (m_state s = OPEN)) then (true, false)
  else
    let recent_pong := m_recent_frame_time s in
    if now <? recent_pong then (false, true)
    else if (recent_pong <? now)
            && (u32 (g_ws_pong_timeout cfg * 1000) <? u64 (u64 (now - recent_pong) - 100))
    then (false, false)
    else (false, true).

(** The timeout callback: what it does to the session, and whether it closes
    the socket. *)
Definition heartbeat_timeout (s : WsSession) : WsSession * bool :=
  if negb (bool_decide (m_state s = OPEN)) then (s, false)
  else (with_state CLOSED s, true).

(** ** [co_close] *)

(** The octets sent, if any, and the final state; the state is [CLOSING] while
    they are sent. *)
Definition co_close (code : Z) (reason : list Z) (socket_valid : bool) (s : WsSession)
    : option (list Z) * WsSession :=
  if bool_decide (m_state s = CLOSED) || bool_decide (m_state s = CLOSING) then (None, s)
  else if negb socket_valid then (None, with_state CLOSED s)
  else
    let f := setClosePayload (u16 code) reason (setOpcode WS_OP_CLOSE Frame_default) in
    (Some (make f None), with_state CLOSED (with_state CLOSING s)).

(** ** [co_recvFrame] *)

Inductive recvFrame_res :=
  | RF_ret (rc : Z) (s : WsSession) (peer : list recv_out)
  | RF_blocked (s : WsSession)            (* waits for the peer *)
  | RF_threw (s : WsSession)              (* the frame buffer's exception *)
  | RF_overflow                           (* the session wrote outside its buffer *)
  | RF_fuel.

Section RecvFrame.
Context (max_size : Z) (cfg : ws_config).

Fixpoint recv_loop (fuel : nat) (now total_length : Z) (s : WsSession) (peer : list recv_out)
    : recvFrame_res :=
  match fuel with
  | O => RF_fuel
  | S fuel =>
      let se := m_session s in
      let asks := m_buffer_end_pos se <? m_buffer_size se in
      match asks, peer with
      | true, [] => RF_blocked s
      | _, _ =>
          let peer' := if asks then tail peer else peer in
          match recvMessage se npos (default RecvClosed (head peer)) with
          | RM_overflow | RM_assert => RF_overflow
          | RM_ret rt at_ se =>
              let s := with_io se (m_frame_buffer s) s in
              if rt =? 0 then RF_ret 0 s peer'
              else if rt <? 0 then RF_ret (-1) s peer'
              else
                let total_length := total_length + rt in
                if g_ws_max_request_size cfg <? total_length then RF_ret (-1) s peer'
                else
                  match WsFrame.consume max_size (m_frame_buffer s) (handed_out se at_ rt) with
                  | consumed n fb =>
                      let s := with_io (Session.consume n se).2 fb s in
                      if 0 <? getFrameCount fb then RF_ret 1 (upDateSessionOnRecv now s) peer'
                      else recv_loop fuel now total_length s peer'
                  | consume_threw fb => RF_threw (with_io se fb s)
                  | consume_fuel => RF_fuel
                  end
          end
      end
  end.

(** Every pass receives at least one octet and the total is bounded by the
    maximal request size. *)
Definition co_recvFrame (now : Z) (s : WsSession) (peer : list recv_out) : recvFrame_res :=
  if negb (bool_decide (m_state s = OPEN)) then RF_ret (-1) s peer
  else if 0 <? getFrameCount (m_frame_buffer s) then RF_ret 1 s peer
  else recv_loop (S (S (Z.to_nat (g_ws_max_request_size cfg)))) now 0 s peer.

(** [WsSession::getFrame] *)
Definition ws_getFrame (s : WsSession) : option Frame * WsSession :=
  let (f, fb) := WsFrame.getFrame (m_frame_buffer s) in (f, with_io (m_session s) fb s).

End RecvFrame.

(** ** [WsHandler::co_Route] *)

(** The calls of the user's handler. *)
Inductive event :=
  | co_onMessage (msg : list Z)
  | co_onBinary (data : list Z)
  | co_onClose (code : Z) (reason : list Z)
  | co_onPing (msg : list Z)
  | co_onPong (msg : list Z)
  | co_onError (opcode : Z).

(** The call made for a frame. *)
Definition route_event (f : Frame) : event :=
  if getType f =? WS_OP_TEXT then co_onMessage (getTextPayload f)
  else if getType f =? WS_OP_BINARY then co_onBinary (getBinaryPayload f)
  else if getType f =? WS_OP_CLOSE then co_onClose (getCloseCode f) (getCloseReason f)
  else if getType f =? WS_OP_PING then co_onPing (getTextPayload f)
  else if getType f =? WS_OP_PONG then co_onPong (getTextPayload f)
  else co_onError (getType f).

(** A user handler: what a call does to the session and whether it throws. *)
Definition handler : Type := event -> WsSession -> WsSession * bool.

(** [co_Route]: the result is -1 for an unknown opcode, unless the handler
    throws, which is caught before the result is set. *)
Definition co_Route (T : handler) (now : Z) (s : WsSession) (frame : option Frame)
    : Z * option event * WsSession :=
  let s := setRecentFrameTime now s in
  match frame with
  | None => (-1, None, s)
  | Some f =>
      let e := route_event f in
      let (s, throws) := T e s in
      let rt := match e with co_onError _ => if throws then 0 else -1 | _ => 0 end in
      (rt, Some e, s)
  end.
