(* ===== verification/WsServer.v ===== *)
(** * The WebSocket server

    Models [WsServer] of [sylar/server/websocket/wsserver.hpp], [wsserver.cc] and
    [wsserver.tpp]: the session table with its id allocator, and [handleClient],
    which receives, routes and closes.  The server is written against the
    interface [IdAllocator]; the vector [m_sessions] holds the shared session
    objects, so the loop's changes to its session are changes of its entry. *)

From S2P Require Import Prelude CppString WsParser WsFrame Session WsSession IdAlloc.

Record WsServer (A : Type) := mk_server {
  m_sessionIdAllocator : A;
  m_sessions : list (option WsSession);
  m_session_mutexs : Z;                    (* number of session locks *)
  m_sessionCount : Z;                      (* uint32_t *)
}.
Arguments mk_server {A}.
Arguments m_sessionIdAllocator {A}.
Arguments m_sessions {A}.
Arguments m_session_mutexs {A}.
Arguments m_sessionCount {A}.

(** [WsServer::WsServer] with an allocator of [maxSession] chunks. *)
Definition WsServer_ctor {A} (ids : A) (maxSession : nat) : WsServer A :=
  mk_server ids (replicate (maxSession * 64) None) (Z.of_nat maxSession) 0.

Section Server.
Context {A : Type} {IA : IdAllocator A}.

Definition getSession (sv : WsServer A) (sessionId : Z) : option WsSession :=
  if (sessionId <? 0) || (zlen (m_sessions sv) <=? sessionId) then None
  else default None (m_sessions sv !! Z.to_nat sessionId).

(** The store behind a session pointer. *)
Definition put_session (sv : WsServer A) (sessionId : Z) (s : option WsSession) : WsServer A :=
  mk_server (m_sessionIdAllocator sv) (<[Z.to_nat sessionId := s]> (m_sessions sv))
    (m_session_mutexs sv) (m_sessionCount sv).

Definition set_ids (ids : A) (sv : WsServer A) : WsServer A :=
  mk_server ids (m_sessions sv) (m_session_mutexs sv) (m_sessionCount sv).

Definition set_count (n : Z) (sv : WsServer A) : WsServer A :=
  mk_server (m_sessionIdAllocator sv) (m_sessions sv) (m_session_mutexs sv) (u32 n).

Inductive create_res :=
  | CS_ok (sessionId : Z) (s : WsSession) (sv : WsServer A)
  | CS_fail (sv : WsServer A)          (* nullptr *)
  | CS_assert                          (* the id's entry is not free *)
  | CS_undefined.                      (* an index outside a vector *)

(** [createSession]; [added] tells whether the heartbeat timer was registered. *)
Definition createSession (cfg : ws_config) (garbage : Z -> list Z) (now : Z) (added : bool)
    (sv : WsServer A) : create_res :=
  match ia_alloc (m_sessionIdAllocator sv) with
  | None => CS_undefined
  | Some (sessionId, ids) =>
      let sv := set_ids ids sv in
      if sessionId <? 0 then CS_fail sv
      else
        match m_sessions sv !! Z.to_nat sessionId with
        | None => CS_undefined
        | Some (Some _) => CS_assert
        | Some None =>
            let (rc, s) := init now added (WsSession_ctor cfg garbage sessionId) in
            if negb (rc =? 0) then
              match ia_free sessionId ids with
              | Some (_, ids) => CS_fail (set_ids ids sv)
              | None => CS_undefined
              end
            else if m_session_mutexs sv <=? sessionId / 64 then CS_undefined
            else
              CS_ok sessionId s
                (set_count (m_sessionCount sv + 1) (put_session sv sessionId (Some s)))
        end
  end.

(** [removeSession]; the allocator's result is not looked at. *)
Definition removeSession (sessionId : Z) (sv : WsServer A) : option (Z * WsServer A) :=
  if (sessionId <? 0) || (zlen (m_sessions sv) <=? sessionId) then Some (-1, sv)
  else
    let sv := put_session sv sessionId None in
    match ia_free sessionId (m_sessionIdAllocator sv) with
    | None => None
    | Some (_, ids) => Some (0, set_count (m_sessionCount sv - 1) (set_ids ids sv))
    end.

(** [close]: 0 when the session exists (its socket is closed), -1 otherwise. *)
Definition close (sv : WsServer A) (sessionId : Z) : Z :=
  match getSession sv sessionId with None => -1 | Some _ => 0 end.

(** ** [handleClient] *)

Section Handle.
Context (max_size : Z) (cfg : ws_config) (T : handler) (socket_valid : bool).

(** How the receive loop ends: [nextId] with the session, the handler calls and
    the octets sent by [co_close]; or it waits; or an exception or an overflow
    ends it. *)
Inductive loop_res :=
  | HL_exit (nextId : Z) (s : WsSession) (peer : list recv_out) (log : list event) (sent : list (list Z))
  | HL_blocked (s : WsSession) (log : list event)
  | HL_threw (s : WsSession) (log : list event)
  | HL_overflow
  | HL_fuel.

(** The loop for a session [id]; [n] counts down from 1000.  [now] is the clock. *)
Fixpoint handle_loop (n : nat) (now : nat -> Z) (id : Z) (s : WsSession) (peer : list recv_out)
    (log : list event) : loop_res :=
  match n with
  | O => HL_exit id s peer log []
  | S n =>
      if bool_decide (m_state s = CLOSED) then HL_exit id s peer log []
      else
        match co_recvFrame max_size cfg (now n) s peer with
        | RF_blocked s => HL_blocked s log
        | RF_threw s => HL_threw s log
        | RF_overflow => HL_overflow
        | RF_fuel => HL_fuel
        | RF_ret rt s peer =>
            if (rt =? 0) || (rt =? -1) || (rt =? -2) then HL_exit (-1) s peer log []
            else
              match ws_getFrame s with
              | (None, s) =>
                  let (o, s) := co_close 1000 (str "Normal Closure") socket_valid s in
                  HL_exit (-1) s peer log (option_list o)
              | (Some f, s) =>
                  let '(state, e, s) := co_Route T (now n) s (Some f) in
                  let log := log ++ option_list e in
                  if getType f =? WS_OP_CLOSE then
                    let (o, s) := co_close (getCloseCode f) (getCloseReason f) socket_valid s in
                    HL_exit (-1) s peer log (option_list o)
                  else if truthy state then
                    let (o, s) := co_close 1002 (str "Protocol Error") socket_valid s in
                    HL_exit id s peer log (option_list o)
                  else handle_loop n now id s peer log
              end
        end
  end.

Inductive client_res :=
  | HC_ret (nextId : Z) (sv : WsServer A) (peer : list recv_out) (log : list event)
      (sent : list (list Z)) (bad_close : bool)
  | HC_blocked (sv : WsServer A) (log : list event)
  | HC_threw (log : list event)
  | HC_undefined.

(** From the end of the loop to [co_return]. *)
Definition finish_client (id nextId : Z) (s : WsSession) (sv : WsServer A)
    (peer : list recv_out) (log : list event) (sent : list (list Z)) : client_res :=
  if (nextId =? -1) || bool_decide (m_state s = CLOSED) then
    let '(s, bad) :=
      if negb (bool_decide (m_state s = CLOSED)) then (clean s, true)
      else ((co_close 1000 (str "Normal Closure") socket_valid s).2, false) in
    match removeSession id (put_session sv id (Some s)) with
    | Some (_, sv) => HC_ret (-1) sv peer log sent bad
    | None => HC_undefined
    end
  else HC_ret nextId (put_session sv id (Some s)) peer log sent false.

Definition run_client (now : nat -> Z) (id : Z) (s : WsSession) (sv : WsServer A)
    (peer : list recv_out) : client_res :=
  match handle_loop 1000 now id s peer [] with
  | HL_exit nextId s peer log sent => finish_client id nextId s sv peer log sent
  | HL_blocked s log => HC_blocked (put_session sv id (Some s)) log
  | HL_threw _ log => HC_threw log
  | HL_overflow | HL_fuel => HC_undefined
  end.

(** [handleClient]: a negative [sessionId] creates a session; [onOpen] is the
    effect of [co_onOpen] on it. *)
Definition handleClient (garbage : Z -> list Z) (added : bool) (onOpen : WsSession -> WsSession)
    (now : nat -> Z) (sessionId : Z) (sv : WsServer A) (peer : list recv_out) : client_res :=
  if sessionId <? 0 then
    match createSession cfg garbage (now 1000%nat) added sv with
    | CS_ok id s sv => run_client now id (onOpen s) sv peer
    | CS_fail sv => HC_ret (-1) sv peer [] [] false
    | CS_assert | CS_undefined => HC_undefined
    end
  else
    match getSession sv sessionId with
    | None => HC_ret (-1) sv peer [] [] false
    | Some s => run_client now sessionId s sv peer
    end.

End Handle.
End Server.
Arguments create_res : clear implicits.
Arguments client_res : clear implicits.
