(* ===== verification/WsServerProps.v ===== *)
(** * Properties of the WebSocket server

    Receiving follows the abstract decoder, the handler is called for exactly
    the frames of the stream, the session table and the id allocator agree, the
    heartbeat. *)

From S2P Require Import Prelude CppString WsParser WsFrame WsSpec WsRefine WsProps Session WsSession IdAlloc WsServer.

(** ** Receiving *)

Section Receive.
Context (max_size : Z) (max_size_range : 0 <= max_size < 2 ^ 63) (cfg : ws_config).

(** A session between two frames: its buffer is sound and drained, its frame
    buffer is in the state of the decoder. *)
Record ws_rel (s : WsSession) (d : decoder) : Prop := mk_ws_rel {
  wr_session : session_in (m_session s);
  wr_drained : drained (m_session s);
  wr_size : 0 < capacity (m_session s);
  wr_state : m_state s = OPEN;
  wr_frames : fb_rel max_size (m_frame_buffer s) d;
}.

(** A read the socket can answer: not empty and no longer than [size]. *)
Definition read_ok (size : Z) (data : list Z) : Prop := bytes_ok data /\ 0 < zlen data <= size.
#[global] Instance read_ok_dec size data : Decision (read_ok size data).
Proof. unfold read_ok. apply _. Defined.

(** What a call of [co_recvFrame] waits for, in terms of the decoder. *)
Inductive spec_recv_res :=
  | SR_got (d : decoder) (reads : list (list Z))
  | SR_blocked (d : decoder)
  | SR_threw.

Fixpoint spec_recv (d : decoder) (reads : list (list Z)) : spec_recv_res :=
  match reads with
  | [] => SR_blocked d
  | r :: reads =>
      match decode max_size d r with
      | None => SR_threw
      | Some d => match d_frames d with [] => spec_recv d reads | _ => SR_got d reads end
      end
  end.

(** The frames of a decoder taken away. *)
Definition clear (d : decoder) : decoder := mk_decoder (d_state d) (d_key d) [].

Lemma clear_same d : d_frames d = [] -> clear d = d.
Proof. destruct d. cbn. by intros ->. Qed.

(** The limit of [co_recvFrame]: the octets received from one read that completes a frame
    to the next stay within [g_ws_max_request_size]; [total] were received so far. *)
Fixpoint recv_within (d : decoder) (total : Z) (reads : list (list Z)) : bool :=
  match reads with
  | [] => true
  | r :: reads =>
      (total + zlen r <=? g_ws_max_request_size cfg) &&
      match decode max_size d r with
      | None => true
      | Some d' => match d_frames d' with [] => recv_within d' (total + zlen r) reads | _ => recv_within (clear d') 0 reads end
      end
  end.

Lemma recv_loop_good reads : forall fuel now total s d,
  ws_rel s d -> d_frames d = [] ->
  Forall (read_ok (capacity (m_session s))) reads -> recv_within d total reads = true ->
  0 <= total <= g_ws_max_request_size cfg -> (Z.to_nat (g_ws_max_request_size cfg - total) < fuel)%nat ->
  let peer rs := map RecvData rs in
  match spec_recv d reads with
  | SR_got d' rest => exists s', recv_loop max_size cfg fuel now total s (peer reads) =
      RF_ret 1 s' (peer rest) /\ ws_rel s' d' /\ capacity (m_session s') = capacity (m_session s) /\ recv_within (clear d') 0 rest = true
  | SR_blocked d' => exists s', recv_loop max_size cfg fuel now total s (peer reads) = RF_blocked s' /\
      ws_rel s' d'
  | SR_threw => exists s', recv_loop max_size cfg fuel now total s (peer reads) = RF_threw s'
  end.
Proof.
  induction reads as [|r reads IH]; intros [|fuel] now total s d Hrel Hnf Hreads Hw Htot Hfuel; try lia;
    cbn zeta; destruct (wr_drained s d Hrel) as [Hb He]; pose proof (wr_size s d Hrel) as Hsz;
    cbn [map recv_loop spec_recv recv_within] in *; rewrite He, (proj2 (Z.ltb_lt 0 _)) by (unfold capacity in Hsz; lia); [by exists s|].
  inversion_clear Hreads as [|? ? [Hok Hr] Hreads']. apply andb_true_iff in Hw as [Hmax Hw]. bool_to_prop.
  destruct (drained_recv (m_session s) r) as (se' & Hrecv & Hout & Hse & Hdr & Hsize);
    [apply Hrel|apply Hrel|done|].
  cbn [head default from_option id tail]. rewrite Hrecv.
  rewrite (proj2 (Z.eqb_neq _ _)), (proj2 (Z.ltb_ge (zlen r) 0)), (proj2 (Z.ltb_ge _ (total + _)))
    by lia.
  cbn [with_io m_frame_buffer]. rewrite Hout.
  pose proof (consume_good max_size max_size_range (m_frame_buffer s) d r (wr_frames s d Hrel) Hok) as Hc.
  destruct (decode max_size d r) as [d'|].
  2:{ destruct Hc as [fb ->]. by eexists. }
  destruct Hc as (fb & -> & Hfb). unfold getFrameCount. rewrite (proj2 Hfb).
  assert (Hrel' : ws_rel (with_io (Session.consume (zlen r) se').2 fb (with_io se' (m_frame_buffer s) s)) d').
  { destruct Hrel. split; cbn [m_session with_io]; [done|done| |done|done]. by rewrite Hsize. }
  destruct (d_frames d') as [|f fs] eqn:Efr.
  - change (0 <? zlen []) with false. cbn match.
    specialize (IH fuel now (total + zlen r) _ d' Hrel' Efr). cbn [m_session with_io] in IH.
    rewrite Hsize in IH. apply IH; [done|done|lia|lia].
  - rewrite (proj2 (Z.ltb_lt 0 (zlen (f :: fs)))) by (zlen_simpl; pose proof (zlen_nonneg fs); lia).
    eexists. split; [done|]. split; [|done]. by destruct Hrel'.
Qed.

Lemma spec_recv_spec reads : forall d dF,
  d_frames d = [] -> decode max_size d (concat reads) = Some dF ->
  match spec_recv d reads with
  | SR_got d' rest => decode max_size d' (concat rest) = Some dF /\ d_frames d' <> [] /\
      exists pre, reads = pre ++ rest
  | SR_blocked d' => d' = dF /\ d_frames dF = []
  | SR_threw => False
  end.
Proof.
  induction reads as [|r reads IH]; intros d dF Hnf Hd; cbn [spec_recv concat] in *.
  - by injection Hd as ->.
  - rewrite decode_app in Hd. destruct (decode max_size d r) as [d'|]; [|done].
    destruct (d_frames d') as [|f fs] eqn:E.
    + specialize (IH d' dF E Hd). destruct (spec_recv d' reads); try done.
      destruct IH as (? & ? & pre & ->). split_and!; [done..|]. by exists (r :: pre).
    + split_and!; [done|by rewrite E|by exists [r]].
Qed.

(** Delivered frames stay in front. *)
Lemma decode_pop d f fs input dF :
  d_frames d = f :: fs -> decode max_size d input = Some dF ->
  exists dF', decode max_size (mk_decoder (d_state d) (d_key d) fs) input = Some dF' /\
    d_frames dF = f :: d_frames dF'.
Proof.
  intros Hf Hd. set (d1 := mk_decoder (d_state d) (d_key d) fs).
  assert (E : d = with_prefix [f] d1) by (destruct d; cbn in *; by subst).
  rewrite E, decode_prefix in Hd. destruct (decode max_size d1 input) as [dF'|]; [|done].
  injection Hd as <-. by exists dF'.
Qed.

Lemma ws_getFrame_rel s d f fs :
  ws_rel s d -> d_frames d = f :: fs ->
  exists s', ws_getFrame s = (Some f, s') /\ ws_rel s' (mk_decoder (d_state d) (d_key d) fs) /\
    m_session s' = m_session s.
Proof.
  intros Hrel Hf. destruct Hrel as [Hs Hd Hz Ho Hfr].
  destruct (WsFrame.getFrame (m_frame_buffer s)) as [o fb'] eqn:E.
  assert (o = Some f) as ->.
  { unfold getFrame in E. rewrite (proj2 Hfr), Hf in E. by injection E as <- _. }
  destruct (fb_rel_getFrame max_size _ _ _ _ Hfr E) as (fs' & Hf' & Hrel').
  rewrite Hf in Hf'. injection Hf' as <-.
  unfold ws_getFrame. rewrite E. eexists. split; [done|]. split; [|done]. by split.
Qed.

(** The next frame of the stream, or the wait for more octets. *)
Lemma recv_next now reads s d dF :
  0 <= g_ws_max_request_size cfg ->
  ws_rel s d -> Forall (read_ok (capacity (m_session s))) reads -> recv_within (clear d) 0 reads = true ->
  decode max_size d (concat reads) = Some dF ->
  match d_frames dF with
  | [] => exists s', co_recvFrame max_size cfg now s (map RecvData reads) = RF_blocked s'
  | f :: F => exists s1 s2 pre rest d2 dF2,
      co_recvFrame max_size cfg now s (map RecvData reads) = RF_ret 1 s1 (map RecvData rest) /\
      ws_getFrame s1 = (Some f, s2) /\ ws_rel s2 d2 /\ reads = pre ++ rest /\
      capacity (m_session s2) = capacity (m_session s) /\ recv_within (clear d2) 0 rest = true /\
      decode max_size d2 (concat rest) = Some dF2 /\ d_frames dF2 = F
  end.
Proof.
  intros Hm Hrel Hreads Hw Hd. unfold co_recvFrame.
  rewrite (wr_state s d Hrel), bool_decide_eq_true_2 by done. cbn [negb].
  unfold getFrameCount. rewrite (proj2 (wr_frames s d Hrel)).
  destruct (d_frames d) as [|f fs] eqn:Ef.
  - change (0 <? zlen []) with false. cbn match. rewrite (clear_same d Ef) in Hw.
    pose proof (recv_loop_good reads (S (S (Z.to_nat (g_ws_max_request_size cfg)))) now 0 s d Hrel Ef
      Hreads Hw ltac:(lia) ltac:(lia)) as Hl. cbn zeta in Hl.
    pose proof (spec_recv_spec reads d dF Ef Hd) as Hs.
    destruct (spec_recv d reads) as [d' rest|d'|]; [|destruct Hs as [-> ->], Hl as (s' & -> & _); by exists s'|done].
    destruct Hs as (Hd' & Hne & pre & ->), Hl as (s1 & -> & Hrel1 & Hsz & Hw1).
    destruct (d_frames d') as [|f fs] eqn:Ef'; [done|].
    destruct (decode_pop d' f fs _ dF Ef' Hd') as (dF2 & HdF2 & ->).
    destruct (ws_getFrame_rel s1 d' f fs Hrel1 Ef') as (s2 & Hg & Hrel2 & Hse).
    eexists s1, s2, pre, rest, _, dF2. split_and!; try done. congruence.
  - rewrite (proj2 (Z.ltb_lt 0 (zlen (f :: fs)))) by (zlen_simpl; pose proof (zlen_nonneg fs); lia).
    destruct (decode_pop d f fs _ dF Ef Hd) as (dF2 & HdF2 & ->).
    destruct (ws_getFrame_rel s d f fs Hrel Ef) as (s2 & Hg & Hrel2 & Hse).
    eexists s, s2, [], reads, _, dF2. split_and!; try done. congruence.
Qed.

(** ** Routing *)

(** An event for a frame with an unknown opcode. *)
Definition is_error (e : event) : bool := match e with co_onError _ => true | _ => false end.

(** A handler that leaves the receiving side and the state of the session alone, and does
    not throw on an unknown opcode. *)
Definition quiet (T : handler) : Prop := forall e s,
  let s' := (T e s).1 in
  m_session s' = m_session s /\ m_frame_buffer s' = m_frame_buffer s /\ m_state s' = m_state s /\
  (is_error e = true -> (T e s).2 = false).

(** [co_onOpen] leaves them alone too. *)
Definition opens (onOpen : WsSession -> WsSession) : Prop := forall s,
  m_session (onOpen s) = m_session s /\ m_frame_buffer (onOpen s) = m_frame_buffer s /\ m_state (onOpen s) = m_state s.

Inductive loop_end := E_wait | E_loop | E_close (f : Frame) | E_protocol.

(** The handler calls for a list of frames and how the loop ends, after at most
    [n] frames. *)
Fixpoint spec_handle (n : nat) (F : list Frame) : list event * loop_end :=
  match n, F with
  | O, _ => ([], E_loop)
  | S _, [] => ([], E_wait)
  | S n, f :: F =>
      if getType f =? WS_OP_CLOSE then ([route_event f], E_close f)
      else if is_error (route_event f) then ([route_event f], E_protocol)
      else let (evs, e) := spec_handle n F in (route_event f :: evs, e)
  end.

Lemma route_quiet T now s d f :
  quiet T -> ws_rel s d ->
  exists s', co_Route T now s (Some f) =
    (if is_error (route_event f) then -1 else 0, Some (route_event f), s') /\ ws_rel s' d /\
    m_session s' = m_session s.
Proof.
  intros HT [Hs Hd Hz Ho Hfr]. unfold co_Route.
  destruct (HT (route_event f) (setRecentFrameTime now s)) as (E1 & E2 & E3 & E4).
  destruct (T (route_event f) (setRecentFrameTime now s)) as [s' throws].
  cbn [fst snd] in *. exists s'. split; [destruct (route_event f); try done; by rewrite E4|].
  split; [|done]. split; rewrite ?E1, ?E2, ?E3; done.
Qed.

(** The close frame [co_close] sends. *)
Definition close_bytes (code : Z) (reason : list Z) : list Z :=
  make (setClosePayload (u16 code) reason (setOpcode WS_OP_CLOSE Frame_default)) None.

Definition sent_close (valid : bool) (code : Z) (reason : list Z) : list (list Z) :=
  if valid then [close_bytes code reason] else [].

Lemma co_close_open code reason valid s :
  m_state s = OPEN ->
  exists o s', co_close code reason valid s = (o, s') /\
    option_list o = sent_close valid code reason /\ m_state s' = CLOSED.
Proof.
  intros Ho. unfold co_close. rewrite Ho. cbn [orb bool_decide].
  rewrite !bool_decide_eq_false_2 by done. by destruct valid; cbn; eexists _, _.
Qed.

Context (T : handler) (HT : quiet T) (valid : bool).

(** The reads [reads] bring session [s] to the decoder [dF]. *)
Record pending (s : WsSession) (d : decoder) (reads : list (list Z)) (dF : decoder) : Prop := mk_pending {
  pe_rel : ws_rel s d;
  pe_reads : Forall (read_ok (capacity (m_session s))) reads;
  pe_within : recv_within (clear d) 0 reads = true;
  pe_max : 0 <= g_ws_max_request_size cfg;
  pe_decode : decode max_size d (concat reads) = Some dF;
}.

Lemma handle_loop_good n : forall now id s d reads dF log,
  pending s d reads dF ->
  let run := handle_loop max_size cfg T valid n now id s (map RecvData reads) log in
  let '(evs, e) := spec_handle n (d_frames dF) in
  match e with
  | E_wait => exists s', run = HL_blocked s' (log ++ evs)
  | E_loop => exists s' rest d' dF', run = HL_exit id s' (map RecvData rest) (log ++ evs) [] /\
      pending s' d' rest dF' /\ d_frames dF' = drop n (d_frames dF)
  | E_close f => exists s' rest, run = HL_exit (-1) s' (map RecvData rest) (log ++ evs)
      (sent_close valid (getCloseCode f) (getCloseReason f)) /\ m_state s' = CLOSED
  | E_protocol => exists s' rest, run = HL_exit id s' (map RecvData rest) (log ++ evs)
      (sent_close valid 1002 (str "Protocol Error")) /\ m_state s' = CLOSED
  end.
Proof.
  induction n as [|n IH]; intros now id s d reads dF log [Hrel Hreads Hw Hm Hd]; cbn zeta.
  { cbn. exists s, reads, d, dF. by rewrite app_nil_r. }
  cbn [handle_loop]. rewrite (wr_state s d Hrel), bool_decide_eq_false_2 by done.
  pose proof (recv_next (now n) reads s d dF Hm Hrel Hreads Hw Hd) as Hn.
  destruct (d_frames dF) as [|f F]; cbn [spec_handle].
  { destruct Hn as [s' ->]. exists s'. by rewrite app_nil_r. }
  destruct Hn as (s1 & s2 & pre & rest & d2 & dF2 & -> & -> & Hrel2 & -> & Hsz & Hw2 & Hd2 & <-).
  cbn [Z.eqb orb]. apply Forall_app in Hreads as [_ Hreads].
  destruct (route_quiet T (now n) s2 d2 f HT Hrel2) as (s3 & -> & Hrel3 & Hse).
  cbn [option_list]. destruct (getType f =? WS_OP_CLOSE).
  { destruct (co_close_open (getCloseCode f) (getCloseReason f) valid s3 (wr_state _ _ Hrel3))
      as (o & s4 & -> & -> & Hc). by exists s4, rest. }
  destruct (is_error (route_event f)).
  { change (truthy (-1)) with true. cbn match.
    destruct (co_close_open 1002 (str "Protocol Error") valid s3 (wr_state _ _ Hrel3))
      as (o & s4 & -> & -> & Hc). by exists s4, rest. }
  change (truthy 0) with false. cbn match.
  assert (Hp3 : pending s3 d2 rest dF2) by (split; [done|by rewrite Hse, Hsz|done..]).
  specialize (IH now id s3 d2 rest dF2 (log ++ [route_event f]) Hp3). cbn zeta in IH.
  destruct (spec_handle n (d_frames dF2)) as [evs e]. rewrite <- app_assoc in IH. exact IH.
Qed.
End Receive.

(** ** The session table *)

Section Table.
Context {A : Type} {IA : IdAllocator A}.

Definition live_sessions (l : list (option WsSession)) : Z :=
  zlen (List.filter (fun o => match o with Some _ => true | None => false end) l).

(** The table, the allocator and the counter agree. *)
Record server_inv (sv : WsServer A) : Prop := mk_server_inv {
  si_ids : ia_inv (m_sessionIdAllocator sv);
  si_live : forall id, ia_live (m_sessionIdAllocator sv) id = true <-> is_Some (getSession sv id);
  si_mutex : zlen (m_sessions sv) <= 64 * m_session_mutexs sv;
  si_count : m_sessionCount sv = live_sessions (m_sessions sv);
  si_small : zlen (m_sessions sv) < 2 ^ 31;
}.

Lemma live_sessions_insert l k o o' :
  l !! k = Some o ->
  live_sessions (<[k := o']> l) =
  live_sessions l - (match o with Some _ => 1 | None => 0 end)
    + (match o' with Some _ => 1 | None => 0 end).
Proof.
  intros Hk. apply list_elem_of_split_length in Hk as (l1 & l2 & -> & ->).
  rewrite insert_app_r_alt, Nat.sub_diag by lia. cbn [insert list_insert].
  unfold live_sessions. rewrite !List.filter_app. cbn [List.filter].
  destruct o, o'; zlen_simpl; lia.
Qed.

Lemma live_sessions_bound l : 0 <= live_sessions l <= zlen l.
Proof.
  unfold live_sessions. split; [apply zlen_nonneg|]. unfold zlen.
  pose proof (List.filter_length_le (fun o : option WsSession => match o with Some _ => true | None => false end) l). lia.
Qed.

Lemma getSession_lookup (sv : WsServer A) id :
  0 <= id < zlen (m_sessions sv) ->
  exists o, m_sessions sv !! Z.to_nat id = Some o /\ getSession sv id = o.
Proof.
  intros Hid. destruct (lookup_lt_is_Some_2 (m_sessions sv) (Z.to_nat id)) as [o Ho];
    [unfold zlen in *; lia|]. exists o. split; [done|].
  unfold getSession. rewrite (proj2 (Z.ltb_ge id 0)), (proj2 (Z.leb_gt _ id)), Ho by lia. done.
Qed.

Lemma getSession_range (sv : WsServer A) id : is_Some (getSession sv id) -> 0 <= id < zlen (m_sessions sv).
Proof.
  unfold getSession. destruct ((id <? 0) || _) eqn:E; [by intros [? ?]|].
  intros _. bool_to_prop. lia.
Qed.

Lemma zlen_put (sv : WsServer A) id s : zlen (m_sessions (put_session sv id s)) = zlen (m_sessions sv).
Proof. unfold zlen, put_session. cbn [m_sessions]. by rewrite length_insert. Qed.

(** Storing into one entry changes the view of that entry only. *)
Lemma getSession_put (sv : WsServer A) id s j :
  0 <= id < zlen (m_sessions sv) ->
  getSession (put_session sv id s) j = if decide (j = id) then s else getSession sv j.
Proof.
  intros Hid. unfold getSession. rewrite zlen_put.
  destruct (_ || _) eqn:E; bool_to_prop.
  - case_decide as Hj; [|done]. subst j.
    rewrite (proj2 (Z.ltb_ge id 0)), (proj2 (Z.leb_gt _ id)) in E by lia. done.
  - unfold put_session. cbn [m_sessions]. case_decide as Hj.
    + subst. rewrite list_lookup_insert_eq by (unfold zlen in *; lia). done.
    + rewrite list_lookup_insert_ne by lia. done.
Qed.

(** Replacing a session by a session keeps the invariant. *)
Lemma put_session_inv (sv : WsServer A) id s s' :
  server_inv sv -> getSession sv id = Some s -> server_inv (put_session sv id (Some s')).
Proof.
  intros [Hi Hl Hm Hc Hs] Hg. pose proof (getSession_range sv id ltac:(by rewrite Hg)) as Hr.
  destruct (getSession_lookup sv id Hr) as (o & Ho & Ho'). rewrite Hg in Ho'. subst o.
  split; rewrite ?zlen_put; try done.
  - intros j. rewrite getSession_put by done. case_decide as E; [|apply Hl].
    subst j. split; [by eexists|]. intros _. apply Hl. by rewrite Hg.
  - unfold put_session. cbn [m_sessions m_sessionCount]. rewrite (live_sessions_insert _ _ _ _ Ho), Hc. lia.
Qed.

(** The server with session [s] entered under [id]. *)
Definition entered (sv : WsServer A) (id : Z) (ids : A) (s : WsSession) : WsServer A :=
  set_count (m_sessionCount sv + 1) (put_session (set_ids ids sv) id (Some s)).

Lemma getSession_entered (sv : WsServer A) id ids s j :
  0 <= id < zlen (m_sessions sv) ->
  getSession (entered sv id ids s) j = if decide (j = id) then Some s else getSession sv j.
Proof. intros Hid. exact (getSession_put (set_ids ids sv) id (Some s) j Hid). Qed.

Lemma entered_inv (sv : WsServer A) id ids s :
  server_inv sv -> 0 <= id < zlen (m_sessions sv) -> getSession sv id = None -> ia_inv ids ->
  (forall i, ia_live ids i = (bool_decide (i = id) || ia_live (m_sessionIdAllocator sv) i)) ->
  server_inv (entered sv id ids s).
Proof.
  intros [Hi Hl Hm Hc Hsm] Hid Hg Hi' Hlive.
  destruct (getSession_lookup sv id Hid) as (o & Ho & Ho'). rewrite Hg in Ho'. subst o.
  assert (Hlen : zlen (m_sessions (entered sv id ids s)) = zlen (m_sessions sv))
    by (unfold zlen; cbn; by rewrite length_insert).
  pose proof (live_sessions_bound (m_sessions (entered sv id ids s))) as Hb.
  split; rewrite ?Hlen; try done.
  - intros j. rewrite getSession_entered by done. cbn [entered set_count put_session set_ids m_sessionIdAllocator].
    rewrite Hlive. case_decide as E; [subst; by rewrite bool_decide_eq_true_2|].
    rewrite bool_decide_eq_false_2 by done. apply Hl.
  - rewrite Hlen in Hb. revert Hb. cbn [entered set_count put_session set_ids m_sessionCount m_sessions].
    rewrite (live_sessions_insert _ _ _ _ Ho). intros Hb. rewrite wrap_small; lia.
Qed.

Lemma createSession_good cfg garbage now (sv : WsServer A) :
  server_inv sv -> ia_room (m_sessionIdAllocator sv) ->
  (exists id, 0 <= id < zlen (m_sessions sv) /\ getSession sv id = None) ->
  exists id sv',
    createSession cfg garbage now true sv =
      CS_ok id (init now true (WsSession_ctor cfg garbage id)).2 sv' /\
    server_inv sv' /\ 0 <= id < zlen (m_sessions sv) /\ getSession sv id = None /\
    forall j, getSession sv' j =
      if decide (j = id) then Some (init now true (WsSession_ctor cfg garbage id)).2 else getSession sv j.
Proof.
  intros Hinv Hroom (id0 & Hid0 & Hfree). destruct Hinv as [Hi Hl Hm Hc Hsm] eqn:EI. clear EI.
  destruct (ia_alloc_ok _ Hi Hroom) as (id & ids & Ha & Hi' & Hn & Hpos & Hleast & Hlive).
  assert (Hid : 0 <= id < zlen (m_sessions sv)).
  { split; [done|]. destruct (decide (id <= id0)); [lia|]. exfalso.
    assert (ia_live (m_sessionIdAllocator sv) id0 = true) as E by (apply Hleast; lia).
    apply Hl in E. rewrite Hfree in E. by destruct E. }
  assert (Hg : getSession sv id = None).
  { destruct (getSession sv id) eqn:E; [|done].
    assert (ia_live (m_sessionIdAllocator sv) id = true) by (apply Hl; by rewrite E). congruence. }
  destruct (getSession_lookup sv id Hid) as (o & Ho & Ho'). rewrite Hg in Ho'. subst o.
  set (s := (init now true (WsSession_ctor cfg garbage id)).2).
  exists id, (entered sv id ids s). split_and!; try done; try lia.
  - unfold createSession. rewrite Ha. cbn [set_ids m_sessions].
    rewrite (proj2 (Z.ltb_ge id 0)), Ho by lia. cbn [init Z.eqb negb m_session_mutexs set_ids].
    rewrite (proj2 (Z.leb_gt _ _)) by (Z.to_euclidean_division_equations; lia). done.
  - by apply entered_inv.
  - intros j. by apply getSession_entered.
Qed.

Lemma removeSession_good (sv : WsServer A) id s :
  server_inv sv -> getSession sv id = Some s ->
  exists sv', removeSession id sv = Some (0, sv') /\ server_inv sv' /\
    forall j, getSession sv' j = if decide (j = id) then None else getSession sv j.
Proof.
  intros [Hi Hl Hm Hc Hsm] Hg. pose proof (getSession_range sv id ltac:(by rewrite Hg)) as Hr.
  destruct (getSession_lookup sv id Hr) as (o & Ho & Ho'). rewrite Hg in Ho'. subst o.
  assert (Hlv : ia_live (m_sessionIdAllocator sv) id = true) by (apply Hl; by rewrite Hg).
  destruct (ia_free_ok _ id Hi Hlv) as (ids & Hf & Hi' & Hlive).
  set (sv' := set_count (m_sessionCount sv - 1) (set_ids ids (put_session sv id None))).
  assert (Hget : forall j, getSession sv' j = if decide (j = id) then None else getSession sv j).
  { intros j. exact (getSession_put sv id None j Hr). }
  assert (Hlen : zlen (m_sessions sv') = zlen (m_sessions sv))
    by (unfold zlen; cbn; by rewrite length_insert).
  exists sv'. split_and!; try done.
  - unfold removeSession. rewrite (proj2 (Z.ltb_ge id 0)), (proj2 (Z.leb_gt _ id)) by lia.
    cbn [orb put_session m_sessionIdAllocator]. by rewrite Hf.
  - pose proof (live_sessions_bound (m_sessions sv')) as Hb. split; rewrite ?Hlen; try done.
    + intros j. rewrite Hget. cbn [sv' set_count put_session set_ids m_sessionIdAllocator].
      rewrite Hlive. case_decide as E; [subst; rewrite bool_decide_eq_true_2 by done; split; [done|by intros [? ?]]|].
      rewrite bool_decide_eq_false_2 by done. apply Hl.
    + rewrite Hlen in Hb. revert Hb. unfold sv'. cbn [set_count put_session set_ids m_sessionCount m_sessions].
      rewrite (live_sessions_insert _ _ _ _ Ho). intros Hb. rewrite wrap_small; lia.
Qed.

Lemma WsServer_ctor_inv (ids : A) n :
  ia_inv ids -> (forall id, ia_live ids id = false) -> 64 * Z.of_nat n < 2 ^ 31 ->
  server_inv (WsServer_ctor ids n).
Proof.
  intros Hi Hl Hn.
  assert (Hz : zlen (m_sessions (WsServer_ctor ids n)) = 64 * Z.of_nat n)
    by (unfold zlen; cbn [m_sessions WsServer_ctor]; rewrite length_replicate; lia).
  assert (Hno : forall id, getSession (WsServer_ctor ids n) id = None).
  { intros id. unfold getSession. case_bool; [done|]. cbn [m_sessions WsServer_ctor].
    destruct (replicate _ _ !! _) as [o|] eqn:Eo; [|done]. by apply lookup_replicate in Eo as [-> _]. }
  split; rewrite ?Hz; try done.
  - intros id. rewrite Hno. cbn [m_sessionIdAllocator WsServer_ctor]. rewrite Hl. split; [done|by intros [? ?]].
  - cbn [m_sessions m_sessionCount WsServer_ctor]. generalize (n * 64)%nat as k.
    induction k as [|k IH]; [done|]. exact IH.
Qed.

Lemma finish_closed valid (sv : WsServer A) id nextId s s0 peer log sent :
  server_inv sv -> getSession sv id = Some s0 -> m_state s = CLOSED ->
  exists sv', finish_client valid id nextId s sv peer log sent = HC_ret (-1) sv' peer log sent false /\
    server_inv sv' /\ forall j, getSession sv' j = if decide (j = id) then None else getSession sv j.
Proof.
  intros Hinv Hg Hc. unfold finish_client. rewrite Hc, orb_true_r. cbn [bool_decide].
  rewrite bool_decide_eq_true_2 by done. cbn [negb].
  set (s1 := (co_close _ _ _ s).2).
  pose proof (getSession_range sv id ltac:(by rewrite Hg)) as Hr.
  destruct (removeSession_good (put_session sv id (Some s1)) id s1) as (sv' & -> & Hi & Hget).
  - by apply (put_session_inv sv id s0).
  - rewrite getSession_put by done. by rewrite decide_True.
  - exists sv'. split_and!; try done. intros j. rewrite Hget, getSession_put by done. by case_decide.
Qed.

Lemma fresh_session_rel max_size cfg garbage now onOpen id :
  opens onOpen -> 0 < g_ws_buffer_size cfg < 2 ^ 31 -> 0 < zlen (garbage (g_basic_buffer_size cfg)) ->
  let s := onOpen (init now true (WsSession_ctor cfg garbage id)).2 in
  ws_rel max_size s decoder_init /\
  capacity (m_session s) = Z.min (g_ws_buffer_size cfg) (zlen (garbage (g_basic_buffer_size cfg))).
Proof.
  intros Ho Hs Ha. destruct (Ho (init now true (WsSession_ctor cfg garbage id)).2) as (E1 & E2 & E3). cbn zeta. split.
  - split; rewrite ?E1, ?E2, ?E3; cbn [init snd with_state with_timer setRecentFrameTime m_session m_state m_frame_buffer];
      try done; [split; unfold capacity; cbn; lia|unfold capacity; cbn; lia|apply fb_rel_init].
  - by rewrite E1.
Qed.

(** One call of [handleClient] for a session of the table. *)
Lemma run_client_good max_size cfg T valid now sv1 id s0 s d reads dF (Hmax : 0 <= max_size < 2 ^ 63) (HT : quiet T) :
  server_inv sv1 -> getSession sv1 id = Some s0 -> pending max_size cfg s d reads dF ->
  let run := run_client max_size cfg T valid now id s sv1 (map RecvData reads) in
  let '(evs, e) := spec_handle 1000 (d_frames dF) in
  exists sv', server_inv sv' /\ (forall j, j <> id -> getSession sv' j = getSession sv1 j) /\
    match e with
    | E_wait => run = HC_blocked sv' evs /\ is_Some (getSession sv' id)
    | E_loop => exists s' rest d' dF', run = HC_ret id sv' (map RecvData rest) evs [] false /\
        getSession sv' id = Some s' /\ pending max_size cfg s' d' rest dF' /\ d_frames dF' = drop 1000 (d_frames dF)
    | E_close f => getSession sv' id = None /\
        exists rest, run = HC_ret (-1) sv' (map RecvData rest) evs
                             (sent_close valid (getCloseCode f) (getCloseReason f)) false
    | E_protocol => getSession sv' id = None /\
        exists rest, run = HC_ret (-1) sv' (map RecvData rest) evs
                             (sent_close valid 1002 (str "Protocol Error")) false
    end.
Proof.
  intros Hinv Hg Hp. pose proof (getSession_range sv1 id ltac:(by rewrite Hg)) as Hr.
  pose proof (handle_loop_good max_size Hmax cfg T HT valid 1000 now id s d reads dF [] Hp) as Hl. cbn zeta in *.
  unfold run_client. destruct (spec_handle 1000 (d_frames dF)) as [evs e]. cbn [app] in Hl.
  assert (Hput : forall s', server_inv (put_session sv1 id (Some s')) /\
    getSession (put_session sv1 id (Some s')) id = Some s' /\
    forall j, j <> id -> getSession (put_session sv1 id (Some s')) j = getSession sv1 j).
  { intros s'. split_and!; [by apply (put_session_inv sv1 id s0)|by rewrite getSession_put, decide_True by done|].
    intros j Hj. by rewrite getSession_put, decide_False by done. }
  destruct e as [| |f|].
  - destruct Hl as [s' ->]. destruct (Hput s') as (? & Hs' & ?).
    exists (put_session sv1 id (Some s')). by split_and!; (done || rewrite Hs').
  - destruct Hl as (s' & rest & d' & dF' & -> & Hp' & Hd'). destruct (Hput s') as (? & Hs' & ?).
    exists (put_session sv1 id (Some s')). split_and!; try done. exists s', rest, d', dF'. split_and!; try done.
    unfold finish_client. pose proof (wr_state _ _ _ (pe_rel _ _ _ _ _ _ Hp')) as Ho.
    rewrite Ho, bool_decide_eq_false_2, (proj2 (Z.eqb_neq id (-1))) by (done || lia). done.
  - destruct Hl as (s' & rest & -> & Hc).
    destruct (finish_closed valid sv1 id (-1) s' s0 (map RecvData rest) evs
      (sent_close valid (getCloseCode f) (getCloseReason f)) Hinv Hg Hc) as (sv' & -> & Hi' & Hget').
    exists sv'. split_and!; [done| |by rewrite Hget', decide_True|by exists rest].
    intros j Hj. by rewrite Hget', decide_False.
  - destruct Hl as (s' & rest & -> & Hc).
    destruct (finish_closed valid sv1 id id s' s0 (map RecvData rest) evs
      (sent_close valid 1002 (str "Protocol Error")) Hinv Hg Hc) as (sv' & -> & Hi' & Hget').
    exists sv'. split_and!; [done| |by rewrite Hget', decide_True|by exists rest].
    intros j Hj. by rewrite Hget', decide_False.
Qed.

End Table.

(** * Results *)

Section Results.
Context {A : Type} {IA : IdAllocator A}.

(** [handleClient] on a new connection: the session table gets a fresh
    entry, the user's handler is called for exactly the frames of the octet
    stream, in order, however the reads cut the stream; a close frame is
    answered with its own code and reason and ends the client, an unknown
    opcode ends it with a protocol error, and in both cases the entry and its id
    are released; otherwise the client waits for more octets, or returns its id
    after 1000 frames to be scheduled again. *)
Theorem handleClient_routes max_size cfg T valid garbage onOpen now (sv : WsServer A) reads dF :
  0 <= max_size < 2 ^ 63 -> quiet T -> opens onOpen ->
  server_inv sv -> ia_room (m_sessionIdAllocator sv) ->
  (exists id, 0 <= id < zlen (m_sessions sv) /\ getSession sv id = None) ->
  0 < g_ws_buffer_size cfg < 2 ^ 31 -> 0 < zlen (garbage (g_basic_buffer_size cfg)) -> 0 <= g_ws_max_request_size cfg ->
  Forall (read_ok (Z.min (g_ws_buffer_size cfg) (zlen (garbage (g_basic_buffer_size cfg))))) reads ->
  recv_within max_size cfg decoder_init 0 reads = true ->
  decode max_size decoder_init (concat reads) = Some dF ->
  let run := handleClient max_size cfg T valid garbage true onOpen now (-1) sv (map RecvData reads) in
  let '(evs, e) := spec_handle 1000 (d_frames dF) in
  exists id sv', getSession sv id = None /\ server_inv sv' /\
    (forall j, j <> id -> getSession sv' j = getSession sv j) /\
    match e with
    | E_wait => run = HC_blocked sv' evs /\ is_Some (getSession sv' id)
    | E_loop => is_Some (getSession sv' id) /\
        exists rest, run = HC_ret id sv' (map RecvData rest) evs [] false
    | E_close f => getSession sv' id = None /\
        exists rest, run = HC_ret (-1) sv' (map RecvData rest) evs
                             (sent_close valid (getCloseCode f) (getCloseReason f)) false
    | E_protocol => getSession sv' id = None /\
        exists rest, run = HC_ret (-1) sv' (map RecvData rest) evs
                             (sent_close valid 1002 (str "Protocol Error")) false
    end.
Proof.
  intros Hmax HT Hop Hinv Hroom Hfree Hsz Halloc Hm Hreads Hw Hd. cbn zeta.
  destruct (createSession_good cfg garbage (now 1000%nat) sv Hinv Hroom Hfree)
    as (id & sv1 & Hcreate & Hinv1 & Hid & Hg & Hget).
  set (s := (init _ _ _).2) in *.
  destruct (fresh_session_rel max_size cfg garbage (now 1000%nat) onOpen id Hop Hsz Halloc) as [Hrel Hcap]. fold s in Hrel, Hcap.
  rewrite <- Hcap in Hreads.
  assert (Hg1 : getSession sv1 id = Some s) by (rewrite Hget; by rewrite decide_True).
  pose proof (run_client_good max_size cfg T valid now sv1 id s (onOpen s) decoder_init reads dF Hmax HT Hinv1 Hg1
    (mk_pending _ _ _ _ _ _ Hrel Hreads Hw Hm Hd)) as Hrun. cbn zeta in Hrun.
  unfold handleClient. rewrite Hcreate. cbn [Z.ltb Z.compare].
  destruct (spec_handle 1000 (d_frames dF)) as [evs e]. destruct Hrun as (sv' & Hinv' & Hother & He).
  exists id, sv'. split_and!; [done|done| |].
  { intros j Hj. by rewrite Hother, Hget, decide_False by done. }
  destruct e as [| |f|]; try done. destruct He as (s' & rest & d' & dF' & He & Hs' & _).
  split; [by eexists|]. by exists rest.
Qed.

(** [createSession] behind the capacity: the table has a fixed size, the
    allocator grows; when every entry is taken the next id indexes outside the
    table (and its locks). *)
Theorem createSession_beyond_capacity cfg garbage now added (sv : WsServer A) :
  server_inv sv -> ia_room (m_sessionIdAllocator sv) ->
  (forall id, 0 <= id < zlen (m_sessions sv) -> is_Some (getSession sv id)) ->
  createSession cfg garbage now added sv = CS_undefined.
Proof.
  intros [Hi Hl Hm Hc Hsm] Hroom Hfull.
  destruct (ia_alloc_ok _ Hi Hroom) as (id & ids & Ha & Hi' & Hn & Hpos & _).
  unfold createSession. rewrite Ha. cbn [set_ids m_sessions].
  rewrite (proj2 (Z.ltb_ge id 0)) by lia.
  rewrite lookup_ge_None_2; [done|]. destruct (decide (id < zlen (m_sessions sv))); [|unfold zlen in *; lia].
  assert (ia_live (m_sessionIdAllocator sv) id = true) by (apply Hl, Hfull; lia). congruence.
Qed.

End Results.

(** The heartbeat check: with the last frame received at [recent] the
    session is kept when no time has passed or when at least 100 ms have passed
    and the timeout (plus 100 ms) is not exceeded.  A frame received in the last
    99 ms makes the subtraction of the tolerance wrap around, and the session is
    declared dead. *)
Theorem heartbeat_check_spec cfg now s :
  m_state s = OPEN -> 0 <= m_recent_frame_time s -> now < 2 ^ 64 ->
  0 <= g_ws_pong_timeout cfg * 1000 < 2 ^ 32 ->
  let elapsed := now - m_recent_frame_time s in
  heartbeat_check cfg now s =
  (false,
   if elapsed <=? 0 then true
   else if elapsed <? 100 then false
   else elapsed <=? g_ws_pong_timeout cfg * 1000 + 100).
Proof.
  intros Ho Hr Hnow Ht elapsed. unfold heartbeat_check, elapsed.
  rewrite Ho, bool_decide_eq_true_2 by done. cbn [negb]. rewrite (wrap_small 32) by lia.
  destruct (now <? m_recent_frame_time s) eqn:E1; bool_to_prop.
  { by rewrite (proj2 (Z.leb_le _ 0)) by lia. }
  rewrite (wrap_small 64 (now - _)) by lia.
  destruct (m_recent_frame_time s <? now) eqn:E2; bool_to_prop; cbn [andb].
  2:{ by rewrite (proj2 (Z.leb_le _ 0)) by lia. }
  rewrite (proj2 (Z.leb_gt _ 0)) by lia.
  destruct (now - m_recent_frame_time s <? 100) eqn:E3; bool_to_prop.
  - assert (wrap 64 (now - m_recent_frame_time s - 100) = now - m_recent_frame_time s - 100 + 2 ^ 64) as ->.
    { unfold wrap. symmetry. apply (Z.mod_unique _ _ (-1)); lia. }
    by rewrite (proj2 (Z.ltb_lt _ _)) by lia.
  - rewrite wrap_small by lia. destruct (_ <? _) eqn:E4, (_ <=? _) eqn:E5; bool_to_prop; (done || lia).
Qed.

(** * Witnesses *)

Definition ex_cfg : ws_config := mk_ws_config 1024 4096 15 10485760.
Definition ex_handler : handler := fun _ s => (s, false).
Definition ex_garbage (n : Z) : list Z := replicate (Z.to_nat n) 0.
Definition ex_ids1 : PackedIDAllocator := PackedIDAllocator_ctor 1.
Definition ex_server : WsServer PackedIDAllocator := WsServer_ctor ex_ids1 1.

Lemma ex_server_inv : server_inv (IA := packed_id_allocator 4) ex_server.
Proof.
  apply WsServer_ctor_inv; [apply PackedIDAllocator_ctor_inv; [lia|done]| |done].
  intros id. cbn. unfold allocated. cbn [m_bit_map ex_ids1 PackedIDAllocator_ctor].
  change (replicate 1 0) with ([] ++ replicate 1 0). rewrite bit_at_grow. apply andb_false_r.
Defined.

Lemma ex_server_room : ids_room 4 (m_sessionIdAllocator ex_server).
Proof. left. split; [cbn; lia|done]. Defined.

Lemma ex_server_free : exists id, 0 <= id < zlen (m_sessions ex_server) /\ getSession ex_server id = None.
Proof. exists 0. done. Defined.

Definition ex_stream : list (list Z) := [[129; 2; 72]; [105; 136]; [4; 3; 233; 111; 107]].

Lemma handleClient_routes_witness :
  exists id sv' rest, getSession ex_server id = None /\ getSession sv' id = None /\
    handleClient (IA := packed_id_allocator 4) 1000 ex_cfg ex_handler true ex_garbage true (fun s => s)
      (fun _ => 5) (-1) ex_server (map RecvData ex_stream) =
    HC_ret (-1) sv' (map RecvData rest)
      [co_onMessage [72; 105]; co_onClose 1001 [111; 107]] [close_bytes 1001 [111; 107]] false.
Proof.
  pose proof (handleClient_routes (IA := packed_id_allocator 4) 1000 ex_cfg ex_handler true ex_garbage
    (fun s => s) (fun _ => 5) ex_server ex_stream
    (mk_decoder D_start [0; 0; 0; 0] [spec_frame 1 [72; 105]; spec_frame 8 [3; 233; 111; 107]])
    ltac:(lia) ltac:(done) ltac:(done) ex_server_inv ex_server_room ex_server_free ltac:(by vm_compute)
    ltac:(by vm_compute) ltac:(by vm_compute) ltac:(decide_now) ltac:(by vm_compute) ltac:(by vm_compute)) as H.
  destruct H as (id & sv' & Hg & _ & _ & Hn & rest & Hr).
  exists id, sv', rest. split; [exact Hg|]. split; [exact Hn|]. exact Hr.
Defined.


(** A server of 64 entries with 64 sessions, its allocator grown to two chunks. *)
Definition ex_sess : WsSession := (init 5 true (WsSession_ctor ex_cfg ex_garbage 0)).2.
Definition ex_full_ids : PackedIDAllocator := mk_ids [UINT64_MAX; 0] 1 0 SUCCESS.
Definition ex_full : WsServer PackedIDAllocator :=
  mk_server ex_full_ids (replicate 64 (Some ex_sess)) 1 64.

Lemma ex_full_live id : allocated ex_full_ids id = bool_decide (0 <= id < 64).
Proof.
  case_bool_decide as H.
  - revert id H. apply (below_decide 64 (fun id => allocated ex_full_ids id = true)). by vm_compute.
  - destruct (decide (0 <= id)); [|apply allocated_neg; lia]. unfold allocated, bit_at.
    rewrite (proj2 (Z.leb_le 0 id)) by done. cbn [m_bit_map ex_full_ids].
    destruct (Z.to_nat (id / 64)) as [|[|k]] eqn:E; [|apply Z.bits_0|done].
    exfalso. Z.to_euclidean_division_equations; lia.
Defined.

Lemma ex_full_ids_inv : ids_inv ex_full_ids.
Proof.
  split; cbn [m_bit_map m_next_chunk m_next_bit ex_full_ids]; try (cbn; lia).
  - decide_now.
  - by vm_compute.
  - by rewrite ex_full_live.
  - intros id Hid. rewrite ex_full_live. apply bool_decide_eq_true_2. lia.
Defined.

Lemma ex_full_get id : 0 <= id < 64 -> getSession ex_full id = Some ex_sess.
Proof.
  intros Hid. unfold getSession. change (zlen (m_sessions ex_full)) with 64.
  rewrite (proj2 (Z.ltb_ge id 0)), (proj2 (Z.leb_gt 64 id)) by lia. cbn [orb m_sessions ex_full].
  rewrite lookup_replicate_2 by lia. done.
Defined.

Lemma ex_full_inv : server_inv (IA := packed_id_allocator 4) ex_full.
Proof.
  split; try done.
  - exact ex_full_ids_inv.
  - intros id. change (ia_live _ id) with (allocated ex_full_ids id). rewrite ex_full_live.
    rewrite bool_decide_eq_true. split; [intros H; by rewrite ex_full_get|].
    intros H. exact (getSession_range ex_full id H).
Defined.

Lemma createSession_beyond_capacity_witness :
  createSession (IA := packed_id_allocator 4) ex_cfg ex_garbage 5 true ex_full = CS_undefined.
Proof.
  apply (createSession_beyond_capacity (IA := packed_id_allocator 4) ex_cfg ex_garbage 5 true ex_full).
  - exact ex_full_inv.
  - left. split; [cbn; lia|done].
  - intros id Hid. by rewrite ex_full_get.
Defined.

Lemma heartbeat_check_spec_witness :
  heartbeat_check ex_cfg 1050 (setRecentFrameTime 1000 ex_sess) = (false, false).
Proof. rewrite (heartbeat_check_spec ex_cfg 1050 (setRecentFrameTime 1000 ex_sess)); done. Defined.
