(* ===== verification/WsSend.v ===== *)
(** * Concurrent senders of one WebSocket session

    Models [WsSession::co_sendFrame] ([sylar/server/websocket/wsserver.cc]) when
    several coroutines send on the same session.  A call is a program counter;
    one step is one access to the shared state: the compare-and-swap on
    [m_bf_state], the push under [m_send_mutex], one [sendMessage] (with the
    result the socket gives), or the swap under [m_send_mutex]. *)

From stdpp Require Import relations.
From S2P Require Import Prelude.

Inductive BF_State := WAITING | READY.

#[global] Instance BF_State_eq_dec : EqDecision BF_State.
Proof. solve_decision. Defined.

(** An encoded frame, [frame.make()]. *)
Abbreviation octets := (list Z).

(** Where a call of [co_sendFrame] stands. *)
Inductive pc :=
  | at_cas (data : octets)               (* before the compare-and-swap *)
  | at_push (data : octets)              (* it failed: before the lock and the push *)
  | at_send (data : octets)              (* it succeeded: sending the call's own frame *)
  | at_swap                              (* before the lock and the swap *)
  | at_drain (to_send : list octets)     (* sending the frames taken by the swap *)
  | returned (rc : Z).

Record shared := mk_shared {
  m_bf_state : BF_State;
  m_send_buffer : list octets;
  sent : list octets;                    (* handed to the socket with success, in order *)
  failed : list octets;                  (* the socket answered -1 *)
}.

Record system := mk_system { glob : shared; calls : list pc }.

(** After the swap loop's inner [while(!to_send.empty())]. *)
Definition drain_next (rest : list octets) : pc :=
  match rest with [] => at_swap | _ => at_drain rest end.

(** One step of a call; [ok] is the answer of the socket, where one is asked. *)
Definition call_step (ok : bool) (g : shared) (p : pc) : option (shared * pc) :=
  match p with
  | at_cas data =>
      if bool_decide (m_bf_state g = READY) then
        Some (mk_shared WAITING (m_send_buffer g) (sent g) (failed g), at_send data)
      else Some (g, at_push data)
  | at_push data =>
      Some (mk_shared (m_bf_state g) (m_send_buffer g ++ [data]) (sent g) (failed g), returned 0)
  | at_send data =>
      if ok then Some (mk_shared (m_bf_state g) (m_send_buffer g) (sent g ++ [data]) (failed g), at_swap)
      else Some (mk_shared (m_bf_state g) (m_send_buffer g) (sent g) (failed g ++ [data]), returned (-1))
  | at_swap =>
      match m_send_buffer g with
      | [] => Some (mk_shared READY [] (sent g) (failed g), returned 0)
      | to_send => Some (mk_shared (m_bf_state g) [] (sent g) (failed g), at_drain to_send)
      end
  | at_drain [] => Some (g, at_swap)
  | at_drain (data :: rest) =>
      if ok then
        Some (mk_shared (m_bf_state g) (m_send_buffer g) (sent g ++ [data]) (failed g), drain_next rest)
      else
        Some (mk_shared (m_bf_state g) (m_send_buffer g) (sent g) (failed g ++ [data]), drain_next rest)
  | returned _ => None
  end.

Definition sys_step (ok : bool) (i : nat) (s : system) : option system :=
  match calls s !! i with
  | None => None
  | Some p =>
      match call_step ok (glob s) p with
      | None => None
      | Some (g, p') => Some (mk_system g (<[i := p']> (calls s)))
      end
  end.

(** Any interleaving of the calls. *)
Inductive step : system -> system -> Prop :=
  | step_call ok i s s' : sys_step ok i s = Some s' -> step s s'.

(** A session with the given frames to be sent by one call each. *)
Definition start (frames : list octets) : system :=
  mk_system (mk_shared READY [] [] []) (map at_cas frames).

(** A given schedule, as a function. *)
Fixpoint run_schedule (sched : list (nat * bool)) (s : system) : option system :=
  match sched with
  | [] => Some s
  | (i, ok) :: sched => match sys_step ok i s with Some s => run_schedule sched s | None => None end
  end.

Lemma run_schedule_steps sched s s' : run_schedule sched s = Some s' -> rtc step s s'.
Proof.
  revert s. induction sched as [|[i ok] sched IH]; intros s; cbn; [intros [= ->]; constructor|].
  destruct (sys_step ok i s) as [s1|] eqn:E; [|done]. intros H.
  eapply rtc_l; [by econstructor|by apply IH].
Qed.

(** ** Frames are conserved *)

Definition held (p : pc) : list octets :=
  match p with
  | at_cas d | at_push d | at_send d => [d]
  | at_drain l => l
  | at_swap | returned _ => []
  end.

(** All frames of the system, wherever they are. *)
Definition all_frames (s : system) : list octets :=
  sent (glob s) ++ failed (glob s) ++ m_send_buffer (glob s) ++ concat (map held (calls s)).

Lemma calls_split s i p :
  calls s !! i = Some p ->
  exists l1 l2, calls s = l1 ++ p :: l2 /\ forall p', <[i := p']> (calls s) = l1 ++ p' :: l2.
Proof.
  intros H. apply list_elem_of_split_length in H as (l1 & l2 & E & Hl).
  exists l1, l2. split; [done|]. intros p'. rewrite E, Hl.
  by rewrite insert_app_r_alt, Nat.sub_diag by lia.
Qed.

Lemma perm_by_count (l l' : list octets) :
  (forall x, count_occ (decide_rel eq) l x = count_occ (decide_rel eq) l' x) -> l ≡ₚ l'.
Proof. intros H. by apply (Permutation_count_occ (decide_rel eq)). Qed.

Lemma held_drain_next rest : held (drain_next rest) = rest.
Proof. by destruct rest. Qed.

Lemma call_step_frames ok g p g' p' rest :
  call_step ok g p = Some (g', p') ->
  sent g' ++ failed g' ++ m_send_buffer g' ++ rest ++ held p' ≡ₚ
  sent g ++ failed g ++ m_send_buffer g ++ rest ++ held p.
Proof.
  intros H. apply perm_by_count. intros x. unfold call_step in H.
  repeat (case_match; simplify_eq; try done);
    cbn [sent failed m_send_buffer held] in *; rewrite ?held_drain_next;
    rewrite ?count_occ_app; cbn [count_occ]; repeat case_match; try done; simplify_list_eq;
    rewrite ?count_occ_app; cbn [count_occ]; repeat case_match; lia || done.
Qed.

Lemma step_frames s s' : step s s' -> all_frames s' ≡ₚ all_frames s.
Proof.
  intros [ok i s0 s1 H]. unfold sys_step in H.
  destruct (calls s0 !! i) as [p|] eqn:Hp; [|done].
  destruct (call_step ok (glob s0) p) as [[g' p']|] eqn:Hc; [|done]. simplify_eq.
  destruct (calls_split s0 i p Hp) as (l1 & l2 & E & Hins).
  unfold all_frames. cbn [glob calls]. rewrite Hins, E, !map_app, !concat_app. cbn [map concat].
  pose proof (call_step_frames ok (glob s0) p g' p' (concat (map held l1) ++ concat (map held l2)) Hc) as Hf.
  revert Hf. rewrite !(Permutation_app_comm (held _) (concat (map held l2))), !app_assoc. done.
Qed.

(** ** One call at a time owns the socket *)

Definition owns (p : pc) : bool :=
  match p with at_send _ | at_swap | at_drain _ => true | _ => false end.

Definition owners (s : system) : nat := length (List.filter owns (calls s)).

Definition own_inv (s : system) : Prop :=
  (owners s <= 1)%nat /\ (m_bf_state (glob s) = READY -> owners s = 0%nat).

Lemma owners_split s i p p' l1 l2 g :
  calls s = l1 ++ p :: l2 -> <[i := p']> (calls s) = l1 ++ p' :: l2 ->
  (owners (mk_system g (<[i := p']> (calls s))) + (if owns p then 1 else 0)
   = owners s + (if owns p' then 1 else 0))%nat.
Proof.
  intros E E'. unfold owners. cbn [calls]. rewrite E', E, !List.filter_app. cbn [List.filter].
  destruct (owns p), (owns p'); rewrite !length_app; cbn [length]; lia.
Qed.

(** How a step changes ownership. *)
Lemma call_step_own ok g p g' p' :
  call_step ok g p = Some (g', p') ->
  (owns p = false /\ m_bf_state g = READY /\ owns p' = true /\ m_bf_state g' = WAITING) \/
  (owns p = owns p' /\ m_bf_state g' = m_bf_state g) \/
  (owns p = true /\ owns p' = false).
Proof.
  intros H. destruct p as [d|d|d| |[|d rest]|rc]; cbn [call_step] in H.
  - case_bool_decide; simplify_eq; cbn; auto 10.
  - simplify_eq. cbn. auto.
  - destruct ok; simplify_eq; cbn; auto.
  - destruct (m_send_buffer g); simplify_eq; cbn; auto.
  - simplify_eq. cbn. auto.
  - destruct ok; simplify_eq; destruct rest; cbn; auto.
  - done.
Qed.

Lemma step_own s s' : step s s' -> own_inv s -> own_inv s'.
Proof.
  intros [ok i s0 s1 H] [Hle Hr]. unfold sys_step in H.
  destruct (calls s0 !! i) as [p|] eqn:Hp; [|done].
  destruct (call_step ok (glob s0) p) as [[g' p']|] eqn:Hc; [|done]. simplify_eq.
  destruct (calls_split s0 i p Hp) as (l1 & l2 & E & Hins).
  pose proof (owners_split s0 i p p' l1 l2 g' E (Hins p')) as Ho.
  unfold own_inv. cbn [glob]. set (n := owners (mk_system _ _)) in *. clearbody n.
  destruct (call_step_own _ _ _ _ _ Hc) as [(E1 & E2 & E3 & E4)|[(E1 & E2)|(E1 & E2)]].
  - rewrite E1, E3 in Ho. specialize (Hr E2). rewrite E4. split; [lia|done].
  - rewrite E1, E2 in *. split; [destruct (owns p'); lia|].
    intros HR. specialize (Hr HR). destruct (owns p'); lia.
  - rewrite E1, E2 in Ho. split; [lia|]. intros _. lia.
Qed.

Lemma start_own frames : own_inv (start frames).
Proof.
  assert (owners (start frames) = 0%nat) as E; [|split; [lia|done]].
  unfold owners, start. cbn [calls]. induction frames; done.
Qed.

Lemma start_frames frames : all_frames (start frames) = frames.
Proof. unfold all_frames, start. cbn. induction frames; cbn in *; congruence. Qed.

Lemma reachable_inv s s' :
  rtc step s s' -> own_inv s -> own_inv s' /\ all_frames s' ≡ₚ all_frames s.
Proof.
  induction 1 as [|s1 s2 s3 H12 _ IH]; intros Hi; [done|].
  destruct IH as [IH1 IH2]; [by eapply step_own|]. split; [done|].
  rewrite IH2. by apply step_frames.
Qed.

(** ** A session whose owner failed *)

Definition stuck (s : system) : Prop := m_bf_state (glob s) = WAITING /\ owners s = 0%nat.

Lemma step_stuck s s' :
  step s s' -> stuck s -> stuck s' /\ sent (glob s') = sent (glob s).
Proof.
  intros [ok i s0 s1 H] [Hw Hn]. unfold sys_step in H.
  destruct (calls s0 !! i) as [p|] eqn:Hp; [|done].
  destruct (call_step ok (glob s0) p) as [[g' p']|] eqn:Hc; [|done]. simplify_eq.
  destruct (calls_split s0 i p Hp) as (l1 & l2 & E & Hins).
  pose proof (owners_split s0 i p p' l1 l2 g' E (Hins p')) as Ho.
  assert (Hnot : owns p = false).
  { unfold owners in Hn. rewrite E, List.filter_app, length_app in Hn. cbn [List.filter] in Hn.
    destruct (owns p); [cbn [length] in Hn; lia|done]. }
  unfold stuck. cbn [glob].
  destruct p as [d|d|d| |l|rc]; try done; cbn [call_step] in Hc.
  - rewrite bool_decide_eq_false_2 in Hc by congruence. simplify_eq. cbn [owns] in Ho. split_and!; (done || lia).
  - simplify_eq. cbn [owns] in Ho. split_and!; (done || lia).
Qed.

Lemma reachable_stuck s s' :
  rtc step s s' -> stuck s -> stuck s' /\ sent (glob s') = sent (glob s).
Proof.
  induction 1 as [|s1 s2 s3 H12 _ IH]; intros Hs; [done|].
  destruct (step_stuck _ _ H12 Hs) as [Hs2 E]. destruct (IH Hs2) as [Hs3 E3]. split; [done|congruence].
Qed.

(** * Results *)

(** ** What is queued is sent, in order *)

(** The frames in the order in which they won the compare-and-swap or were pushed, and whether a
    frame was pushed while the state was [READY]. *)
Record history := MkHistory { entered : list octets; strayed : bool }.

Definition note (g : shared) (p : pc) (h : history) : history :=
  match p with
  | at_cas data => if bool_decide (m_bf_state g = READY) then MkHistory (entered h ++ [data]) (strayed h) else h
  | at_push data => MkHistory (entered h ++ [data]) (strayed h || bool_decide (m_bf_state g = READY))
  | _ => h
  end.

(** Any interleaving, with its history. *)
Inductive traced (frames : list octets) : system -> history -> Prop :=
  | traced_start : traced frames (start frames) (MkHistory [] false)
  | traced_step s h ok i p s' :
      traced frames s h -> calls s !! i = Some p -> sys_step ok i s = Some s' -> traced frames s' (note (glob s) p h).

(** The frames the owner of the socket has yet to send. *)
Definition owned (p : pc) : list octets := if owns p then held p else [].

Lemma traced_reachable frames s h : traced frames s h -> rtc step (start frames) s.
Proof. induction 1 as [|s h ok i p s' _ IH _ Hs]; [done|]. eapply rtc_r; [exact IH|]. by econstructor. Qed.

Lemma nobody_owns l : length (List.filter owns l) = 0%nat -> concat (map owned l) = [].
Proof.
  induction l as [|p l IH]; [done|]. cbn. unfold owned at 1. destruct (owns p); [done|]. cbn. apply IH.
Qed.

Lemma owned_drain_next rest : owned (drain_next rest) = rest.
Proof. by destruct rest. Qed.

(** The queue is empty while the state is [READY] and no frame came astray; as long as the socket
    takes everything, the frames leave in the order in which they entered. *)
Record flow (s : system) (h : history) : Prop := {
  fl_own : own_inv s;
  fl_waiting : m_bf_state (glob s) = WAITING -> owners s = 1%nat \/ returned (-1) ∈ calls s;
  fl_queue : strayed h = false -> m_bf_state (glob s) = READY -> m_send_buffer (glob s) = [];
  fl_order : strayed h = false -> failed (glob s) = [] ->
    sent (glob s) ++ concat (map owned (calls s)) ++ m_send_buffer (glob s) = entered h;
}.

(** The owner's frames are all that is owned. *)
Lemma sole_owner s l1 p l2 :
  own_inv s -> calls s = l1 ++ p :: l2 -> owns p = true -> m_bf_state (glob s) = WAITING /\
  concat (map owned l1) = [] /\ concat (map owned l2) = [].
Proof.
  intros [Hle Hr] E Hp. unfold owners in *. rewrite E, List.filter_app, length_app in *. cbn [List.filter] in *. rewrite Hp in *.
  cbn [length] in *. split; [destruct (m_bf_state (glob s)); [done|specialize (Hr eq_refl); lia]|].
  split; apply nobody_owns; lia.
Qed.

Lemma quiet_owner s l1 p l2 :
  own_inv s -> calls s = l1 ++ p :: l2 -> m_bf_state (glob s) = READY ->
  concat (map owned l1) = [] /\ concat (map owned l2) = [].
Proof.
  intros [_ Hr] E H. specialize (Hr H). unfold owners in Hr. rewrite E, List.filter_app, length_app in Hr. cbn [List.filter] in Hr.
  split; apply nobody_owns; destruct (owns p); cbn [length] in Hr; lia.
Qed.

Lemma flow_waiting s h ok i p s' :
  flow s h -> own_inv s' -> calls s !! i = Some p -> sys_step ok i s = Some s' ->
  m_bf_state (glob s') = WAITING -> owners s' = 1%nat \/ returned (-1) ∈ calls s'.
Proof.
  intros [Ho Hw _ _] [Hle' _] Hi Hs Hb. unfold sys_step in Hs. rewrite Hi in Hs.
  destruct (call_step ok (glob s) p) as [[g' p']|] eqn:Hc; [|done]. simplify_eq. cbn [glob calls] in *.
  destruct (calls_split s i p Hi) as (l1 & l2 & E & Hins). pose proof (owners_split s i p p' l1 l2 g' E (Hins p')) as Hn.
  assert (Hkeep : m_bf_state (glob s) = WAITING -> owns p = owns p' -> (forall rc, p <> returned rc) ->
    owners (mk_system g' (<[i := p']> (calls s))) = 1%nat \/ returned (-1) ∈ <[i := p']> (calls s)).
  { intros H1 H2 H3. rewrite H2 in Hn. destruct (Hw H1) as [Hn1|He]; [left; lia|right].
    rewrite Hins. rewrite E in He. apply elem_of_app in He as [He|He]; [apply elem_of_app; by left|].
    apply elem_of_app. right. apply elem_of_cons in He as [He|He]; [by destruct (H3 (-1))|]. by right. }
  destruct p as [d|d|d| |[|d rest]|rc]; cbn [call_step] in Hc.
  - case_bool_decide; simplify_eq; cbn [owns] in Hn; [left; lia|apply Hkeep; done].
  - simplify_eq. by apply Hkeep.
  - destruct ok; simplify_eq; [by apply Hkeep|]. right. rewrite Hins. apply elem_of_app. right. by left.
  - destruct (m_send_buffer (glob s)); simplify_eq; by apply Hkeep.
  - simplify_eq. by apply Hkeep.
  - destruct ok; simplify_eq; (apply Hkeep; [done|by destruct rest|done]).
  - done.
Qed.

Lemma flow_step s h ok i p s' :
  flow s h -> calls s !! i = Some p -> sys_step ok i s = Some s' -> flow s' (note (glob s) p h).
Proof.
  intros Hf Hi Hs. assert (Ho' : own_inv s') by (eapply step_own; [by econstructor|apply Hf]).
  pose proof (flow_waiting s h ok i p s' Hf Ho' Hi Hs) as Hw'. destruct Hf as [Ho _ Hq Hor].
  unfold sys_step in Hs. rewrite Hi in Hs. destruct (call_step ok (glob s) p) as [[g' p']|] eqn:Hc; [|done]. simplify_eq.
  destruct (calls_split s i p Hi) as (l1 & l2 & E & Hins). cbn [glob calls] in *.
  split; [done|done|..]; cbn [glob calls]; rewrite ?Hins; rewrite E in Hor; rewrite ?map_app, ?concat_app in *; cbn [map concat] in *;
    destruct p as [d|d|d| |[|d rest]|rc]; cbn [call_step note] in *; try done.
  - case_bool_decide; simplify_eq; cbn; [done|auto].
  - simplify_eq. cbn. intros Hst Hr. apply orb_false_iff in Hst as [_ Hst]. by rewrite bool_decide_eq_false in Hst.
  - destruct ok; simplify_eq; cbn; auto.
  - destruct (m_send_buffer (glob s)); simplify_eq; cbn; auto.
  - simplify_eq. cbn. auto.
  - destruct ok; simplify_eq; cbn; auto.
  - case_bool_decide as Hb; simplify_eq; cbn; intros Hst Hfl; specialize (Hor Hst Hfl); [|exact Hor].
    destruct (quiet_owner s l1 _ l2 Ho E Hb) as [E1 E2]. rewrite E1, E2, (Hq Hst Hb) in *. cbn in *. rewrite !app_nil_r in Hor. by rewrite Hor.
  - simplify_eq. cbn. intros Hst Hfl. apply orb_false_iff in Hst as [Hst _]. specialize (Hor Hst Hfl). cbn in Hor.
    rewrite <- Hor. by rewrite !app_assoc.
  - destruct (sole_owner s l1 _ l2 Ho E eq_refl) as (_ & E1 & E2). destruct ok; simplify_eq; cbn; intros Hst Hfl.
    + specialize (Hor Hst Hfl). rewrite E1, E2 in *. cbn in *. by rewrite <- app_assoc.
    + by destruct (failed (glob s)).
  - destruct (sole_owner s l1 _ l2 Ho E eq_refl) as (_ & E1 & E2).
    destruct (m_send_buffer (glob s)) eqn:Eb; simplify_eq; cbn; intros Hst Hfl; specialize (Hor Hst Hfl); rewrite E1, E2 in *; cbn in *;
      [exact Hor|]. by rewrite !app_nil_r.
  - simplify_eq. cbn. exact Hor.
  - destruct (sole_owner s l1 _ l2 Ho E eq_refl) as (_ & E1 & E2). destruct ok; simplify_eq; cbn; intros Hst Hfl.
    + specialize (Hor Hst Hfl). rewrite owned_drain_next, E1, E2 in *. cbn in *. by rewrite <- app_assoc.
    + by destruct (failed (glob s)).
Qed.

Lemma flow_traced frames s h : traced frames s h -> flow s h.
Proof.
  induction 1 as [|s h ok i p s' _ IH Hi Hs]; [|by eapply flow_step].
  split; try done; [apply start_own|]. intros _ _. cbn. induction frames; done.
Qed.

(** C38. Whatever the interleaving and the answers of the socket: at most one call uses the socket
    at a time, and no frame is lost or duplicated.  A frame is left in the queue of a session that is
    [READY] only if some call whose compare-and-swap had failed pushed its frame after the owner found
    the queue empty ([strayed]).  Otherwise, once every call has returned 0, the queue is empty and
    every frame was handed to the socket, which took it or refused it; and as long as the socket
    takes everything, the frames leave in the order in which they won the compare-and-swap or were
    pushed.  The session is [WAITING] without an owner only after a call returned -1. *)
Theorem sendFrame_safe frames s h :
  traced frames s h ->
  (owners s <= 1)%nat /\ (m_bf_state (glob s) = READY -> owners s = 0%nat) /\
  (m_bf_state (glob s) = WAITING -> owners s = 1%nat \/ returned (-1) ∈ calls s) /\
  sent (glob s) ++ failed (glob s) ++ m_send_buffer (glob s) ++ concat (map held (calls s)) ≡ₚ frames /\
  (strayed h = false -> Forall (eq (returned 0)) (calls s) ->
    m_send_buffer (glob s) = [] /\ sent (glob s) ++ failed (glob s) ≡ₚ frames) /\
  (strayed h = false -> failed (glob s) = [] ->
    sent (glob s) ++ concat (map owned (calls s)) ++ m_send_buffer (glob s) = entered h).
Proof.
  intros Ht. destruct (flow_traced frames s h Ht) as [Ho Hw Hq Hor].
  destruct (reachable_inv _ _ (traced_reachable _ _ _ Ht) (start_own frames)) as [[H1 H2] H3]. rewrite start_frames in H3.
  split_and!; try done. intros Hst Hall.
  assert (Hn : owners s = 0%nat) by (unfold owners; clear -Hall; induction Hall as [|? ? <-]; done).
  assert (Hb : m_bf_state (glob s) = READY).
  { destruct (m_bf_state (glob s)) eqn:Eb; [|done]. destruct (Hw eq_refl) as [Hx|Hx]; [lia|].
    by pose proof (proj1 (Forall_forall _ _) Hall _ Hx). }
  assert (Hh : concat (map held (calls s)) = []) by (clear -Hall; induction Hall as [|? ? <-]; done).
  rewrite (Hq Hst Hb). split; [done|]. unfold all_frames in H3. rewrite (Hq Hst Hb), Hh in H3. by rewrite !app_nil_r in H3.
Qed.

(** The first call sends its frame and then the one the second pushed meanwhile. *)
Lemma sendFrame_safe_witness :
  exists s, traced [[1]; [2]] s (MkHistory [[1]; [2]] false) /\ calls s = [returned 0; returned 0] /\
    sent (glob s) ++ failed (glob s) ≡ₚ [[1]; [2]] /\
    sent (glob s) ++ concat (map owned (calls s)) ++ m_send_buffer (glob s) = [[1]; [2]].
Proof.
  assert (Ht : traced [[1]; [2]] (mk_system (mk_shared READY [] [[1]; [2]] []) [returned 0; returned 0])
    (MkHistory [[1]; [2]] false)).
  { pose proof (traced_start [[1]; [2]]) as T.
    eapply (traced_step _ _ _ true 0 (at_cas [1])) in T; [|reflexivity|vm_compute; reflexivity].
    eapply (traced_step _ _ _ true 1 (at_cas [2])) in T; [|reflexivity|vm_compute; reflexivity].
    eapply (traced_step _ _ _ true 1 (at_push [2])) in T; [|reflexivity|vm_compute; reflexivity].
    eapply (traced_step _ _ _ true 0 (at_send [1])) in T; [|reflexivity|vm_compute; reflexivity].
    eapply (traced_step _ _ _ true 0 at_swap) in T; [|reflexivity|vm_compute; reflexivity].
    eapply (traced_step _ _ _ true 0 (at_drain [[2]])) in T; [|reflexivity|vm_compute; reflexivity].
    eapply (traced_step _ _ _ true 0 at_swap) in T; [|reflexivity|vm_compute; reflexivity]. exact T. }
  eexists. split; [exact Ht|]. split; [reflexivity|].
  destruct (sendFrame_safe _ _ _ Ht) as (_ & _ & _ & _ & H1 & H2).
  split; [apply H1; [reflexivity|repeat constructor]|]. apply H2; reflexivity.
Defined.

(** A wake-up can be lost: a call whose compare-and-swap failed may push its
    frame after the owner found the queue empty.  Then every call has returned
    with success, the state is [READY], and the frame is neither sent nor
    refused; it stays in the queue until someone sends again. *)
Theorem sendFrame_strands_frame d0 d1 :
  exists s, rtc step (start [d0; d1]) s /\
    calls s = [returned 0; returned 0] /\ m_bf_state (glob s) = READY /\
    sent (glob s) = [d0] /\ failed (glob s) = [] /\ m_send_buffer (glob s) = [d1].
Proof.
  exists (mk_system (mk_shared READY [d1] [d0] []) [returned 0; returned 0]).
  split; [|done].
  apply (run_schedule_steps [(0%nat, true); (1%nat, true); (0%nat, true); (0%nat, true); (1%nat, true)]).
  done.
Qed.

(** A failed send blocks the session for good: when the owner's own frame is
    refused its call returns -1 and leaves the state [WAITING]; from then on no
    call, in any interleaving, sends anything any more. *)
Theorem sendFrame_failure_blocks frames s i data :
  rtc step (start frames) s -> calls s !! i = Some (at_send data) ->
  exists s1, sys_step false i s = Some s1 /\ calls s1 !! i = Some (returned (-1)) /\
    forall s2, rtc step s1 s2 -> sent (glob s2) = sent (glob s1) /\ m_bf_state (glob s2) = WAITING.
Proof.
  intros Hr Hi. destruct (reachable_inv _ _ Hr (start_own frames)) as [[Hle Hrd] _].
  destruct (calls_split s i _ Hi) as (l1 & l2 & E & Hins).
  set (g' := mk_shared (m_bf_state (glob s)) (m_send_buffer (glob s)) (sent (glob s)) (failed (glob s) ++ [data])).
  exists (mk_system g' (<[i := returned (-1)]> (calls s))).
  split; [unfold sys_step; by rewrite Hi|]. split.
  { cbn [calls]. apply list_lookup_insert_eq. by eapply lookup_lt_Some. }
  intros s2 H2. pose proof (owners_split s i (at_send data) (returned (-1)) l1 l2 g' E (Hins _)) as Ho.
  cbn [owns] in Ho. assert (Hst : stuck (mk_system g' (<[i := returned (-1)]> (calls s)))).
  { split; [|lia]. cbn [glob g' m_bf_state]. destruct (m_bf_state (glob s)); [done|].
    specialize (Hrd eq_refl). lia. }
  destruct (reachable_stuck _ _ H2 Hst) as [[Hw _] Hs]. done.
Qed.

Lemma sendFrame_failure_blocks_witness :
  exists s1, sys_step false 0 (mk_system (mk_shared WAITING [] [] []) [at_send [1]; at_cas [2]]) = Some s1 /\
    calls s1 !! 0%nat = Some (returned (-1)) /\
    forall s2, rtc step s1 s2 -> sent (glob s2) = sent (glob s1) /\ m_bf_state (glob s2) = WAITING.
Proof.
  apply (sendFrame_failure_blocks [[1]; [2]] _ 0 [1]); [|done].
  by apply (run_schedule_steps [(0%nat, true)]).
Defined.

(** A lone call on a quiet session sends its own frame first and then everything
    the queue held. *)
Lemma drain_alone q : forall g,
  m_bf_state g = WAITING -> m_send_buffer g = [] -> q <> [] ->
  rtc step (mk_system g [at_drain q])
    (mk_system (mk_shared READY [] (sent g ++ q) (failed g)) [returned 0]).
Proof.
  induction q as [|d q IH]; intros [bf buf se fa] Hb Hq Hne; [done|]. cbn in Hb, Hq. subst.
  eapply rtc_l; [by apply (step_call true 0)|]. cbn [glob calls sent failed insert list_insert m_bf_state m_send_buffer].
  destruct q as [|d2 q].
  - eapply rtc_l; [by apply (step_call true 0)|]. constructor.
  - cbn [drain_next]. specialize (IH (mk_shared WAITING [] (se ++ [d]) fa) eq_refl eq_refl ltac:(done)).
    cbn [sent failed] in IH. rewrite <- app_assoc in IH. exact IH.
Qed.
