(* ===== verification/Timer.v ===== *)
(** * Timers

    Models [sylar/basic/timer/]: [TimerBlock] (the tasks of one time slice),
    [TimeTask] and [TimeManager], which keeps the slices in a multimap keyed by
    their start, and one timerfd armed for the earliest task.

    Blocks are shared objects: the multimap holds references into a heap, as the
    source holds [shared_ptr]s.  The clock is an argument wherever the source
    reads it, once per read.  [timerfd] is the absolute time at which the
    descriptor fires; [scheduled] are the tasks handed to the IO manager, in
    order.  The operations are one step each here; the window between looking a
    block up and inserting into it is modelled in [TimerRace]. *)

From stdpp Require Import gmap.
From S2P Require Import Prelude.

Definition UINT64_MAX : Z := 2 ^ 64 - 1.

(** ** Multimaps: entries in key order, equal keys in insertion order *)

Fixpoint mm_insert {A} (k : Z) (v : A) (l : list (Z * A)) : list (Z * A) :=
  match l with
  | [] => [(k, v)]
  | (k', v') :: l' => if k' <=? k then (k', v') :: mm_insert k v l' else (k, v) :: l
  end.

Fixpoint mm_find {A} (k : Z) (l : list (Z * A)) : option A :=
  match l with
  | [] => None
  | (k', v) :: l => if k' =? k then Some v else mm_find k l
  end.

(** The leading entries with a key up to [now], and the others. *)
Fixpoint mm_span {A} (now : Z) (l : list (Z * A)) : list (Z * A) * list (Z * A) :=
  match l with
  | [] => ([], [])
  | (k, v) :: l' =>
      if k <=? now then let (a, b) := mm_span now l' in ((k, v) :: a, b) else ([], l)
  end.

(** ** [TimerBlock] *)

Record TimerBlock := mk_block {
  start_time : Z;
  end_time : Z;
  time_tasks : list (Z * nat);          (* std::multimap<uint64_t, TimeTask::ptr> *)
  task_count : Z;
}.

#[global] Instance TimerBlock_inhabited : Inhabited TimerBlock := populate (mk_block 0 0 [] 0).

Definition TimerBlock_ctor (start end_ : Z) : TimerBlock := mk_block start end_ [] 0.

Definition block_insert (execute_time : Z) (task : nat) (b : TimerBlock) : TimerBlock :=
  mk_block (start_time b) (end_time b) (mm_insert execute_time task (time_tasks b))
    (u64 (task_count b + 1)).

Definition getAndRemove (timeMs : Z) (b : TimerBlock) : list (Z * nat) * TimerBlock :=
  let (gone, left_) := mm_span timeMs (time_tasks b) in
  (gone, mk_block (start_time b) (end_time b) left_ (u64 (task_count b - zlen gone))).

Definition block_empty (b : TimerBlock) : bool := bool_decide (time_tasks b = []).

Definition getNextExecuteTime (b : TimerBlock) : Z :=
  match time_tasks b with [] => UINT64_MAX | (t, _) :: _ => t end.

(** ** [TimeTask] *)

Record TimeTask := mk_task {
  m_intreval_ms : Z;
  m_execute_ms : Z;
  m_is_cycle : bool;
  m_is_canceled : bool;
  m_has_condition : bool;
  m_has_condition_cb : bool;
}.

(** [TimeTask::create] at time [now]. *)
Definition TimeTask_create (now ms : Z) (is_cycle has_condition has_condition_cb : bool) : TimeTask :=
  mk_task ms (u64 (now + ms)) is_cycle false has_condition has_condition_cb.

Definition cancel (t : TimeTask) : TimeTask :=
  mk_task (m_intreval_ms t) (m_execute_ms t) (m_is_cycle t) true (m_has_condition t) (m_has_condition_cb t).

Definition shouldReEnroll (t : TimeTask) : bool := negb (m_is_canceled t) && m_is_cycle t.

Definition next (t : TimeTask) : TimeTask :=
  mk_task (m_intreval_ms t)
    (if m_is_cycle t then u64 (m_execute_ms t + m_intreval_ms t) else 0)
    (m_is_cycle t) (m_is_canceled t) (m_has_condition t) (m_has_condition_cb t).

(** The callbacks [runner] calls, in order. *)
Inductive callback := condition_called | main_called | condition_cb_called.

(** [runner]; [cond] is the answer of the condition.  The flag [m_is_canceled]
    is read but decides nothing. *)
Definition runner (cond : bool) (t : TimeTask) : list callback * TimeTask :=
  let calls :=
    if m_has_condition t then
      condition_called ::
        (if cond then [main_called] else if m_has_condition_cb t then [condition_cb_called] else [])
    else [main_called] in
  (calls, next t).

(** ** [TimeManager] *)

Record TimeManager := mk_tm {
  m_nextTimerTime : Z;
  m_time_blocks : list (Z * nat);       (* std::multimap<uint64_t, TimerBlock::ptr> *)
  heap : gmap nat TimerBlock;           (* the blocks the references stand for *)
  next_ref : nat;
  m_base_time : Z;
  m_block_size_ms : Z;
  m_timerCount : Z;
  timerfd : option Z;
  scheduled : list nat;
}.

Definition TimeManager_init (base blockLength : Z) : TimeManager :=
  mk_tm UINT64_MAX [] ∅ 0 base blockLength 0 None [].

Definition set_next (n : Z) (m : TimeManager) : TimeManager :=
  mk_tm n (m_time_blocks m) (heap m) (next_ref m) (m_base_time m) (m_block_size_ms m)
    (m_timerCount m) (timerfd m) (scheduled m).
Definition set_blocks (bs : list (Z * nat)) (h : gmap nat TimerBlock) (m : TimeManager) : TimeManager :=
  mk_tm (m_nextTimerTime m) bs h (next_ref m) (m_base_time m) (m_block_size_ms m)
    (m_timerCount m) (timerfd m) (scheduled m).
Definition set_count (n : Z) (m : TimeManager) : TimeManager :=
  mk_tm (m_nextTimerTime m) (m_time_blocks m) (heap m) (next_ref m) (m_base_time m)
    (m_block_size_ms m) (u64 n) (timerfd m) (scheduled m).
Definition set_timerfd (t : option Z) (m : TimeManager) : TimeManager :=
  mk_tm (m_nextTimerTime m) (m_time_blocks m) (heap m) (next_ref m) (m_base_time m)
    (m_block_size_ms m) (m_timerCount m) t (scheduled m).
Definition schedule (task : nat) (m : TimeManager) : TimeManager :=
  mk_tm (m_nextTimerTime m) (m_time_blocks m) (heap m) (next_ref m) (m_base_time m)
    (m_block_size_ms m) (m_timerCount m) (timerfd m) (scheduled m ++ [task]).
Definition new_block (b : TimerBlock) (m : TimeManager) : nat * TimeManager :=
  (next_ref m,
   mk_tm (m_nextTimerTime m) (m_time_blocks m) (<[next_ref m := b]> (heap m)) (S (next_ref m))
     (m_base_time m) (m_block_size_ms m) (m_timerCount m) (timerfd m) (scheduled m)).

(** The relative time written into [itimerspec], seconds and nanoseconds. *)
Definition itimerspec (now execute_time : Z) : Z * Z :=
  if execute_time <=? now then (0, 1000000)
  else (u64 (execute_time - now) / 1000, u64 (execute_time - now) mod 1000 * 1000000).

(** When a timerfd set to [(sec, nsec)] at [now] fires, in milliseconds. *)
Definition fires_at (now : Z) (v : Z * Z) : Z := now + v.1 * 1000 + v.2 / 1000000.

(** [updateTimerFd]; [ok] tells whether [timerfd_settime] succeeds. *)
Definition updateTimerFd (now : Z) (ok : bool) (execute_time : Z) (m : TimeManager) : Z * TimeManager :=
  if m_nextTimerTime m <=? execute_time then (0, m)
  else if negb ok then (-1, m)
  else
    (0, set_next execute_time
          (set_timerfd (Some (fires_at now (itimerspec now execute_time))) m)).

Inductive block_res :=
  | GB_ok (ref : nat) (m : TimeManager)
  | GB_null                              (* the time is in the past *)
  | GB_assert.                           (* bad timerBlockRange *)

Definition block_begin (m : TimeManager) (execute_time : Z) : Z :=
  u64 (m_base_time m + u64 (execute_time - m_base_time m) / m_block_size_ms m * m_block_size_ms m).

Definition getOrCreateTimerBlock (now execute_time : Z) (m : TimeManager) : block_res :=
  if execute_time <? now then GB_null
  else
    let begin := block_begin m execute_time in
    match mm_find begin (m_time_blocks m) with
    | Some ref => GB_ok ref m
    | None =>
        let end_ := u64 (begin + m_block_size_ms m) in
        if (begin <=? execute_time) && (execute_time <? end_) then
          let (ref, m) := new_block (TimerBlock_ctor begin end_) m in
          GB_ok ref (set_blocks (mm_insert begin ref (m_time_blocks m)) (heap m) m)
        else GB_assert
    end.

Inductive insert_res :=
  | IT_ret (rc : Z) (m : TimeManager)
  | IT_assert.

(** [insertTimeTask] once it has its block [ref]. *)
Definition insert_into (now3 : Z) (ok : bool) (execute_time : Z) (task : nat) (ref : nat)
    (m : TimeManager) : insert_res :=
  let b := heap m !!! ref in
  if (execute_time <? start_time b) || (end_time b <=? execute_time) then IT_ret (-1) m
  else
    let m := set_blocks (m_time_blocks m) (<[ref := block_insert execute_time task b]> (heap m)) m in
    if execute_time <? m_nextTimerTime m then
      let (rc, m) := updateTimerFd now3 ok execute_time m in
      if rc =? -1 then IT_ret (-1) m else IT_ret 0 (set_count (m_timerCount m + 1) m)
    else IT_ret 0 (set_count (m_timerCount m + 1) m).

(** [insertTimeTask]: the clock is read by it ([now]), by
    [getOrCreateTimerBlock] ([now2]) and by [updateTimerFd] ([now3]). *)
Definition insertTimeTask (now now2 now3 : Z) (ok : bool) (execute_time : Z) (task : nat)
    (m : TimeManager) : insert_res :=
  if execute_time <=? now then IT_ret 0 (schedule task m)
  else
    match getOrCreateTimerBlock now2 execute_time m with
    | GB_null => IT_ret (-1) m
    | GB_assert => IT_assert
    | GB_ok ref m => insert_into now3 ok execute_time task ref m
    end.

(** The loop over the candidate blocks: the expired tasks, in order. *)
Fixpoint collect (now : Z) (blocks : list (Z * nat)) (h : gmap nat TimerBlock)
    : list (Z * nat) * gmap nat TimerBlock :=
  match blocks with
  | [] => ([], h)
  | (_, ref) :: blocks =>
      let (gone, b) := getAndRemove now (h !!! ref) in
      let (gone', h) := collect now blocks (<[ref := b]> h) in
      (gone ++ gone', h)
  end.

(** The clean-up loop: blocks that are over or empty are erased. *)
Definition keep_block (now : Z) (h : gmap nat TimerBlock) (e : Z * nat) : bool :=
  negb ((end_time (h !!! e.2) <=? now) || block_empty (h !!! e.2)).

(** The first execution time of the first block that has one. *)
Fixpoint first_time (blocks : list (Z * nat)) (h : gmap nat TimerBlock) : Z :=
  match blocks with
  | [] => UINT64_MAX
  | (_, ref) :: blocks =>
      let t := getNextExecuteTime (h !!! ref) in
      if t =? UINT64_MAX then first_time blocks h else t
  end.

(** [onTimerTriggered] at [now]; [updateTimerFd] reads the clock again. *)
Definition onTimerTriggered (now now2 : Z) (ok : bool) (m : TimeManager) : TimeManager :=
  let m := set_timerfd None m in                              (* the descriptor has fired *)
  let candidates := (mm_span now (m_time_blocks m)).1 in
  let (expired, h) := collect now candidates (heap m) in
  let blocks := List.filter (keep_block now h) (m_time_blocks m) in
  let m := set_next UINT64_MAX (set_blocks blocks h m) in
  let next_time := first_time blocks h in
  let m := if next_time =? UINT64_MAX then m else (updateTimerFd now2 ok next_time m).2 in
  fold_left (fun m e => schedule e.2 (set_count (m_timerCount m - 1) m)) expired m.

(** [addTimer] and [addConditionTimer] hand the task to [insertTimeTask]; a
    condition timer without its two functions is not inserted. *)
Definition addConditionTimer (now now2 now3 : Z) (ok : bool) (task : TimeTask) (ref : nat)
    (m : TimeManager) : insert_res :=
  if negb (m_has_condition task) || negb (m_has_condition_cb task) then IT_ret 0 m
  else insertTimeTask now now2 now3 ok (m_execute_ms task) ref m.

Definition addTimer (now now2 now3 : Z) (ok : bool) (task : TimeTask) (ref : nat) (m : TimeManager)
    : insert_res :=
  insertTimeTask now now2 now3 ok (m_execute_ms task) ref m.

(** [runTimeTask]: run the callbacks, then enrol a periodic task again. *)
Definition runTimeTask (cond : bool) (now now2 now3 : Z) (ok : bool) (task : TimeTask) (ref : nat)
    (m : TimeManager) : list callback * TimeTask * insert_res :=
  let (calls, task) := runner cond task in
  (calls, task,
   if negb (m_is_canceled task) && m_is_cycle task then
     insertTimeTask now now2 now3 ok (m_execute_ms task) ref m
   else IT_ret 0 m).

(** ** The pending tasks *)

(** Every task that is in a block the manager knows, in block and key order. *)
Definition tasks_of (h : gmap nat TimerBlock) (bs : list (Z * nat)) : list (Z * nat) :=
  flat_map (fun e => time_tasks (h !!! e.2)) bs.
Definition pending (m : TimeManager) : list (Z * nat) := tasks_of (heap m) (m_time_blocks m).
