(* ===== verification/TimerProps.v ===== *)
(** * Properties of the timers

    The manager's invariant, insertion and the trigger: no task is lost, run
    early or run twice, and the timerfd is armed for the earliest task. *)

From stdpp Require Import gmap sorting.
From S2P Require Import Prelude Timer.

(** ** Keyed lists *)

Definition keys_le {A} (l : list (Z * A)) : Prop := StronglySorted (fun a b => a.1 <= b.1) l.
Definition keys_lt {A} (l : list (Z * A)) : Prop := StronglySorted (fun a b => a.1 < b.1) l.

Definition due {A} (now : Z) (l : list (Z * A)) : list (Z * A) := List.filter (fun e => e.1 <=? now) l.
Definition later {A} (now : Z) (l : list (Z * A)) : list (Z * A) := List.filter (fun e => now <? e.1) l.

Definition head_time {A} (l : list (Z * A)) : Z := match l with [] => UINT64_MAX | (t, _) :: _ => t end.

Lemma keys_lt_le {A} (l : list (Z * A)) : keys_lt l -> keys_le l.
Proof.
  induction 1 as [|e l Hs IH Hall]; constructor; [done|].
  eapply Forall_impl; [exact Hall|]. cbn. lia.
Qed.

Lemma due_all {A} now (l : list (Z * A)) : Forall (fun e => e.1 <= now) l -> due now l = l /\ later now l = [].
Proof.
  induction 1 as [|e l He _ [IH1 IH2]]; [done|]. unfold due, later in *. cbn [List.filter].
  rewrite (proj2 (Z.leb_le _ _)), (proj2 (Z.ltb_ge _ _)), IH1, IH2 by done. done.
Qed.

Lemma later_all {A} now (l : list (Z * A)) : Forall (fun e => now < e.1) l -> due now l = [] /\ later now l = l.
Proof.
  induction 1 as [|e l He _ [IH1 IH2]]; [done|]. unfold due, later in *. cbn [List.filter].
  rewrite (proj2 (Z.leb_gt _ _)), (proj2 (Z.ltb_lt _ _)), IH1, IH2 by done. done.
Qed.

Lemma mm_span_sorted {A} now (l : list (Z * A)) : keys_le l -> mm_span now l = (due now l, later now l).
Proof.
  induction 1 as [|[k v] l Hs IH Hall]; [done|]. cbn [mm_span]. destruct (k <=? now) eqn:E.
  - rewrite IH. unfold due, later. cbn [List.filter fst]. rewrite E.
    by rewrite (proj2 (Z.ltb_ge now k)) by (bool_to_prop; lia).
  - bool_to_prop. destruct (later_all now ((k, v) :: l)) as [-> ->]; [|done].
    constructor; [done|]. eapply Forall_impl; [exact Hall|]. cbn. lia.
Qed.

Lemma due_app {A} now (l k : list (Z * A)) : due now (l ++ k) = due now l ++ due now k.
Proof. apply List.filter_app. Qed.
Lemma later_app {A} now (l k : list (Z * A)) : later now (l ++ k) = later now l ++ later now k.
Proof. apply List.filter_app. Qed.

Lemma mm_insert_app_l {A} k (v : A) l r :
  Forall (fun e => e.1 <= k) l -> mm_insert k v (l ++ r) = l ++ mm_insert k v r.
Proof.
  induction 1 as [|[k' v'] l He _ IH]; [done|]. cbn in *.
  by rewrite (proj2 (Z.leb_le k' k)), IH by done.
Qed.

Lemma mm_insert_app_r {A} k (v : A) l r :
  Forall (fun e => k < e.1) r -> mm_insert k v (l ++ r) = mm_insert k v l ++ r.
Proof.
  intros Hr. induction l as [|[k' v'] l IH].
  - destruct Hr as [|[k' v'] r He _]; [done|]. cbn in *. by rewrite (proj2 (Z.leb_gt k' k)).
  - cbn. destruct (k' <=? k); [by rewrite IH|done].
Qed.

Lemma mm_insert_Forall {A} (P : Z * A -> Prop) k v l :
  P (k, v) -> Forall P l -> Forall P (mm_insert k v l).
Proof.
  intros Hk. induction 1 as [|[k' v'] l He Hl IH]; cbn; [by repeat constructor|].
  destruct (k' <=? k); repeat constructor; done.
Qed.

Lemma mm_insert_sorted {A} k (v : A) l : keys_le l -> keys_le (mm_insert k v l).
Proof.
  induction 1 as [|[k' v'] l Hs IH Hall]; cbn; [repeat constructor|].
  destruct (k' <=? k) eqn:E; bool_to_prop.
  - constructor; [done|]. by apply mm_insert_Forall.
  - constructor; [by constructor|]. constructor; [cbn; lia|].
    eapply Forall_impl; [exact Hall|]. cbn. lia.
Qed.

Lemma mm_insert_length {A} k (v : A) l : zlen (mm_insert k v l) = zlen l + 1.
Proof.
  induction l as [|[k' v'] l IH]; [done|]. cbn. destruct (k' <=? k); rewrite !zlen_cons; [rewrite IH|]; lia.
Qed.

Lemma head_time_insert {A} k (v : A) l :
  k < UINT64_MAX -> head_time (mm_insert k v l) = if k <? head_time l then k else head_time l.
Proof.
  intros Hk. destruct l as [|[k' v'] l]; cbn; [by rewrite (proj2 (Z.ltb_lt k UINT64_MAX))|].
  destruct (k' <=? k) eqn:E, (k <? k') eqn:E'; bool_to_prop; (done || lia).
Qed.

(** A strictly sorted multimap around a key. *)
Lemma mm_find_split {A} k (l : list (Z * A)) v :
  keys_lt l -> mm_find k l = Some v ->
  exists l1 l2, l = l1 ++ (k, v) :: l2 /\ Forall (fun e => e.1 < k) l1 /\ Forall (fun e => k < e.1) l2.
Proof.
  induction 1 as [|[k' v'] l Hs IH Hall]; cbn; [done|]. destruct (k' =? k) eqn:E; bool_to_prop.
  - intros [= ->]. subst. by exists [], l.
  - intros Hf. destruct (IH Hf) as (l1 & l2 & -> & H1 & H2). exists ((k', v') :: l1), l2.
    split_and!; [done| |done]. constructor; [|done].
    apply Forall_app in Hall as [_ Hall]. by inversion_clear Hall.
Qed.

Lemma mm_insert_fresh {A} k (v : A) l :
  keys_lt l -> mm_find k l = None ->
  exists l1 l2, l = l1 ++ l2 /\ mm_insert k v l = l1 ++ (k, v) :: l2 /\
    Forall (fun e => e.1 < k) l1 /\ Forall (fun e => k < e.1) l2.
Proof.
  induction 1 as [|[k' v'] l Hs IH Hall]; cbn; [by exists [], []|].
  destruct (k' =? k) eqn:E; [done|]. bool_to_prop. intros Hf.
  destruct (k' <=? k) eqn:E'; bool_to_prop.
  - destruct (IH Hf) as (l1 & l2 & -> & -> & H1 & H2). exists ((k', v') :: l1), l2.
    split_and!; try done. constructor; [cbn; lia|done].
  - exists [], ((k', v') :: l). split_and!; try done. constructor; [cbn; lia|].
    eapply Forall_impl; [exact Hall|]. cbn. lia.
Qed.

Lemma keys_lt_middle {A} k (v : A) l1 l2 :
  keys_lt (l1 ++ l2) -> Forall (fun e => e.1 < k) l1 -> Forall (fun e => k < e.1) l2 ->
  keys_lt (l1 ++ (k, v) :: l2).
Proof.
  induction l1 as [|e l1 IH]; intros Hs H1 H2; cbn in *.
  - by constructor.
  - inversion_clear Hs as [|? ? Hs' Hall]. inversion_clear H1.
    constructor; [by apply IH|]. apply Forall_app in Hall as [Ha Hb].
    apply Forall_app. split; [done|]. by constructor.
Qed.

(** ** The invariant *)

(** A block holds the tasks of its slice, sorted. *)
Record block_ok (base size s : Z) (b : TimerBlock) : Prop := mk_block_ok {
  bo_start : start_time b = s;
  bo_end : end_time b = s + size;
  bo_aligned : exists k, 0 <= k /\ s = base + k * size;
  bo_max : s + size < UINT64_MAX;
  bo_sorted : keys_le (time_tasks b);
  bo_range : Forall (fun e => s <= e.1 < s + size) (time_tasks b);
}.

(** [c] bounds the clock readings so far. *)
Record tm_inv (c : Z) (m : TimeManager) : Prop := mk_tm_inv {
  ti_size : 0 < m_block_size_ms m;
  ti_base : 0 <= m_base_time m;
  ti_sorted : keys_lt (m_time_blocks m);
  ti_nodup : NoDup (map snd (m_time_blocks m));
  ti_refs : Forall (fun e => (e.2 < next_ref m)%nat) (m_time_blocks m);
  ti_blocks : Forall (fun e => block_ok (m_base_time m) (m_block_size_ms m) e.1 (heap m !!! e.2))
                (m_time_blocks m);
  ti_next : m_nextTimerTime m = head_time (pending m);
  ti_count : m_timerCount m = wrap 64 (zlen (pending m));
  ti_armed : match pending m with
             | [] => True
             | (t, _) :: _ => exists f, timerfd m = Some f /\ t <= f <= Z.max t (c + 1)
             end;
}.

Lemma TimeManager_init_inv c base size : 0 < size -> 0 <= base -> tm_inv c (TimeManager_init base size).
Proof. intros. split; (done || constructor). Qed.

(** ** The timerfd *)

Lemma fires_at_itimerspec now t :
  0 <= now -> t < 2 ^ 64 -> fires_at now (itimerspec now t) = Z.max t (now + 1).
Proof.
  intros Hn Ht. unfold fires_at, itimerspec. destruct (t <=? now) eqn:E; bool_to_prop; cbn [fst snd].
  - change (1000000 / 1000000) with 1. lia.
  - rewrite wrap_small by lia. rewrite Z.div_mul by lia. Z.to_euclidean_division_equations; lia.
Qed.

(** ** The heap of blocks *)

Lemma tasks_of_app h l1 l2 : tasks_of h (l1 ++ l2) = tasks_of h l1 ++ tasks_of h l2.
Proof. apply flat_map_app. Qed.

Lemma tasks_of_insert_fresh h r b bs :
  r ∉ map snd bs -> tasks_of (<[r := b]> h) bs = tasks_of h bs.
Proof.
  induction bs as [|e bs IH]; cbn; [done|]. intros Hr.
  apply not_elem_of_cons in Hr as [Hne Hr]. unfold tasks_of in *. cbn.
  by rewrite lookup_total_insert_ne, IH.
Qed.

Lemma tasks_of_Forall (P : Z * nat -> Prop) h bs :
  Forall (fun e => Forall P (time_tasks (h !!! e.2))) bs -> Forall P (tasks_of h bs).
Proof. induction 1; cbn; [done|]. by apply Forall_app. Qed.

(** ** The trigger *)

Definition cut (now : Z) (b : TimerBlock) : TimerBlock := (getAndRemove now b).2.

Lemma getAndRemove_sorted now b :
  keys_le (time_tasks b) ->
  getAndRemove now b = (due now (time_tasks b), cut now b) /\
  time_tasks (cut now b) = later now (time_tasks b).
Proof. intros Hs. unfold cut, getAndRemove. by rewrite mm_span_sorted. Qed.

Lemma collect_spec now bs : forall h,
  NoDup (map snd bs) -> Forall (fun e => keys_le (time_tasks (h !!! e.2))) bs ->
  exists h', collect now bs h = (flat_map (fun e => due now (time_tasks (h !!! e.2))) bs, h') /\
    (forall r, r ∈ map snd bs -> h' !!! r = cut now (h !!! r)) /\
    (forall r, r ∉ map snd bs -> h' !!! r = h !!! r).
Proof.
  induction bs as [|[s r] bs IH]; intros h Hnd Hs; cbn [collect flat_map].
  { exists h. split_and!; [done| |done]. intros r Hr. by apply elem_of_nil in Hr. }
  cbn in Hnd. apply NoDup_cons in Hnd as [Hr Hnd]. inversion_clear Hs as [|? ? Hb Hs']. cbn in Hb.
  destruct (getAndRemove_sorted now (h !!! r) Hb) as [-> _].
  destruct (IH (<[r := cut now (h !!! r)]> h) Hnd) as (h' & -> & Hin & Hout).
  { clear -Hs' Hr. induction Hs' as [|e bs He _ IH]; [constructor|]. cbn in Hr.
    apply not_elem_of_cons in Hr as [Hne Hr]. constructor; [|by apply IH].
    by rewrite lookup_total_insert_ne. }
  exists h'. split_and!.
  - f_equal. f_equal. clear -Hr. induction bs as [|e bs IH]; [done|]. cbn in *.
    apply not_elem_of_cons in Hr as [Hne Hr]. by rewrite lookup_total_insert_ne, IH.
  - intros r' Hr'. cbn in Hr'. apply elem_of_cons in Hr' as [->|Hr'].
    + rewrite Hout by done. by rewrite lookup_total_insert_eq.
    + rewrite Hin by done. rewrite lookup_total_insert_ne; [done|]. by intros ->.
  - intros r' Hr'. cbn in Hr'. apply not_elem_of_cons in Hr' as [Hne Hr'].
    rewrite Hout by done. by rewrite lookup_total_insert_ne.
Qed.

Lemma refs_inj (bs : list (Z * nat)) e1 e2 :
  NoDup (map snd bs) -> e1 ∈ bs -> e2 ∈ bs -> e1.2 = e2.2 -> e1 = e2.
Proof.
  induction bs as [|e bs IH]; cbn; intros Hnd H1 H2 E; [by apply elem_of_nil in H1|].
  apply NoDup_cons in Hnd as [Hn Hnd].
  assert (Hin : forall x, x ∈ bs -> x.2 ∈ map snd bs) by (intros x Hx; by apply (list_elem_of_fmap_2 snd)).
  apply elem_of_cons in H1 as [->|H1]; apply elem_of_cons in H2 as [->|H2]; try done.
  - exfalso. apply Hn. rewrite E. by apply Hin.
  - exfalso. apply Hn. rewrite <- E. by apply Hin.
  - by apply IH.
Qed.

Lemma elem_of_due {A} now (l : list (Z * A)) e : e ∈ due now l <-> e ∈ l /\ e.1 <= now.
Proof. unfold due. rewrite !list_elem_of_In, filter_In, Z.leb_le. done. Qed.

(** The heap after the expired tasks were taken out of the blocks of [m]. *)
Definition triggered (now : Z) (m : TimeManager) (h' : gmap nat TimerBlock) : Prop :=
  forall e, e ∈ m_time_blocks m ->
  time_tasks (h' !!! e.2) = later now (time_tasks (heap m !!! e.2)) /\
  start_time (h' !!! e.2) = start_time (heap m !!! e.2) /\
  end_time (h' !!! e.2) = end_time (heap m !!! e.2) /\
  (now < e.1 -> due now (time_tasks (heap m !!! e.2)) = []).

Lemma trigger_heap c now m (h' : gmap nat TimerBlock) :
  tm_inv c m ->
  (forall r, r ∈ map snd (due now (m_time_blocks m)) -> h' !!! r = cut now (heap m !!! r)) ->
  (forall r, r ∉ map snd (due now (m_time_blocks m)) -> h' !!! r = heap m !!! r) ->
  triggered now m h'.
Proof.
  intros Hinv Hin Hout e He.
  pose proof (proj1 (Forall_forall _ _) (ti_blocks c m Hinv) e He) as Hb. cbn in Hb.
  destruct (decide (e.1 <= now)) as [Hle|Hgt].
  - rewrite Hin; [|apply (list_elem_of_fmap_2 snd), elem_of_due; done].
    destruct (getAndRemove_sorted now (heap m !!! e.2)) as [_ ->]; [apply Hb|].
    split_and!; [done| | |lia]; unfold cut, getAndRemove; by destruct (mm_span _ _).
  - rewrite Hout.
    + destruct (later_all now (time_tasks (heap m !!! e.2))) as [-> ->]; [|done].
      eapply Forall_impl; [apply Hb|]. cbn. lia.
    + intros Hr. apply list_elem_of_fmap in Hr as (e2 & E & He2).
      apply elem_of_due in He2 as [He2 Hle2].
      rewrite (refs_inj _ _ _ (ti_nodup c m Hinv) He He2 E) in Hgt. lia.
Qed.

Lemma later_flat_map {B} now (f : B -> list (Z * nat)) bs :
  later now (flat_map f bs) = flat_map (fun e => later now (f e)) bs.
Proof. induction bs; cbn [flat_map]; [done|]. by rewrite later_app, IHbs. Qed.
Lemma due_flat_map {B} now (f : B -> list (Z * nat)) bs :
  due now (flat_map f bs) = flat_map (fun e => due now (f e)) bs.
Proof. induction bs; cbn [flat_map]; [done|]. by rewrite due_app, IHbs. Qed.

Lemma flat_map_ext_in {B C} (f g : B -> list C) bs :
  (forall e, e ∈ bs -> f e = g e) -> flat_map f bs = flat_map g bs.
Proof.
  induction bs as [|e bs IH]; intros H; [done|]. cbn. rewrite (H e) by (by left).
  rewrite IH; [done|]. intros e' He'. apply H. by right.
Qed.

Lemma flat_map_filter {B C} (p : B -> bool) (f : B -> list C) bs :
  flat_map f (List.filter p bs) = flat_map (fun e => if p e then f e else []) bs.
Proof. induction bs as [|e bs IH]; cbn; [done|]. destruct (p e); cbn; by rewrite IH. Qed.

(** The collected tasks are the due ones. *)
Lemma triggered_due now m h' :
  triggered now m h' ->
  flat_map (fun e => due now (time_tasks (heap m !!! e.2))) (due now (m_time_blocks m)) = due now (pending m).
Proof.
  intros Ht. unfold pending, tasks_of. rewrite due_flat_map. unfold due at 2. rewrite flat_map_filter.
  apply flat_map_ext_in. intros e He. destruct (Ht e He) as (_ & _ & _ & Hd).
  destruct (e.1 <=? now) eqn:E; [done|]. bool_to_prop. by rewrite Hd.
Qed.

(** The blocks that are kept hold the later ones. *)
Lemma triggered_later c now m h' :
  tm_inv c m -> triggered now m h' ->
  tasks_of h' (List.filter (keep_block now h') (m_time_blocks m)) = later now (pending m).
Proof.
  intros Hinv Ht. unfold pending, tasks_of. rewrite later_flat_map, flat_map_filter.
  apply flat_map_ext_in. intros e He. destruct (Ht e He) as (Hl & _ & Hend & _).
  pose proof (proj1 (Forall_forall _ _) (ti_blocks c m Hinv) e He) as Hb. cbn in Hb.
  unfold keep_block. rewrite Hend, (bo_end _ _ _ _ Hb).
  destruct (_ || _) eqn:E; cbn [negb]; [|done].
  apply orb_true_iff in E as [E|E].
  - bool_to_prop. destruct (due_all now (time_tasks (heap m !!! e.2))) as [_ ->]; [|done].
    eapply Forall_impl; [apply Hb|]. cbn. lia.
  - unfold block_empty in E. apply bool_decide_eq_true in E. by rewrite <- Hl, E.
Qed.

Lemma filter_sorted {A} (R : A -> A -> Prop) p l :
  StronglySorted R l -> StronglySorted R (List.filter p l).
Proof.
  induction 1 as [|x l Hs IH Hall]; cbn; [constructor|].
  destruct (p x); [|done]. constructor; [done|].
  apply Forall_forall. intros y Hy. apply list_elem_of_In, filter_In in Hy as [Hy _].
  by apply (proj1 (Forall_forall _ _) Hall), list_elem_of_In.
Qed.

Lemma filter_Forall {A} (P : A -> Prop) p l : Forall P l -> Forall P (List.filter p l).
Proof.
  intros H. apply Forall_forall. intros y Hy. apply list_elem_of_In, filter_In in Hy as [Hy _].
  by apply (proj1 (Forall_forall _ _) H), list_elem_of_In.
Qed.

Lemma triggered_blocks c now m h' :
  tm_inv c m -> triggered now m h' ->
  Forall (fun e => block_ok (m_base_time m) (m_block_size_ms m) e.1 (h' !!! e.2)) (m_time_blocks m).
Proof.
  intros Hinv Ht. apply Forall_forall. intros e He. destruct (Ht e He) as (Hl & Hs & Hend & _).
  destruct (proj1 (Forall_forall _ _) (ti_blocks c m Hinv) e He) as [B1 B2 B3 B4 B5 B6].
  split; rewrite ?Hl, ?Hs, ?Hend; try done; [by apply filter_sorted|by apply filter_Forall].
Qed.

Lemma due_sublist {A} now (l : list (Z * A)) : due now l `sublist_of` l.
Proof. unfold due. induction l as [|e l IH]; cbn; [done|]. destruct (_ <=? now); by constructor. Qed.

Lemma filter_sublist {A} (p : A -> bool) l : List.filter p l `sublist_of` l.
Proof. induction l as [|e l IH]; cbn; [done|]. destruct (p e); by constructor. Qed.

Lemma trigger_collect c now m :
  tm_inv c m ->
  exists h', collect now (mm_span now (m_time_blocks m)).1 (heap m) = (due now (pending m), h') /\
    triggered now m h'.
Proof.
  intros Hinv. rewrite mm_span_sorted by (apply keys_lt_le, Hinv). cbn [fst].
  destruct (collect_spec now (due now (m_time_blocks m)) (heap m)) as (h' & Hc & Hin & Hout).
  { eapply sublist_NoDup; [apply Hinv|]. apply (fmap_sublist snd), due_sublist. }
  { apply Forall_forall. intros e He. apply elem_of_due in He as [He _].
    apply (proj1 (Forall_forall _ _) (ti_blocks c m Hinv) e He). }
  pose proof (trigger_heap c now m h' Hinv Hin Hout) as Ht.
  exists h'. rewrite Hc, (triggered_due now m h') by done. done.
Qed.

(** The earliest time of the first block that has tasks is the earliest of all. *)
Lemma first_time_head h bs :
  Forall (fun e => e.1 < UINT64_MAX) (tasks_of h bs) -> first_time bs h = head_time (tasks_of h bs).
Proof.
  induction bs as [|[s r] bs IH]; [done|]. cbn [first_time tasks_of flat_map snd].
  rewrite Forall_app. intros [Ht Hts]. unfold getNextExecuteTime.
  destruct (time_tasks (h !!! r)) as [|[t v] l].
  - change (UINT64_MAX =? UINT64_MAX) with true. cbn [app]. by apply IH.
  - inversion_clear Ht as [|? ? Hlt]. cbn in Hlt. rewrite (proj2 (Z.eqb_neq _ _)) by lia. done.
Qed.

Lemma pending_below c m : tm_inv c m -> Forall (fun e => e.1 < UINT64_MAX) (pending m).
Proof.
  intros Hinv. apply tasks_of_Forall. eapply Forall_impl; [apply (ti_blocks c m Hinv)|].
  intros e Hb. cbn in Hb.
  eapply Forall_impl; [apply Hb|]. cbn. pose proof (bo_max _ _ _ _ Hb). lia.
Qed.

(** Scheduling the expired tasks. *)
Lemma fold_schedule (expired : list (Z * nat)) : forall m,
  0 <= m_timerCount m < 2 ^ 64 ->
  fold_left (fun m e => schedule e.2 (set_count (m_timerCount m - 1) m)) expired m =
  mk_tm (m_nextTimerTime m) (m_time_blocks m) (heap m) (next_ref m) (m_base_time m)
    (m_block_size_ms m) (wrap 64 (m_timerCount m - zlen expired)) (timerfd m)
    (scheduled m ++ map snd expired).
Proof.
  induction expired as [|e expired IH]; intros m Hc; cbn [fold_left map].
  - change (zlen []) with 0. rewrite app_nil_r, Z.sub_0_r, wrap_small by done. by destruct m.
  - rewrite IH by (by apply wrap_range). cbn [schedule set_count m_nextTimerTime m_time_blocks heap
      next_ref m_base_time m_block_size_ms m_timerCount timerfd scheduled].
    rewrite zlen_cons, <- app_assoc. f_equal. unfold wrap. rewrite Zminus_mod_idemp_l. f_equal. lia.
Qed.

Lemma zlen_due_later {A} now (l : list (Z * A)) : zlen (due now l) + zlen (later now l) = zlen l.
Proof.
  induction l as [|e l IH]; [done|]. unfold due, later in *. cbn [List.filter].
  destruct (e.1 <=? now) eqn:E1, (now <? e.1) eqn:E2; bool_to_prop; try lia; rewrite !zlen_cons; lia.
Qed.

(** Arming the descriptor for the head of a list of times. *)
Definition armed (c : Z) (P : list (Z * nat)) (fd : option Z) : Prop :=
  match P with
  | [] => True
  | (t, _) :: _ => exists f, fd = Some f /\ t <= f <= Z.max t (c + 1)
  end.

Lemma rearm now P m :
  m_nextTimerTime m = UINT64_MAX -> 0 <= now -> Forall (fun e => e.1 < UINT64_MAX) P ->
  exists fd,
    (if head_time P =? UINT64_MAX then m else (updateTimerFd now true (head_time P) m).2) =
    set_next (head_time P) (set_timerfd fd m) /\ armed now P fd.
Proof.
  intros Hm Hn Hb. destruct P as [|[t v] P]; cbn [head_time armed].
  - change (UINT64_MAX =? UINT64_MAX) with true. exists (timerfd m). split; [|done].
    destruct m. cbn in *. by subst.
  - apply Forall_inv in Hb. cbn in Hb. rewrite (proj2 (Z.eqb_neq _ _)) by lia.
    unfold updateTimerFd. rewrite Hm, (proj2 (Z.leb_gt _ _)) by done.
    eexists. split; [done|]. eexists. split; [done|].
    rewrite fires_at_itimerspec by (unfold UINT64_MAX in *; lia). lia.
Qed.

(** * Results *)

(** The trigger: at time [now] it hands exactly the tasks whose time has
    come to the IO manager, in time order, and leaves exactly the others
    pending; the timerfd is armed again for the earliest of them, and the
    invariant holds. *)
Lemma trigger_spec c now now2 m :
  tm_inv c m -> 0 <= c <= now2 ->
  let m' := onTimerTriggered now now2 true m in
  tm_inv now2 m' /\ scheduled m' = scheduled m ++ map snd (due now (pending m)) /\
  pending m' = later now (pending m).
Proof.
  intros Hinv Hc. destruct (trigger_collect c now m Hinv) as (h' & Hcol & Ht).
  pose proof (triggered_later c now m h' Hinv Ht) as Hlat.
  pose proof (triggered_blocks c now m h' Hinv Ht) as Hblk.
  cbn zeta. unfold onTimerTriggered. cbn [set_timerfd m_time_blocks heap]. rewrite Hcol.
  rewrite (first_time_head h') by (rewrite Hlat; apply filter_Forall, (pending_below c m Hinv)).
  rewrite Hlat. set (bs := List.filter (keep_block now h') (m_time_blocks m)) in *.
  edestruct (rearm now2 (later now (pending m)) (set_next UINT64_MAX (set_blocks bs h' (set_timerfd None m))))
    as (fd & E & Hfd); [done|lia|apply filter_Forall, (pending_below c m Hinv)|].
  cbn [set_timerfd set_blocks m_nextTimerTime m_time_blocks heap next_ref m_base_time m_block_size_ms
    m_timerCount timerfd scheduled] in *. rewrite E.
  pose proof (wrap_range 64 (zlen (pending m)) ltac:(lia)) as Hw.
  rewrite fold_schedule by (cbn; by rewrite (ti_count c m Hinv)).
  cbn [set_next set_timerfd m_nextTimerTime m_time_blocks heap next_ref m_base_time m_block_size_ms
    m_timerCount timerfd scheduled].
  split_and!; [|done|exact Hlat].
  split; cbn [m_nextTimerTime m_time_blocks heap next_ref m_base_time m_block_size_ms m_timerCount timerfd];
    change (pending (mk_tm _ _ _ _ _ _ _ _ _)) with (tasks_of h' bs); rewrite ?Hlat; try apply Hinv; try done.
  - apply filter_sorted, Hinv.
  - eapply sublist_NoDup; [apply Hinv|]. apply (fmap_sublist snd), filter_sublist.
  - apply filter_Forall, Hinv.
  - by apply filter_Forall.
  - cbn [set_blocks set_timerfd m_timerCount]. rewrite (ti_count c m Hinv), <- (zlen_due_later now (pending m)). unfold wrap.
    rewrite Zminus_mod_idemp_l. f_equal. lia.
Qed.

(** ** Insertion *)

Lemma block_begin_spec m t :
  0 < m_block_size_ms m -> 0 <= m_base_time m <= t -> t + m_block_size_ms m < UINT64_MAX ->
  let b := block_begin m t in
  b <= t < b + m_block_size_ms m /\ exists k, 0 <= k /\ b = m_base_time m + k * m_block_size_ms m.
Proof.
  intros Hs Hb Ht. unfold block_begin, UINT64_MAX in *.
  set (base := m_base_time m) in *. set (size := m_block_size_ms m) in *.
  rewrite (wrap_small 64 (t - base)) by lia.
  pose proof (Z.div_mod (t - base) size ltac:(lia)) as Hd.
  pose proof (Z.mod_pos_bound (t - base) size Hs) as Hm.
  assert (0 <= (t - base) / size) by (apply Z.div_pos; lia).
  set (q := (t - base) / size) in *. rewrite wrap_small by nia.
  split; [nia|]. by exists q.
Qed.

Lemma aligned_apart base size k k' : 0 < size -> base + k * size < base + k' * size ->
  base + k * size + size <= base + k' * size.
Proof. intros. assert (k < k') by (apply (Z.mul_lt_mono_pos_r size); lia). nia. Qed.

(** Where a block of a time sits among the others. *)
Lemma blocks_apart c m l1 b r l2 t :
  tm_inv c m -> m_time_blocks m = l1 ++ (b, r) :: l2 -> b <= t < b + m_block_size_ms m ->
  Forall (fun e => e.1 <= t) (tasks_of (heap m) l1) /\
  Forall (fun e => t < e.1) (tasks_of (heap m) l2) /\ (r ∉ map snd l1) /\ (r ∉ map snd l2).
Proof.
  intros Hinv E Ht. pose proof (ti_blocks c m Hinv) as Hb. pose proof (ti_sorted c m Hinv) as Hs.
  pose proof (ti_nodup c m Hinv) as Hn. pose proof (ti_size c m Hinv) as Hz. rewrite E in Hb, Hs, Hn.
  apply Forall_app in Hb as [Hb1 Hb2]. inversion_clear Hb2 as [|? ? [_ _ [k [Hk Ek]] _ _ _] Hb2']. cbn in Ek.
  rewrite map_app in Hn. apply NoDup_app in Hn as (_ & Hd & Hn2). cbn in Hn2.
  apply NoDup_cons in Hn2 as [Hn2 _].
  assert (H12 : Forall (fun e => e.1 < b) l1 /\ Forall (fun e => b < e.1) l2).
  { clear -Hs. induction l1 as [|e l1 IH]; cbn in Hs.
    - inversion_clear Hs. done.
    - inversion_clear Hs as [|? ? Hs' Hall]. destruct (IH Hs') as [? ?]. split; [|done].
      constructor; [|done]. apply Forall_app in Hall as [_ Hall]. by inversion_clear Hall. }
  destruct H12 as [H1 H2]. split_and!; [| |intros Hr; apply (Hd r Hr); apply elem_of_cons; by left|done].
  - apply tasks_of_Forall. apply Forall_forall. intros e He.
    pose proof (proj1 (Forall_forall _ _) H1 e He) as Hlt.
    destruct (proj1 (Forall_forall _ _) Hb1 e He) as [_ _ [k' [_ Ek']] _ _ Hr].
    eapply Forall_impl; [exact Hr|]. cbn. intros ? ?.
    assert (e.1 + m_block_size_ms m <= b) by (rewrite Ek, Ek' in *; by apply aligned_apart). lia.
  - apply tasks_of_Forall. apply Forall_forall. intros e He.
    pose proof (proj1 (Forall_forall _ _) H2 e He) as Hlt.
    destruct (proj1 (Forall_forall _ _) Hb2' e He) as [_ _ [k' [_ Ek']] _ _ Hr].
    eapply Forall_impl; [exact Hr|]. cbn. intros ? ?.
    assert (b + m_block_size_ms m <= e.1) by (rewrite Ek, Ek' in *; by apply aligned_apart). lia.
Qed.

(** A new empty block between the others. *)
Definition with_block (b : Z) (l1 l2 : list (Z * nat)) (m : TimeManager) : TimeManager :=
  set_blocks (l1 ++ (b, next_ref m) :: l2) (heap (new_block (TimerBlock_ctor b (b + m_block_size_ms m)) m).2)
    (new_block (TimerBlock_ctor b (b + m_block_size_ms m)) m).2.

Lemma with_block_inv c b l1 l2 m :
  tm_inv c m -> m_time_blocks m = l1 ++ l2 -> Forall (fun e => e.1 < b) l1 -> Forall (fun e => b < e.1) l2 ->
  (exists k, 0 <= k /\ b = m_base_time m + k * m_block_size_ms m) -> b + m_block_size_ms m < UINT64_MAX ->
  tm_inv c (with_block b l1 l2 m) /\ pending (with_block b l1 l2 m) = pending m.
Proof.
  intros Hinv E H1 H2 Hal Hmax. set (blk := TimerBlock_ctor b (b + m_block_size_ms m)).
  pose proof (ti_refs c m Hinv) as Hr. rewrite E in Hr. apply Forall_app in Hr as [Hr1 Hr2].
  assert (Hfresh : forall l : list (Z * nat), Forall (fun e => (e.2 < next_ref m)%nat) l -> next_ref m ∉ map snd l).
  { intros l Hl Hin. apply list_elem_of_fmap in Hin as (e & Ee & He).
    pose proof (proj1 (Forall_forall _ _) Hl e He) as Hlt. cbn in Hlt. lia. }
  assert (Hp : pending (with_block b l1 l2 m) = pending m).
  { unfold pending, with_block. cbn [set_blocks new_block snd heap m_time_blocks]. fold blk.
    rewrite E, !tasks_of_app, tasks_of_insert_fresh by auto. f_equal.
    unfold tasks_of at 1. cbn [flat_map snd]. rewrite lookup_total_insert_eq.
    cbn [time_tasks blk TimerBlock_ctor app]. apply tasks_of_insert_fresh. auto. }
  split; [|done].
  split; rewrite ?Hp; cbn [with_block set_blocks new_block snd m_nextTimerTime m_time_blocks heap next_ref
    m_base_time m_block_size_ms m_timerCount timerfd]; fold blk; try apply Hinv.
  - apply keys_lt_middle; [rewrite <- E; apply Hinv|done|done].
  - rewrite map_app. cbn [map snd]. pose proof (ti_nodup c m Hinv) as Hn. rewrite E, map_app in Hn.
    assert (Hperm : map snd l1 ++ next_ref m :: map snd l2 ≡ₚ next_ref m :: (map snd l1 ++ map snd l2))
      by (symmetry; apply Permutation_middle).
    rewrite Hperm. constructor; [|done]. rewrite elem_of_app. intros [?|?]; [by apply (Hfresh l1)|by apply (Hfresh l2)].
  - apply Forall_app. split; [|constructor; [cbn; lia|]]; (eapply Forall_impl; [eassumption|]; cbn; lia).
  - assert (Hkeep : forall l : list (Z * nat), Forall (fun e => (e.2 < next_ref m)%nat) l ->
      Forall (fun e => block_ok (m_base_time m) (m_block_size_ms m) e.1 (heap m !!! e.2)) l ->
      Forall (fun e => block_ok (m_base_time m) (m_block_size_ms m) e.1 (<[next_ref m := blk]> (heap m) !!! e.2)) l).
    { intros l Hl Hb. apply Forall_forall. intros e He.
      pose proof (proj1 (Forall_forall _ _) Hl e He) as Hlt. cbn in Hlt.
      rewrite lookup_total_insert_ne by lia. apply (proj1 (Forall_forall _ _) Hb e He). }
    pose proof (ti_blocks c m Hinv) as Hb. rewrite E in Hb. apply Forall_app in Hb as [Hb1 Hb2].
    apply Forall_app. split; [by apply Hkeep|]. constructor; [|by apply Hkeep].
    cbn [fst snd]. rewrite lookup_total_insert_eq. split; (done || constructor).
Qed.

(** The block of a time exists afterwards and nothing else changes. *)
Lemma getOrCreate_correct c now2 t m :
  tm_inv c m -> now2 <= t -> m_base_time m <= t -> t + m_block_size_ms m < UINT64_MAX ->
  exists r m1 l1 l2, getOrCreateTimerBlock now2 t m = GB_ok r m1 /\ tm_inv c m1 /\
    pending m1 = pending m /\ scheduled m1 = scheduled m /\
    m_time_blocks m1 = l1 ++ (block_begin m t, r) :: l2 /\
    m_block_size_ms m1 = m_block_size_ms m /\
    (mm_find (block_begin m t) (m_time_blocks m) = None -> time_tasks (heap m1 !!! r) = []).
Proof.
  intros Hinv Hn Hbase Hmax. pose proof (ti_base c m Hinv).
  destruct (block_begin_spec m t (ti_size c m Hinv) ltac:(lia) Hmax) as [Hb Hal].
  set (b := block_begin m t) in *. unfold getOrCreateTimerBlock.
  rewrite (proj2 (Z.ltb_ge t now2)) by done. fold b.
  destruct (mm_find b (m_time_blocks m)) as [r|] eqn:Hf.
  - destruct (mm_find_split b _ r (ti_sorted c m Hinv) Hf) as (l1 & l2 & E & _).
    by exists r, m, l1, l2.
  - rewrite wrap_small by (unfold UINT64_MAX in *; pose proof (ti_size c m Hinv); destruct Hal as (k & ? & ->); nia).
    rewrite (proj2 (Z.leb_le b t)), (proj2 (Z.ltb_lt t _)) by lia. cbn [andb new_block m_time_blocks heap].
    destruct (mm_insert_fresh b (next_ref m) _ (ti_sorted c m Hinv) Hf) as (l1 & l2 & E & Ei & H1 & H2).
    rewrite Ei. destruct (with_block_inv c b l1 l2 m Hinv E H1 H2 Hal ltac:(lia)) as [Hinv' Hp].
    exists (next_ref m), (with_block b l1 l2 m), l1, l2. split_and!; try done.
    intros _. cbn. by rewrite lookup_total_insert_eq.
Qed.

(** Putting a task into a block of the manager. *)
Lemma block_insert_inv c m l1 b r l2 t task :
  tm_inv c m -> m_time_blocks m = l1 ++ (b, r) :: l2 -> b <= t < b + m_block_size_ms m ->
  let h := <[r := block_insert t task (heap m !!! r)]> (heap m) in
  tasks_of h (m_time_blocks m) = mm_insert t task (pending m) /\
  Forall (fun e => block_ok (m_base_time m) (m_block_size_ms m) e.1 (h !!! e.2)) (m_time_blocks m).
Proof.
  intros Hinv E Ht h. destruct (blocks_apart c m l1 b r l2 t Hinv E Ht) as (H1 & H2 & Hr1 & Hr2).
  split.
  - unfold pending. rewrite E, !tasks_of_app. unfold h. rewrite tasks_of_insert_fresh by done.
    unfold tasks_of at 2 4. cbn [flat_map snd]. fold (tasks_of (heap m) l2).
    fold (tasks_of (<[r := block_insert t task (heap m !!! r)]> (heap m)) l2).
    rewrite lookup_total_insert_eq, tasks_of_insert_fresh by done. cbn [block_insert time_tasks].
    rewrite mm_insert_app_l by done. f_equal. symmetry. by apply mm_insert_app_r.
  - pose proof (ti_blocks c m Hinv) as Hb. apply Forall_forall. intros e He.
    pose proof (proj1 (Forall_forall _ _) Hb e He) as Hbe. cbn in Hbe. unfold h.
    destruct (decide (e.2 = r)) as [Er|]; [|by rewrite lookup_total_insert_ne].
    assert (e = (b, r)) as ->.
    { apply (refs_inj _ _ _ (ti_nodup c m Hinv) He); [|done]. rewrite E. apply elem_of_app. right. by left. }
    cbn [fst snd] in *. rewrite lookup_total_insert_eq. destruct Hbe as [B1 B2 B3 B4 B5 B6].
    split; try done; cbn [block_insert time_tasks]; [by apply mm_insert_sorted|by apply mm_insert_Forall].
Qed.

(** Insertion: a task whose time has come is scheduled at once; a later one
    becomes pending, behind the tasks of the same or an earlier time, and the
    timerfd is armed for the earliest pending task. *)
Lemma insert_spec c now now2 now3 t task m :
  tm_inv c m -> 0 <= c <= now3 -> (t <= now \/ now2 <= t) -> m_base_time m <= t -> t + m_block_size_ms m < UINT64_MAX ->
  exists m', insertTimeTask now now2 now3 true t task m = IT_ret 0 m' /\ tm_inv now3 m' /\
    if t <=? now then scheduled m' = scheduled m ++ [task] /\ pending m' = pending m
    else scheduled m' = scheduled m /\ pending m' = mm_insert t task (pending m).
Proof.
  intros Hinv Hc Hn2 Hbase Hmax. unfold insertTimeTask. destruct (t <=? now) eqn:Enow; bool_to_prop.
  { exists (schedule task m). split; [done|]. split; [|done].
    destruct Hinv as [? ? ? ? ? ? ? ? Ha]. split; try done. change (pending (schedule task m)) with (pending m).
    cbn [schedule timerfd]. destruct (pending m) as [|[t0 v] P]; [done|]. destruct Ha as (f & -> & ?).
    exists f. split; [done|lia]. }
  destruct (getOrCreate_correct c now2 t m Hinv ltac:(lia) Hbase Hmax) as (r & m1 & l1 & l2 & -> & Hinv1 & Hp & Hsc & E & Hsz & _).
  destruct (block_begin_spec m t (ti_size c m Hinv) ltac:(pose proof (ti_base c m Hinv); lia) Hmax) as [Hb _].
  rewrite <- Hsz in Hb. destruct (block_insert_inv c m1 l1 _ r l2 t task Hinv1 E Hb) as [Hp2 Hb2].
  assert (Hbo : block_ok (m_base_time m1) (m_block_size_ms m1) (block_begin m t) (heap m1 !!! r)).
  { apply (proj1 (Forall_forall _ _) (ti_blocks c m1 Hinv1) (block_begin m t, r)).
    rewrite E. apply elem_of_app. right. by left. }
  unfold insert_into. rewrite (bo_start _ _ _ _ Hbo), (bo_end _ _ _ _ Hbo), (proj2 (Z.ltb_ge t _)), (proj2 (Z.leb_gt _ t)) by lia.
  cbn [orb set_blocks m_nextTimerTime]. set (h := <[r := _]> (heap m1)) in *.
  pose proof (ti_next c m1 Hinv1) as Hnx. rewrite Hnx.
  pose proof (head_time_insert t task (pending m1) ltac:(pose proof (ti_size c m Hinv); lia)) as Hh.
  assert (Hfin : forall fd nx, nx = head_time (mm_insert t task (pending m1)) ->
    armed now3 (mm_insert t task (pending m1)) fd ->
    tm_inv now3 (set_count (m_timerCount m1 + 1)
      (set_next nx (set_timerfd fd (set_blocks (m_time_blocks m1) h m1))))).
  { intros fd nx -> Ha. destruct Hinv1 as [? ? ? ? ? ? ? Hct ?].
    set (m' := set_count _ _). assert (Hpm : pending m' = mm_insert t task (pending m1)) by exact Hp2.
    split; rewrite ?Hpm; try done.
    cbn [m' set_count m_timerCount set_next set_timerfd set_blocks]. rewrite Hct, mm_insert_length.
    unfold wrap. by rewrite Zplus_mod_idemp_l. }
  destruct (t <? head_time (pending m1)) eqn:Elt; bool_to_prop.
  - unfold updateTimerFd. cbn [set_blocks m_nextTimerTime]. rewrite Hnx, (proj2 (Z.leb_gt _ t)) by done.
    cbn [negb Z.eqb]. eexists. split; [done|]. rewrite <- Hp, <- Hsc.
    split; [|split; [done|exact Hp2]].
    apply Hfin; [by rewrite Hh|].
    assert (Hmi : exists P, mm_insert t task (pending m1) = (t, task) :: P).
    { destruct (pending m1) as [|[t0 v] P]; cbn in *; [by eexists|]. rewrite (proj2 (Z.leb_gt t0 t)) by done. by eexists. }
    destruct Hmi as [P ->]. eexists. split; [done|].
    rewrite fires_at_itimerspec by (unfold UINT64_MAX in *; pose proof (ti_size c m Hinv); lia). lia.
  - eexists. split; [done|]. rewrite <- Hp, <- Hsc. split; [|split; [done|exact Hp2]].
    specialize (Hfin (timerfd m1) (m_nextTimerTime m1)).
    assert (Em : set_next (m_nextTimerTime m1) (set_timerfd (timerfd m1) (set_blocks (m_time_blocks m1) h m1))
                 = set_blocks (m_time_blocks m1) h m1) by done.
    rewrite Em in Hfin. apply Hfin; [by rewrite Hh, Hnx|].
    pose proof (ti_armed c m1 Hinv1) as Ha. destruct (pending m1) as [|[t0 v] P]; cbn in Elt |- *;
      [pose proof (ti_size c m Hinv); lia|]. rewrite (proj2 (Z.leb_le t0 t)) by done.
    destruct Ha as (f & -> & ?). exists f. split; [done|lia].
Qed.

(** Neither operation changes the origin or the length of the slices. *)
Definition same_grid (m m' : TimeManager) : Prop :=
  m_base_time m' = m_base_time m /\ m_block_size_ms m' = m_block_size_ms m.

Lemma fold_schedule_grid (l : list (Z * nat)) : forall m,
  same_grid m (fold_left (fun m e => schedule e.2 (set_count (m_timerCount m - 1) m)) l m).
Proof. induction l as [|e l IH]; intros m; [done|]. cbn. by destruct (IH (schedule e.2 (set_count (m_timerCount m - 1) m))). Qed.

Lemma trigger_grid now now2 ok m : same_grid m (onTimerTriggered now now2 ok m).
Proof.
  unfold onTimerTriggered. destruct (collect _ _ _) as [gone h].
  match goal with |- same_grid _ (fold_left _ _ ?m1) => set (m1' := m1); assert (H1 : same_grid m m1') end.
  { subst m1'. destruct (_ =? _); [done|]. unfold updateTimerFd. by repeat case_match. }
  destruct H1 as [H1 H2]. destruct (fold_schedule_grid gone m1') as [H3 H4]. unfold same_grid. by rewrite H3, H4.
Qed.

Lemma insert_grid now now2 now3 ok t task m rc m' :
  insertTimeTask now now2 now3 ok t task m = IT_ret rc m' -> same_grid m m'.
Proof.
  unfold insertTimeTask, insert_into, getOrCreateTimerBlock, updateTimerFd, same_grid, new_block. intros H.
  repeat case_match; simplify_eq/=; auto.
Qed.

(** The blocks and the heap after a trigger. *)
Lemma trigger_shape c now now2 ok m :
  tm_inv c m ->
  exists h', triggered now m h' /\ heap (onTimerTriggered now now2 ok m) = h' /\
    m_time_blocks (onTimerTriggered now now2 ok m) = List.filter (keep_block now h') (m_time_blocks m).
Proof.
  intros Hinv. destruct (trigger_collect c now m Hinv) as (h' & Hcol & Ht). exists h'. split; [done|].
  unfold onTimerTriggered. cbn [set_timerfd m_time_blocks heap]. rewrite Hcol.
  assert (Hf : forall (l : list (Z * nat)) m,
    heap (fold_left (fun m e => schedule e.2 (set_count (m_timerCount m - 1) m)) l m) = heap m /\
    m_time_blocks (fold_left (fun m e => schedule e.2 (set_count (m_timerCount m - 1) m)) l m) = m_time_blocks m).
  { induction l as [|x l IH]; intros; [done|]. cbn. by destruct (IH (schedule x.2 (set_count (m_timerCount m0 - 1) m0))). }
  match goal with |- context [fold_left _ _ ?m1] => destruct (Hf (due now (pending m)) m1) as [-> ->] end.
  destruct (_ =? _); [done|]. unfold updateTimerFd. by repeat case_match.
Qed.

(** Every block that is left after a trigger has a task in it. *)
Lemma trigger_blocks_nonempty c now now2 ok m e :
  tm_inv c m -> e ∈ m_time_blocks (onTimerTriggered now now2 ok m) ->
  e ∈ m_time_blocks m /\ time_tasks (heap m !!! e.2) <> [].
Proof.
  intros Hinv. destruct (trigger_shape c now now2 ok m Hinv) as (h' & Ht & _ & ->).
  rewrite list_elem_of_In, filter_In, <- list_elem_of_In. intros [He Hk]. split; [done|].
  destruct (Ht e He) as (Et & _). intros E0. unfold keep_block, block_empty in Hk.
  rewrite Et, E0 in Hk. cbn in Hk. rewrite orb_true_r in Hk. done.
Qed.
