(* ===== verification/TimerSpec.v ===== *)
(** * What the timers promise

    The abstract timer of a [TimeManager] is the list of its pending tasks, in
    time order, and the list of the tasks it has handed over.  The theorems here
    relate the multimap of blocks, the timerfd and the counters of [Timer] to it
    over arbitrary sequences of insertions and triggers, with the clock moving
    forward and [timerfd_settime] succeeding. *)

From stdpp Require Import gmap sorting.
From S2P Require Import Prelude Timer TimerProps.

(** ** Sequences of operations *)

Inductive op :=
  | op_add (now now2 now3 : Z) (execute_time : Z) (task : nat)
  | op_trigger (now now2 : Z).

Definition run_op (o : op) (m : TimeManager) : option TimeManager :=
  match o with
  | op_add now now2 now3 t task =>
      match insertTimeTask now now2 now3 true t task m with IT_ret 0 m => Some m | _ => None end
  | op_trigger now now2 => Some (onTimerTriggered now now2 true m)
  end.

Fixpoint run_ops (os : list op) (m : TimeManager) : option TimeManager :=
  match os with
  | [] => Some m
  | o :: os => match run_op o m with Some m => run_ops os m | None => None end
  end.

(** The abstract timer. *)
Definition spec_op (o : op) (s : list (Z * nat) * list nat) : list (Z * nat) * list nat :=
  match o with
  | op_add now _ _ t task => if t <=? now then (s.1, s.2 ++ [task]) else (mm_insert t task s.1, s.2)
  | op_trigger now _ => (later now s.1, s.2 ++ map snd (due now s.1))
  end.
Definition spec_ops (os : list op) (s : list (Z * nat) * list nat) : list (Z * nat) * list nat :=
  fold_left (fun s o => spec_op o s) os s.

(** The readings of the clock do not decrease (from [c] on); a task lies past the
    origin of the slices, and is either due or still in the future when the block
    is looked up. *)
Fixpoint timely (c base size : Z) (os : list op) : Prop :=
  match os with
  | [] => True
  | op_add now now2 now3 t _ :: os =>
      (c <= now <= now2 /\ now2 <= now3) /\ (t <= now \/ now2 <= t) /\
      base <= t /\ t + size < UINT64_MAX /\ timely now3 base size os
  | op_trigger now now2 :: os => c <= now <= now2 /\ timely now2 base size os
  end.

(** The last reading of the clock. *)
Definition clock (c : Z) (o : op) : Z :=
  match o with op_add _ _ now3 _ _ => now3 | op_trigger _ now2 => now2 end.

Lemma run_op_refines c o os m :
  tm_inv c m -> 0 <= c -> timely c (m_base_time m) (m_block_size_ms m) (o :: os) ->
  exists m', run_op o m = Some m' /\ tm_inv (clock c o) m' /\ same_grid m m' /\
    (pending m', scheduled m') = spec_op o (pending m, scheduled m) /\
    0 <= clock c o /\ timely (clock c o) (m_base_time m) (m_block_size_ms m) os.
Proof.
  intros Hinv Hc Ht. destruct o as [now now2 now3 t task|now now2]; cbn [timely] in Ht.
  - destruct Ht as (Hcl & Hn & Hb & Hm & Ht). cbn [run_op clock spec_op fst snd].
    destruct (insert_spec c now now2 now3 t task m Hinv) as (m' & E & Hinv' & Hs); [lia|done|done|done|].
    rewrite E. exists m'. apply insert_grid in E. split_and!; try done; [|lia].
    destruct (t <=? now); by destruct Hs as [-> ->].
  - destruct Ht as [Hcl Ht]. cbn [run_op clock spec_op fst snd].
    destruct (trigger_spec c now now2 m Hinv) as (Hinv' & Hs & Hp); [lia|].
    eexists. split_and!; [done|done|apply trigger_grid| |lia|done]. by rewrite Hs, Hp.
Qed.

Definition last_clock (c : Z) (os : list op) : Z := fold_left clock os c.

Lemma run_ops_refines os : forall c m,
  tm_inv c m -> 0 <= c -> timely c (m_base_time m) (m_block_size_ms m) os ->
  exists m', run_ops os m = Some m' /\ tm_inv (last_clock c os) m' /\
    (pending m', scheduled m') = spec_ops os (pending m, scheduled m).
Proof.
  induction os as [|o os IH]; intros c m Hinv Hc Ht; [by exists m|].
  destruct (run_op_refines c o os m Hinv Hc Ht) as (m1 & E & Hinv1 & [Hg1 Hg2] & Hs & Hc1 & Ht1).
  cbn [run_ops]. rewrite E. rewrite <- Hg1, <- Hg2 in Ht1.
  destruct (IH _ m1 Hinv1 Hc1 Ht1) as (m' & ? & ? & Hs'). exists m'. split_and!; [done|done|].
  rewrite Hs', Hs. done.
Qed.

(** ** The claims *)

(** C8. The timer refines its specification: over any sequence of insertions and
    triggers with a clock that moves forward, no operation fails, the pending
    tasks and the tasks handed over are those of the abstract timer (so a trigger
    hands over exactly the tasks that are due, in time order, equal times in
    insertion order), and whenever tasks are pending the timerfd is armed for the
    earliest, at its time or one millisecond after the last reading. *)
Theorem timer_refines_spec base size os :
  0 < size -> 0 <= base -> timely base base size os ->
  exists m, run_ops os (TimeManager_init base size) = Some m /\
    (pending m, scheduled m) = spec_ops os ([], []) /\
    m_timerCount m = u64 (zlen (pending m)) /\
    forall t task rest, pending m = (t, task) :: rest ->
      exists f, timerfd m = Some f /\ t <= f <= Z.max t (last_clock base os + 1).
Proof.
  intros Hs Hb Ht.
  destruct (run_ops_refines os base (TimeManager_init base size)) as (m & E & Hinv & Hspec);
    [by apply TimeManager_init_inv|done|done|].
  exists m. split_and!; [done|done|apply Hinv|]. intros t task rest Hp.
  pose proof (ti_armed _ _ Hinv) as Ha. by rewrite Hp in Ha.
Qed.

Definition ops_example : list op :=
  [op_add 1000 1000 1001 1250 7; op_add 1001 1001 1002 1050 8; op_trigger 1051 1051;
   op_add 1060 1061 1061 1055 9].

Lemma timer_refines_spec_witness :
  exists m, run_ops ops_example (TimeManager_init 1000 100) = Some m /\
    pending m = [(1250, 7%nat)] /\ scheduled m = [8%nat; 9%nat] /\ timerfd m = Some 1250.
Proof.
  destruct (timer_refines_spec 1000 100 ops_example) as (m & E & Hs & _ & Hf);
    [lia|lia|cbn; unfold UINT64_MAX; lia|].
  exists m. split; [exact E|]. vm_compute in E. injection E as <-. repeat split.
Defined.

(** A periodic task does not drift and a cancelled one is not enrolled
    again: after a run whose reading of the clock is past its time, the task is
    due at its old time plus the interval -- at once if that has passed too -- and
    with the flag [m_is_canceled] nothing is enrolled. *)
Theorem periodic_no_drift cond c now now2 now3 ms t canceled has_c has_cb ref m :
  let task := mk_task ms t true canceled has_c has_cb in
  tm_inv c m -> 0 <= c <= now3 -> 0 <= t -> 0 <= ms -> (t + ms <= now \/ now2 <= t + ms) ->
  m_base_time m <= t -> t + ms + m_block_size_ms m < UINT64_MAX ->
  exists m', runTimeTask cond now now2 now3 true task ref m
      = ((runner cond task).1, mk_task ms (t + ms) true canceled has_c has_cb, IT_ret 0 m') /\
    (pending m', scheduled m') =
      if canceled then (pending m, scheduled m)
      else spec_op (op_add now now2 now3 (t + ms) ref) (pending m, scheduled m).
Proof.
  intros task Hinv Hc Ht Hms Hn Hb Hmax. pose proof (ti_size c m Hinv) as Hz.
  assert (En : next task = mk_task ms (t + ms) true canceled has_c has_cb).
  { unfold next. cbn. by rewrite wrap_small by (unfold UINT64_MAX in Hmax; lia). }
  unfold runTimeTask, runner. rewrite En. cbn [m_is_canceled m_is_cycle m_execute_ms fst].
  destruct canceled; cbn [negb andb]; [by exists m|].
  destruct (insert_spec c now now2 now3 (t + ms) ref m Hinv Hc Hn) as (m' & -> & _ & Hs); [lia|lia|].
  exists m'. split; [done|]. cbn [spec_op fst snd].
  destruct (t + ms <=? now); by destruct Hs as [-> ->].
Qed.

Lemma periodic_no_drift_witness :
  exists m', runTimeTask true 1051 1051 1051 true (mk_task 50 1050 true false false false) 3
      (TimeManager_init 1000 100) = ([main_called], mk_task 50 1100 true false false false, IT_ret 0 m') /\
    (pending m', scheduled m') = ([(1100, 3%nat)], []).
Proof.
  apply (periodic_no_drift true 1000 1051 1051 1051 50 1050 false false false 3 (TimeManager_init 1000 100));
    [apply TimeManager_init_inv; lia|cbn; unfold UINT64_MAX; lia..].
Defined.

(** ** Tasks that are dropped *)

(** A task that becomes due between the two readings of the clock is
    dropped: [insertTimeTask] fails, nothing is scheduled and nothing pending, and
    [addTimer] reports the failure to nobody but the log. *)
Theorem insert_between_readings_drops now now2 now3 ok task ref m :
  now < m_execute_ms task < now2 -> addTimer now now2 now3 ok task ref m = IT_ret (-1) m.
Proof.
  intros H. unfold addTimer, insertTimeTask, getOrCreateTimerBlock.
  rewrite (proj2 (Z.leb_gt (m_execute_ms task) now)), (proj2 (Z.ltb_lt (m_execute_ms task) now2)) by lia. done.
Qed.

Lemma insert_between_readings_drops_witness :
  addTimer 1000 1002 1002 true (TimeTask_create 1000 1 false false false) 1 (TimeManager_init 900 100)
  = IT_ret (-1) (TimeManager_init 900 100).
Proof. apply insert_between_readings_drops. vm_compute. split; reflexivity. Defined.

(** Cancelling does not stop a task that has no condition: the run of a
    cancelled one-shot task calls its main callback all the same, and a task with
    a condition evaluates it; the flag only keeps a periodic task from being
    enrolled again. *)
Theorem cancel_does_not_stop cond task now now2 now3 ok ref m :
  (runTimeTask cond now now2 now3 ok (cancel task) ref m).1.1 = (runner cond task).1 /\
  (runTimeTask cond now now2 now3 ok (cancel task) ref m).2 = IT_ret 0 m /\
  (m_has_condition task = false ->
   main_called ∈ (runTimeTask cond now now2 now3 ok (cancel task) ref m).1.1).
Proof.
  destruct task as [ms t cyc can hc hcb]. cbn. split_and!; [done|done|]. intros ->. by left.
Qed.

Lemma cancel_does_not_stop_witness :
  main_called ∈ (runTimeTask true 0 0 0 true (cancel (TimeTask_create 0 5 false false false)) 1
                   (TimeManager_init 0 10)).1.1.
Proof. by apply (cancel_does_not_stop true (TimeTask_create 0 5 false false false)). Defined.
