(* ===== verification/TimerRace.v ===== *)
(** * Insertion against a trigger

    [insertTimeTask] looks its block up under the lock of the multimap and
    inserts into it under the lock of the block.  Here a trigger of another
    thread runs between the two. *)

From stdpp Require Import gmap sorting.
From S2P Require Import Prelude Timer TimerProps.

(** The insertion of [task] in which a trigger at [nowT] comes between the look-up
    and the insertion. *)
Definition insert_with_trigger (now now2 now3 nowT nowT2 : Z) (execute_time : Z) (task : nat)
    (m : TimeManager) : insert_res :=
  if execute_time <=? now then IT_ret 0 (schedule task m)
  else
    match getOrCreateTimerBlock now2 execute_time m with
    | GB_null => IT_ret (-1) m
    | GB_assert => IT_assert
    | GB_ok ref m => insert_into now3 true execute_time task ref (onTimerTriggered nowT nowT2 true m)
    end.

Lemma insert_into_effect now3 t task ref m :
  start_time (heap m !!! ref) <= t < end_time (heap m !!! ref) ->
  exists m', insert_into now3 true t task ref m = IT_ret 0 m' /\
    m_time_blocks m' = m_time_blocks m /\ scheduled m' = scheduled m /\
    heap m' = <[ref := block_insert t task (heap m !!! ref)]> (heap m) /\
    m_timerCount m' = u64 (m_timerCount m + 1).
Proof.
  intros Hr. unfold insert_into, updateTimerFd.
  rewrite (proj2 (Z.ltb_ge t _)), (proj2 (Z.leb_gt _ t)) by lia. cbn [orb negb].
  repeat case_match; simplify_eq; eexists; split_and!; done.
Qed.

(** A trigger between the look-up and the insertion loses the task: when the
    task needs a new block, the trigger erases that block, which is still empty;
    the insertion then succeeds -- it returns 0 and counts the task -- but puts
    it into a block the manager no longer knows: the task is neither scheduled
    nor pending, so no later trigger finds it. *)
Theorem insert_trigger_race c now now2 now3 nowT nowT2 t task m :
  tm_inv c m -> 0 <= c <= nowT2 -> now < t -> now2 <= t -> m_base_time m <= t ->
  t + m_block_size_ms m < UINT64_MAX ->
  mm_find (block_begin m t) (m_time_blocks m) = None ->
  exists m', insert_with_trigger now now2 now3 nowT nowT2 t task m = IT_ret 0 m' /\
    pending m' = later nowT (pending m) /\
    scheduled m' = scheduled m ++ map snd (due nowT (pending m)) /\
    m_timerCount m' = u64 (zlen (pending m') + 1).
Proof.
  intros Hinv Hc Hn Hn2 Hb Hmax Hnone. unfold insert_with_trigger. rewrite (proj2 (Z.leb_gt t now)) by done.
  destruct (getOrCreate_correct c now2 t m Hinv Hn2 Hb Hmax)
    as (r & m1 & l1 & l2 & -> & Hinv1 & Hp & Hsc & E & Hsz & Hempty). specialize (Hempty Hnone).
  assert (Hin : (block_begin m t, r) ∈ m_time_blocks m1) by (rewrite E; apply elem_of_app; right; by left).
  destruct (trigger_spec c nowT nowT2 m1 Hinv1 Hc) as (Hinv2 & Hs2 & Hp2).
  destruct (trigger_shape c nowT nowT2 true m1 Hinv1) as (h' & Ht & Eh & _).
  assert (Hgone : r ∉ map snd (m_time_blocks (onTimerTriggered nowT nowT2 true m1))).
  { intros Hr. apply list_elem_of_fmap in Hr as (e & -> & He).
    destruct (trigger_blocks_nonempty c nowT nowT2 true m1 e Hinv1 He) as [_ Hne]. done. }
  set (m2 := onTimerTriggered nowT nowT2 true m1) in *.
  destruct (block_begin_spec m t (ti_size c m Hinv) ltac:(pose proof (ti_base c m Hinv); lia) Hmax) as [Hr _].
  pose proof (proj1 (Forall_forall _ _) (ti_blocks c m1 Hinv1) _ Hin) as Hbo. cbn in Hbo.
  destruct (Ht _ Hin) as (_ & Est & Een & _). cbn in Est, Een. rewrite (bo_start _ _ _ _ Hbo) in Est.
  rewrite (bo_end _ _ _ _ Hbo) in Een.
  destruct (insert_into_effect now3 t task r m2) as (m' & Ei & Hbl & Hsch & Hheap & Hcnt).
  { rewrite Eh, Est, Een, Hsz. lia. }
  assert (Hpend : pending m' = pending m2).
  { unfold pending. rewrite Hbl, Hheap. by apply tasks_of_insert_fresh. }
  exists m'. split_and!; [done|by rewrite Hpend, Hp2, Hp|by rewrite Hsch, Hs2, Hsc, Hp|].
  rewrite Hcnt, (ti_count _ _ Hinv2), Hpend. unfold wrap. by rewrite Zplus_mod_idemp_l.
Qed.

Lemma insert_trigger_race_witness :
  exists m', insert_with_trigger 1000 1000 1002 1001 1001 1250 7 (TimeManager_init 1000 100) = IT_ret 0 m' /\
    pending m' = [] /\ scheduled m' = [] /\ m_timerCount m' = 1.
Proof.
  destruct (insert_trigger_race 1000 1000 1000 1002 1001 1001 1250 7 (TimeManager_init 1000 100))
    as (m' & E & Hp & Hs & Hc); [apply TimeManager_init_inv; lia|cbn; unfold UINT64_MAX; lia..|reflexivity|].
  exists m'. rewrite Hp in Hc. split; [exact E|]. split; [exact Hp|]. split; [exact Hs|exact Hc].
Defined.
