(* ===== verification/TimerTasks.v ===== *)
(** * What becomes of every timer

    [insertTimeTask] and [onTimerTriggered] ([sylar/basic/timer/timer.cc]) in the critical sections
    they have.  An insertion hands its task over at once, is refused, or looks its block up; then it
    puts the task into that block.  A trigger lists the blocks that have begun, takes the due tasks
    out of them one block after the other, and cleans up.  Any number of insertions and triggers are
    under way at once; every one reads its own clock, and [timerfd_settime] may fail. *)

From stdpp Require Import gmap sorting.
From S2P Require Import Prelude Timer TimerProps.

(** ** The sections of a trigger *)

(** A trigger under way: the blocks it has yet to visit and the tasks it has taken. *)
Record trigger_run := MkTrigger { t_now : Z; t_left : list nat; t_taken : list nat }.

Definition trigger_begin (now : Z) (m : TimeManager) : trigger_run :=
  MkTrigger now (map snd (mm_span now (m_time_blocks m)).1) [].

(** [getAndRemove] of one block. *)
Definition trigger_take (now : Z) (ref : nat) (m : TimeManager) : list nat * TimeManager :=
  let (gone, b) := getAndRemove now (heap m !!! ref) in
  (map snd gone, set_blocks (m_time_blocks m) (<[ref := b]> (heap m)) m).

(** The clean-up, the new time of the timerfd, and the hand-over. *)
Definition trigger_clean (now now2 : Z) (ok : bool) (taken : list nat) (m : TimeManager) : TimeManager :=
  let blocks := List.filter (keep_block now (heap m)) (m_time_blocks m) in
  let m := set_next UINT64_MAX (set_blocks blocks (heap m) m) in
  let next_time := first_time blocks (heap m) in
  let m := if next_time =? UINT64_MAX then m else (updateTimerFd now2 ok next_time m).2 in
  fold_left (fun m task => schedule task (set_count (m_timerCount m - 1) m)) taken m.

Fixpoint trigger_takes (now : Z) (refs : list nat) (m : TimeManager) : list nat * TimeManager :=
  match refs with
  | [] => ([], m)
  | ref :: refs =>
      let (gone, m) := trigger_take now ref m in
      let (gone', m) := trigger_takes now refs m in
      (gone ++ gone', m)
  end.

Lemma takes_collect now bs : forall m,
  trigger_takes now (map snd bs) m =
  (map snd (collect now bs (heap m)).1, set_blocks (m_time_blocks m) (collect now bs (heap m)).2 m).
Proof.
  induction bs as [|[s r] bs IH]; intros m; [by destruct m|]. cbn [map trigger_takes collect snd]. unfold trigger_take.
  destruct (getAndRemove now (heap m !!! r)) as [gone b]. rewrite IH. cbn [heap m_time_blocks set_blocks].
  destruct (collect now bs _) as [gone' h]. cbn [fst snd]. by rewrite map_app.
Qed.

(** Run one after the other, the sections are [onTimerTriggered]. *)
Lemma trigger_sections now now2 ok m :
  onTimerTriggered now now2 ok m =
  let m := set_timerfd None m in
  let (taken, m) := trigger_takes now (t_left (trigger_begin now m)) m in trigger_clean now now2 ok taken m.
Proof.
  unfold onTimerTriggered, trigger_begin. cbn [t_left]. rewrite takes_collect. cbn [set_timerfd m_time_blocks heap].
  destruct (collect now _ (heap m)) as [gone h]. cbn [fst snd]. unfold trigger_clean.
  cbn [set_blocks m_time_blocks heap]. generalize (List.filter (keep_block now h) (m_time_blocks m)) as bs. intros bs.
  assert (Hf : forall (l : list (Z * nat)) a,
    fold_left (fun m e => schedule e.2 (set_count (m_timerCount m - 1) m)) l a =
    fold_left (fun m task => schedule task (set_count (m_timerCount m - 1) m)) (map snd l) a).
  { induction l as [|e l IH]; intros a; [done|]. apply IH. }
  by rewrite Hf.
Qed.

(** ** All the threads *)

(** A task whose block was looked up. *)
Record flight := MkFlight { f_time : Z; f_task : nat; f_ref : nat }.

(** The manager, the insertions and the triggers between their sections; [refused] are the tasks
    that fell due between two readings of the clock, [given] all the tasks.  [overlap] tells whether
    a trigger cleaned up while an insertion had only looked its block up, or a task was put into its
    block while a trigger was under way. *)
Record timers := MkTimers {
  manager : TimeManager;
  flying : list flight;
  triggers : list trigger_run;
  refused : list nat;
  given : list nat;
  overlap : bool;
}.

(** A time the slices can hold. *)
Definition in_grid (t : Z) (m : TimeManager) : Prop :=
  m_base_time m <= t /\ t + m_block_size_ms m < UINT64_MAX.

Inductive timers_step : timers -> timers -> Prop :=
  | ts_due m fl tr re gv o now t task :
      t <= now -> timers_step (MkTimers m fl tr re gv o) (MkTimers (schedule task m) fl tr re (gv ++ [task]) o)
  | ts_refused m fl tr re gv o now now2 t task :
      now < t -> getOrCreateTimerBlock now2 t m = GB_null ->
      timers_step (MkTimers m fl tr re gv o) (MkTimers m fl tr (re ++ [task]) (gv ++ [task]) o)
  | ts_look m fl tr re gv o now now2 t task ref m' :
      now < t -> in_grid t m -> getOrCreateTimerBlock now2 t m = GB_ok ref m' ->
      timers_step (MkTimers m fl tr re gv o) (MkTimers m' (MkFlight t task ref :: fl) tr re (gv ++ [task]) o)
  | ts_put m l1 f l2 tr re gv o now3 ok rc m' :
      insert_into now3 ok (f_time f) (f_task f) (f_ref f) m = IT_ret rc m' ->
      timers_step (MkTimers m (l1 ++ f :: l2) tr re gv o)
        (MkTimers m' (l1 ++ l2) tr re gv (o || negb (bool_decide (tr = []))))
  | ts_begin m fl tr re gv o now :
      timers_step (MkTimers m fl tr re gv o)
        (MkTimers (set_timerfd None m) fl (trigger_begin now m :: tr) re gv o)
  | ts_take m fl t1 now ref left taken t2 re gv o gone m' :
      trigger_take now ref m = (gone, m') ->
      timers_step (MkTimers m fl (t1 ++ MkTrigger now (ref :: left) taken :: t2) re gv o)
        (MkTimers m' fl (t1 ++ MkTrigger now left (taken ++ gone) :: t2) re gv o)
  | ts_clean m fl t1 now taken t2 re gv o now2 ok :
      timers_step (MkTimers m fl (t1 ++ MkTrigger now [] taken :: t2) re gv o)
        (MkTimers (trigger_clean now now2 ok taken m) fl (t1 ++ t2) re gv (o || negb (bool_decide (fl = [])))).

Inductive timers_reachable (base size : Z) : timers -> Prop :=
  | tr_start : timers_reachable base size (MkTimers (TimeManager_init base size) [] [] [] [] false)
  | tr_next s s' : timers_reachable base size s -> timers_step s s' -> timers_reachable base size s'.

(** The tasks of every block ever made, whether the manager still has it or not. *)
Definition in_blocks (m : TimeManager) : list nat :=
  flat_map (fun ref => map snd (time_tasks (heap m !!! ref))) (seq 0 (next_ref m)).

(** ** The blocks *)

(** Every block ever made is a slice of time with its tasks in order; the manager's are apart. *)
Record blocks_inv (m : TimeManager) : Prop := {
  bi_size : 0 < m_block_size_ms m;
  bi_base : 0 <= m_base_time m;
  bi_sorted : keys_lt (m_time_blocks m);
  bi_nodup : NoDup (map snd (m_time_blocks m));
  bi_refs : Forall (fun e => (e.2 < next_ref m)%nat /\ start_time (heap m !!! e.2) = e.1) (m_time_blocks m);
  bi_blocks : forall r, (r < next_ref m)%nat ->
    block_ok (m_base_time m) (m_block_size_ms m) (start_time (heap m !!! r)) (heap m !!! r);
}.

Definition holds (m : TimeManager) (f : flight) : Prop :=
  (f_ref f < next_ref m)%nat /\ start_time (heap m !!! f_ref f) <= f_time f < end_time (heap m !!! f_ref f).

(** [m'] is [m] with another content [b] of the block [r]. *)
Definition rewritten (r : nat) (b : TimerBlock) (m m' : TimeManager) : Prop :=
  heap m' = <[r := b]> (heap m) /\ m_time_blocks m' = m_time_blocks m /\ next_ref m' = next_ref m /\
  same_grid m m' /\ scheduled m' = scheduled m.

Definition same_range (b b' : TimerBlock) : Prop := start_time b' = start_time b /\ end_time b' = end_time b.

Lemma blocks_at (h : gmap nat TimerBlock) n r : (r < n)%nat ->
  exists rest, forall h' : gmap nat TimerBlock, (forall r', r' <> r -> h' !!! r' = h !!! r') ->
    flat_map (fun ref => map snd (time_tasks (h' !!! ref))) (seq 0 n) ≡ₚ map snd (time_tasks (h' !!! r)) ++ rest.
Proof.
  intros Hr. set (f := fun (h : gmap nat TimerBlock) ref => map snd (time_tasks (h !!! ref))).
  exists (flat_map (f h) (seq 0 r) ++ flat_map (f h) (seq (S r) (n - S r))). intros h' Hh.
  replace n with (r + S (n - S r))%nat at 1 by lia. rewrite seq_app, flat_map_app. cbn [seq flat_map Nat.add].
  assert (Hf : forall l, r ∉ l -> flat_map (f h') l = flat_map (f h) l).
  { induction l as [|x l IH]; [done|]. intros Hn. apply not_elem_of_cons in Hn as [Hne Hn]. cbn. unfold f at 1 3.
    rewrite Hh, IH by done. done. }
  fold (f h'). rewrite !Hf by (rewrite elem_of_seq; lia). unfold f at 2. by rewrite Permutation_app_swap_app.
Qed.

Lemma rewritten_inv r b m m' :
  rewritten r b m m' -> blocks_inv m -> (r < next_ref m)%nat -> same_range (heap m !!! r) b ->
  keys_le (time_tasks b) ->
  Forall (fun e => start_time b <= e.1 < start_time b + m_block_size_ms m) (time_tasks b) -> blocks_inv m'.
Proof.
  intros (Eh & Eb & En & [Eg1 Eg2] & _) [H1 H2 H3 H4 H5 H6] Hr [Hs He] Hk Hrg.
  assert (Hst : forall r', start_time (heap m' !!! r') = start_time (heap m !!! r')).
  { intros r'. rewrite Eh. destruct (decide (r' = r)) as [->|]; [by rewrite lookup_total_insert_eq|by rewrite lookup_total_insert_ne]. }
  split; rewrite ?Eb, ?En, ?Eg1, ?Eg2; try done.
  - eapply Forall_impl; [exact H5|]. intros e [? ?]. by rewrite Hst.
  - intros r' Hr'. rewrite Hst, Eh. destruct (decide (r' = r)) as [->|]; [|rewrite lookup_total_insert_ne by done; by apply H6].
    rewrite lookup_total_insert_eq. destruct (H6 r Hr) as [_ B2 B3 B4 _ _]. rewrite Hs in Hrg. split; try done; congruence.
Qed.

Lemma rewritten_holds r b m m' f :
  rewritten r b m m' -> same_range (heap m !!! r) b -> holds m f -> holds m' f.
Proof.
  intros (Eh & _ & En & _) [Hs He] [H1 H2]. unfold holds. rewrite En, Eh. split; [done|].
  destruct (decide (f_ref f = r)) as [<-|]; [rewrite lookup_total_insert_eq; lia|by rewrite lookup_total_insert_ne].
Qed.

(** ** The effect of each section *)

Lemma put_effect now3 ok f m rc m' :
  holds m f -> insert_into now3 ok (f_time f) (f_task f) (f_ref f) m = IT_ret rc m' ->
  rewritten (f_ref f) (block_insert (f_time f) (f_task f) (heap m !!! f_ref f)) m m'.
Proof.
  intros [_ Hr] H. unfold insert_into, updateTimerFd in H.
  rewrite (proj2 (Z.ltb_ge (f_time f) _)), (proj2 (Z.leb_gt _ (f_time f))) in H by lia. cbn [orb] in H.
  repeat case_match; by simplify_eq.
Qed.

Lemma take_effect now r m gone m' :
  trigger_take now r m = (gone, m') ->
  rewritten r (cut now (heap m !!! r)) m m' /\ gone = map snd (getAndRemove now (heap m !!! r)).1.
Proof. unfold trigger_take, cut. destruct (getAndRemove _ _) as [g b]. by intros [= <- <-]. Qed.

Lemma clean_effect now now2 ok taken m :
  let m' := trigger_clean now now2 ok taken m in
  heap m' = heap m /\ m_time_blocks m' = List.filter (keep_block now (heap m)) (m_time_blocks m) /\
  next_ref m' = next_ref m /\ same_grid m m' /\ scheduled m' = scheduled m ++ taken.
Proof.
  assert (Hf : forall (l : list nat) m,
    let m' := fold_left (fun m task => schedule task (set_count (m_timerCount m - 1) m)) l m in
    heap m' = heap m /\ m_time_blocks m' = m_time_blocks m /\ next_ref m' = next_ref m /\ same_grid m m' /\
    scheduled m' = scheduled m ++ l).
  { induction l as [|x l IH]; intros m0; [by rewrite app_nil_r|]. cbn [fold_left].
    destruct (IH (schedule x (set_count (m_timerCount m0 - 1) m0))) as (-> & -> & -> & [E1 E2] & ->).
    split_and!; try done. cbn. by rewrite <- app_assoc. }
  cbn zeta. unfold trigger_clean. cbn [set_blocks set_next m_time_blocks heap].
  match goal with |- context [fold_left _ _ ?a] => destruct (Hf taken a) as (-> & -> & -> & [E1 E2] & ->); set (a0 := a) in * end.
  assert (Ha : heap a0 = heap m /\ m_time_blocks a0 = List.filter (keep_block now (heap m)) (m_time_blocks m) /\
    next_ref a0 = next_ref m /\ same_grid m a0 /\ scheduled a0 = scheduled m).
  { subst a0. destruct (_ =? _); [done|]. unfold updateTimerFd. by repeat case_match. }
  destruct Ha as (-> & -> & -> & [E3 E4] & ->). split_and!; try done. split; congruence.
Qed.

Lemma look_effect now2 t ref m m' task :
  blocks_inv m -> in_grid t m -> getOrCreateTimerBlock now2 t m = GB_ok ref m' ->
  blocks_inv m' /\ holds m' (MkFlight t task ref) /\ ref ∈ map snd (m_time_blocks m') /\
  (m' = m \/
   ref = next_ref m /\ next_ref m' = S (next_ref m) /\ scheduled m' = scheduled m /\ same_grid m m' /\
   (forall r, r ∈ map snd (m_time_blocks m') <-> r = ref \/ r ∈ map snd (m_time_blocks m)) /\
   (exists b, time_tasks b = [] /\ heap m' = <[ref := b]> (heap m))).
Proof.
  intros [H1 H2 H3 H4 H5 H6] [Hb Hmax] H. destruct (block_begin_spec m t H1 ltac:(lia) Hmax) as [Hin Hal].
  set (b := block_begin m t) in *. unfold getOrCreateTimerBlock in H. fold b in H. case_match; [done|].
  destruct (mm_find b (m_time_blocks m)) as [r|] eqn:Hf.
  - injection H as <- <-. destruct (mm_find_split b _ r H3 Hf) as (l1 & l2 & E & _).
    assert (He : (b, r) ∈ m_time_blocks m) by (rewrite E; apply elem_of_app; right; by left).
    destruct (proj1 (Forall_forall _ _) H5 _ He) as [Hr Hs]. cbn in Hr, Hs.
    split; [done|]. split; [|split; [by apply (list_elem_of_fmap_2 snd _ (b, r))|by left]].
    split; [done|]. cbn. rewrite (bo_end _ _ _ _ (H6 r Hr)), Hs. lia.
  - rewrite wrap_small in H by (unfold UINT64_MAX in *; destruct Hal as (k & ? & ->); nia).
    rewrite (proj2 (Z.leb_le b t)), (proj2 (Z.ltb_lt t _)) in H by lia. cbn [andb new_block m_time_blocks heap] in H.
    destruct (mm_insert_fresh b (next_ref m) _ H3 Hf) as (l1 & l2 & E & Ei & L1 & L2). rewrite Ei in H.
    injection H as <- <-.
    assert (Hp : map snd (l1 ++ (b, next_ref m) :: l2) ≡ₚ next_ref m :: map snd (m_time_blocks m)).
    { rewrite E, !map_app. cbn. symmetry. apply Permutation_middle. }
    assert (Hfresh : next_ref m ∉ map snd (m_time_blocks m)).
    { intros Hi. apply list_elem_of_fmap in Hi as (e & Ee & He). destruct (proj1 (Forall_forall _ _) H5 _ He). lia. }
    set (blk := TimerBlock_ctor b (b + m_block_size_ms m)).
    split_and!; [split; cbn [set_blocks m_time_blocks heap next_ref m_base_time m_block_size_ms]; try done| | |right].
    + apply keys_lt_middle; [by rewrite <- E|done|done].
    + rewrite Hp. by constructor.
    + assert (Hkeep : Forall (fun e => (e.2 < S (next_ref m))%nat /\
        start_time (<[next_ref m := blk]> (heap m) !!! e.2) = e.1) (m_time_blocks m)).
      { eapply Forall_impl; [exact H5|]. intros e [? ?]. rewrite lookup_total_insert_ne by lia. split; [lia|done]. }
      rewrite E in Hkeep. apply Forall_app in Hkeep as [? ?]. apply Forall_app. split; [done|].
      constructor; [|done]. cbn. rewrite lookup_total_insert_eq. split; [lia|done].
    + intros r Hr. destruct (decide (r = next_ref m)) as [->|]; [|rewrite lookup_total_insert_ne by done; apply H6; lia].
      rewrite lookup_total_insert_eq. split; try done; try constructor. cbn. lia.
    + split; cbn; [lia|]. rewrite lookup_total_insert_eq. cbn. lia.
    + cbn [set_blocks m_time_blocks]. rewrite Hp. by left.
    + split_and!; try done; [|by exists blk]. intros r. cbn [set_blocks m_time_blocks]. rewrite Hp. apply elem_of_cons.
Qed.

Lemma clean_inv now now2 ok taken m : blocks_inv m -> blocks_inv (trigger_clean now now2 ok taken m).
Proof.
  intros [H1 H2 H3 H4 H5 H6]. destruct (clean_effect now now2 ok taken m) as (E1 & E2 & E3 & [E4 E5] & _).
  split; rewrite ?E1, ?E2, ?E3, ?E4, ?E5; try done; [by apply filter_sorted| |by apply filter_Forall].
  eapply sublist_NoDup; [exact H4|]. apply (fmap_sublist snd), filter_sublist.
Qed.

(** ** The account *)

Definition accounted (s : timers) : Prop :=
  scheduled (manager s) ++ flat_map t_taken (triggers s) ++ map f_task (flying s) ++ refused s ++ in_blocks (manager s)
  ≡ₚ given s.

(** What holds as long as no insertion and trigger overlapped: nothing is in a block the manager does
    not have, and what is due for a trigger is in a block it has yet to visit. *)
Definition orderly (s : timers) : Prop :=
  let m := manager s in let have := map snd (m_time_blocks m) in
  Forall (fun f => f_ref f ∈ have) (flying s) /\
  (forall r, (r < next_ref m)%nat -> r ∉ have -> time_tasks (heap m !!! r) = []) /\
  Forall (fun t => forall r e, r ∈ have -> e ∈ time_tasks (heap m !!! r) -> e.1 <= t_now t -> r ∈ t_left t) (triggers s).

Record timers_inv (s : timers) : Prop := {
  tv_blocks : blocks_inv (manager s);
  tv_flying : Forall (holds (manager s)) (flying s);
  tv_left : Forall (fun t => Forall (fun r => (r < next_ref (manager s))%nat) (t_left t)) (triggers s);
  tv_accounted : accounted s;
  tv_orderly : overlap s = false -> orderly s;
}.

Lemma rewritten_in_blocks r b m m' :
  rewritten r b m m' -> (r < next_ref m)%nat ->
  exists rest, in_blocks m ≡ₚ map snd (time_tasks (heap m !!! r)) ++ rest /\ in_blocks m' ≡ₚ map snd (time_tasks b) ++ rest.
Proof.
  intros (Eh & _ & En & _) Hr. destruct (blocks_at (heap m) (next_ref m) r Hr) as [rest Hrest]. exists rest.
  split; [by apply Hrest|]. unfold in_blocks. rewrite En, Eh, Hrest by (intros; by apply lookup_total_insert_ne).
  by rewrite lookup_total_insert_eq.
Qed.

Lemma mm_span_app {A} now (l : list (Z * A)) : (mm_span now l).1 ++ (mm_span now l).2 = l.
Proof. induction l as [|[k v] l IH]; [done|]. cbn. case_match; [|done]. destruct (mm_span now l). cbn in *. by rewrite IH. Qed.

Lemma mm_insert_perm {A} k (v : A) l : mm_insert k v l ≡ₚ (k, v) :: l.
Proof.
  induction l as [|[k' v'] l IH]; [done|]. cbn. destruct (k' <=? k); [|done].
  rewrite IH. apply Permutation_swap.
Qed.

Lemma look_in_blocks now2 t ref m m' :
  blocks_inv m -> in_grid t m -> getOrCreateTimerBlock now2 t m = GB_ok ref m' ->
  in_blocks m' = in_blocks m /\ scheduled m' = scheduled m.
Proof.
  intros Hi Hg H. destruct (look_effect now2 t ref m m' 0 Hi Hg H) as (_ & _ & _ & [->|(-> & En & Es & _ & _ & b & Eb & Eh)]); [done|].
  split; [|done]. unfold in_blocks. rewrite En, Eh, seq_S, flat_map_app. cbn. rewrite lookup_total_insert_eq, Eb. cbn. rewrite app_nil_r.
  apply flat_map_ext_in. intros r Hr. apply elem_of_seq in Hr. by rewrite lookup_total_insert_ne by lia.
Qed.

(** Two lists have the same elements when each occurs as often in both. *)
Ltac by_counting := rewrite ?(Permutation_count_occ Nat.eq_dec) in *; let x := fresh "x" in intros x;
  repeat match goal with H : forall y : nat, count_occ _ _ y = count_occ _ _ y |- _ => specialize (H x) end;
  rewrite ?flat_map_app, ?map_app in *; cbn [flat_map map snd app f_task t_taken] in *;
  repeat (rewrite ?count_occ_app in *; cbn [count_occ] in * );
  repeat match goal with
    | |- context [Nat.eq_dec ?a x] => destruct (Nat.eq_dec a x)
    | H : context [Nat.eq_dec ?a x] |- _ => destruct (Nat.eq_dec a x)
    end; lia.

Lemma timers_step_accounted s s' : timers_inv s -> timers_step s s' -> accounted s'.
Proof.
  intros [Hb Hf Hl Ha _] H. unfold accounted in *. destruct H as [m fl tr re gv o now t task Ht
    |m fl tr re gv o now now2 t task Ht Hn|m fl tr re gv o now now2 t task ref m' Ht Hg Hok
    |m l1 f l2 tr re gv o now3 ok rc m' Hp|m fl tr re gv o now|m fl t1 now ref left taken t2 re gv o gone m' Hk
    |m fl t1 now taken t2 re gv o now2 ok]; cbn [manager flying triggers refused given] in *.
  - change (in_blocks (schedule task m)) with (in_blocks m). cbn [schedule scheduled]. by_counting.
  - by_counting.
  - destruct (look_in_blocks _ _ _ _ _ Hb Hg Hok) as [-> ->]. by_counting.
  - apply Forall_app in Hf as [_ Hf]. inversion_clear Hf as [|? ? Hf1 _]. pose proof (put_effect _ _ _ _ _ _ Hf1 Hp) as Hw.
    destruct (rewritten_in_blocks _ _ _ _ Hw (proj1 Hf1)) as (rest & E1 & E2). destruct Hw as (_ & _ & _ & _ & ->).
    cbn [block_insert time_tasks] in E2. rewrite mm_insert_perm in E2. by_counting.
  - change (in_blocks (set_timerfd None m)) with (in_blocks m). unfold trigger_begin; cbn [set_timerfd scheduled]. by_counting.
  - destruct (take_effect _ _ _ _ _ Hk) as [Hw ->]. apply Forall_app in Hl as [_ Hl]. inversion_clear Hl as [|? ? Hl1 _].
    inversion_clear Hl1 as [|? ? Hr _]. destruct (rewritten_in_blocks _ _ _ _ Hw Hr) as (rest & E1 & E2).
    destruct Hw as (_ & _ & _ & _ & ->). unfold cut, getAndRemove in *.
    rewrite <- (mm_span_app now (time_tasks (heap m !!! ref))) in E1. destruct (mm_span now _) as [g k]. cbn [fst snd time_tasks] in *.
    by_counting.
  - destruct (clean_effect now now2 ok taken m) as (E1 & _ & E3 & _ & ->).
    replace (in_blocks (trigger_clean now now2 ok taken m)) with (in_blocks m) by (unfold in_blocks; by rewrite E1, E3).
    by_counting.
Qed.

(** Cutting a block leaves its range and takes the due tasks. *)
Lemma cut_block base size s now b :
  block_ok base size s b ->
  same_range b (cut now b) /\ time_tasks (cut now b) = later now (time_tasks b) /\ keys_le (time_tasks (cut now b)).
Proof.
  intros Hb. destruct (getAndRemove_sorted now b) as [_ E]; [apply Hb|]. rewrite E. split_and!; [|done|apply filter_sorted, Hb].
  unfold cut, getAndRemove. by destruct (mm_span _ _).
Qed.

Lemma take_inv now r m gone m' :
  blocks_inv m -> (r < next_ref m)%nat -> trigger_take now r m = (gone, m') ->
  blocks_inv m' /\ rewritten r (cut now (heap m !!! r)) m m' /\ same_range (heap m !!! r) (cut now (heap m !!! r)).
Proof.
  intros Hb Hr H. destruct (take_effect _ _ _ _ _ H) as [Hw _]. pose proof (bi_blocks m Hb r Hr) as Hok.
  destruct (cut_block _ _ _ now _ Hok) as (Hs & E & Hk). split_and!; [|done|done].
  apply (rewritten_inv _ _ _ _ Hw Hb Hr Hs Hk). rewrite (proj1 Hs), E. apply filter_Forall. apply Hok.
Qed.

Lemma put_inv now3 ok f m rc m' :
  blocks_inv m -> holds m f -> insert_into now3 ok (f_time f) (f_task f) (f_ref f) m = IT_ret rc m' -> blocks_inv m'.
Proof.
  intros Hb Hf H. pose proof (put_effect _ _ _ _ _ _ Hf H) as Hw. destruct Hf as [Hr Ht].
  pose proof (bi_blocks m Hb _ Hr) as [B1 B2 B3 B4 B5 B6].
  apply (rewritten_inv _ _ _ _ Hw Hb Hr); [done|by apply mm_insert_sorted|].
  cbn. apply mm_insert_Forall; [cbn; lia|done].
Qed.

Lemma look_holds now2 t ref m m' f :
  blocks_inv m -> in_grid t m -> getOrCreateTimerBlock now2 t m = GB_ok ref m' -> holds m f -> holds m' f.
Proof.
  intros Hi Hg H [H1 H2]. destruct (look_effect now2 t ref m m' 0 Hi Hg H) as (_ & _ & _ & [->|(-> & En & _ & _ & _ & b & _ & Eh)]); [done|].
  unfold holds. rewrite En, Eh, lookup_total_insert_ne by lia. split; [lia|done].
Qed.

Lemma timers_step_blocks s s' :
  timers_inv s -> timers_step s s' ->
  blocks_inv (manager s') /\ Forall (holds (manager s')) (flying s') /\
  Forall (fun t => Forall (fun r => (r < next_ref (manager s'))%nat) (t_left t)) (triggers s').
Proof.
  intros [Hb Hf Hl _ _] H. destruct H as [m fl tr re gv o now t task Ht
    |m fl tr re gv o now now2 t task Ht Hn|m fl tr re gv o now now2 t task ref m' Ht Hg Hok
    |m l1 f l2 tr re gv o now3 ok rc m' Hp|m fl tr re gv o now|m fl t1 now ref left taken t2 re gv o gone m' Hk
    |m fl t1 now taken t2 re gv o now2 ok]; cbn [manager flying triggers] in *.
  - split_and!; try done. by destruct Hb.
  - done.
  - destruct (look_effect _ _ _ _ _ task Hb Hg Hok) as (Hb' & Hh & _ & Hor). split_and!; [done| |].
    + constructor; [done|]. eapply Forall_impl; [exact Hf|]. intros f. by apply (look_holds now2 t ref).
    + assert (next_ref m <= next_ref m')%nat by (destruct Hor as [->|(_ & -> & _)]; lia).
      eapply Forall_impl; [exact Hl|]. cbn. intros tr0 Htr. eapply Forall_impl; [exact Htr|]. cbn. lia.
  - apply Forall_app in Hf as [Hf1 Hf]. inversion_clear Hf as [|? ? Hff Hf2].
    pose proof (put_effect _ _ _ _ _ _ Hff Hp) as Hw. split_and!; [by eapply put_inv| |].
    + apply Forall_app. split; (eapply Forall_impl; [eassumption|]; intros x; by apply (rewritten_holds _ _ _ _ _ Hw)).
    + destruct Hw as (_ & _ & -> & _). done.
  - split_and!; [by destruct Hb|done|]. constructor; [|done]. cbn.
    rewrite mm_span_sorted by (apply keys_lt_le, Hb). cbn [fst]. apply Forall_fmap, filter_Forall.
    eapply Forall_impl; [apply Hb|]. by intros e [? _].
  - apply Forall_app in Hl as [Hl1 Hl]. inversion_clear Hl as [|? ? Hll Hl2]. inversion_clear Hll as [|? ? Hr Hleft].
    destruct (take_inv _ _ _ _ _ Hb Hr Hk) as (Hb' & Hw & Hs). split_and!; [done| |].
    + eapply Forall_impl; [exact Hf|]. intros x. by apply (rewritten_holds _ _ _ _ _ Hw).
    + destruct Hw as (_ & _ & -> & _). apply Forall_app. split; [done|]. by constructor.
  - destruct (clean_effect now now2 ok taken m) as (E1 & _ & E3 & _). split_and!; [by apply clean_inv| |].
    + eapply Forall_impl; [exact Hf|]. intros x [? ?]. unfold holds. by rewrite E1, E3.
    + rewrite E3. apply Forall_app in Hl as [Hl1 Hl]. inversion_clear Hl. by apply Forall_app.
Qed.

(** What is due for a new trigger is in a block it lists. *)
Lemma begin_orderly now m r e :
  blocks_inv m -> r ∈ map snd (m_time_blocks m) -> e ∈ time_tasks (heap m !!! r) -> e.1 <= now ->
  r ∈ t_left (trigger_begin now m).
Proof.
  intros Hb Hr He Hle. apply list_elem_of_fmap in Hr as ([s r'] & -> & Hin). cbn in He |- *.
  destruct (proj1 (Forall_forall _ _) (bi_refs m Hb) _ Hin) as [Hlt Hs]. cbn in Hlt, Hs.
  pose proof (proj1 (Forall_forall _ _) (bo_range _ _ _ _ (bi_blocks m Hb r' Hlt)) _ He) as Hrg. cbn in Hrg.
  rewrite mm_span_sorted by (apply keys_lt_le, Hb). cbn [fst].
  apply (list_elem_of_fmap_2 snd _ (s, r')), elem_of_due. split; [done|]. cbn. lia.
Qed.

(** With no insertion under way the clean-up erases only blocks without tasks. *)
Lemma clean_orderly now now2 ok taken m r :
  blocks_inv m ->
  (forall r e, r ∈ map snd (m_time_blocks m) -> e ∈ time_tasks (heap m !!! r) -> e.1 <= now -> r ∈ (@nil nat)) ->
  r ∈ map snd (m_time_blocks m) -> r ∉ map snd (m_time_blocks (trigger_clean now now2 ok taken m)) ->
  time_tasks (heap m !!! r) = [].
Proof.
  intros Hb Hleft Hr Hn. destruct (clean_effect now now2 ok taken m) as (_ & E & _). rewrite E in Hn.
  pose proof Hr as Hr'. apply list_elem_of_fmap in Hr' as ([s r'] & -> & Hin). cbn in *.
  destruct (proj1 (Forall_forall _ _) (bi_refs m Hb) _ Hin) as [Hlt _]. cbn in Hlt.
  destruct (keep_block now (heap m) (s, r')) eqn:Ek.
  { exfalso. apply Hn, (list_elem_of_fmap_2 snd _ (s, r')). apply list_elem_of_In, filter_In.
    split; [by apply list_elem_of_In|done]. }
  unfold keep_block, block_empty in Ek. cbn in Ek. apply negb_false_iff, orb_true_iff in Ek as [Ek|Ek]; [|by apply bool_decide_eq_true in Ek]. apply Z.leb_le in Ek.
  destruct (time_tasks (heap m !!! r')) as [|e l] eqn:Et; [done|].
  pose proof (bi_blocks m Hb r' Hlt) as [_ B2 _ _ _ B6]. rewrite Et in B6. inversion_clear B6 as [|? ? Hrg _].
  assert (Hi : r' ∈ (@nil nat)) by (apply (Hleft r' e); [done|rewrite Et; by left|lia]). by apply elem_of_nil in Hi.
Qed.

(** Taking from a block leaves of it what is not due. *)
Lemma take_orderly now ref m :
  blocks_inv m -> (ref < next_ref m)%nat ->
  forall r e, e ∈ time_tasks (<[ref := cut now (heap m !!! ref)]> (heap m) !!! r) ->
  e ∈ time_tasks (heap m !!! r) /\ (r = ref -> now < e.1).
Proof.
  intros Hb Hr r e. destruct (cut_block _ _ _ now _ (bi_blocks m Hb ref Hr)) as (_ & Ec & _).
  destruct (decide (r = ref)) as [->|]; [|by rewrite lookup_total_insert_ne].
  rewrite lookup_total_insert_eq, Ec. unfold later. rewrite !list_elem_of_In, filter_In, Z.ltb_lt. tauto.
Qed.

Lemma timers_step_orderly s s' : timers_inv s -> timers_step s s' -> overlap s' = false -> orderly s'.
Proof.
  intros [Hb Hf Hl _ Ho] H Hov. unfold orderly in *. destruct H as [m fl tr re gv o now t task Ht
    |m fl tr re gv o now now2 t task Ht Hn|m fl tr re gv o now now2 t task ref m' Ht Hg Hok
    |m l1 f l2 tr re gv o now3 ok rc m' Hp|m fl tr re gv o now|m fl t1 now ref left taken t2 re gv o gone m' Hk
    |m fl t1 now taken t2 re gv o now2 ok]; cbn [manager flying triggers overlap] in *.
  - by apply Ho.
  - by apply Ho.
  - destruct (Ho Hov) as (H1 & H2 & H3). destruct (look_effect _ _ _ _ _ task Hb Hg Hok) as (Hb' & Hh & Hin & [->|(-> & En & _ & _ & Hkn & b & Eb & Eh)]).
    { split_and!; [by constructor|done|done]. }
    rewrite En, Eh. split_and!.
    + constructor; [done|]. eapply Forall_impl; [exact H1|]. cbn. intros f Hin'. apply Hkn. by right.
    + intros r Hr Hn. rewrite Hkn in Hn. rewrite lookup_total_insert_ne by (intros <-; apply Hn; by left).
      apply H2; [|by intros ?; apply Hn; right]. assert (r <> next_ref m) by (intros ->; apply Hn; by left). lia.
    + eapply Forall_impl; [exact H3|]. cbn. intros t0 H0 r e Hr. destruct (decide (r = next_ref m)) as [->|Hne].
      * rewrite lookup_total_insert_eq, Eb. intros Hx. by apply elem_of_nil in Hx.
      * rewrite lookup_total_insert_ne by done. apply H0. by apply Hkn in Hr as [?|?].
  - apply orb_false_iff in Hov as [-> Hov]. apply negb_false_iff, bool_decide_eq_true in Hov as ->.
    destruct (Ho eq_refl) as (H1 & H2 & _). apply Forall_app in Hf as [_ Hf]. inversion_clear Hf as [|? ? Hff _].
    destruct (put_effect _ _ _ _ _ _ Hff Hp) as (-> & -> & -> & _). apply Forall_app in H1 as [H1 H1']. inversion_clear H1' as [|? ? Hfk H1''].
    split_and!; [by apply Forall_app| |done]. intros r Hr Hn. rewrite lookup_total_insert_ne by (by intros <-). by apply H2.
  - destruct (Ho Hov) as (H1 & H2 & H3). split_and!; [done|done|]. constructor; [|done]. intros r e. apply (begin_orderly now m r e Hb).
  - destruct (Ho Hov) as (H1 & H2 & H3). apply Forall_app in Hl as [_ Hl]. inversion_clear Hl as [|? ? Hll _]. inversion_clear Hll as [|? ? Hr _].
    destruct (take_inv _ _ _ _ _ Hb Hr Hk) as (_ & (-> & -> & -> & _) & _).
    pose proof (take_orderly now ref m Hb Hr) as Hsub. split_and!; [done| |].
    + intros r Hr' Hn. destruct (time_tasks (_ !!! r)) as [|e l] eqn:Et; [done|].
      destruct (Hsub r e) as [Hx _]; [rewrite Et; by left|]. rewrite (H2 r Hr' Hn) in Hx. by apply elem_of_nil in Hx.
    + apply Forall_app in H3 as [H31 H32]. inversion_clear H32 as [|? ? H3a H3b]. cbn [t_now t_left] in H3a.
      apply Forall_app. split; [|constructor].
      1,3: eapply Forall_impl; [eassumption|]; cbn; intros t0 H0 r e Hi He; apply (H0 r e Hi), (Hsub r e He).
      cbn [t_now t_left]. intros r e Hi He Hle. destruct (Hsub r e He) as [He' Hlt].
      specialize (H3a r e Hi He' Hle). apply elem_of_cons in H3a as [->|?]; [|done]. specialize (Hlt eq_refl). lia.
  - apply orb_false_iff in Hov as [-> Hov]. apply negb_false_iff, bool_decide_eq_true in Hov as ->.
    destruct (Ho eq_refl) as (_ & H2 & H3). destruct (clean_effect now now2 ok taken m) as (E1 & E2 & E3 & _). rewrite E1, E3.
    apply Forall_app in H3 as [H31 H32]. inversion_clear H32 as [|? ? H3a H3b]. split_and!; [done| |].
    + intros r Hr Hn. destruct (decide (r ∈ map snd (m_time_blocks m))) as [Hi|Hi]; [|by apply H2].
      by apply (clean_orderly now now2 ok taken).
    + eapply Forall_impl; [apply Forall_app; by split|]. cbn. intros t0 H0 r e Hi. apply H0. rewrite E2 in Hi.
      apply list_elem_of_fmap in Hi as (x & -> & Hx). apply (list_elem_of_fmap_2 snd). by apply list_elem_of_In, filter_In in Hx as [Hx _]; apply list_elem_of_In.
Qed.

Lemma timers_inv_reachable base size s : 0 < size -> 0 <= base -> timers_reachable base size s -> timers_inv s.
Proof.
  intros Hs Hb. induction 1 as [|s s' _ IH Hstep].
  - split; try done; [split; cbn; (done || lia || constructor)|by unfold accounted].
  - destruct (timers_step_blocks s s' IH Hstep) as (H1 & H2 & H3). split; try done;
      [by apply (timers_step_accounted s)|by apply (timers_step_orderly s)].
Qed.

(** When blocks the manager does not have are empty, the tasks in blocks are the pending ones. *)
Lemma blocks_pending m :
  blocks_inv m -> (forall r, (r < next_ref m)%nat -> r ∉ map snd (m_time_blocks m) -> time_tasks (heap m !!! r) = []) ->
  in_blocks m ≡ₚ map snd (pending m).
Proof.
  intros Hb He. unfold in_blocks, pending, tasks_of. set (refs := map snd (m_time_blocks m)) in *.
  set (f := fun r => map snd (time_tasks (heap m !!! r))).
  assert (Hp : refs ++ filter (fun r => r ∉ refs) (seq 0 (next_ref m)) ≡ₚ seq 0 (next_ref m)).
  { rewrite <- (filter_app_complement (fun r => r ∈ refs) (seq 0 (next_ref m))) at 2. f_equiv. apply NoDup_Permutation.
    - apply Hb. - apply NoDup_filter, NoDup_seq.
    - intros r. rewrite list_elem_of_filter, elem_of_seq. split; [|tauto]. intros Hr. split; [done|].
      apply list_elem_of_fmap in Hr as (e & -> & Hin). destruct (proj1 (Forall_forall _ _) (bi_refs m Hb) _ Hin). lia. }
  rewrite <- Hp, flat_map_app.
  assert (H0 : flat_map f (filter (fun r => r ∉ refs) (seq 0 (next_ref m))) = []).
  { rewrite (flat_map_ext_in _ (fun _ => [])); [generalize (filter (fun r => r ∉ refs) (seq 0 (next_ref m))) as l; by induction l|]. intros r Hr.
    apply list_elem_of_filter in Hr as [Hn Hr]. apply elem_of_seq in Hr. unfold f. by rewrite He by (done || lia). }
  rewrite H0, app_nil_r. unfold refs. generalize (m_time_blocks m) as bs. clear. intros bs.
  induction bs as [|e bs IH]; [done|]. cbn. by rewrite map_app, IH.
Qed.

(** C36. Every task given to the timers is in exactly one place, whatever the threads do: handed
    over, taken out by a trigger that has yet to hand it over, between its look-up and its block, in
    a block, or refused because it fell due between the two readings of the clock.  As long as no
    trigger cleaned up while an insertion had only looked its block up, and no task was put into a
    block while a trigger was under way, every task that is in a block is in one the manager has, so
    that a later trigger finds it.  No insertion in the range of the slices meets the assertion. *)
Theorem timer_conserves_tasks base size s :
  0 < size -> 0 <= base -> timers_reachable base size s ->
  scheduled (manager s) ++ flat_map t_taken (triggers s) ++ map f_task (flying s) ++ refused s ++ in_blocks (manager s)
    ≡ₚ given s /\
  (overlap s = false -> in_blocks (manager s) ≡ₚ map snd (pending (manager s))) /\
  (forall now2 t, in_grid t (manager s) -> getOrCreateTimerBlock now2 t (manager s) <> GB_assert).
Proof.
  intros Hs Hb Hr. destruct (timers_inv_reachable _ _ _ Hs Hb Hr) as [Hi _ _ Ha Ho]. split_and!; [exact Ha| |].
  - intros Hov. destruct (Ho Hov) as (_ & He & _). by apply blocks_pending.
  - intros now2 t [Hlo Hhi]. pose proof (bi_base _ Hi). pose proof (bi_size _ Hi).
    destruct (block_begin_spec (manager s) t ltac:(done) ltac:(lia) Hhi) as [Hin (k & Hk & Ek)].
    assert (0 <= block_begin (manager s) t) by (rewrite Ek; nia).
    unfold getOrCreateTimerBlock. rewrite (wrap_small 64 (block_begin (manager s) t + _)) by (unfold UINT64_MAX in *; lia).
    destruct (t <? now2); [done|]. rewrite (proj2 (Z.leb_le _ t)), (proj2 (Z.ltb_lt t _)) by lia. by repeat case_match.
Qed.

Definition looked : TimeManager :=
  Eval vm_compute in match getOrCreateTimerBlock 1001 1250 (TimeManager_init 1000 100) with GB_ok _ m => m | _ => TimeManager_init 0 1 end.
Definition stored : TimeManager :=
  Eval vm_compute in match insert_into 1001 true 1250 7 0 looked with IT_ret _ m => m | _ => TimeManager_init 0 1 end.
Definition emptied : TimeManager := Eval vm_compute in (trigger_take 1260 0 (set_timerfd None stored)).2.

(** A task due at 1250 is put, taken out by a trigger at 1260, and handed over after another task that
    was due at once; a third fell due between two readings of the clock. *)
Lemma timer_conserves_tasks_witness :
  exists s, timers_reachable 1000 100 s /\ given s = [7; 8; 9]%nat /\ overlap s = false /\
    scheduled (manager s) = [8; 7]%nat /\ refused s = [9]%nat /\
    scheduled (manager s) ++ flat_map t_taken (triggers s) ++ map f_task (flying s) ++ refused s ++ in_blocks (manager s)
      ≡ₚ given s /\ in_blocks (manager s) ≡ₚ map snd (pending (manager s)).
Proof.
  set (s := MkTimers (trigger_clean 1260 1261 true [7%nat] (schedule 8 emptied)) [] [] [9%nat] [7; 8; 9]%nat false).
  assert (Hr : timers_reachable 1000 100 s).
  { eapply tr_next; [|apply (ts_clean _ [] [] 1260 [7%nat] [] _ _ false 1261 true)].
    eapply tr_next; [|apply (ts_refused _ _ _ [] [7; 8]%nat false 1263 1265 1264 9); [lia|vm_compute; reflexivity]].
    eapply tr_next; [|apply (ts_due emptied _ _ _ [7%nat] false 1262 1262 8); lia].
    eapply tr_next; [|apply (ts_take (set_timerfd None stored) [] [] 1260 0 [] [] [] _ _ false [7%nat] emptied); vm_compute; reflexivity].
    eapply tr_next; [|apply (ts_begin stored [] [] _ _ false 1260)].
    eapply tr_next; [|apply (ts_put looked [] (MkFlight 1250 7 0) [] [] _ _ false 1001 true 0 stored); vm_compute; reflexivity].
    eapply tr_next; [|apply (ts_look (TimeManager_init 1000 100) [] [] [] [] false 1000 1001 1250 7 0 looked);
      [lia|unfold in_grid, UINT64_MAX; cbn; lia|vm_compute; reflexivity]].
    apply tr_start. }
  exists s. destruct (timer_conserves_tasks 1000 100 s) as (H1 & H2 & _); [lia|lia|exact Hr|].
  split; [exact Hr|]. split; [reflexivity|]. split; [reflexivity|]. split; [vm_compute; reflexivity|]. split; [reflexivity|].
  split; [exact H1|]. apply H2. reflexivity.
Defined.
