(* ===== verification/TimerLife.v ===== *)
(** * The life of the timer manager

    Models the construction, [init], [close], destruction and [getInstance] of
    [TimeManager] ([sylar/basic/timer/timer.cc]): the descriptor of [timerfd_create], its
    registration with the IO manager, and the manager each thread keeps.  [opened] are the
    timer descriptors the process has not closed, [registered] those whose expiry calls
    [onTimerTriggered]; the answers of [timerfd_create] and the clock are arguments. *)

From S2P Require Import Prelude Timer.

Record outside := MkOutside { opened : list Z; registered : list Z }.

Record tm_life := MkLife { m_timerFd : Z; manager : TimeManager }.

Definition newTimeManager (blockLength : Z) : tm_life := MkLife (-1) (TimeManager_init 0 blockLength).

Definition set_base (now : Z) (m : TimeManager) : TimeManager :=
  mk_tm (m_nextTimerTime m) (m_time_blocks m) (heap m) (next_ref m) now (m_block_size_ms m) (m_timerCount m) (timerfd m) (scheduled m).

(** [init]; [fd] is the answer of [timerfd_create]. *)
Definition tm_init (fd now : Z) (t : tm_life) (o : outside) : Z * tm_life * outside :=
  if fd =? -1 then (-1, MkLife fd (manager t), o)
  else (0, MkLife fd (set_base now (manager t)), MkOutside (opened o ++ [fd]) (registered o ++ [fd])).

Definition tm_close (t : tm_life) (o : outside) : Z * outside :=
  (0, if m_timerFd t =? -1 then o else MkOutside (opened o) (filter (fun fd => fd <> m_timerFd t) (registered o))).

(** [~TimeManager] *)
Definition dtorTimeManager (t : tm_life) (o : outside) : outside :=
  if m_timerFd t =? -1 then o else (tm_close t o).2.

(** [getInstance]: [t_tim] is the manager of the thread. *)
Definition tm_getInstance (blockLength fd now : Z) (t_tim : option tm_life) (o : outside) : tm_life * outside :=
  match t_tim with
  | Some t => (t, o)
  | None => let '(_, t, o) := tm_init fd now (newTimeManager blockLength) o in (t, o)
  end.

(** A thread that asks for its manager, with the answers it would get each time. *)
Definition ask (blockLength : Z) (s : option tm_life * outside) (a : Z * Z) : option tm_life * outside :=
  let (t, o) := tm_getInstance blockLength a.1 a.2 s.1 s.2 in (Some t, o).

Lemma ask_again blockLength t o answers : fold_left (ask blockLength) answers (Some t, o) = (Some t, o).
Proof. induction answers as [|a answers IH]; [done|]. exact IH. Qed.

(** However often a thread asks, it has one manager, made with the first answer, whose
    descriptor is registered once and whose time base is the clock of that moment;
    destroying it takes the registration back. *)
Theorem manager_registered_once blockLength fd now answers :
  0 <= fd ->
  exists t o, fold_left (ask blockLength) ((fd, now) :: answers) (None, MkOutside [] []) = (Some t, o) /\
    m_timerFd t = fd /\ m_base_time (manager t) = now /\ registered o = [fd] /\
    registered (dtorTimeManager t o) = [].
Proof.
  intros Hfd. exists (MkLife fd (set_base now (TimeManager_init 0 blockLength))), (MkOutside [fd] [fd]).
  cbn [fold_left]. assert (E : (fd =? -1) = false) by lia.
  unfold ask at 2, tm_getInstance, tm_init. cbn [fst snd]. rewrite E, ask_again.
  split_and!; try done. unfold dtorTimeManager, tm_close. cbn [m_timerFd]. rewrite E. cbn [snd registered].
  rewrite filter_cons_False by tauto. done.
Qed.

Lemma manager_registered_once_witness :
  exists t o, fold_left (ask 3000) [(7, 100); (8, 200)] (None, MkOutside [] []) = (Some t, o) /\ m_timerFd t = 7 /\
    m_base_time (manager t) = 100 /\ registered o = [7] /\ registered (dtorTimeManager t o) = [].
Proof. apply (manager_registered_once 3000 7 100 [(8, 200)]). lia. Defined.

(** The descriptor is never closed. *)
Theorem timer_descriptor_leaks fd now t o :
  0 <= fd -> fd ∈ opened (let '(_, t, o) := tm_init fd now t o in dtorTimeManager t o).
Proof.
  intros Hfd. unfold tm_init. assert (E : (fd =? -1) = false) by lia. rewrite E. unfold dtorTimeManager, tm_close.
  cbn [m_timerFd]. rewrite E. cbn. apply elem_of_app. right. by left.
Qed.

(** A manager whose [init] failed is kept: the thread is never given a descriptor. *)
Theorem failed_manager_kept blockLength now answers :
  exists t, fold_left (ask blockLength) ((-1, now) :: answers) (None, MkOutside [] []) = (Some t, MkOutside [] []) /\
    m_timerFd t = -1.
Proof. eexists. cbn [fold_left]. unfold ask at 2, tm_getInstance, tm_init. cbn [fst snd Z.eqb Pos.eqb]. by rewrite ask_again. Qed.
