(* ===== verification/TimeLimit.v ===== *)
(** * Time limits

    Models [TimeLimitInfo] of [sylar/basic/timer/timer.hpp] and the operations of
    [TimeManager] that put a time limit on an event or on a task
    ([addEventWithTimeout], [addTaskWithTimeout] of [timer.cc]).

    The callback of the event, which the IO manager may start any number of
    times, and the timer run on different threads.  Each is a compare-exchange on
    the shared [TimeLimitInfo] followed by a sequence of effects; a step of the
    system is one compare-exchange or one effect of one of them. *)

From stdpp Require Import relations list.
From S2P Require Import Prelude.

(** ** [TimeLimitInfo] *)

Inductive LimitState := WAITING | FINISHED | ERROR | TIMEOUT.

#[global] Instance LimitState_eq_dec : EqDecision LimitState.
Proof. solve_decision. Defined.

(** [setState]: the compare-exchange, and the value it returns. *)
Definition setState (origin_state new_state m_state : LimitState) : Z * LimitState :=
  if decide (m_state = origin_state) then (0, new_state) else (-1, m_state).

(** ** The threads *)

Inductive effect :=
  | set_rtState (s : LimitState)        (* *rtState = s *)
  | cancel_timer                        (* time_task->cancel() *)
  | delEvent                            (* IOManager::delEvent(fd, event) *)
  | closeWithNoClose                    (* IOManager::closeWithNoClose(fd) *)
  | call_timeout_cb                     (* timeout_cb() *)
  | schedule_task.                      (* schedule(std::move( *taskwrapper)) *)

(** A thread about to exchange [WAITING] for a state and, if it wins, to perform
    the effects; or one that has the effects left. *)
Inductive thread :=
  | attempt (new_state : LimitState) (body : list effect)
  | running (rest : list effect).

(** [addEventWithTimeout]: the timer and the callback of the event. *)
Definition event_timeout_timer (closeFlag : bool) : thread :=
  attempt TIMEOUT
    [set_rtState TIMEOUT; if closeFlag then closeWithNoClose else delEvent; schedule_task].

Definition event_callback : thread :=
  attempt FINISHED [set_rtState FINISHED; cancel_timer; schedule_task].

(** [createTaskTimeoutTimer]: [rtState] and [timeout_cb] may be null. *)
Definition createTaskTimeoutTimer (rtState timeout_cb : bool) : thread :=
  attempt TIMEOUT
    ((if rtState then [set_rtState TIMEOUT] else []) ++ (if timeout_cb then [call_timeout_cb] else [])).

(** [markTaskFinished], called when the task ends; [time_task] may be null. *)
Definition markTaskFinished (rtState time_task : bool) : thread :=
  attempt FINISHED
    ((if rtState then [set_rtState FINISHED] else []) ++ (if time_task then [cancel_timer] else [])).

(** ** The system *)

Record limit := mk_limit {
  m_state : LimitState;
  performed : list effect;              (* the effects so far, in order *)
  threads : list thread;
}.

(** [addEventWithTimeout] followed by [n] readiness reports of the descriptor,
    and [addTaskWithTimeout]. *)
Definition addEventWithTimeout (closeFlag : bool) (n : nat) : limit :=
  mk_limit WAITING [] (event_timeout_timer closeFlag :: repeat event_callback n).

Definition addTaskWithTimeout (rtState timeout_cb : bool) : limit :=
  mk_limit WAITING [] [createTaskTimeoutTimer rtState timeout_cb; markTaskFinished rtState true].

Definition thread_step (t : thread) (s : limit) : option (thread * LimitState * list effect) :=
  match t with
  | attempt new_state body =>
      let (rc, st) := setState WAITING new_state (m_state s) in
      Some (running (if rc =? 0 then body else []), st, performed s)
  | running (e :: rest) => Some (running rest, m_state s, performed s ++ [e])
  | running [] => None
  end.

Inductive limit_step : limit -> limit -> Prop :=
  | limit_step_thread s i t t' st p :
      threads s !! i = Some t ->
      thread_step t s = Some (t', st, p) ->
      limit_step s (mk_limit st p (<[i := t']> (threads s))).

Definition finished (s : limit) : Prop := Forall (eq (running [])) (threads s).

(** ** One winner *)

Definition is_attempt (b : LimitState * list effect -> Prop) (t : thread) : Prop :=
  match t with attempt st body => b (st, body) | running r => r = [] end.

(** Either nobody has exchanged the state, or one thread has, and the effects
    performed are those it has had time for. *)
Definition one_winner (branches : list (LimitState * list effect)) (s : limit) : Prop :=
  (m_state s = WAITING /\ performed s = [] /\
   Forall (fun t => exists b, b ∈ branches /\ t = attempt b.1 b.2) (threads s)) \/
  (exists b i rest, b ∈ branches /\ m_state s = b.1 /\ performed s ++ rest = b.2 /\
     threads s !! i = Some (running rest) /\
     forall j t, threads s !! j = Some t -> j <> i -> is_attempt (fun b => b ∈ branches) t).

Section winner.
Context (branches : list (LimitState * list effect)).
Hypothesis no_waiting : Forall (fun b => b.1 <> WAITING) branches.

Lemma one_winner_step s s' : one_winner branches s -> limit_step s s' -> one_winner branches s'.
Proof using no_waiting.
  intros Hw Hs. destruct Hs as [s i t t' st p Hi Ht].
  assert (Hlen : (i < length (threads s))%nat) by (by eapply lookup_lt_Some).
  destruct Hw as [(Hst & Hp & Hall)|(b & k & rest & Hb & Hst & Hp & Hk & Hoth)].
  - right. destruct (proj1 (Forall_lookup _ _) Hall i t Hi) as (b & Hb & ->).
    cbn in Ht. rewrite Hst in Ht. cbn in Ht. injection Ht as <- <- <-.
    exists b, i, b.2. split_and!; [done|done|by rewrite Hp|by apply list_lookup_insert_eq|].
    intros j t Hj Hne. cbn [threads] in Hj; rewrite list_lookup_insert_ne in Hj by done.
    by destruct (proj1 (Forall_lookup _ _) Hall j t Hj) as (b' & Hb' & ->); destruct b'.
  - right. pose proof (proj1 (Forall_forall _ _) no_waiting b Hb) as Hnw. cbn in Hnw.
    destruct (decide (i = k)) as [->|Hne].
    + simplify_eq. destruct rest as [|e rest]; [done|]. cbn in Ht. injection Ht as <- <- <-.
      exists b, k, rest. split_and!; [done|done|by cbn; rewrite <- app_assoc|by apply list_lookup_insert_eq|].
      intros j t Hj ?. cbn [threads] in Hj; rewrite list_lookup_insert_ne in Hj by done. by eapply Hoth.
    + pose proof (Hoth i t Hi Hne) as Hat. destruct t as [to body|r]; cbn in Hat; [|by subst r].
      cbn in Ht. unfold setState in Ht. rewrite decide_False in Ht by congruence. cbn in Ht.
      injection Ht as <- <- <-. exists b, k, rest.
      split_and!; [done|done|done|by cbn [threads]; rewrite list_lookup_insert_ne|].
      intros j t Hj ?. destruct (decide (j = i)) as [->|].
      * cbn [threads] in Hj; rewrite list_lookup_insert_eq in Hj by done. by injection Hj as <-.
      * cbn [threads] in Hj; rewrite list_lookup_insert_ne in Hj by done. by eapply Hoth.
Qed.

Lemma one_winner_reachable s s' : one_winner branches s -> rtc limit_step s s' -> one_winner branches s'.
Proof using no_waiting. intros Hw Hr. induction Hr; [done|]. eauto using one_winner_step. Qed.

(** What the winner has done so far is an initial part of its branch; once
    every thread is done it is the whole branch, unless there was no thread. *)
Lemma one_winner_effects s :
  one_winner branches s ->
  exists b, (b ∈ branches \/ b = (WAITING, [])) /\ m_state s = b.1 /\ performed s `prefix_of` b.2 /\
    (finished s -> threads s <> [] -> b ∈ branches /\ performed s = b.2).
Proof.
  intros [(Hst & Hp & Hall)|(b & i & rest & Hb & Hst & Hp & Hi & _)].
  - exists (WAITING, []). split_and!; [by right|done|by rewrite Hp|].
    unfold finished. intros Hf Hne. destruct (threads s) as [|t ts]; [done|]. exfalso.
    inversion_clear Hall as [|? ? (b & _ & Et)]. inversion_clear Hf. congruence.
  - exists b. split_and!; [by left|done|by exists rest|].
    intros Hf _. split; [done|].
    pose proof (proj1 (Forall_lookup _ _) Hf i _ Hi) as Er. injection Er as <-. by rewrite app_nil_r in Hp.
Qed.
End winner.

Lemma limit_step_threads s s' : rtc limit_step s s' -> length (threads s') = length (threads s).
Proof.
  induction 1 as [|s s1 s2 Hs _ IH]; [done|]. rewrite IH. destruct Hs. cbn. by rewrite length_insert.
Qed.

Definition event_branches (closeFlag : bool) : list (LimitState * list effect) :=
  [(TIMEOUT, [set_rtState TIMEOUT; if closeFlag then closeWithNoClose else delEvent; schedule_task]);
   (FINISHED, [set_rtState FINISHED; cancel_timer; schedule_task])].

(** The number of times the task has been handed to the scheduler. *)
Definition scheduled_times (s : limit) : nat :=
  length (List.filter (fun e => match e with schedule_task => true | _ => false end) (performed s)).

Lemma event_limit_winner closeFlag n s :
  rtc limit_step (addEventWithTimeout closeFlag n) s -> one_winner (event_branches closeFlag) s.
Proof.
  apply one_winner_reachable; [by repeat constructor|]. left. split_and!; [done|done|].
  constructor; [by eexists; split; [left|]|]. apply Forall_forall. intros t Ht.
  apply list_elem_of_In, repeat_spec in Ht as ->. eexists. split; [right; left|done].
Qed.

Ltac member_cases H :=
  repeat (apply elem_of_cons in H as [H|H]; [subst|]); [..|by apply elem_of_nil in H].
Ltac branch_cases H := destruct H as [H|H]; [member_cases H|subst].

(** C32. A time limit on an event: however the timer and the callbacks of the
    event interleave, the task is scheduled at most once, [rtState] is written
    before it, and when all of them have run the task has been scheduled exactly
    once, with [rtState] telling which of the two happened. *)
Theorem event_timeout_exactly_once closeFlag n s :
  rtc limit_step (addEventWithTimeout closeFlag n) s ->
  (scheduled_times s <= 1)%nat /\
  (scheduled_times s = 1%nat -> head (performed s) = Some (set_rtState (m_state s))) /\
  (finished s -> scheduled_times s = 1%nat /\ (m_state s = TIMEOUT \/ m_state s = FINISHED)).
Proof.
  intros Hr. pose proof (event_limit_winner closeFlag n s Hr) as Hw.
  pose proof (limit_step_threads _ _ Hr) as Hlen.
  destruct (one_winner_effects _ _ Hw) as (b & Hb & Hst & [rest Hp] & Hf).
  assert (Hne : threads s <> []) by (intros E; by rewrite E in Hlen).
  unfold scheduled_times. split_and!.
  - branch_cases Hb; cbn in Hp; destruct closeFlag;
      destruct (performed s) as [|? [|? [|? [|]]]]; simplify_eq/=; lia.
  - branch_cases Hb; rewrite Hst; destruct (performed s); simplify_eq/=; done.
  - intros Hfin. destruct (Hf Hfin Hne) as [Hb' ->]. clear Hb.
    member_cases Hb';
      rewrite Hst; destruct closeFlag; cbn; auto.
Qed.

(** The timer wins against one callback of the event; all three threads end. *)
Definition timeout_run : limit :=
  mk_limit TIMEOUT [set_rtState TIMEOUT; delEvent; schedule_task] [running []; running []].

Lemma step_at i t' st p s s' t :
  threads s !! i = Some t -> thread_step t s = Some (t', st, p) ->
  s' = mk_limit st p (<[i := t']> (threads s)) -> limit_step s s'.
Proof. intros ? ? ->. by econstructor. Qed.

Ltac run_thread i := eapply rtc_l; [eapply (step_at i); [reflexivity|reflexivity|reflexivity]|cbn].

Lemma timeout_run_reachable : rtc limit_step (addEventWithTimeout false 1) timeout_run.
Proof. run_thread 0%nat. run_thread 0%nat. run_thread 1%nat. run_thread 0%nat. run_thread 0%nat. apply rtc_refl. Qed.

Lemma event_timeout_exactly_once_witness :
  (scheduled_times timeout_run <= 1)%nat /\ scheduled_times timeout_run = 1%nat.
Proof.
  destruct (event_timeout_exactly_once false 1 timeout_run timeout_run_reachable) as (H1 & _ & H3).
  split; [exact H1|]. apply H3. repeat constructor.
Defined.

(** A time limit on a task: the timeout callback runs only if the task had
    not been marked as finished, and then [rtState] is never overwritten by the
    end of the task: when both have run, [rtState] holds the state of the one
    that came first, and the callback has run exactly in the case of a timeout. *)
Theorem task_timeout_exclusive timeout_cb s :
  rtc limit_step (addTaskWithTimeout true timeout_cb) s ->
  (m_state s <> TIMEOUT -> ~ call_timeout_cb ∈ performed s) /\
  (forall st, set_rtState st ∈ performed s -> st = m_state s) /\
  (finished s ->
   (m_state s = TIMEOUT /\ performed s = set_rtState TIMEOUT :: (if timeout_cb then [call_timeout_cb] else [])) \/
   (m_state s = FINISHED /\ performed s = [set_rtState FINISHED; cancel_timer])).
Proof.
  intros Hr.
  set (branches := [(TIMEOUT, set_rtState TIMEOUT :: (if timeout_cb then [call_timeout_cb] else []));
                    (FINISHED, [set_rtState FINISHED; cancel_timer])]).
  assert (Hw : one_winner branches s).
  { revert Hr. apply one_winner_reachable; [by repeat constructor|]. left. split_and!; [done|done|].
    apply Forall_cons_2; [eexists; split; [left|done]|].
    apply Forall_cons_2; [eexists; split; [right; left|done]|apply Forall_nil_2]. }
  pose proof (limit_step_threads _ _ Hr) as Hlen.
  destruct (one_winner_effects _ _ Hw) as (b & Hb & Hst & Hp & Hf).
  assert (Hne : threads s <> []) by (intros E; by rewrite E in Hlen).
  assert (Hin : forall e, e ∈ performed s -> e ∈ b.2).
  { destruct Hp as [rest ->]. intros e He. apply elem_of_app. by left. }
  subst branches. split_and!.
  - intros Hnt He. apply Hin in He. branch_cases Hb; cbn in *; [done| |by apply elem_of_nil in He].
    by member_cases He.
  - intros st He. apply Hin in He. rewrite Hst.
    branch_cases Hb; cbn in *; destruct timeout_cb; member_cases He; by simplify_eq.
  - intros Hfin. destruct (Hf Hfin Hne) as [Hb' ->]. rewrite Hst. member_cases Hb'; auto.
Qed.

Definition finished_run : limit :=
  mk_limit FINISHED [set_rtState FINISHED; cancel_timer] [running []; running []].

Lemma finished_run_reachable : rtc limit_step (addTaskWithTimeout true true) finished_run.
Proof. run_thread 1%nat. run_thread 0%nat. run_thread 1%nat. run_thread 1%nat. apply rtc_refl. Qed.

Lemma task_timeout_exclusive_witness : ~ call_timeout_cb ∈ performed finished_run.
Proof. apply (task_timeout_exclusive true finished_run finished_run_reachable). discriminate. Defined.
