(* ===== verification/TaskCoro.v ===== *)
(** * Schedulable tasks

    Models [TaskCoro20] of [sylar/coroutine/coro20/fiber.h]: a task is a plain
    function or a coroutine created from a function.  Functions are numbers; the
    coroutine frame behind a [Task] is the function it runs and whether it has
    run to its end.  Moving leaves the source with the type [UNKNOWN]. *)

From S2P Require Import Prelude.

Inductive Type_ := UNKNOWN | CORO | FUNC.

#[global] Instance Type_eq_dec : EqDecision Type_.
Proof. solve_decision. Defined.

Record frame := mk_frame { body : nat; is_done : bool }.

Record TaskCoro20 := mk_tc {
  m_func_task : option nat;             (* std::function<void()>, null or not *)
  m_coro_task : option nat;             (* std::function<Task<void>()> *)
  m_task : option frame;                (* the handle of the Task, null or not *)
  m_is_inited : bool;
  m_finished : bool;
  m_type : Type_;
}.

(** [TaskCoro20()] and [TaskCoro20(std::function<void()>)]. *)
Definition TaskCoro20_default : TaskCoro20 := mk_tc None None None false false UNKNOWN.
Definition TaskCoro20_func (f : option nat) : TaskCoro20 := mk_tc f None None true false FUNC.

(** [create_func] and [create_coro]; calling a null function throws. *)
Definition create_func (f : option nat) : TaskCoro20 := mk_tc f None None true false FUNC.
Definition create_coro (f : option nat) : option TaskCoro20 :=
  match f with
  | Some g => Some (mk_tc None f (Some (mk_frame g false)) true false CORO)
  | None => None
  end.

(** [clone]: a fresh task of the same function. *)
Definition clone (t : TaskCoro20) : option TaskCoro20 :=
  match m_type t with
  | FUNC => Some (create_func (m_func_task t))
  | CORO => create_coro (m_coro_task t)
  | UNKNOWN => Some TaskCoro20_default
  end.

(** The move constructor and the move assignment: the new value, and what is left
    of the old one. *)
Definition move (other : TaskCoro20) : TaskCoro20 * TaskCoro20 :=
  (other,
   mk_tc (m_func_task other) (m_coro_task other) None (m_is_inited other) (m_finished other) UNKNOWN).

Definition reset (t : TaskCoro20) : TaskCoro20 :=
  mk_tc None None (m_task t) false (m_finished t) UNKNOWN.

(** [reset(TaskCoro20&&)]: the task afterwards and what is left of the other. *)
Definition reset_to (other t : TaskCoro20) : TaskCoro20 * TaskCoro20 :=
  (mk_tc (m_func_task t) (m_coro_task t) (m_task other) (m_is_inited other) (m_finished t) (m_type other),
   mk_tc (m_func_task other) (m_coro_task other) None (m_is_inited other) (m_finished other) (m_type other)).

Definition isLegal (t : TaskCoro20) : bool :=
  m_is_inited t &&
  match m_type t with
  | CORO => match m_task t with Some _ => true | None => false end
  | FUNC => match m_func_task t with Some _ => true | None => false end
  | UNKNOWN => false
  end.

Definition isFinished (t : TaskCoro20) : bool :=
  if negb (isLegal t) then false
  else
    match m_type t with
    | CORO => match m_task t with Some fr => is_done fr | None => false end
    | FUNC => m_finished t
    | UNKNOWN => true
    end.

(** [start]: what runs, and the task afterwards; [ends] tells whether a coroutine
    reaches its end in this run.  Resuming a finished or a null frame is
    undefined. *)
Inductive start_res :=
  | St_call (f : nat) (t : TaskCoro20)
  | St_nothing
  | St_throw                            (* bad_function_call *)
  | St_undefined.

Definition start (ends : bool) (t : TaskCoro20) : start_res :=
  match m_type t with
  | CORO =>
      match m_task t with
      | Some (mk_frame g false) =>
          St_call g (mk_tc (m_func_task t) (m_coro_task t) (Some (mk_frame g ends)) (m_is_inited t)
                       (m_finished t) CORO)
      | _ => St_undefined
      end
  | FUNC =>
      match m_func_task t with
      | Some f => St_call f (mk_tc (Some f) (m_coro_task t) (m_task t) (m_is_inited t) true FUNC)
      | None => St_throw
      end
  | UNKNOWN => St_nothing
  end.

(** The function a task runs when it is started from the beginning. *)
Definition runs (t : TaskCoro20) : option nat :=
  match m_type t with FUNC => m_func_task t | CORO => m_coro_task t | UNKNOWN => None end.

(** A task as [create_func] and [create_coro] make it, before it is started. *)
Definition fresh (f : nat) (t : TaskCoro20) : Prop :=
  m_is_inited t = true /\ m_finished t = false /\
  ((m_type t = FUNC /\ m_func_task t = Some f) \/
   (m_type t = CORO /\ m_coro_task t = Some f /\ m_task t = Some (mk_frame f false))).

Lemma create_func_fresh f : fresh f (create_func (Some f)).
Proof. unfold fresh. cbn. auto. Qed.

Lemma fresh_start f t ends : fresh f t -> exists t', start ends t = St_call f t'.
Proof.
  intros (_ & _ & [[Ht Hf]|(Ht & _ & Hf)]); unfold start; rewrite Ht, Hf; by eexists.
Qed.

Lemma fresh_legal f t : fresh f t -> isLegal t = true /\ isFinished t = false.
Proof.
  intros (Hi & Hn & [[Ht Hf]|(Ht & _ & Hf)]); unfold isFinished, isLegal; by rewrite Hi, ?Hn, Ht, Hf.
Qed.

Lemma fresh_clone f t : fresh f t -> exists t', clone t = Some t' /\ fresh f t'.
Proof.
  intros (Hi & Hn & [[Ht Hf]|(Ht & Hf & _)]); unfold clone; rewrite Ht, Hf; cbn;
    eexists; (split; [done|]); unfold fresh; cbn; auto 10.
Qed.

(** Nothing that was moved from or reset can be started. *)
Lemma moved_illegal t : isLegal (move t).2 = false.
Proof. unfold isLegal. cbn. apply andb_false_r. Qed.

Lemma reset_illegal t : isLegal (reset t) = false.
Proof. done. Qed.

#[export] Hint Resolve fresh_legal fresh_clone create_func_fresh moved_illegal : sylar.

(** Resetting to a coroutine gives a task that runs it; to a function, one that cannot be
    started, as the function is not taken over. *)
Theorem reset_to_coro f t ends :
  exists c, create_coro (Some f) = Some c /\ isLegal (reset_to c t).1 = true /\ exists t', start ends (reset_to c t).1 = St_call f t'.
Proof. eexists. split; [reflexivity|]. split; [reflexivity|]. eexists. reflexivity. Qed.

Theorem reset_to_func_loses_it f :
  isLegal (reset_to (create_func (Some f)) TaskCoro20_default).1 = false /\
  isLegal (reset_to (create_func (Some f)) TaskCoro20_default).2 = true.
Proof. done. Qed.
