(* ===== verification/Scheduler.v ===== *)
(** * The task pool and the scheduler's worker loop

    Models [TaskPoolNode] and [TaskPool] ([sylar/coroutine/coro20/taskPool.cc])
    and [Scheduler::schedule] and the loop of [Scheduler::run]
    ([scheduler.h], [scheduler.cc]).  A node is a queue; the pool deals tasks to
    the nodes and takes batches from them in turn, with two 32-bit counters.

    A worker's pass fetches a batch, runs it, and decides whether to stop, to go
    on or to wait; [m_idleThreadCount] and waking other threads do not change
    the pool. *)

From S2P Require Import Prelude TaskCoro.

Definition SINGLE_GET_TASK_NUM : nat := 15.

(** ** [TaskPoolNode] *)

Section node.
Context {A : Type}.

Definition addTask (task : A) (tasks : list A) : list A := tasks ++ [task].

(** [getTask]: the batch, what stays, and the number returned. *)
Definition getTask (num : nat) (tasks : list A) : list A * list A * Z :=
  match tasks with
  | [] => ([], [], 0)
  | _ =>
      let task_num := length tasks in
      if (task_num <? num)%nat then (tasks, [], Z.of_nat task_num)
      else (take num tasks, drop num tasks, Z.of_nat num)
  end.
End node.

(** ** [TaskPool] *)

Section pool.
Context {A : Type}.

Record TaskPool := mk_pool {
  m_nodes : list (list A);
  m_loop_idx : Z;
  m_alloc_idx : Z;
  m_task_count : Z;
}.

Definition TaskPool_ctor (nodeNum : nat) : TaskPool := mk_pool (replicate nodeNum []) 0 0 0.

Definition node_num (p : TaskPool) : Z := zlen (m_nodes p).

(** The node an index selects. *)
Definition pick (idx : Z) (p : TaskPool) : nat := Z.to_nat (idx mod node_num p).

Definition taskAlloc (task : A) (p : TaskPool) : TaskPool :=
  let i := pick (m_alloc_idx p) p in
  let node := default [] (m_nodes p !! i) in
  mk_pool (<[i := addTask task node]> (m_nodes p)) (m_loop_idx p) (u32 (m_alloc_idx p + 1))
    (u32 (m_task_count p + 1)).

Definition taskGet (p : TaskPool) : list A * TaskPool :=
  let i := pick (m_loop_idx p) p in
  let '(batch, left_, rt) := getTask SINGLE_GET_TASK_NUM (default [] (m_nodes p !! i)) in
  (batch, mk_pool (<[i := left_]> (m_nodes p)) (u32 (m_loop_idx p + 1)) (m_alloc_idx p)
            (u32 (m_task_count p - rt))).

(** [getTaskCount], as a condition. *)
Definition getTaskCount (p : TaskPool) : bool := truthy (m_task_count p).

(** [while(!taskGet(work_list) && getTaskCount()) {}]; [None]: out of fuel. *)
Fixpoint fetch (fuel : nat) (p : TaskPool) : option (list A * TaskPool) :=
  match fuel with
  | O => None
  | S fuel =>
      let (batch, p) := taskGet p in
      match batch with
      | [] => if getTaskCount p then fetch fuel p else Some ([], p)
      | _ => Some (batch, p)
      end
  end.

Definition all_tasks (p : TaskPool) : list A := concat (m_nodes p).

Record pool_inv (p : TaskPool) : Prop := mk_pool_inv {
  pi_nodes : 0 < node_num p <= 2 ^ 31;
  pi_loop : 0 <= m_loop_idx p < 2 ^ 32;
  pi_count : m_task_count p = zlen (all_tasks p);
  pi_fits : zlen (all_tasks p) < 2 ^ 32;
}.
End pool.
Arguments TaskPool A : clear implicits.

(** ** [Scheduler] *)

Record Scheduler := mk_sched {
  m_task_pool : TaskPool TaskCoro20;
  m_autoStop : bool;
  m_stop : bool;
}.

Definition Scheduler_ctor (thread_num : nat) : Scheduler := mk_sched (TaskPool_ctor thread_num) false false.

(** [schedule]: a finished task is ignored, and every task once [m_autoStop] is
    set. *)
Definition schedule (task : TaskCoro20) (s : Scheduler) : Scheduler :=
  if isFinished task then s
  else if m_autoStop s then s
  else mk_sched (taskAlloc task (m_task_pool s)) (m_autoStop s) (m_stop s).

(** The loop over the work list: the functions called. *)
Fixpoint run_list (work_list : list TaskCoro20) : list nat :=
  match work_list with
  | [] => []
  | curr_task :: rest =>
      (if isLegal curr_task && negb (isFinished curr_task) then
         match start true curr_task with St_call f _ => [f] | _ => [] end
       else []) ++ run_list rest
  end.

Inductive after := stop_thread | next_pass | go_idle.

(** One pass of the loop of [run], and what comes after it; [None]: the fetch
    loop ran out of [fuel].  The tasks of the batch do not schedule others. *)
Definition run_pass (fuel : nat) (s : Scheduler) : option (list nat * Scheduler * after) :=
  match fetch fuel (m_task_pool s) with
  | None => None
  | Some (work_list, p) =>
      let calls := run_list work_list in
      let s := mk_sched p (m_autoStop s) (m_stop s) in
      Some (calls, s,
            if m_stop s || (negb (getTaskCount p) && m_autoStop s) then stop_thread
            else if getTaskCount p then next_pass
            else go_idle)
  end.

(** Passes of one worker until it would go idle or stop. *)
Fixpoint run_worker (passes fuel : nat) (s : Scheduler) : option (list nat * Scheduler) :=
  match passes with
  | O => None
  | S passes =>
      match run_pass fuel s with
      | None => None
      | Some (calls, s, next_pass) =>
          match run_worker passes fuel s with
          | Some (calls', s) => Some (calls ++ calls', s)
          | None => None
          end
      | Some (calls, s, _) => Some (calls, s)
      end
  end.

(** ** The pool keeps its tasks *)

Section pool_lemmas.
Context {A : Type}.
Implicit Types (p : TaskPool A) (l : list A).

Lemma getTask_split l :
  getTask SINGLE_GET_TASK_NUM l = (take 15 l, drop 15 l, zlen (take 15 l)).
Proof.
  unfold getTask, SINGLE_GET_TASK_NUM. destruct l as [|x l]; [done|].
  destruct (_ <? 15)%nat eqn:E.
  - apply Nat.ltb_lt in E. rewrite take_ge, drop_ge by lia. done.
  - apply Nat.ltb_ge in E. unfold zlen. rewrite length_take, Nat.min_l by lia. done.
Qed.

Lemma pick_lt p idx : 0 < node_num p -> (pick idx p < length (m_nodes p))%nat.
Proof. intros H. unfold pick, node_num, zlen in *. pose proof (Z.mod_pos_bound idx _ H). lia. Qed.

Lemma concat_insert (ns : list (list A)) i n n' :
  ns !! i = Some n -> concat (<[i := n']> ns) ++ n ≡ₚ concat ns ++ n'.
Proof.
  intros H. apply list_elem_of_split_length in H as (l1 & l2 & -> & ->).
  rewrite insert_app_r_alt, Nat.sub_diag by lia. cbn. rewrite !concat_app. cbn.
  rewrite <- !app_assoc. f_equiv. rewrite (Permutation_app_comm (concat l2) n), (Permutation_app_comm (concat l2) n').
  rewrite !app_assoc. by rewrite (Permutation_app_comm n n').
Qed.

Lemma one_node p idx n :
  node_num p = 1 -> m_nodes p !! pick idx p = Some n -> m_nodes p = [n] /\ pick idx p = 0%nat.
Proof.
  intros H1 Hn. unfold pick in *. rewrite H1, Z.mod_1_r in *. change (Z.to_nat 0) with 0%nat in *. unfold node_num, zlen in H1.
  destruct (m_nodes p) as [|n' [|]]; cbn in *; [done|by injection Hn as ->|lia].
Qed.

Lemma taskAlloc_inv task p :
  pool_inv p -> zlen (all_tasks p) + 1 < 2 ^ 32 ->
  pool_inv (taskAlloc task p) /\ all_tasks (taskAlloc task p) ≡ₚ task :: all_tasks p /\
  node_num (taskAlloc task p) = node_num p /\
  (node_num p = 1 -> all_tasks (taskAlloc task p) = all_tasks p ++ [task]).
Proof.
  intros [Hn Hl Hc Hf] Hroom. pose proof (pick_lt p (m_alloc_idx p) ltac:(lia)) as Hi.
  destruct (lookup_lt_is_Some_2 _ _ Hi) as [n En].
  assert (Hp : all_tasks (taskAlloc task p) ≡ₚ task :: all_tasks p).
  { unfold all_tasks, taskAlloc. cbn [m_nodes]. rewrite En. cbn [default].
    apply (Permutation_app_inv_r n). rewrite (concat_insert _ _ n) by done. unfold addTask, id.
    cbn. rewrite (Permutation_app_comm n [task]), app_assoc, (Permutation_app_comm _ [task]). done. }
  assert (Hz : zlen (all_tasks (taskAlloc task p)) = zlen (all_tasks p) + 1).
  { unfold zlen. rewrite Hp. cbn. lia. }
  assert (Hnn : node_num (taskAlloc task p) = node_num p).
  { unfold node_num, taskAlloc, zlen. cbn. by rewrite length_insert. }
  split_and!; [|done|done|].
  - split; rewrite ?Hnn, ?Hz; try done.
    cbn [taskAlloc m_task_count]. rewrite Hc. pose proof (zlen_nonneg (all_tasks p)). apply wrap_small. lia.
  - intros H1. destruct (one_node p _ n H1 En) as [Em Ep]. unfold all_tasks, taskAlloc.
    rewrite En, Ep, Em. cbn. by rewrite !app_nil_r.
Qed.

Lemma taskGet_inv p batch p' :
  pool_inv p -> taskGet p = (batch, p') ->
  pool_inv p' /\ batch ++ all_tasks p' ≡ₚ all_tasks p /\ node_num p' = node_num p /\
  m_loop_idx p' = u32 (m_loop_idx p + 1) /\ (batch = [] -> m_nodes p' = m_nodes p) /\
  (node_num p = 1 -> batch ++ all_tasks p' = all_tasks p).
Proof.
  intros [Hn Hl Hc Hf] E. pose proof (pick_lt p (m_loop_idx p) ltac:(lia)) as Hi.
  destruct (lookup_lt_is_Some_2 _ _ Hi) as [n En]. unfold taskGet in E. rewrite En in E. cbn [default id] in E.
  rewrite getTask_split in E. injection E as <- <-. set (p' := mk_pool _ _ _ _).
  assert (Hp : take 15 n ++ all_tasks p' ≡ₚ all_tasks p).
  { unfold all_tasks, p'. cbn [m_nodes]. apply (Permutation_app_inv_r (drop 15 n)).
    rewrite <- (concat_insert _ _ n (drop 15 n) En), (Permutation_app_comm (take 15 n)), <- app_assoc.
    by rewrite take_drop. }
  assert (Hz : zlen (take 15 n) + zlen (all_tasks p') = zlen (all_tasks p)).
  { rewrite <- zlen_app. unfold zlen. by rewrite Hp. }
  assert (Hnn : node_num p' = node_num p).
  { unfold node_num, p', zlen. cbn. by rewrite length_insert. }
  pose proof (zlen_nonneg (take 15 n)). pose proof (zlen_nonneg (all_tasks p')).
  split_and!; [|done|done|done| |].
  - split; rewrite ?Hnn; [done|by apply wrap_range| |lia]. cbn [p' m_task_count]. rewrite Hc, wrap_small; lia.
  - intros E0. cbn [p' m_nodes]. apply list_insert_id. rewrite En. f_equal.
    destruct n as [|x n]; [done|]. done.
  - intros H1. destruct (one_node p _ n H1 En) as [Em Ep]. unfold all_tasks, p'. cbn [m_nodes].
    rewrite Ep, Em. cbn. by rewrite !app_nil_r, take_drop.
Qed.

(** ** The fetch loop *)

(** The counter reaches every node within two rounds, wrap-around included. *)
Lemma index_reaches (n idx : Z) (r : nat) :
  0 < n <= 2 ^ 31 -> 0 <= idx < 2 ^ 32 -> Z.of_nat r < n ->
  exists k, 0 <= k < 2 * n /\ Z.to_nat (wrap 32 (idx + k) mod n) = r.
Proof.
  intros Hn Hi Hr. destruct (Z.lt_ge_cases (idx + n) (2 ^ 32)) as [Hlt|Hge].
  - exists ((Z.of_nat r - idx) mod n). pose proof (Z.mod_pos_bound (Z.of_nat r - idx) n ltac:(lia)).
    split; [lia|]. rewrite wrap_small by lia. rewrite Zplus_mod_idemp_r.
    replace (idx + (Z.of_nat r - idx)) with (Z.of_nat r) by lia. rewrite Z.mod_small by lia. lia.
  - exists (2 ^ 32 - idx + Z.of_nat r). split; [lia|]. unfold wrap.
    replace (idx + (2 ^ 32 - idx + Z.of_nat r)) with (Z.of_nat r + 1 * 2 ^ 32) by lia.
    rewrite Z_mod_plus_full, (Z.mod_small (Z.of_nat r) (2 ^ 32)), Z.mod_small by lia. lia.
Qed.

Lemma fetch_finds fuel : forall p k n,
  pool_inv p -> (Z.of_nat k < Z.of_nat fuel) -> all_tasks p <> [] ->
  m_nodes p !! pick (u32 (m_loop_idx p + Z.of_nat k)) p = Some n -> n <> [] ->
  exists batch p', fetch fuel p = Some (batch, p') /\ batch <> [] /\ pool_inv p' /\
    batch ++ all_tasks p' ≡ₚ all_tasks p /\ node_num p' = node_num p /\
    (node_num p = 1 -> batch ++ all_tasks p' = all_tasks p).
Proof.
  induction fuel as [|fuel IH]; intros p k n Hinv Hk Hne Hn Hnn; [lia|]. cbn [fetch].
  destruct (taskGet p) as [batch p'] eqn:Eg. pose proof Eg as Eg'.
  destruct (taskGet_inv p batch p' Hinv Eg) as (Hinv' & Hp & Hnum & Hidx & Hsame & H1).
  destruct batch as [|x batch]; [|by exists (x :: batch), p'].
  specialize (Hsame eq_refl). assert (Hall : all_tasks p' = all_tasks p) by (unfold all_tasks; by rewrite Hsame).
  assert (Ht : getTaskCount p' = true).
  { unfold getTaskCount. apply truthy_spec. rewrite (pi_count p' Hinv'), Hall. unfold zlen.
    destruct (all_tasks p); [done|cbn; lia]. }
  rewrite Ht. destruct k as [|k].
  - exfalso. unfold taskGet in Eg'. rewrite Z.add_0_r, wrap_small in Hn by apply Hinv.
    rewrite Hn in Eg'. cbn [default id] in Eg'. rewrite getTask_split in Eg'.
    destruct n as [|y n]; done.
  - destruct (IH p' k n Hinv' ltac:(lia) ltac:(by rewrite Hall)) as (b2 & p2 & -> & Hb2 & Hi2 & Hp2 & Hn2 & H2); [|done|].
    + rewrite Hsame, Hidx. unfold pick in *. rewrite Hnum. unfold wrap in *. rewrite Zplus_mod_idemp_l.
      by replace (m_loop_idx p + 1 + Z.of_nat k) with (m_loop_idx p + Z.of_nat (S k)) by lia.
    + rewrite Hall in Hp2, H2. exists b2, p2. split_and!; try done; [congruence|]. intros Ho. apply H2. congruence.
Qed.

Lemma fetch_correct fuel p :
  pool_inv p -> all_tasks p <> [] -> 2 * node_num p <= Z.of_nat fuel ->
  exists batch p', fetch fuel p = Some (batch, p') /\ batch <> [] /\ pool_inv p' /\
    batch ++ all_tasks p' ≡ₚ all_tasks p /\ node_num p' = node_num p /\
    (node_num p = 1 -> batch ++ all_tasks p' = all_tasks p).
Proof.
  intros Hinv Hne Hf. destruct (all_tasks p) as [|x l] eqn:E; [done|].
  assert (Hx : x ∈ all_tasks p) by (rewrite E; by left).
  unfold all_tasks in Hx. rewrite list_elem_of_In in Hx. apply in_concat in Hx as (n & Hn & Hxn).
  apply list_elem_of_In, list_elem_of_lookup in Hn as [r Hr]. pose proof (lookup_lt_Some _ _ _ Hr) as Hlt.
  destruct (index_reaches (node_num p) (m_loop_idx p) r) as (k & Hk & Ek);
    [apply Hinv|apply Hinv|unfold node_num, zlen; lia|].
  rewrite <- E. apply (fetch_finds fuel p (Z.to_nat k) n); [done|lia|by rewrite E| |by intros ->].
  unfold pick. rewrite Z2Nat.id by lia. by rewrite Ek.
Qed.
End pool_lemmas.

(** ** The worker *)

Definition run_one (t : TaskCoro20) : list nat :=
  if isLegal t && negb (isFinished t) then match start true t with St_call f _ => [f] | _ => [] end else [].

Lemma run_list_flat ts : run_list ts = flat_map run_one ts.
Proof. induction ts as [|t ts IH]; [done|]. cbn. by rewrite IH. Qed.

Lemma run_list_app ts us : run_list (ts ++ us) = run_list ts ++ run_list us.
Proof. rewrite !run_list_flat. apply flat_map_app. Qed.

Lemma run_list_perm ts us : ts ≡ₚ us -> run_list ts ≡ₚ run_list us.
Proof. rewrite !run_list_flat. intros H. by apply Permutation_flat_map. Qed.

Lemma run_list_fresh fs ts : Forall2 fresh fs ts -> run_list ts = fs.
Proof.
  induction 1 as [|f t fs ts Hf _ IH]; [done|]. cbn. destruct (fresh_legal f t Hf) as [-> ->].
  destruct (fresh_start f t true Hf) as [t' ->]. cbn. by rewrite IH.
Qed.

Lemma run_worker_drains passes : forall fuel s,
  pool_inv (m_task_pool s) -> m_stop s = false -> 2 * node_num (m_task_pool s) <= Z.of_nat fuel ->
  (length (all_tasks (m_task_pool s)) < passes)%nat ->
  exists calls s', run_worker passes fuel s = Some (calls, s') /\
    calls ≡ₚ run_list (all_tasks (m_task_pool s)) /\ all_tasks (m_task_pool s') = [] /\
    (node_num (m_task_pool s) = 1 -> calls = run_list (all_tasks (m_task_pool s))).
Proof.
  induction passes as [|passes IH]; intros fuel s Hinv Hst Hf Hlen; [lia|]. cbn [run_worker]. unfold run_pass.
  pose proof (pi_nodes _ Hinv) as Hn.
  destruct (decide (all_tasks (m_task_pool s) = [])) as [E0|E0].
  - destruct fuel as [|fuel]; [lia|]. cbn [fetch]. destruct (taskGet (m_task_pool s)) as [batch p'] eqn:Eg.
    destruct (taskGet_inv _ _ _ Hinv Eg) as (Hi & Hp & _). rewrite E0 in Hp.
    symmetry in Hp; apply Permutation_nil in Hp. destruct batch; [|done]. cbn in Hp.
    assert (Hz : getTaskCount p' = false).
    { unfold getTaskCount. apply truthy_false. by rewrite (pi_count _ Hi), Hp. }
    rewrite !Hz, Hst, E0. cbn [orb negb andb run_list m_stop]. destruct (m_autoStop s); eexists _, _; by split_and!.
  - destruct (fetch_correct fuel _ Hinv E0 Hf) as (batch & p' & -> & Hb & Hi & Hp & Hnum & H1).
    assert (Hlen' : (length batch + length (all_tasks p') = length (all_tasks (m_task_pool s)))%nat)
      by (rewrite <- length_app; by rewrite Hp).
    assert (length batch <> 0)%nat by (by destruct batch).
    cbn [m_stop m_autoStop]. rewrite Hst. cbn [orb].
    destruct (getTaskCount p') eqn:Ec; cbn [negb andb].
    + destruct (IH fuel (mk_sched p' (m_autoStop s) false) Hi eq_refl) as (calls & s' & E' & Hc & He & Ho);
        [cbn; congruence|cbn; lia|]. rewrite E'.
      eexists _, _. split_and!; [done| |done|].
      * rewrite Hc, <- run_list_app. by apply run_list_perm.
      * intros Hone. rewrite Ho, <- run_list_app by (cbn; congruence). cbn [m_task_pool]. by rewrite H1.
    + assert (Hz : all_tasks p' = []).
      { apply truthy_false in Ec. rewrite (pi_count _ Hi) in Ec. unfold zlen in Ec. by destruct (all_tasks p'). }
      rewrite Hz, app_nil_r in Hp, H1.
      destruct (m_autoStop s); eexists _, _; (split_and!; [done|by apply run_list_perm|done|]); intros Hone; by rewrite H1.
Qed.

Lemma schedule_all ts : forall s,
  pool_inv (m_task_pool s) -> m_autoStop s = false -> Forall (fun t => isFinished t = false) ts ->
  zlen (all_tasks (m_task_pool s)) + zlen ts < 2 ^ 32 ->
  let s' := fold_left (fun s t => schedule t s) ts s in
  pool_inv (m_task_pool s') /\ m_stop s' = m_stop s /\ node_num (m_task_pool s') = node_num (m_task_pool s) /\
  all_tasks (m_task_pool s') ≡ₚ all_tasks (m_task_pool s) ++ ts /\
  (node_num (m_task_pool s) = 1 -> all_tasks (m_task_pool s') = all_tasks (m_task_pool s) ++ ts).
Proof.
  induction ts as [|t ts IH]; intros s Hinv Ha Hts Hroom; cbn [fold_left].
  { rewrite app_nil_r. by split_and!. }
  inversion_clear Hts as [|? ? Ht Hts']. rewrite zlen_cons in Hroom. pose proof (zlen_nonneg ts).
  destruct (taskAlloc_inv t (m_task_pool s) Hinv ltac:(lia)) as (Hi & Hp & Hn & H1).
  assert (Es : schedule t s = mk_sched (taskAlloc t (m_task_pool s)) false (m_stop s)) by (unfold schedule; by rewrite Ht, Ha).
  rewrite Es. destruct (IH (mk_sched (taskAlloc t (m_task_pool s)) false (m_stop s)) Hi eq_refl Hts') as (? & ? & En & Hp2 & H2).
  { cbn [m_task_pool]. replace (zlen (all_tasks (taskAlloc t (m_task_pool s)))) with (zlen (all_tasks (m_task_pool s)) + 1); [lia|].
    unfold zlen. rewrite Hp. cbn. lia. }
  cbn [m_task_pool m_stop] in *. split_and!; [done|done|congruence| |].
  - rewrite Hp2, Hp. by rewrite <- Permutation_middle.
  - intros Hone. rewrite H2, H1 by congruence. by rewrite <- app_assoc.
Qed.

Lemma ctor_pool_inv n : (0 < n)%nat -> Z.of_nat n <= 2 ^ 31 ->
  pool_inv (m_task_pool (Scheduler_ctor n)) /\ all_tasks (m_task_pool (Scheduler_ctor n)) = [] /\
  node_num (m_task_pool (Scheduler_ctor n)) = Z.of_nat n.
Proof.
  intros H1 H2. assert (E : all_tasks (m_task_pool (Scheduler_ctor n)) = []).
  { unfold all_tasks. cbn. clear. by induction n. }
  assert (En : node_num (m_task_pool (Scheduler_ctor n)) = Z.of_nat n).
  { unfold node_num, zlen. cbn. by rewrite length_replicate. }
  split_and!; [|done|done]. split; rewrite ?En, ?E; cbn; lia || done.
Qed.

(** * Results *)

(** Scheduled tasks run: a worker of a scheduler with any number of threads
    runs every task scheduled exactly once and then finds nothing left; each
    search for work ends within two rounds of the nodes, also when the 32-bit
    counter wraps; with one thread the tasks run in the order of scheduling. *)
Theorem worker_runs_all n fs ts :
  (0 < n)%nat -> Z.of_nat n <= 2 ^ 31 -> Forall2 fresh fs ts -> zlen ts < 2 ^ 32 ->
  exists calls s', run_worker (S (length ts)) (2 * n) (fold_left (fun s t => schedule t s) ts (Scheduler_ctor n))
      = Some (calls, s') /\
    calls ≡ₚ fs /\ all_tasks (m_task_pool s') = [] /\ (n = 1%nat -> calls = fs).
Proof.
  intros Hn1 Hn2 Hfs Hlen. destruct (ctor_pool_inv n Hn1 Hn2) as (Hi & He & Hnum).
  assert (Hts : Forall (fun t => isFinished t = false) ts).
  { clear -Hfs. induction Hfs as [|f t fs ts Hf _ IH]; constructor; [by destruct (fresh_legal f t Hf)|done]. }
  destruct (schedule_all ts (Scheduler_ctor n) Hi eq_refl Hts) as (Hi' & Hst & Hn' & Hp & H1); [rewrite He; zlen_nil_simpl; lia|].
  rewrite He in Hp, H1. cbn [app] in Hp, H1. set (s := fold_left _ _ _) in *.
  destruct (run_worker_drains (S (length ts)) (2 * n) s Hi') as (calls & s' & -> & Hc & Hemp & Ho);
    [by rewrite Hst|rewrite Hn', Hnum; lia|rewrite Hp; lia|].
  exists calls, s'. rewrite <- (run_list_fresh fs ts Hfs). split_and!; [done| |done|].
  - rewrite Hc. by apply run_list_perm.
  - intros ->. rewrite Ho, H1 by (rewrite ?Hn', Hnum; done). done.
Qed.

Lemma worker_runs_all_witness :
  exists calls s', run_worker 4 4 (fold_left (fun s t => schedule t s)
      [create_func (Some 1%nat); create_func (Some 2%nat); create_func (Some 3%nat)] (Scheduler_ctor 2)) = Some (calls, s') /\
    calls ≡ₚ [1; 2; 3]%nat.
Proof.
  destruct (worker_runs_all 2 [1; 2; 3]%nat
      [create_func (Some 1%nat); create_func (Some 2%nat); create_func (Some 3%nat)]) as (calls & s' & E & Hp & _);
    [lia|lia|repeat (apply Forall2_cons_2; [apply create_func_fresh|]); apply Forall2_nil_2|vm_compute; reflexivity|].
  exists calls, s'. split; [exact E|exact Hp].
Defined.
