(* ===== verification/SchedThreads.v ===== *)
(** * The threads of the scheduler

    Models all workers of a scheduler at once: [Scheduler::run], [schedule], [stop] and
    [autoStop] ([sylar/coroutine/coro20/scheduler.cc], [scheduler.h]), [taskAlloc] and
    [taskGet] of the pool ([taskPool.cc]), and [idle] and [tickle] of the IO manager
    ([ioManager.cc]).  A step is one access to shared state by one thread: the queue of
    a node under its mutex, an index, the counter of tasks, a flag, the event descriptor; the
    steps interleave in any order.

    The event descriptor is registered edge-triggered: a write makes it ready, and one
    [epoll_wait], of a thread that waits or of the next one that does, reports it; a read
    that empties the descriptor first takes the report away.  Tasks are numbers; [sched] and [executed] record what was scheduled and run.  Other
    descriptors, whose callbacks only schedule tasks, are calls of [schedule]. *)

From stdpp Require Import relations.
From S2P Require Import Prelude Scheduler.

(** Where a worker stands in [run] and [idle]. *)
Inductive wpc :=
  | W_head                        (* while(!m_stop) *)
  | W_fetch                       (* taskGet: m_loop_idx++ *)
  | W_node (idx : Z)              (* taskGet: taking from the node *)
  | W_sub (batch : list nat)      (* taskGet: m_task_count -= rt *)
  | W_cond                        (* nothing taken: getTaskCount() *)
  | W_more (batch : list nat)     (* tickle if there are more *)
  | W_exec (batch : list nat)     (* running the tasks *)
  | W_decide                      (* stop? *)
  | W_again                       (* getTaskCount() ? continue : idle() *)
  | W_idle                        (* entering idle() *)
  | W_counted                     (* m_idleThreadCount++ done *)
  | W_wait                        (* in epoll_wait, with m_mutex shared *)
  | W_back                        (* the event descriptor was reported: m_idleThreadCount-- *)
  | W_woken                       (* reading the event descriptor *)
  | W_exit                        (* waiting for m_mutex *)
  | W_gone.

#[global] Instance wpc_eq_dec : EqDecision wpc.
Proof. solve_decision. Defined.

Record sys := MkSys {
  nodes : list (list nat);
  loop_idx : Z;
  alloc_idx : Z;
  count : Z;                      (* m_task_count *)
  placing : list (nat * Z);       (* calls of schedule between choosing a node and adding *)
  uncounted : nat;                (* between adding and counting *)
  untickled : nat;                (* between counting and tickle() *)
  edge : bool;                    (* the event descriptor is ready *)
  stop : bool;
  autostop : bool;
  threads_count : Z;
  workers : list wpc;
  sched : list nat;
  executed : list nat;
}.

Definition set_queue (ns : list (list nat)) (loop alloc cnt : Z) (s : sys) : sys :=
  MkSys ns loop alloc cnt (placing s) (uncounted s) (untickled s) (edge s) (stop s) (autostop s) (threads_count s) (workers s) (sched s) (executed s).
Definition set_calls (pl : list (nat * Z)) (u t : nat) (s : sys) : sys :=
  MkSys (nodes s) (loop_idx s) (alloc_idx s) (count s) pl u t (edge s) (stop s) (autostop s) (threads_count s) (workers s) (sched s) (executed s).
Definition set_edge (e : bool) (s : sys) : sys :=
  MkSys (nodes s) (loop_idx s) (alloc_idx s) (count s) (placing s) (uncounted s) (untickled s) e (stop s) (autostop s) (threads_count s) (workers s) (sched s) (executed s).
Definition set_flags (st au : bool) (s : sys) : sys :=
  MkSys (nodes s) (loop_idx s) (alloc_idx s) (count s) (placing s) (uncounted s) (untickled s) (edge s) st au (threads_count s) (workers s) (sched s) (executed s).
Definition set_workers (n : Z) (ws : list wpc) (s : sys) : sys :=
  MkSys (nodes s) (loop_idx s) (alloc_idx s) (count s) (placing s) (uncounted s) (untickled s) (edge s) (stop s) (autostop s) n ws (sched s) (executed s).
Definition set_logs (sc ex : list nat) (s : sys) : sys :=
  MkSys (nodes s) (loop_idx s) (alloc_idx s) (count s) (placing s) (uncounted s) (untickled s) (edge s) (stop s) (autostop s) (threads_count s) (workers s) sc ex.

Definition Sys_ctor (thread_num : nat) : sys :=
  MkSys (replicate thread_num []) 0 0 0 [] 0 0 false false false (Z.of_nat thread_num) (replicate thread_num W_head) [] [].

(** m_nodes[idx % m_node_num] *)
Definition node_of (idx : Z) (s : sys) : nat := Z.to_nat (idx mod zlen (nodes s)).

Definition waits (w : wpc) : bool := match w with W_wait => true | _ => false end.

(** [m_idleThreadCount] is not zero, and [m_mutex] is held shared. *)
Definition counted (w : wpc) : bool := match w with W_counted | W_wait | W_back => true | _ => false end.
Definition some_idle (s : sys) : bool := existsb counted (workers s).
Definition mutex_shared (s : sys) : bool := existsb waits (workers s).

(** [IOManager::tickle] *)
Definition tickle (s : sys) : sys := set_edge true s.

(** [IOManager::idle]: a wait that times out goes on waiting. *)
Definition idle_step (w : wpc) (s : sys) : option (wpc * sys) :=
  match w with
  | W_idle => Some (W_counted, s)
  | W_counted => Some (W_wait, s)
  | W_wait => if edge s then Some (W_back, set_edge false s) else None
  | W_back => Some (W_woken, s)
  | W_woken => Some (W_head, set_edge false s)
  | _ => None
  end.

(** The end of [run], under [m_mutex]. *)
Definition leave_step (s : sys) : option (wpc * sys) :=
  if mutex_shared s then None else Some (W_gone, set_workers (threads_count s - 1) (workers s) s).

(** What worker [w] does next; [None]: it waits for the event descriptor or for
    [m_mutex], or is gone. *)
Definition work (w : wpc) (s : sys) : option (wpc * sys) :=
  match w with
  | W_head => Some (if stop s then W_exit else W_fetch, s)
  | W_fetch => Some (W_node (loop_idx s), set_queue (nodes s) (u32 (loop_idx s + 1)) (alloc_idx s) (count s) s)
  | W_node idx =>
      let i := node_of idx s in
      let '(batch, left_, _) := getTask SINGLE_GET_TASK_NUM (default [] (nodes s !! i)) in
      Some (W_sub batch, set_queue (<[i := left_]> (nodes s)) (loop_idx s) (alloc_idx s) (count s) s)
  | W_sub batch =>
      Some (if zlen batch =? 0 then W_cond else W_more batch,
            set_queue (nodes s) (loop_idx s) (alloc_idx s) (u32 (count s - zlen batch)) s)
  | W_cond => Some (if truthy (count s) then W_fetch else W_more [], s)
  | W_more batch => Some (W_exec batch, if truthy (count s) && some_idle s then tickle s else s)
  | W_exec [] => Some (W_decide, s)
  | W_exec (t :: batch) => Some (W_exec batch, set_logs (sched s) (executed s ++ [t]) s)
  | W_decide => Some (if stop s || (negb (truthy (count s)) && autostop s) then W_exit else W_again, s)
  | W_again => Some (if truthy (count s) then W_head else W_idle, s)
  | W_idle | W_counted | W_wait | W_back | W_woken => idle_step w s
  | W_exit => leave_step s
  | W_gone => None
  end.

(** The first lines of [stop] and of [autoStop]. *)
Definition request_stop (s : sys) : sys := set_flags true (autostop s) s.
Definition request_autoStop (s : sys) : sys := set_flags (stop s) true s.

(** [scheduleNoLock], [taskAlloc]: choosing the next node, unless [autoStop] was called. *)
Definition schedule_task (t : nat) (s : sys) : sys :=
  if autostop s then s
  else
    set_logs (sched s ++ [t]) (executed s)
      (set_calls (placing s ++ [(t, alloc_idx s)]) (uncounted s) (untickled s)
         (set_queue (nodes s) (loop_idx s) (u32 (alloc_idx s + 1)) (count s) s)).

(** [taskAlloc]: adding to the node, of a call among [placing]. *)
Definition add_task (l1 : list (nat * Z)) (t : nat) (idx : Z) (l2 : list (nat * Z)) (s : sys) : sys :=
  let i := node_of idx s in
  set_calls (l1 ++ l2) (S (uncounted s)) (untickled s)
    (set_queue (<[i := addTask t (default [] (nodes s !! i))]> (nodes s)) (loop_idx s) (alloc_idx s) (count s) s).

Inductive sys_step : sys -> sys -> Prop :=
  | st_worker s l1 w l2 w' s' :
      workers s = l1 ++ w :: l2 -> work w s = Some (w', s') ->
      sys_step s (set_workers (threads_count s') (l1 ++ w' :: l2) s')
  | st_schedule s t : sys_step s (schedule_task t s)
  | st_add s l1 t idx l2 : placing s = l1 ++ (t, idx) :: l2 -> sys_step s (add_task l1 t idx l2 s)
  | st_count s u :
      uncounted s = S u ->
      sys_step s (set_calls (placing s) u (S (untickled s)) (set_queue (nodes s) (loop_idx s) (alloc_idx s) (u32 (count s + 1)) s))
  | st_tickle s u k :                     (* one tickle() for a call, also of several tasks *)
      untickled s = (k + S u)%nat -> sys_step s (set_calls (placing s) (uncounted s) k (tickle s))
  | st_stop s : sys_step s (request_stop s)
  | st_autostop s : sys_step s (request_autoStop s)
  | st_stop_tickle s :                    (* the loops of stop() and autoStop() *)
      stop s || autostop s = true -> sys_step s (tickle s).

(** ** The invariant *)

(** The tasks a worker holds, and those it has not subtracted from the counter. *)
Definition batch_of (w : wpc) : list nat := match w with W_sub b | W_more b | W_exec b => b | _ => [] end.
Definition unsub (w : wpc) : list nat := match w with W_sub b => b | _ => [] end.

(** A worker that looks at the pool again before it waits. *)
Definition active (w : wpc) : bool := match w with W_idle | W_counted | W_wait | W_exit | W_gone => false | _ => true end.
Definition leaving (w : wpc) : bool := match w with W_exit | W_gone => true | _ => false end.
Definition present (w : wpc) : list unit := match w with W_gone => [] | _ => [tt] end.

Record sys_inv (s : sys) : Prop := {
  si_tasks : (placing s).*1 ++ concat (nodes s) ++ (workers s ≫= batch_of) ++ executed s ≡ₚ sched s;
  si_count : count s = u32 (zlen (concat (nodes s)) + zlen (workers s ≫= unsub) - Z.of_nat (uncounted s));
  si_calls : zlen (placing s) + Z.of_nat (uncounted s) <= zlen (sched s);
  si_wake : concat (nodes s) <> [] -> (0 < uncounted s)%nat \/ (0 < untickled s)%nat \/ edge s = true
              \/ existsb active (workers s) = true \/ stop s || autostop s = true;
  si_leave : existsb leaving (workers s) = true -> stop s || autostop s = true;
  si_threads : threads_count s = zlen (workers s ≫= present);
  si_nodes : nodes s <> [];
}.

(** Replacing one worker. *)
Lemma bind_mid {A B} (f : A -> list B) l1 x l2 : (l1 ++ x :: l2) ≫= f ≡ₚ f x ++ ((l1 ++ l2) ≫= f).
Proof.
  rewrite !bind_app, bind_cons. rewrite !app_assoc. apply Permutation_app_tail, Permutation_app_comm.
Qed.

Lemma existsb_mid (f : wpc -> bool) l1 x l2 : existsb f (l1 ++ x :: l2) = f x || existsb f (l1 ++ l2).
Proof. rewrite !existsb_app. cbn [existsb]. by destruct (f x), (existsb f l1). Qed.

Lemma zlen_bind_mid {B} (f : wpc -> list B) l1 x l2 : zlen ((l1 ++ x :: l2) ≫= f) = zlen (f x) + zlen ((l1 ++ l2) ≫= f).
Proof. rewrite <- zlen_app. unfold zlen. by rewrite bind_mid. Qed.

(** The counter is zero exactly when it counts nothing. *)
Lemma count_zero s :
  sys_inv s -> zlen (sched s) < 2 ^ 31 -> truthy (count s) = false -> concat (nodes s) <> [] -> (0 < uncounted s)%nat.
Proof.
  intros H Hb Hz Hne. pose proof (si_count _ H) as Hc. apply truthy_false in Hz. rewrite Hz in Hc.
  assert (Hlen : zlen (placing s) + (zlen (concat (nodes s)) + (zlen (workers s ≫= batch_of) + zlen (executed s))) = zlen (sched s)).
  { replace (zlen (placing s)) with (zlen (placing s).*1) by (unfold zlen; by rewrite length_fmap).
    rewrite <- !zlen_app. unfold zlen. by rewrite (si_tasks _ H). }
  assert (Hsub : zlen (workers s ≫= unsub) <= zlen (workers s ≫= batch_of)).
  { clear. induction (workers s) as [|w ws IH]; [done|]. rewrite !bind_cons, !zlen_app.
    destruct w; cbn [unsub batch_of]; rewrite ?zlen_nil; try lia; match goal with |- context [zlen ?b + _] => pose proof (zlen_nonneg b) end; lia. }
  pose proof (si_calls _ H). pose proof (zlen_nonneg (placing s)). pose proof (zlen_nonneg (workers s ≫= unsub)). pose proof (zlen_nonneg (executed s)).
  assert (0 < zlen (concat (nodes s))) by (destruct (concat (nodes s)); [done|rewrite zlen_cons; pose proof (zlen_nonneg l); lia]).
  destruct (uncounted s) as [|u]; [|lia]. exfalso. rewrite Z.sub_0_r in Hc.
  unfold wrap in Hc. rewrite Z.mod_small in Hc by lia. lia.
Qed.

Lemma u32_idem a b : u32 (u32 a + b) = u32 (a + b).
Proof. unfold wrap. by rewrite Zplus_mod_idemp_l. Qed.

Lemma node_of_lt idx s : nodes s <> [] -> (node_of idx s < length (nodes s))%nat.
Proof.
  intros H. unfold node_of, zlen. assert (0 < Z.of_nat (length (nodes s))) as Hp by (destruct (nodes s); [done|cbn; lia]).
  pose proof (Z.mod_pos_bound idx _ Hp). lia.
Qed.

(** A worker moves on without taking or running a task. *)
Lemma quiet_inv s l1 w l2 w' e n :
  sys_inv s -> workers s = l1 ++ w :: l2 -> batch_of w' = batch_of w -> unsub w' = unsub w ->
  (concat (nodes s) <> [] -> active w' = true \/ leaving w' = true \/ (0 < uncounted s)%nat \/ active w = false /\ leaving w = false /\ e = edge s) ->
  (leaving w' = true -> leaving w = true \/ stop s || autostop s = true) ->
  n = threads_count s - zlen (present w) + zlen (present w') ->
  sys_inv (set_workers n (l1 ++ w' :: l2) (set_edge e s)).
Proof.
  intros H Hw Hb Hu Hwake Hleave Hn. destruct H as [H1 H2 H3 H4 H5 H6 H7]. rewrite Hw in *.
  assert (Hfl : leaving w' = true -> stop s || autostop s = true).
  { intros E. destruct (Hleave E) as [E'|?]; [|done]. apply H5. by rewrite existsb_mid, E'. }
  split; cbn [set_workers set_edge nodes workers executed sched count placing uncounted untickled edge stop autostop threads_count]; try done.
  - rewrite <- H1. by rewrite !bind_mid, Hb.
  - rewrite H2. by rewrite !zlen_bind_mid, Hu.
  - intros Hne. rewrite existsb_mid. destruct (Hwake Hne) as [E|[E|[E|(E1 & E2 & E3)]]].
    + right. right. right. left. by rewrite E.
    + do 4 right. by apply Hfl.
    + by left.
    + subst e. destruct (H4 Hne) as [?|[?|[?|[Ha|?]]]]; [by left|by right; left|by right; right; left| |by do 4 right].
      do 3 right. left. rewrite existsb_mid, E1 in Ha. cbn [orb] in Ha. rewrite Ha. apply orb_true_r.
  - rewrite existsb_mid. intros [E|E]%orb_true_iff; [by apply Hfl|]. apply H5. by rewrite existsb_mid, E, orb_true_r.
  - rewrite Hn, H6, !zlen_bind_mid. lia.
Qed.

(** The same, leaving the event descriptor. *)
Lemma set_edge_same s : set_edge (edge s) s = s.
Proof. by destruct s. Qed.

Lemma node_inv s l1 l2 idx batch left_ rt :
  sys_inv s -> workers s = l1 ++ W_node idx :: l2 ->
  getTask SINGLE_GET_TASK_NUM (default [] (nodes s !! node_of idx s)) = (batch, left_, rt) ->
  sys_inv (set_workers (threads_count s) (l1 ++ W_sub batch :: l2)
             (set_queue (<[node_of idx s := left_]> (nodes s)) (loop_idx s) (alloc_idx s) (count s) s)).
Proof.
  intros [H1 H2 H3 H4 H5 H6 H7] Hw Eg. rewrite Hw in *. pose proof (node_of_lt idx s H7) as Hi.
  destruct (lookup_lt_is_Some_2 _ _ Hi) as [nd En]. rewrite En in Eg. cbn [default from_option id] in Eg. rewrite getTask_split in Eg.
  injection Eg as <- <- _. set (i := node_of idx s) in *.
  assert (Hp : take 15 nd ++ concat (<[i := drop 15 nd]> (nodes s)) ≡ₚ concat (nodes s)).
  { apply (Permutation_app_inv_r (drop 15 nd)). rewrite <- (concat_insert _ _ nd (drop 15 nd) En), (Permutation_app_comm (take 15 nd)), <- app_assoc.
    by rewrite take_drop. }
  assert (Hz : zlen (take 15 nd) + zlen (concat (<[i := drop 15 nd]> (nodes s))) = zlen (concat (nodes s))).
  { rewrite <- zlen_app. unfold zlen. by rewrite Hp. }
  split; cbn [set_workers set_queue nodes workers executed sched count placing uncounted untickled edge stop autostop threads_count]; try done.
  - rewrite <- H1, <- Hp, !bind_mid. cbn [batch_of app]. apply Permutation_app_head. rewrite !app_assoc. do 2 apply Permutation_app_tail. apply Permutation_app_comm.
  - rewrite H2, !zlen_bind_mid. cbn [unsub]. rewrite zlen_nil. f_equal. lia.
  - intros _. do 3 right. left. by rewrite existsb_mid.
  - rewrite existsb_mid in *. exact H5.
  - rewrite H6, !zlen_bind_mid. done.
  - intros E. apply H7. apply (f_equal length) in E. rewrite length_insert in E. by destruct (nodes s).
Qed.

Lemma sub_inv s l1 l2 batch :
  sys_inv s -> workers s = l1 ++ W_sub batch :: l2 ->
  sys_inv (set_workers (threads_count s) (l1 ++ (if zlen batch =? 0 then W_cond else W_more batch) :: l2)
             (set_queue (nodes s) (loop_idx s) (alloc_idx s) (u32 (count s - zlen batch)) s)).
Proof.
  intros [H1 H2 H3 H4 H5 H6 H7] Hw. rewrite Hw in *. set (w' := if zlen batch =? 0 then W_cond else W_more batch).
  assert (Hb : batch_of w' = batch /\ unsub w' = [] /\ active w' = true /\ leaving w' = false /\ zlen (present w') = 1).
  { unfold w'. destruct (Z.eqb_spec (zlen batch) 0) as [E|E]; [|done]. destruct batch; [done|]. rewrite zlen_cons in E.
    pose proof (zlen_nonneg batch). lia. }
  clearbody w'. destruct Hb as (Eb & Eu & Ea & El & Ep).
  split; cbn [set_workers set_queue nodes workers executed sched count placing uncounted untickled edge stop autostop threads_count]; try done.
  - rewrite <- H1, !bind_mid. by rewrite Eb.
  - rewrite H2. unfold Z.sub at 1. rewrite u32_idem, !zlen_bind_mid, Eu. cbn [unsub]. rewrite zlen_nil. f_equal. lia.
  - intros _. do 3 right. left. by rewrite existsb_mid, Ea.
  - rewrite existsb_mid in *. rewrite El. exact H5.
  - rewrite H6, !zlen_bind_mid, Ep. done.
Qed.

Lemma exec_inv s l1 l2 t batch :
  sys_inv s -> workers s = l1 ++ W_exec (t :: batch) :: l2 ->
  sys_inv (set_workers (threads_count s) (l1 ++ W_exec batch :: l2) (set_logs (sched s) (executed s ++ [t]) s)).
Proof.
  intros [H1 H2 H3 H4 H5 H6 H7] Hw. rewrite Hw in *.
  split; cbn [set_workers set_logs nodes workers executed sched count placing uncounted untickled edge stop autostop threads_count]; try done.
  - rewrite <- H1, !bind_mid. cbn [batch_of]. do 2 apply Permutation_app_head. cbn [app].
    rewrite (Permutation_app_comm (executed s) [t]). cbn [app]. by rewrite <- Permutation_middle.
  - by rewrite H2, !zlen_bind_mid.
  - intros _. do 3 right. left. by rewrite existsb_mid.
  - rewrite existsb_mid in *. exact H5.
  - rewrite H6, !zlen_bind_mid. done.
Qed.

(** A worker that moves on and writes nothing. *)
Lemma idle_inv s l1 w l2 w' :
  sys_inv s -> workers s = l1 ++ w :: l2 -> batch_of w' = batch_of w -> unsub w' = unsub w ->
  (concat (nodes s) <> [] -> active w' = true \/ leaving w' = true \/ (0 < uncounted s)%nat \/ active w = false /\ leaving w = false) ->
  (leaving w' = true -> leaving w = true \/ stop s || autostop s = true) -> zlen (present w') = zlen (present w) ->
  sys_inv (set_workers (threads_count s) (l1 ++ w' :: l2) s).
Proof.
  intros H Hw Hb Hu Hwake Hleave Hp. rewrite <- (set_edge_same s) at 2. eapply quiet_inv; try done; [|lia].
  intros Hne. destruct (Hwake Hne) as [?|[?|[?|[? ?]]]]; tauto.
Qed.

(** The indices play no part. *)
Lemma set_loop_inv s l1 w l2 n i j :
  sys_inv (set_workers n (l1 ++ w :: l2) s) -> sys_inv (set_workers n (l1 ++ w :: l2) (set_queue (nodes s) i j (count s) s)).
Proof. by intros [H1 H2 H3 H4 H5 H6 H7]. Qed.

Lemma worker_inv s l1 w l2 w' s' :
  sys_inv s -> zlen (sched s) < 2 ^ 31 -> workers s = l1 ++ w :: l2 -> work w s = Some (w', s') ->
  sys_inv (set_workers (threads_count s') (l1 ++ w' :: l2) s').
Proof.
  intros H Hb Hw E. destruct w as [| |idx|batch| |batch|[|t batch]| | | | | | | | |]; cbn [work idle_step] in E.
  - injection E as <- <-. eapply idle_inv; [done|exact Hw|..]; destruct (stop s) eqn:Es; try done; [by intros _; right; left|by intros _; left|by intros _; right].
  - injection E as <- <-. cbn [threads_count set_queue]. apply set_loop_inv. by eapply idle_inv; [done|exact Hw|done|done|intros _; left| |].
  - destruct (getTask _ _) as [[batch left_] rt] eqn:Eg. injection E as <- <-. exact (node_inv s l1 l2 idx batch left_ rt H Hw Eg).
  - injection E as <- <-. exact (sub_inv s l1 l2 batch H Hw).
  - injection E as <- <-. eapply idle_inv; [done|exact Hw|..]; destruct (truthy (count s)); try done; by intros _; left.
  - injection E as <- <-. destruct (_ && _).
    + cbn [tickle threads_count set_edge]. eapply quiet_inv; [done|exact Hw|done|done|by intros _; left|done|cbn [present]; lia].
    + by eapply idle_inv; [done|exact Hw|done|done|intros _; left| |].
  - injection E as <- <-. by eapply idle_inv; [done|exact Hw|done|done|intros _; left| |].
  - injection E as <- <-. exact (exec_inv s l1 l2 t batch H Hw).
  - injection E as <- <-. destruct (stop s || _) eqn:Es.
    + eapply idle_inv; [done|exact Hw|done|done|by intros _; right; left| |done]. intros _. right.
      apply orb_true_iff in Es as [Es|Es]; [by rewrite Es|]. apply andb_true_iff in Es as [_ Es]. rewrite Es. apply orb_true_r.
    + by eapply idle_inv; [done|exact Hw|done|done|intros _; left| |].
  - injection E as <- <-. destruct (truthy (count s)) eqn:Ec.
    + by eapply idle_inv; [done|exact Hw|done|done|intros _; left| |].
    + eapply idle_inv; [done|exact Hw|done|done| |done|done]. intros Hne. right. right. left. by apply count_zero.
  - injection E as <- <-. eapply idle_inv; [done|exact Hw|done|done| |done|done]. intros _. do 3 right. done.
  - injection E as <- <-. eapply idle_inv; [done|exact Hw|done|done| |done|done]. intros _. do 3 right. done.
  - destruct (edge s) eqn:Ee; [|done]. injection E as <- <-. cbn [threads_count set_edge].
    eapply quiet_inv; [done|exact Hw|done|done|by intros _; left|done|cbn [present]; lia].
  - injection E as <- <-. by eapply idle_inv; [done|exact Hw|done|done|intros _; left| |].
  - injection E as <- <-. cbn [threads_count set_edge].
    eapply quiet_inv; [done|exact Hw|done|done|by intros _; left|done|cbn [present]; lia].
  - unfold leave_step in E. destruct (mutex_shared s); [done|]. injection E as <- <-. cbn [threads_count set_workers].
    assert (Hq : sys_inv (set_workers (threads_count s - 1) (l1 ++ W_gone :: l2) (set_edge (edge s) s))).
    { eapply quiet_inv; [done|exact Hw|done|done|by intros _; right; left|by intros _; left|]. cbn [present]. rewrite zlen_nil. change (zlen [tt]) with 1. lia. }
    by destruct s.
  - done.
Qed.

Lemma schedule_inv s t : sys_inv s -> sys_inv (schedule_task t s).
Proof. 
  intros H. unfold schedule_task. destruct (autostop s) eqn:Ea; [done|]. destruct H as [H1 H2 H3 H4 H5 H6 H7].
  split; cbn [set_logs set_calls set_queue nodes workers executed sched count placing uncounted untickled edge stop autostop threads_count]; rewrite ?Ea in *; try done.
  - rewrite <- H1, fmap_app, <- app_assoc. cbn [fmap list_fmap fst app]. rewrite <- Permutation_middle. symmetry. by rewrite <- Permutation_cons_append.
  - rewrite !zlen_app. change (zlen [(t, alloc_idx s)]) with 1. change (zlen [t]) with 1. lia.
Qed.

Lemma add_task_inv s l1 t idx l2 : placing s = l1 ++ (t, idx) :: l2 -> sys_inv s -> sys_inv (add_task l1 t idx l2 s).
Proof.
  intros Hpl [H1 H2 H3 H4 H5 H6 H7]. unfold add_task. rewrite Hpl in *. pose proof (node_of_lt idx s H7) as Hi.
  destruct (lookup_lt_is_Some_2 _ _ Hi) as [nd En]. cbn zeta. rewrite En.
  cbn [default from_option id]. set (i := node_of idx s) in *.
  assert (Hp : concat (<[i := addTask t nd]> (nodes s)) ≡ₚ t :: concat (nodes s)).
  { apply (Permutation_app_inv_r nd). rewrite (concat_insert _ _ nd) by done. unfold addTask.
    rewrite (Permutation_app_comm nd [t]), app_assoc, (Permutation_app_comm _ [t]). done. }
  split; cbn [set_logs set_calls set_queue nodes workers executed sched count placing uncounted untickled edge stop autostop threads_count]; try done.
  - rewrite <- H1, Hp, !fmap_app, fmap_cons. cbn [fst]. rewrite <- !app_assoc. apply Permutation_app_head. cbn [app]. by rewrite <- (Permutation_middle _ _ t).
  - rewrite H2. assert (Hz : zlen (concat (<[i := addTask t nd]> (nodes s))) = 1 + zlen (concat (nodes s))) by (rewrite <- (zlen_cons t); unfold zlen; by rewrite Hp).
    rewrite Hz. f_equal. lia.
  - rewrite !zlen_app, zlen_cons in *. lia.
  - intros _. left. lia.
  - intros E. apply H7. apply (f_equal length) in E. rewrite length_insert in E. by destruct (nodes s).
Qed.

Lemma step_inv s s' : sys_step s s' -> sys_inv s -> zlen (sched s) < 2 ^ 31 -> sys_inv s'.
Proof.
  intros Hs H Hb. destruct Hs as [s l1 w l2 w' s' Hw E|s t|s p1 t idx p2 Hp|s u Hu|s u k Hu|s|s|s Hf].
  - by eapply worker_inv.
  - by apply schedule_inv.
  - by eapply add_task_inv.
  - destruct H as [H1 H2 H3 H4 H5 H6 H7].
    split; cbn [set_calls set_queue nodes workers executed sched count placing uncounted untickled edge stop autostop threads_count]; try done.
    + rewrite H2, u32_idem, Hu. f_equal. lia.
    + lia.
    + intros _. right. left. lia.
  - destruct H as [H1 H2 H3 H4 H5 H6 H7].
    split; cbn [set_calls tickle set_edge nodes workers executed sched count placing uncounted untickled edge stop autostop threads_count]; try done.
    intros _. by do 2 right; left.
  - destruct H as [H1 H2 H3 H4 H5 H6 H7].
    split; cbn [request_stop request_autoStop set_flags nodes workers executed sched count placing uncounted untickled edge stop autostop threads_count]; try done.
    intros _. by do 4 right.
  - destruct H as [H1 H2 H3 H4 H5 H6 H7].
    split; cbn [request_stop request_autoStop set_flags nodes workers executed sched count placing uncounted untickled edge stop autostop threads_count]; try done.
    + intros _. do 4 right. apply orb_true_r.
    + intros _. apply orb_true_r.
  - destruct H as [H1 H2 H3 H4 H5 H6 H7].
    split; cbn [tickle set_edge nodes workers executed sched count placing uncounted untickled edge stop autostop threads_count]; try done.
    intros _. by do 2 right; left.
Qed.

Lemma step_sched s s' : sys_step s s' -> exists l, sched s' = sched s ++ l.
Proof.
  intros Hs. destruct Hs as [s l1 w l2 w' s' Hw E|s t|s p1 t idx p2 Hp|s u Hu|s u k Hu|s|s|s Hf]; try (exists []; by rewrite app_nil_r).
  - exists []. rewrite app_nil_r. cbn [set_workers sched].
    destruct w as [| |idx|batch| |batch|[|t batch]| | | | | | | | |]; cbn [work idle_step] in E; unfold leave_step in E; repeat case_match; by simplify_eq.
  - unfold schedule_task. destruct (autostop s); [exists []; by rewrite app_nil_r|by exists [t]].
Qed.

Lemma threads_reachable_inv n s : (0 < n)%nat -> rtc sys_step (Sys_ctor n) s -> zlen (sched s) < 2 ^ 31 -> sys_inv s.
Proof.
  intros Hn. revert s. apply (rtc_ind_r (fun s => zlen (sched s) < 2 ^ 31 -> sys_inv s)); [|intros s2 s3 _ H23 IH]; intros Hb.
  - split; cbn [Sys_ctor nodes workers executed sched count placing uncounted untickled edge stop autostop threads_count].
    + assert (concat (replicate n (@nil nat)) = []) as -> by (clear; induction n; done).
      assert (replicate n W_head ≫= batch_of = []) as -> by (clear; induction n; done). done.
    + assert (concat (replicate n (@nil nat)) = []) as -> by (clear; induction n; done).
      assert (replicate n W_head ≫= unsub = []) as -> by (clear; induction n; done). done.
    + done.
    + intros E. exfalso. apply E. clear. induction n; done.
    + intros E. exfalso. clear -E. by induction n.
    + clear. induction n as [|n IH]; [done|]. rewrite replicate_S, bind_cons, zlen_app, <- IH. change (zlen (present W_head)) with 1. lia.
    + destruct n; [lia|done].
  - destruct (step_sched _ _ H23) as [l El]. rewrite El, zlen_app in Hb. pose proof (zlen_nonneg l).
    eapply step_inv; [exact H23|apply IH; lia|lia].
Qed.

Lemma workers_length n s : rtc sys_step (Sys_ctor n) s -> length (workers s) = n.
Proof.
  revert s. apply (rtc_ind_r (fun s => length (workers s) = n)); [apply length_replicate|]. intros s2 s3 _ H23 <-.
  destruct H23 as [s l1 w l2 w' s' Hw Ew|s t|s p1 t idx p2 Hp|s u Hu|s u k Hu|s|s|s Hf]; try done.
  - cbn. by rewrite Hw, !length_app.
  - unfold schedule_task. by destruct (autostop s).
Qed.

(** When no worker can go on, and no call of [schedule] is under way, nothing is left. *)
Lemma rest_all_run s :
  sys_inv s -> workers s <> [] -> stop s || autostop s = false -> placing s = [] -> uncounted s = 0%nat -> untickled s = 0%nat ->
  Forall (fun w => work w s = None) (workers s) ->
  executed s ≡ₚ sched s.
Proof.
  intros H Hne Hf Hpl Hu Ht Hq.
  assert (Hall : Forall (fun w => w = W_wait /\ edge s = false) (workers s)).
  { rewrite Forall_forall in *. intros w Hw. specialize (Hq w Hw).
    assert (Hl : leaving w = false).
    { destruct (leaving w) eqn:El; [|done]. rewrite <- Hf. symmetry. apply (si_leave _ H), existsb_exists. exists w.
      split; [by apply list_elem_of_In|done]. }
    destruct w as [| |idx|batch| |batch|[|t batch]| | | | | | | | |]; cbn [work idle_step] in Hq; unfold leave_step in Hq; repeat case_match; by simplify_eq. }
  destruct (workers s) as [|w ws] eqn:Ew; [done|]. pose proof Hall as [[_ He] _]%Forall_cons.
  assert (Ha : existsb active (w :: ws) = false /\ (w :: ws) ≫= batch_of = []).
  { clear -Hall. induction Hall as [|x l [-> _] _ IH]; [done|]. rewrite bind_cons. cbn [existsb active orb]. by destruct IH as [-> ->]. }
  destruct Ha as [Ha Hbt].
  assert (Hnodes : concat (nodes s) = []).
  { destruct (concat (nodes s)) as [|t ts] eqn:En; [done|]. exfalso. pose proof (si_wake _ H ltac:(by rewrite En)) as Hwk.
    rewrite Hu, Ht, He, Ew, Ha, Hf in Hwk. destruct Hwk as [?|[?|[?|[?|?]]]]; try done; lia. }
  pose proof (si_tasks _ H) as Htk. rewrite Hpl, Hnodes, Ew, Hbt in Htk. done.
Qed.

(** * Results *)

(** C17. With any number of worker threads and of threads that schedule, whatever the
    interleaving, no task is lost, run twice or made up: the tasks scheduled are those
    about to be queued, those in the queues, those a worker has taken and those that were
    run. *)
Theorem threads_conserve_tasks n s :
  (0 < n)%nat -> rtc sys_step (Sys_ctor n) s -> zlen (sched s) < 2 ^ 31 ->
  (placing s).*1 ++ concat (nodes s) ++ (workers s ≫= batch_of) ++ executed s ≡ₚ sched s.
Proof. intros Hn Hs Hb. apply (si_tasks s), (threads_reachable_inv n); done. Qed.

(** Up to [k] steps of the worker of a scheduler that has one. *)
Fixpoint run_single (k : nat) (s : sys) : sys :=
  match k, workers s with
  | S k, [w] =>
      match work w s with
      | Some (w', s') => run_single k (set_workers (threads_count s') [w'] s')
      | None => s
      end
  | _, _ => s
  end.

Lemma run_single_steps k : forall s, rtc sys_step s (run_single k s).
Proof.
  induction k as [|k IH]; intros s; cbn [run_single]; [apply rtc_refl|].
  destruct (workers s) as [|w [|]] eqn:Ew; try apply rtc_refl. destruct (work w s) as [[w' s']|] eqn:E; [|apply rtc_refl].
  eapply rtc_l; [exact (st_worker s [] w [] w' s' Ew E)|apply IH].
Qed.

(** One worker, one task, run to the end. *)
Definition ex_task_run : sys := MkSys [[]] 1 1 0 [] 0 1 false false false 1 [W_exec []] [7%nat] [7%nat].

Lemma ex_task_run_reached : rtc sys_step (Sys_ctor 1) ex_task_run.
Proof.
  eapply rtc_l; [apply (st_schedule _ 7)|]. eapply rtc_l; [by apply (st_add _ [] 7 0 [])|]. eapply rtc_l; [by apply (st_count _ 0)|].
  match goal with |- rtc _ ?s _ => replace ex_task_run with (run_single 6 s) by (vm_compute; reflexivity) end. apply run_single_steps.
Qed.

Lemma threads_conserve_tasks_witness :
  rtc sys_step (Sys_ctor 1) ex_task_run /\ concat (nodes ex_task_run) ++ (workers ex_task_run ≫= batch_of) ++ [7%nat] ≡ₚ [7%nat].
Proof.
  split; [exact ex_task_run_reached|].
  exact (threads_conserve_tasks 1 ex_task_run ltac:(lia) ex_task_run_reached eq_refl).
Defined.

(** C2. No wake-up is lost: as long as the scheduler is not stopped, when no worker can
    go on, that is when all of them wait in [epoll_wait] for a descriptor that is not
    ready, and no call of [schedule] is under way, then every task that was ever
    scheduled has been run. *)
Theorem no_task_stranded n s :
  (0 < n)%nat -> rtc sys_step (Sys_ctor n) s -> zlen (sched s) < 2 ^ 31 ->
  stop s || autostop s = false -> placing s = [] -> uncounted s = 0%nat -> untickled s = 0%nat ->
  Forall (fun w => work w s = None) (workers s) ->
  executed s ≡ₚ sched s.
Proof.
  intros Hn Hs Hb Hf Hpl Hu Ht Hq. apply rest_all_run; try done; [by apply (threads_reachable_inv n)|].
  intros E. pose proof (workers_length n s Hs) as Hlen. rewrite E in Hlen. cbn in Hlen. lia.
Qed.

Lemma wait_reached : rtc sys_step (Sys_ctor 1) (MkSys [[]] 2 1 0 [] 0 0 false false false 1 [W_wait] [7%nat] [7%nat]).
Proof.
  etrans; [exact ex_task_run_reached|]. eapply rtc_l; [by apply (st_tickle _ 0 0)|].
  match goal with |- rtc _ ?s ?t => replace t with (run_single 20 s) by (vm_compute; reflexivity) end. apply run_single_steps.
Qed.

Lemma no_task_stranded_witness :
  executed (MkSys [[]] 2 1 0 [] 0 0 false false false 1 [W_wait] [7%nat] [7%nat]) ≡ₚ [7%nat].
Proof.
  apply (no_task_stranded 1 _ ltac:(lia) wait_reached); [done|done|done|done|done|]. by constructor.
Defined.

(** A call of [schedule] that passed its test before [autoStop] was called may add its
    task after the last worker has left: the task is never run, and [autoStop], which
    first waits for the counter to become zero, waits for ever. *)
Theorem autoStop_strands_task :
  exists s, rtc sys_step (Sys_ctor 1) s /\ Forall (fun w => w = W_gone) (workers s) /\
    placing s = [] /\ uncounted s = 0%nat /\ untickled s = 0%nat /\
    sched s = [7%nat] /\ executed s = [] /\ count s = 1.
Proof.
  eexists. split.
  - eapply rtc_l; [apply (st_schedule _ 7)|]. eapply rtc_l; [apply st_autostop|]. etrans; [apply (run_single_steps 20)|].
    eapply rtc_l; [by apply (st_add _ [] 7 0 [])|]. eapply rtc_l; [by apply (st_count _ 0)|].
    eapply rtc_l; [by apply (st_tickle _ 0 0)|]. apply rtc_refl.
  - split_and!; [by vm_compute; repeat constructor|done..].
Qed.
