(* ===== verification/SchedStop.v ===== *)
(** * Stopping the scheduler

    Results on [Scheduler::stop] ([sylar/coroutine/coro20/scheduler.cc]) for the threads of
    [SchedThreads]: once [m_stop] is set the workers take a bounded number of steps, searching for
    tasks that are counted but not found apart, and from every state the rest of the steps can be
    such that all of them have left. *)

From stdpp Require Import relations.
From S2P Require Import Prelude Scheduler SchedThreads.

(** The loop [while(!taskGet(work_list) && getTaskCount())], as long as it finds nothing. *)
Definition searching (w : wpc) : bool :=
  match w with W_fetch | W_node _ | W_sub [] | W_cond => true | _ => false end.

(** A step that begins no call of [schedule]; [useful]: a worker made it, other than by
    searching. *)
Inductive drain (useful : bool) : sys -> sys -> Prop :=
  | dr_worker s l1 w l2 w' s' :
      workers s = l1 ++ w :: l2 -> work w s = Some (w', s') -> useful = negb (searching w && searching w') ->
      drain useful s (set_workers (threads_count s') (l1 ++ w' :: l2) s')
  | dr_add s l1 t idx l2 : useful = false -> placing s = l1 ++ (t, idx) :: l2 -> drain useful s (add_task l1 t idx l2 s)
  | dr_count s u :
      useful = false -> uncounted s = S u ->
      drain useful s (set_calls (placing s) u (S (untickled s)) (set_queue (nodes s) (loop_idx s) (alloc_idx s) (u32 (count s + 1)) s))
  | dr_tickle s u k : useful = false -> untickled s = (k + S u)%nat -> drain useful s (set_calls (placing s) (uncounted s) k (tickle s))
  | dr_stop s : useful = false -> drain useful s (request_stop s)
  | dr_autostop s : useful = false -> drain useful s (request_autoStop s)
  | dr_stop_tickle s : useful = false -> stop s || autostop s = true -> drain useful s (tickle s).

(** A run of such steps, with the number of useful ones. *)
Inductive drains : nat -> sys -> sys -> Prop :=
  | ds_nil s : drains 0 s s
  | ds_cons b k s s1 s' : drain b s s1 -> drains k s1 s' -> drains ((if b then 1 else 0) + k) s s'.

Lemma drain_step b s s' : drain b s s' -> sys_step s s'.
Proof. destruct 1; eauto using sys_step. Qed.

(** ** How much is left to do *)

(** An upper bound of what a worker still does on its own once [m_stop] is set. *)
Definition rank_of (w : wpc) : nat :=
  match w with
  | W_gone => 0
  | W_exit => 1
  | W_head | W_decide => 2
  | W_woken => 3
  | W_back => 4
  | W_wait => 5
  | W_counted => 6
  | W_idle => 7
  | W_again => 8
  | W_exec b => 3 + length b
  | W_more b => 4 + length b
  | W_sub (_ :: b) => 6 + length b
  | W_fetch | W_node _ | W_sub [] | W_cond => 6
  end.

Definition rank (s : sys) : nat := sum_list (rank_of <$> workers s) + length (concat (nodes s)) + length (placing s).

Lemma rank_mid l1 w l2 : sum_list (rank_of <$> l1 ++ w :: l2) = (rank_of w + sum_list (rank_of <$> l1 ++ l2))%nat.
Proof. induction l1 as [|x l1 IH]; [done|]. cbn. cbn in IH. rewrite IH. lia. Qed.

Lemma concat_length_insert (ns : list (list nat)) i nd nd' :
  ns !! i = Some nd -> (length (concat (<[i := nd']> ns)) + length nd = length (concat ns) + length nd')%nat.
Proof. intros H. rewrite <- !length_app. by rewrite (concat_insert ns i nd nd' H). Qed.

Lemma node_rank s idx batch left_ rt :
  getTask SINGLE_GET_TASK_NUM (default [] (nodes s !! node_of idx s)) = (batch, left_, rt) ->
  (length batch + length (concat (<[node_of idx s := left_]> (nodes s))) = length (concat (nodes s)))%nat.
Proof.
  rewrite getTask_split. intros [= <- <- _]. set (i := node_of idx s). destruct (nodes s !! i) as [nd|] eqn:E; cbn [default from_option id].
  - pose proof (concat_length_insert (nodes s) i nd (drop 15 nd) E). rewrite length_take, length_drop in *. lia.
  - rewrite list_insert_ge by (by apply lookup_ge_None). done.
Qed.

(** After [m_stop] is set a worker's step lowers the rank, unless it searches. *)
Lemma worker_rank s l1 w l2 w' s' :
  stop s = true -> workers s = l1 ++ w :: l2 -> work w s = Some (w', s') ->
  (rank (set_workers (threads_count s') (l1 ++ w' :: l2) s') + (if negb (searching w && searching w') then 1 else 0) <= rank s)%nat
  /\ stop s' = true.
Proof.
  intros Hst Hw E. unfold rank. cbn [workers set_workers nodes placing]. rewrite Hw, !rank_mid.
  destruct w as [| |idx|batch| |batch|[|t batch]| | | | | | | | |]; cbn [work idle_step] in E.
  - rewrite Hst in E. injection E as <- <-. cbn. split; [lia|done].
  - injection E as <- <-. cbn. split; [lia|done].
  - destruct (getTask _ _) as [[batch left_] rt] eqn:Eg. injection E as <- <-. cbn [nodes placing set_queue stop].
    pose proof (node_rank s idx batch left_ rt Eg). split; [|done]. destruct batch as [|x batch]; cbn [rank_of searching andb negb length] in *; lia.
  - injection E as <- <-. cbn [nodes placing set_queue stop]. split; [|done].
    destruct batch as [|x batch]; [change (zlen [] =? 0) with true; cbn; lia|]. destruct (Z.eqb_spec (zlen (x :: batch)) 0) as [E0|_].
    + rewrite zlen_cons in E0. pose proof (zlen_nonneg batch). lia.
    + cbn. lia.
  - injection E as <- <-. split; [|done]. destruct (truthy (count s)); cbn; lia.
  - injection E as <- <-. destruct (_ && _); cbn; (split; [lia|done]).
  - injection E as <- <-. cbn. split; [lia|done].
  - injection E as <- <-. cbn. split; [lia|done].
  - rewrite Hst in E. injection E as <- <-. cbn. split; [lia|done].
  - injection E as <- <-. split; [|done]. destruct (truthy (count s)); cbn; lia.
  - injection E as <- <-. cbn. split; [lia|done].
  - injection E as <- <-. cbn. split; [lia|done].
  - destruct (edge s); [|done]. injection E as <- <-. cbn. split; [lia|done].
  - injection E as <- <-. cbn. split; [lia|done].
  - injection E as <- <-. cbn. split; [lia|done].
  - unfold leave_step in E. destruct (mutex_shared s); [done|]. injection E as <- <-. cbn. split; [lia|done].
  - done.
Qed.

Lemma drain_rank b s s' :
  drain b s s' -> stop s = true -> (rank s' + (if b then 1 else 0) <= rank s)%nat /\ stop s' = true.
Proof.
  intros Hd Hst. destruct Hd as [s l1 w l2 w' s' Hw E ->|s l1 t idx l2 -> Hp|s u -> Hu|s u k -> Hu|s ->|s ->|s -> _]; try (split; [unfold rank; cbn; lia|done]).
  - destruct (worker_rank s l1 w l2 w' s' Hst Hw E). done.
  - split; [|done]. unfold rank, add_task. cbn [workers set_calls set_queue nodes placing]. rewrite Hp, !length_app. cbn [length].
    set (i := node_of idx s). destruct (nodes s !! i) as [nd|] eqn:En; cbn [default from_option id].
    + pose proof (concat_length_insert (nodes s) i nd (addTask t nd) En). unfold addTask in *. rewrite length_app in *. cbn [length] in *. lia.
    + rewrite list_insert_ge by (by apply lookup_ge_None). lia.
Qed.

Lemma drains_rank k s s' : drains k s s' -> stop s = true -> (rank s' + k <= rank s)%nat /\ stop s' = true.
Proof.
  induction 1 as [s|b k s s1 s' Hd _ IH]; intros Hst; [split; [lia|done]|].
  destruct (drain_rank b s s1 Hd Hst) as [H1 H2]. destruct (IH H2) as [H3 H4]. split; [lia|done].
Qed.

(** ** The rest of the steps *)

Definition drains_to (s s' : sys) : Prop := exists k, drains k s s'.

Lemma drains_to_refl s : drains_to s s.
Proof. exists 0%nat. constructor. Qed.

Lemma drains_app k s s1 k' s' : drains k s s1 -> drains k' s1 s' -> drains (k + k') s s'.
Proof. induction 1 as [s|b k s s0 s1 Hd _ IH]; [done|]. intros H. rewrite <- Nat.add_assoc. econstructor; [done|by apply IH]. Qed.

Lemma drains_to_trans s s1 s' : drains_to s s1 -> drains_to s1 s' -> drains_to s s'.
Proof. intros [k H] [k' H']. exists (k + k')%nat. by eapply drains_app. Qed.

Lemma drains_one b s s' : drain b s s' -> drains_to s s'.
Proof. intros H. eexists. eapply ds_cons; [done|constructor]. Qed.

(** No call is under way and no worker is about to count what it took. *)
Record settled (s : sys) : Prop := {
  sd_inv : sys_inv s;
  sd_bound : zlen (sched s) < 2 ^ 31;
  sd_stop : stop s = true;
  sd_placing : placing s = [];
  sd_uncounted : uncounted s = 0%nat;
  sd_unsub : workers s ≫= unsub = [];
  sd_loop : 0 <= loop_idx s < 2 ^ 32;
  sd_nodes : zlen (nodes s) <= 2 ^ 31;
}.

(** Then the counter is right. *)
Lemma settled_count s : settled s -> count s = zlen (concat (nodes s)).
Proof.
  intros [H Hb _ Hp Hu Hn _ _]. rewrite (si_count _ H), Hu, Hn, zlen_nil. pose proof (zlen_nonneg (concat (nodes s))).
  assert (Hle : zlen (concat (nodes s)) <= zlen (sched s)).
  { unfold zlen. rewrite <- (si_tasks _ H), !length_app. lia. }
  rewrite wrap_small; lia.
Qed.

Lemma unsub_mid l1 w l2 : (l1 ++ w :: l2) ≫= unsub = [] <-> unsub w = [] /\ (l1 ++ l2) ≫= unsub = [].
Proof.
  split.
  - intros E. pose proof (bind_mid unsub l1 w l2) as Hp. rewrite E in Hp. apply Permutation_nil_l in Hp. symmetry in Hp. by apply app_eq_nil in Hp.
  - intros [E1 E2]. pose proof (bind_mid unsub l1 w l2) as Hp. rewrite E1, E2 in Hp. by apply Permutation_nil_r in Hp.
Qed.

Lemma work_frame w s w' s' :
  work w s = Some (w', s') ->
  sched s' = sched s /\ placing s' = placing s /\ uncounted s' = uncounted s /\ zlen (nodes s') = zlen (nodes s)
  /\ workers s' = workers s /\ (0 <= loop_idx s < 2 ^ 32 -> 0 <= loop_idx s' < 2 ^ 32).
Proof.
  intros E. assert (Hwrap : forall x, 0 <= u32 x < 2 ^ 32) by (intros x; by apply wrap_range).
  destruct w as [| |idx|batch| |batch|[|t batch]| | | | | | | | |]; cbn [work idle_step] in E; unfold leave_step in E;
    repeat case_match; simplify_eq; cbn; unfold zlen; rewrite ?length_insert; by auto 10.
Qed.

Lemma settled_worker s l1 w l2 w' s' :
  settled s -> workers s = l1 ++ w :: l2 -> work w s = Some (w', s') -> unsub w' = [] ->
  settled (set_workers (threads_count s') (l1 ++ w' :: l2) s').
Proof.
  intros H Hw E Hu. destruct (work_frame w s w' s' E) as (F1 & F2 & F3 & F4 & F5 & F6). pose proof H as [I1 I2 I3 I4 I5 I6 I7 I8].
  destruct (worker_rank s l1 w l2 w' s' I3 Hw E) as [_ Hst].
  rewrite Hw in I6. apply unsub_mid in I6 as [_ I6].
  split; cbn [workers set_workers sched stop placing uncounted loop_idx nodes]; rewrite ?F1, ?F2, ?F3, ?F4;
    [by apply (worker_inv s l1 w l2 w' s')|done|done|done|done|by apply unsub_mid|by apply F6|done].
Qed.

(** A step of a worker, as part of the rest. *)
Lemma worker_drains s l1 w l2 w' s' :
  workers s = l1 ++ w :: l2 -> work w s = Some (w', s') -> drains_to s (set_workers (threads_count s') (l1 ++ w' :: l2) s').
Proof. intros Hw E. eapply drains_one. by eapply dr_worker. Qed.

(** ** Reaching a settled state *)

Lemma drain_sched b s s' : drain b s s' -> sched s' = sched s.
Proof.
  destruct 1 as [s l1 w l2 w' s' Hw E _|s l1 t idx l2 _ Hp|s u _ Hu|s u k _ Hu|s _|s _|s _ _]; try done.
  cbn. by destruct (work_frame w s w' s' E) as [? _].
Qed.

(** What [drain] keeps of a reachable state after [m_stop] is set. *)
Record stopping (s : sys) : Prop := {
  sg_inv : sys_inv s;
  sg_bound : zlen (sched s) < 2 ^ 31;
  sg_stop : stop s = true;
  sg_loop : 0 <= loop_idx s < 2 ^ 32;
  sg_nodes : zlen (nodes s) <= 2 ^ 31;
}.

Lemma stopping_drain b s s' : drain b s s' -> stopping s -> stopping s'.
Proof.
  intros Hd [I1 I2 I3 I4 I5]. pose proof (drain_sched b s s' Hd) as Es.
  destruct (drain_rank b s s' Hd I3) as [_ Hst]. split; [|by rewrite Es|done| |].
  - eapply step_inv; [by eapply drain_step|done|done].
  - destruct Hd as [s l1 w l2 w' s' Hw E _|s l1 t idx l2 _ Hp|s u _ Hu|s u k _ Hu|s _|s _|s _ _]; try done.
    by apply (work_frame w s w' s' E).
  - destruct Hd as [s l1 w l2 w' s' Hw E _|s l1 t idx l2 _ Hp|s u _ Hu|s u k _ Hu|s _|s _|s _ _]; try done.
    + cbn. destruct (work_frame w s w' s' E) as (_ & _ & _ & F4 & _). by rewrite F4.
    + unfold add_task, zlen. cbn. by rewrite length_insert.
Qed.

Lemma finish_placing k : forall s, stopping s -> length (placing s) = k ->
  exists s', drains_to s s' /\ stopping s' /\ placing s' = [].
Proof.
  induction k as [|k IH]; intros s Hs Hk.
  { exists s. split; [apply drains_to_refl|]. split; [done|]. by apply length_zero_iff_nil. }
  destruct (placing s) as [|[t idx] pl] eqn:Ep; [done|].
  pose proof (dr_add false s [] t idx pl eq_refl Ep) as Hd.
  destruct (IH (add_task [] t idx pl s)) as (s' & H1 & H2); [by eapply stopping_drain|cbn in Hk |- *; lia|].
  exists s'. split; [|done]. eapply drains_to_trans; [by eapply drains_one|done].
Qed.

Lemma finish_counting k : forall s, stopping s -> placing s = [] -> uncounted s = k ->
  exists s', drains_to s s' /\ stopping s' /\ placing s' = [] /\ uncounted s' = 0%nat.
Proof.
  induction k as [|k IH]; intros s Hs Hp Hk; [exists s; split; [apply drains_to_refl|done]|].
  pose proof (dr_count false s k eq_refl Hk) as Hd.
  destruct (IH _ (stopping_drain _ _ _ Hd Hs) Hp eq_refl) as (s' & H1 & H2).
  exists s'. split; [|done]. eapply drains_to_trans; [by eapply drains_one|done].
Qed.

Lemma finish_subs ws : forall pre s, stopping s -> placing s = [] -> uncounted s = 0%nat ->
  workers s = pre ++ ws -> pre ≫= unsub = [] ->
  exists s', drains_to s s' /\ settled s'.
Proof.
  induction ws as [|w ws IH]; intros pre s Hs Hp Hu Hw Hpre.
  { exists s. split; [apply drains_to_refl|]. destruct Hs. split; try done. by rewrite Hw, app_nil_r. }
  destruct (unsub w) as [|x b] eqn:Ew.
  { apply (IH (pre ++ [w]) s Hs Hp Hu); [by rewrite Hw, <- app_assoc|]. by rewrite bind_app, bind_cons, Hpre, Ew. }
  assert (exists w' s', work w s = Some (w', s') /\ unsub w' = []) as (w' & s' & E & Hw').
  { destruct w as [| |idx|batch| |batch|[|t batch]| | | | | | | | |]; try done. cbn [work]. do 2 eexists. split; [done|].
    by destruct (zlen batch =? 0). }
  pose proof (dr_worker _ s pre w ws w' s' Hw E eq_refl) as Hd. destruct (work_frame w s w' s' E) as (_ & F2 & F3 & _).
  destruct (IH (pre ++ [w']) _ (stopping_drain _ _ _ Hd Hs)) as (s2 & H1 & H2).
  - cbn. by rewrite F2.
  - cbn. by rewrite F3.
  - cbn. by rewrite <- app_assoc.
  - by rewrite bind_app, bind_cons, Hpre, Hw'.
  - exists s2. split; [|done]. eapply drains_to_trans; [by eapply drains_one|done].
Qed.

Lemma settle s : stopping s -> exists s', drains_to s s' /\ settled s'.
Proof.
  intros Hs. destruct (finish_placing _ s Hs eq_refl) as (s1 & D1 & S1 & P1).
  destruct (finish_counting _ s1 S1 P1 eq_refl) as (s2 & D2 & S2 & P2 & U2).
  destruct (finish_subs (workers s2) [] s2 S2 P2 U2 eq_refl eq_refl) as (s3 & D3 & S3).
  exists s3. split; [|done]. eapply drains_to_trans; [exact D1|]. by eapply drains_to_trans.
Qed.

(** ** A search ends *)

(** The worker moves on to the end of the loop. *)
Definition search_ends (s : sys) : Prop :=
  exists s', drains_to s s' /\ settled s' /\ (rank s' < rank s)%nat.

Lemma search_trans s s1 : drains_to s s1 -> (rank s1 <= rank s)%nat -> search_ends s1 -> search_ends s.
Proof. intros D R (s' & D' & S' & R'). exists s'. split; [by eapply drains_to_trans|]. split; [done|lia]. Qed.

(** One useful step that leaves nothing to be subtracted. *)
Lemma useful_ends s l1 w l2 w' s' :
  settled s -> workers s = l1 ++ w :: l2 -> work w s = Some (w', s') -> unsub w' = [] -> searching w && searching w' = false ->
  search_ends s.
Proof.
  intros Hs Hw E Hu Hn. eexists. split; [by eapply worker_drains|]. split; [by eapply settled_worker|].
  destruct (worker_rank s l1 w l2 w' s' (sd_stop _ Hs) Hw E) as [Hr _]. rewrite Hn in Hr. cbn [negb] in Hr. lia.
Qed.

(** Taking tasks: the two steps to the end of [taskGet]. *)
Lemma take_ends s l1 idx l2 nd :
  settled s -> workers s = l1 ++ W_node idx :: l2 -> nodes s !! node_of idx s = Some nd -> nd <> [] -> search_ends s.
Proof.
  intros Hs Hw Hnd Hne. pose proof Hs as [I1 I2 I3 I4 I5 I6 I7 I8].
  assert (E : exists x b s1, work (W_node idx) s = Some (W_sub (x :: b), s1)).
  { cbn [work]. rewrite Hnd. cbn [default from_option id]. rewrite getTask_split. destruct nd as [|x nd]; [done|].
    cbn [take]. by do 3 eexists. }
  destruct E as (x & b & s1 & E). pose proof (dr_worker _ s l1 _ l2 _ _ Hw E eq_refl) as D1. set (s2 := set_workers _ _ s1) in D1.
  assert (Hst : stopping s2) by (eapply stopping_drain; [exact D1|by split]).
  destruct (drain_rank _ _ _ D1 I3) as [R1 _]. cbn [searching andb negb] in R1.
  assert (E2 : work (W_sub (x :: b)) s2 = Some (W_more (x :: b),
    set_queue (nodes s2) (loop_idx s2) (alloc_idx s2) (u32 (count s2 - zlen (x :: b))) s2)).
  { cbn [work]. rewrite (proj2 (Z.eqb_neq _ _)); [done|]. rewrite zlen_cons. pose proof (zlen_nonneg b). lia. }
  pose proof (dr_worker _ s2 l1 _ l2 _ _ eq_refl E2 eq_refl) as D2. destruct (drain_rank _ _ _ D2 (sg_stop _ Hst)) as [R2 _]. cbn [searching andb negb] in R2.
  destruct (stopping_drain _ _ _ D2 Hst) as [J1 J2 J3 J4 J5].
  eexists. split; [eapply drains_to_trans; [by eapply drains_one|by eapply drains_one]|]. split; [|lia].
  destruct (work_frame _ _ _ _ E) as (_ & F2 & F3 & _). rewrite Hw in I6. apply unsub_mid in I6 as [_ I6].
  split; [done|done|done|cbn; by rewrite F2|cbn; by rewrite F3|cbn; by apply unsub_mid|done|done].
Qed.

(** Any other step of the worker, and then the rest. *)
Lemma step_then s l1 w l2 w' s' :
  settled s -> workers s = l1 ++ w :: l2 -> work w s = Some (w', s') -> unsub w' = [] ->
  (settled (set_workers (threads_count s') (l1 ++ w' :: l2) s') -> search_ends (set_workers (threads_count s') (l1 ++ w' :: l2) s')) ->
  search_ends s.
Proof.
  intros Hs Hw E Hu Hrest. eapply search_trans; [by eapply worker_drains| |apply Hrest; by eapply settled_worker].
  destruct (worker_rank s l1 w l2 w' s' (sd_stop _ Hs) Hw E) as [Hr _]. lia.
Qed.

(** The counter tells that there are tasks. *)
Lemma settled_counts s i nd : settled s -> nodes s !! i = Some nd -> nd <> [] -> truthy (count s) = true.
Proof.
  intros Hs Hnd Hne. rewrite (settled_count s Hs). apply truthy_spec. intros Hz.
  assert (Hz' : concat (nodes s) = []) by (apply length_zero_iff_nil; unfold zlen in Hz; lia).
  apply list_elem_of_lookup_2 in Hnd. destruct nd as [|y nd]; [done|].
  assert (Hin : y ∈ concat (nodes s)) by (apply list_elem_of_In, in_concat; exists (y :: nd); split; [by apply list_elem_of_In|by left]).
  rewrite Hz' in Hin. by apply not_elem_of_nil in Hin.
Qed.

(** Where the loop starts over, with a node that has tasks [k] turns away. *)
Lemma fetch_ends k : forall s l1 l2 nd,
  settled s -> workers s = l1 ++ W_fetch :: l2 ->
  nodes s !! node_of (u32 (loop_idx s + Z.of_nat k)) s = Some nd -> nd <> [] -> search_ends s.
Proof.
  induction k as [|k IH]; intros s l1 l2 nd Hs Hw Hnd Hne; apply (step_then s l1 W_fetch l2 _ _ Hs Hw eq_refl eq_refl);
    set (s1 := set_workers _ _ _); intros S1.
  - apply (take_ends s1 l1 (loop_idx s) l2 nd S1 eq_refl); [|done].
    rewrite Z.add_0_r, wrap_small in Hnd by apply Hs. exact Hnd.
  - destruct (nodes s1 !! node_of (loop_idx s) s1) as [nd0|] eqn:E0;
      [|apply lookup_ge_None in E0; pose proof (node_of_lt (loop_idx s) s1 (si_nodes _ (sd_inv _ S1))); lia].
    destruct nd0 as [|x nd0]; [|by apply (take_ends s1 l1 (loop_idx s) l2 (x :: nd0) S1 eq_refl)].
    (* nothing here: on to the next node *)
    assert (E2 : work (W_node (loop_idx s)) s1 = Some (W_sub [], set_queue (nodes s1) (loop_idx s1) (alloc_idx s1) (count s1) s1)).
    { cbn [work]. rewrite E0. cbn [default from_option id getTask]. by rewrite list_insert_id. }
    apply (step_then s1 l1 _ l2 _ _ S1 eq_refl E2 eq_refl). set (s2 := set_workers _ _ _). intros S2.
    apply (step_then s2 l1 (W_sub []) l2 _ _ S2 eq_refl eq_refl eq_refl). set (s3 := set_workers _ _ _). intros S3.
    assert (E4 : work W_cond s3 = Some (W_fetch, s3)) by (cbn [work]; by rewrite (settled_counts s3 _ nd S3 Hnd Hne)).
    apply (step_then s3 l1 _ l2 _ _ S3 eq_refl E4 eq_refl). set (s4 := set_workers _ _ _). intros S4.
    apply (IH s4 l1 l2 nd S4 eq_refl); [|done].
    change (nodes s4) with (nodes s). change (loop_idx s4) with (u32 (loop_idx s + 1)). unfold node_of in *. change (nodes s4) with (nodes s).
    rewrite u32_idem. by replace (loop_idx s + 1 + Z.of_nat k) with (loop_idx s + Z.of_nat (S k)) by lia.
Qed.

Lemma cond_ends s l1 l2 : settled s -> workers s = l1 ++ W_cond :: l2 -> search_ends s.
Proof.
  intros Hs Hw. destruct (truthy (count s)) eqn:Ec.
  - assert (E : work W_cond s = Some (W_fetch, s)) by (cbn [work]; by rewrite Ec).
    apply (step_then s l1 _ l2 _ _ Hs Hw E eq_refl). set (s1 := set_workers _ _ _). intros S1.
    rewrite (settled_count s Hs) in Ec. apply truthy_spec in Ec.
    destruct (concat (nodes s)) as [|x l] eqn:En; [done|]. assert (Hx : x ∈ concat (nodes s)) by (rewrite En; by left).
    rewrite list_elem_of_In in Hx. apply in_concat in Hx as (nd & Hnd & Hxn).
    apply list_elem_of_In, list_elem_of_lookup in Hnd as [r Hr]. pose proof (lookup_lt_Some _ _ _ Hr) as Hlt.
    destruct (index_reaches (zlen (nodes s)) (loop_idx s) r) as (k & Hk & Ek);
      [split; [unfold zlen; lia|apply Hs]|apply Hs|unfold zlen; lia|].
    apply (fetch_ends (Z.to_nat k) s1 l1 l2 nd S1 eq_refl); [|by intros ->].
    change (nodes s1) with (nodes s). change (loop_idx s1) with (loop_idx s). unfold node_of. change (nodes s1) with (nodes s).
    rewrite Z2Nat.id by lia. by rewrite Ek.
  - eapply (useful_ends s l1 W_cond l2 (W_more []) s Hs Hw); [cbn [work]; by rewrite Ec|done|done].
Qed.

Lemma node_ends s l1 idx l2 : settled s -> workers s = l1 ++ W_node idx :: l2 -> search_ends s.
Proof.
  intros Hs Hw. destruct (nodes s !! node_of idx s) as [nd|] eqn:E0;
    [|apply lookup_ge_None in E0; pose proof (node_of_lt idx s (si_nodes _ (sd_inv _ Hs))); lia].
  destruct nd as [|x nd]; [|by apply (take_ends s l1 idx l2 (x :: nd) Hs Hw)].
  assert (E2 : work (W_node idx) s = Some (W_sub [], set_queue (nodes s) (loop_idx s) (alloc_idx s) (count s) s)).
  { cbn [work]. rewrite E0. cbn [default from_option id getTask]. by rewrite list_insert_id. }
  apply (step_then s l1 _ l2 _ _ Hs Hw E2 eq_refl). set (s2 := set_workers _ _ _). intros S2.
  apply (step_then s2 l1 (W_sub []) l2 _ _ S2 eq_refl eq_refl eq_refl). intros S3. by apply (cond_ends _ l1 l2).
Qed.

(** A worker that can go on. *)
Lemma worker_ends s l1 w l2 :
  settled s -> workers s = l1 ++ w :: l2 -> mutex_shared s = false -> w <> W_gone -> search_ends s.
Proof.
  intros Hs Hw Em Hne. pose proof (sd_stop _ Hs) as Hst. pose proof (sd_unsub _ Hs) as Hu. rewrite Hw in Hu. apply unsub_mid in Hu as [Hu _].
  destruct w as [| |idx|batch| |batch|[|t batch]| | | | | | | | |]; try (by eapply useful_ends; [exact Hs|exact Hw|reflexivity|done|done]).
  - eapply (useful_ends s l1 W_head l2 W_exit s Hs Hw); [cbn [work]; by rewrite Hst|done|done].
  - apply (step_then s l1 W_fetch l2 _ _ Hs Hw eq_refl eq_refl). intros S1. by apply (node_ends _ l1 (loop_idx s) l2).
  - by apply (node_ends s l1 idx l2).
  - cbn [unsub] in Hu. subst batch. apply (step_then s l1 (W_sub []) l2 _ _ Hs Hw eq_refl eq_refl). intros S1. by apply (cond_ends _ l1 l2).
  - by apply (cond_ends s l1 l2).
  - eapply (useful_ends s l1 W_decide l2 W_exit s Hs Hw); [cbn [work]; by rewrite Hst|done|done].
  - eapply (useful_ends s l1 W_again l2 (if truthy (count s) then W_head else W_idle) s Hs Hw eq_refl); by destruct (truthy (count s)).
  - exfalso. unfold mutex_shared in Em. rewrite Hw, existsb_mid in Em. done.
  - eapply (useful_ends s l1 W_exit l2 W_gone _ Hs Hw); [cbn [work]; unfold leave_step; by rewrite Em|done|done].
  - done.
Qed.

(** Every settled state has less to do some steps later, or all have left. *)
Lemma settled_progress s : settled s -> Forall (fun w => w = W_gone) (workers s) \/ search_ends s.
Proof.
  intros Hs. destruct (mutex_shared s) eqn:Em.
  - (* a worker that waits is woken *)
    right. unfold mutex_shared in Em. apply existsb_exists in Em as (w & Hw & Hwt). apply list_elem_of_In, list_elem_of_split in Hw as (l1 & l2 & Hw).
    destruct w; try done.
    assert (D0 : drain false s (tickle s)) by (apply dr_stop_tickle; [done|by rewrite (sd_stop _ Hs)]).
    assert (S0 : settled (tickle s)).
    { destruct Hs as [I1 I2 I3 I4 I5 I6 I7 I8]. destruct (stopping_drain _ _ _ D0 (Build_stopping s I1 I2 I3 I7 I8)). by split. }
    apply (search_trans s (tickle s)); [by eapply drains_one|done|].
    by apply (useful_ends (tickle s) l1 W_wait l2 W_back (set_edge false (tickle s)) S0 Hw).
  - destruct (decide (Forall (fun w => w = W_gone) (workers s))) as [Hg|Hg]; [by left|right].
    apply not_Forall_Exists in Hg; [|apply _]. apply Exists_exists in Hg as (w & Hw & Hne).
    apply list_elem_of_split in Hw as (l1 & l2 & Hw). by apply (worker_ends s l1 w l2).
Qed.

Lemma all_leave k : forall s, settled s -> (rank s < k)%nat ->
  exists s', drains_to s s' /\ settled s' /\ Forall (fun w => w = W_gone) (workers s').
Proof.
  induction k as [|k IH]; intros s Hs Hk; [lia|].
  destruct (settled_progress s Hs) as [Hg|(s1 & D & S & R)]; [exists s; split; [apply drains_to_refl|done]|].
  destruct (IH s1 S ltac:(lia)) as (s' & D' & H). exists s'. split; [by eapply drains_to_trans|done].
Qed.

Lemma threads_gone s : sys_inv s -> Forall (fun w => w = W_gone) (workers s) -> threads_count s = 0.
Proof. intros H Hall. rewrite (si_threads _ H). clear -Hall. induction Hall as [|w ws -> _ IH]; [done|]. by rewrite bind_cons. Qed.

Lemma reachable_shape n s : rtc sys_step (Sys_ctor n) s -> 0 <= loop_idx s < 2 ^ 32 /\ zlen (nodes s) = Z.of_nat n.
Proof.
  revert s. apply (rtc_ind_r (fun s => 0 <= loop_idx s < 2 ^ 32 /\ zlen (nodes s) = Z.of_nat n)).
  { split; [done|]. unfold zlen. cbn. by rewrite length_replicate. }
  intros s2 s3 _ H23 [Hl Hn]. destruct H23 as [s l1 w l2 w' s' Hw E|s t|s p1 t idx p2 Hp|s u Hu|s u k Hu|s|s|s Hf]; try done.
  - destruct (work_frame w s w' s' E) as (_ & _ & _ & F4 & _ & F6). cbn. rewrite F4. auto.
  - unfold schedule_task. by destruct (autostop s).
  - unfold add_task, zlen in *. cbn. by rewrite length_insert.
Qed.

(** * Results *)

(** C33. Stopping ends every thread.  From any reachable state in which [m_stop] is set,
    with at most 2^31 threads and tasks: however the threads go on without a new call of
    [schedule], the workers take at most [rank] steps besides those of a search, the loop
    that repeats [taskGet] while the counter of tasks is not zero; and the threads can go
    on, with no new call of [schedule], until every worker has left and [m_threads_count] is
    zero, so that [stop] joins them, also from wherever they are by then. *)
Theorem stop_ends_threads n s :
  (0 < n)%nat -> Z.of_nat n <= 2 ^ 31 -> rtc sys_step (Sys_ctor n) s -> zlen (sched s) < 2 ^ 31 -> stop s = true ->
  (forall k s', drains k s s' -> (k <= rank s)%nat /\ stop s' = true) /\
  exists k s', drains k s s' /\ Forall (fun w => w = W_gone) (workers s') /\ threads_count s' = 0.
Proof.
  intros Hn Hn2 Hs Hb Hst. pose proof (threads_reachable_inv n s Hn Hs Hb) as H. destruct (reachable_shape n s Hs) as [Hl Hz]. split.
  - intros k s' Hd. destruct (drains_rank k s s' Hd Hst). split; [lia|done].
  - destruct (settle s) as (s1 & D1 & S1); [split; [done|done|done|done|lia]|].
    destruct (all_leave (S (rank s1)) s1 S1 ltac:(lia)) as (s2 & D2 & S2 & Hall).
    destruct (drains_to_trans s s1 s2 D1 D2) as [k D]. exists k, s2. split; [done|]. split; [done|].
    by apply threads_gone; [apply S2|].
Qed.

(** A worker waits, with a task queued but not counted, when [stop] is called. *)
Definition ex_stopped : sys := request_stop (set_calls [] 1 0 (MkSys [[7%nat]] 1 1 0 [] 0 0 false false false 1 [W_wait] [7%nat] [])).

Lemma ex_stopped_reached : rtc sys_step (Sys_ctor 1) ex_stopped.
Proof.
  etrans; [apply (run_single_steps 11)|]. eapply rtc_l; [apply (st_schedule _ 7)|]. eapply rtc_l; [by apply (st_add _ [] 7 0 [])|].
  eapply rtc_l; [apply st_stop|]. apply rtc_refl.
Qed.

Lemma stop_ends_threads_witness :
  exists k s', drains k ex_stopped s' /\ (k <= 6)%nat /\ threads_count s' = 0.
Proof.
  destruct (stop_ends_threads 1 ex_stopped ltac:(lia) ltac:(lia) ex_stopped_reached eq_refl eq_refl) as [Hk (k & s' & D & _ & Ht)].
  exists k, s'. split; [exact D|]. split; [|exact Ht]. exact (proj1 (Hk k s' D)).
Defined.
