(* ===== verification/CoroTask.v ===== *)
(** * Coroutine tasks

    Models [sylar/coroutine/coro20/task.hpp]: the completion of a coroutine and
    the callbacks registered with [then], [catching] and [finally]
    ([TaskPromise], [Task]), and awaiting a task from another coroutine
    ([TaskAwaiter]).  The [void] instances of the templates have the same text and
    are covered by the value [0].  Who destroys the frame is in [CoroFrame]. *)

From S2P Require Import Prelude.

(** ** Completion *)

(** [Result]: a value, or an exception; [std] tells whether it derives from
    [std::exception]. *)
Inductive Result := R_value (v : Z) | R_exception (std : bool) (e : Z).

(** The exception made from a reference to the base class. *)
Definition sliced : Z := 0.

(** What is passed to [setCompleteCb]. *)
Inductive completion :=
  | C_then (cb : nat)
  | C_catching (cb : nat)
  | C_finally (cb : nat).

(** A callback of the user, called with a result. *)
Definition call : Type := nat * Result.

(** Calling a completion; the flag tells that an exception leaves it. *)
Definition invoke (c : completion) (r : Result) : list call * bool :=
  match c, r with
  | C_then cb, _ => ([(cb, r)], false)
  | C_catching cb, R_value _ => ([], false)
  | C_catching cb, R_exception true _ => ([(cb, R_exception true sliced)], false)
  | C_finally cb, R_value _ => ([(cb, r)], false)
  | C_finally cb, R_exception true _ => ([], false)
  | _, R_exception false _ => ([], true)
  end.

Record TaskPromise := mk_promise {
  m_result : option Result;
  m_callbacks : list completion;
}.

Definition promise_init : TaskPromise := mk_promise None [].

(** [setCompleteCb] *)
Definition setCompleteCb (c : completion) (p : TaskPromise) : list call * bool * TaskPromise :=
  match m_result p with
  | Some r => (invoke c r, p)
  | None => ([], false, mk_promise None (m_callbacks p ++ [c]))
  end.

(** The loop of [notifyAllCbs]: an exception ends it. *)
Fixpoint notify (cs : list completion) (r : Result) : list call * bool :=
  match cs with
  | [] => ([], false)
  | c :: cs =>
      let (calls, threw) := invoke c r in
      if threw then (calls, true) else let (calls', threw') := notify cs r in (calls ++ calls', threw')
  end.

Definition notifyAllCbs (r : Result) (p : TaskPromise) : list call * bool * TaskPromise :=
  let (calls, threw) := notify (m_callbacks p) r in
  (calls, threw, if threw then p else mk_promise (m_result p) []).

Definition return_value (v : Z) (p : TaskPromise) : list call * bool * TaskPromise :=
  notifyAllCbs (R_value v) (mk_promise (Some (R_value v)) (m_callbacks p)).

(** [unhandled_exception]: an exception that is not a [std::exception] leaves it
    before anybody is notified. *)
Definition unhandled_exception (std : bool) (e : Z) (p : TaskPromise) : list call * bool * TaskPromise :=
  let p := mk_promise (Some (R_exception std e)) (m_callbacks p) in
  if std then notifyAllCbs (R_exception true e) p else ([], true, p).

(** The end of a coroutine. *)
Definition finish (r : Result) (p : TaskPromise) : list call * bool * TaskPromise :=
  match r with
  | R_value v => return_value v p
  | R_exception std e => unhandled_exception std e p
  end.

(** [co_await task] registers the awaiter with [finally]; its callback, number
    [parent], resumes the waiting coroutine. *)
Definition on_suspend (parent : nat) (p : TaskPromise) : list call * bool * TaskPromise :=
  setCompleteCb (C_finally parent) p.

(** The registrations before and after the end of the coroutine: every call made
    to the user's callbacks. *)
Definition register_all (cs : list completion) (p : TaskPromise) : list call * TaskPromise :=
  fold_left (fun (st : list call * TaskPromise) c =>
      let '(calls, _, p') := setCompleteCb c st.2 in (st.1 ++ calls, p')) cs ([], p).

Definition lifetime (before : list completion) (r : Result) (after_ : list completion) : list call :=
  let (calls1, p) := register_all before promise_init in
  let '(calls2, _, p) := finish r p in
  let (calls3, _) := register_all after_ p in
  calls1 ++ calls2 ++ calls3.

Lemma register_pending cs : forall p acc, m_result p = None ->
  fold_left (fun (st : list call * TaskPromise) c =>
      let '(calls, _, p') := setCompleteCb c st.2 in (st.1 ++ calls, p')) cs (acc, p)
  = (acc, mk_promise None (m_callbacks p ++ cs)).
Proof.
  induction cs as [|c cs IH]; intros p acc Hp; cbn [fold_left].
  - rewrite app_nil_r. destruct p. cbn in Hp. by subst.
  - unfold setCompleteCb at 2. cbn [snd fst]. rewrite Hp. cbn. rewrite app_nil_r, IH by done. cbn.
    by rewrite <- app_assoc.
Qed.

Lemma register_done cs r : forall p acc, m_result p = Some r ->
  fold_left (fun (st : list call * TaskPromise) c =>
      let '(calls, _, p') := setCompleteCb c st.2 in (st.1 ++ calls, p')) cs (acc, p)
  = (acc ++ flat_map (fun c => (invoke c r).1) cs, p).
Proof.
  induction cs as [|c cs IH]; intros p acc Hp; cbn [fold_left flat_map].
  - by rewrite app_nil_r.
  - unfold setCompleteCb at 2. cbn [snd fst]. rewrite Hp. destruct (invoke c r) as [calls threw] eqn:E.
    rewrite IH by done. cbn. by rewrite <- app_assoc.
Qed.

Lemma notify_quiet cs r :
  (forall c, (invoke c r).2 = false) -> notify cs r = (flat_map (fun c => (invoke c r).1) cs, false).
Proof.
  intros Hq. induction cs as [|c cs IH]; [done|]. cbn. specialize (Hq c). destruct (invoke c r) as [calls threw].
  cbn in Hq. subst. rewrite IH. done.
Qed.

(** For a value or a [std::exception] it makes no difference when a callback was
    registered. *)
Lemma lifetime_calls before r after_ :
  (forall c, (invoke c r).2 = false) ->
  lifetime before r after_ = flat_map (fun c => (invoke c r).1) (before ++ after_).
Proof.
  intros Hq. unfold lifetime, register_all. rewrite register_pending by done. cbn [m_callbacks promise_init app].
  assert (Hfin : finish r (mk_promise None before)
                 = (flat_map (fun c => (invoke c r).1) before, false, mk_promise (Some r) [])).
  { destruct r as [v|[|] e]; cbn [finish].
    - unfold return_value, notifyAllCbs. cbn. by rewrite notify_quiet.
    - unfold unhandled_exception, notifyAllCbs. cbn. by rewrite notify_quiet.
    - specialize (Hq (C_finally 0)). done. }
  rewrite Hfin. rewrite (register_done after_ r) by done. cbn [app]. by rewrite flat_map_app.
Qed.

(** Completion callbacks: for a coroutine that ends with a value or with a
    [std::exception], every callback is served exactly once, in the order of
    registration, no matter whether it was registered before or after the end:
    [then] with the result, [finally] only for a value, [catching] only for an
    exception. *)
Theorem completion_exactly_once before r after_ :
  (forall e, r <> R_exception false e) ->
  lifetime before r after_ =
  flat_map (fun c =>
    match c, r with
    | C_then cb, _ => [(cb, r)]
    | C_finally cb, R_value _ => [(cb, r)]
    | C_catching cb, R_exception _ _ => [(cb, R_exception true sliced)]
    | _, _ => []
    end) (before ++ after_).
Proof.
  intros Hr. rewrite lifetime_calls.
  - apply flat_map_ext. intros c. destruct r as [v|[|] e]; [by destruct c..|by destruct (Hr e)].
  - intros c. destruct r as [v|[|] e]; [by destruct c..|by destruct (Hr e)].
Qed.

Lemma completion_exactly_once_witness :
  lifetime [C_then 1; C_finally 2] (R_value 7) [C_catching 3; C_then 4]
  = [(1%nat, R_value 7); (2%nat, R_value 7); (4%nat, R_value 7)].
Proof. apply (completion_exactly_once [C_then 1; C_finally 2] (R_value 7) [C_catching 3; C_then 4]). discriminate. Defined.

(** Awaiting a task that throws hangs: the waiting coroutine is resumed
    exactly once if the awaited task ends with a value, before or after it
    suspended; if the task ends with an exception -- of any type -- it is never
    resumed. *)
Theorem await_resumes_only_on_value parent r early :
  let calls := if early : bool then lifetime [C_finally parent] r [] else lifetime [] r [C_finally parent] in
  calls = match r with R_value _ => [(parent, r)] | R_exception _ _ => [] end.
Proof. destruct r as [v|[|] e], early; done. Qed.

(** [then] is silent too if the exception is not a [std::exception]. *)
Lemma then_misses_other_exceptions cb e : lifetime [C_then cb] (R_exception false e) [] = [].
Proof. done. Qed.
