(* ===== verification/Awaiter.v ===== *)
(** * Awaiters

    Models the class [Awaiter] of [sylar/coroutine/coro20/task.hpp], from which
    every awaiter of the library derives, its [void] instance, the executers, and
    waiting for a result from outside a coroutine ([TaskPromise::getResult]).

    Several threads may call [resume] on one awaiter (an event and its time limit,
    for instance).  A step is one atomic operation of one thread: the
    compare-exchange of [m_is_resumed], the store of the result, or the resumption
    of the handle; or the end of the [co_await], with which the awaiter is destroyed.
    The executers of the library run a dispatched function at once or on another
    thread; either way its steps come after those of the caller, so the function is
    continued by the thread that dispatched it. *)

From stdpp Require Import relations list.
From S2P Require Import Prelude CoroTask.

(** ** Executers *)

(** [execute] and [initialExecute] of the base classes call the function. *)
Definition execute {A} (func : A) : A := func.
Definition initialExecute {A} (func : A) : A := func.

(** ** [Awaiter<T>] *)

(** What a thread still has to do for the awaiter. *)
Inductive resumer :=
  | at_resume (v : Z)                     (* resume(v): before the compare-exchange *)
  | at_store (r : Result)                 (* the dispatched function *)
  | at_handle
  | at_end.

Definition resume (v : Z) : resumer := at_resume v.
Definition resume_exception (std : bool) (e : Z) : resumer := at_store (R_exception std e).
Definition resume_unsafe : resumer := at_handle.

(** [read]: what [await_resume] of the resumed coroutine reads, [None] an empty optional.  The
    awaiter is an object of the coroutine: once that has run on, it is destroyed ([gone]).
    [undefined]: a thread has used the destroyed object. *)
Record awaiter := mk_awaiter {
  m_is_resumed : bool;
  a_result : option Result;
  handle_done : bool;
  read : list (option Result);            (* one entry per resumption *)
  resumers : list resumer;
  gone : bool;
  undefined : bool;
}.

Definition Awaiter_init (threads : list resumer) : awaiter := mk_awaiter false None false [] threads false false.

Inductive awaiter_step : awaiter -> awaiter -> Prop :=
  | step_exchange a i v :                 (* compare_exchange_strong(false, true), then the test of done() *)
      gone a = false -> resumers a !! i = Some (at_resume v) ->
      awaiter_step a (mk_awaiter true (a_result a) (handle_done a) (read a)
        (<[i := if m_is_resumed a || handle_done a then at_end else at_store (R_value v)]> (resumers a)) (gone a) (undefined a))
  | step_store a i r :
      gone a = false -> resumers a !! i = Some (at_store r) ->
      awaiter_step a (mk_awaiter (m_is_resumed a) (Some r) (handle_done a) (read a) (<[i := at_handle]> (resumers a))
        (gone a) (undefined a))
  | step_handle a i :                     (* m_handle.resume(): the coroutine runs await_resume *)
      gone a = false -> resumers a !! i = Some at_handle ->
      awaiter_step a (mk_awaiter (m_is_resumed a) (a_result a) (handle_done a)
        (if handle_done a then read a else read a ++ [a_result a]) (<[i := at_end]> (resumers a)) (gone a) (undefined a))
  | step_gone a :                         (* the co_await is over *)
      read a <> [] -> gone a = false ->
      awaiter_step a (mk_awaiter (m_is_resumed a) (a_result a) (handle_done a) (read a) (resumers a) true (undefined a))
  | step_undefined a i t :                (* a thread uses the object that is gone *)
      gone a = true -> undefined a = false -> resumers a !! i = Some t -> t <> at_end ->
      awaiter_step a (mk_awaiter (m_is_resumed a) (a_result a) (handle_done a) (read a) (resumers a) true true).

(** Only [resume] is used. *)
Definition only_resume (vs : list Z) : awaiter := Awaiter_init (map resume vs).

(** Nobody has won the exchange; or thread [i] has, and is at one of the places
    after it, the last one if the coroutine has gone on. *)
Inductive awaiter_inv (vs : list Z) : awaiter -> Prop :=
  | inv_open ts : Forall (fun t => exists v, t = at_resume v /\ v ∈ vs) ts -> length ts = length vs ->
      awaiter_inv vs (mk_awaiter false None false [] ts false false)
  | inv_won ts i t v res log g u : ts !! i = Some t -> v ∈ vs -> length ts = length vs ->
      (forall j u, ts !! j = Some u -> j <> i -> u = at_end \/ exists w, u = at_resume w) ->
      match t with
      | at_store r => r = R_value v /\ res = None /\ log = [] /\ g = false /\ u = false
      | at_handle => res = Some (R_value v) /\ log = [] /\ g = false /\ u = false
      | at_end => res = Some (R_value v) /\ log = [Some (R_value v)]
      | at_resume _ => False
      end ->
      (u = true -> g = true /\ exists j w, ts !! j = Some (at_resume w)) ->
      awaiter_inv vs (mk_awaiter true res false log ts g u).

Lemma awaiter_inv_init vs : awaiter_inv vs (only_resume vs).
Proof.
  apply inv_open; [|by rewrite length_map]. apply Forall_forall. intros t Ht. apply list_elem_of_In, in_map_iff in Ht as (v & <- & Hv).
  exists v. split; [done|]. by apply list_elem_of_In.
Qed.

Lemma others_kept (ts : list resumer) i j u :
  (forall k w, ts !! k = Some w -> k <> i -> w = at_end \/ exists z, w = at_resume z) ->
  (u = at_end \/ exists z, u = at_resume z) -> j <> i ->
  forall k w, <[j := u]> ts !! k = Some w -> k <> i -> w = at_end \/ exists z, w = at_resume z.
Proof.
  intros H Hu Hj k w Hk Hne. destruct (decide (k = j)) as [->|Hkj].
  - apply list_lookup_insert_Some in Hk as [(_ & <- & _)|[? _]]; done.
  - rewrite list_lookup_insert_ne in Hk by done. by eapply H.
Qed.

Lemma others_same (ts : list resumer) i t :
  (forall k w, ts !! k = Some w -> k <> i -> w = at_end \/ exists z, w = at_resume z) ->
  forall k w, <[i := t]> ts !! k = Some w -> k <> i -> w = at_end \/ exists z, w = at_resume z.
Proof. intros H k w Hk Hne. rewrite list_lookup_insert_ne in Hk by done. by eapply H. Qed.

Lemma awaiter_inv_step vs a a' : awaiter_inv vs a -> awaiter_step a a' -> awaiter_inv vs a'.
Proof.
  intros Hi Hs. destruct Hi as [ts Hall Hlen|ts i t v res log g u Ht Hv Hlen Hoth Hcase Hu].
  - inversion Hs as [a0 k v Hg Hk|a0 k r Hg Hk|a0 k Hg Hk|a0 Hr Hg|a0 k t Hg]; subst; cbn in *; try done;
      destruct (proj1 (Forall_lookup _ _) Hall _ _ Hk) as (w & E & Hw); simplify_eq.
    apply (inv_won _ _ k (at_store (R_value w)) w); [|done|by rewrite length_insert| |done|done].
    + apply list_lookup_insert_eq. by eapply lookup_lt_Some.
    + intros j u Hj Hne. rewrite list_lookup_insert_ne in Hj by done.
      destruct (proj1 (Forall_lookup _ _) Hall _ _ Hj) as (x & -> & _). eauto.
  - assert (Hlt : (i < length ts)%nat) by (by eapply lookup_lt_Some).
    inversion Hs as [a0 k w Hg Hk|a0 k r Hg Hk|a0 k Hg Hk|a0 Hr Hg|a0 k w Hg Hf Hk Hne]; subst; cbn in *; subst.
    + destruct u; [by destruct (Hu eq_refl)|]. destruct (decide (k = i)) as [->|Hki]; [rewrite Ht in Hk; by simplify_eq|].
      apply (inv_won _ _ i t v); [by rewrite list_lookup_insert_ne|done|by rewrite length_insert| |done|done].
      apply others_kept; auto.
    + destruct (decide (k = i)) as [->|Hki]; [|by destruct (Hoth _ _ Hk Hki) as [E|[z E]]].
      rewrite Ht in Hk. simplify_eq. destruct Hcase as (-> & -> & -> & _ & ->).
      apply (inv_won _ _ i at_handle v); [by apply list_lookup_insert_eq|done|by rewrite length_insert|by apply others_same|done|done].
    + destruct (decide (k = i)) as [->|Hki]; [|by destruct (Hoth _ _ Hk Hki) as [E|[z E]]].
      rewrite Ht in Hk. simplify_eq. destruct Hcase as (-> & -> & _ & ->).
      apply (inv_won _ _ i at_end v); [by apply list_lookup_insert_eq|done|by rewrite length_insert|by apply others_same|done|done].
    + destruct t; [done|by destruct Hcase as (_ & _ & -> & _)|by destruct Hcase as (_ & -> & _)|].
      destruct u; [by destruct (Hu eq_refl)|]. by apply (inv_won _ _ i at_end v).
    + destruct t; [done|by destruct Hcase as (_ & _ & _ & ? & _)|by destruct Hcase as (_ & _ & ? & _)|].
      destruct (decide (k = i)) as [->|Hki]; [by simplify_eq|]. destruct (Hoth _ _ Hk Hki) as [->|[z ->]]; [done|].
      apply (inv_won _ _ i at_end v); eauto.
Qed.

Lemma awaiter_reachable vs a : rtc awaiter_step (only_resume vs) a -> awaiter_inv vs a.
Proof.
  intros Hr. pose proof (awaiter_inv_init vs) as H. induction Hr; [done|]. eauto using awaiter_inv_step.
Qed.

(** C37. A coroutine that waits on an [Awaiter<T>] (with a result) is resumed at most once however
    many threads call [resume] and however they interleave; it then reads the value of one of them;
    and when all threads are through, it has been resumed.  The awaiter dies with the [co_await]: the
    thread that resumed the coroutine does not use it afterwards, and a destroyed awaiter is used only
    by a call of [resume] that had not come to its compare-exchange before the awaiter was gone. *)
Theorem awaiter_resumed_once vs a :
  vs <> [] -> rtc awaiter_step (only_resume vs) a ->
  (read a = [] \/ exists v, (v ∈ vs) /\ read a = [Some (R_value v)]) /\
  (Forall (eq at_end) (resumers a) -> read a <> []) /\
  (gone a = true -> Forall (fun t => t = at_end \/ exists w, t = at_resume w) (resumers a)) /\
  (undefined a = true -> gone a = true /\ exists i w, resumers a !! i = Some (at_resume w)).
Proof.
  intros Hne Hr. apply awaiter_reachable in Hr. destruct Hr as [ts Hall Hlen|ts i t v res log g u Ht Hv Hlen Hoth Hcase Hu]; cbn.
  - split_and!; [by left| |done|done]. intros Hend. destruct vs as [|v vs]; [done|]. destruct ts as [|t ts]; [done|].
    inversion_clear Hall as [|? ? (w & E & _)]. inversion_clear Hend. congruence.
  - split_and!; [| | |done].
    + destruct t; [done|..]; destruct_and! Hcase; subst; [by left|by left|right; eauto].
    + intros Hend. pose proof (proj1 (Forall_lookup _ _) Hend _ _ Ht) as <-. destruct Hcase as (_ & ->). done.
    + intros ->. apply Forall_lookup. intros j w Hj. destruct (decide (j = i)) as [->|Hji]; [|by eapply Hoth].
      rewrite Ht in Hj. injection Hj as <-. destruct t; [done|..]; [destruct_and! Hcase; done|destruct_and! Hcase; done|by left].
Qed.

(** Thread 1 resumes the coroutine with 8, which goes on; thread 0 comes late. *)
Lemma awaiter_resumed_once_witness :
  exists a, rtc awaiter_step (only_resume [7; 8]) a /\ gone a = true /\ undefined a = true /\
    (read a = [] \/ exists v, (v ∈ [7; 8]) /\ read a = [Some (R_value v)]) /\
    exists i w, resumers a !! i = Some (at_resume w).
Proof.
  assert (Hr : rtc awaiter_step (only_resume [7; 8])
    (mk_awaiter true (Some (R_value 8)) false [Some (R_value 8)] [at_resume 7; at_end] true true)).
  { eapply rtc_l; [eapply (step_exchange _ 1%nat 8); reflexivity|]. cbn.
    eapply rtc_l; [eapply (step_store _ 1%nat); reflexivity|]. cbn.
    eapply rtc_l; [eapply (step_handle _ 1%nat); reflexivity|]. cbn.
    eapply rtc_l; [eapply step_gone; [discriminate|reflexivity]|]. cbn.
    eapply rtc_l; [eapply (step_undefined _ 0%nat); [reflexivity|reflexivity|reflexivity|discriminate]|]. cbn. apply rtc_refl. }
  eexists. split; [exact Hr|]. destruct (awaiter_resumed_once [7; 8] _ ltac:(discriminate) Hr) as (H1 & _ & _ & H2).
  split; [reflexivity|]. split; [reflexivity|]. split; [exact H1|]. apply H2. reflexivity.
Defined.

(** ** [Awaiter<void>] *)

(** [resume] stores the result and then dispatches the resumption, without a
    compare-exchange: the steps of [at_store]. *)
Definition resume_void : resumer := at_store (R_value 0).

(** Two calls of [resume] on a [void] awaiter resume the coroutine twice. *)
Theorem void_awaiter_resumed_twice :
  exists a, rtc awaiter_step (Awaiter_init [resume_void; resume_void]) a /\
    read a = [Some (R_value 0); Some (R_value 0)].
Proof.
  eexists. split.
  - eapply rtc_l; [eapply (step_store _ 0%nat); reflexivity|]. cbn.
    eapply rtc_l; [eapply (step_store _ 1%nat); reflexivity|]. cbn.
    eapply rtc_l; [eapply (step_handle _ 0%nat); reflexivity|]. cbn.
    eapply rtc_l; [eapply (step_handle _ 1%nat); reflexivity|]. cbn. apply rtc_refl.
  - done.
Qed.

(** ** [getResult] *)

(** What a thread that waits for the result sees next: the notification (which
    comes after the result was stored), or a spurious wake-up. *)
Inductive wake := notified (r : Result) | spurious.

Inductive got := Got_value (v : Z) | Got_exception (e : Z) | Got_bad_access.

Definition getOrThrow (r : Result) : got := match r with R_value v => Got_value v | R_exception _ e => Got_exception e end.

(** [m_completion.wait(lock)] without a predicate, then [m_result.value()]. *)
Definition getResult (p : TaskPromise) (w : wake) : got :=
  match CoroTask.m_result p with
  | Some r => getOrThrow r
  | None => match w with notified r => getOrThrow r | spurious => Got_bad_access end
  end.

(** [getResult] gives the result of the coroutine, unless the thread wakes up
    spuriously: then it throws [std::bad_optional_access]. *)
Theorem getResult_spec r before w :
  getResult (finish r (mk_promise None before)).2 w = getOrThrow r /\
  getResult (mk_promise None before) (notified r) = getOrThrow r /\
  getResult (mk_promise None before) spurious = Got_bad_access.
Proof.
  split_and!; [|done..]. unfold getResult. destruct r as [v|std e]; cbn [finish].
  - unfold return_value, notifyAllCbs. cbn. by destruct (notify before (R_value v)) as [calls [|]].
  - unfold unhandled_exception. destruct std; [|done]. unfold notifyAllCbs. cbn.
    by destruct (notify before (R_exception true e)) as [calls [|]].
Qed.
