(* ===== verification/CoroFrame.v ===== *)
(** * Who destroys a coroutine frame

    Models the ownership protocol of [sylar/coroutine/coro20/task.hpp]: the
    coroutine ends in [FinalAwaiter::await_ready], the [Task] in its destructor,
    on different threads; they agree through [PTStateSync] under its mutex.  A
    step is one section under the mutex, the suspension, or the destruction. *)

From stdpp Require Import relations.
From S2P Require Import Prelude.

Inductive CoroutineState := RUNNING | FINISHED.
Inductive TaskState := EXIST | DESTRUCTED.

(** Where the coroutine stands: in its body, past [await_ready] of the
    [FinalAwaiter] (with its answer), suspended at its end, or gone. *)
Inductive coro_pc := in_body | past_ready (destroy_self : bool) | suspended | gone.

(** The destructor of the [Task]: not yet run, about to destroy the frame, over. *)
Inductive dtor_pc := task_alive | dtor_destroys | dtor_over.

Record frame := mk_frame {
  coro_state : CoroutineState;
  task_state : TaskState;
  coro : coro_pc;
  dtor : dtor_pc;
  destroyed : nat;                      (* how often the frame was destroyed *)
}.

Definition frame_init : frame := mk_frame RUNNING EXIST in_body task_alive 0.

(** [handler.done()] *)
Definition is_done (f : frame) : bool := match coro f with suspended => true | _ => false end.

Inductive frame_step : frame -> frame -> Prop :=
  | step_await_ready f :                  (* FinalAwaiter::await_ready, under the mutex *)
      coro f = in_body ->
      frame_step f (mk_frame FINISHED (task_state f)
                      (past_ready (match task_state f with DESTRUCTED => true | EXIST => false end))
                      (dtor f) (destroyed f))
  | step_destroy_self f :                 (* ready: the frame is destroyed at the end *)
      coro f = past_ready true ->
      frame_step f (mk_frame (coro_state f) (task_state f) gone (dtor f) (S (destroyed f)))
  | step_suspend f :                      (* not ready: the coroutine suspends *)
      coro f = past_ready false ->
      frame_step f (mk_frame (coro_state f) (task_state f) suspended (dtor f) (destroyed f))
  | step_dtor f :                         (* the destructor of Task, under the mutex *)
      dtor f = task_alive ->
      frame_step f
        (if is_done f && match coro_state f with FINISHED => true | RUNNING => false end then
           mk_frame (coro_state f) (task_state f) (coro f) dtor_destroys (destroyed f)
         else mk_frame (coro_state f) DESTRUCTED (coro f) dtor_over (destroyed f))
  | step_dtor_destroy f :                 (* handler.destroy() *)
      dtor f = dtor_destroys ->
      frame_step f (mk_frame (coro_state f) (task_state f) gone dtor_over (S (destroyed f))).

(** The frames reachable: whether the destructor met the coroutine past
    [await_ready] but not yet suspended. *)
Inductive frame_inv : frame -> Prop :=
  | inv_running : frame_inv (mk_frame RUNNING EXIST in_body task_alive 0)
  | inv_orphan : frame_inv (mk_frame RUNNING DESTRUCTED in_body dtor_over 0)
  | inv_window : frame_inv (mk_frame FINISHED EXIST (past_ready false) task_alive 0)
  | inv_self : frame_inv (mk_frame FINISHED DESTRUCTED (past_ready true) dtor_over 0)
  | inv_self_gone : frame_inv (mk_frame FINISHED DESTRUCTED gone dtor_over 1)
  | inv_suspended : frame_inv (mk_frame FINISHED EXIST suspended task_alive 0)
  | inv_destroying : frame_inv (mk_frame FINISHED EXIST suspended dtor_destroys 0)
  | inv_destroyed : frame_inv (mk_frame FINISHED EXIST gone dtor_over 1)
  | inv_late : frame_inv (mk_frame FINISHED DESTRUCTED (past_ready false) dtor_over 0)
  | inv_leaked : frame_inv (mk_frame FINISHED DESTRUCTED suspended dtor_over 0).

Lemma frame_step_inv f f' : frame_inv f -> frame_step f f' -> frame_inv f'.
Proof. intros [] Hs; inversion Hs; simplify_eq/=; try done; constructor. Qed.

Lemma frame_reachable f : rtc frame_step frame_init f -> frame_inv f.
Proof.
  intros Hr. assert (H : frame_inv frame_init) by constructor. revert H.
  induction Hr; [done|]. eauto using frame_step_inv.
Qed.

(** The frame of a coroutine is never destroyed twice and never while the
    coroutine is still in its body or before it has suspended; when both the
    coroutine and its [Task] are done with it, it was destroyed exactly once
    -- except in one case: the [Task] died in the window between [await_ready]
    of the [FinalAwaiter] and the suspension.  Then nobody destroys it. *)
Theorem frame_destroyed_once f :
  rtc frame_step frame_init f ->
  (destroyed f <= 1)%nat /\
  (coro f = in_body \/ (exists b, coro f = past_ready b) -> destroyed f = 0%nat) /\
  (dtor f = dtor_over -> coro f = gone \/ coro f = suspended ->
   destroyed f = 1%nat \/ (coro f = suspended /\ task_state f = DESTRUCTED /\ destroyed f = 0%nat)).
Proof.
  intros Hr. destruct (frame_reachable f Hr); cbn; (split_and!; [lia|intros Hc|intros Hd Hc]);
    repeat match goal with H : _ \/ _ |- _ => destruct H | H : exists _, _ |- _ => destruct H end;
    try discriminate; auto.
Qed.

Definition leaked : frame := mk_frame FINISHED DESTRUCTED suspended dtor_over 0.

Lemma leak_reachable : rtc frame_step frame_init leaked.
Proof.
  eapply rtc_l; [by apply step_await_ready|]. cbn.
  eapply rtc_l; [by apply step_dtor|]. cbn.
  eapply rtc_l; [by apply step_suspend|]. cbn. apply rtc_refl.
Qed.

Lemma frame_destroyed_once_witness : (destroyed leaked <= 1)%nat.
Proof. apply (frame_destroyed_once leaked leak_reachable). Defined.

