(* ===== verification/TaskStore.v ===== *)
(** * Tasks, their frames and the tasks frames hold

    Models the life of the [Task] objects of [sylar/coroutine/coro20/task.hpp]: the
    constructors, the move operations and the destructor of [Task], the task a
    promise keeps for the coroutine it awaits ([await_transform]), the destructor of
    the promise, and the end of a coroutine in [FinalAwaiter].  Frames and [Task]
    objects are numbers into a store; the operations of a program and of the coroutines come
    in any order; the end of a coroutine is two of them, [await_ready] and the suspension
    ([CoroFrame] has the mutex at the end of one frame).  A [Task] and the promise of its
    frame refer to each other by address, so that the operations are undefined ([None])
    where they follow the address of a frame that was destroyed. *)

From stdpp Require Import relations.
From S2P Require Import Prelude CoroFrame.

(** [Task]: the handle and the pointer to the state inside the promise. *)
Record Task := MkTask { t_handler : option nat; t_state : option nat }.
Definition empty_task : Task := MkTask None None.

(** Where a coroutine stands: in its body (running or suspended), past [return_value] or
    [unhandled_exception], past [await_ready] of the [FinalAwaiter] (with its answer, whether the frame
    goes on to its destruction), suspended at its end. *)
Inductive phase := P_body | P_ended | P_ready (destroy_self : bool) | P_final.
#[global] Instance phase_eq_dec : EqDecision phase.
Proof. solve_decision. Defined.

Record coroutine := MkCoroutine {
  c_phase : phase;
  c_task : TaskState;
  c_child : option Task;                (* m_child_task_ptr *)
  c_missed : bool;                      (* the task went between await_ready and the suspension *)
}.

Record store := MkStore { frames : list (option coroutine); tasks : list Task }.

Definition frame_at (f : nat) (s : store) : option coroutine := frames s !! f ≫= id.
Definition set_frame (f : nat) (c : option coroutine) (s : store) : store := MkStore (<[f := c]> (frames s)) (tasks s).
Definition set_task (i : nat) (t : Task) (s : store) : store := MkStore (frames s) (<[i := t]> (tasks s)).

Definition with_child (t : option Task) (c : coroutine) : coroutine := MkCoroutine (c_phase c) (c_task c) t (c_missed c).

(** The task is gone: the coroutine is to destroy its frame. *)
Definition mark (c : coroutine) : coroutine :=
  MkCoroutine (c_phase c) DESTRUCTED (c_child c) (c_missed c || bool_decide (c_phase c = P_ready false)).

(** The destructor of [Task]: it destroys the frame of a coroutine that ended, with the
    task its promise holds, and otherwise leaves the frame to the coroutine. *)
Fixpoint drop_task (fuel : nat) (t : Task) (s : store) : option store :=
  match t_state t with
  | None => Some s
  | Some f =>
      c ← frame_at f s;
      match t_handler t, c_phase c with
      | Some h, P_final =>
          match fuel with
          | O => None
          | S fuel =>
              ch ← frame_at h s;
              let s := set_frame h None s in
              match c_child ch with
              | None => Some s
              | Some child => drop_task fuel child s
              end
          end
      | _, _ => Some (set_frame f (Some (mark c)) s)
      end
  end.

(** More frames than these are never destroyed. *)
Definition enough (s : store) : nat := length (frames s).

Definition dtorTask (t : Task) (s : store) : option store := drop_task (enough s) t s.

(** Destroying a frame destroys its promise, and with it the task it holds. *)
Definition destroy_frame (f : nat) (s : store) : option store :=
  c ← frame_at f s;
  let s := set_frame f None s in
  match c_child c with
  | None => Some s
  | Some child => dtorTask child s
  end.

(** ** The operations *)

(** Calling a coroutine: [get_return_object]. *)
Definition call_coroutine (s : store) : store :=
  let f := length (frames s) in
  MkStore (frames s ++ [Some (MkCoroutine P_body EXIST None false)]) (tasks s ++ [MkTask (Some f) (Some f)]).

Definition newTask (s : store) : store := MkStore (frames s) (tasks s ++ [empty_task]).

(** The move constructor, into a new object, and the move assignment. *)
Definition moveTask (i : nat) (s : store) : option store :=
  t ← tasks s !! i;
  Some (MkStore (frames s) (<[i := empty_task]> (tasks s) ++ [t])).

Definition assignTask (i j : nat) (s : store) : option store :=
  if decide (i = j) then Some s
  else
    ti ← tasks s !! i;
    tj ← tasks s !! j;
    s ← dtorTask ti s;
    Some (set_task j empty_task (set_task i tj s)).

(** The destructor of object [i]. *)
Definition destroyTask (i : nat) (s : store) : option store :=
  t ← tasks s !! i;
  dtorTask t (set_task i empty_task s).

(** [co_await] of task [i] in coroutine [f]: [await_transform] moves the task into the
    promise, which drops the one it held, and [TaskAwaiter::on_suspend] registers with
    the promise of the task. *)
Definition awaitTask (f i : nat) (s : store) : option store :=
  c ← frame_at f s;
  t ← tasks s !! i;
  let s := set_frame f (Some (with_child (Some t) c)) (set_task i empty_task s) in
  s ← match c_child c with None => Some s | Some old => dtorTask old s end;
  h ← t_handler t;
  _ ← frame_at h s;
  Some s.

(** The body ends, and the coroutine then reaches [final_suspend]. *)
Definition end_body (f : nat) (s : store) : option store :=
  c ← frame_at f s;
  Some (set_frame f (Some (MkCoroutine P_ended (c_task c) (c_child c) (c_missed c))) s).

(** [FinalAwaiter::await_ready], under the mutex. *)
Definition await_ready (f : nat) (s : store) : option store :=
  c ← frame_at f s;
  let destroy_self := match c_task c with DESTRUCTED => true | EXIST => false end in
  Some (set_frame f (Some (MkCoroutine (P_ready destroy_self) (c_task c) (c_child c) (c_missed c))) s).

(** Then the coroutine suspends, or its frame is destroyed. *)
Definition final_suspend (f : nat) (s : store) : option store :=
  c ← frame_at f s;
  match c_phase c with
  | P_ready true => destroy_frame f s
  | _ => Some (set_frame f (Some (MkCoroutine P_final (c_task c) (c_child c) (c_missed c))) s)
  end.

Inductive task_op :=
  | Op_call | Op_new | Op_move (i : nat) | Op_assign (i j : nat) | Op_destroy (i : nat)
  | Op_await (f i : nat) | Op_end (f : nat) | Op_ready (f : nat) | Op_final (f : nat).

Definition exec (op : task_op) (s : store) : option store :=
  match op with
  | Op_call => Some (call_coroutine s)
  | Op_new => Some (newTask s)
  | Op_move i => moveTask i s
  | Op_assign i j => assignTask i j s
  | Op_destroy i => destroyTask i s
  | Op_await f i => awaitTask f i s
  | Op_end f => end_body f s
  | Op_ready f => await_ready f s
  | Op_final f => final_suspend f s
  end.

(** What a program may do: use objects that exist, await a task that holds a coroutine
    and in a body; a body ends once. *)
Definition phase_of (f : nat) (s : store) : option phase := c_phase <$> frame_at f s.

Definition allowed (op : task_op) (s : store) : Prop :=
  match op with
  | Op_call | Op_new => True
  | Op_move i | Op_destroy i => (i < length (tasks s))%nat
  | Op_assign i j => (i < length (tasks s))%nat /\ (j < length (tasks s))%nat
  | Op_await f i => phase_of f s = Some P_body /\ exists t h, tasks s !! i = Some t /\ t_handler t = Some h
  | Op_end f => phase_of f s = Some P_body
  | Op_ready f => phase_of f s = Some P_ended
  | Op_final f => exists b, phase_of f s = Some (P_ready b)
  end.

Inductive task_reachable : store -> Prop :=
  | tr_init : task_reachable (MkStore [] [])
  | tr_step s op s' : task_reachable s -> allowed op s -> exec op s = Some s' -> task_reachable s'.

(** ** Counting the references *)

Definition tally {A} (w : A -> nat) (l : list A) : nat := foldr (fun x n => w x + n)%nat 0%nat l.

Lemma tally_app {A} (w : A -> nat) l k : tally w (l ++ k) = (tally w l + tally w k)%nat.
Proof. unfold tally. induction l as [|x l IH]; cbn [app foldr]; lia. Qed.

Lemma tally_insert {A} (w : A -> nat) l i x y :
  l !! i = Some x -> (tally w (<[i := y]> l) + w x = tally w l + w y)%nat.
Proof.
  intros H. rewrite (insert_take_drop l) by (by eapply lookup_lt_Some).
  rewrite <- (take_drop_middle l i x H) at 3. rewrite !tally_app. cbn [tally foldr]. fold (tally w (drop (S i) l)). lia.
Qed.

Definition ref (g : nat) (t : Task) : nat := if decide (t_state t = Some g) then 1%nat else 0%nat.
Definition child_ref (g : nat) (x : option coroutine) : nat :=
  match x ≫= c_child with Some t => ref g t | None => 0%nat end.

Definition refs (g : nat) (s : store) : nat := (tally (ref g) (tasks s) + tally (child_ref g) (frames s))%nat.

(** A frame that a task is responsible for. *)
Definition owned (x : option coroutine) : nat :=
  match x with Some c => match c_task c with EXIST => 1%nat | DESTRUCTED => 0%nat end | None => 0%nat end.

Definition owned_at (g : nat) (s : store) : nat := match frames s !! g with Some x => owned x | None => 0%nat end.

Definition live (x : option coroutine) : nat := match x with Some _ => 1%nat | None => 0%nat end.

Definition synced (t : Task) : Prop := t_handler t = t_state t.

Definition coroutine_ok (x : option coroutine) : Prop :=
  match x with
  | None => True
  | Some c =>
      match c_child c with Some t => synced t | None => True end /\
      match c_phase c with
      | P_body | P_ended => c_missed c = false
      | P_ready true => c_task c = DESTRUCTED /\ c_missed c = false
      | P_ready false | P_final => c_task c = DESTRUCTED -> c_missed c = true
      end
  end.

(** Every frame a task is responsible for has exactly one task, an object, the child of a
    coroutine or one of [ex], and no task refers to any other frame. *)
Record owners_ok (ex : list Task) (s : store) : Prop := {
  ok_refs g : (refs g s + tally (ref g) ex = owned_at g s)%nat;
  ok_tasks : Forall synced (tasks s ++ ex);
  ok_frames : Forall coroutine_ok (frames s);
}.

Lemma frame_at_lookup f s c : frame_at f s = Some c <-> frames s !! f = Some (Some c).
Proof.
  unfold frame_at. destruct (frames s !! f) as [x|]; cbn; [|done]. unfold id. split; [by intros -> | by intros [= ->]].
Qed.

Lemma owned_at_set g f x y s : frames s !! f = Some x ->
  owned_at g (set_frame f y s) = if decide (g = f) then owned y else owned_at g s.
Proof.
  intros H. unfold owned_at, set_frame. cbn [frames]. case_decide as E.
  - subst g. rewrite list_lookup_insert_eq by (by eapply lookup_lt_Some). done.
  - by rewrite list_lookup_insert_ne by done.
Qed.

Lemma refs_set_frame g f x y s : frames s !! f = Some x ->
  (refs g (set_frame f y s) + child_ref g x = refs g s + child_ref g y)%nat.
Proof.
  intros H. unfold refs, set_frame. cbn [frames tasks]. pose proof (tally_insert (child_ref g) _ _ _ y H). lia.
Qed.

Lemma refs_set_task g i t t' s : tasks s !! i = Some t ->
  (refs g (set_task i t' s) + ref g t = refs g s + ref g t')%nat.
Proof.
  intros H. unfold refs, set_task. cbn [frames tasks]. pose proof (tally_insert (ref g) _ _ _ t' H). lia.
Qed.

Lemma ref_self g t : t_state t = Some g -> ref g t = 1%nat.
Proof. intros H. unfold ref. by rewrite H, decide_True. Qed.
Lemma ref_other g f t : t_state t = Some f -> g <> f -> ref g t = 0%nat.
Proof. intros H Hne. unfold ref. rewrite decide_False; [done|]. rewrite H. by intros [= ->]. Qed.
Lemma ref_empty g : ref g empty_task = 0%nat.
Proof. done. Qed.

(** A task refers to a frame that exists. *)
Lemma owner_frame t ex s f : owners_ok (t :: ex) s -> t_state t = Some f ->
  exists c, frame_at f s = Some c /\ c_task c = EXIST.
Proof.
  intros H Ht. pose proof (ok_refs _ _ H f) as Hr. cbn [tally foldr] in Hr. rewrite (ref_self _ _ Ht) in Hr.
  unfold owned_at, owned in Hr. unfold frame_at. destruct (frames s !! f) as [[c|]|] eqn:E; try lia. cbn. exists c. split; [done|].
  destruct (c_task c); [done|lia].
Qed.

Lemma frame_ok ex s f c : owners_ok ex s -> frame_at f s = Some c -> coroutine_ok (Some c).
Proof. intros H Hf%frame_at_lookup. eapply Forall_lookup_1; [apply (ok_frames _ _ H)|done]. Qed.

(** What dropping a task leaves alone. *)
Record kept (s s' : store) : Prop := {
  kept_tasks : tasks s' = tasks s;
  kept_length : length (frames s') = length (frames s);
  kept_body f c : frame_at f s = Some c -> c_phase c <> P_final ->
    exists c', frame_at f s' = Some c' /\ c_phase c' = c_phase c /\ c_child c' = c_child c;
}.

Lemma kept_refl s : kept s s.
Proof. split; [done|done|]. intros f c H _. by exists c. Qed.

Lemma kept_trans s1 s2 s3 : kept s1 s2 -> kept s2 s3 -> kept s1 s3.
Proof.
  intros [T1 L1 B1] [T2 L2 B2]. split; [congruence|congruence|]. intros f c H Hp.
  destruct (B1 f c H Hp) as (c' & H' & Hp' & Hc'). destruct (B2 f c' H') as (c'' & H'' & Hp'' & Hc''); [congruence|].
  exists c''. split_and!; congruence.
Qed.

Lemma frame_at_set f g x s : (f < length (frames s))%nat ->
  frame_at g (set_frame f x s) = if decide (g = f) then x else frame_at g s.
Proof.
  intros H. unfold frame_at, set_frame. cbn [frames]. case_decide as E; [subst g; by rewrite list_lookup_insert_eq|].
  by rewrite list_lookup_insert_ne.
Qed.

(** Changing a frame: a final one may go, another one keeps its phase and child. *)
Lemma kept_set f c x s :
  frame_at f s = Some c ->
  (c_phase c <> P_final -> exists c', x = Some c' /\ c_phase c' = c_phase c /\ c_child c' = c_child c) ->
  kept s (set_frame f x s).
Proof.
  intros Hf Hx. assert (Hlt : (f < length (frames s))%nat) by (apply frame_at_lookup in Hf; by eapply lookup_lt_Some).
  split; [done|by cbn; rewrite length_insert|]. intros g d Hg Hp. rewrite frame_at_set by done. case_decide as E.
  - subst g. rewrite Hf in Hg. injection Hg as <-. by apply Hx.
  - by exists d.
Qed.

(** Marking the frame of a task that is gone. *)
Lemma mark_ok t ex s f c :
  owners_ok (t :: ex) s -> t_state t = Some f -> frame_at f s = Some c -> c_phase c <> P_final ->
  owners_ok ex (set_frame f (Some (mark c)) s).
Proof.
  intros H Ht Hf Hp. pose proof (frame_ok _ _ _ _ H Hf) as Hc. destruct (owner_frame _ _ _ _ H Ht) as (c2 & Hf2 & Hex).
  rewrite Hf in Hf2. injection Hf2 as <-. apply frame_at_lookup in Hf. destruct H as [H1 H2 H3]. split.
  - intros g. pose proof (refs_set_frame g _ _ (Some (mark c)) _ Hf) as Hr.
    unfold child_ref in Hr. cbn [mbind option_bind mark c_child] in Hr. rewrite (owned_at_set g _ _ _ _ Hf). specialize (H1 g). cbn [tally foldr] in H1.
    fold (tally (ref g) ex) in H1. case_decide as E; cbn [owned mark c_task].
    + subst g. rewrite (ref_self _ _ Ht) in H1. unfold owned_at in H1. rewrite Hf in H1. cbn in H1. rewrite Hex in H1. lia.
    + rewrite (ref_other _ _ _ Ht E) in H1. lia.
  - cbn [set_frame tasks]. apply Forall_app in H2 as [H2 [_ H2']%Forall_cons]. by apply Forall_app.
  - apply Forall_insert; [done|]. destruct Hc as [Hc1 Hc2]. split; [done|]. cbn [mark c_phase c_missed c_task].
    destruct (c_phase c) as [| |[]|]; [by rewrite Hc2|by rewrite Hc2|by destruct Hc2; congruence|by rewrite orb_true_r|done].
Qed.

(** Destroying a frame that ended: its own task becomes one to drop. *)
Lemma free_ok t ex s f c :
  owners_ok (t :: ex) s -> t_state t = Some f -> frame_at f s = Some c ->
  owners_ok (match c_child c with Some child => child :: ex | None => ex end) (set_frame f None s).
Proof.
  intros H Ht Hf. pose proof (frame_ok _ _ _ _ H Hf) as Hc. destruct (owner_frame _ _ _ _ H Ht) as (c2 & Hf2 & Hex).
  rewrite Hf in Hf2. injection Hf2 as <-. apply frame_at_lookup in Hf. destruct H as [H1 H2 H3]. split.
  - intros g. pose proof (refs_set_frame g _ _ None _ Hf) as Hr. unfold child_ref in Hr. cbn [mbind option_bind] in Hr.
    rewrite (owned_at_set g _ _ _ _ Hf). specialize (H1 g). cbn [tally foldr] in H1. fold (tally (ref g) ex) in H1.
    assert (Hx : (tally (ref g) (match c_child c with Some child => child :: ex | None => ex end)
              = match c_child c with Some child => ref g child | None => 0 end + tally (ref g) ex)%nat) by (by destruct (c_child c)).
    rewrite Hx. case_decide as E; cbn [owned].
    + subst g. rewrite (ref_self _ _ Ht) in H1. unfold owned_at in H1. rewrite Hf in H1. cbn in H1. rewrite Hex in H1. lia.
    + rewrite (ref_other _ _ _ Ht E) in H1. lia.
  - cbn [set_frame tasks]. apply Forall_app in H2 as [H2 [_ H2']%Forall_cons]. apply Forall_app. split; [done|].
    destruct Hc as [Hc _]. destruct (c_child c); [by constructor|done].
  - by apply Forall_insert.
Qed.

Lemma live_set f c s : frame_at f s = Some c -> (tally live (frames (set_frame f None s)) + 1 = tally live (frames s))%nat.
Proof. intros Hf%frame_at_lookup. pose proof (tally_insert live _ _ _ None Hf) as H. cbn [set_frame frames live] in *. lia. Qed.

Lemma empty_ok t ex s : owners_ok (t :: ex) s -> t_state t = None -> owners_ok ex s.
Proof.
  intros [H1 H2 H3] Ht. split; [|by apply Forall_app in H2 as [H2 [_ H2']%Forall_cons]; apply Forall_app|done].
  intros g. specialize (H1 g). change (tally (ref g) (t :: ex)) with (ref g t + tally (ref g) ex)%nat in H1.
  unfold ref at 1 in H1. rewrite Ht in H1. cbn [decide] in H1. by rewrite decide_False in H1.
Qed.

Lemma drop_ok fuel : forall t ex s,
  owners_ok (t :: ex) s -> (tally live (frames s) <= fuel)%nat ->
  exists s', drop_task fuel t s = Some s' /\ owners_ok ex s' /\ kept s s'.
Proof.
  induction fuel as [fuel IH] using lt_wf_ind. intros t ex s H Hl. destruct (t_state t) as [f|] eqn:Ht.
  2:{ exists s. split; [destruct fuel; cbn [drop_task]; by rewrite Ht|]. split; [by eapply empty_ok|apply kept_refl]. }
  destruct (owner_frame _ _ _ _ H Ht) as (c & Hf & Hex).
  assert (Hh : t_handler t = Some f).
  { pose proof (ok_tasks _ _ H) as Hs. apply Forall_app in Hs as [_ [Hs _]%Forall_cons]. by rewrite Hs. }
  destruct (decide (c_phase c = P_final)) as [Ep|Ep].
  - pose proof (free_ok _ _ _ _ _ H Ht Hf) as H'. pose proof (live_set _ _ _ Hf) as Hlv.
    assert (Hk : kept s (set_frame f None s)) by (eapply kept_set; [exact Hf|]; by rewrite Ep).
    destruct fuel as [|fuel]; [lia|]. cbn [drop_task]. rewrite Ht, Hf. cbn [mbind option_bind]. rewrite Hh, Ep, Hf. cbn [mbind option_bind].
    destruct (c_child c) as [child|]; [|by eexists].
    destruct (IH fuel ltac:(lia) child ex (set_frame f None s) H') as (s' & E & Ho & Hk'); [lia|].
    exists s'. split; [done|]. split; [done|]. by eapply kept_trans.
  - exists (set_frame f (Some (mark c)) s). split_and!.
    + destruct fuel; cbn [drop_task]; rewrite Ht, Hf; cbn [mbind option_bind]; rewrite Hh; by destruct (c_phase c).
    + by eapply mark_ok.
    + eapply kept_set; [exact Hf|]. intros _. eexists. by split.
Qed.

Lemma live_enough s : (tally live (frames s) <= enough s)%nat.
Proof.
  unfold enough, tally. induction (frames s) as [|[c|] l IH]; cbn [foldr live length]; lia.
Qed.

Lemma dtor_ok t ex s : owners_ok (t :: ex) s -> exists s', dtorTask t s = Some s' /\ owners_ok ex s' /\ kept s s'.
Proof. intros H. apply drop_ok; [done|apply live_enough]. Qed.

(** ** Every operation keeps the owners *)

Lemma tally_cons {A} (w : A -> nat) x l : tally w (x :: l) = (w x + tally w l)%nat.
Proof. done. Qed.

(** Moving a task out of an object, and into an empty one. *)
Lemma take_ok ex s i t : owners_ok ex s -> tasks s !! i = Some t -> owners_ok (t :: ex) (set_task i empty_task s).
Proof.
  intros [H1 H2 H3] Hi. apply Forall_app in H2 as [H2 H2']. split; [| |done].
  - intros g. specialize (H1 g). pose proof (refs_set_task g _ _ empty_task _ Hi) as Hr. rewrite ref_empty in Hr.
    rewrite tally_cons. unfold owned_at in *. cbn [set_task frames] in *. lia.
  - cbn [set_task tasks]. apply Forall_app. split; [by apply Forall_insert|]. constructor; [|done].
    by eapply Forall_lookup_1 in H2.
Qed.

Lemma put_ok ex s i t t0 : owners_ok (t :: ex) s -> tasks s !! i = Some t0 -> t_state t0 = None -> owners_ok ex (set_task i t s).
Proof.
  intros [H1 H2 H3] Hi Ht0. apply Forall_app in H2 as [H2 [Ht H2']%Forall_cons]. split; [| |done].
  - intros g. specialize (H1 g). pose proof (refs_set_task g _ _ t _ Hi) as Hr. rewrite tally_cons in H1.
    assert (ref g t0 = 0%nat) as E by (unfold ref; by rewrite decide_False by (by rewrite Ht0)).
    unfold owned_at in *. cbn [set_task frames] in *. lia.
  - cbn [set_task tasks]. apply Forall_app. split; [by apply Forall_insert|done].
Qed.

Lemma push_ok ex s t : owners_ok (t :: ex) s -> owners_ok ex (MkStore (frames s) (tasks s ++ [t])).
Proof.
  intros [H1 H2 H3]. apply Forall_app in H2 as [H2 [Ht H2']%Forall_cons]. split; [| |done].
  - intros g. specialize (H1 g). rewrite tally_cons in H1. unfold refs, owned_at in *. cbn [tasks frames].
    rewrite tally_app, tally_cons. change (tally (ref g) []) with 0%nat. lia.
  - cbn [tasks]. rewrite <- app_assoc. apply Forall_app. split; [done|by constructor].
Qed.

(** Changing a frame that stays: its phase, or the task it holds. *)
Lemma update_ok ex ex' s f c c' :
  owners_ok ex s -> frame_at f s = Some c -> c_task c' = c_task c -> coroutine_ok (Some c') ->
  (forall g, child_ref g (Some c') + tally (ref g) ex' = child_ref g (Some c) + tally (ref g) ex)%nat -> Forall synced ex' ->
  owners_ok ex' (set_frame f (Some c') s).
Proof.
  intros [H1 H2 H3] Hf%frame_at_lookup Ht Hc Hr Hs. apply Forall_app in H2 as [H2 H2']. split.
  - intros g. specialize (H1 g). specialize (Hr g). pose proof (refs_set_frame g _ _ (Some c') _ Hf).
    rewrite (owned_at_set g _ _ _ _ Hf). case_decide as E; [|lia].
    subst g. unfold owned_at in H1. rewrite Hf in H1. unfold owned in *. rewrite Ht. lia.
  - by apply Forall_app.
  - by apply Forall_insert.
Qed.

Lemma phase_frame f s p : phase_of f s = Some p -> exists c, frame_at f s = Some c /\ c_phase c = p.
Proof. unfold phase_of. destruct (frame_at f s) as [c|]; [|done]. cbn. intros [= <-]. by exists c. Qed.

Lemma call_ok s : owners_ok [] s -> owners_ok [] (call_coroutine s).
Proof.
  intros [H1 H2 H3]. rewrite app_nil_r in H2. split; [| |].
  - intros g. specialize (H1 g). unfold call_coroutine, refs, owned_at in *. cbn [tasks frames] in *. rewrite !tally_app, !tally_cons.
    change (child_ref g (Some (MkCoroutine P_body EXIST None false))) with 0%nat. change (tally (ref g) []) with 0%nat in *.
    change (tally (child_ref g) []) with 0%nat. unfold ref at 2. cbn [t_state].
    destruct (decide (g < length (frames s))%nat) as [Hlt|Hge].
    + rewrite lookup_app_l by done. rewrite decide_False by (intros [= <-]; lia). lia.
    + rewrite lookup_ge_None_2 in H1 by lia. rewrite lookup_app_r by lia. destruct (g - length (frames s))%nat as [|k] eqn:E.
      * rewrite decide_True by (f_equal; lia). cbn. lia.
      * rewrite decide_False by (intros [= <-]; lia). cbn. destruct k; cbn; lia.
  - rewrite app_nil_r. cbn [call_coroutine tasks]. apply Forall_app. split; [done|]. by constructor.
  - cbn [call_coroutine frames]. apply Forall_app. split; [done|]. by repeat constructor.
Qed.

Lemma new_ok s : owners_ok [] s -> owners_ok [] (newTask s).
Proof.
  intros [H1 H2 H3]. rewrite app_nil_r in H2. apply push_ok. split; [|by apply Forall_app; split; [|constructor]|done].
  intros g. specialize (H1 g). rewrite tally_cons, ref_empty. done.
Qed.

Lemma tally_perm {A} (w : A -> nat) l k : l ≡ₚ k -> tally w l = tally w k.
Proof. unfold tally. induction 1; cbn [foldr]; lia. Qed.

Lemma owners_perm ex ex' s : owners_ok ex s -> ex ≡ₚ ex' -> owners_ok ex' s.
Proof.
  intros [H1 H2 H3] E. split; [| |done].
  - intros g. by rewrite <- H1, (tally_perm _ _ _ E).
  - by rewrite <- E.
Qed.

(** The objects do not matter to a destructor. *)
Lemma drop_objects fuel : forall t s ts,
  drop_task fuel t (MkStore (frames s) ts) = (fun s' => MkStore (frames s') ts) <$> drop_task fuel t s.
Proof.
  induction fuel as [|fuel IH]; intros t s ts; cbn [drop_task]; unfold frame_at; cbn [frames].
  all: destruct (t_state t) as [f|]; [|done]; destruct (frames s !! f) as [[c|]|]; try done; cbn [mbind option_bind id];
    destruct (t_handler t) as [h|]; [|done]; destruct (c_phase c); try done.
  destruct (frames s !! h) as [[ch|]|]; try done. cbn [mbind option_bind id]. destruct (c_child ch); [|done].
  exact (IH t0 (set_frame h None s) ts).
Qed.

Lemma dtor_objects t s ts : dtorTask t (MkStore (frames s) ts) = (fun s' => MkStore (frames s') ts) <$> dtorTask t s.
Proof. apply drop_objects. Qed.

Lemma assign_ok s i j : owners_ok [] s -> allowed (Op_assign i j) s -> exists s', assignTask i j s = Some s' /\ owners_ok [] s'.
Proof.
  intros H [[ti Hi]%lookup_lt_is_Some_2 [tj Hj]%lookup_lt_is_Some_2]. unfold assignTask. case_decide as Ne; [by exists s|].
  rewrite Hi, Hj. cbn [mbind option_bind]. set (s2 := set_task j empty_task (set_task i empty_task s)).
  assert (H2 : owners_ok [ti; tj] s2).
  { eapply owners_perm; [|apply Permutation_swap]. apply take_ok; [by apply take_ok|]. cbn. by rewrite list_lookup_insert_ne. }
  destruct (dtor_ok _ _ _ H2) as (s3 & E3 & H3 & K3).
  replace (dtorTask ti s) with (dtorTask ti (MkStore (frames s2) (tasks s))) by (by destruct s). rewrite dtor_objects, E3. cbn [fmap option_fmap option_map mbind option_bind].
  eexists. split; [reflexivity|].
  assert (Hi3 : tasks s3 !! i = Some empty_task).
  { rewrite (kept_tasks _ _ K3). cbn. rewrite list_lookup_insert_ne by done. apply list_lookup_insert_eq. by eapply lookup_lt_Some. }
  pose proof (put_ok [] s3 i tj empty_task H3 Hi3 eq_refl) as H4.
  replace (set_task j _ _) with (set_task i tj s3); [done|]. unfold set_task. cbn [frames tasks]. f_equal.
  rewrite (kept_tasks _ _ K3). cbn [s2 set_task tasks]. rewrite (list_insert_insert_ne _ j i), list_insert_insert_eq by done. by rewrite list_insert_insert_ne.
Qed.

Lemma move_ok s i : owners_ok [] s -> allowed (Op_move i) s -> exists s', moveTask i s = Some s' /\ owners_ok [] s'.
Proof.
  intros H [t Hi]%lookup_lt_is_Some_2. unfold moveTask. rewrite Hi. eexists. split; [reflexivity|].
  exact (push_ok [] _ t (take_ok _ _ _ _ H Hi)).
Qed.

Lemma destroy_ok s i : owners_ok [] s -> allowed (Op_destroy i) s -> exists s', destroyTask i s = Some s' /\ owners_ok [] s'.
Proof.
  intros H [t Hi]%lookup_lt_is_Some_2. unfold destroyTask. rewrite Hi. cbn [mbind option_bind].
  destruct (dtor_ok _ _ _ (take_ok _ _ _ _ H Hi)) as (s' & E & H' & _). by exists s'.
Qed.

Lemma await_ok s f i : owners_ok [] s -> allowed (Op_await f i) s -> exists s', awaitTask f i s = Some s' /\ owners_ok [] s'.
Proof.
  intros H [(c & Hf & Hp)%phase_frame (t & h & Hi & Hh)]. unfold awaitTask. rewrite Hf, Hi. cbn [mbind option_bind].
  pose proof (take_ok _ _ _ _ H Hi) as H1. set (s1 := set_task i empty_task s) in *.
  assert (Hf1 : frame_at f s1 = Some c) by done. pose proof (frame_ok _ _ _ _ H Hf) as [Hc1 Hc2].
  assert (Ht : synced t) by (pose proof (ok_tasks _ _ H) as Hs; rewrite app_nil_r in Hs; by eapply Forall_lookup_1 in Hs).
  set (s2 := set_frame f (Some (with_child (Some t) c)) s1).
  assert (H2 : owners_ok (match c_child c with Some old => [old] | None => [] end) s2).
  { eapply update_ok; [exact H1|exact Hf1|done|split; [done|cbn; by rewrite Hp in Hc2 |- *]| |by destruct (c_child c); [constructor|]].
    intros g. unfold child_ref. cbn [mbind option_bind with_child c_child]. rewrite tally_cons.
    destruct (c_child c); rewrite ?tally_cons; lia. }
  assert (Hf2 : frame_at f s2 = Some (with_child (Some t) c)).
  { unfold s2. rewrite frame_at_set, decide_True; [done|done|]. apply frame_at_lookup in Hf1. by eapply lookup_lt_Some. }
  assert (H3 : exists s3, match c_child c with None => Some s2 | Some old => dtorTask old s2 end = Some s3 /\ owners_ok [] s3 /\ kept s2 s3).
  { destruct (c_child c); [by apply dtor_ok|]. exists s2. by split_and!; [| |apply kept_refl]. }
  destruct H3 as (s3 & -> & H3 & K3). cbn [mbind option_bind]. rewrite Hh. cbn [mbind option_bind].
  destruct (kept_body _ _ K3 f _ Hf2) as (c3 & Hf3 & _ & Hc3); [cbn; by rewrite Hp|].
  assert (Hown : exists ch, frame_at h s3 = Some ch).
  { pose proof (ok_refs _ _ H3 h) as Hr. apply frame_at_lookup in Hf3.
    pose proof (tally_insert (child_ref h) _ _ _ None Hf3) as Hti. unfold child_ref at 2 in Hti. cbn [mbind option_bind] in Hti.
    rewrite Hc3 in Hti. cbn [with_child c_child] in Hti. rewrite ref_self in Hti by (by rewrite <- Ht).
    unfold refs in Hr. change (tally (ref h) []) with 0%nat in Hr. change (child_ref h None) with 0%nat in Hti.
    unfold owned_at in Hr. unfold frame_at. destruct (frames s3 !! h) as [[ch|]|]; [by exists ch|cbn in Hr; lia|lia]. }
  destruct Hown as [ch ->]. cbn [mbind option_bind]. by exists s3.
Qed.

Lemma end_ok s f : owners_ok [] s -> allowed (Op_end f) s -> exists s', end_body f s = Some s' /\ owners_ok [] s'.
Proof.
  intros H (c & Hf & Hp)%phase_frame. unfold end_body. rewrite Hf. eexists. split; [reflexivity|].
  pose proof (frame_ok _ _ _ _ H Hf) as [Hc Hc2]. rewrite Hp in Hc2. by eapply update_ok.
Qed.

Lemma ready_ok s f : owners_ok [] s -> allowed (Op_ready f) s -> exists s', await_ready f s = Some s' /\ owners_ok [] s'.
Proof.
  intros H (c & Hf & Hp)%phase_frame. unfold await_ready. rewrite Hf. eexists. split; [reflexivity|].
  pose proof (frame_ok _ _ _ _ H Hf) as [Hc Hc2]. rewrite Hp in Hc2. eapply update_ok; [done|done|done| |done|done].
  split; [done|]. cbn. by destruct (c_task c).
Qed.

(** A frame whose task is gone is destroyed: the task it holds becomes one to drop. *)
Lemma free_self_ok s f c :
  owners_ok [] s -> frame_at f s = Some c -> c_task c = DESTRUCTED ->
  owners_ok (match c_child c with Some child => [child] | None => [] end) (set_frame f None s).
Proof.
  intros H Hf Et. pose proof (frame_ok _ _ _ _ H Hf) as [Hc _]. apply frame_at_lookup in Hf. destruct H as [H1 H2 H3]. split.
  - intros g. specialize (H1 g). change (tally (ref g) []) with 0%nat in H1. pose proof (refs_set_frame g _ _ None _ Hf) as Hr.
    unfold child_ref in Hr. cbn [mbind option_bind] in Hr. rewrite (owned_at_set g _ _ _ _ Hf).
    assert (Hx : tally (ref g) (match c_child c with Some child => [child] | None => [] end)
              = match c_child c with Some child => ref g child | None => 0%nat end).
    { destruct (c_child c); [|done]. rewrite tally_cons. change (tally (ref g) []) with 0%nat. lia. }
    rewrite Hx. case_decide as E; [|lia]. subst g. unfold owned_at in H1. rewrite Hf in H1. cbn [owned] in *. rewrite Et in H1. lia.
  - rewrite app_nil_r in H2. cbn [set_frame tasks]. apply Forall_app. split; [done|]. by destruct (c_child c); [constructor|].
  - by apply Forall_insert.
Qed.

Lemma final_ok s f : owners_ok [] s -> allowed (Op_final f) s -> exists s', final_suspend f s = Some s' /\ owners_ok [] s'.
Proof.
  intros H ([] & (c & Hf & Hp)%phase_frame); unfold final_suspend, destroy_frame; rewrite Hf; cbn [mbind option_bind]; rewrite Hp;
    pose proof (frame_ok _ _ _ _ H Hf) as [Hc Hc2]; rewrite Hp in Hc2.
  - destruct Hc2 as [Et _]. pose proof (free_self_ok _ _ _ H Hf Et) as H'.
    destruct (c_child c) as [child|]; [|by eexists]. destruct (dtor_ok _ _ _ H') as (s' & E & Hs' & _). by exists s'.
  - eexists. split; [reflexivity|]. by eapply update_ok.
Qed.

Lemma store_exec_ok s op : owners_ok [] s -> allowed op s -> exists s', exec op s = Some s' /\ owners_ok [] s'.
Proof.
  intros H Ha. destruct op.
  - eexists. split; [reflexivity|]. by apply call_ok.
  - eexists. split; [reflexivity|]. by apply new_ok.
  - by apply move_ok.
  - by apply assign_ok.
  - by apply destroy_ok.
  - by apply await_ok.
  - by apply end_ok.
  - by apply ready_ok.
  - by apply final_ok.
Qed.

Lemma reachable_owners s : task_reachable s -> owners_ok [] s.
Proof.
  induction 1 as [|s op s' _ IH Ha E]; [by split|]. destruct (store_exec_ok s op IH Ha) as (s2 & E2 & H2).
  rewrite E in E2. by injection E2 as ->.
Qed.

(** A frame a task is responsible for is referred to by an object or by a coroutine. *)
Lemma tally_pos {A} (w : A -> nat) l : (0 < tally w l)%nat -> exists i x, l !! i = Some x /\ (0 < w x)%nat.
Proof.
  unfold tally. induction l as [|x l IH]; cbn [foldr]; [lia|]. intros H. destruct (w x) eqn:E.
  - destruct IH as (i & y & Hi & Hy); [lia|]. by exists (S i), y.
  - exists 0%nat, x. split; [done|lia].
Qed.

Lemma owner_found s g c :
  owners_ok [] s -> frame_at g s = Some c -> c_task c = EXIST ->
  (exists i t, tasks s !! i = Some t /\ t_state t = Some g) \/
  exists f d t, frame_at f s = Some d /\ c_child d = Some t /\ t_state t = Some g.
Proof.
  intros H Hg%frame_at_lookup He. pose proof (ok_refs _ _ H g) as Hr. unfold owned_at, refs in Hr. rewrite Hg in Hr.
  change (tally (ref g) []) with 0%nat in Hr. cbn [owned] in Hr. rewrite He in Hr.
  assert (Hd : (0 < tally (ref g) (tasks s) \/ 0 < tally (child_ref g) (frames s))%nat) by lia.
  assert (Href : forall t, (0 < ref g t)%nat -> t_state t = Some g) by (intros t; unfold ref; case_decide; [done|lia]).
  destruct Hd as [(i & t & Hi & Ht)%tally_pos|(f & x & Hf & Hx)%tally_pos]; [left|right].
  - exists i, t. split; [done|]. by apply Href.
  - unfold child_ref in Hx. destruct x as [d|]; [|cbn in Hx; lia]. cbn [mbind option_bind] in Hx.
    destruct (c_child d) as [t|] eqn:Ed; [|lia]. exists f, d, t. split_and!; [by apply frame_at_lookup|done|by apply Href].
Qed.

(** * Results *)

(** C11. No operation on tasks ever uses a frame that was destroyed, and none is
    destroyed twice: whatever a program constructs, moves, assigns, destroys and awaits,
    and whenever the coroutines end, every task that holds a coroutine refers to a frame
    that exists, no two tasks refer to the same one, and the next operation is
    defined. *)
Theorem tasks_never_dangle s op :
  task_reachable s -> allowed op s ->
  (forall i t f, tasks s !! i = Some t -> t_state t = Some f ->
     t_handler t = Some f /\ (exists c, frame_at f s = Some c) /\
     forall j t', tasks s !! j = Some t' -> t_state t' = Some f -> j = i) /\
  exists s', exec op s = Some s'.
Proof.
  intros Hr Ha. pose proof (reachable_owners _ Hr) as H. split.
  - intros i t f Hi Ht. pose proof (take_ok _ _ _ _ H Hi) as H1. destruct (owner_frame _ _ _ _ H1 Ht) as (c & Hc & _).
    assert (Hs : synced t) by (pose proof (ok_tasks _ _ H) as Hs; rewrite app_nil_r in Hs; by eapply Forall_lookup_1 in Hs).
    split_and!; [by rewrite Hs|by exists c|]. intros j t' Hj Ht'. destruct (decide (j = i)) as [|Hne]; [done|]. exfalso.
    assert (Hj1 : tasks (set_task i empty_task s) !! j = Some t') by (cbn; by rewrite list_lookup_insert_ne).
    pose proof (ok_refs _ _ (take_ok _ _ _ _ H1 Hj1) f) as Hrf. rewrite !tally_cons, (ref_self _ _ Ht), (ref_self _ _ Ht') in Hrf.
    unfold owned_at, owned in Hrf. repeat case_match; lia.
  - destruct (store_exec_ok s op H Ha) as (s' & E & _). by exists s'.
Qed.

(** A parent that awaits a child, ends and is destroyed with it. *)
Definition ex_ops : list task_op :=
  [Op_call; Op_call; Op_await 0 1; Op_destroy 0; Op_end 1; Op_ready 1; Op_final 1; Op_end 0; Op_ready 0; Op_final 0].

Definition run_ops (ops : list task_op) (s : store) : option store := foldl (fun s op => s ≫= exec op) (Some s) ops.

Lemma ex_reachable :
  task_reachable (MkStore [Some (MkCoroutine (P_ready true) DESTRUCTED (Some (MkTask (Some 1%nat) (Some 1%nat))) false);
                           Some (MkCoroutine P_final EXIST None false)] [empty_task; empty_task]).
Proof.
  pose proof (tr_step _ Op_call _ tr_init I eq_refl) as H1. pose proof (tr_step _ Op_call _ H1 I eq_refl) as H2.
  pose proof (tr_step _ (Op_await 0 1) _ H2 ltac:(split; [reflexivity|by eexists _, _]) eq_refl) as H3.
  pose proof (tr_step _ (Op_destroy 0) _ H3 ltac:(cbn; lia) eq_refl) as H4.
  pose proof (tr_step _ (Op_end 1) _ H4 eq_refl eq_refl) as H5.
  pose proof (tr_step _ (Op_ready 1) _ H5 eq_refl eq_refl) as H6.
  pose proof (tr_step _ (Op_final 1) _ H6 (ex_intro _ false eq_refl) eq_refl) as H7.
  pose proof (tr_step _ (Op_end 0) _ H7 eq_refl eq_refl) as H8.
  exact (tr_step _ (Op_ready 0) _ H8 eq_refl eq_refl).
Qed.

Lemma tasks_never_dangle_witness :
  exists s', run_ops ex_ops (MkStore [] []) = Some s' /\ frames s' = [None; None].
Proof.
  destruct (tasks_never_dangle _ (Op_final 0) ex_reachable (ex_intro _ true eq_refl)) as [_ [s' E]]. exists s'. split; [exact E|].
  vm_compute in E. by injection E as <-.
Defined.

(** ** What is left at the end *)

(** The frames the task in the promise of frame [g] keeps, and the tasks in their promises. *)
Inductive held_by (s : store) (g : nat) : nat -> Prop :=
  | hb_self : held_by s g g
  | hb_child f c t h : held_by s g f -> frame_at f s = Some c -> c_child c = Some t -> t_state t = Some h -> held_by s g h.

(** C39. No frame is lost but by the race at the end of a coroutine.  Once every coroutine has ended
    and no task object holds one, every frame that is left is one whose [Task] was destroyed
    between [await_ready] of its [FinalAwaiter] and its suspension, or is held, through the tasks in
    promises, by such a frame; so no frame is left if no [Task] was destroyed there.  Provided that
    coroutines await coroutines called after themselves, as [co_await f()] does. *)
Theorem tasks_leave_no_frame s :
  task_reachable s -> (forall i t, tasks s !! i = Some t -> t_state t = None) ->
  (forall f p, phase_of f s = Some p -> p = P_final) ->
  (forall f c t g, frame_at f s = Some c -> c_child c = Some t -> t_state t = Some g -> (f < g)%nat) ->
  forall f c, frame_at f s = Some c ->
  exists g d, held_by s g f /\ frame_at g s = Some d /\ c_missed d = true.
Proof.
  intros Hr Hobj Hend Hord f. pose proof (reachable_owners _ Hr) as H.
  induction f as [f IH] using lt_wf_ind. intros c Hf.
  assert (Hp : c_phase c = P_final) by (apply (Hend f); unfold phase_of; by rewrite Hf).
  pose proof (frame_ok _ _ _ _ H Hf) as [_ Hex]. rewrite Hp in Hex.
  destruct (c_task c) eqn:Et; [|exists f, c; split_and!; [constructor|done|by apply Hex]].
  destruct (owner_found _ _ _ H Hf Et) as [(i & t & Hi & Ht)|(g & d & t & Hg & Hc & Ht)].
  - rewrite (Hobj _ _ Hi) in Ht. done.
  - destruct (IH g (Hord _ _ _ _ Hg Hc Ht) d Hg) as (g' & d' & Hh & Hg' & Hm).
    exists g', d'. split_and!; [|done|done]. by eapply hb_child.
Qed.

(** A parent that awaited a child, both at their ends; the task of the parent was destroyed between
    its [await_ready] and its suspension, and both frames are left. *)
Lemma tasks_leave_no_frame_witness :
  exists s, task_reachable s /\ (exists c, frame_at 1 s = Some c /\ c_missed c = false) /\
  exists g d, held_by s g 1 /\ frame_at g s = Some d /\ c_missed d = true.
Proof.
  set (s := MkStore [Some (MkCoroutine P_final DESTRUCTED (Some (MkTask (Some 1%nat) (Some 1%nat))) true);
                     Some (MkCoroutine P_final EXIST None false)] [empty_task; empty_task]).
  assert (Hr : task_reachable s).
  { pose proof (tr_step _ Op_call _ tr_init I eq_refl) as H1. pose proof (tr_step _ Op_call _ H1 I eq_refl) as H2.
    pose proof (tr_step _ (Op_await 0 1) _ H2 ltac:(split; [reflexivity|by eexists _, _]) eq_refl) as H3.
    pose proof (tr_step _ (Op_end 1) _ H3 eq_refl eq_refl) as H4.
    pose proof (tr_step _ (Op_ready 1) _ H4 eq_refl eq_refl) as H5.
    pose proof (tr_step _ (Op_final 1) _ H5 (ex_intro _ false eq_refl) eq_refl) as H6.
    pose proof (tr_step _ (Op_end 0) _ H6 eq_refl eq_refl) as H7.
    pose proof (tr_step _ (Op_ready 0) _ H7 eq_refl eq_refl) as H8.
    pose proof (tr_step _ (Op_destroy 0) _ H8 ltac:(cbn; lia) eq_refl) as H9.
    exact (tr_step _ (Op_final 0) _ H9 (ex_intro _ false eq_refl) eq_refl). }
  exists s. split; [exact Hr|]. split; [by eexists|].
  apply (tasks_leave_no_frame s Hr) with (MkCoroutine P_final EXIST None false).
  - intros [|[|i]] t E; cbn in E; by simplify_eq.
  - intros [|[|f]] p E; cbn in E; by simplify_eq.
  - intros [|[|f]] c t g E; cbn in E; simplify_eq; cbn; intros E1 E2; simplify_eq; cbn in E2; simplify_eq; lia.
  - reflexivity.
Defined.
