(* ===== verification/CoroCall.v ===== *)
(** * Awaiting as calling

    Models a program of coroutines on [sylar/coroutine/coro20/task.hpp]: a coroutine that is
    called runs at once ([InitialAwaiter], [initialExecute]) up to its first wait;
    [co_await] of its task registers the caller with [finally] ([TaskAwaiter]), which
    resumes it inside the call when the task is over, and from [notifyAllCbs] of the task
    otherwise.  The stack of the thread is explicit: an activation is a C++ function that has
    not returned, so that a coroutine that is resumed runs on top of the one that resumes
    it.  The executer is [BaseExecutor], which runs what it is given at once.

    Bodies are trees: a coroutine returns, throws a [std::exception], awaits a coroutine it
    calls, or awaits an operation ([Io]) that the environment answers.  Frames are kept; who
    destroys them is in [TaskStore]. *)

From stdpp Require Import relations.
From S2P Require Import Prelude CoroTask.

Inductive prog :=
  | Ret (v : Z)                         (* co_return v *)
  | Throw (e : Z)
  | Call (child : prog) (k : Z -> prog) (* co_await child() *)
  | Io (op : Z) (k : Z -> prog).        (* co_await of an awaiter *)

(** A frame: the rest of its body while it is suspended, the operation it waits for, the
    flag [m_is_resumed] of its awaiter, and the promise. *)
Record frame := MkFrame {
  susp : option (Z -> prog);
  io : option Z;
  is_resumed : bool;
  promise : TaskPromise;
  at_final : bool;
}.

Definition new_frame : frame := MkFrame None None false promise_init false.

Definition set_promise (p : TaskPromise) (fr : frame) : frame := MkFrame (susp fr) (io fr) (is_resumed fr) p (at_final fr).

(** [await_suspend]: a new awaiter. *)
Definition suspend (k : Z -> prog) (op : option Z) (fr : frame) : frame := MkFrame (Some k) op false (promise fr) (at_final fr).
Definition wake (fr : frame) : frame := MkFrame None None true (promise fr) (at_final fr).
Definition end_frame (fr : frame) : frame := MkFrame (susp fr) (io fr) (is_resumed fr) (promise fr) true.

(** What is on the stack of the thread. *)
Inductive activation :=
  | A_run (f : nat) (p : prog)                                (* the body of [f] *)
  | A_await (f g : nat) (k : Z -> prog)                       (* [f] awaits [g], which was called and has returned *)
  | A_notify (f : nat) (cs : list completion) (r : Result)    (* notifyAllCbs of [f] *)
  | A_final (f : nat).                                        (* final_suspend of [f] *)

Record machine := MkMachine { frames : list frame; stack : list activation }.

Abbreviation upd f g H := (alter (M := list frame) g f H).

(** [Awaiter::resume] with a value, called with [K] below. *)
Definition resume_awaiter (f : nat) (v : Z) (H : list frame) (K : list activation) : machine :=
  match H !! f with
  | Some fr =>
      if is_resumed fr then MkMachine H K
      else
        match susp fr with
        | Some k => if at_final fr then MkMachine (upd f wake H) K else MkMachine (upd f wake H) (A_run f (k v) :: K)
        | None => MkMachine H K
        end
  | None => MkMachine H K
  end.

(** Calling a completion: [finally] calls only for a value. *)
Definition call_completion (c : completion) (r : Result) (H : list frame) (K : list activation) : machine :=
  match (invoke c r).1 with
  | (parent, R_value v) :: _ => resume_awaiter parent v H K
  | _ => MkMachine H K
  end.

(** The end of a body: [return_value] and [unhandled_exception], up to their loops. *)
Definition end_body (f : nat) (r : Result) (H : list frame) (K : list activation) : machine :=
  MkMachine (upd f (fun fr => set_promise (mk_promise (Some r) (m_callbacks (promise fr))) fr) H)
    (A_notify f (from_option (fun fr => m_callbacks (promise fr)) [] (H !! f)) r :: A_final f :: K).

(** [TaskAwaiter::on_suspend]: [setCompleteCb] of the task. *)
Definition register (f g : nat) (H : list frame) (K : list activation) : machine :=
  match H !! g with
  | Some gr =>
      match m_result (promise gr) with
      | Some r => call_completion (C_finally f) r H K
      | None => MkMachine (upd g (fun gr => set_promise (mk_promise None (m_callbacks (promise gr) ++ [C_finally f])) gr) H) K
      end
  | None => MkMachine H K
  end.

Definition step (s : machine) : option machine :=
  let H := frames s in
  match stack s with
  | [] => None
  | A_run f (Ret v) :: K => Some (end_body f (R_value v) H K)
  | A_run f (Throw e) :: K => Some (end_body f (R_exception true e) H K)
  | A_run f (Call c k) :: K => Some (MkMachine (H ++ [new_frame]) (A_run (length H) c :: A_await f (length H) k :: K))
  | A_run f (Io op k) :: K => Some (MkMachine (upd f (suspend k (Some op)) H) K)
  | A_await f g k :: K => Some (register f g (upd f (suspend k None) H) K)
  | A_notify f [] r :: K => Some (MkMachine (upd f (fun fr => set_promise (mk_promise (m_result (promise fr)) []) fr) H) K)
  | A_notify f (c :: cs) r :: K => Some (call_completion c r H (A_notify f cs r :: K))
  | A_final f :: K => Some (MkMachine (upd f end_frame H) K)
  end.

(** The environment answers the operation of frame [l]. *)
Definition answer (l : nat) (a : Z) (s : machine) : machine := resume_awaiter l a (frames s) (stack s).

Definition start (p : prog) : machine := MkMachine [new_frame] [A_run 0 p].

(** A run: the thread works as long as it can, then the environment answers an operation;
    [tr] lists the operations and their answers. *)
Inductive drives : machine -> list (Z * Z) -> machine -> Prop :=
  | dr_rest s : stack s = [] -> drives s [] s
  | dr_step s s' tr s'' : step s = Some s' -> drives s' tr s'' -> drives s tr s''
  | dr_answer s l fr op a tr s' :
      stack s = [] -> frames s !! l = Some fr -> io fr = Some op ->
      drives (answer l a s) tr s' -> drives s ((op, a) :: tr) s'.

(** ** The same program in direct style *)

(** What awaiting makes of a computation: what it returns, or the next operation.  A
    computation whose callee threw hangs; [called] below is what calling would make of it. *)
Inductive direct :=
  | D_ret (v : Z)
  | D_throw (e : Z)
  | D_hang
  | D_io (op : Z) (k : Z -> direct).

Fixpoint dbind (d : direct) (k : Z -> direct) : direct :=
  match d with
  | D_ret v => k v
  | D_throw _ | D_hang => D_hang
  | D_io op t => D_io op (fun a => dbind (t a) k)
  end.

Fixpoint denote (p : prog) : direct :=
  match p with
  | Ret v => D_ret v
  | Throw e => D_throw e
  | Call c k => dbind (denote c) (fun v => denote (k v))
  | Io op k => D_io op (fun a => denote (k a))
  end.

(** The operations of a computation, answered as in [tr]. *)
Fixpoint follow (d : direct) (tr : list (Z * Z)) {struct tr} : option direct :=
  match tr with
  | [] => Some d
  | (op, a) :: tr => match d with D_io op' k => if decide (op = op') then follow (k a) tr else None | _ => None end
  end.

Definition result_of (f : nat) (s : machine) : option Result := fr ← frames s !! f; m_result (promise fr).

(** No frame waits for the environment; only frame [l] does, for [op]. *)
Definition no_io (H : list frame) : Prop := forall j fr, H !! j = Some fr -> io fr = None.
Definition only_io (l : nat) (op : Z) (H : list frame) : Prop :=
  (exists fr, H !! l = Some fr /\ io fr = Some op) /\ forall j fr, H !! j = Some fr -> j <> l -> io fr = None.

(** What a program that rests looks like from outside, by its direct style. *)
Definition agrees (d : direct) (s : machine) : Prop :=
  match d with
  | D_ret v => result_of 0 s = Some (R_value v) /\ no_io (frames s)
  | D_throw e => result_of 0 s = Some (R_exception true e) /\ no_io (frames s)
  | D_hang => result_of 0 s = None /\ no_io (frames s)
  | D_io op _ => result_of 0 s = None /\ exists l, only_io l op (frames s)
  end.

(** ** Frames that wait *)

Abbreviation isteps := (rtc (fun s s' => step s = Some s')).
Abbreviation res fr := (m_result (promise fr)).
Abbreviation cbs fr := (m_callbacks (promise fr)).

(** A coroutine that runs. *)
Definition running (fr : frame) : Prop := io fr = None /\ res fr = None /\ at_final fr = false.
(** A coroutine suspended with [k]. *)
Definition asleep (k : Z -> prog) (op : option Z) (fr : frame) : Prop :=
  susp fr = Some k /\ io fr = op /\ is_resumed fr = false /\ res fr = None /\ at_final fr = false.

(** Frame [f] waits, at the end of a chain of callees, for the operation [op] of frame
    [l]; answered with [a], it goes on like [t a]. *)
Inductive suspended (H : list frame) : nat -> nat -> Z -> (Z -> direct) -> Prop :=
  | su_io f fr k op :
      H !! f = Some fr -> asleep k (Some op) fr -> suspended H f f op (fun a => denote (k a))
  | su_await f fr g gr k l op t :
      H !! f = Some fr -> asleep k None fr -> (f < g)%nat -> H !! g = Some gr -> cbs gr = [C_finally f] ->
      suspended H g l op t -> suspended H f l op (fun a => dbind (t a) (fun v => denote (k v))).

Lemma suspended_frame H f l op t : suspended H f l op t -> exists fr, H !! f = Some fr /\ res fr = None.
Proof. intros [? fr k ? Hl (_ & _ & _ & E & _)|? fr ? ? ? ? ? ? Hl (_ & _ & _ & E & _)]; by exists fr. Qed.

(** Other frames, and the callbacks of [f] itself, do not matter. *)
Definition same_wait (f : nat) (H H' : list frame) : Prop :=
  forall j fr, (f <= j)%nat -> H !! j = Some fr -> res fr = None ->
    exists fr', H' !! j = Some fr' /\ susp fr' = susp fr /\ io fr' = io fr /\ is_resumed fr' = is_resumed fr /\
      res fr' = None /\ at_final fr' = at_final fr /\ (f < j -> cbs fr' = cbs fr)%nat.

Lemma suspended_same H H' f l op t : suspended H f l op t -> same_wait f H H' -> suspended H' f l op t.
Proof.
  induction 1 as [f fr k op Hf (E1 & E2 & E3 & E4 & E5)|f fr g gr k l op t Hf (E1 & E2 & E3 & E4 & E5) Hfg Hg Hc Hs IH]; intros Hsame.
  - destruct (Hsame f fr ltac:(lia) Hf E4) as (fr' & Hf' & D1 & D2 & D3 & D4 & D5 & _).
    eapply su_io; [exact Hf'|]. split_and!; congruence.
  - destruct (Hsame f fr ltac:(lia) Hf E4) as (fr' & Hf' & D1 & D2 & D3 & D4 & D5 & _).
    destruct (suspended_frame _ _ _ _ _ Hs) as (gr2 & Hg2 & Eg). rewrite Hg in Hg2. injection Hg2 as <-.
    destruct (Hsame g gr ltac:(lia) Hg Eg) as (gr' & Hg' & _ & _ & _ & _ & _ & D6).
    eapply su_await; [exact Hf'|split_and!; congruence|exact Hfg|exact Hg'|by rewrite D6|].
    apply IH. intros j fr0 Hj Hl Hr. destruct (Hsame j fr0 ltac:(lia) Hl Hr) as (fr2 & ? & ? & ? & ? & ? & ? & Hcb).
    exists fr2. split_and!; try done. intros. apply Hcb. lia.
Qed.

(** [H'] has the frames of [H] below [n], but for [f]. *)
Definition keeps (n f : nat) (H H' : list frame) : Prop := forall j, (j < n)%nat -> j <> f -> H' !! j = H !! j.

Lemma lookup_upd g f H j : upd f g H !! j = if decide (f = j) then g <$> H !! f else H !! j.
Proof. apply list_lookup_alter. Qed.
Lemma lookup_upd_eq g f H : upd f g H !! f = g <$> H !! f.
Proof. apply list_lookup_alter_eq. Qed.
Lemma lookup_upd_ne g f H j : f <> j -> upd f g H !! j = H !! j.
Proof. apply list_lookup_alter_ne. Qed.

Lemma no_io_upd g f H : no_io H -> (forall fr, io fr = None -> io (g fr) = None) -> no_io (upd f g H).
Proof.
  intros Hn Hg j fr. rewrite lookup_upd. case_decide as E; [|apply Hn]. destruct (H !! f) as [fr'|] eqn:El; [|done].
  intros [= <-]. by eapply Hg, Hn.
Qed.

(** What running the body of [f] comes to, with [L ++ K] below: the end of the body, or a
    wait, after which [L] and then [K] go on. *)
Definition comes_to (f : nat) (cs : list completion) (d : direct) (K : list activation) (s : machine) : Prop :=
  match d with
  | D_ret v => stack s = A_notify f cs (R_value v) :: A_final f :: K /\ no_io (frames s) /\
      exists fr, frames s !! f = Some fr /\ res fr = Some (R_value v)
  | D_throw e => stack s = A_notify f cs (R_exception true e) :: A_final f :: K /\ no_io (frames s) /\
      exists fr, frames s !! f = Some fr /\ res fr = Some (R_exception true e)
  | D_hang => stack s = K /\ no_io (frames s) /\ exists fr, frames s !! f = Some fr /\ res fr = None /\ cbs fr = cs
  | D_io op t => stack s = K /\ (exists l, suspended (frames s) f l op t /\ only_io l op (frames s)) /\
      exists fr, frames s !! f = Some fr /\ res fr = None /\ cbs fr = cs
  end.

Lemma end_body_comes f fr H K r :
  H !! f = Some fr -> running fr -> no_io H ->
  let s := end_body f r H K in
  stack s = A_notify f (cbs fr) r :: A_final f :: K /\ no_io (frames s) /\
  (exists fr', frames s !! f = Some fr' /\ res fr' = Some r) /\ keeps (length H) f H (frames s).
Proof.
  intros Hf Hr Hn. unfold end_body. rewrite Hf. cbn [from_option stack frames]. split_and!.
  - done.
  - by apply no_io_upd.
  - eexists. rewrite lookup_upd_eq, Hf. done.
  - intros j _ Hj. by rewrite lookup_upd_ne.
Qed.

Lemma keeps_trans n m f H H1 H2 : keeps n f H H1 -> (n <= m)%nat -> keeps m f H1 H2 -> keeps n f H H2.
Proof. intros H12 Hm H23 j Hj Hne. rewrite H23 by lia. by apply H12. Qed.

(** The finished callee [g] returns to [f], which awaits it. *)
Lemma callee_done H f fr g gr k r K :
  H !! f = Some fr -> H !! g = Some gr -> f <> g -> running fr -> res gr = Some r -> no_io H ->
  exists H', isteps (MkMachine H (A_notify g [] r :: A_final g :: A_await f g k :: K)) (call_completion (C_finally f) r H' K) /\
    length H' = length H /\ no_io H' /\ H' !! f = Some (suspend k None fr) /\ forall j, j <> f -> j <> g -> H' !! j = H !! j.
Proof.
  intros Hf Hg Hne Hr Hres Hn. eexists. split.
  - eapply rtc_l; [reflexivity|]. eapply rtc_l; [reflexivity|]. apply rtc_once. unfold step. cbn [stack frames].
    unfold register. rewrite lookup_upd_ne, !lookup_upd_eq, Hg by done. cbn [fmap option_fmap option_map].
    change (res (end_frame _)) with (res gr). rewrite Hres. reflexivity.
  - split_and!.
    + by rewrite !length_alter.
    + by do 3 (apply no_io_upd; [|done]).
    + rewrite lookup_upd_eq, !lookup_upd_ne, Hf by done. done.
    + intros j Hj1 Hj2. by rewrite !lookup_upd_ne by done.
Qed.

(** [f] registers with [g], which waits. *)
Definition with_caller (f : nat) (gr : frame) : frame := set_promise (mk_promise None (cbs gr ++ [C_finally f])) gr.

Lemma callee_waits H f fr g gr k K :
  H !! f = Some fr -> H !! g = Some gr -> f <> g -> running fr -> res gr = None -> cbs gr = [] ->
  exists H', isteps (MkMachine H (A_await f g k :: K)) (MkMachine H' K) /\ length H' = length H /\
    H' !! f = Some (suspend k None fr) /\ H' !! g = Some (with_caller f gr) /\ forall j, j <> f -> j <> g -> H' !! j = H !! j.
Proof.
  intros Hf Hg Hne Hr Hres Hc. eexists. split; [|split_and!].
  - apply rtc_once. unfold step. cbn [stack frames]. unfold register. rewrite lookup_upd_ne, Hg by done. rewrite Hres. reflexivity.
  - by rewrite !length_alter.
  - rewrite lookup_upd_ne, lookup_upd_eq, Hf by done. done.
  - rewrite lookup_upd_eq, lookup_upd_ne, Hg by done. done.
  - intros j Hj1 Hj2. by rewrite !lookup_upd_ne by done.
Qed.

Lemma only_io_registered H H' f fr g gr k l op :
  only_io l op H -> H !! f = Some fr -> io fr = None -> H !! g = Some gr -> H' !! f = Some (suspend k None fr) ->
  H' !! g = Some (with_caller f gr) -> (forall j, j <> f -> j <> g -> H' !! j = H !! j) -> only_io l op H'.
Proof.
  intros [(lr & Hl & El) Hon] Hf Ef Hg Hf' Hg' Hk. assert (Hlf : l <> f) by (intros ->; simplify_eq).
  split.
  - destruct (decide (l = g)) as [-> |]; [|exists lr; by rewrite Hk]. simplify_eq. by eexists.
  - intros j fr' Hj Hne. destruct (decide (j = f)) as [-> |]; [by simplify_eq|].
    destruct (decide (j = g)) as [-> |]; [|rewrite Hk in Hj by done; by eapply Hon].
    rewrite Hg' in Hj. injection Hj as <-. cbn. by eapply Hon.
Qed.

Definition is_value (d : direct) : bool := match d with D_ret _ => true | _ => false end.

(** [f] awaits a callee that did not return a value: it stays suspended. *)
Lemma await_no_value H st f fr g k K d :
  H !! f = Some fr -> running fr -> (f < g)%nat -> is_value d = false ->
  comes_to g [] d (A_await f g k :: K) (MkMachine H st) ->
  exists H', isteps (MkMachine H st) (MkMachine H' K) /\
    comes_to f (cbs fr) (dbind d (fun v => denote (k v))) K (MkMachine H' K) /\ length H' = length H /\
    forall j, j <> f -> j <> g -> H' !! j = H !! j.
Proof.
  intros Hf Hr Hfg Hd Hc. assert (Hne : f <> g) by lia. pose proof Hr as (R1 & R2 & R3).
  destruct d as [v|e| |op t]; try done; cbn [comes_to frames stack dbind] in Hc |- *.
  - destruct Hc as (-> & Hn & gr & Hg & Hres).
    destruct (callee_done H f fr g gr k _ K Hf Hg Hne Hr Hres Hn) as (H3 & Hs3 & Hl3 & Hn3 & Hf3 & Hk3).
    exists H3. split_and!; try done. by eexists.
  - destruct Hc as (-> & Hn & gr & Hg & Hres & Hcb).
    destruct (callee_waits H f fr g gr k K Hf Hg Hne Hr Hres Hcb) as (H3 & Hs3 & Hl3 & Hf3 & Hg3 & Hk3).
    exists H3. split_and!; try done; [|by eexists]. intros j fr' Hj. destruct (decide (j = f)) as [-> |]; [by simplify_eq|].
    destruct (decide (j = g)) as [-> |]; [|rewrite Hk3 in Hj by done; by eapply Hn].
    rewrite Hg3 in Hj. injection Hj as <-. cbn. by eapply Hn.
  - destruct Hc as (-> & (l & Hsu & Hon) & gr & Hg & Hres & Hcb).
    destruct (callee_waits H f fr g gr k K Hf Hg Hne Hr Hres Hcb) as (H3 & Hs3 & Hl3 & Hf3 & Hg3 & Hk3).
    exists H3. split_and!; try done; [|by eexists]. exists l. split.
    + eapply su_await; [exact Hf3|by split_and!|exact Hfg|exact Hg3|cbn; by rewrite Hcb|].
      eapply suspended_same; [exact Hsu|]. intros j fr0 Hj Hl0 Hr0. destruct (decide (j = g)) as [-> |].
      * rewrite Hg in Hl0. injection Hl0 as <-. exists (with_caller f gr). split_and!; try done. lia.
      * exists fr0. rewrite Hk3 by lia. done.
    + exact (only_io_registered H H3 f fr g gr k l op Hon Hf R1 Hg Hf3 Hg3 Hk3).
Qed.

(** The body of a coroutine does what its direct style says. *)
Lemma body_comes p : forall H f fr K,
  H !! f = Some fr -> running fr -> no_io H ->
  exists s, isteps (MkMachine H (A_run f p :: K)) s /\ comes_to f (cbs fr) (denote p) K s /\
    keeps (length H) f H (frames s) /\ (length H <= length (frames s))%nat.
Proof.
  induction p as [v|e|c IHc k IHk|op k IHk]; intros H f fr K Hf Hr Hn.
  - exists (end_body f (R_value v) H K). destruct (end_body_comes f fr H K (R_value v) Hf Hr Hn) as (H1 & H2 & H3 & H4).
    split; [by apply rtc_once|]. split_and!; [done|done|unfold end_body; cbn [frames]; by rewrite length_alter].
  - exists (end_body f (R_exception true e) H K). destruct (end_body_comes f fr H K (R_exception true e) Hf Hr Hn) as (H1 & H2 & H3 & H4).
    split; [by apply rtc_once|]. split_and!; [done|done|unfold end_body; cbn [frames]; by rewrite length_alter].
  - set (g := length H). set (H1 := H ++ [new_frame]).
    assert (Hfl : (f < g)%nat) by (by apply lookup_lt_Some in Hf).
    assert (Hf1 : H1 !! f = Some fr) by (unfold H1; by rewrite lookup_app_l).
    assert (Hg1 : H1 !! g = Some new_frame) by (unfold H1, g; by rewrite list_lookup_middle).
    assert (Hn1 : no_io H1).
    { intros j fr' Hj. unfold H1 in Hj. apply lookup_app_Some in Hj as [Hj|[_ Hj]]; [by eapply Hn|].
      apply list_lookup_singleton_Some in Hj as [_ <-]. done. }
    assert (Hl1 : length H1 = S g) by (unfold H1; rewrite length_app; cbn; unfold g; lia).
    destruct (IHc H1 g new_frame (A_await f g k :: K) Hg1 ltac:(done) Hn1) as ([H2 st2] & Hs2 & Hc2 & Hk2 & Hl2).
    cbn [frames] in Hk2, Hl2. assert (Hf2 : H2 !! f = Some fr) by (by rewrite Hk2 by lia).
    assert (Hk12 : keeps g f H H2).
    { intros j Hj Hne. rewrite Hk2 by lia. unfold H1. by rewrite lookup_app_l. }
    assert (Hs1 : isteps (MkMachine H (A_run f (Call c k) :: K)) (MkMachine H2 st2)) by (eapply rtc_l; [reflexivity|exact Hs2]).
    cbn [denote]. destruct (is_value (denote c)) eqn:Ed.
    + destruct (denote c) as [v| | |]; try done. cbn [comes_to frames stack] in Hc2. cbn [dbind].
      destruct Hc2 as (-> & Hn2 & gr & Hg2 & Hres).
      destruct (callee_done H2 f fr g gr k _ K Hf2 Hg2 ltac:(lia) Hr Hres Hn2) as (H3 & Hs3 & Hl3 & Hn3 & Hf3 & Hk3).
      unfold call_completion, resume_awaiter in Hs3. cbn [invoke fst] in Hs3. rewrite Hf3 in Hs3. cbn [is_resumed susp suspend at_final] in Hs3.
      destruct Hr as (R1 & R2 & R3). rewrite R3 in Hs3.
      destruct (IHk v (upd f wake H3) f (wake (suspend k None fr)) K) as (s4 & Hs4 & Hc4 & Hk4 & Hl4).
      { by rewrite lookup_upd_eq, Hf3. } { done. } { by apply no_io_upd. }
      exists s4. rewrite length_alter in Hl4, Hk4. split_and!; [by do 2 (etrans; [eassumption|])|exact Hc4| |lia].
      intros j Hj Hne. rewrite Hk4 by lia. rewrite lookup_upd_ne, Hk3 by lia. by apply Hk12.
    + destruct (await_no_value H2 st2 f fr g k K (denote c) Hf2 Hr Hfl Ed Hc2) as (H3 & Hs3 & Hc3 & Hl3 & Hk3).
      exists (MkMachine H3 K). split_and!; [by etrans|exact Hc3| |cbn [frames]; lia].
      intros j Hj Hne. cbn [frames]. rewrite Hk3 by lia. by apply Hk12.
  - exists (MkMachine (upd f (suspend k (Some op)) H) K). split; [by apply rtc_once|]. split_and!.
    + cbn. split; [done|]. destruct Hr as (R1 & R2 & R3). split.
      * exists f. split.
        -- eapply su_io; [by rewrite lookup_upd_eq, Hf|]. by split_and!.
        -- split; [eexists; by rewrite lookup_upd_eq, Hf|]. intros j fr' Hj Hne. rewrite lookup_upd_ne in Hj by done. by eapply Hn.
      * eexists. by rewrite lookup_upd_eq, Hf.
    + intros j _ Hne. cbn [frames]. by rewrite lookup_upd_ne.
    + cbn [frames]. by rewrite length_alter.
Qed.

(** ** Resuming *)

(** An activation that has nothing left to do but to return: of a finished frame. *)
Definition leftover (H : list frame) (a : activation) : Prop :=
  match a with
  | A_notify g [] _ | A_final g => exists gr, H !! g = Some gr /\ res gr <> None
  | _ => False
  end.

Lemma leftover_keeps H H' f fr a :
  leftover H a -> H !! f = Some fr -> res fr = None -> keeps (length H) f H H' -> leftover H' a.
Proof.
  intros Ha Hf Hr Hk.
  assert (Hg : forall g gr, H !! g = Some gr -> res gr <> None -> H' !! g = Some gr).
  { intros g gr Hg Hgr. rewrite Hk; [done|by apply lookup_lt_Some in Hg|]. intros ->. simplify_eq. }
  destruct a as [| |g [|] r|g]; try done; destruct Ha as (gr & Hl & Hres); exists gr; split; try done; by apply Hg.
Qed.

Lemma asleep_resumes k op fr f v H K :
  H !! f = Some fr -> asleep k op fr -> resume_awaiter f v H K = MkMachine (upd f wake H) (A_run f (k v) :: K).
Proof. intros Hf (E1 & _ & E3 & _ & E5). unfold resume_awaiter. by rewrite Hf, E3, E1, E5. Qed.

(** A frame that is asleep goes on with value [v]. *)
Lemma woken_comes H f fr k op v K :
  H !! f = Some fr -> asleep k op fr -> (forall j fr, H !! j = Some fr -> j <> f -> io fr = None) ->
  exists s, isteps (resume_awaiter f v H K) s /\ comes_to f (cbs fr) (denote (k v)) K s /\
    keeps (length H) f H (frames s) /\ (length H <= length (frames s))%nat.
Proof.
  intros Hf Ha Hn. rewrite (asleep_resumes k op fr) by done. destruct Ha as (_ & _ & _ & E4 & E5).
  destruct (body_comes (k v) (upd f wake H) f (wake fr) K) as (s & Hs & Hc & Hk & Hl).
  - by rewrite lookup_upd_eq, Hf.
  - done.
  - intros j fr'. rewrite lookup_upd. case_decide as E; [|intros Hj; by eapply Hn].
    destruct (H !! f); [|done]. by intros [= <-].
  - exists s. rewrite length_alter in Hk, Hl. split_and!; [done|done| |done].
    intros j Hj Hne. rewrite Hk, lookup_upd_ne by done. done.
Qed.

Lemma resumed_comes H f l op t :
  suspended H f l op t -> forall K a fr, only_io l op H -> H !! f = Some fr ->
  exists L s, isteps (resume_awaiter l a H K) s /\ comes_to f (cbs fr) (t a) (L ++ K) s /\
    Forall (leftover (frames s)) L /\ keeps f f H (frames s) /\ (length H <= length (frames s))%nat.
Proof.
  induction 1 as [f fr k op Hf Ha|f fr g gr k l op t Hf Ha Hfg Hg Hc Hs IH]; intros K a fr0 Hon Hf0; rewrite Hf in Hf0; injection Hf0 as <-.
  - destruct (woken_comes H f fr k (Some op) a K Hf Ha (proj2 Hon)) as (s & Hs & Hc & Hk & Hl).
    exists [], s. split_and!; try done. intros j Hj Hne. apply Hk; [|done]. apply lookup_lt_Some in Hf. lia.
  - destruct (IH K a gr Hon Hg) as (L & [H1 st1] & Hs1 & Hc1 & HL & Hk1 & Hl1). cbn [frames] in *. clear IH. rewrite Hc in Hc1.
    assert (Hf1 : H1 !! f = Some fr) by (by rewrite Hk1 by lia).
    assert (Hkf : keeps f f H H1) by (intros j Hj Hne; apply Hk1; lia).
    pose proof Ha as (_ & _ & _ & E4 & _).
    destruct (t a) as [v|e| |op' t']; cbn [comes_to frames stack dbind] in Hc1 |- *.
    + destruct Hc1 as (-> & Hn1 & gr1 & Hg1 & Hr1). set (L' := A_notify g [] (R_value v) :: A_final g :: L).
      destruct (woken_comes H1 f fr k None v (L' ++ K) Hf1 Ha ltac:(intros j fr' Hj _; by eapply Hn1)) as (s & Hs2 & Hc2 & Hk2 & Hl2).
      exists L', s. split_and!; [|exact Hc2| | |lia].
      * etrans; [exact Hs1|]. eapply rtc_l; [reflexivity|exact Hs2].
      * assert (HL1 : Forall (leftover H1) L') by (unfold L'; constructor; [by exists gr1; rewrite Hr1|constructor; [by exists gr1; rewrite Hr1|done]]).
        eapply Forall_impl; [exact HL1|]. intros x Hx. by eapply leftover_keeps.
      * intros j Hj Hne. rewrite Hk2; [by apply Hkf| |done]. apply lookup_lt_Some in Hf1. lia.
    + destruct Hc1 as (-> & Hn1 & gr1 & Hg1 & Hr1). set (L' := A_notify g [] (R_exception true e) :: A_final g :: L).
      exists L', (MkMachine H1 (L' ++ K)). split_and!; [|done|done|by exists fr| |done|cbn [frames]; lia].
      * etrans; [exact Hs1|]. by apply rtc_once.
      * unfold L'; constructor; [by exists gr1; rewrite Hr1|constructor; [by exists gr1; rewrite Hr1|done]].
    + destruct Hc1 as (-> & Hn1 & _). exists L, (MkMachine H1 (L ++ K)). split_and!; try done. by exists fr.
    + destruct Hc1 as (-> & (l' & Hs' & Hon') & gr1 & Hg1 & Hr1 & Hcb1). exists L, (MkMachine H1 (L ++ K)).
      split_and!; try done; [|by exists fr]. exists l'. split; [|done]. by eapply su_await.
Qed.

(** ** Coming to rest *)

(** Frames that have no result yet are as they were. *)
Definition settled (H H' : list frame) : Prop :=
  forall j, fmap io (H' !! j) = fmap io (H !! j) /\ fmap (fun fr => res fr) (H' !! j) = fmap (fun fr => res fr) (H !! j) /\
    forall fr, H !! j = Some fr -> res fr = None -> H' !! j = Some fr.

Lemma settled_trans H1 H2 H3 : settled H1 H2 -> settled H2 H3 -> settled H1 H3.
Proof.
  intros H12 H23 j. destruct (H12 j) as (A1 & A2 & A3), (H23 j) as (B1 & B2 & B3). split_and!; [congruence|congruence|].
  intros fr Hf Hr. apply B3; [by apply A3|done].
Qed.

Lemma settled_upd H g gr h :
  H !! g = Some gr -> res gr <> None -> io (h gr) = io gr -> res (h gr) = res gr -> settled H (upd g h H).
Proof.
  intros Hg Hr Hio Hres j. rewrite lookup_upd. case_decide as E; [subst j|done].
  rewrite Hg. cbn. split_and!; [congruence|congruence|]. intros fr [= <-] Hn. done.
Qed.

Lemma leftover_settled H H' a : settled H H' -> leftover H a -> leftover H' a.
Proof.
  intros Hs Ha. assert (Hg : forall g gr, H !! g = Some gr -> res gr <> None -> exists gr', H' !! g = Some gr' /\ res gr' <> None).
  { intros g gr Hg Hr. destruct (Hs g) as (_ & E & _). rewrite Hg in E. destruct (H' !! g) as [gr'|]; [|done].
    exists gr'. split; [done|]. cbn in E. congruence. }
  destruct a as [| |g [|] r|g]; try done; destruct Ha as (gr & Hl & Hres); by eapply Hg.
Qed.

Lemma leftovers_return L : forall H, Forall (leftover H) L -> exists H', isteps (MkMachine H L) (MkMachine H' []) /\ settled H H'.
Proof.
  induction L as [|x L IH]; intros H HL; [by exists H|]. apply Forall_cons in HL as [Hx HL].
  assert (Hstep : exists H1, step (MkMachine H (x :: L)) = Some (MkMachine H1 L) /\ settled H H1).
  { destruct x as [| |g [|] r|g]; try done; destruct Hx as (gr & Hg & Hr); eexists; (split; [reflexivity|]); by eapply settled_upd. }
  destruct Hstep as (H1 & Hs & Hset). destruct (IH H1) as (H2 & Hs2 & Hset2).
  { eapply Forall_impl; [exact HL|]. intros y. by apply leftover_settled. }
  exists H2. split; [by eapply rtc_l|by eapply settled_trans].
Qed.

Lemma settled_no_io H H' : settled H H' -> no_io H -> no_io H'.
Proof.
  intros Hs Hn j fr Hj. destruct (Hs j) as (E & _). rewrite Hj in E. destruct (H !! j) as [fr0|] eqn:E0; [|done].
  cbn in E. injection E as ->. by eapply Hn.
Qed.

Lemma settled_only_io l op H H' : settled H H' -> only_io l op H -> only_io l op H'.
Proof.
  intros Hs [(lr & Hl & El) Hon]. split.
  - destruct (Hs l) as (E & _). rewrite Hl in E. destruct (H' !! l) as [fr'|]; [|done]. cbn in E. exists fr'. split; [done|]. congruence.
  - intros j fr Hj Hne. destruct (Hs j) as (E & _). rewrite Hj in E. destruct (H !! j) as [fr0|] eqn:E0; [|done].
    cbn in E. injection E as ->. by eapply Hon.
Qed.

Lemma settled_suspended H H' f l op t : settled H H' -> suspended H f l op t -> suspended H' f l op t.
Proof.
  intros Hs Hsu. eapply suspended_same; [exact Hsu|]. intros j fr _ Hj Hr. exists fr. destruct (Hs j) as (_ & _ & E).
  by rewrite (E fr Hj Hr).
Qed.

(** The thread rests, and the program goes on like [d]. *)
Definition rests (d : direct) (s : machine) : Prop := comes_to 0 [] d [] s /\ stack s = [] \/
  match d with
  | D_ret v => stack s = [] /\ result_of 0 s = Some (R_value v) /\ no_io (frames s)
  | D_throw e => stack s = [] /\ result_of 0 s = Some (R_exception true e) /\ no_io (frames s)
  | _ => False
  end.

Lemma rests_agrees d s : rests d s -> stack s = [] /\ agrees d s.
Proof.
  unfold rests, agrees, result_of. intros [[Hc Hs]|Hc]; split; try done; destruct d as [v|e| |op t]; cbn [comes_to] in Hc; try done.
  - by destruct Hc as [E _]; rewrite Hs in E.
  - by destruct Hc as [E _]; rewrite Hs in E.
  - destruct Hc as (_ & Hn & fr & Hf & Hr & _). by rewrite Hf.
  - destruct Hc as (_ & (l & _ & Hon) & fr & Hf & Hr & _). rewrite Hf. split; [done|by exists l].
  - tauto.
  - tauto.
  - tauto.
  - tauto.
Qed.

(** Whatever a body comes to, the thread comes to rest. *)
Lemma comes_to_rest d L s :
  comes_to 0 [] d L s -> Forall (leftover (frames s)) L -> exists s', isteps s s' /\ rests d s'.
Proof.
  destruct s as [H st]. intros Hc HL. cbn [frames] in HL.
  assert (Hall : Forall (leftover H) st).
  { destruct d as [v|e| |op t]; cbn [comes_to stack frames] in Hc; destruct Hc as (-> & Hc); try done;
      destruct Hc as (_ & fr & Hf & Hr); (constructor; [exists fr; by rewrite Hr|constructor; [exists fr; by rewrite Hr|done]]). }
  destruct (leftovers_return st H Hall) as (H' & Hs & Hset). exists (MkMachine H' []). split; [done|].
  destruct (Hset 0%nat) as (_ & Hr0 & H0). unfold rests.
  destruct d as [v|e| |op t]; cbn [comes_to stack frames] in Hc |- *.
  - right. destruct Hc as (_ & Hn & fr & Hf & Hr). split_and!; [done| |by eapply settled_no_io].
    unfold result_of. cbn [frames]. rewrite Hf in Hr0. destruct (H' !! 0%nat); [|done]. cbn in *. congruence.
  - right. destruct Hc as (_ & Hn & fr & Hf & Hr). split_and!; [done| |by eapply settled_no_io].
    unfold result_of. cbn [frames]. rewrite Hf in Hr0. destruct (H' !! 0%nat); [|done]. cbn in *. congruence.
  - left. destruct Hc as (_ & Hn & fr & Hf & Hr & Hcb). split; [|done]. split_and!; [done|by eapply settled_no_io|].
    exists fr. by rewrite (H0 fr Hf Hr).
  - left. destruct Hc as (_ & (l & Hsu & Hon) & fr & Hf & Hr & Hcb). split; [|done]. split_and!; [done| |].
    + exists l. split; [by eapply settled_suspended|by eapply settled_only_io].
    + exists fr. by rewrite (H0 fr Hf Hr).
Qed.

Lemma start_rests p : exists s, isteps (start p) s /\ rests (denote p) s.
Proof.
  destruct (body_comes p [new_frame] 0 new_frame []) as (s1 & Hs1 & Hc & _); [done|done| |].
  { intros j fr Hj. by apply list_lookup_singleton_Some in Hj as [_ <-]. }
  destruct (comes_to_rest _ [] s1 Hc) as (s & Hs & Hr); [done|]. exists s. split; [by etrans|done].
Qed.

(** Any operation that can be answered is the one the direct style waits for. *)
Lemma answer_rests d s l fr op a :
  rests d s -> frames s !! l = Some fr -> io fr = Some op ->
  exists t, d = D_io op t /\ exists s', isteps (answer l a s) s' /\ rests (t a) s'.
Proof.
  intros Hr Hl Hio. destruct Hr as [[Hc Hst]|Hc].
  2: { destruct d; try done; destruct Hc as (_ & _ & Hn); specialize (Hn l fr Hl); congruence. }
  destruct d as [v|e| |op' t]; cbn [comes_to] in Hc.
  - destruct Hc as (_ & Hn & _). specialize (Hn l fr Hl). congruence.
  - destruct Hc as (_ & Hn & _). specialize (Hn l fr Hl). congruence.
  - destruct Hc as (_ & Hn & _). specialize (Hn l fr Hl). congruence.
  - destruct Hc as (_ & (l' & Hsu & Hon) & fr0 & Hf0 & _ & Hcb).
    assert (l = l') as -> by (destruct (decide (l = l')); [done|]; destruct Hon as [_ Hon]; specialize (Hon l fr Hl ltac:(done)); congruence).
    assert (op' = op) as -> by (destruct Hon as [(lr & Hl' & El) _]; congruence).
    exists t. split; [done|]. unfold answer. rewrite Hst.
    destruct (resumed_comes _ _ _ _ _ Hsu [] a fr0 Hon Hf0) as (L & s1 & Hs1 & Hc1 & HL & _). rewrite app_nil_r, Hcb in Hc1.
    destruct (comes_to_rest _ L s1 Hc1 HL) as (s2 & Hs2 & Hr2). exists s2. split; [by etrans|done].
Qed.

Lemma drives_from s s' tr s'' : isteps s s' -> stack s' = [] -> drives s tr s'' -> drives s' tr s''.
Proof.
  intros Hs Hst. induction Hs as [s|s s1 s' H1 _ IH]; [done|]. intros Hd.
  assert (Hne : stack s <> []) by (intros E; unfold step in H1; by rewrite E in H1).
  destruct Hd as [s E|s s2 tr s'' H2 Hd|s l fr op a tr s'' E]; [done| |done]. apply IH; [done|]. congruence.
Qed.

Lemma drives_steps s s' tr s'' : isteps s s' -> drives s' tr s'' -> drives s tr s''.
Proof. induction 1 as [|s s1 s' H1 _ IH]; [done|]. intros Hd. eapply dr_step; [exact H1|by apply IH]. Qed.

Lemma rests_drives tr : forall d s s', rests d s -> drives s tr s' -> exists d', follow d tr = Some d' /\ agrees d' s'.
Proof.
  induction tr as [|[op a] tr IH]; intros d s s' Hr Hd; pose proof (rests_agrees d s Hr) as [Hst Hag].
  - exists d. split; [done|]. inversion Hd as [? E|? ? ? ? E|]; subst; [done|]. unfold step in E. by rewrite Hst in E.
  - inversion Hd as [|? ? ? ? E|? l fr ? ? ? ? _ Hl Hio Hd']; subst; [unfold step in E; by rewrite Hst in E|].
    destruct (answer_rests d s l fr op a Hr Hl Hio) as (t & -> & s1 & Hs1 & Hr1). cbn [follow]. rewrite decide_True by done.
    eapply IH; [exact Hr1|]. eapply drives_from; [exact Hs1|by apply (rests_agrees _ _ Hr1)|done].
Qed.

Lemma drives_rests tr : forall d s d', rests d s -> follow d tr = Some d' -> exists s', drives s tr s' /\ agrees d' s'.
Proof.
  induction tr as [|[op a] tr IH]; intros d s d' Hr Hf; pose proof (rests_agrees d s Hr) as [Hst Hag].
  - injection Hf as <-. exists s. split; [by apply dr_rest|exact Hag].
  - cbn [follow] in Hf. destruct d as [| | |op' t]; try done. case_decide as E; [subst op'|done].
    destruct Hag as (_ & l & (fr & Hl & Hio) & _).
    destruct (answer_rests _ s l fr op a Hr Hl Hio) as (t' & [= <-] & s1 & Hs1 & Hr1).
    destruct (IH _ s1 d' Hr1 Hf) as (s' & Hd & Hag'). exists s'. split; [|done].
    eapply dr_answer; [done..|]. by eapply drives_steps.
Qed.

Lemma drives_agrees p tr s : drives (start p) tr s -> exists d, follow (denote p) tr = Some d /\ agrees d s.
Proof.
  intros Hd. destruct (start_rests p) as (s0 & Hs0 & Hr0). eapply rests_drives; [exact Hr0|].
  eapply drives_from; [exact Hs0|by apply (rests_agrees _ _ Hr0)|done].
Qed.

(** * Results *)

(** ** Calling *)

(** The program as it runs when it calls instead of awaiting: it returns, an operation is
    asked for, or an exception leaves it, from [callers] calls deep. *)
Inductive computation :=
  | Gives (v : Z)
  | Raises (callers : nat) (e : Z)
  | Asks (op : Z) (k : Z -> computation).

(** A call: the caller goes on with the value; an exception leaves it too. *)
Fixpoint then_do (c : computation) (k : Z -> computation) : computation :=
  match c with
  | Gives v => k v
  | Raises n e => Raises (S n) e
  | Asks op t => Asks op (fun a => then_do (t a) k)
  end.

Fixpoint called (p : prog) : computation :=
  match p with
  | Ret v => Gives v
  | Throw e => Raises 0 e
  | Call c k => then_do (called c) (fun v => called (k v))
  | Io op k => Asks op (fun a => called (k a))
  end.

(** The operations of a computation, answered as in [tr]. *)
Fixpoint asked (c : computation) (tr : list (Z * Z)) {struct tr} : option computation :=
  match tr with
  | [] => Some c
  | (op, a) :: tr => match c with Asks op' k => if decide (op = op') then asked (k a) tr else None | _ => None end
  end.

(** How coroutines that rest compare with the calls: the same value; the same exception
    when the program itself threw it; the same next operation, which exactly one coroutine
    waits for; but where an exception leaves a callee, the program has no result and nobody waits. *)
Definition rests_like (c : computation) (s : machine) : Prop :=
  match c with
  | Gives v => result_of 0 s = Some (R_value v) /\ no_io (frames s)
  | Raises 0 e => result_of 0 s = Some (R_exception true e) /\ no_io (frames s)
  | Raises (S _) _ => result_of 0 s = None /\ no_io (frames s)
  | Asks op _ => result_of 0 s = None /\ exists l, only_io l op (frames s)
  end.

(** Awaiting and calling in step. *)
Inductive in_step : direct -> computation -> Prop :=
  | is_ret v : in_step (D_ret v) (Gives v)
  | is_throw e : in_step (D_throw e) (Raises 0 e)
  | is_hang n e : in_step D_hang (Raises (S n) e)
  | is_io op t u : (forall a, in_step (t a) (u a)) -> in_step (D_io op t) (Asks op u).

Lemma bind_in_step d c k k' : in_step d c -> (forall v, in_step (k v) (k' v)) -> in_step (dbind d k) (then_do c k').
Proof. intros Hd Hk. induction Hd; cbn [dbind then_do]; auto using in_step. Qed.

Lemma denote_called p : in_step (denote p) (called p).
Proof. induction p as [v|e|c IHc k IHk|op k IHk]; cbn [denote called]; auto using in_step, bind_in_step. Qed.

Lemma follow_asked tr : forall d c d', in_step d c -> follow d tr = Some d' -> exists c', asked c tr = Some c' /\ in_step d' c'.
Proof.
  induction tr as [|[op a] tr IH]; intros d c d' Hd; cbn [follow asked]; [intros [= <-]; by exists c|].
  destruct Hd as [| | |op' t u Hu]; try done. case_decide; [|done]. by apply IH.
Qed.

Lemma agrees_rests d c s : in_step d c -> agrees d s -> rests_like c s.
Proof. by destruct 1. Qed.

(** What is known of the awaiting program holds of the calls. *)
Lemma follow_called p tr d s :
  follow (denote p) tr = Some d -> exists c, asked (called p) tr = Some c /\ (agrees d s -> rests_like c s).
Proof.
  intros Hf. destruct (follow_asked tr _ _ d (denote_called p) Hf) as (c & Hc & Hd). exists c. split; [done|]. by apply agrees_rests.
Qed.

(** C5. Awaiting is calling: a program of coroutines that await each other performs the
    operations of the same program in direct style, in the same order and with the same
    answers, and ends with the same value; each step of it comes to rest, at the next
    operation or at the end.  Only where a callee throws it differs from a call: the
    coroutine that awaits it is never resumed ([D_hang]). *)
Theorem awaiting_is_calling p tr :
  (forall s, drives (start p) tr s -> exists d, follow (denote p) tr = Some d /\ agrees d s) /\
  (forall d, follow (denote p) tr = Some d -> exists s, drives (start p) tr s /\ agrees d s).
Proof.
  split; [intros s; apply drives_agrees|]. intros d Hf. destruct (start_rests p) as (s0 & Hs0 & Hr0).
  destruct (drives_rests tr _ _ _ Hr0 Hf) as (s & Hd & Ha). exists s. split; [|done]. by eapply drives_steps.
Qed.

(** A coroutine that awaits one that awaits a third: two operations, 1 and 2. *)
Definition ex_third : prog := Io 1 (fun a => Ret (a + 1)).
Definition ex_second : prog := Call ex_third (fun v => Io 2 (fun b => Ret (v * b))).
Definition ex_prog : prog := Call ex_second (fun r => Ret (r + 100)).

Lemma awaiting_is_calling_witness :
  exists s, drives (start ex_prog) [(1, 5); (2, 7)] s /\ result_of 0 s = Some (R_value 142).
Proof.
  destruct (proj2 (awaiting_is_calling ex_prog [(1, 5); (2, 7)]) (D_ret 142) ltac:(reflexivity)) as (s & Hd & Hr & _).
  exists s. split; [exact Hd|exact Hr].
Defined.

(** A program that throws nowhere. *)
Fixpoint calm (p : prog) : Prop :=
  match p with
  | Ret _ => True
  | Throw _ => False
  | Call c k => calm c /\ forall v, calm (k v)
  | Io _ k => forall a, calm (k a)
  end.

Fixpoint live (d : direct) : Prop :=
  match d with D_ret _ => True | D_throw _ | D_hang => False | D_io _ t => forall a, live (t a) end.

Lemma live_bind d k : live d -> (forall v, live (k v)) -> live (dbind d k).
Proof. induction d as [v|e| |op t IH]; cbn; [by auto|done|done|]. intros Ht Hk a. by apply IH. Qed.

Lemma calm_live p : calm p -> live (denote p).
Proof. induction p as [v|e|c IHc k IHk|op k IHk]; cbn; [done|done| |by auto]. intros [Hc Hk]. apply live_bind; auto. Qed.

Lemma live_follow tr : forall d d', live d -> follow d tr = Some d' -> live d'.
Proof.
  induction tr as [|[op a] tr IH]; intros d d' Hd Hf; [by injection Hf as <-|]. cbn [follow] in Hf.
  destruct d as [| | |op' t]; try done. case_decide; [|done]. by eapply IH, Hf.
Qed.

(** A program of coroutines that do not throw never hangs: whenever the thread rests, the
    program has its value, or exactly one operation is waited for. *)
Theorem calm_never_hangs p tr s :
  calm p -> drives (start p) tr s ->
  (exists v, result_of 0 s = Some (R_value v) /\ no_io (frames s)) \/ (exists op l, only_io l op (frames s)).
Proof.
  intros Hp Hd. destruct (drives_agrees p tr s Hd) as (d & Hf & Ha).
  pose proof (live_follow _ _ _ (calm_live p Hp) Hf) as Hl. destruct d as [v| | |op t]; try done; cbn [agrees] in Ha.
  - left. by exists v.
  - right. destruct Ha as (_ & l & Hon). by exists op, l.
Qed.

(** A coroutine that awaits one that throws is never resumed. *)
Theorem thrown_child_hangs e k tr s :
  drives (start (Call (Throw e) k)) tr s -> tr = [] /\ result_of 0 s = None /\ no_io (frames s).
Proof.
  intros Hd. destruct (drives_agrees _ tr s Hd) as (d & Hf & Ha). destruct tr as [|[op a] tr]; [|done].
  injection Hf as <-. done.
Qed.
