(* ===== verification/CoroThreads.v ===== *)
(** * Awaiting on several threads

    The programs of [CoroCall] on any number of threads
    ([sylar/coroutine/coro20/task.hpp]): an operation may be answered as soon as a coroutine
    waits for it, by another thread, while the one that suspended it still returns through
    the coroutines that called it and registers them with their callees.  Each activation on
    the stack of a thread is one step: what it does to a promise happens under the mutex of
    the promise, and the rest touches the coroutine it runs only.

    The proof goes through the status of each coroutine: what it does or waits for.  A
    state of the threads has one list of statuses; the stacks and the frames follow from it.
    The order of the activations on the stacks plays no part. *)

From stdpp Require Import relations.
From S2P Require Import Prelude CoroTask Scheduler CoroCall.

Record cstate := MkC { heap : list frame; threads : list (list activation) }.

(** A thread goes on. *)
Inductive thread_moves : cstate -> cstate -> Prop :=
  | tm_step H ts1 st ts2 H' st' :
      step (MkMachine H st) = Some (MkMachine H' st') ->
      thread_moves (MkC H (ts1 ++ st :: ts2)) (MkC H' (ts1 ++ st' :: ts2)).

(** An operation is answered, on a thread of its own. *)
Inductive answers : cstate -> Z -> Z -> cstate -> Prop :=
  | an_answer H ts l fr op a m :
      H !! l = Some fr -> io fr = Some op -> resume_awaiter l a H [] = m ->
      answers (MkC H ts) op a (MkC (frames m) (ts ++ [stack m])).

(** The program [p] has run with the answers [tr]. *)
Inductive cruns (p : prog) : list (Z * Z) -> cstate -> Prop :=
  | cr_start : cruns p [] (MkC [new_frame] [[A_run 0 p]])
  | cr_move tr s s' : cruns p tr s -> thread_moves s s' -> cruns p tr s'
  | cr_answer tr s op a s' : cruns p tr s -> answers s op a s' -> cruns p (tr ++ [(op, a)]) s'.

(** ** The status of a coroutine *)

Inductive status :=
  | S_run (p : prog)                                (* its body runs *)
  | S_call (g : nat) (k : Z -> prog)                (* it called [g] and is about to register with it *)
  | S_reg (g : nat) (k : Z -> prog)                 (* registered with [g] *)
  | S_wake (g : nat) (k : Z -> prog) (r : Result)   (* about to be notified by [g] *)
  | S_io (op : Z) (k : Z -> prog)
  | S_done (r : Result)
  | S_hang (e : Z) (k : Z -> prog).                 (* its callee threw [e] *)

Abbreviation statuses := (list status).

Definition is_done (s : status) : bool := match s with S_done _ => true | _ => false end.

(** The coroutine it waits for. *)
Definition waits_for (s : status) : option (nat * (Z -> prog)) :=
  match s with S_call g k | S_reg g k => Some (g, k) | _ => None end.

(** The program that ends with a result at once. *)
Definition ended_as (r : Result) : prog := match r with R_value v => Ret v | R_exception _ e => Throw e end.
Definition plain (r : Result) : Prop := match r with R_exception false _ => False | _ => True end.

(** What the coroutine does when its callee has ended with [r]. *)
Definition after_callee (k : Z -> prog) (r : Result) : status :=
  match r with R_value v => S_run (k v) | R_exception _ e => S_hang e k end.

(** What is left of the program of coroutine [f]. *)
Inductive resid (σ : statuses) : nat -> prog -> Prop :=
  | rs_run f p : σ !! f = Some (S_run p) -> resid σ f p
  | rs_io f op k : σ !! f = Some (S_io op k) -> resid σ f (Io op k)
  | rs_done f r : σ !! f = Some (S_done r) -> resid σ f (ended_as r)
  | rs_wait f s g k p : σ !! f = Some s -> waits_for s = Some (g, k) -> resid σ g p -> resid σ f (Call p k)
  | rs_wake f g k r : σ !! f = Some (S_wake g k r) -> resid σ f (Call (ended_as r) k)
  | rs_hang f e k : σ !! f = Some (S_hang e k) -> resid σ f (Call (Throw e) k).

Definition returns (r : Result) : bool := match r with R_value _ => true | R_exception _ _ => false end.

(** What the threads do to the statuses; the flag tells a return from a call. *)
Inductive move1 (σ : statuses) : bool -> statuses -> Prop :=
  | mv_end g r : σ !! g = Some (S_run (ended_as r)) -> plain r -> (forall e k, σ !! e <> Some (S_reg g k)) -> move1 σ false (<[g := S_done r]> σ)
  | mv_notify g r e k :
      σ !! g = Some (S_run (ended_as r)) -> plain r -> σ !! e = Some (S_reg g k) ->
      move1 σ false (<[e := S_wake g k r]> (<[g := S_done r]> σ))
  | mv_call f c k : σ !! f = Some (S_run (Call c k)) -> move1 σ false (<[f := S_call (length σ) k]> σ ++ [S_run c])
  | mv_io f op k : σ !! f = Some (S_run (Io op k)) -> move1 σ false (<[f := S_io op k]> σ)
  | mv_reg f g k s : σ !! f = Some (S_call g k) -> σ !! g = Some s -> is_done s = false -> move1 σ false (<[f := S_reg g k]> σ)
  | mv_late f g k r : σ !! f = Some (S_call g k) -> σ !! g = Some (S_done r) -> move1 σ (returns r) (<[f := after_callee k r]> σ)
  | mv_wake f g k r : σ !! f = Some (S_wake g k r) -> move1 σ (returns r) (<[f := after_callee k r]> σ).

(** A callee has one caller, younger than it, and every coroutine but the first that is not
    over has one. *)
Record stat_inv (σ : statuses) : Prop := {
  sv_wait : forall f s g k, σ !! f = Some s -> waits_for s = Some (g, k) -> (f < g < length σ)%nat;
  sv_reg : forall f g k, σ !! f = Some (S_reg g k) -> exists s, σ !! g = Some s /\ is_done s = false;
  sv_wake : forall f g k r, σ !! f = Some (S_wake g k r) -> (f < g)%nat /\ plain r /\ σ !! g = Some (S_done r);
  sv_one : forall f f' s s' g k k', σ !! f = Some s -> σ !! f' = Some s' ->
    waits_for s = Some (g, k) -> waits_for s' = Some (g, k') -> f = f';
  sv_cover : forall g s, σ !! g = Some s -> (0 < g)%nat -> is_done s = false ->
    exists f sf k, σ !! f = Some sf /\ waits_for sf = Some (g, k);
  sv_done : forall f r, σ !! f = Some (S_done r) -> plain r;
}.

(** One coroutine changes, and the callee it waits for is the same or is over. *)
Lemma stat_inv_upd σ f s s' :
  stat_inv σ -> σ !! f = Some s -> is_done s = false -> 
  (forall r, s' = S_done r -> plain r /\ forall e k, σ !! e <> Some (S_reg f k)) ->
  (forall g k r, s' <> S_wake g k r) ->
  (waits_for s' = waits_for s \/
     waits_for s' = None /\ forall g k, waits_for s = Some (g, k) -> exists r, σ !! g = Some (S_done r)) ->
  (forall g k, s' = S_reg g k -> exists s, σ !! g = Some s /\ is_done s = false) ->
  stat_inv (<[f := s']> σ).
Proof.
  intros I Hf Hnd Hd Hw Hwf Hreg. pose proof (lookup_lt_Some _ _ _ Hf) as Hlt.
  assert (Hold : forall j t g k, <[f := s']> σ !! j = Some t -> waits_for t = Some (g, k) ->
            exists t0, σ !! j = Some t0 /\ waits_for t0 = Some (g, k)).
  { intros j t g k. rewrite list_lookup_insert_Some. intros [(<- & <- & _)|[_ Hj]] Ht; [|by exists t].
    exists s. split; [done|]. destruct Hwf as [E|[E _]]; congruence. }
  split.
  - intros j t g k Hj Ht. rewrite length_insert. destruct (Hold _ _ _ _ Hj Ht) as (t0 & Hj0 & Ht0). by eapply (sv_wait _ I).
  - intros j g k. rewrite list_lookup_insert_Some. intros [(<- & -> & _)|[Hne Hj]].
    + destruct (Hreg g k eq_refl) as (t & Hg & Ht). exists t. split; [|done]. rewrite list_lookup_insert_ne; [done|].
      intros <-. destruct Hwf as [E|[E _]]; [|done]. cbn in E. destruct (sv_wait _ I _ _ _ _ Hf (eq_sym E)). lia.
    + destruct (sv_reg _ I _ _ _ Hj) as (t & Hg & Ht). destruct (decide (f = g)) as [<-|Hfg].
      * exists s'. rewrite list_lookup_insert_eq by done. split; [done|]. destruct s'; try done.
        destruct (Hd _ eq_refl) as [_ Hno]. by destruct (Hno _ _ Hj).
      * exists t. by rewrite list_lookup_insert_ne.
  - intros j g k r. rewrite list_lookup_insert_Some. intros [(<- & E & _)|[Hne Hj]]; [by destruct (Hw g k r)|].
    destruct (sv_wake _ I _ _ _ _ Hj) as (? & ? & Hg). split_and!; [done|done|]. rewrite list_lookup_insert_ne; [done|].
    intros <-. rewrite Hf in Hg. by injection Hg as ->.
  - intros j j' t t' g k k' Hj Hj' Ht Ht'. destruct (Hold _ _ _ _ Hj Ht) as (u & ? & ?), (Hold _ _ _ _ Hj' Ht') as (u' & ? & ?).
    by eapply (sv_one _ I j j').
  - intros g t Hg Hpos Ht. assert (exists t0, σ !! g = Some t0 /\ is_done t0 = false) as (t0 & Hg0 & Ht0).
    { apply list_lookup_insert_Some in Hg as [(<- & <- & _)|[_ Hg]]; eauto. }
    destruct (sv_cover _ I g t0 Hg0 Hpos Ht0) as (j & u & k & Hj & Hu).
    destruct (decide (f = j)) as [<-|Hne]; [|exists j, u, k; by rewrite list_lookup_insert_ne].
    rewrite Hf in Hj. injection Hj as <-. destruct Hwf as [E|[E Hdone]].
    + exists f, s', k. rewrite list_lookup_insert_eq by done. split; [done|congruence].
    + destruct (Hdone g k Hu) as (r & Hr). rewrite Hg0 in Hr. by injection Hr as ->.
  - intros j r. rewrite list_lookup_insert_Some. intros [(<- & -> & _)|[_ Hj]]; [by apply Hd|by eapply (sv_done _ I)].
Qed.

(** The callee ends, and its caller is about to be notified. *)
Lemma stat_inv_notify σ g r e k p :
  stat_inv σ -> σ !! g = Some (S_run p) -> plain r -> σ !! e = Some (S_reg g k) ->
  stat_inv (<[e := S_wake g k r]> (<[g := S_done r]> σ)).
Proof.
  intros I Hg Hr He. pose proof (sv_wait _ I _ _ _ _ He eq_refl) as Heg.
  assert (Hl : forall j t, <[e := S_wake g k r]> (<[g := S_done r]> σ) !! j = Some t <->
             j = e /\ t = S_wake g k r \/ j = g /\ t = S_done r \/ j <> e /\ j <> g /\ σ !! j = Some t).
  { intros j t. rewrite list_lookup_insert_Some, list_lookup_insert_Some, length_insert. naive_solver lia. }
  split.
  - intros j t g' k' Hj Ht. rewrite !length_insert. apply Hl in Hj as [(-> & ->)|[(-> & ->)|(_ & _ & Hj)]]; [done|done|].
    by eapply (sv_wait _ I).
  - intros j g' k' Hj. apply Hl in Hj as [(-> & ?)|[(-> & ?)|(Hne & Hne' & Hj)]]; [done|done|].
    destruct (sv_reg _ I _ _ _ Hj) as (t & Hg' & Ht).
    assert (g' <> g) by (intros ->; apply Hne; by eapply (sv_one _ I)).
    destruct (decide (g' = e)) as [->|Hne2]; [exists (S_wake g k r)|exists t]; (split; [apply Hl; naive_solver|done]).
  - intros j g' k' r' Hj. apply Hl in Hj as [(-> & [= -> -> ->])|[(-> & ?)|(Hne & Hne' & Hj)]]; [|done|].
    + split_and!; [lia|done|]. apply Hl. naive_solver.
    + destruct (sv_wake _ I _ _ _ _ Hj) as (? & ? & Hg'). split_and!; [done|done|]. apply Hl.
      right. right. split_and!; [intros ->; congruence|intros ->; congruence|done].
  - intros j j' t t' g' k1 k2 Hj Hj' Ht Ht'. apply Hl in Hj as [(-> & ->)|[(-> & ->)|(_ & _ & Hj)]]; [done|done|].
    apply Hl in Hj' as [(-> & ->)|[(-> & ->)|(_ & _ & Hj')]]; [done|done|]. by eapply (sv_one _ I j j').
  - intros j t Hj Hpos Ht. assert (exists t0, σ !! j = Some t0 /\ is_done t0 = false /\ j <> g) as (t0 & Hj0 & Ht0 & Hjg).
    { apply Hl in Hj as [(-> & ->)|[(-> & ->)|(_ & ? & Hj)]]; [|done|by exists t].
      exists (S_reg g k). split_and!; [done|done|lia]. }
    destruct (sv_cover _ I j t0 Hj0 Hpos Ht0) as (f & u & k' & Hf & Hu). exists f, u, k'. split; [|done]. apply Hl.
    right. right. split_and!; [intros ->|intros ->|done].
    + rewrite He in Hf. injection Hf as <-. cbn in Hu. congruence.
    + rewrite Hg in Hf. by injection Hf as <-.
  - intros j r' Hj. apply Hl in Hj as [(-> & ?)|[(-> & [= ->])|(_ & _ & Hj)]]; [done|done|]. by eapply (sv_done _ I).
Qed.

(** A coroutine is called. *)
Lemma stat_inv_call σ f c k :
  stat_inv σ -> σ !! f = Some (S_run (Call c k)) -> stat_inv (<[f := S_call (length σ) k]> σ ++ [S_run c]).
Proof.
  intros I Hf. pose proof (lookup_lt_Some _ _ _ Hf) as Hlt.
  assert (Hl : forall j t, (<[f := S_call (length σ) k]> σ ++ [S_run c]) !! j = Some t <->
             j = f /\ t = S_call (length σ) k \/ j = length σ /\ t = S_run c \/ j <> f /\ (j < length σ)%nat /\ σ !! j = Some t).
  { intros j t. rewrite lookup_app_Some, list_lookup_insert_Some, length_insert, list_lookup_singleton_Some. split.
    - intros [[(<- & -> & _)|[? Hj]]|[? [? <-]]]; [naive_solver|pose proof (lookup_lt_Some _ _ _ Hj); naive_solver|].
      right. left. split; [lia|done].
    - intros [(-> & ->)|[(-> & ->)|(? & ? & ?)]]; [naive_solver|right; split; [lia|split; [lia|done]]|naive_solver]. }
  assert (Hw : forall j t g k', σ !! j = Some t -> waits_for t = Some (g, k') -> (g < length σ)%nat)
    by (intros j t g k' Hj Ht; by destruct (sv_wait _ I _ _ _ _ Hj Ht)).
  split.
  - intros j t g k' Hj Ht. rewrite length_app, length_insert. cbn [length].
    apply Hl in Hj as [(-> & ->)|[(-> & ->)|(_ & _ & Hj)]]; [injection Ht as <- <-; lia|done|].
    destruct (sv_wait _ I _ _ _ _ Hj Ht). lia.
  - intros j g k' Hj. apply Hl in Hj as [(-> & ?)|[(-> & ?)|(_ & _ & Hj)]]; [done|done|].
    destruct (sv_reg _ I _ _ _ Hj) as (t & Hg & Ht). pose proof (lookup_lt_Some _ _ _ Hg).
    destruct (decide (g = f)) as [->|Hne]; [exists (S_call (length σ) k)|exists t]; (split; [apply Hl; naive_solver|done]).
  - intros j g k' r Hj. apply Hl in Hj as [(-> & ?)|[(-> & ?)|(_ & _ & Hj)]]; [done|done|].
    destruct (sv_wake _ I _ _ _ _ Hj) as (? & ? & Hg). pose proof (lookup_lt_Some _ _ _ Hg).
    split_and!; [done|done|]. apply Hl. right. right. split_and!; [intros ->; congruence|lia|done].
  - intros j j' t t' g k1 k2 Hj Hj' Ht Ht'. apply Hl in Hj as [(-> & ->)|[(-> & ->)|(_ & _ & Hj)]]; [|done|];
      apply Hl in Hj' as [(-> & ->)|[(-> & ->)|(_ & _ & Hj')]]; try done.
    + injection Ht as <- <-. pose proof (Hw _ _ _ _ Hj' Ht'). lia.
    + injection Ht' as <- <-. pose proof (Hw _ _ _ _ Hj Ht). lia.
    + by eapply (sv_one _ I j j').
  - intros j t Hj Hpos Ht. destruct (decide (j = length σ)) as [->|Hne].
    { exists f, (S_call (length σ) k), k. split; [|done]. apply Hl. naive_solver. }
    assert (exists t0, σ !! j = Some t0 /\ is_done t0 = false) as (t0 & Hj0 & Ht0).
    { apply Hl in Hj as [(-> & ->)|[(-> & ->)|(_ & _ & Hj)]]; [by eexists|done|by exists t]. }
    destruct (sv_cover _ I j t0 Hj0 Hpos Ht0) as (e & u & k' & He & Hu). pose proof (lookup_lt_Some _ _ _ He).
    exists e, u, k'. split; [|done]. apply Hl. right. right. split_and!; [intros ->|lia|done].
    rewrite Hf in He. by injection He as <-.
  - intros j r Hj. apply Hl in Hj as [(-> & ?)|[(-> & ?)|(_ & _ & Hj)]]; [done|done|]. by eapply (sv_done _ I).
Qed.

Lemma stat_inv_move σ b σ' : stat_inv σ -> move1 σ b σ' -> stat_inv σ'.
Proof.
  intros I [g r Hg Hr Hno|g r e k Hg Hr He|f c k Hf|f op k Hf|f g k s Hf Hg Hs|f g k r Hf Hg|f g k r Hf].
  - eapply stat_inv_upd; [done|done|done| |done|by left|done]. intros r' [= ->]. done.
  - by eapply stat_inv_notify.
  - by apply stat_inv_call.
  - eapply stat_inv_upd; [done..|by left|done].
  - eapply stat_inv_upd; [done..|by left|]. intros g' k' [= -> ->]. eauto.
  - eapply stat_inv_upd; [done|done|done|by destruct r|by destruct r| |by destruct r]. right.
    split; [by destruct r|]. intros g' k' [= -> ->]. eauto.
  - eapply stat_inv_upd; [done|done|done|by destruct r|by destruct r| |by destruct r]. left. by destruct r.
Qed.

Lemma stat_inv_answer σ l op k a : stat_inv σ -> σ !! l = Some (S_io op k) -> stat_inv (<[l := S_run (k a)]> σ).
Proof. intros I Hl. eapply stat_inv_upd; [done..|by left|done]. Qed.

Lemma stat_inv_start p : stat_inv [S_run p].
Proof.
  assert (Hl : forall j t, [S_run p] !! j = Some t -> j = 0%nat /\ t = S_run p)
    by (intros j t Hj; apply list_lookup_singleton_Some in Hj as [-> <-]; done).
  split; intros *.
  - intros Hj. by apply Hl in Hj as [-> ->].
  - intros Hj. by apply Hl in Hj as [-> ?].
  - intros Hj. by apply Hl in Hj as [-> ?].
  - intros Hj _. by apply Hl in Hj as [-> ->].
  - intros Hj. apply Hl in Hj as [-> ->]. lia.
  - intros Hj. by apply Hl in Hj as [-> ?].
Qed.

(** ** What is left of the program *)

(** Returning from a call. *)
Inductive red : prog -> prog -> Prop :=
  | rd_ret v k : red (Call (Ret v) k) (k v)
  | rd_call p p' k : red p p' -> red (Call p k) (Call p' k).

Lemma red_denote p p' : red p p' -> denote p' = denote p.
Proof. induction 1 as [v k|p p' k _ IH]; [done|]. cbn [denote]. by rewrite IH. Qed.

Lemma red_ends p : Acc (fun p' p => red p p') p.
Proof.
  induction p as [v|e|c IHc k IHk|op k IHk].
  1,2,4: constructor; intros p' Hp; inversion Hp.
  induction IHc as [c _ IH]. constructor. intros p' Hp. inversion Hp as [v ?|? c' ? Hc]; subst; [apply IHk|by apply IH].
Qed.

(** The chain of callees from [f] to [l]. *)
Inductive leads (σ : statuses) : nat -> nat -> Prop :=
  | ld_here f : leads σ f f
  | ld_wait f s g k l : σ !! f = Some s -> waits_for s = Some (g, k) -> leads σ g l -> leads σ f l.

Lemma leads_snoc σ f l s g k : leads σ f l -> σ !! l = Some s -> waits_for s = Some (g, k) -> leads σ f g.
Proof.
  induction 1 as [f|f sf h kf l Hf Hw _ IH]; intros Hl Hs.
  - eapply ld_wait; [exact Hl|exact Hs|apply ld_here].
  - eapply ld_wait; [exact Hf|exact Hw|by apply IH].
Qed.

(** Every coroutine that is not over is at the end of the calls of the first. *)
Lemma first_leads σ l : stat_inv σ -> forall s, σ !! l = Some s -> is_done s = false -> leads σ 0 l.
Proof.
  intros I. induction (lt_wf l) as [l _ IH]. intros s Hl Hs. destruct (decide (l = 0%nat)) as [->|Hpos]; [apply ld_here|].
  destruct (sv_cover _ I l s Hl ltac:(lia) Hs) as (f & sf & k & Hf & Hw).
  eapply leads_snoc; [|exact Hf|exact Hw]. destruct (sv_wait _ I _ _ _ _ Hf Hw).
  eapply IH; [lia|exact Hf|by destruct sf].
Qed.

(** Two ends of one chain are one. *)
Lemma leads_end σ f l l' s s' :
  leads σ f l -> leads σ f l' -> σ !! l = Some s -> σ !! l' = Some s' -> waits_for s = None -> waits_for s' = None -> l = l'.
Proof.
  induction 1 as [f|f sf g k l Hf Hw Hgl IH]; intros Hl' Hs Hs' Ew Ew'.
  - destruct Hl' as [|? sf g k l' Hf Hw _]; [done|]. congruence.
  - destruct Hl' as [|? sf' g' k' l' Hf' Hw' Hgl']; [congruence|]. apply IH; [|done..]. congruence.
Qed.

Lemma resid_look σ f s p :
  resid σ f p -> σ !! f = Some s ->
  match s with
  | S_run p' => p = p'
  | S_io op k => p = Io op k
  | S_done r => p = ended_as r
  | S_call g k | S_reg g k => exists p', p = Call p' k /\ resid σ g p'
  | S_wake g k r => p = Call (ended_as r) k
  | S_hang e k => p = Call (Throw e) k
  end.
Proof.
  intros Hr Hs. destruct Hr as [f p Hf|f op k Hf|f r Hf|f t g k p Hf Hw Hp|f g k r Hf|f e k Hf]; rewrite Hs in Hf; injection Hf as ->; try done.
  destruct t; try done; injection Hw as -> ->; by exists p.
Qed.

(** A coroutine that keeps its callee keeps what is left if its callee does. *)
Lemma resid_keeps σ σ' :
  (forall j s, σ !! j = Some s ->
     (exists s', σ' !! j = Some s' /\ (s' = s \/ waits_for s' = waits_for s /\ waits_for s <> None)) \/
     (forall p, resid σ j p -> resid σ' j p)) ->
  forall j p, resid σ j p -> resid σ' j p.
Proof.
  intros Hall j p Hr. induction Hr as [j p Hj|j op k Hj|j r Hj|j s g k p Hj Hw Hp IH|j g k r Hj|j e k Hj];
    destruct (Hall _ _ Hj) as [(s' & Hj' & Hs)|Hd]; try (apply Hd; by econstructor).
  4: { eapply rs_wait; [exact Hj'| |exact IH]. destruct Hs as [->|[-> _]]; done. }
  all: destruct Hs as [->|[_ Hs]]; [by econstructor|done].
Qed.

(** When the last of a chain of callees returns, so does the whole. *)
Lemma resid_returns σ σ' f j :
  (forall i, i <> f -> σ' !! i = σ !! i) ->
  (forall p, resid σ f p -> exists p', resid σ' f p' /\ red p p') ->
  leads σ j f -> forall p, resid σ j p -> exists p', resid σ' j p' /\ red p p'.
Proof.
  intros Hoth Hf Hl. induction Hl as [j|j s g k l Hj Hw Hl IH]; [exact Hf|]. intros p Hp.
  destruct (decide (j = l)) as [->|Hne]; [by apply Hf|]. pose proof (resid_look _ _ _ _ Hp Hj) as Hs.
  assert (exists q, p = Call q k /\ resid σ g q) as (q & -> & Hq) by (destruct s; try done; injection Hw as -> ->; exact Hs).
  destruct (IH Hoth Hf q Hq) as (q' & Hq' & Hr). exists (Call q' k). split; [|by apply rd_call].
  eapply rs_wait; [by rewrite Hoth|exact Hw|exact Hq'].
Qed.

(** One coroutine changes. *)
Lemma resid_keeps_one (σ : statuses) f s' :
  (exists s, σ !! f = Some s /\ waits_for s' = waits_for s /\ waits_for s <> None) \/
  (forall p, resid σ f p -> resid (<[f := s']> σ) f p) ->
  forall j p, resid σ j p -> resid (<[f := s']> σ) j p.
Proof.
  intros Hf. apply resid_keeps. intros j s Hj. destruct (decide (f = j)) as [<-|Hne].
  - destruct Hf as [(t & Ht & Hw)|Hf]; [left|by right]. rewrite Hj in Ht. injection Ht as <-. exists s'.
    rewrite list_lookup_insert_eq by (by eapply lookup_lt_Some). by auto.
  - left. exists s. rewrite list_lookup_insert_ne by done. by auto.
Qed.

Lemma lookup_set (σ : statuses) f (s s' : status) : σ !! f = Some s -> <[f := s']> σ !! f = Some s'.
Proof. intros Hf. apply list_lookup_insert_eq. by eapply lookup_lt_Some. Qed.

Lemma resid_notify σ g r e k :
  stat_inv σ -> σ !! g = Some (S_run (ended_as r)) -> σ !! e = Some (S_reg g k) ->
  forall j p, resid σ j p -> resid (<[e := S_wake g k r]> (<[g := S_done r]> σ)) j p.
Proof.
  intros I Hg He. pose proof (sv_wait _ I _ _ _ _ He eq_refl) as Heg.
  assert (He' : <[g := S_done r]> σ !! e = Some (S_reg g k)) by (rewrite list_lookup_insert_ne by lia; done).
  apply resid_keeps. intros j s Hj. destruct (decide (e = j)) as [<-|Hne].
  - right. intros p Hp. destruct (resid_look _ _ _ _ Hp He) as (q & -> & Hq). rewrite (resid_look _ _ _ _ Hq Hg).
    eapply rs_wake. by eapply lookup_set.
  - rewrite list_lookup_insert_ne by done. destruct (decide (g = j)) as [<-|Hne'].
    + right. intros p Hp. rewrite (resid_look _ _ _ _ Hp Hg). apply rs_done.
      rewrite list_lookup_insert_ne by done. by eapply lookup_set.
    + left. exists s. rewrite list_lookup_insert_ne by done. by auto.
Qed.

Lemma resid_call σ f c k :
  σ !! f = Some (S_run (Call c k)) -> forall j p, resid σ j p -> resid (<[f := S_call (length σ) k]> σ ++ [S_run c]) j p.
Proof.
  intros Hf. pose proof (lookup_lt_Some _ _ _ Hf) as Hlt. apply resid_keeps. intros j s Hj. pose proof (lookup_lt_Some _ _ _ Hj).
  destruct (decide (f = j)) as [<-|Hne].
  - right. intros p Hp. rewrite (resid_look _ _ _ _ Hp Hf).
    eapply rs_wait; [rewrite lookup_app_l by (rewrite length_insert; done); by eapply lookup_set|reflexivity|].
    apply rs_run. rewrite lookup_app_r, length_insert, Nat.sub_diag by (rewrite length_insert; done). done.
  - left. exists s. rewrite lookup_app_l, list_lookup_insert_ne by (rewrite ?length_insert; done). by auto.
Qed.

(** A coroutine that goes on after its callee. *)
Lemma resid_after σ f s k r p :
  stat_inv σ -> σ !! f = Some s -> is_done s = false -> (forall q, resid σ f q -> q = Call (ended_as r) k) ->
  resid σ 0 p -> exists p', resid (<[f := after_callee k r]> σ) 0 p' /\ if returns r then red p p' else p' = p.
Proof.
  intros I Hf Hd Hq Hp. pose proof (lookup_set _ _ _ (after_callee k r) Hf) as Hf'. destruct r as [v|b e]; cbn [after_callee returns] in *.
  - eapply resid_returns; [| |by eapply first_leads|exact Hp].
    + intros i Hi. by rewrite list_lookup_insert_ne.
    + intros q Hq0. rewrite (Hq q Hq0). exists (k v). split; [by apply rs_run|apply rd_ret].
  - exists p. split; [|done]. apply resid_keeps_one; [|done]. right. intros q Hq0. rewrite (Hq q Hq0). by apply rs_hang.
Qed.

Lemma resid_move σ b σ' p :
  stat_inv σ -> move1 σ b σ' -> resid σ 0 p -> exists p', resid σ' 0 p' /\ if b then red p p' else p' = p.
Proof.
  intros I Hm Hp. destruct Hm as [g r Hg Hr Hno|g r e k Hg Hr He|f c k Hf|f op k Hf|f g k s Hf Hg Hs|f g k r Hf Hg|f g k r Hf].
  - exists p. split; [|done]. eapply resid_keeps_one; [|done]. right. intros q Hq. rewrite (resid_look _ _ _ _ Hq Hg). apply rs_done. by eapply lookup_set.
  - exists p. split; [|done]. by eapply resid_notify.
  - exists p. split; [|done]. by eapply resid_call.
  - exists p. split; [|done]. eapply resid_keeps_one; [|done]. right. intros q Hq. rewrite (resid_look _ _ _ _ Hq Hf). apply rs_io. by eapply lookup_set.
  - exists p. split; [|done]. eapply resid_keeps_one; [|done]. left. by exists (S_call g k).
  - eapply resid_after; [done..| |done]. intros q Hq. destruct (resid_look _ _ _ _ Hq Hf) as (q0 & -> & Hq0).
    by rewrite (resid_look _ _ _ _ Hq0 Hg).
  - eapply resid_after; [done..| |done]. intros q Hq. exact (resid_look _ _ _ _ Hq Hf).
Qed.

(** Answering the operation of [l]. *)
Lemma resid_answer σ l op k a f p :
  σ !! l = Some (S_io op k) -> leads σ f l -> resid σ f p ->
  exists t, denote p = D_io op t /\ exists p', resid (<[l := S_run (k a)]> σ) f p' /\ denote p' = t a.
Proof.
  intros Hl Hle. revert p. induction Hle as [f|f s g kf l Hf Hw Hle IH]; intros p Hp.
  - rewrite (resid_look _ _ _ _ Hp Hl). eexists. split; [reflexivity|]. exists (k a). split; [|done].
    apply rs_run. by eapply lookup_set.
  - assert (exists q, p = Call q kf /\ resid σ g q) as (q & -> & Hq).
    { pose proof (resid_look _ _ _ _ Hp Hf) as Hs. destruct s; try done; injection Hw as -> ->; exact Hs. }
    destruct (IH Hl q Hq) as (t & Et & q' & Hq' & Eq). exists (fun a => dbind (t a) (fun v => denote (kf v))).
    cbn [denote]. rewrite Et. split; [done|]. exists (Call q' kf). cbn [denote]. rewrite Eq. split; [|done].
    eapply rs_wait; [|exact Hw|exact Hq']. rewrite list_lookup_insert_ne; [exact Hf|]. intros ->. rewrite Hl in Hf. by injection Hf as <-.
Qed.

(** ** The threads and the statuses *)

(** What is on a stack because of coroutine [f]. *)
Definition act_of (f : nat) (s : status) : list activation :=
  match s with
  | S_run p => [A_run f p]
  | S_call g k => [A_await f g k]
  | S_wake g k r => [A_notify g [C_finally f] r]
  | _ => []
  end.

Definition acts (σ : statuses) : list activation := concat (imap act_of σ).

(** What a coroutine that is over still does. *)
Definition left_of (σ : statuses) (α : activation) : Prop :=
  match α with A_notify g [] _ | A_final g => exists r, σ !! g = Some (S_done r) | _ => False end.

Definition frame_ok (fr : frame) (s : status) : Prop :=
  match s with
  | S_run _ | S_call _ _ => running fr
  | S_reg _ k | S_wake _ k _ | S_hang _ k => asleep k None fr
  | S_io op k => asleep k (Some op) fr
  | S_done r => res fr = Some r /\ io fr = None
  end.

(** The callbacks of a coroutine that is not over. *)
Definition callers_ok (σ : statuses) (g : nat) (cs : list completion) : Prop :=
  cs = [] /\ (forall e k, σ !! e <> Some (S_reg g k)) \/ exists e k, cs = [C_finally e] /\ σ !! e = Some (S_reg g k).

Record frames_ok (H : list frame) (σ : statuses) : Prop := {
  fo_len : length H = length σ;
  fo_frame : forall f fr s, H !! f = Some fr -> σ !! f = Some s -> frame_ok fr s;
  fo_call : forall g fr s, H !! g = Some fr -> σ !! g = Some s -> is_done s = false -> callers_ok σ g (cbs fr);
}.

(** The frames and the activations [A] on the stacks are those of the statuses. *)
Definition simulates (H : list frame) (A : list activation) (σ : statuses) : Prop :=
  frames_ok H σ /\ exists L, A ≡ₚ acts σ ++ L /\ Forall (left_of σ) L.

Lemma acts_split (σ : statuses) f s :
  σ !! f = Some s -> exists R, acts σ ≡ₚ act_of f s ++ R /\ forall s', acts (<[f := s']> σ) ≡ₚ act_of f s' ++ R.
Proof.
  intros Hf. pose proof (lookup_lt_Some _ _ _ Hf) as Hlt.
  assert (E : forall s', acts (<[f := s']> σ) ≡ₚ
            act_of f s' ++ concat (imap act_of (take f σ)) ++ concat (imap (fun i => act_of (S f + i)) (drop (S f) σ))).
  { intros s'. unfold acts. rewrite insert_take_drop, imap_app, concat_app by done.
    rewrite imap_cons. cbn [concat]. rewrite length_take_le, Nat.add_0_r by lia.
    rewrite (imap_ext (_ ∘ S) (fun i => act_of (S f + i))) by (intros i x _; unfold compose; by rewrite Nat.add_succ_r). solve_Permutation. }
  eexists. split; [|exact E]. rewrite <- (list_insert_id σ f s Hf) at 1. apply E.
Qed.

Lemma acts_set (σ : statuses) f s s' R : σ !! f = Some s -> acts σ ≡ₚ act_of f s ++ R -> acts (<[f := s']> σ) ≡ₚ act_of f s' ++ R.
Proof.
  intros Hf Hp. destruct (acts_split σ f s Hf) as (R' & Hp' & Hs). rewrite Hs. apply Permutation_app_head.
  apply (Permutation_app_inv_l (act_of f s)). by rewrite <- Hp, <- Hp'.
Qed.

Lemma acts_app σ s : acts (σ ++ [s]) = acts σ ++ act_of (length σ) s.
Proof. unfold acts. rewrite imap_app, concat_app. cbn. by rewrite app_nil_r, Nat.add_0_r. Qed.

(** An activation comes from a coroutine that is not over. *)
Lemma acts_from σ α : α ∈ acts σ -> exists f s, σ !! f = Some s /\ act_of f s = [α].
Proof.
  unfold acts. intros (l & Ha & Hl)%list_elem_of_In%in_concat. apply list_elem_of_In in Ha, Hl.
  apply list_elem_of_lookup in Ha as (f & Ha).
  rewrite list_lookup_imap_Some in Ha. destruct Ha as (s & Hs & ->). exists f, s. split; [done|].
  destruct s; cbn [act_of] in *; try (by apply elem_of_nil in Hl); by apply list_elem_of_singleton in Hl as ->.
Qed.

(** ** One activation at a time *)

Lemma resume_local f v H K :
  resume_awaiter f v H K = MkMachine (frames (resume_awaiter f v H [])) (stack (resume_awaiter f v H []) ++ K).
Proof. unfold resume_awaiter. destruct (H !! f) as [fr|]; [|done]. destruct (is_resumed fr), (susp fr), (at_final fr); done. Qed.

Lemma completion_local c r H K :
  call_completion c r H K = MkMachine (frames (call_completion c r H [])) (stack (call_completion c r H []) ++ K).
Proof. unfold call_completion. destruct (invoke c r).1 as [|[e [v|b x]] ?]; [done|apply resume_local|done]. Qed.

Lemma step_local H α K m :
  step (MkMachine H (α :: K)) = Some m ->
  exists β H', m = MkMachine H' (β ++ K) /\ step (MkMachine H [α]) = Some (MkMachine H' β).
Proof.
  unfold step. cbn [stack frames]. intros Hs.
  destruct α as [f [v|e|c k|op k]|f g k|f [|c cs] r|f]; injection Hs as <-; try (eexists _, _; split; [|reflexivity]; reflexivity).
  - unfold register. destruct (_ !! g) as [gr|]; [|by eexists _, _; split; [|reflexivity]].
    destruct (m_result (promise gr)); [|by eexists _, _; split; [|reflexivity]].
    rewrite completion_local. eexists _, _. split; [reflexivity|]. by destruct (call_completion _ _ _ []).
  - rewrite completion_local. eexists _, _. rewrite (completion_local _ _ _ [_]).
    split; [|reflexivity]. by rewrite <- app_assoc.
Qed.

(** ** Each activation is a move *)

Lemma frames_look H σ f s : frames_ok H σ -> σ !! f = Some s -> exists fr, H !! f = Some fr /\ frame_ok fr s.
Proof.
  intros Hok Hf. assert (is_Some (H !! f)) as [fr Hfr] by (apply lookup_lt_is_Some; rewrite (fo_len _ _ Hok); by eapply lookup_lt_Some).
  exists fr. split; [done|]. by eapply fo_frame.
Qed.

Definition is_reg (s : status) : bool := match s with S_reg _ _ => true | _ => false end.

Lemma callers_set σ f s s' g cs :
  σ !! f = Some s -> is_reg s = false -> is_reg s' = false -> callers_ok σ g cs -> callers_ok (<[f := s']> σ) g cs.
Proof.
  intros Hf Hs Hs' [[-> Hno]|(e & k & -> & He)].
  - left. split; [done|]. intros e k. rewrite list_lookup_insert_Some. intros [(<- & -> & _)|[_ He]]; [done|by eapply Hno].
  - right. exists e, k. split; [done|]. rewrite list_lookup_insert_ne; [done|]. intros ->. rewrite Hf in He. by injection He as ->.
Qed.

(** A coroutine changes that neither was nor is registered. *)
Lemma frames_set H σ f s s' h fr :
  frames_ok H σ -> σ !! f = Some s -> is_done s = false -> is_reg s = false -> is_reg s' = false ->
  H !! f = Some fr -> frame_ok (h fr) s' -> (is_done s' = false -> cbs (h fr) = cbs fr) ->
  frames_ok (upd f h H) (<[f := s']> σ).
Proof.
  intros Hok Hf Hd Hs Hs' Hfr Hfo Hcb. split.
  - rewrite length_alter, length_insert. apply Hok.
  - intros j x t Hj. rewrite list_lookup_insert_Some. rewrite lookup_upd in Hj. case_decide as E.
    + subst j. rewrite Hfr in Hj. injection Hj as <-. by intros [(_ & <- & _)|[? _]].
    + intros [(? & _)|[_ Ht]]; [done|]. by eapply (fo_frame _ _ Hok).
  - intros g x t Hg Ht Hdt. eapply callers_set; [done..|]. rewrite lookup_upd in Hg. rewrite list_lookup_insert_Some in Ht. case_decide as E.
    + subst g. rewrite Hfr in Hg. injection Hg as <-. destruct Ht as [(_ & <- & _)|[? _]]; [|done].
      rewrite Hcb by done. by eapply (fo_call _ _ Hok).
    + destruct Ht as [(? & _)|[_ Ht]]; [done|]. by eapply (fo_call _ _ Hok).
Qed.

(** A frame that is over changes. *)
Lemma frames_over H σ g r h :
  frames_ok H σ -> σ !! g = Some (S_done r) -> (forall fr, res (h fr) = res fr /\ io (h fr) = io fr) -> frames_ok (upd g h H) σ.
Proof.
  intros Hok Hg Hh. split.
  - rewrite length_alter. apply Hok.
  - intros j x t Hj Ht. rewrite lookup_upd in Hj. case_decide as E; [subst j|by eapply (fo_frame _ _ Hok)].
    destruct (frames_look _ _ _ _ Hok Hg) as (fr & Hfr & Ho). rewrite Hfr in Hj. injection Hj as <-.
    rewrite Hg in Ht. injection Ht as <-. destruct Ho, (Hh fr). split; congruence.
  - intros j x t Hj Ht Hd. rewrite lookup_upd in Hj. case_decide as E; [subst j|by eapply (fo_call _ _ Hok)].
    rewrite Hg in Ht. by injection Ht as <-.
Qed.

Lemma callers_reg (σ : statuses) f g k j cs :
  σ !! f = Some (S_call g k) -> j <> g -> callers_ok σ j cs -> callers_ok (<[f := S_reg g k]> σ) j cs.
Proof.
  intros Hf Hne [[-> Hn]|(e & k' & -> & He)].
  - left. split; [done|]. intros e k'. rewrite list_lookup_insert_Some. intros [(_ & [= ? ?] & _)|[_ He]]; [done|by eapply Hn].
  - right. exists e, k'. split; [done|]. rewrite list_lookup_insert_ne; [done|]. intros ->. congruence.
Qed.

(** [f] suspends and registers with [g]. *)
Lemma frames_reg H σ f g k s fr :
  stat_inv σ -> frames_ok H σ -> σ !! f = Some (S_call g k) -> σ !! g = Some s -> is_done s = false -> H !! f = Some fr ->
  frames_ok (upd g (with_caller f) (upd f (suspend k None) H)) (<[f := S_reg g k]> σ).
Proof.
  intros I Hok Hf Hg Hd Hfr. pose proof (sv_wait _ I _ _ _ _ Hf eq_refl) as Hfg.
  destruct (frames_look _ _ _ _ Hok Hg) as (gr & Hgr & Hgo).
  assert (Hno : forall e k', σ !! e <> Some (S_reg g k')).
  { intros e k' He. assert (e = f) as -> by (by eapply (sv_one _ I)). congruence. }
  assert (Hgc : cbs gr = []) by (destruct (fo_call _ _ Hok _ _ _ Hgr Hg Hd) as [[? _]|(e & k' & _ & He)]; [done|by apply Hno in He]).
  pose proof (fo_frame _ _ Hok _ _ _ Hfr Hf) as (F1 & F2 & F3). split.
  - rewrite !length_alter, length_insert. apply Hok.
  - intros j x t Hj Ht. rewrite !lookup_upd in Hj. rewrite list_lookup_insert_Some in Ht. repeat case_decide; subst; try lia.
    + rewrite Hgr in Hj. injection Hj as <-. destruct Ht as [(? & _)|[_ Ht]]; [lia|]. rewrite Hg in Ht. injection Ht as <-.
      destruct s; try done; destruct Hgo; split_and!; naive_solver.
    + rewrite Hfr in Hj. injection Hj as <-. destruct Ht as [(_ & <- & _)|[? _]]; [|done]. done.
    + destruct Ht as [(? & _)|[_ Ht]]; [done|]. by eapply (fo_frame _ _ Hok).
  - intros j x t Hj Ht Hdt. rewrite !lookup_upd in Hj. rewrite list_lookup_insert_Some in Ht. repeat case_decide; subst; try lia.
    + rewrite Hgr in Hj. injection Hj as <-. right. exists f, k. cbn. rewrite Hgc. split; [done|by eapply lookup_set].
    + rewrite Hfr in Hj. injection Hj as <-. apply callers_reg; [done|lia|]. exact (fo_call _ _ Hok _ _ _ Hfr Hf eq_refl).
    + destruct Ht as [(? & _)|[_ Ht]]; [done|]. apply callers_reg; [done..|]. by eapply (fo_call _ _ Hok).
Qed.

Definition ended (r : Result) (fr : frame) : frame := set_promise (mk_promise (Some r) (cbs fr)) fr.

(** [g] ends, and [e] is registered with it. *)
Lemma frames_notify H σ g r e k p fr :
  stat_inv σ -> frames_ok H σ -> σ !! g = Some (S_run p) -> σ !! e = Some (S_reg g k) -> H !! g = Some fr ->
  frames_ok (upd g (ended r) H) (<[e := S_wake g k r]> (<[g := S_done r]> σ)).
Proof.
  intros I Hok Hg He Hfr. pose proof (sv_wait _ I _ _ _ _ He eq_refl) as Heg.
  destruct (fo_frame _ _ Hok _ _ _ Hfr Hg) as (F1 & F2 & F3). split.
  - rewrite length_alter, !length_insert. apply Hok.
  - intros j x t Hj. rewrite !list_lookup_insert_Some, length_insert. rewrite lookup_upd in Hj. case_decide as E.
    + subst j. rewrite Hfr in Hj. injection Hj as <-. intros [(? & _)|[_ [(_ & <- & _)|[? _]]]]; [lia|done|done].
    + intros [(<- & <- & _)|[_ [(? & _)|[_ Ht]]]]; [|done|by eapply (fo_frame _ _ Hok)]. exact (fo_frame _ _ Hok _ _ _ Hj He).
  - intros j x t Hj. rewrite !list_lookup_insert_Some, length_insert. intros Ht Hd.
    assert (Hjg : j <> g) by (intros ->; destruct Ht as [(? & _)|[_ [(_ & <- & _)|[? _]]]]; [lia|done|done]).
    rewrite lookup_upd_ne in Hj by done.
    assert (callers_ok σ j (cbs x)) as [[-> Hn]|(e' & k' & -> & He')].
    { destruct Ht as [(<- & <- & _)|[_ [(? & _)|[_ Ht]]]]; [|done|by eapply (fo_call _ _ Hok)]. by eapply (fo_call _ _ Hok _ _ _ Hj He). }
    + left. split; [done|]. intros e' k'. rewrite !list_lookup_insert_Some. intros [(_ & ? & _)|[_ [(_ & ? & _)|[_ He']]]]; [done|done|by eapply Hn].
    + right. exists e', k'. split; [done|]. rewrite !list_lookup_insert_ne; [done|intros ->; congruence|intros ->; congruence].
Qed.

(** [f] calls a coroutine. *)
Lemma frames_call H σ f c k :
  stat_inv σ -> frames_ok H σ -> σ !! f = Some (S_run (Call c k)) -> frames_ok (H ++ [new_frame]) (<[f := S_call (length H) k]> σ ++ [S_run c]).
Proof.
  intros I Hok Hf. pose proof (fo_len _ _ Hok) as Hlen. pose proof (lookup_lt_Some _ _ _ Hf) as Hlt. split.
  - rewrite !length_app, length_insert. cbn. lia.
  - intros j x t Hj Ht. apply lookup_app_Some in Hj as [Hj|[Hlj Hj]].
    + pose proof (lookup_lt_Some _ _ _ Hj). rewrite lookup_app_l in Ht by (rewrite length_insert; lia).
      apply list_lookup_insert_Some in Ht as [(<- & <- & _)|[_ Ht]]; [|by eapply (fo_frame _ _ Hok)].
      exact (fo_frame _ _ Hok _ _ _ Hj Hf).
    + apply list_lookup_singleton_Some in Hj as [_ <-]. rewrite lookup_app_r in Ht by (rewrite length_insert; lia).
      by apply list_lookup_singleton_Some in Ht as [_ <-].
  - assert (Hgrow : forall j cs, callers_ok σ j cs -> callers_ok (<[f := S_call (length H) k]> σ ++ [S_run c]) j cs).
    { intros j cs Hc. apply (callers_set σ f (S_run (Call c k)) (S_call (length H) k)) in Hc as [[-> Hn]|(e & k' & -> & He)]; [| |done..].
      - left. split; [done|]. intros e k' [He|[_ He]]%lookup_app_Some; [by eapply Hn|]. by apply list_lookup_singleton_Some in He as [_ ?].
      - right. exists e, k'. split; [done|]. rewrite lookup_app_l; [done|]. by eapply lookup_lt_Some. }
    intros j x t Hj Ht Hd. apply Hgrow. apply lookup_app_Some in Hj as [Hj|[Hlj Hj]].
    + pose proof (lookup_lt_Some _ _ _ Hj). rewrite lookup_app_l in Ht by (rewrite length_insert; lia).
      apply list_lookup_insert_Some in Ht as [(<- & <- & _)|[_ Ht]]; by eapply (fo_call _ _ Hok).
    + apply list_lookup_singleton_Some in Hj as [E <-]. left. split; [done|]. intros e k' He.
      destruct (sv_wait _ I _ _ _ _ He eq_refl). lia.
Qed.

(** What is still to be done at most before a thread waits or returns. *)
Fixpoint spine (p : prog) : nat := match p with Call c _ => S (spine c) | _ => 0 end.
Definition weight1 (α : activation) : nat :=
  match α with A_run _ p => 3 * spine p + 5 | A_await _ _ _ => 2 | A_notify _ cs _ => 1 + length cs | A_final _ => 1 end.
Definition weight (A : list activation) : nat := sum_list_with weight1 A.

Lemma move1_done σ b σ' g r : move1 σ b σ' -> σ !! g = Some (S_done r) -> σ' !! g = Some (S_done r).
Proof.
  intros Hm Hg. destruct Hm as [f r' Hf _ _|f r' e k Hf _ He|f c k Hf|f op k Hf|f h k s Hf _ _|f h k r' Hf _|f h k r' Hf].
  2: rewrite !list_lookup_insert_ne by congruence; exact Hg.
  2: rewrite lookup_app_l by (rewrite length_insert; by eapply lookup_lt_Some).
  all: rewrite list_lookup_insert_ne by congruence; exact Hg.
Qed.

Lemma left_move σ b σ' α : move1 σ b σ' -> left_of σ α -> left_of σ' α.
Proof. intros Hm. destruct α as [| |g [|] r|g]; try done; intros [r' Hr]; exists r'; by eapply move1_done. Qed.

(** The statuses move from [σ] to [σ'] and [α] becomes [β], where the rest of the stacks is
    the same. *)
Lemma simulates_move H' σ b σ' f s α A A0 β L' :
  move1 σ b σ' -> frames_ok H' σ' -> σ !! f = Some s -> act_of f s = [α] ->
  (exists L, A ≡ₚ acts σ ++ L /\ Forall (left_of σ) L) -> A ≡ₚ α :: A0 ->
  (forall R, acts σ ≡ₚ α :: R -> acts σ' ++ L' ≡ₚ β ++ R) -> Forall (left_of σ') L' ->
  simulates H' (β ++ A0) σ'.
Proof.
  intros Hm Hok Hf Ha (L & HA & HL) HA0 Hacts HL'. split; [done|].
  destruct (acts_split σ f s Hf) as (R & HR & _). rewrite Ha in HR. cbn [app] in HR.
  assert (E : A0 ≡ₚ R ++ L). { apply (Permutation_cons_inv (a := α)). rewrite <- HA0, HA, HR. done. }
  exists (L' ++ L). split; [|apply Forall_app_2; [done|]; eapply Forall_impl; [exact HL|]; intros x; by eapply left_move].
  rewrite E, (app_assoc (acts σ')), (Hacts R HR). by rewrite app_assoc.
Qed.

Lemma resume_asleep H f fr k op v :
  H !! f = Some fr -> asleep k op fr -> resume_awaiter f v H [] = MkMachine (upd f wake H) [A_run f (k v)].
Proof. intros Hf (E1 & _ & E2 & _ & E3). unfold resume_awaiter. by rewrite Hf, E2, E1, E3. Qed.

Lemma completion_value H f r :
  call_completion (C_finally f) r H [] = match r with R_value v => resume_awaiter f v H [] | R_exception _ _ => MkMachine H [] end.
Proof. by destruct r as [v|[] e]. Qed.

Definition lighter (b : bool) (β : list activation) (α : activation) : Prop := b = false -> (weight β < weight1 α)%nat.

(** What [α] does is a move. *)
Definition is_move (H' : list frame) (β : list activation) (α : activation) (A0 : list activation) (σ : statuses) : Prop :=
  exists b σ', move1 σ b σ' /\ simulates H' (β ++ A0) σ' /\ lighter b β α.

Section Moves.
  Context (H : list frame) (A A0 : list activation) (σ : statuses).
  Context (I : stat_inv σ) (Hok : frames_ok H σ) (HA : exists L, A ≡ₚ acts σ ++ L /\ Forall (left_of σ) L).

Lemma move_end g r :
  σ !! g = Some (S_run (ended_as r)) -> plain r -> A ≡ₚ A_run g (ended_as r) :: A0 ->
  let m := end_body g r H [] in is_move (frames m) (stack m) (A_run g (ended_as r)) A0 σ.
Proof.
  intros Hg Hr HA0. destruct (frames_look _ _ _ _ Hok Hg) as (fr & Hfr & F1 & F2 & F3). unfold end_body. rewrite Hfr. cbn [frames stack from_option].
  assert (Hw : spine (ended_as r) = 0%nat) by (by destruct r).
  destruct (fo_call _ _ Hok _ _ _ Hfr Hg eq_refl) as [[Hc Hn]|(e & k & Hc & He)]; rewrite Hc.
  - exists false, (<[g := S_done r]> σ). assert (Hm : move1 σ false (<[g := S_done r]> σ)) by (by apply mv_end).
    pose proof (lookup_set _ _ _ (S_done r) Hg). split_and!; [done| |intros _; cbn; rewrite Hw; lia].
    eapply (simulates_move _ σ _ _ g _ _ A A0 _ [A_notify g [] r; A_final g]); [exact Hm| |exact Hg|done|exact HA|exact HA0| |].
    + eapply frames_set; [done..| |done]. done.
    + intros R HR. rewrite (acts_set _ _ _ _ R Hg HR). cbn [act_of app]. solve_Permutation.
    + repeat constructor; by eexists.
  - exists false, (<[e := S_wake g k r]> (<[g := S_done r]> σ)). pose proof (sv_wait _ I _ _ _ _ He eq_refl).
    assert (Hm : move1 σ false (<[e := S_wake g k r]> (<[g := S_done r]> σ))) by (by apply mv_notify).
    split_and!; [done| |intros _; cbn; rewrite Hw; lia].
    eapply (simulates_move _ σ _ _ g _ _ A A0 _ [A_final g]); [exact Hm| |exact Hg|done|exact HA|exact HA0| |].
    + by eapply frames_notify.
    + intros R HR. rewrite (acts_set (<[g := S_done r]> σ) e (S_reg g k) _ R).
      * cbn [act_of app]. solve_Permutation.
      * rewrite list_lookup_insert_ne by lia. done.
      * by rewrite (acts_set _ _ _ _ R Hg HR).
    + repeat constructor. exists r. rewrite list_lookup_insert_ne by lia. by eapply lookup_set.
Qed.

Lemma move_call f c k :
  σ !! f = Some (S_run (Call c k)) -> A ≡ₚ A_run f (Call c k) :: A0 ->
  is_move (H ++ [new_frame]) [A_run (length H) c; A_await f (length H) k] (A_run f (Call c k)) A0 σ.
Proof.
  intros Hf HA0. rewrite (fo_len _ _ Hok). exists false, (<[f := S_call (length σ) k]> σ ++ [S_run c]).
  assert (Hm : move1 σ false (<[f := S_call (length σ) k]> σ ++ [S_run c])) by (by apply mv_call).
  split_and!; [done| |intros _; cbn; lia].
  eapply (simulates_move _ σ _ _ f _ _ A A0 _ []); [exact Hm| |exact Hf|done|exact HA|exact HA0| |done].
  - rewrite <- (fo_len _ _ Hok). by apply frames_call.
  - intros R HR. rewrite app_nil_r, acts_app, (acts_set _ _ _ _ R Hf HR), length_insert. cbn [act_of app]. solve_Permutation.
Qed.

Lemma move_io f op k :
  σ !! f = Some (S_run (Io op k)) -> A ≡ₚ A_run f (Io op k) :: A0 ->
  is_move (upd f (suspend k (Some op)) H) [] (A_run f (Io op k)) A0 σ.
Proof.
  intros Hf HA0. destruct (frames_look _ _ _ _ Hok Hf) as (fr & Hfr & F1 & F2 & F3). exists false, (<[f := S_io op k]> σ).
  assert (Hm : move1 σ false (<[f := S_io op k]> σ)) by (by apply mv_io). split_and!; [done| |intros _; cbn; lia].
  eapply (simulates_move _ σ _ _ f _ _ A A0 _ []); [exact Hm| |exact Hf|done|exact HA|exact HA0| |done].
  - eapply frames_set; [done..| |done]. done.
  - intros R HR. by rewrite app_nil_r, (acts_set _ _ _ _ R Hf HR).
Qed.

(** The caller is resumed, or not, after its callee. *)
Lemma frames_after (H0 : list frame) f s k r fr h :
  σ !! f = Some s -> is_done s = false -> is_reg s = false -> H !! f = Some fr -> asleep k None (h fr) -> cbs (h fr) = cbs fr ->
  H0 = upd f h H -> let m := call_completion (C_finally f) r H0 [] in
  frames_ok (frames m) (<[f := after_callee k r]> σ) /\ stack m = act_of f (after_callee k r).
Proof.
  intros Hf Hd Hs Hfr Ha Hcb ->. cbn zeta. rewrite completion_value. assert (Hh : upd f h H !! f = Some (h fr)) by (by rewrite lookup_upd_eq, Hfr).
  destruct r as [v|b e]; cbn [after_callee act_of frames stack].
  - rewrite (resume_asleep _ _ _ _ _ v Hh Ha). cbn [frames stack]. split; [|done].
    rewrite list_alter_alter_eq.
    eapply frames_set; [done..| |done]. destruct Ha as (_ & _ & _ & ? & ?). done.
  - split; [|done]. by eapply frames_set.
Qed.

Lemma move_await f g k :
  σ !! f = Some (S_call g k) -> A ≡ₚ A_await f g k :: A0 ->
  let m := register f g (upd f (suspend k None) H) [] in is_move (frames m) (stack m) (A_await f g k) A0 σ.
Proof.
  intros Hf HA0. pose proof (sv_wait _ I _ _ _ _ Hf eq_refl) as Hfg.
  destruct (frames_look _ _ _ _ Hok Hf) as (fr & Hfr & F1 & F2 & F3).
  assert (is_Some (σ !! g)) as [s Hg] by (apply lookup_lt_is_Some; lia).
  destruct (frames_look _ _ _ _ Hok Hg) as (gr & Hgr & Hgo).
  unfold register. rewrite lookup_upd_ne, Hgr by lia. destruct (is_done s) eqn:Hd.
  - destruct s as [| | | | |r|]; try done. destruct Hgo as [-> _]. cbn zeta.
    destruct (frames_after _ f _ k r fr (suspend k None) Hf eq_refl eq_refl Hfr ltac:(done) eq_refl eq_refl) as [Hok' Hst].
    exists (returns r), (<[f := after_callee k r]> σ).
    assert (Hm : move1 σ (returns r) (<[f := after_callee k r]> σ)) by (by eapply mv_late).
    split_and!; [done| |rewrite Hst; destruct r; [done|]; intros _; cbn; lia].
    eapply (simulates_move _ σ _ _ f _ _ A A0 _ []); [exact Hm|exact Hok'|exact Hf|done|exact HA|exact HA0| |done].
    intros R HR. by rewrite app_nil_r, (acts_set _ _ _ _ R Hf HR), Hst.
  - assert (m_result (promise gr) = None) as -> by (destruct s; try done; by destruct Hgo as (? & ? & ?); naive_solver).
    exists false, (<[f := S_reg g k]> σ). cbn [frames stack].
    assert (Hm : move1 σ false (<[f := S_reg g k]> σ)) by (by eapply mv_reg). split_and!; [done| |intros _; cbn; lia].
    eapply (simulates_move _ σ _ _ f _ _ A A0 _ []); [exact Hm| |exact Hf|done|exact HA|exact HA0| |done].
    + by eapply frames_reg.
    + intros R HR. by rewrite app_nil_r, (acts_set _ _ _ _ R Hf HR).
Qed.

Lemma move_wake f g k r :
  σ !! f = Some (S_wake g k r) -> A ≡ₚ A_notify g [C_finally f] r :: A0 ->
  let m := call_completion (C_finally f) r H [A_notify g [] r] in is_move (frames m) (stack m) (A_notify g [C_finally f] r) A0 σ.
Proof.
  intros Hf HA0. destruct (sv_wake _ I _ _ _ _ Hf) as (Hfg & Hr & Hg). destruct (frames_look _ _ _ _ Hok Hf) as (fr & Hfr & Hfo).
  rewrite completion_local. cbn [frames stack].
  destruct (frames_after H f _ k r fr id Hf eq_refl eq_refl Hfr Hfo eq_refl) as [Hok' Hst].
  { symmetry. rewrite list_alter_id; [done|by intros []]. }
  exists (returns r), (<[f := after_callee k r]> σ).
  assert (Hm : move1 σ (returns r) (<[f := after_callee k r]> σ)) by (by eapply mv_wake).
  split_and!; [done| |rewrite Hst; destruct r; [done|]; intros _; cbn; lia].
  eapply (simulates_move _ σ _ _ f _ _ A A0 _ [A_notify g [] r]); [exact Hm|exact Hok'|exact Hf|done|exact HA|exact HA0| |].
  - intros R HR. rewrite (acts_set _ _ _ _ R Hf HR), Hst. solve_Permutation.
  - repeat constructor. exists r. rewrite list_lookup_insert_ne by lia. done.
Qed.
End Moves.

(** A coroutine that is over. *)
Lemma move_left H A0 σ α L H' β :
  frames_ok H σ -> α :: A0 ≡ₚ acts σ ++ L -> Forall (left_of σ) L -> α ∈ L ->
  step (MkMachine H [α]) = Some (MkMachine H' β) -> β = [] /\ simulates H' A0 σ.
Proof.
  intros Hok HA HL HaL Hst. pose proof (proj1 (Forall_forall _ _) HL α HaL) as Hl.
  assert (exists g r h, σ !! g = Some (S_done r) /\ (forall fr, res (h fr) = res fr /\ io (h fr) = io fr) /\
            MkMachine H' β = MkMachine (upd g h H) []) as (g & r & h & Hg & Hh & [= -> ->]).
  { destruct α as [| |g [|] r|g]; try done; destruct Hl as [r' Hr]; injection Hst as <- <-; eexists g, r', _; (split; [exact Hr|split; [|reflexivity]]); done. }
  split; [done|]. split; [by eapply frames_over|].
  apply elem_of_Permutation in HaL as (L' & HL'). exists L'. rewrite HL' in HL. apply Forall_cons in HL as [_ HL]. split; [|done].
  apply (Permutation_cons_inv (a := α)). rewrite HA, HL'. solve_Permutation.
Qed.

(** Whatever activation is next, on whatever thread. *)
Lemma sim_step H A σ α A0 H' β :
  stat_inv σ -> simulates H A σ -> A ≡ₚ α :: A0 -> step (MkMachine H [α]) = Some (MkMachine H' β) ->
  is_move H' β α A0 σ \/ β = [] /\ simulates H' A0 σ.
Proof.
  intros I [Hok (L & HA & HL)] HA0 Hst. assert (Hin : α ∈ acts σ ++ L) by (rewrite <- HA, HA0; by left).
  apply elem_of_app in Hin as [Hin|Hin]; [left|right; eapply (move_left _ _ _ _ L); [done|by rewrite <- HA0|done..]].
  assert (HA' : exists L, A ≡ₚ acts σ ++ L /\ Forall (left_of σ) L) by (by exists L).
  assert (Hm : forall m, Some m = Some (MkMachine H' β) -> is_move (frames m) (stack m) α A0 σ -> is_move H' β α A0 σ)
    by (by intros m [= ->]).
  destruct (acts_from _ _ Hin) as (f & s & Hf & Hs). destruct s as [p|g k|g k|g k r| | |]; try done; injection Hs as <-.
  - destruct p as [v|e|c k|op k]; eapply Hm; try exact Hst; cbn [frames stack].
    + by eapply (move_end H A A0 σ I Hok HA' f (R_value v)).
    + by eapply (move_end H A A0 σ I Hok HA' f (R_exception true e)).
    + by eapply move_call.
    + by eapply move_io.
  - eapply Hm; [exact Hst|]. by eapply move_await.
  - eapply Hm; [exact Hst|]. by eapply move_wake.
Qed.

(** ** The threads *)

Definition at_rest (s : cstate) : Prop := Forall (fun st => st = []) (threads s).

(** With the frames [H] and the activations [A], what is left of the program is [q]. *)
Definition acts_prog (H : list frame) (A : list activation) (q : prog) : Prop :=
  exists σ, stat_inv σ /\ simulates H A σ /\ resid σ 0 q.

Definition at_prog (s : cstate) (q : prog) : Prop := acts_prog (heap s) (concat (threads s)) q.

(** Frame [l] waits for [op]. *)
Definition waits_io (H : list frame) (l : nat) (op : Z) : Prop := exists fr, H !! l = Some fr /\ io fr = Some op.

Lemma simulates_perm H A A' σ : A ≡ₚ A' -> simulates H A σ -> simulates H A' σ.
Proof. intros E [Hok (L & HA & HL)]. split; [done|]. exists L. by rewrite <- E. Qed.

Lemma acts_prog_perm H A A' q : A ≡ₚ A' -> acts_prog H A q -> acts_prog H A' q.
Proof. intros E (σ & I & Hs & Hq). exists σ. split_and!; [done|by eapply simulates_perm|done]. Qed.

Lemma thread_perm ts1 (β K : list activation) ts2 : concat (ts1 ++ (β ++ K) :: ts2) ≡ₚ β ++ concat ts1 ++ K ++ concat ts2.
Proof. rewrite concat_app. cbn [concat]. solve_Permutation. Qed.

Lemma weight_app A B : weight (A ++ B) = (weight A + weight B)%nat.
Proof. apply sum_list_with_app. Qed.

#[local] Instance weight_perm : Proper ((≡ₚ) ==> (=)) weight.
Proof. intros A B HAB. unfold weight. by rewrite HAB. Qed.

Lemma waits_io_status H σ l op : frames_ok H σ -> waits_io H l op <-> exists k, σ !! l = Some (S_io op k).
Proof.
  intros Hok. split.
  - intros (fr & Hl & Hio).
    assert (is_Some (σ !! l)) as [s Hs] by (apply lookup_lt_is_Some; rewrite <- (fo_len _ _ Hok); by eapply lookup_lt_Some).
    pose proof (fo_frame _ _ Hok _ _ _ Hl Hs) as Hfo. rewrite Hs.
    destruct s as [| | | |op' k| |]; cbn [frame_ok] in Hfo; try (destruct Hfo as (? & ? & ?); congruence); [|destruct Hfo; congruence].
    exists k. destruct Hfo as (_ & ? & _). congruence.
  - intros (k & Hs). destruct (frames_look _ _ _ _ Hok Hs) as (fr & Hfr & _ & Hio & _). by exists fr.
Qed.

Lemma move1_io σ b σ' l op k : move1 σ b σ' -> σ !! l = Some (S_io op k) -> σ' !! l = Some (S_io op k).
Proof.
  intros Hm Hl. destruct Hm as [f r' Hf _ _|f r' e k' Hf _ He|f c k' Hf|f op' k' Hf|f h k' s Hf _ _|f h k' r' Hf _|f h k' r' Hf].
  2: rewrite !list_lookup_insert_ne by congruence; exact Hl.
  2: rewrite lookup_app_l by (rewrite length_insert; by eapply lookup_lt_Some).
  all: rewrite list_lookup_insert_ne by congruence; exact Hl.
Qed.

(** A step returns from a call of the program, or leaves the program as it is
    with less to do; a coroutine that waits for the environment goes on waiting. *)
Lemma acts_step H A q α A0 H' β :
  acts_prog H A q -> A ≡ₚ α :: A0 -> step (MkMachine H [α]) = Some (MkMachine H' β) ->
  (exists q', acts_prog H' (β ++ A0) q' /\ (red q q' \/ q' = q /\ (weight β < weight1 α)%nat)) /\
  forall l op, waits_io H l op -> waits_io H' l op.
Proof.
  intros (σ & I & Hs & Hq) HA Hst. pose proof Hs as [Hok _].
  destruct (sim_step _ _ _ _ _ _ _ I Hs HA Hst) as [(b & σ' & Hm & Hs' & Hw)|[-> Hs']].
  - split.
    + destruct (resid_move _ _ _ _ I Hm Hq) as (q' & Hq' & Hb). exists q'. split.
      * exists σ'. split_and!; [by eapply stat_inv_move|done|done].
      * destruct b; [by left|right]. split; [done|by apply Hw].
    + intros l op Hio. apply (waits_io_status _ _ _ _ Hok) in Hio as (k & Hl). destruct Hs' as [Hok' _].
      apply (waits_io_status _ _ _ _ Hok'). exists k. by eapply move1_io.
  - split.
    + exists q. split; [by exists σ|]. right. split; [done|]. destruct α; cbn; lia.
    + intros l op Hio. destruct Hs' as [Hok' _]. by apply (waits_io_status _ _ _ _ Hok'), (waits_io_status _ _ _ _ Hok).
Qed.

(** An answer is one to the operation the program waits for. *)
Lemma acts_answer H A q l op a :
  acts_prog H A q -> waits_io H l op ->
  let m := resume_awaiter l a H [] in
  exists t, denote q = D_io op t /\ exists q', acts_prog (frames m) (stack m ++ A) q' /\ denote q' = t a.
Proof.
  intros (σ & I & [Hok (L & HA & HL)] & Hq) Hio. pose proof Hio as (fr & Hl & _).
  apply (waits_io_status _ _ _ _ Hok) in Hio as (k & Hs). pose proof (fo_frame _ _ Hok _ _ _ Hl Hs) as Has.
  rewrite (resume_asleep _ _ _ _ _ a Hl Has). cbn [frames stack].
  assert (Hle : leads σ 0 l) by (by eapply first_leads).
  destruct (resid_answer σ l op k a 0 q Hs Hle Hq) as (t & Ht & q' & Hq' & Eq). exists t. split; [done|]. exists q'. split; [|done].
  exists (<[l := S_run (k a)]> σ). split_and!; [by eapply stat_inv_answer| |exact Hq']. split.
  - eapply frames_set; [done..| |done]. destruct Has as (_ & _ & _ & ? & ?). done.
  - exists L. split.
    + rewrite HA, (acts_set σ l _ _ _ Hs (reflexivity _)). done.
    + eapply Forall_impl; [exact HL|]. assert (Hd : forall g r, σ !! g = Some (S_done r) -> <[l := S_run (k a)]> σ !! g = Some (S_done r))
        by (intros g r Hg; rewrite list_lookup_insert_ne by congruence; done).
      intros [| |g [|] r|g]; try done; cbn [left_of]; naive_solver.
Qed.

Lemma acts_start p : acts_prog [new_frame] [A_run 0 p] p.
Proof.
  exists [S_run p]. split_and!; [apply stat_inv_start| |by apply rs_run]. split; [|by exists []].
  split; [done| |].
  - intros f fr s Hf Hs. apply list_lookup_singleton_Some in Hf as [-> <-]. by injection Hs as <-.
  - intros g fr s Hg Hs _. apply list_lookup_singleton_Some in Hg as [-> <-]. left. split; [done|].
    intros e k He. by apply list_lookup_singleton_Some in He as [_ ?].
Qed.

Lemma moves_prog s s' q :
  at_prog s q -> thread_moves s s' ->
  exists q', at_prog s' q' /\ (red q q' \/ q' = q /\ (weight (concat (threads s')) < weight (concat (threads s)))%nat).
Proof.
  intros Hq Hm. destruct Hm as [H ts1 st ts2 H' st' Hst]. unfold at_prog in *. cbn [heap threads] in *.
  destruct st as [|α K]; [done|]. apply step_local in Hst as (β & H1 & [= <- ->] & Hst).
  set (A0 := concat ts1 ++ K ++ concat ts2).
  assert (EA : concat (ts1 ++ (α :: K) :: ts2) ≡ₚ α :: A0) by apply (thread_perm ts1 [α] K ts2).
  pose proof (thread_perm ts1 β K ts2) as EB. fold A0 in EB.
  assert (WA : weight (concat (ts1 ++ (α :: K) :: ts2)) = (weight1 α + weight A0)%nat) by (by rewrite EA).
  assert (WB : weight (concat (ts1 ++ (β ++ K) :: ts2)) = (weight β + weight A0)%nat) by (by rewrite EB, weight_app).
  rewrite WA, WB. destruct (acts_step _ _ _ _ _ _ _ Hq EA Hst) as [(q' & Hq' & Hr) _]. exists q'.
  split; [by eapply acts_prog_perm|]. destruct Hr as [Hr|[-> Hw]]; [by left|right; split; [done|lia]].
Qed.

Lemma answer_prog s q op a s' :
  at_prog s q -> answers s op a s' -> exists t, denote q = D_io op t /\ exists q', at_prog s' q' /\ denote q' = t a.
Proof.
  intros Hq Ha. destruct Ha as [H ts l fr op a m Hl Hio Hm]. unfold at_prog in *. cbn [heap threads] in *.
  destruct (acts_answer _ _ _ l op a Hq) as (t & Ht & q' & Hq' & Eq); [by exists fr|]. rewrite Hm in Hq'.
  exists t. split; [done|]. exists q'. split; [|done]. eapply acts_prog_perm; [|exact Hq'].
  rewrite concat_app. cbn [concat]. solve_Permutation.
Qed.

Lemma follow_snoc tr : forall d op a, follow d (tr ++ [(op, a)]) =
  match follow d tr with Some (D_io op' t) => if decide (op = op') then Some (t a) else None | _ => None end.
Proof.
  induction tr as [|[op' a'] tr IH]; intros d op a; [by destruct d|]. cbn [app follow]. destruct d as [| | |op2 t]; try done.
  case_decide; [apply IH|done].
Qed.

Lemma cruns_prog p tr s : cruns p tr s -> exists q, at_prog s q /\ follow (denote p) tr = Some (denote q).
Proof.
  induction 1 as [|tr s s' _ (q & Hq & Ef) Hm|tr s op a s' _ (q & Hq & Ef) Ha].
  - exists p. split; [apply acts_start|done].
  - destruct (moves_prog _ _ _ Hq Hm) as (q' & Hq' & Hr). exists q'. split; [done|].
    destruct Hr as [Hr|[-> _]]; [by rewrite (red_denote _ _ Hr)|done].
  - destruct (answer_prog _ _ _ _ _ Hq Ha) as (t & Et & q' & Hq' & Eq). exists q'. split; [done|].
    rewrite follow_snoc, Ef, Et, decide_True by done. by rewrite Eq.
Qed.

Lemma moves_end s q : at_prog s q -> Acc (fun s' s => thread_moves s s') s.
Proof.
  revert s. induction (red_ends q) as [q _ IHq]. intros s.
  induction (well_founded_ltof _ (fun s => weight (concat (threads s))) s) as [s _ IHs]. intros Hq. constructor. intros s' Hm.
  destruct (moves_prog _ _ _ Hq Hm) as (q' & Hq' & [Hr|[-> Hw]]); [by eapply IHq|by eapply IHs].
Qed.

(** A thread that is in a function goes on. *)
Lemma step_some H α K : exists H' st', step (MkMachine H (α :: K)) = Some (MkMachine H' st').
Proof.
  assert (E : exists m, step (MkMachine H (α :: K)) = Some m) by (destruct α as [f [v|e|c k|op k]|f g k|f [|c cs] r|f]; by eexists).
  destruct E as ([H' st'] & E). by exists H', st'.
Qed.

Lemma rest_or_move s : at_rest s \/ exists s', thread_moves s s'.
Proof.
  destruct s as [H ts]. unfold at_rest. cbn [threads]. induction ts as [|[|α K] ts IH]; [by left| |right].
  - destruct IH as [Hr|(s' & Hs')]; [left; by constructor|right]. inversion Hs' as [? ts1 st ts2 H' st' Hst E1 E2]; subst.
    exists (MkC H' ([] :: ts1 ++ st' :: ts2)). by apply (tm_step _ ([] :: ts1)).
  - destruct (step_some H α K) as (H' & st' & Hst). exists (MkC H' (st' :: ts)). by apply (tm_step _ []).
Qed.

(** A coroutine that nothing on a stack belongs to. *)
Definition resting (s : status) : Prop := match s with S_reg _ _ | S_io _ _ | S_done _ | S_hang _ _ => True | _ => False end.

Lemma rest_resting H σ f st : simulates H [] σ -> σ !! f = Some st -> resting st.
Proof.
  intros [_ (L & HA & _)] Hf. apply Permutation_nil_l, eq_sym, app_eq_nil in HA as [HA _].
  destruct (acts_split σ f st Hf) as (R & HR & _). rewrite HA in HR.
  apply Permutation_nil_l, eq_sym, app_eq_nil in HR as [HR _]. by destruct st.
Qed.

(** What a coroutine waits for in the end, when nothing runs. *)
Lemma resid_rest σ f q :
  stat_inv σ -> (forall j st, σ !! j = Some st -> resting st) -> resid σ f q ->
  match denote q with
  | D_ret v => σ !! f = Some (S_done (R_value v))
  | D_throw e => σ !! f = Some (S_done (R_exception true e))
  | D_hang => exists l e k, leads σ f l /\ σ !! l = Some (S_hang e k)
  | D_io op _ => exists l k, leads σ f l /\ σ !! l = Some (S_io op k)
  end.
Proof.
  intros I Hall Hq. induction Hq as [f p Hf|f op k Hf|f r Hf|f s g k p Hf Hw Hp IH|f g k r Hf|f e k Hf].
  - destruct (Hall _ _ Hf).
  - cbn. exists f, k. split; [apply ld_here|done].
  - pose proof (sv_done _ I _ _ Hf) as Hpl. by destruct r as [v|[] e].
  - cbn [denote]. assert (s = S_reg g k) as -> by (pose proof (Hall _ _ Hf); destruct s; try done; by injection Hw as -> ->).
    destruct (sv_reg _ I _ _ _ Hf) as (sg & Hg & Hd).
    destruct (denote p) as [v|e| |op t]; cbn [dbind]; [rewrite IH in Hg; by injection Hg as <-..| |].
    + destruct IH as (l & e & k' & Hl & Hs). exists l, e, k'. split; [|done]. by eapply ld_wait.
    + destruct IH as (l & k' & Hl & Hs). exists l, k'. split; [|done]. by eapply ld_wait.
  - destruct (Hall _ _ Hf).
  - cbn. exists f, e, k. split; [apply ld_here|done].
Qed.

(** Only the end of the chain can wait for the environment. *)
Lemma io_is_end H σ l s j op :
  stat_inv σ -> frames_ok H σ -> leads σ 0 l -> σ !! l = Some s -> waits_for s = None -> waits_io H j op -> j = l /\ exists k, s = S_io op k.
Proof.
  intros I Hok Hl Hs Hw Hj. apply (waits_io_status _ _ _ _ Hok) in Hj as (k & Ht).
  assert (j = l) as ->; [|split; [done|]; rewrite Hs in Ht; injection Ht as ->; by exists k].
  eapply leads_end; [by eapply (first_leads σ j)|done..].
Qed.

(** One coroutine of a program waits for the environment at most. *)
Lemma one_waits H A q l l' op op' : acts_prog H A q -> waits_io H l op -> waits_io H l' op' -> l = l' /\ op = op'.
Proof.
  intros (σ & I & [Hok _] & _) H1 H2. pose proof H1 as (k & Hk)%(waits_io_status _ _ _ _ Hok).
  destruct (io_is_end H σ l (S_io op k) l' op' I Hok (first_leads _ _ I _ Hk eq_refl) Hk eq_refl H2) as [-> (k' & [= -> _])]. done.
Qed.

Lemma acts_agrees H q : acts_prog H [] q -> agrees (denote q) (MkMachine H []).
Proof.
  intros (σ & I & Hsim & Hq). pose proof (fun f st => rest_resting H σ f st Hsim) as Hall. destruct Hsim as [Hok _].
  pose proof (resid_rest σ 0 q I Hall Hq) as Hd. unfold agrees, result_of. cbn [frames].
  assert (Hno : forall l s0, leads σ 0 l -> σ !! l = Some s0 -> waits_for s0 = None -> (forall op k, s0 <> S_io op k) -> no_io H).
  { intros l s0 Hl Hs0 Hw Hn j fr Hj. destruct (io fr) as [op|] eqn:E; [|done].
    destruct (io_is_end _ _ _ _ j op I Hok Hl Hs0 Hw) as [_ (k & Es)]; [by exists fr|]. by destruct (Hn op k). }
  assert (H0 : forall l st, leads σ 0 l -> σ !! l = Some st -> is_done st = false -> (fr ← H !! 0%nat; res fr) = None).
  { intros l st Hl Hst Hdn. assert (exists s0, σ !! 0%nat = Some s0 /\ is_done s0 = false) as (s0 & Hs0 & Hd0).
    { inversion Hl as [|? s1 g k ? Hs1 Hw]; subst; [by eauto|]. exists s1. split; [done|by destruct s1]. }
    destruct (frames_look _ _ _ _ Hok Hs0) as (fr & -> & Hfo). cbn. destruct s0; try done; cbn [frame_ok] in Hfo; by destruct Hfo as (? & ? & ?); naive_solver. }
  destruct (denote q) as [v|e| |op t].
  - destruct (frames_look _ _ _ _ Hok Hd) as (fr & -> & Hres & _). split; [exact Hres|]. by eapply Hno; [apply ld_here|..].
  - destruct (frames_look _ _ _ _ Hok Hd) as (fr & -> & Hres & _). split; [exact Hres|]. by eapply Hno; [apply ld_here|..].
  - destruct Hd as (l & e & k & Hl & Hs). split; [by eapply H0|by eapply Hno].
  - destruct Hd as (l & k & Hl & Hs). split; [by eapply H0|]. exists l. split; [apply (waits_io_status _ _ _ _ Hok); by exists k|].
    intros j fr Hj Hne. destruct (io fr) as [op'|] eqn:E; [|done].
    by destruct (io_is_end _ _ _ _ j op' I Hok Hl Hs eq_refl) as [? _]; [by exists fr|].
Qed.

Lemma prog_agrees s q : at_rest s -> at_prog s q -> agrees (denote q) (MkMachine (heap s) []).
Proof. intros Hr Hq. apply acts_agrees. unfold at_prog in Hq. by rewrite (proj2 (concat_nil_Forall _) Hr) in Hq. Qed.

(** * Results *)

(** C4. Awaiting is calling on any number of threads, however they take turns, up to
    exceptions of callees: an operation that is answered is the next one of the same
    program run by ordinary calls, even when the coroutines that wait for its coroutine
    are still about to register; when no thread is in a function any more, the program has
    the value the calls return, or the exception the program itself threw, or exactly one
    coroutine waits, for the next operation of the calls, or, where an exception leaves a
    call that another coroutine awaits, the program has no result and no coroutine waits.
    The threads come to that point after finitely many steps, whatever their order, and
    none of them stops before. *)
Theorem threads_keep_the_program p tr s :
  cruns p tr s ->
  (exists c, asked (called p) tr = Some c /\ (at_rest s -> rests_like c (MkMachine (heap s) []))) /\
  Acc (fun s' s => thread_moves s s') s /\ (at_rest s \/ exists s', thread_moves s s').
Proof.
  intros Hr. destruct (cruns_prog p tr s Hr) as (q & Hq & Ef). split; [|split; [by eapply moves_end|apply rest_or_move]].
  destruct (follow_called p tr _ (MkMachine (heap s) []) Ef) as (c & Hc & Ha). exists c. split; [done|].
  intros Hrest. by apply Ha, prog_agrees.
Qed.

(** Thread [i] goes on; the operation of coroutine [l] is answered. *)
Inductive turn := T_move (i : nat) | T_answer (l : nat) (a : Z).

Fixpoint play (es : list turn) (s : cstate) (tr : list (Z * Z)) : option (cstate * list (Z * Z)) :=
  match es with
  | [] => Some (s, tr)
  | T_move i :: es =>
      st ← threads s !! i; m ← step (MkMachine (heap s) st); play es (MkC (frames m) (<[i := stack m]> (threads s))) tr
  | T_answer l a :: es =>
      fr ← heap s !! l; op ← io fr;
      let m := resume_awaiter l a (heap s) [] in
      play es (MkC (frames m) (threads s ++ [stack m])) (tr ++ [(op, a)])
  end.

Lemma play_cruns p es : forall s tr s' tr', cruns p tr s -> play es s tr = Some (s', tr') -> cruns p tr' s'.
Proof.
  induction es as [|e es IH]; intros [H ts] tr s' tr' Hr Hp; [by injection Hp as <- <-|].
  destruct e as [i|l a]; cbn [play heap threads] in Hp.
  - apply bind_Some in Hp as (st & Hst & Hp). apply bind_Some in Hp as ([H' st'] & Hm & Hp). cbn [frames stack] in Hp.
    eapply IH; [|exact Hp]. eapply cr_move; [exact Hr|]. apply list_elem_of_split_length in Hst as (ts1 & ts2 & -> & ->).
    rewrite insert_app_r_alt, Nat.sub_diag by done. by apply tm_step.
  - apply bind_Some in Hp as (fr & Hfr & Hp). apply bind_Some in Hp as (op & Hop & Hp).
    eapply IH; [|exact Hp]. eapply cr_answer; [exact Hr|]. by apply (an_answer H ts l fr op a).
Qed.

(** The third coroutine of [ex_prog] is answered, and ends, on a second thread before the
    others register. *)
Definition ex_race : list turn :=
  [T_move 0; T_move 0; T_move 0; T_answer 2 5; T_move 1; T_move 0; T_move 0; T_move 1; T_move 0; T_move 1;
   T_answer 1 7; T_move 2; T_move 2; T_move 2; T_move 2; T_move 2; T_move 2; T_move 2].

Definition ex_first : cstate := MkC [new_frame] [[A_run 0 ex_prog]].

Lemma threads_keep_the_program_witness :
  exists s, cruns ex_prog [(1, 5); (2, 7)] s /\ at_rest s /\ result_of 0 (MkMachine (heap s) []) = Some (R_value 142).
Proof.
  assert (E : exists s, play ex_race ex_first [] = Some (s, [(1, 5); (2, 7)]) /\ threads s = [[]; []; []])
    by (eexists; split; [vm_compute; reflexivity|reflexivity]).
  destruct E as (s & Hp & Hts). pose proof (play_cruns ex_prog ex_race ex_first [] _ _ (cr_start _) Hp) as Hr.
  assert (Hrest : at_rest s) by (unfold at_rest; rewrite Hts; repeat constructor).
  destruct (threads_keep_the_program ex_prog [(1, 5); (2, 7)] s Hr) as [(d & Hf & Ha) _].
  exists s. split; [exact Hr|]. split; [exact Hrest|]. injection Hf as <-. exact (proj1 (Ha Hrest)).
Defined.

(** The result does not depend on how the threads take turns. *)
Theorem same_answers_same_result p tr s1 s2 :
  cruns p tr s1 -> cruns p tr s2 -> at_rest s1 -> at_rest s2 ->
  result_of 0 (MkMachine (heap s1) []) = result_of 0 (MkMachine (heap s2) []).
Proof.
  intros H1 H2 R1 R2. destruct (cruns_prog _ _ _ H1) as (q1 & Q1 & E1), (cruns_prog _ _ _ H2) as (q2 & Q2 & E2).
  pose proof (prog_agrees _ _ R1 Q1) as A1. pose proof (prog_agrees _ _ R2 Q2) as A2. rewrite E1 in E2. injection E2 as E2. rewrite <- E2 in A2.
  unfold agrees in A1, A2. destruct (denote q1); destruct A1, A2; congruence.
Qed.

(** [Awaiter<void>::resume] has neither the flag [m_is_resumed] nor the test of
    [m_handle.done()]; [None] resumes a coroutine that is not suspended. *)
Definition resume_unguarded (f : nat) (v : Z) (H : list frame) (K : list activation) : option machine :=
  fr ← H !! f; k ← susp fr;
  if at_final fr then None else Some (MkMachine (upd f wake H) (A_run f (k v) :: K)).

(** It needs neither: when a callee notifies its caller, the caller is suspended and was not resumed. *)
Theorem void_resume_safe p tr s g f cs v K :
  cruns p tr s -> A_notify g (C_finally f :: cs) (R_value v) ∈ concat (threads s) ->
  resume_unguarded f v (heap s) K = Some (resume_awaiter f v (heap s) K).
Proof.
  intros Hr Hin. destruct (cruns_prog p tr s Hr) as (q & (σ & I & [Hok (L & HA & HL)] & _) & _). rewrite HA in Hin.
  apply elem_of_app in Hin as [Hin|Hin]; [|by destruct (proj1 (Forall_forall _ _) HL _ Hin)].
  destruct (acts_from _ _ Hin) as (f' & st & Hf & Hs). destruct st; try done. injection Hs as -> <- <- ->.
  destruct (frames_look _ _ _ _ Hok Hf) as (fr & Hfr & E1 & _ & E2 & _ & E3). unfold resume_unguarded, resume_awaiter. rewrite Hfr.
  cbn [mbind option_bind]. by rewrite E2, E1, E3.
Qed.
