(* ===== verification/CoroSched.v ===== *)
(** * Coroutines on the scheduler

    Puts the coroutines of [CoroThreads] on the workers of [SchedThreads]
    ([sylar/coroutine/coro20/task.hpp], [fiber.h], [scheduler.cc]).  A program is scheduled
    as a task whose first run starts its first coroutine ([TaskCoro20] with
    [TaskBeginExecuter]); the environment answers an operation by scheduling the callback
    that resumes the coroutine which waits for it.  A worker that runs a task is busy until
    the functions the task has called have returned, and meanwhile neither takes another task nor
    waits.  The program may be any number of clients, each with frames of its own. *)

From stdpp Require Import relations.
From S2P Require Import Prelude CoroTask Scheduler SchedThreads CoroCall CoroThreads.

(** What a task does: start program [j], or resume its coroutine [l]. *)
Inductive job := J_start (j : nat) | J_answer (j l : nat) (a : Z).

Record client := MkClient {
  text : prog;
  mem : list frame;
  answered : list (Z * Z);        (* the operations answered so far, with the answers *)
}.

Record csys := MkCS {
  pool : sys;                     (* task [t] is [jobs !! t] *)
  jobs : list job;
  clients : list client;
  busy : list (nat * list activation);   (* the client and the stack of each worker *)
}.

(** The task [t] has not been run yet. *)
Definition open (s : csys) (t : nat) : Prop := t ∉ executed (pool s).

Definition set_client (j : nat) (H : list frame) (lg : list (Z * Z)) (s : list client) : list client :=
  alter (fun c => MkClient (text c) H lg) j s.

(** Running a job: the client afterwards and what is on the stack. *)
Definition run_job (b : job) (cs : list client) : option (list client * (nat * list activation)) :=
  match b with
  | J_start j => c ← cs !! j; Some (cs, (j, [A_run 0 (text c)]))
  | J_answer j l a =>
      c ← cs !! j; fr ← mem c !! l; op ← io fr;
      let m := resume_awaiter l a (mem c) [] in
      Some (set_client j (frames m) (answered c ++ [(op, a)]) cs, (j, stack m))
  end.

(** A worker that is not about to run a task. *)
Definition no_task (w : wpc) : bool := match w with W_exec (_ :: _) => false | _ => true end.

(** The environment. *)
Inductive asks : csys -> csys -> Prop :=
  (* a client is created and scheduled *)
  | cy_spawn P js cs bs p :
      asks (MkCS P js cs bs) (MkCS (schedule_task (length js) P) (js ++ [J_start (length cs)]) (cs ++ [MkClient p [new_frame] []]) bs)
  (* an operation that has no answer yet is answered *)
  | cy_answer P js cs bs j c l op a :
      cs !! j = Some c -> waits_io (mem c) l op ->
      (forall t a', js !! t = Some (J_answer j l a') -> t ∈ executed P) ->
      asks (MkCS P js cs bs) (MkCS (schedule_task (length js) P) (js ++ [J_answer j l a]) cs bs).

(** The threads. *)
Inductive goes : csys -> csys -> Prop :=
  (* the rest of a call of schedule *)
  | cy_add P js cs bs l1 t idx l2 :
      placing P = l1 ++ (t, idx) :: l2 -> goes (MkCS P js cs bs) (MkCS (add_task l1 t idx l2 P) js cs bs)
  | cy_count P js cs bs u :
      uncounted P = S u ->
      goes (MkCS P js cs bs)
        (MkCS (set_calls (placing P) u (S (untickled P)) (set_queue (nodes P) (loop_idx P) (alloc_idx P) (u32 (count P + 1)) P)) js cs bs)
  | cy_tickle P js cs bs u k :
      untickled P = (k + S u)%nat -> goes (MkCS P js cs bs) (MkCS (set_calls (placing P) (uncounted P) k (tickle P)) js cs bs)
  (* a worker that is free *)
  | cy_work P js cs bs l1 w l2 w' P' j :
      workers P = l1 ++ w :: l2 -> no_task w = true -> bs !! length l1 = Some (j, []) -> work w P = Some (w', P') ->
      goes (MkCS P js cs bs) (MkCS (set_workers (threads_count P') (l1 ++ w' :: l2) P') js cs bs)
  | cy_exec P js cs bs l1 t batch l2 j b cs' st :
      workers P = l1 ++ W_exec (t :: batch) :: l2 -> bs !! length l1 = Some (j, []) -> js !! t = Some b -> run_job b cs = Some (cs', st) ->
      goes (MkCS P js cs bs)
        (MkCS (set_workers (threads_count P) (l1 ++ W_exec batch :: l2) (set_logs (sched P) (executed P ++ [t]) P)) js cs' (<[length l1 := st]> bs))
  (* a worker that is busy *)
  | cy_run P js cs bs i j st c H' st' :
      bs !! i = Some (j, st) -> cs !! j = Some c -> step (MkMachine (mem c) st) = Some (MkMachine H' st') ->
      goes (MkCS P js cs bs) (MkCS P js (set_client j H' (answered c) cs) (<[i := (j, st')]> bs)).

Definition csys_step (s s' : csys) : Prop := asks s s' \/ goes s s'.

Definition csys_init (n : nat) : csys := MkCS (Sys_ctor n) [] [] (replicate n (0%nat, [])).

(** ** The invariant *)

(** What the workers have on their stacks of client [j]. *)
Definition stack_of (j : nat) (b : nat * list activation) : list activation := if decide (b.1 = j) then b.2 else [].
Definition acts_at (j : nat) (bs : list (nat * list activation)) : list activation := bs ≫= stack_of j.

(** A client that was not started yet, or goes on like [q]. *)
Definition client_ok (s : csys) (j : nat) (c : client) : Prop :=
  (mem c = [new_frame] /\ answered c = [] /\ acts_at j (busy s) = [] /\ exists t, jobs s !! t = Some (J_start j) /\ open s t) \/
  ((forall t, jobs s !! t = Some (J_start j) -> t ∈ executed (pool s)) /\
   exists q, acts_prog (mem c) (acts_at j (busy s)) q /\ follow (denote (text c)) (answered c) = Some (denote q)).

Record csys_inv (n : nat) (s : csys) : Prop := {
  cv_pool : rtc sys_step (Sys_ctor n) (pool s);
  cv_flags : stop (pool s) = false /\ autostop (pool s) = false;
  cv_busy : length (busy s) = n;
  cv_sched : sched (pool s) = seq 0 (length (jobs s));
  cv_client : forall j c, clients s !! j = Some c -> client_ok s j c;
  cv_stack : forall i j st, busy s !! i = Some (j, st) -> st = [] \/ (j < length (clients s))%nat;
  cv_start : forall t t' j, jobs s !! t = Some (J_start j) -> jobs s !! t' = Some (J_start j) -> t = t';
  cv_known : forall t b, jobs s !! t = Some b -> (match b with J_start j | J_answer j _ _ => j end < length (clients s))%nat;
  cv_answer : forall t j l a, jobs s !! t = Some (J_answer j l a) -> open s t ->
    exists c op, clients s !! j = Some c /\ waits_io (mem c) l op;
  cv_one : forall t t' j l l' a a', jobs s !! t = Some (J_answer j l a) -> jobs s !! t' = Some (J_answer j l' a') ->
    open s t -> open s t' -> t = t';
}.

Lemma stack_of_self j st : stack_of j (j, st) = st.
Proof. unfold stack_of. cbn. by rewrite decide_True. Qed.
Lemma stack_of_other k j st : k <> j -> stack_of k (j, st) = [].
Proof. intros. unfold stack_of. cbn. by rewrite decide_False. Qed.
Lemma stack_of_nil k j : stack_of k (j, []) = [].
Proof. unfold stack_of. cbn. by case_decide. Qed.

Lemma acts_at_split k bs i b :
  bs !! i = Some b -> exists R, acts_at k bs ≡ₚ stack_of k b ++ R /\ forall b', acts_at k (<[i := b']> bs) ≡ₚ stack_of k b' ++ R.
Proof.
  intros Hi. apply list_elem_of_split_length in Hi as (l1 & l2 & -> & ->). exists ((l1 ++ l2) ≫= stack_of k).
  split; [apply bind_mid|]. intros b'. rewrite insert_app_r_alt, Nat.sub_diag by done. apply bind_mid.
Qed.

(** A free worker takes a stack; the stacks of the other clients are as they were. *)
Lemma acts_at_take k bs i j0 b : bs !! i = Some (j0, []) -> acts_at k (<[i := b]> bs) ≡ₚ stack_of k b ++ acts_at k bs.
Proof.
  intros Hi. destruct (acts_at_split k bs i _ Hi) as (R & HR & Hb). by rewrite Hb, HR, stack_of_nil.
Qed.

Lemma acts_at_same k bs i j st st' : bs !! i = Some (j, st) -> k <> j -> acts_at k (<[i := (j, st')]> bs) ≡ₚ acts_at k bs.
Proof.
  intros Hi Hne. destruct (acts_at_split k bs i _ Hi) as (R & HR & Hb). by rewrite Hb, HR, !stack_of_other.
Qed.

Lemma acts_at_nil k bs : (forall i j st, bs !! i = Some (j, st) -> st = [] \/ j <> k) -> acts_at k bs = [].
Proof.
  intros Hb. unfold acts_at. induction bs as [|[j st] bs IH]; [done|]. rewrite bind_cons, IH by (intros i; apply (Hb (S i))).
  destruct (Hb 0%nat j st eq_refl) as [->|Hj]; [by rewrite stack_of_nil|by rewrite stack_of_other].
Qed.

(** A client is as good as before when its stacks are and no job of it was run or added. *)
Lemma client_ok_mono s s' j c :
  client_ok s j c -> acts_at j (busy s') ≡ₚ acts_at j (busy s) ->
  (forall t, jobs s' !! t = Some (J_start j) <-> jobs s !! t = Some (J_start j)) ->
  (forall t, jobs s !! t = Some (J_start j) -> t ∈ executed (pool s') <-> t ∈ executed (pool s)) ->
  client_ok s' j c.
Proof.
  intros [(H1 & H2 & H3 & t & H4 & H5)|(H1 & q & H2 & H3)] Ha Hj He.
  - left. split_and!; [done|done| |].
    + rewrite H3 in Ha. by apply Permutation_nil_r in Ha.
    + exists t. split; [by apply Hj|]. unfold open. by rewrite He.
  - right. split.
    + intros t Ht%Hj. apply He; [done|]. by apply H1.
    + exists q. split; [|done]. by eapply acts_prog_perm.
Qed.

(** The pool moves on and nothing is run. *)
Lemma pool_inv n P P' js cs bs :
  csys_inv n (MkCS P js cs bs) -> sys_step P P' -> executed P' = executed P -> sched P' = sched P ->
  stop P' = stop P -> autostop P' = autostop P -> csys_inv n (MkCS P' js cs bs).
Proof.
  intros [I1 I2 I3 I4 I5 I6 I7 I8 I9 I10] Hs He Hsc Hst Hau. cbn [pool jobs clients busy] in *.
  split; cbn [pool jobs clients busy]; try done.
  - by eapply rtc_r.
  - by rewrite Hst, Hau.
  - by rewrite Hsc.
  - intros j c Hj. eapply client_ok_mono; [by apply I5|done|done|]. intros t _. cbn [pool]. by rewrite He.
  - intros t j l a Ht Ho. apply (I9 t j l a Ht). unfold open in *. cbn [pool] in *. by rewrite He in Ho.
  - intros t t' j l l' a a' Ht Ht' Ho Ho'. unfold open in *. cbn [pool] in *. rewrite He in Ho, Ho'. by eapply I10.
Qed.

Lemma work_quiet w P w' P' : no_task w = true -> work w P = Some (w', P') ->
  executed P' = executed P /\ sched P' = sched P /\ stop P' = stop P /\ autostop P' = autostop P.
Proof.
  intros Hn E. destruct w as [| |idx|batch| |batch|[|t batch]| | | | | | | | |]; cbn [work idle_step] in E; unfold leave_step in E; repeat case_match; by simplify_eq.
Qed.

(** The tasks: each is queued, held by a worker or was run, and only once. *)
Lemma exec_once n s : csys_inv n s -> (0 < n)%nat -> zlen (sched (pool s)) < 2 ^ 31 ->
  (forall t, t ∈ executed (pool s) -> (t < length (jobs s))%nat) /\ (forall w t, w ∈ workers (pool s) -> t ∈ batch_of w -> open s t).
Proof.
  intros I Hn Hb. pose proof (threads_reachable_inv n (pool s) Hn (cv_pool _ _ I) Hb) as Hi.
  pose proof (si_tasks _ Hi) as Hp. rewrite (cv_sched _ _ I) in Hp. split.
  - intros t Ht. assert (Hin : t ∈ seq 0 (length (jobs s))) by (rewrite <- Hp; rewrite !elem_of_app; tauto).
    apply elem_of_seq in Hin. lia.
  - intros w t Hw Ht He. assert (Hnd : NoDup ((workers (pool s) ≫= batch_of) ++ executed (pool s))).
    { assert (Hnd : NoDup (seq 0 (length (jobs s)))) by apply NoDup_seq. rewrite <- Hp in Hnd.
      apply NoDup_app in Hnd as (_ & _ & Hnd). by apply NoDup_app in Hnd as (_ & _ & Hnd). }
    apply NoDup_app in Hnd as (_ & Hnd & _). apply (Hnd t); [|done]. apply list_elem_of_bind. by exists w.
Qed.

Lemma lookup_last {A} (l : list A) x t y : (l ++ [x]) !! t = Some y <-> (t < length l)%nat /\ l !! t = Some y \/ t = length l /\ x = y.
Proof.
  rewrite lookup_app_Some, list_lookup_singleton_Some. split.
  - intros [Ht|(Hl & Ht & <-)]; [left; split; [by eapply lookup_lt_Some|done]|right; split; [lia|done]].
  - intros [[_ Ht]|[-> ->]]; [by left|right; split; [done|split; [lia|done]]].
Qed.

(** A job is scheduled. *)
Lemma schedule_jobs n P js cs bs b :
  csys_inv n (MkCS P js cs bs) -> let P' := schedule_task (length js) P in
  sys_step P P' /\ executed P' = executed P /\ sched P' = seq 0 (length (js ++ [b])) /\ stop P' = false /\ autostop P' = false.
Proof.
  intros I. destruct (cv_flags _ _ I) as [Hst Hau]. cbn [pool] in *. split; [apply st_schedule|]. unfold schedule_task. rewrite Hau.
  cbn [executed sched stop autostop set_logs set_calls set_queue]. split_and!; [done| |done|done].
  pose proof (cv_sched _ _ I) as E. cbn [pool jobs] in E. by rewrite E, length_app, Nat.add_1_r, seq_S.
Qed.

Lemma spawn_inv n P js cs bs p :
  csys_inv n (MkCS P js cs bs) -> (0 < n)%nat -> zlen (sched P) < 2 ^ 31 ->
  csys_inv n (MkCS (schedule_task (length js) P) (js ++ [J_start (length cs)]) (cs ++ [MkClient p [new_frame] []]) bs).
Proof.
  intros I Hn Hb. destruct (exec_once _ _ I Hn Hb) as [Hex _]. destruct (schedule_jobs _ _ _ _ _ (J_start (length cs)) I) as (Hs & He & Hsc & Hst & Hau).
  set (P' := schedule_task (length js) P) in *. pose proof I as [I1 I2 I3 I4 I5 I6 I7 I8 I9 I10]. cbn [pool jobs clients busy] in *.
  assert (Hjs : forall t j, (js ++ [J_start (length cs)]) !! t = Some (J_start j) <-> js !! t = Some (J_start j) \/ t = length js /\ j = length cs).
  { intros t j. rewrite lookup_last. split; [naive_solver|]. intros [Ht|[-> ->]]; [left; split; [by eapply lookup_lt_Some|done]|by right]. }
  split; cbn [pool jobs clients busy]; try done.
  - by eapply rtc_r.
  - intros j c [[Hj Hc]|[-> <-]]%lookup_last.
    + eapply client_ok_mono; [by apply I5|done| |intros t _; cbn [pool]; by rewrite He].
      intros t. cbn [jobs]. rewrite Hjs. split; [|by left]. intros [?|[_ ->]]; [done|lia].
    + left. split_and!; [done|done| |].
      * apply acts_at_nil. intros i j st Hi. destruct (I6 _ _ _ Hi); [by left|right; lia].
      * exists (length js). split; [apply Hjs; by right|]. unfold open. cbn [pool]. rewrite He. intros Hin%Hex. lia.
  - intros i j st Hi. rewrite length_app. cbn [length]. destruct (I6 _ _ _ Hi); [by left|right; lia].
  - intros t t' j [Ht|[-> ->]]%Hjs [Ht'|[-> E]]%Hjs; [by eapply I7| | |done].
    + subst j. pose proof (I8 _ _ Ht). cbn in *. lia.
    + pose proof (I8 _ _ Ht'). cbn in *. lia.
  - intros t b [[_ Ht]|[-> <-]]%lookup_last; rewrite length_app; cbn [length]; [|lia]. pose proof (I8 _ _ Ht). destruct b; lia.
  - intros t j l a [[_ Ht]|[-> Ht]]%lookup_last Ho; [|done]. unfold open in Ho. cbn [pool] in Ho. rewrite He in Ho.
    destruct (I9 t j l a Ht Ho) as (c & op & Hc & Hio). exists c, op. split; [|done]. rewrite lookup_app_l; [done|by eapply lookup_lt_Some].
  - intros t t' j l l' a a' [[_ Ht]|[-> Ht]]%lookup_last [[_ Ht']|[-> Ht']]%lookup_last Ho Ho'; try done.
    unfold open in *. cbn [pool] in *. rewrite He in Ho, Ho'. by eapply I10.
Qed.

(** A client some coroutine of which waits has been started. *)
Lemma waiting_started s j c l op :
  client_ok s j c -> waits_io (mem c) l op ->
  (forall t, jobs s !! t = Some (J_start j) -> t ∈ executed (pool s)) /\
  exists q, acts_prog (mem c) (acts_at j (busy s)) q /\ follow (denote (text c)) (answered c) = Some (denote q).
Proof.
  intros [(Hm & _)|Hr] (fr & Hl & Hio); [|done]. rewrite Hm in Hl. apply list_lookup_singleton_Some in Hl as [_ <-]. done.
Qed.

Lemma answer_inv n P js cs bs j c l op a :
  csys_inv n (MkCS P js cs bs) -> (0 < n)%nat -> zlen (sched P) < 2 ^ 31 -> cs !! j = Some c -> waits_io (mem c) l op ->
  (forall t a', js !! t = Some (J_answer j l a') -> t ∈ executed P) ->
  csys_inv n (MkCS (schedule_task (length js) P) (js ++ [J_answer j l a]) cs bs).
Proof.
  intros I Hn Hb Hc Hio Hnew. destruct (schedule_jobs _ _ _ _ _ (J_answer j l a) I) as (Hs & He & Hsc & Hst & Hau).
  set (P' := schedule_task (length js) P) in *. pose proof I as [I1 I2 I3 I4 I5 I6 I7 I8 I9 I10]. cbn [pool jobs clients busy] in *.
  destruct (waiting_started _ _ _ _ _ (I5 _ _ Hc) Hio) as (_ & q & Hq & _).
  assert (Hold : forall t l' a', js !! t = Some (J_answer j l' a') -> t ∉ executed P -> False).
  { intros t l' a' Ht Ho. destruct (I9 t j l' a' Ht Ho) as (c' & op' & Hc' & Hio'). rewrite Hc in Hc'. injection Hc' as <-.
    destruct (one_waits _ _ _ _ _ _ _ Hq Hio Hio') as [<- _]. by apply Ho, (Hnew t a'). }
  split; cbn [pool jobs clients busy]; try done.
  - by eapply rtc_r.
  - intros j' c' Hj'. eapply client_ok_mono; [by apply I5|done| |intros t _; cbn [pool]; by rewrite He].
    intros t. cbn [jobs]. rewrite lookup_last. split; [naive_solver|]. intros Ht. left. split; [by eapply lookup_lt_Some|done].
  - intros t t' j' [[_ Ht]|[_ ?]]%lookup_last [[_ Ht']|[_ ?]]%lookup_last; try done. by eapply I7.
  - intros t b [[_ Ht]|[-> <-]]%lookup_last; [by apply (I8 _ _ Ht)|by eapply lookup_lt_Some].
  - intros t j' l' a' [[_ Ht]|[-> [= -> -> ->]]]%lookup_last Ho; [|by exists c, op]. unfold open in Ho. cbn [pool] in Ho. rewrite He in Ho. by eapply I9.
  - intros t t' j' l1 l2 a1 a2 Ht Ht' Ho Ho'. unfold open in *. cbn [pool] in *. rewrite He in Ho, Ho'.
    apply lookup_last in Ht as [[_ Ht]|[-> [= -> -> ->]]], Ht' as [[_ Ht']|[-> E]].
    + by eapply I10.
    + injection E as <- <- <-. by destruct (Hold _ _ _ Ht Ho).
    + by destruct (Hold _ _ _ Ht' Ho').
    + done.
Qed.

Lemma lookup_set_client j H lg cs k c :
  set_client j H lg cs !! k = Some c -> cs !! k = Some c /\ k <> j \/ k = j /\ exists c0, cs !! j = Some c0 /\ c = MkClient (text c0) H lg.
Proof.
  unfold set_client. rewrite list_lookup_alter. case_decide as E; [subst k|by left]. destruct (cs !! j) as [c0|]; [|done].
  intros [= <-]. right. split; [done|by exists c0].
Qed.

Lemma set_client_len j H lg cs : length (set_client j H lg cs) = length cs.
Proof. apply length_alter. Qed.

Lemma set_client_ne j H lg cs k : k <> j -> set_client j H lg cs !! k = cs !! k.
Proof. intros. unfold set_client. by rewrite list_lookup_alter_ne. Qed.

Lemma set_client_eq j H lg cs c : cs !! j = Some c -> set_client j H lg cs !! j = Some (MkClient (text c) H lg).
Proof. intros Hc. unfold set_client. by rewrite list_lookup_alter_eq, Hc. Qed.

(** What running the job [b] of client [j] gives. *)
Definition job_of (b : job) : nat := match b with J_start j | J_answer j _ _ => j end.

Lemma run_job_ok n P js cs bs t b cs' st i j0 :
  csys_inv n (MkCS P js cs bs) -> js !! t = Some b -> t ∉ executed P -> run_job b cs = Some (cs', st) -> bs !! i = Some (j0, []) ->
  let j := job_of b in
  exists c c', cs !! j = Some c /\ cs' !! j = Some c' /\ length cs' = length cs /\ (forall k, k <> j -> cs' !! k = cs !! k) /\ st.1 = j /\
    (forall t', js !! t' = Some (J_start j) -> t' <> t -> t' ∈ executed P) /\
    exists q, acts_prog (mem c') (acts_at j (<[i := st]> bs)) q /\ follow (denote (text c')) (answered c') = Some (denote q).
Proof.
  intros I Ht Ho Hr Hi. pose proof I as [I1 I2 I3 I4 I5 I6 I7 I8 I9 I10]. cbn [pool jobs clients busy] in *.
  destruct b as [j|j l a]; cbn [run_job job_of] in *.
  - apply bind_Some in Hr as (c & Hc & [= <- <-]). exists c, c. split_and!; try done.
    + intros t' Ht' Hne. by destruct (Hne (I7 _ _ _ Ht' Ht)).
    + destruct (I5 _ _ Hc) as [(Hm & Hlg & Ha & _)|(Hx & _)]; [|by destruct (Ho (Hx _ Ht))]. cbn [busy] in Ha. exists (text c). rewrite Hlg. split; [|done].
      rewrite Hm. eapply acts_prog_perm; [|apply acts_start]. by rewrite (acts_at_take _ _ _ _ _ Hi), Ha, stack_of_self.
  - apply bind_Some in Hr as (c & Hc & Hr). apply bind_Some in Hr as (fr & Hfr & Hr). apply bind_Some in Hr as (op & Hop & [= <- <-]).
    assert (Hio : waits_io (mem c) l op) by (by exists fr).
    destruct (waiting_started _ _ _ _ _ (I5 _ _ Hc) Hio) as (Hx & q & Hq & Hf). cbn [pool jobs busy] in *.
    destruct (acts_answer _ _ _ l op a Hq Hio) as (d & Hd & q' & Hq' & Eq).
    eexists c, _. split_and!; [done|by apply set_client_eq|apply set_client_len|intros k; by apply set_client_ne|done| |].
    + intros t' Ht' _. by apply Hx.
    + exists q'. cbn [mem answered text]. split.
      * eapply acts_prog_perm; [|exact Hq']. by rewrite (acts_at_take _ _ _ _ _ Hi), stack_of_self.
      * rewrite follow_snoc, Hf, Hd, decide_True by done. by rewrite Eq.
Qed.

Lemma exec_inv_job n P js cs bs l1 t batch l2 j0 b cs' st :
  csys_inv n (MkCS P js cs bs) -> (0 < n)%nat -> zlen (sched P) < 2 ^ 31 ->
  workers P = l1 ++ W_exec (t :: batch) :: l2 -> bs !! length l1 = Some (j0, []) -> js !! t = Some b -> run_job b cs = Some (cs', st) ->
  csys_inv n (MkCS (set_workers (threads_count P) (l1 ++ W_exec batch :: l2) (set_logs (sched P) (executed P ++ [t]) P)) js cs' (<[length l1 := st]> bs)).
Proof.
  intros I Hn Hb Hw Hi Ht Hr.
  assert (Ho : t ∉ executed P).
  { eapply (proj2 (exec_once _ _ I Hn Hb) (W_exec (t :: batch))); [cbn [pool]; rewrite Hw, elem_of_app; right; by left|by left]. }
  destruct (run_job_ok _ _ _ _ _ _ _ _ _ _ _ I Ht Ho Hr Hi) as (c & c' & Hc & Hc' & Hlen & Hoth & Hst & Hstart & q & Hq & Hf).
  pose proof I as [I1 I2 I3 I4 I5 I6 I7 I8 I9 I10]. cbn [pool jobs clients busy] in *.
  assert (Hopen : forall t', ~ (t' ∈ (executed P ++ [t])) -> (t' ∉ executed P) /\ t' <> t)
    by (intros t' Hn'; rewrite not_elem_of_app, list_elem_of_singleton in Hn'; tauto).
  assert (Hil : (length l1 < length bs)%nat) by (by eapply lookup_lt_Some).
  split; unfold open; cbn [pool jobs clients busy executed sched stop autostop set_workers set_logs] in *; try done.
  - eapply rtc_r; [exact I1|]. exact (st_worker P l1 (W_exec (t :: batch)) l2 _ _ Hw eq_refl).
  - by rewrite length_insert.
  - intros k ck Hk. destruct (decide (k = job_of b)) as [->|Hne].
    + right. cbn [pool jobs busy executed set_workers set_logs]. split.
      * intros t' Ht'. rewrite elem_of_app, list_elem_of_singleton. destruct (decide (t' = t)); [by right|left; by apply Hstart].
      * rewrite Hc' in Hk. injection Hk as <-. by exists q.
    + rewrite Hoth in Hk by done. eapply client_ok_mono; [by apply I5| |done|]; cbn [pool jobs busy executed set_workers set_logs].
      * rewrite (acts_at_take _ _ _ _ _ Hi). destruct st as [j st]. cbn [fst] in Hst. subst j. by rewrite stack_of_other.
      * intros t' Ht'. rewrite elem_of_app, list_elem_of_singleton. split; [|by left]. intros [? | ->]; [done|].
        rewrite Ht in Ht'. injection Ht' as ->. done.
  - intros i j sti. rewrite Hlen, list_lookup_insert_Some. intros [(_ & E & _)|[_ Hj]]; [|by eapply I6].
    right. rewrite E in Hst. cbn [fst] in Hst. subst j. by eapply lookup_lt_Some.
  - intros t' b' Hb'. rewrite Hlen. by eapply I8.
  - intros t' j l a Hj [Ho' Hne]%Hopen. destruct (decide (j = job_of b)) as [->|Hjb]; [|rewrite Hoth by done; by eapply I9].
    exfalso. destruct (I9 _ _ _ _ Hj Ho') as (c1 & op & Hc1 & Hio). destruct b as [j|j l' a']; cbn [job_of] in *.
    + destruct (waiting_started _ _ _ _ _ (I5 _ _ Hc1) Hio) as (Hx & _). by apply Ho, Hx.
    + by apply Hne, (I10 t' t j l l' a a').
  - intros t1 t2 j l l' a a' H1 H2 [Ho1 _]%Hopen [Ho2 _]%Hopen. by eapply I10.
Qed.

Lemma run_inv n P js cs bs i j st c H' st' :
  csys_inv n (MkCS P js cs bs) -> bs !! i = Some (j, st) -> cs !! j = Some c -> step (MkMachine (mem c) st) = Some (MkMachine H' st') ->
  csys_inv n (MkCS P js (set_client j H' (answered c) cs) (<[i := (j, st')]> bs)).
Proof.
  intros I Hi Hc Hs. pose proof I as [I1 I2 I3 I4 I5 I6 I7 I8 I9 I10]. cbn [pool jobs clients busy] in *.
  destruct st as [|α K]; [done|]. apply step_local in Hs as (β & H1 & [= <- ->] & Hs).
  destruct (acts_at_split j bs i _ Hi) as (R & HR & Hset). rewrite stack_of_self in HR.
  destruct (I5 _ _ Hc) as [(_ & _ & Ha & _)|(Hx & q & Hq & Hf)]; cbn [pool jobs busy] in *.
  { rewrite Ha in HR. by apply Permutation_nil_cons in HR. }
  destruct (acts_step _ _ _ α (K ++ R) _ _ Hq HR Hs) as [(q' & Hq' & Hred) Hkeep].
  assert (Eq : denote q' = denote q) by (destruct Hred as [Hr|[-> _]]; [by apply red_denote|done]).
  split; unfold open; cbn [pool jobs clients busy] in *; try done.
  - by rewrite length_insert.
  - intros k ck [[Hk Hne]|(-> & c0 & Hc0 & ->)]%lookup_set_client.
    + eapply client_ok_mono; [by apply I5| |done|done]. cbn [busy]. by eapply acts_at_same.
    + rewrite Hc in Hc0. injection Hc0 as <-. right. cbn [pool jobs busy mem answered text]. split; [done|]. exists q'. rewrite Eq. split; [|done].
      eapply acts_prog_perm; [|exact Hq']. by rewrite Hset, stack_of_self, app_assoc.
  - intros i' k sti. rewrite set_client_len, list_lookup_insert_Some. intros [(_ & [= <- _] & _)|[_ Hk]]; [|by eapply I6].
    right. by eapply lookup_lt_Some.
  - intros t b Ht. rewrite set_client_len. by eapply I8.
  - intros t k l a Ht Ho. destruct (I9 _ _ _ _ Ht Ho) as (ck & op & Hck & Hio). destruct (decide (k = j)) as [->|Hne].
    + rewrite Hc in Hck. injection Hck as <-. eexists _, op. split; [by apply set_client_eq|]. by apply Hkeep.
    + exists ck, op. by rewrite set_client_ne.
Qed.

Lemma csys_step_inv n s s' : csys_step s s' -> csys_inv n s -> (0 < n)%nat -> zlen (sched (pool s)) < 2 ^ 31 -> csys_inv n s'.
Proof.
  intros [Hs|Hs] I Hn Hb.
  - destruct Hs as [P js cs bs p|P js cs bs j c l op a Hc Hio Hnew]; cbn [pool] in *; [by apply spawn_inv|by eapply answer_inv].
  - destruct Hs as [P js cs bs l1 t idx l2 Hp|P js cs bs u Hu|P js cs bs u k Hu
      |P js cs bs l1 w l2 w' P' j Hw Hnt Hi Hwk|P js cs bs l1 t batch l2 j b cs' st Hw Hi Ht Hr|P js cs bs i j st c H' st' Hi Hc Hst]; cbn [pool] in *.
    + eapply pool_inv; [done|by apply st_add|done..].
    + eapply pool_inv; [done|by apply st_count|done..].
    + eapply pool_inv; [done|by eapply st_tickle|done..].
    + destruct (work_quiet _ _ _ _ Hnt Hwk) as (E1 & E2 & E3 & E4). eapply pool_inv; [done|by eapply st_worker|done..].
    + by eapply exec_inv_job.
    + by eapply run_inv.
Qed.

Lemma csys_init_inv n : csys_inv n (csys_init n).
Proof.
  split; cbn [csys_init pool jobs clients busy]; try done.
  - apply length_replicate.
  - intros i j st Hi. apply lookup_replicate in Hi as [[= _ ->] _]. by left.
Qed.

Lemma csys_step_jobs s s' : csys_step s s' -> (length (jobs s) <= length (jobs s'))%nat.
Proof. intros [[]|[]]; cbn [jobs]; rewrite ?length_app; lia. Qed.

Lemma csys_reach_inv n s : (0 < n)%nat -> rtc csys_step (csys_init n) s -> zlen (jobs s) < 2 ^ 31 -> csys_inv n s.
Proof.
  intros Hn. revert s. apply (rtc_ind_r (fun s => zlen (jobs s) < 2 ^ 31 -> csys_inv n s)); [intros _; apply csys_init_inv|].
  intros s s' _ Hs IH Hb. pose proof (csys_step_jobs _ _ Hs) as Hle.
  assert (I : csys_inv n s) by (apply IH; unfold zlen in *; lia).
  eapply csys_step_inv; [exact Hs|exact I|done|]. rewrite (cv_sched _ _ I). unfold zlen in *. rewrite length_seq. lia.
Qed.

(** ** When nothing can go on *)

Lemma run_job_some n s t b : csys_inv n s -> jobs s !! t = Some b -> open s t -> exists r, run_job b (clients s) = Some r.
Proof.
  intros I Ht Ho. destruct b as [j|j l a]; cbn [run_job].
  - destruct (lookup_lt_is_Some_2 _ _ (cv_known _ _ I _ _ Ht)) as [c Hc]. rewrite Hc. by eexists.
  - destruct (cv_answer _ _ I _ _ _ _ Ht Ho) as (c & op & Hc & fr & Hfr & Hop). rewrite Hc. cbn [mbind option_bind].
    rewrite Hfr. cbn [mbind option_bind]. rewrite Hop. by eexists.
Qed.

Lemma stuck_free n s i j st : csys_inv n s -> (forall s', ~ goes s s') -> busy s !! i = Some (j, st) -> st = [].
Proof.
  destruct s as [P js cs bs]. intros I Hno Hi. cbn [busy] in Hi. destruct st as [|α K]; [done|]. exfalso.
  destruct (cv_stack _ _ I _ _ _ Hi) as [?|Hj]; [done|]. cbn [clients] in Hj. destruct (lookup_lt_is_Some_2 _ _ Hj) as [c Hc].
  destruct (step_some (mem c) α K) as (H' & st' & Hst). by eapply Hno, cy_run.
Qed.

Lemma stuck_workers n s : csys_inv n s -> (0 < n)%nat -> zlen (sched (pool s)) < 2 ^ 31 -> (forall s', ~ goes s s') ->
  Forall (fun w => work w (pool s) = None) (workers (pool s)).
Proof.
  destruct s as [P js cs bs]. intros I Hn Hb Hno. cbn [pool] in *. apply Forall_forall. intros w Hw.
  destruct (work w P) as [[w' P']|] eqn:Ew; [exfalso|done].
  apply list_elem_of_lookup in Hw as (i & Hi). pose proof Hi as (l1 & l2 & Hsp & Hil)%list_elem_of_split_length. subst i.
  assert (is_Some (bs !! length l1)) as [[j st] Hbs].
  { apply lookup_lt_is_Some. pose proof (cv_busy _ _ I) as E. cbn [busy] in E. rewrite E, <- (workers_length n P (cv_pool _ _ I)).
    by eapply lookup_lt_Some. }
  assert (st = []) as -> by (by eapply (stuck_free n)). destruct (no_task w) eqn:Hnt; [by eapply Hno, cy_work|].
  destruct w as [| | | | | |[|t batch]| | | | | | | | |]; try done. destruct (exec_once _ _ I Hn Hb) as [_ Hop].
  assert (Ho : open (MkCS P js cs bs) t) by (eapply (Hop (W_exec (t :: batch))); [cbn [pool]; by eapply list_elem_of_lookup_2|by left]).
  assert (is_Some (js !! t)) as [b Ht].
  { apply lookup_lt_is_Some. pose proof (si_tasks _ (threads_reachable_inv n P Hn (cv_pool _ _ I) Hb)) as Hp.
    pose proof (cv_sched _ _ I) as Es. cbn [pool jobs] in Es. rewrite Es in Hp.
    assert (Hin : t ∈ seq 0 (length js)); [|apply elem_of_seq in Hin; lia]. rewrite <- Hp, !elem_of_app. do 2 right. left.
    apply list_elem_of_bind. exists (W_exec (t :: batch)). split; [by left|by eapply list_elem_of_lookup_2]. }
  destruct (run_job_some _ _ _ _ I Ht Ho) as ([cs' st] & Hr). by eapply Hno, cy_exec.
Qed.

Lemma stuck_calls s : (forall s', ~ goes s s') -> placing (pool s) = [] /\ uncounted (pool s) = 0%nat /\ untickled (pool s) = 0%nat.
Proof.
  destruct s as [P js cs bs]. intros Hno. cbn [pool]. split_and!.
  - destruct (placing P) as [|[t idx] l] eqn:E; [done|]. exfalso. by eapply Hno, (cy_add _ _ _ _ []).
  - destruct (uncounted P) as [|u] eqn:E; [done|]. exfalso. by eapply Hno, cy_count.
  - destruct (untickled P) as [|u] eqn:E; [done|]. exfalso. by eapply Hno, (cy_tickle _ _ _ _ u 0).
Qed.

Lemma stuck_ran n s : csys_inv n s -> (0 < n)%nat -> zlen (sched (pool s)) < 2 ^ 31 -> (forall s', ~ goes s s') ->
  executed (pool s) ≡ₚ seq 0 (length (jobs s)).
Proof.
  intros I Hn Hb Hno. rewrite <- (cv_sched _ _ I). destruct (stuck_calls _ Hno) as (H1 & H2 & H3). destruct (cv_flags _ _ I) as [Hst Hau].
  apply rest_all_run; try done; [by apply (threads_reachable_inv n); [|apply I|]| |by rewrite Hst, Hau|by eapply stuck_workers].
  intros E. pose proof (workers_length n _ (cv_pool _ _ I)) as Hlen. rewrite E in Hlen. cbn in Hlen. lia.
Qed.

(** * Results *)

(** C3. Coroutines on the scheduler: with any number of workers and of clients, whatever
    the interleaving, as long as the scheduler is not stopped, the answers that coroutines
    of a client were resumed with are those of the next operations of its program run by
    ordinary calls; and whenever nothing can go on, every task that was scheduled has been
    run, so that each answer has reached its coroutine, and each client has the value the
    calls return, or the exception its program itself threw, or one coroutine that waits
    for the next operation of the calls, or, where an exception leaves a call that another
    coroutine awaits, no result and no coroutine that waits. *)
Theorem scheduler_runs_clients n s :
  (0 < n)%nat -> rtc csys_step (csys_init n) s -> zlen (jobs s) < 2 ^ 31 ->
  (forall j c, clients s !! j = Some c -> exists d, asked (called (text c)) (answered c) = Some d) /\
  ((forall s', ~ goes s s') ->
     executed (pool s) ≡ₚ seq 0 (length (jobs s)) /\
     forall j c, clients s !! j = Some c ->
       exists d, asked (called (text c)) (answered c) = Some d /\ rests_like d (MkMachine (mem c) [])).
Proof.
  intros Hn Hs Hb. pose proof (csys_reach_inv n s Hn Hs Hb) as I. split.
  - intros j c Hc. destruct (cv_client _ _ I _ _ Hc) as [(_ & -> & _)|(_ & q & _ & Hf)]; [by eexists|].
    destruct (follow_called _ _ _ (MkMachine (mem c) []) Hf) as (d & Hd & _). eauto.
  - intros Hno. assert (Hb' : zlen (sched (pool s)) < 2 ^ 31) by (rewrite (cv_sched _ _ I); unfold zlen in *; by rewrite length_seq).
    pose proof (stuck_ran n s I Hn Hb' Hno) as Hran. split; [done|]. intros j c Hc.
    destruct (cv_client _ _ I _ _ Hc) as [(_ & _ & _ & t & Ht & Ho)|(_ & q & Hq & Hf)].
    + exfalso. apply Ho. rewrite Hran. apply elem_of_seq. apply lookup_lt_Some in Ht. lia.
    + destruct (follow_called _ _ _ (MkMachine (mem c) []) Hf) as (d & Hd & Ha). exists d. split; [done|].
      apply Ha, acts_agrees. rewrite (acts_at_nil j) in Hq; [done|]. intros i k st Hi. left. by eapply (stuck_free n).
Qed.

(** The only worker of a scheduler goes on; a call of [schedule] goes on. *)
Definition go_worker (s : csys) : option csys :=
  match workers (pool s), busy s with
  | [w], [(j, [])] =>
      match w with
      | W_exec (t :: batch) =>
          b ← jobs s !! t; r ← run_job b (clients s);
          Some (MkCS (set_workers (threads_count (pool s)) [W_exec batch] (set_logs (sched (pool s)) (executed (pool s) ++ [t]) (pool s)))
                  (jobs s) r.1 [r.2])
      | _ => r ← work w (pool s); Some (MkCS (set_workers (threads_count r.2) [r.1] r.2) (jobs s) (clients s) (busy s))
      end
  | _, [(j, st)] =>
      c ← clients s !! j; m ← step (MkMachine (mem c) st);
      Some (MkCS (pool s) (jobs s) (set_client j (frames m) (answered c) (clients s)) [(j, stack m)])
  | _, _ => None
  end.

Definition go_call (s : csys) : option csys :=
  let P := pool s in
  match placing P, uncounted P, untickled P with
  | (t, idx) :: l, _, _ => Some (MkCS (add_task [] t idx l P) (jobs s) (clients s) (busy s))
  | [], S u, _ => Some (MkCS (set_calls [] u (S (untickled P)) (set_queue (nodes P) (loop_idx P) (alloc_idx P) (u32 (count P + 1)) P)) (jobs s) (clients s) (busy s))
  | [], O, S u => Some (MkCS (set_calls [] 0 0 (tickle P)) (jobs s) (clients s) (busy s))
  | _, _, _ => None
  end.

Fixpoint go_on (fuel : nat) (s : csys) : csys :=
  match fuel with
  | O => s
  | S fuel => match go_call s with Some s' => go_on fuel s' | None => match go_worker s with Some s' => go_on fuel s' | None => s end end
  end.

Lemma go_worker_goes s s' : go_worker s = Some s' -> goes s s'.
Proof.
  destruct s as [P js cs bs]. unfold go_worker. cbn [pool jobs clients busy]. intros E.
  assert (Hrun : forall j st, bs = [(j, st)] -> (c ← cs !! j; m ← step (MkMachine (mem c) st);
            Some (MkCS P js (set_client j (frames m) (answered c) cs) [(j, stack m)])) = Some s' -> goes (MkCS P js cs bs) s').
  { intros j st -> (c & Hc & (m & Hm & [= <-])%bind_Some)%bind_Some. destruct m as [H' st'].
    exact (cy_run P js cs [(j, st)] 0 j st c H' st' eq_refl Hc Hm). }
  destruct (workers P) as [|w [|w2 ws]] eqn:Ew; destruct bs as [|[j st] [|]]; try done; try (by eapply Hrun); try (by destruct st).
  destruct st as [|α K]; [|by eapply Hrun].
  assert (Hwk : (r ← work w P; Some (MkCS (set_workers (threads_count r.2) [r.1] r.2) js cs [(j, [])])) = Some s' -> no_task w = true ->
            goes (MkCS P js cs [(j, [])]) s').
  { intros ([w' P'] & Hr & [= <-])%bind_Some Hnt. exact (cy_work P js cs [(j, [])] [] w [] w' P' j Ew Hnt eq_refl Hr). }
  destruct w as [| | | | | |[|t batch]| | | | | | | | |]; try (by apply Hwk).
  apply bind_Some in E as (b & Hb & E). apply bind_Some in E as ([cs' st] & Hr & [= <-]).
  exact (cy_exec P js cs [(j, [])] [] t batch [] j b cs' st Ew eq_refl Hb Hr).
Qed.

Lemma go_call_goes s s' : go_call s = Some s' -> goes s s'.
Proof.
  destruct s as [P js cs bs]. unfold go_call. cbn [pool jobs clients busy].
  destruct (placing P) as [|[t idx] l] eqn:Ep; [|intros [= <-]; by apply (cy_add _ _ _ _ [])].
  destruct (uncounted P) as [|u] eqn:Eu; [|intros [= <-]; rewrite <- Ep; by apply cy_count].
  destruct (untickled P) as [|u] eqn:Et; [done|]. intros [= <-].
  pose proof (cy_tickle P js cs bs u 0 Et) as Hg. by rewrite Ep, Eu in Hg.
Qed.

Lemma go_on_reaches fuel : forall s, rtc csys_step s (go_on fuel s).
Proof.
  induction fuel as [|fuel IH]; intros s; cbn [go_on]; [apply rtc_refl|].
  destruct (go_call s) as [s1|] eqn:E; [eapply rtc_l; [right; by apply go_call_goes|apply IH]|].
  destruct (go_worker s) as [s1|] eqn:E'; [eapply rtc_l; [right; by apply go_worker_goes|apply IH]|apply rtc_refl].
Qed.

Definition spawn (p : prog) (s : csys) : csys :=
  MkCS (schedule_task (length (jobs s)) (pool s)) (jobs s ++ [J_start (length (clients s))]) (clients s ++ [MkClient p [new_frame] []]) (busy s).
Definition ask (j l : nat) (a : Z) (s : csys) : csys :=
  MkCS (schedule_task (length (jobs s)) (pool s)) (jobs s ++ [J_answer j l a]) (clients s) (busy s).

(** The operation of coroutine [l] of client [j] can be answered. *)
Definition askable (j l : nat) (s : csys) : bool :=
  match c ← clients s !! j; fr ← mem c !! l; io fr with
  | Some _ =>
      forallb (fun x => match x.2 with
                        | J_answer j' l' _ => negb (bool_decide (j = j' /\ l = l')) || bool_decide (x.1 ∈ executed (pool s))
                        | _ => true end) (imap pair (jobs s))
  | None => false
  end.

Lemma askable_asks j l a s : askable j l s = true -> asks s (ask j l a s).
Proof.
  destruct s as [P js cs bs]. unfold askable, ask. cbn [pool jobs clients busy].
  destruct (c ← cs !! j; fr ← mem c !! l; io fr) as [op|] eqn:E; [|done].
  apply bind_Some in E as (c & Hc & E). apply bind_Some in E as (fr & Hfr & Hop). intros Hall.
  apply (cy_answer _ _ _ _ _ c l op); [done|by exists fr|]. intros t a' Ht. rewrite forallb_forall in Hall.
  specialize (Hall (t, J_answer j l a')). cbn [fst snd] in Hall.
  rewrite bool_decide_true in Hall by done. cbn [negb orb] in Hall. apply (bool_decide_eq_true (t ∈ executed P)), Hall, list_elem_of_In.
  apply list_elem_of_lookup. exists t. rewrite list_lookup_imap, Ht. done.
Qed.

(** A worker that waits, with nothing to wait for. *)
Definition waits_alone (s : csys) : bool :=
  match workers (pool s), busy s, placing (pool s), uncounted (pool s), untickled (pool s), edge (pool s) with
  | [W_wait], [(_, [])], [], O, O, false => true
  | _, _, _, _, _, _ => false
  end.

Lemma waits_alone_stuck s : waits_alone s = true -> forall s', ~ goes s s'.
Proof.
  intros E s' Hg.
  assert (F : workers (pool s) = [W_wait] /\ (exists j, busy s = [(j, [])]) /\ placing (pool s) = [] /\ uncounted (pool s) = 0%nat /\
            untickled (pool s) = 0%nat /\ edge (pool s) = false) by (unfold waits_alone in E; repeat case_match; try done; eauto 10).
  clear E. destruct F as (E1 & (j0 & E2) & E3 & E4 & E5 & E6).
  destruct Hg as [P js cs bs l1 t idx l2 Hp|P js cs bs u Hu|P js cs bs u k Hu
      |P js cs bs l1 w l2 w' P' j Hw Hnt Hi Hwk|P js cs bs l1 t batch l2 j b cs' st Hw Hi Ht Hr|P js cs bs i j st c H' st' Hi Hc Hst]; cbn [pool busy] in *.
  - rewrite E3 in Hp. by destruct l1.
  - congruence.
  - lia.
  - rewrite E1 in Hw. destruct l1 as [|? [|]]; try done. injection Hw as <- <-. cbn [work idle_step] in Hwk. by rewrite E6 in Hwk.
  - rewrite E1 in Hw. by destruct l1 as [|? [|]].
  - rewrite E2 in Hi. destruct i as [|[|]]; try done. by injection Hi as <- <-.
Qed.

(** Two clients on one worker; the operations of both are answered in turn. *)
Definition ex_s1 : csys := go_on 100 (spawn ex_second (go_on 100 (spawn ex_prog (csys_init 1)))).
Definition ex_s2 : csys := go_on 100 (ask 1 1 9 (go_on 2 (ask 0 2 5 ex_s1))).
Definition ex_s3 : csys := go_on 100 (ask 0 1 7 ex_s2).

Lemma reach_spawn s0 s p k : rtc csys_step s0 s -> rtc csys_step s0 (go_on k (spawn p s)).
Proof.
  intros Hs. etrans; [exact Hs|]. eapply rtc_l; [|apply go_on_reaches]. left. destruct s as [P js cs bs]. apply cy_spawn.
Qed.

Lemma reach_ask s0 s j l a k : rtc csys_step s0 s -> askable j l s = true -> rtc csys_step s0 (go_on k (ask j l a s)).
Proof. intros Hs Ha. etrans; [exact Hs|]. eapply rtc_l; [|apply go_on_reaches]. left. by apply askable_asks. Qed.

Lemma ex_s3_reached : rtc csys_step (csys_init 1) ex_s3.
Proof.
  apply reach_ask; [|vm_compute; reflexivity]. apply reach_ask; [|vm_compute; reflexivity].
  apply reach_ask; [|vm_compute; reflexivity]. apply reach_spawn, reach_spawn, rtc_refl.
Qed.

Lemma scheduler_runs_clients_witness :
  exists c, clients ex_s3 !! 0%nat = Some c /\ answered c = [(1, 5); (2, 7)] /\ result_of 0 (MkMachine (mem c) []) = Some (R_value 142).
Proof.
  destruct (proj2 (scheduler_runs_clients 1 ex_s3 ltac:(lia) ex_s3_reached eq_refl) (waits_alone_stuck ex_s3 ltac:(vm_compute; reflexivity)))
    as [_ Hall].
  assert (E : exists c, clients ex_s3 !! 0%nat = Some c /\ text c = ex_prog /\ answered c = [(1, 5); (2, 7)])
    by (eexists; split; [vm_compute; reflexivity|split; reflexivity]).
  destruct E as (c & Hc & Ht & Ha). exists c. split; [exact Hc|]. split; [exact Ha|].
  destruct (Hall _ _ Hc) as (d & Hf & Hag). rewrite Ht, Ha in Hf. injection Hf as <-. exact (proj1 Hag).
Defined.
