(* ===== verification/FdContext.v ===== *)
(** * Event registrations of a descriptor

    Models [FdContext] and the registered tasks of [FdContextManager]
    ([sylar/coroutine/coro20/fdContext.cc]) and [IOManager::stateSync]
    ([ioManager.cc]), which copies the events of a context into epoll.

    The kernel's epoll instance is a parameter: a state with [epoll_ctl], which may
    fail, [close], and the interest list it keeps, with their documented behaviour
    as laws. *)

From stdpp Require Import gmap.
From S2P Require Import Prelude TaskCoro.

(** ** The kernel's side *)

Inductive epoll_op := EPOLL_CTL_ADD | EPOLL_CTL_MOD | EPOLL_CTL_DEL.

Definition ENOENT : Z := 2.
Definition EEXIST : Z := 17.

(** [epoll_ctl] is 0 or the error number: [EBADF], [EPERM], [ENOMEM] or [ENOSPC]
    whenever the kernel has a reason, [EEXIST] and [ENOENT] only when the interest
    list gives it.  A call that fails changes nothing, one that succeeds the entry
    of its descriptor only.  Closing a descriptor removes its entry, or leaves it
    when a duplicate of the descriptor is open. *)
Class Epoll (K : Type) := {
  epoll_ctl : K -> epoll_op -> Z -> Z -> Z * K;
  close_fd : K -> Z -> K;
  interest : K -> Z -> option Z;
  ctl_done : forall k op fd ev, (epoll_ctl k op fd ev).1 = 0 ->
    interest (epoll_ctl k op fd ev).2 fd = match op with EPOLL_CTL_DEL => None | _ => Some ev end;
  ctl_failed : forall k op fd ev, (epoll_ctl k op fd ev).1 <> 0 ->
    interest (epoll_ctl k op fd ev).2 fd = interest k fd;
  ctl_others : forall k op fd ev fd', fd' <> fd -> interest (epoll_ctl k op fd ev).2 fd' = interest k fd';
  ctl_eexist : forall k op fd ev, (epoll_ctl k op fd ev).1 = EEXIST -> op = EPOLL_CTL_ADD /\ interest k fd <> None;
  ctl_enoent : forall k op fd ev, (epoll_ctl k op fd ev).1 = ENOENT -> op <> EPOLL_CTL_ADD /\ interest k fd = None;
  close_entry : forall k fd, interest (close_fd k fd) fd = None \/ interest (close_fd k fd) fd = interest k fd;
  close_others : forall k fd fd', fd' <> fd -> interest (close_fd k fd) fd' = interest k fd';
}.

(** ** [FdContext] *)

Definition NONE : Z := 0.
Definition READ : Z := 1.                (* EPOLLIN *)
Definition WRITE : Z := 4.               (* EPOLLOUT *)
Definition EPOLLET : Z := 2 ^ 31.

Record FdContext := mk_ctx {
  m_fd : Z;
  m_event : Z;
  m_cb_read : TaskCoro20;
  m_cb_write : TaskCoro20;
}.

Definition FdContext_ctor (fd : Z) : FdContext := mk_ctx fd NONE TaskCoro20_default TaskCoro20_default.

(** [addEvent]: the task is moved into the slots, the read slot first. *)
Definition addEvent (event : Z) (task : TaskCoro20) (c : FdContext) : FdContext :=
  let ev := m_event c ||| event in
  let (rd, task) := if truthy (event & READ) then move task else (m_cb_read c, task) in
  let (wr, _) := if truthy (event & WRITE) then move task else (m_cb_write c, task) in
  mk_ctx (m_fd c) ev rd wr.

Definition delEvent (event : Z) (c : FdContext) : FdContext :=
  let ev := m_event c & Z.lnot event in
  mk_ctx (m_fd c) ev
    (if negb (truthy (ev & READ)) then reset (m_cb_read c) else m_cb_read c)
    (if negb (truthy (ev & WRITE)) then reset (m_cb_write c) else m_cb_write c).

Definition reset_ctx (c : FdContext) : FdContext :=
  mk_ctx (m_fd c) NONE (reset (m_cb_read c)) (reset (m_cb_write c)).

Definition hasEvent (c : FdContext) : bool := truthy (m_event c).

(** One slot of [trigger]: a clone of the callback runs, if it is legal.  [None]
    is an exception of the clone. *)
Definition trigger_slot (cb : TaskCoro20) : option (list nat) :=
  match clone cb with
  | None => None
  | Some t =>
      if isLegal t then
        match start true t with
        | St_call f _ => Some [f]
        | St_nothing => Some []
        | _ => None
        end
      else Some []
  end.

(** [trigger]: the functions started, in order. *)
Definition trigger (event : Z) (c : FdContext) : option (list nat) :=
  let merge := m_event c & event in
  let rd := if truthy (merge & READ) then trigger_slot (m_cb_read c) else Some [] in
  match rd with
  | None => None
  | Some r =>
      let wr := if truthy (merge & WRITE) then trigger_slot (m_cb_write c) else Some [] in
      match wr with Some w => Some (r ++ w) | None => None end
  end.

(** ** Registered tasks *)

Inductive RegistedTask :=
  | DEL_TASK (event : Z)
  | ADD_TASK (event : Z) (task : TaskCoro20)
  | TRIGGER_TASK (event : Z)
  | CLOSE_TASK
  | CLOSE_TASK_NOCLOSEFD.

(** What a run makes visible: functions started, [co_close] called. *)
Inductive visible :=
  | called (f : nat)
  | co_closed (fd : Z) (mod_ : Z).

Section sync.
Context {K : Type} `{Epoll K} (m_eventFd : Z).

(** [stateSync]: the operation it chooses, and its result. *)
Definition sync_op (origin_event new_event : Z) : epoll_op :=
  if (new_event =? NONE) && negb (origin_event =? NONE) then EPOLL_CTL_DEL
  else if (origin_event =? NONE) && negb (new_event =? NONE) then EPOLL_CTL_ADD
  else EPOLL_CTL_MOD.

Definition stateSync (c : FdContext) (origin_event : Z) (k : K) : Z * K :=
  let new_event := m_event c in
  if (new_event =? origin_event) || (m_fd c =? m_eventFd) then (0, k)
  else epoll_ctl k (sync_op origin_event new_event) (m_fd c) (new_event ||| EPOLLET).

(** [run] of each kind of task; [cb] tells whether the task carries a
    synchronisation callback, which is always [stateSync].  The result is the
    context, the kernel, the result of the callback and what was visible. *)
Definition run (cb : bool) (t : RegistedTask) (c : FdContext) (k : K)
    : option (FdContext * K * Z * list visible) :=
  let origin_state := m_event c in
  let sync c := if cb then stateSync c origin_state k else (0, k) in
  match t with
  | DEL_TASK event =>
      let c := delEvent event c in
      let (rc, k) := sync c in Some (c, k, rc, [])
  | ADD_TASK event task =>
      let c := addEvent event task c in
      let (rc, k) := sync c in Some (c, k, rc, [])
  | TRIGGER_TASK event =>
      match trigger event c with
      | None => None
      | Some fs => let (rc, k) := sync c in Some (c, k, rc, map called fs)
      end
  | CLOSE_TASK =>
      let fd := m_fd c in
      let c := reset_ctx c in
      let (rc, k) := sync c in Some (c, k, rc, [co_closed fd 0])
  | CLOSE_TASK_NOCLOSEFD =>
      let fd := m_fd c in
      let c := reset_ctx c in
      let (rc, k) := sync c in Some (c, k, rc, [co_closed fd 1])
  end.

(** The tasks of a queue, run one after the other ([solveSingleTask]); [None]
    is an exception, the results of the callbacks are collected. *)
Fixpoint run_all (ts : list RegistedTask) (c : FdContext) (k : K)
    : option (FdContext * K * list Z * list visible) :=
  match ts with
  | [] => Some (c, k, [], [])
  | t :: ts =>
      match run true t c k with
      | None => None
      | Some (c, k, rc, vs) =>
          match run_all ts c k with
          | None => None
          | Some (c, k, rcs, vs') => Some (c, k, rc :: rcs, vs ++ vs')
          end
      end
  end.
End sync.

(** ** The registered events and the kernel agree *)

Definition wanted (c : FdContext) : option Z :=
  if m_event c =? NONE then None else Some (m_event c ||| EPOLLET).

(** A slot holds nothing that could be started when its event is not set, and the
    callbacks of the context can be cloned. *)
Definition slot_ok (set : bool) (cb : TaskCoro20) : Prop :=
  clone cb <> None /\ (set = false -> trigger_slot cb = Some []).

Record ctx_ok (c : FdContext) : Prop := mk_ctx_ok {
  co_range : 0 <= m_event c;
  co_read : slot_ok (truthy (m_event c & READ)) (m_cb_read c);
  co_write : slot_ok (truthy (m_event c & WRITE)) (m_cb_write c);
}.

(** The tasks that callers register: the event of an addition is not negative, and
    its task can be cloned. *)
Definition task_ok (t : RegistedTask) : Prop :=
  match t with
  | ADD_TASK event task => 0 <= event /\ clone task <> None
  | _ => True
  end.

Lemma trigger_slot_total cb : clone cb <> None -> exists fs, trigger_slot cb = Some fs.
Proof.
  unfold trigger_slot, clone, create_coro. intros Hc.
  destruct (m_type cb) eqn:Et; cbn; [by eexists| |].
  - destruct (m_coro_task cb) as [g|]; [|done]. cbn. by eexists.
  - destruct (m_func_task cb) as [f|]; cbn; by eexists.
Qed.

Lemma slot_reset b cb : slot_ok b (reset cb).
Proof. by split. Qed.

Lemma slot_moved b t : slot_ok b (move t).2.
Proof. by split. Qed.

Lemma addEvent_ok event task c :
  ctx_ok c -> 0 <= event -> clone task <> None -> ctx_ok (addEvent event task c).
Proof.
  intros [Hr H1 H2] He Ht. assert (Hmono : forall b, truthy (event & b) = false ->
    truthy ((m_event c ||| event) & b) = truthy (m_event c & b)).
  { intros b Hb. apply truthy_false in Hb. by rewrite Z.land_lor_distr_l, Hb, Z.lor_0_r. }
  assert (Hset : forall b, truthy (event & b) = true -> truthy ((m_event c ||| event) & b) = true).
  { intros b Hb. apply truthy_spec in Hb. apply truthy_spec. rewrite Z.land_lor_distr_l.
    intros E. apply Z.lor_eq_0_iff in E as [_ E]. done. }
  split; unfold addEvent.
  - destruct (truthy (event & READ)), (truthy (event & WRITE)); cbn; apply Z.lor_nonneg; lia.
  - destruct (truthy (event & READ)) eqn:E1, (truthy (event & WRITE)) eqn:E2; cbn [move m_event m_cb_read];
      rewrite ?(Hset READ E1), ?(Hmono READ E1); first [done | by split].
  - destruct (truthy (event & READ)) eqn:E1, (truthy (event & WRITE)) eqn:E2;
      cbn [move m_event m_cb_write]; rewrite ?(Hset WRITE E2), ?(Hmono WRITE E2); first [done | by split].
Qed.

Lemma delEvent_ok event c : ctx_ok c -> ctx_ok (delEvent event c).
Proof.
  intros [Hr [H1 _] [H2 _]]. split; unfold delEvent; cbn [m_event m_cb_read m_cb_write].
  - apply Z.land_nonneg. by left.
  - destruct (truthy _); cbn [negb]; by split.
  - destruct (truthy _); cbn [negb]; by split.
Qed.

Lemma reset_ctx_ok c : ctx_ok (reset_ctx c).
Proof. split; [done|by split..]. Qed.

Lemma ctor_ok fd : ctx_ok (FdContext_ctor fd).
Proof. split; [done|by split..]. Qed.

Lemma trigger_total event c : ctx_ok c -> exists fs, trigger event c = Some fs.
Proof.
  intros [_ [H1 _] [H2 _]]. unfold trigger.
  destruct (trigger_slot_total _ H1) as [r ->], (trigger_slot_total _ H2) as [w ->].
  destruct (truthy _), (truthy _); by eexists.
Qed.

#[export] Hint Resolve addEvent_ok delEvent_ok reset_ctx_ok ctor_ok : sylar.

(** The error of the first call that failed. *)
Fixpoint first_failure (rcs : list Z) : option Z :=
  match rcs with
  | [] => None
  | rc :: rcs => if rc =? 0 then first_failure rcs else Some rc
  end.

(** It is not that the call did not fit the interest list. *)
Definition fitting (rcs : list Z) : Prop :=
  forall rc, first_failure rcs = Some rc -> rc <> EEXIST /\ rc <> ENOENT.

Lemma fitting_cons rc rcs :
  (rc <> 0 -> rc <> EEXIST /\ rc <> ENOENT) -> (rc = 0 -> fitting rcs) -> fitting (rc :: rcs).
Proof.
  unfold fitting. cbn [first_failure]. destruct (Z.eqb_spec rc 0) as [->|Hne]; [by auto|]. intros H _ rc' [= <-]. auto.
Qed.

Section agree.
Context {K : Type} `{Epoll K} (m_eventFd : Z).

(** A change of the events of a context, from a kernel that agrees with it: when the
    call succeeds the kernel agrees with the new ones, and it does not fail because
    of the interest list.  Other descriptors are not touched. *)
Lemma stateSync_agrees c c' k :
  m_fd c' = m_fd c -> m_fd c <> m_eventFd ->
  (forall fd, fd <> m_fd c -> interest (stateSync m_eventFd c' (m_event c) k).2 fd = interest k fd) /\
  (interest k (m_fd c) = wanted c ->
    ((stateSync m_eventFd c' (m_event c) k).1 = 0 -> interest (stateSync m_eventFd c' (m_event c) k).2 (m_fd c) = wanted c') /\
    (stateSync m_eventFd c' (m_event c) k).1 <> EEXIST /\ (stateSync m_eventFd c' (m_event c) k).1 <> ENOENT).
Proof.
  intros Hfd Hne. unfold stateSync. rewrite Hfd.
  destruct (Z.eqb_spec (m_event c') (m_event c)) as [E1|E1]; cbn [orb].
  { split; [done|]. cbn [fst snd]. intros ->. unfold wanted. by rewrite E1. }
  rewrite (proj2 (Z.eqb_neq (m_fd c) m_eventFd)) by done. set (op := sync_op _ _). set (ev := _ ||| EPOLLET).
  split; [intros fd Hf; by apply ctl_others|]. intros Hw. split.
  - intros H0. rewrite ctl_done by done. unfold op, sync_op, wanted, ev in *.
    destruct (Z.eqb_spec (m_event c') NONE), (Z.eqb_spec (m_event c) NONE); cbn [andb negb]; congruence.
  - split; intros Herr; [apply ctl_eexist in Herr as [Hop Hi]|apply ctl_enoent in Herr as [Hop Hi]];
      rewrite Hw in Hi; unfold op, sync_op, wanted in *;
      destruct (Z.eqb_spec (m_event c') NONE), (Z.eqb_spec (m_event c) NONE); cbn [andb negb] in *; congruence.
Qed.

Lemma run_agrees t c k :
  ctx_ok c -> task_ok t -> m_fd c <> m_eventFd ->
  exists c' k' rc vs, run m_eventFd true t c k = Some (c', k', rc, vs) /\ ctx_ok c' /\ m_fd c' = m_fd c /\
    (forall fd, fd <> m_fd c -> interest k' fd = interest k fd) /\
    (interest k (m_fd c) = wanted c ->
      (rc = 0 -> interest k' (m_fd c) = wanted c') /\ rc <> EEXIST /\ rc <> ENOENT).
Proof.
  intros Hc Ht Hne.
  assert (Hgo : forall c' (vs : list visible), ctx_ok c' -> m_fd c' = m_fd c ->
    exists c2 k' rc vs', (let (rc, k0) := stateSync m_eventFd c' (m_event c) k in Some (c', k0, rc, vs)) = Some (c2, k', rc, vs')
      /\ ctx_ok c2 /\ m_fd c2 = m_fd c /\ (forall fd, fd <> m_fd c -> interest k' fd = interest k fd) /\
      (interest k (m_fd c) = wanted c ->
        (rc = 0 -> interest k' (m_fd c) = wanted c2) /\ rc <> EEXIST /\ rc <> ENOENT)).
  { intros c' vs Hok Hfd. pose proof (stateSync_agrees c c' k Hfd Hne) as [Ho Hs].
    destruct (stateSync m_eventFd c' (m_event c) k) as [rc k']. by exists c', k', rc, vs. }
  destruct t as [event|event task|event| |]; cbn [run].
  - apply Hgo; [by apply delEvent_ok|done].
  - destruct Ht. apply Hgo; [by apply addEvent_ok|]. unfold addEvent. by repeat case_match; simplify_eq.
  - destruct (trigger_total event c Hc) as [fs ->]. by apply Hgo.
  - apply Hgo; [apply reset_ctx_ok|done].
  - apply Hgo; [apply reset_ctx_ok|done].
Qed.

Lemma run_all_agrees ts : forall c k,
  ctx_ok c -> Forall task_ok ts -> m_fd c <> m_eventFd ->
  exists c' k' rcs vs, run_all m_eventFd ts c k = Some (c', k', rcs, vs) /\ ctx_ok c' /\ m_fd c' = m_fd c /\
    (forall fd, fd <> m_fd c -> interest k' fd = interest k fd) /\
    (interest k (m_fd c) = wanted c ->
      (Forall (eq 0) rcs -> interest k' (m_fd c) = wanted c') /\ fitting rcs).
Proof.
  induction ts as [|t ts IH]; intros c k Hc Hts Hne; cbn [run_all].
  { exists c, k, [], []. by split_and!. }
  inversion_clear Hts as [|? ? Ht Hts'].
  destruct (run_agrees t c k Hc Ht Hne) as (c1 & k1 & rc & vs1 & -> & Hc1 & Hfd1 & Ho1 & Hw1).
  rewrite <- Hfd1 in Hne.
  destruct (IH c1 k1 Hc1 Hts' Hne) as (c2 & k2 & rcs & vs & -> & Hc2 & Hfd2 & Ho2 & Hw2).
  eexists c2, k2, _, _. split; [done|]. rewrite Hfd1 in *. split_and!; try done.
  { intros fd Hfd. by rewrite Ho2, Ho1. }
  intros Hw. destruct (Hw1 Hw) as (Hok & Hne1 & Hne2). split.
  - intros [<- Hz]%Forall_cons. by apply Hw2; [apply Hok|].
  - apply fitting_cons; [done|]. intros Hz. by apply Hw2, Hok.
Qed.
End agree.
