(* ===== verification/FdQueue.v ===== *)
(** * Who runs the tasks of a descriptor

    Models [FdContextManager::addTask], [solveTasks] and [solveSingleTask]
    ([sylar/coroutine/coro20/fdContext.cc]) when several threads register tasks
    for one descriptor.  A task is any value; a thread is a program counter; a
    step is one access to the shared state: a section under [m_task_mutex], a
    compare-exchange on or a store to [m_state], or the run of one task.

    After a pass [solveTasks] stores [INIT] or [READY], as the descriptor has
    events or not; both are covered, as an argument of the step.  So are tasks
    that throw. *)

From stdpp Require Import relations.
From S2P Require Import Prelude.

Section queue.
Context {T : Type}.
Implicit Types (t : T) (ts : list T).

Inductive FdState := INIT | READY | BUSY.

#[global] Instance FdState_eq_dec : EqDecision FdState.
Proof. solve_decision. Defined.

(** Where a call of [addTask] stands.  In [solveTasks] the two loops run the
    same way; [second] tells which one it is. *)
Inductive pc :=
  | at_push (t : T)                     (* before the lock of addTask(task) *)
  | at_recheck                          (* before the lock of addTask(nullptr) *)
  | at_cas_ready                        (* before the first compare-exchange *)
  | at_cas_init                         (* before the second *)
  | at_splice (second : bool)           (* before the splice of solveSingleTask *)
  | at_run (second : bool) (tasks : list T)   (* the tasks taken and not yet run *)
  | at_release                          (* before the store to m_state *)
  | returned (executed : bool)
  | thrown.                             (* left by an exception of a task *)

Record shared := mk_shared {
  m_state : FdState;
  m_tasks : list T;
  pushed : list T;                      (* every task registered, in order *)
  ran : list T;                         (* every task run to its end, in order *)
}.

Record system := mk_system { glob : shared; threads : list pc }.

Definition set_state (st : FdState) (g : shared) : shared :=
  mk_shared st (m_tasks g) (pushed g) (ran g).

(** One step: [has_event] is the answer of the context at the release, [ok]
    tells whether the task run by this step returns. *)
Definition thread_step (has_event ok : bool) (g : shared) (p : pc) : option (shared * pc) :=
  match p with
  | at_push t =>
      Some (mk_shared (m_state g) (m_tasks g ++ [t]) (pushed g ++ [t]) (ran g), at_cas_ready)
  | at_recheck =>
      match m_tasks g with [] => Some (g, returned true) | _ => Some (g, at_cas_ready) end
  | at_cas_ready =>
      if decide (m_state g = READY) then Some (set_state BUSY g, at_splice false) else Some (g, at_cas_init)
  | at_cas_init =>
      if decide (m_state g = INIT) then Some (set_state BUSY g, at_splice false)
      else Some (g, returned false)
  | at_splice second =>
      match m_tasks g with
      | [] => Some (g, if second then at_release else at_splice true)
      | ts => Some (mk_shared (m_state g) [] (pushed g) (ran g), at_run second ts)
      end
  | at_run second [] => Some (g, at_splice second)
  | at_run second (t :: ts) =>
      if ok then Some (mk_shared (m_state g) (m_tasks g) (pushed g) (ran g ++ [t]), at_run second ts)
      else Some (g, thrown)
  | at_release => Some (set_state (if has_event then READY else INIT) g, at_recheck)
  | returned _ | thrown => None
  end.

Definition sys_step (has_event ok : bool) (i : nat) (s : system) : option system :=
  match threads s !! i with
  | None => None
  | Some p =>
      match thread_step has_event ok (glob s) p with
      | None => None
      | Some (g, p') => Some (mk_system g (<[i := p']> (threads s)))
      end
  end.

(** Interleavings in which every task returns, and arbitrary ones. *)
Inductive step : system -> system -> Prop :=
  | step_ok has_event i s s' : sys_step has_event true i s = Some s' -> step s s'.
Inductive step_any : system -> system -> Prop :=
  | step_any_thread has_event ok i s s' : sys_step has_event ok i s = Some s' -> step_any s s'.

Definition start (tasks : list T) : system :=
  mk_system (mk_shared INIT [] [] []) (map at_push tasks).

(** ** One thread at a time *)

Definition owns (p : pc) : bool :=
  match p with at_splice _ | at_run _ _ | at_release => true | _ => false end.

(** The tasks an owner has taken and not yet run. *)
Definition held (p : pc) : list T := match p with at_run _ ts => ts | _ => [] end.

(** Either nobody owns the queue, or one thread does; and the tasks registered
    are those run, those the owner holds, and those in the queue, in order. *)
Inductive own_inv : system -> Prop :=
  | own_none s :
      m_state (glob s) <> BUSY -> Forall (fun p => owns p = false) (threads s) ->
      pushed (glob s) = ran (glob s) ++ m_tasks (glob s) -> own_inv s
  | own_one s l1 p l2 :
      m_state (glob s) = BUSY -> threads s = l1 ++ p :: l2 -> owns p = true ->
      Forall (fun p => owns p = false) (l1 ++ l2) ->
      pushed (glob s) = ran (glob s) ++ held p ++ m_tasks (glob s) -> own_inv s.

Lemma insert_middle {A} (l : list A) i p :
  l !! i = Some p ->
  exists l1 l2, l = l1 ++ p :: l2 /\ i = length l1 /\ forall p', <[i := p']> l = l1 ++ p' :: l2.
Proof.
  intros H. apply list_elem_of_split_length in H as (l1 & l2 & -> & ->).
  exists l1, l2. split_and!; [done|done|]. intros p'. by rewrite insert_app_r_alt, Nat.sub_diag by lia.
Qed.

(** A thread that is not the owner: how its step looks to the others. *)
Lemma idle_step has_event ok g p g' p' :
  thread_step has_event ok g p = Some (g', p') -> owns p = false ->
  (owns p' = false /\ m_state g' = m_state g /\ ran g' = ran g /\
   exists ts, pushed g' = pushed g ++ ts /\ m_tasks g' = m_tasks g ++ ts) \/
  (owns p' = true /\ m_state g <> BUSY /\ held p' = [] /\ g' = set_state BUSY g).
Proof.
  intros H Ho. destruct p as [t| | | |b|b ts| |b|]; try done; cbn in H.
  - simplify_eq. left. cbn. split_and!; try done. by exists [t].
  - destruct (m_tasks g) eqn:E; simplify_eq; left; split_and!; try done; exists []; by rewrite !app_nil_r, ?E.
  - destruct (decide _) as [E|]; simplify_eq; [right; split_and!; try done; congruence|].
    left. split_and!; try done. exists []. by rewrite !app_nil_r.
  - destruct (decide _) as [E|]; simplify_eq; [right; split_and!; try done; congruence|].
    left. split_and!; try done. exists []. by rewrite !app_nil_r.
Qed.

(** The owner. *)
Lemma owner_step has_event g p g' p' :
  thread_step has_event true g p = Some (g', p') -> owns p = true ->
  pushed g' = pushed g /\
  ran g' ++ held p' ++ m_tasks g' = ran g ++ held p ++ m_tasks g /\
  ((owns p' = true /\ m_state g' = m_state g) \/ (owns p' = false /\ held p' = [] /\ m_state g' <> BUSY)).
Proof.
  intros H Ho. destruct p as [t| | | |b|b ts| |b|]; try done; cbn in H.
  - destruct (m_tasks g) eqn:E; simplify_eq; cbn [pushed ran held m_tasks m_state owns];
      [destruct b; cbn; rewrite ?E; auto|]. rewrite app_nil_r. auto.
  - destruct ts as [|t ts]; simplify_eq; cbn; [auto|]. rewrite <- app_assoc. auto.
  - simplify_eq. cbn. split_and!; [done|done|]. right. by destruct has_event.
Qed.

(** A step of a thread other than the one at [length k1]. *)
Lemma insert_other {A} (P : A -> Prop) (k1 k2 : list A) q i p p' :
  (k1 ++ q :: k2) !! i = Some p -> i <> length k1 -> Forall P (k1 ++ k2) -> P p' ->
  P p /\ exists j1 j2, <[i := p']> (k1 ++ q :: k2) = j1 ++ q :: j2 /\ Forall P (j1 ++ j2).
Proof.
  intros Hi Hne Hall Hp'. apply Forall_app in Hall as [H1 H2].
  destruct (decide (i < length k1)%nat) as [Hlt|Hge].
  - rewrite lookup_app_l in Hi by done. split; [exact (Forall_lookup_1 P k1 i p H1 Hi)|].
    exists (<[i := p']> k1), k2. rewrite insert_app_l by done. split; [done|].
    apply Forall_app. split; [by apply Forall_insert|done].
  - rewrite lookup_app_r in Hi by lia. rewrite insert_app_r_alt by lia.
    destruct (i - length k1)%nat as [|n] eqn:Ed; [lia|]. cbn in Hi |- *.
    split; [exact (Forall_lookup_1 P k2 n p H2 Hi)|].
    exists k1, (<[n := p']> k2). split; [done|]. apply Forall_app. split; [done|by apply Forall_insert].
Qed.

Lemma queue_step_own s s' : step s s' -> own_inv s -> own_inv s'.
Proof.
  intros [he i s0 s1 H] Hinv. unfold sys_step in H.
  destruct (threads s0 !! i) as [p|] eqn:Hp; [|done].
  destruct (thread_step he true (glob s0) p) as [[g' p']|] eqn:Ht; [|done]. injection H as <-.
  destruct Hinv as [s2 Hst Hall Hq|s2 k1 q k2 Hst Eq Hoq Hall Hq].
  - pose proof (Forall_lookup_1 _ _ _ _ Hall Hp) as Hpo. cbn in Hpo.
    destruct (idle_step _ _ _ _ _ _ Ht Hpo) as [(Ho & Es & Er & ts & Eu & Em)|(Ho & Hb & Hh & ->)].
    + apply own_none; cbn [glob threads]; [by rewrite Es| |by rewrite Eu, Em, Er, Hq, app_assoc].
      by apply Forall_insert.
    + destruct (insert_middle _ _ _ Hp) as (l1 & l2 & E & _ & Hins). rewrite E in Hall.
      apply Forall_app in Hall as [Ha1 Ha2]. inversion_clear Ha2.
      eapply (own_one _ l1 p' l2); cbn [glob threads]; [done|apply Hins|done|by apply Forall_app|].
      by rewrite Hh.
  - rewrite Eq in Hp. destruct (decide (i = length k1)) as [->|Hne].
    + rewrite list_lookup_middle in Hp by done. injection Hp as <-.
      pose proof (insert_app_r_alt k1 (q :: k2) (length k1) p' ltac:(lia)) as Hins.
      rewrite Nat.sub_diag in Hins. cbn in Hins.
      destruct (owner_step _ _ _ _ _ Ht Hoq) as (Eu & Eo & [[Ho Es]|(Ho & Hh & Es)]).
      * eapply (own_one _ k1 p' k2); cbn [glob threads]; [by rewrite Es|by rewrite Eq|done|done|].
        by rewrite Eu, Eo.
      * apply own_none; cbn [glob threads]; [done| |by rewrite Hh in Eo; rewrite Eu, Hq, <- Eo].
        rewrite Eq, Hins. apply Forall_app in Hall as [Ha1 Ha2]. apply Forall_app. by split; [|constructor].
    + destruct (insert_other _ k1 k2 q i p (returned true) Hp Hne Hall eq_refl) as [Hpo _].
      destruct (idle_step _ _ _ _ _ _ Ht Hpo) as [(Ho & Es & Er & ts & Eu & Em)|(_ & Hb & _)]; [|done].
      destruct (insert_other _ k1 k2 q i p p' Hp Hne Hall Ho) as [_ (j1 & j2 & Ej & Hj)].
      eapply (own_one _ j1 q j2); cbn [glob threads]; [by rewrite Es|by rewrite Eq|done|done|].
      by rewrite Eu, Em, Er, Hq, !app_assoc.
Qed.

(** ** No task is forgotten *)

(** A thread that will still look at the queue. *)
Definition will_look (st : FdState) (p : pc) : Prop :=
  owns p = true \/ p = at_recheck \/ p = at_cas_ready \/ (p = at_cas_init /\ st = INIT).

Definition attended (s : system) : Prop :=
  m_tasks (glob s) <> [] -> Exists (will_look (m_state (glob s))) (threads s).

(** What a step leaves of the watchers: the thread itself watches afterwards, or
    somebody else does. *)
Lemma step_will_look has_event g p g' p' :
  thread_step has_event true g p = Some (g', p') -> will_look (m_state g) p ->
  will_look (m_state g') p' \/ m_tasks g' = [] \/ (m_state g = BUSY /\ owns p = false /\ m_state g' = BUSY).
Proof.
  intros H Hw. destruct p as [t| | | |b|b ts| |b|]; cbn in H; unfold will_look in *;
    try (destruct Hw as [?|[?|[?|[? ?]]]]; done).
  - destruct (m_tasks g) eqn:E; simplify_eq; auto.
  - destruct (decide _); simplify_eq; [by left; left|]. destruct (m_state g') eqn:Es; auto 10.
  - destruct Hw as [?|[?|[?|[_ Hi]]]]; try done. rewrite decide_True in H by done. simplify_eq. by left; left.
  - destruct (m_tasks g) eqn:E; simplify_eq; [right; by left|]. by left; left.
  - destruct ts; simplify_eq; by left; left.
  - simplify_eq. auto.
Qed.

Lemma exists_insert {A} (P : A -> Prop) (l : list A) i p p' :
  l !! i = Some p -> Exists P l -> P p' \/ ~ P p -> Exists P (<[i := p']> l).
Proof.
  intros Hi Hex Hor. apply Exists_exists in Hex as (x & Hx & HP). apply list_elem_of_lookup in Hx as [j Hj].
  apply Exists_exists. destruct (decide (j = i)) as [->|Hne].
  - destruct Hor as [Hp'|Hn]; [|simplify_eq; done]. exists p'. split; [|done].
    apply (list_elem_of_lookup_2 _ i), list_lookup_insert_eq. by eapply lookup_lt_Some.
  - exists x. split; [|done]. apply (list_elem_of_lookup_2 _ j). by rewrite list_lookup_insert_ne.
Qed.

(** The steps of one thread keep the others' watch, unless the queue is empty or
    the thread itself watches; with an owner the others may stop watching. *)
Lemma other_will_look has_event g p g' p' q :
  thread_step has_event true g p = Some (g', p') -> will_look (m_state g) q ->
  will_look (m_state g') q \/ will_look (m_state g') p'.
Proof.
  intros H Hq. destruct p as [t| | | |b|b ts| |b|]; cbn in H; unfold will_look in *.
  - simplify_eq. auto.
  - destruct (m_tasks g); simplify_eq; auto.
  - destruct (decide _); simplify_eq; auto.
  - destruct (decide _); simplify_eq; auto.
  - destruct (m_tasks g); simplify_eq; auto.
  - destruct ts; simplify_eq; auto.
  - simplify_eq. auto.
  - done.
  - done.
Qed.

Lemma owner_watches s : own_inv s -> m_state (glob s) = BUSY ->
  exists i q, threads s !! i = Some q /\ owns q = true.
Proof.
  intros [s2 Hst _ _|s2 k1 q k2 _ Eq Hoq _ _] Hb; [done|].
  exists (length k1), q. rewrite Eq. by rewrite list_lookup_middle.
Qed.

Lemma step_attended s s' : step s s' -> own_inv s -> attended s -> attended s'.
Proof.
  intros [he i s0 s1 H] Hinv Hatt. unfold sys_step in H.
  destruct (threads s0 !! i) as [p|] eqn:Hp; [|done].
  destruct (thread_step he true (glob s0) p) as [[g' p']|] eqn:Ht; [|done]. injection H as <-.
  intros Hne. cbn [glob threads] in *.
  assert (Hself : will_look (m_state g') p' -> Exists (will_look (m_state g')) (<[i := p']> (threads s0))).
  { intros Hw. apply Exists_exists. exists p'. split; [|done].
    apply (list_elem_of_lookup_2 _ i), list_lookup_insert_eq. by eapply lookup_lt_Some. }
  assert (Hother : forall j q, threads s0 !! j = Some q -> j <> i -> will_look (m_state (glob s0)) q ->
    Exists (will_look (m_state g')) (<[i := p']> (threads s0))).
  { intros j q Hj Hji Hq. destruct (other_will_look _ _ _ _ _ q Ht Hq) as [Hq'|]; [|by apply Hself].
    apply Exists_exists. exists q. split; [|done]. apply (list_elem_of_lookup_2 _ j). by rewrite list_lookup_insert_ne. }
  destruct (decide (m_tasks (glob s0) = [])) as [E0|E0].
  { destruct p as [t| | | |b|b ts| |b|]; cbn in Ht; rewrite ?E0 in Ht; repeat case_match; simplify_eq; try done;
      apply Hself; unfold will_look; auto. }
  pose proof (Hatt E0) as Hex. apply Exists_exists in Hex as (q & Hq & Hw). apply list_elem_of_lookup in Hq as [j Hj].
  destruct (decide (j = i)) as [->|Hji]; [|by eapply Hother]. simplify_eq.
  destruct (step_will_look _ _ _ _ _ Ht Hw) as [Hw'|[He|(Hb & Hno & _)]]; [by apply Hself|done|].
  destruct (owner_watches s0 Hinv Hb) as (k & o & Hk & Ho).
  eapply (Hother k o); [done|congruence|by left].
Qed.

(** ** What was registered *)

Definition to_push (p : pc) : list T := match p with at_push t => [t] | _ => [] end.

Definition registered (s : system) : list T := pushed (glob s) ++ concat (map to_push (threads s)).

Lemma perm_pull {A} (a b x c : list A) : a ++ b ++ x ++ c ≡ₚ (a ++ x) ++ (b ++ c).
Proof. rewrite <- app_assoc. apply Permutation_app_head. rewrite !app_assoc. by rewrite (Permutation_app_comm b). Qed.

Lemma step_registered s s' : step s s' -> registered s' ≡ₚ registered s.
Proof.
  intros [he i s0 s1 H]. unfold sys_step in H.
  destruct (threads s0 !! i) as [p|] eqn:Hp; [|done].
  destruct (thread_step he true (glob s0) p) as [[g' p']|] eqn:Ht; [|done]. injection H as <-.
  destruct (insert_middle _ _ _ Hp) as (l1 & l2 & E & _ & Hins). unfold registered. cbn [glob threads].
  rewrite Hins, E, !map_app, !concat_app. cbn [map concat].
  assert (Hg : pushed g' ++ to_push p' ≡ₚ pushed (glob s0) ++ to_push p).
  { destruct p as [t| | | |b|b ts| |b|]; cbn in Ht; repeat case_match; simplify_eq; cbn;
      rewrite ?app_nil_r; done. }
  by rewrite !perm_pull, Hg.
Qed.

Lemma start_inv tasks : own_inv (start tasks) /\ attended (start tasks) /\ registered (start tasks) = tasks.
Proof.
  split_and!.
  - apply own_none; [done| |done]. cbn. apply Forall_forall. intros p Hp.
    apply list_elem_of_fmap in Hp as (t & -> & _). done.
  - intros Hne. done.
  - unfold registered. cbn. induction tasks; cbn in *; congruence.
Qed.

Lemma queue_reachable_inv tasks s :
  rtc step (start tasks) s -> own_inv s /\ attended s /\ registered s ≡ₚ tasks.
Proof.
  intros Hr. destruct (start_inv tasks) as (H1 & H2 & H3). rewrite <- H3 at 1. clear H3. revert H1 H2.
  induction Hr as [|s1 s2 s3 H12 _ IH]; intros H1 H2; [done|].
  destruct IH as (? & ? & Hp); [by eapply queue_step_own|by eapply step_attended|]. split_and!; [done|done|].
  rewrite Hp. by apply step_registered.
Qed.
End queue.

(** * Results *)

(** C6. The queue of a descriptor, however the threads interleave (with tasks
    that return): at most one thread runs tasks, and only while the state is
    [BUSY]; tasks run in the order in which they were registered, none twice; and
    once every call has returned, every task has run: the queue is empty and the
    state is not [BUSY], although calls return while their task is still queued. *)
Theorem fdqueue_runs_everything {T} (tasks : list T) s :
  rtc step (start tasks) s ->
  (length (List.filter owns (threads s)) <= 1)%nat /\
  (exists held_tasks, pushed (glob s) = ran (glob s) ++ held_tasks ++ m_tasks (glob s)) /\
  (Forall (fun p => exists b, p = returned b) (threads s) ->
   m_tasks (glob s) = [] /\ m_state (glob s) <> BUSY /\ ran (glob s) = pushed (glob s) /\ ran (glob s) ≡ₚ tasks).
Proof.
  intros Hr. destruct (queue_reachable_inv tasks s Hr) as (Hown & Hatt & Hreg).
  assert (Hnone : forall l : list (pc (T := T)), Forall (fun p => owns p = false) l -> List.filter owns l = []).
  { induction l as [|p l IH]; intros Hl; [done|]. inversion_clear Hl as [|? ? Hp Hl']. cbn. by rewrite Hp, IH. }
  split_and!.
  - destruct Hown as [s _ Hall _|s k1 q k2 _ -> Hoq Hall _]; [by rewrite Hnone; [cbn; lia|]|].
    apply Forall_app in Hall as [H1 H2]. rewrite List.filter_app. cbn. rewrite Hoq, !Hnone by done. cbn. lia.
  - destruct Hown as [s _ _ Hq|s k1 q k2 _ _ _ _ Hq]; [by exists []|by exists (held q)].
  - intros Hdone.
    assert (Hlook : forall st, ~ Exists (will_look st) (threads s)).
    { intros st Hex. apply Exists_exists in Hex as (p & Hp & Hw).
      destruct (proj1 (Forall_forall _ _) Hdone p Hp) as [b ->]. destruct Hw as [?|[?|[?|[? _]]]]; done. }
    assert (Hempty : m_tasks (glob s) = []).
    { destruct (m_tasks (glob s)) eqn:E; [done|]. destruct (Hlook (m_state (glob s))). apply Hatt. by rewrite E. }
    assert (Hreg' : registered s = pushed (glob s)).
    { unfold registered. rewrite <- (app_nil_r (pushed (glob s))) at 2. f_equal. clear -Hdone.
      induction Hdone as [|p l [b ->] _ IH]; [done|]. exact IH. }
    destruct Hown as [s Hst _ Hq|s k1 q k2 _ E Hoq _ _].
    + rewrite Hempty, app_nil_r in Hq. split_and!; [done|done|done|].
      rewrite <- Hq, <- Hreg'. exact Hreg.
    + rewrite E in Hdone. apply Forall_app in Hdone as [_ Hd]. apply Forall_inv in Hd as [b ->]. done.
Qed.

(** Two threads: the second registers while the first runs its task. *)
Fixpoint run_schedule {T} (sched : list nat) (s : system (T := T)) : option system :=
  match sched with
  | [] => Some s
  | i :: sched => match sys_step true true i s with Some s => run_schedule sched s | None => None end
  end.

Lemma queue_run_schedule_steps {T} sched (s s' : system (T := T)) : run_schedule sched s = Some s' -> rtc step s s'.
Proof.
  revert s. induction sched as [|i sched IH]; intros s; cbn; [intros [= ->]; constructor|].
  destruct (sys_step true true i s) as [s1|] eqn:E; [|done]. intros H.
  eapply rtc_l; [by econstructor|by apply IH].
Qed.

Definition ex_schedule : list nat := [0; 0; 0; 0; 1; 0; 1; 1; 0; 0; 0; 0; 0; 0; 0; 0]%nat.

Definition ex_final : system :=
  mk_system (mk_shared READY [] [10; 20] [10; 20]) [returned true; returned false].

Lemma fdqueue_runs_everything_witness :
  run_schedule ex_schedule (start [10; 20]) = Some ex_final /\
    (length (List.filter owns (threads ex_final)) <= 1)%nat /\ m_tasks (glob ex_final) = [].
Proof.
  assert (E : run_schedule ex_schedule (start [10; 20]) = Some ex_final) by reflexivity.
  destruct (fdqueue_runs_everything [10; 20] ex_final (queue_run_schedule_steps ex_schedule _ _ E)) as (H1 & _ & H3).
  split; [exact E|]. split; [exact H1|]. apply H3. apply Forall_cons_2; [by eexists|].
  apply Forall_cons_2; [by eexists|apply Forall_nil_2].
Defined.

(** ** Tasks that throw *)

(** The state left by an owner that was thrown out. *)
Definition abandoned {T} (s : system (T := T)) : Prop :=
  m_state (glob s) = BUSY /\ Forall (fun p => owns p = false) (threads s).

Lemma step_abandoned {T} (s s' : system (T := T)) :
  step_any s s' -> abandoned s -> abandoned s' /\ ran (glob s') = ran (glob s).
Proof.
  intros [he ok i s0 s1 H] [Hb Hall]. unfold sys_step in H.
  destruct (threads s0 !! i) as [p|] eqn:Hp; [|done].
  destruct (thread_step he ok (glob s0) p) as [[g' p']|] eqn:Ht; [|done]. injection H as <-.
  pose proof (Forall_lookup_1 _ _ _ _ Hall Hp) as Hpo. cbn in Hpo.
  destruct (idle_step _ _ _ _ _ _ Ht Hpo) as [(Ho & Es & Er & _)|(_ & Hn & _)]; [|done].
  split; [|done]. split; cbn [glob threads]; [by rewrite Es|]. by apply Forall_insert.
Qed.

(** A task that throws blocks its descriptor for good: the exception leaves
    the state [BUSY] with no thread running tasks; the tasks taken with it are
    lost, and whatever is registered from then on, by any thread, is never run. *)
Theorem fdqueue_throw_blocks {T} (tasks : list T) s i second t rest :
  rtc step (start tasks) s -> threads s !! i = Some (at_run second (t :: rest)) ->
  exists s1, sys_step true false i s = Some s1 /\
    forall s2, rtc step_any s1 s2 -> ran (glob s2) = ran (glob s) /\ m_state (glob s2) = BUSY.
Proof.
  intros Hr Hi. destruct (queue_reachable_inv tasks s Hr) as (Hown & _ & _).
  exists (mk_system (glob s) (<[i := thrown]> (threads s))).
  split; [unfold sys_step; by rewrite Hi|].
  assert (Hab : abandoned (mk_system (glob s) (<[i := thrown]> (threads s)))).
  { destruct Hown as [s Hst Hall _|s k1 q k2 Hst E Hoq Hall _].
    - pose proof (Forall_lookup_1 _ _ _ _ Hall Hi). done.
    - split; [done|]. cbn [threads]. rewrite E in Hi |- *. destruct (decide (i = length k1)) as [->|Hne].
      + rewrite insert_app_r_alt, Nat.sub_diag by lia. cbn. apply Forall_app in Hall as [? ?].
        apply Forall_app. by split; [|constructor].
      + by destruct (insert_other _ k1 k2 q i _ thrown Hi Hne Hall eq_refl). }
  intros s2 H2. change (ran (glob s)) with (ran (glob (mk_system (glob s) (<[i := thrown]> (threads s))))).
  revert H2 Hab. set (s1 := mk_system _ _). clearbody s1. clear.
  induction 1 as [s1|s1 s2 s3 H12 _ IH]; intros Hab; [by destruct Hab|].
  destruct (step_abandoned _ _ H12 Hab) as [Hab2 E]. destruct (IH Hab2) as [E' ?]. split; [congruence|done].
Qed.

Lemma fdqueue_throw_blocks_witness :
  exists s1, sys_step true false 0 (mk_system (mk_shared BUSY [] [10] []) [at_run false [10]; at_push 20]) = Some s1 /\
    forall s2, rtc step_any s1 s2 -> ran (glob s2) = [] /\ m_state (glob s2) = BUSY.
Proof.
  apply (fdqueue_throw_blocks [10; 20] (mk_system (mk_shared BUSY [] [10] []) [at_run false [10]; at_push 20]) 0 false 10 []);
    [|reflexivity].
  apply (queue_run_schedule_steps [0; 0; 0; 0]%nat). reflexivity.
Defined.
