(* ===== verification/IoManager.v ===== *)
(** * The IO manager's events

    Models the operations of [IOManager] ([sylar/coroutine/coro20/ioManager.cc])
    that register, delete, cancel and report events: a vector of contexts
    indexed by descriptor, grown by [ResizeEvents], and the epoll instance.

    An operation hands its tasks to the manager of the descriptor, which runs
    them (see [FdQueue]); here they run at once, one operation after the other.
    [ResizeEvents] computes the new size with doubles; on [int] arguments the
    truncated products are the quotients written here. *)

From stdpp Require Import gmap.
From S2P Require Import Prelude TaskCoro FdContext.

Section iom.
Context {K : Type} `{Epoll K}.

Record IOManager := mk_iom {
  m_eventFd : Z;
  m_fd_events : list FdContext;
  kernel : K;
}.

(** The constructor: 128 contexts; the eventfd is added to epoll directly and
    registered without a callback.  [None] is an error or an eventfd past the
    vector. *)
Definition IOManager_ctor (eventFd : Z) (k : K) : option IOManager :=
  let events := map (fun i => FdContext_ctor (Z.of_nat i)) (seq 0 128) in
  let (rc, k) := epoll_ctl k EPOLL_CTL_ADD eventFd (READ ||| EPOLLET) in
  if negb (rc =? 0) then None
  else
    match events !! Z.to_nat eventFd with
    | None => None
    | Some c =>
        match run eventFd false (ADD_TASK READ TaskCoro20_default) c k with
        | Some (c, k, _, _) => Some (mk_iom eventFd (<[Z.to_nat eventFd := c]> events) k)
        | None => None
        end
    end.

Definition ResizeEvents (fd : Z) (m : IOManager) : IOManager :=
  let curr_size := zlen (m_fd_events m) in
  if curr_size <=? fd then
    let after_size := Z.max (curr_size * 3 / 2) (fd * 13 / 10) in
    mk_iom (m_eventFd m)
      (m_fd_events m ++
       map (fun i => FdContext_ctor (Z.of_nat i))
         (seq (length (m_fd_events m)) (Z.to_nat after_size - length (m_fd_events m))))
      (kernel m)
  else m.

(** How an operation ends: [Iom_bad_access] is an index out of the vector. *)
Inductive iom_res :=
  | Iom_ok (m : IOManager) (rcs : list Z) (vs : list visible)
  | Iom_error                             (* runtime_error or a failed assertion *)
  | Iom_throw                             (* an exception of a task *)
  | Iom_bad_access.

(** [fd >= m_fd_events.size()]: the [int] is compared as a [size_t]. *)
Definition as_size (fd : Z) : Z := if fd <? 0 then fd + 2 ^ 64 else fd.
Definition past_end (fd : Z) (m : IOManager) : bool := zlen (m_fd_events m) <=? as_size fd.

(** The tasks of an operation on the context of [fd]. *)
Definition with_context (fd : Z) (ts : list RegistedTask) (m : IOManager) : iom_res :=
  match (if fd <? 0 then None else m_fd_events m !! Z.to_nat fd) with
  | None => Iom_bad_access
  | Some c =>
      match run_all (m_eventFd m) ts c (kernel m) with
      | None => Iom_throw
      | Some (c, k, rcs, vs) =>
          Iom_ok (mk_iom (m_eventFd m) (<[Z.to_nat fd := c]> (m_fd_events m)) k) rcs vs
      end
  end.

Definition grown (fd : Z) (m : IOManager) : IOManager :=
  if past_end fd m then ResizeEvents fd m else m.

Definition addEvent_task (fd event : Z) (task : TaskCoro20) (m : IOManager) : iom_res :=
  if negb (isLegal task) then Iom_ok m [] []
  else with_context fd [ADD_TASK event task] (grown fd m).

Definition addEvent_func (fd event : Z) (cb_func : option nat) (m : IOManager) : iom_res :=
  match cb_func with
  | None => Iom_ok m [] []
  | Some f => with_context fd [ADD_TASK event (TaskCoro20_func (Some f))] (grown fd m)
  end.

Definition addOnceEvent_task (fd event : Z) (task : TaskCoro20) (m : IOManager) : iom_res :=
  if negb (isLegal task) then Iom_ok m [] []
  else with_context fd [ADD_TASK event task] (grown fd m).

Definition addOnceEvent_func (fd event : Z) (cb_func : option nat) (m : IOManager) : iom_res :=
  match cb_func with
  | None => Iom_ok m [] []
  | Some f =>
      with_context fd [ADD_TASK event (TaskCoro20_func (Some f)); DEL_TASK event] (grown fd m)
  end.

Definition delEvent (fd event : Z) (m : IOManager) : iom_res :=
  if past_end fd m then Iom_error else with_context fd [DEL_TASK event] m.

Definition closeFd (fd : Z) (m : IOManager) : iom_res :=
  if past_end fd m then Iom_ok m [] [] else with_context fd [CLOSE_TASK] m.

Definition closeWithNoClose (fd : Z) (m : IOManager) : iom_res :=
  if past_end fd m then Iom_ok m [] [] else with_context fd [CLOSE_TASK_NOCLOSEFD] m.

Definition cancelEvent (fd event : Z) (m : IOManager) : iom_res :=
  if past_end fd m then Iom_error
  else with_context fd [TRIGGER_TASK event; DEL_TASK event] m.

Definition cancelAll (fd : Z) (m : IOManager) : iom_res := cancelEvent fd (READ ||| WRITE) m.

(** One report of [epoll_wait] in [idle]. *)
Definition on_epoll_event (fd events : Z) (m : IOManager) : iom_res :=
  if fd =? m_eventFd m then Iom_ok m [] [] else with_context fd [TRIGGER_TASK events] m.

(** ** Sequences of operations *)

Inductive io_op :=
  | op_add_task (fd event : Z) (task : TaskCoro20)
  | op_add_func (fd event : Z) (cb_func : option nat)
  | op_once_task (fd event : Z) (task : TaskCoro20)
  | op_once_func (fd event : Z) (cb_func : option nat)
  | op_del (fd event : Z)
  | op_close (fd : Z)
  | op_close_noclose (fd : Z)
  | op_cancel (fd event : Z)
  | op_cancel_all (fd : Z)
  | op_report (fd events : Z)
  | op_close_outside (fd : Z).          (* [close(fd)], called by whoever *)

Definition io_run (o : io_op) : IOManager -> iom_res :=
  match o with
  | op_add_task fd event task => addEvent_task fd event task
  | op_add_func fd event f => addEvent_func fd event f
  | op_once_task fd event task => addOnceEvent_task fd event task
  | op_once_func fd event f => addOnceEvent_func fd event f
  | op_del fd event => delEvent fd event
  | op_close fd => closeFd fd
  | op_close_noclose fd => closeWithNoClose fd
  | op_cancel fd event => cancelEvent fd event
  | op_cancel_all fd => cancelAll fd
  | op_report fd events => on_epoll_event fd events
  | op_close_outside fd => fun m => Iom_ok (mk_iom (m_eventFd m) (m_fd_events m) (close_fd (kernel m) fd)) [] []
  end.

(** A descriptor that is not negative. *)
Lemma past_end_int fd m : 0 <= fd -> past_end fd m = (zlen (m_fd_events m) <=? fd).
Proof. intros Hfd. unfold past_end, as_size. by rewrite (proj2 (Z.ltb_ge fd 0)). Qed.

(** ** The invariant *)

(** Each context is that of its index, and the kernel watches nothing past them. *)
Record iom_inv (m : IOManager) : Prop := mk_iom_inv {
  ii_size : 128 <= zlen (m_fd_events m);
  ii_ctx : forall i c, m_fd_events m !! i = Some c -> ctx_ok c /\ m_fd c = Z.of_nat i;
  ii_none : forall fd, zlen (m_fd_events m) <= fd -> fd <> m_eventFd m -> interest (kernel m) fd = None;
}.

(** The kernel watches exactly the events of the context of [fd]. *)
Definition in_step (m : IOManager) (fd : Z) : Prop :=
  interest (kernel m) fd = match m_fd_events m !! Z.to_nat fd with Some c => wanted c | None => None end.
End iom.
Arguments IOManager K : clear implicits.
Arguments iom_res K : clear implicits.
