(* ===== verification/IoProps.v ===== *)
(** * Results on the IO manager *)

From stdpp Require Import gmap relations.
From S2P Require Import Prelude TaskCoro FdContext IoManager.

(** A [Forall] over a list given by its elements. *)
Ltac forall_list := repeat first [apply Forall_nil_2 | apply Forall_cons_2]; by cbn.

(** ** A kernel *)

(** An epoll instance as a finite map, beside the set of open descriptors, for the
    examples. *)
Record map_kernel := MkKernel { k_open : gset Z; k_watched : gmap Z Z }.

Definition EBADF : Z := 9.

Definition map_ctl (k : map_kernel) (op : epoll_op) (fd ev : Z) : Z * map_kernel :=
  if bool_decide (fd ∈ k_open k) then
    match op, k_watched k !! fd with
    | EPOLL_CTL_ADD, None | EPOLL_CTL_MOD, Some _ => (0, MkKernel (k_open k) (<[fd := ev]> (k_watched k)))
    | EPOLL_CTL_DEL, Some _ => (0, MkKernel (k_open k) (delete fd (k_watched k)))
    | EPOLL_CTL_ADD, Some _ => (EEXIST, k)
    | _, None => (ENOENT, k)
    end
  else (EBADF, k).

#[export] Instance map_epoll : Epoll map_kernel.
Proof.
  refine (Build_Epoll map_kernel map_ctl (fun k fd => MkKernel (k_open k ∖ {[fd]}) (delete fd (k_watched k)))
    (fun k fd => k_watched k !! fd) _ _ _ _ _ _ _);
    try (intros k op fd ev; unfold map_ctl; case_bool_decide; destruct op, (k_watched k !! fd) eqn:E; cbn; try done).
  - intros _. apply lookup_insert_eq.
  - intros _. apply lookup_insert_eq.
  - intros _. apply lookup_delete_eq.
  - intros fd' Hne. by apply lookup_insert_ne.
  - intros fd' Hne. by apply lookup_insert_ne.
  - intros fd' Hne. by apply lookup_delete_ne.
  - intros k fd. left. apply lookup_delete_eq.
  - intros k fd fd' Hne. by apply lookup_delete_ne.
Defined.

Section props.
Context {K : Type} `{Epoll K}.
Implicit Types (m : IOManager K).

(** ** The vector *)

Lemma lookup_fresh_contexts n len i c :
  map (fun i => FdContext_ctor (Z.of_nat i)) (seq n len) !! i = Some c ->
  c = FdContext_ctor (Z.of_nat (n + i)) /\ (i < len)%nat.
Proof.
  intros E. rewrite list_lookup_fmap, fmap_Some in E. destruct E as (j & Ej & ->).
  apply lookup_seq in Ej as [-> ?]. done.
Qed.

Lemma resize_inv fd m : iom_inv m -> 0 <= fd -> iom_inv (ResizeEvents fd m) /\
  fd < zlen (m_fd_events (ResizeEvents fd m)) /\ m_eventFd (ResizeEvents fd m) = m_eventFd m /\
  kernel (ResizeEvents fd m) = kernel m /\
  forall fd', 0 <= fd' -> fd' <> m_eventFd m -> in_step m fd' -> in_step (ResizeEvents fd m) fd'.
Proof.
  intros [Hs Hc Hn] Hfd. unfold ResizeEvents. destruct (_ <=? fd) eqn:E; bool_to_prop; [|by split_and!; auto].
  set (n := Z.max _ _). set (new := map _ _).
  assert (Hfn : fd < n).
  { unfold n. pose proof (Z.div_mod (fd * 13) 10 ltac:(lia)). pose proof (Z.mod_pos_bound (fd * 13) 10 ltac:(lia)). lia. }
  assert (Hnew : zlen new = n - zlen (m_fd_events m)).
  { unfold new, zlen. rewrite length_map, length_seq. unfold zlen in *. lia. }
  cbn [m_fd_events m_eventFd kernel]. split_and!; [|rewrite zlen_app; lia|done|done|].
  - split; cbn [m_fd_events m_eventFd kernel].
    + rewrite zlen_app. pose proof (zlen_nonneg new). lia.
    + intros i c Hi. apply lookup_app_Some in Hi as [Hi|[Hle Hi]]; [by apply Hc|].
      apply lookup_fresh_contexts in Hi as [-> Hlt]. replace (_ + (i - _))%nat with i by lia.
      split; [apply ctor_ok|done].
    + intros fd' Hfd'. rewrite zlen_app in Hfd'. apply Hn. pose proof (zlen_nonneg new). lia.
  - intros fd' Hp Hne. unfold in_step. cbn [m_fd_events kernel]. intros Hst.
    destruct (m_fd_events m !! Z.to_nat fd') as [c|] eqn:Ec.
    + by rewrite (lookup_app_l_Some _ _ _ _ Ec).
    + rewrite lookup_app, Ec, Hst. destruct (new !! _) as [c|] eqn:Ei; [|done].
      by apply lookup_fresh_contexts in Ei as [-> _].
Qed.

Lemma grown_inv fd m : iom_inv m -> 0 <= fd -> iom_inv (grown fd m) /\
  fd < zlen (m_fd_events (grown fd m)) /\ m_eventFd (grown fd m) = m_eventFd m /\
  forall fd', 0 <= fd' -> fd' <> m_eventFd m -> in_step m fd' -> in_step (grown fd m) fd'.
Proof.
  intros Hi Hfd. unfold grown. rewrite past_end_int by done. destruct (_ <=? fd) eqn:E; bool_to_prop; [|by split_and!].
  destruct (resize_inv fd m Hi Hfd) as (? & ? & ? & _ & ?). done.
Qed.

(** ** Operations keep the kernel in step *)

(** What an operation on [fd] that returns has done: descriptors that were in step
    still are, [fd] itself when no call failed, and then no call failed because of
    the interest list. *)
Definition stays (fd : Z) (rcs : list Z) m m' : Prop :=
  m_eventFd m' = m_eventFd m /\
  (forall fd', 0 <= fd' -> fd' <> m_eventFd m -> fd' <> fd -> in_step m fd' -> in_step m' fd') /\
  (in_step m fd -> (Forall (eq 0) rcs -> in_step m' fd) /\ fitting rcs).

Lemma with_context_inv fd ts m :
  iom_inv m -> 0 <= fd < zlen (m_fd_events m) -> fd <> m_eventFd m -> Forall task_ok ts ->
  exists m' rcs vs, with_context fd ts m = Iom_ok m' rcs vs /\ iom_inv m' /\ stays fd rcs m m'.
Proof.
  intros [Hs Hc Hn] Hfd Hne Hts. unfold with_context. rewrite (proj2 (Z.ltb_ge fd 0)) by lia.
  destruct (m_fd_events m !! Z.to_nat fd) as [c|] eqn:Ec; [|apply lookup_ge_None in Ec; unfold zlen in Hfd; lia].
  destruct (Hc _ _ Ec) as (Hok & Hm). rewrite Z2Nat.id in Hm by lia.
  destruct (run_all_agrees (m_eventFd m) ts c (kernel m) Hok Hts) as (c' & k' & rcs & vs & -> & Hok' & Hfd' & Ho & Hw);
    [congruence|]. rewrite Hm in *.
  eexists _, rcs, vs. split; [done|]. split.
  - split; cbn [m_fd_events m_eventFd kernel]; unfold zlen in *; rewrite ?length_insert; [done| |].
    + intros i c0 Hi. destruct (decide (i = Z.to_nat fd)) as [->|Hni].
      * rewrite list_lookup_insert_eq in Hi by lia. injection Hi as <-. split; [done|lia].
      * rewrite list_lookup_insert_ne in Hi by done. by apply Hc.
    + intros fd0 Hle Hne0. rewrite Ho; [by apply Hn|]. lia.
  - split; [done|]. unfold in_step. cbn [m_fd_events m_eventFd kernel]. rewrite Ec, list_lookup_insert_eq by (unfold zlen in *; lia).
    split; [|done]. intros fd0 Hp Hne0 Hni. rewrite Ho, list_lookup_insert_ne by lia. done.
Qed.

Definition op_fd (o : io_op) : Z :=
  match o with
  | op_add_task fd _ _ | op_add_func fd _ _ | op_once_task fd _ _ | op_once_func fd _ _
  | op_del fd _ | op_close fd | op_close_noclose fd | op_cancel fd _ | op_cancel_all fd | op_report fd _
  | op_close_outside fd => fd
  end.

(** Operations on a descriptor other than the manager's own; a report of epoll
    concerns a descriptor it watches, so one of the vector. *)
Definition op_ok (o : io_op) m : Prop :=
  0 <= op_fd o /\ op_fd o <> m_eventFd m /\
  match o with
  | op_add_task _ event task | op_once_task _ event task => 0 <= event /\ clone task <> None
  | op_add_func _ event _ | op_once_func _ event _ => 0 <= event
  | op_report fd _ => interest (kernel m) fd <> None
  | _ => True
  end.

Lemma add_inv fd ts m :
  iom_inv m -> 0 <= fd -> fd <> m_eventFd m -> Forall task_ok ts ->
  exists m' rcs vs, with_context fd ts (grown fd m) = Iom_ok m' rcs vs /\ iom_inv m' /\ stays fd rcs m m'.
Proof.
  intros Hi Hfd Hne Hts. destruct (grown_inv fd m Hi Hfd) as (Hi' & Hlt & He & Hg).
  destruct (with_context_inv fd ts (grown fd m)) as (m' & rcs & vs & E & Hm' & He' & Ho & Hs); [done|lia|congruence|done|].
  exists m', rcs, vs. split; [done|]. split; [done|]. rewrite He in *. split; [done|]. split; [by auto|].
  intros Hst. by apply Hs, Hg.
Qed.

(** Whether an operation deletes or cancels. *)
Definition removes (o : io_op) : bool :=
  match o with op_del _ _ | op_cancel _ _ | op_cancel_all _ => true | _ => false end.

(** The context of [fd] has no event. *)
Definition idle_fd m fd : bool :=
  match m_fd_events m !! Z.to_nat fd with Some c => m_event c =? NONE | None => true end.

Lemma close_outside_inv fd m :
  iom_inv m -> 0 <= fd -> fd <> m_eventFd m ->
  let m' := mk_iom (m_eventFd m) (m_fd_events m) (close_fd (kernel m) fd) in
  iom_inv m' /\ (forall fd', fd' <> fd -> in_step m fd' -> in_step m' fd') /\
  (idle_fd m fd = true -> in_step m fd -> in_step m' fd).
Proof.
  intros [Hs Hc Hn] Hfd Hne m'. split; [|split].
  - split; [done|done|]. intros fd0 Hle Hne0. cbn [kernel m' m_fd_events m_eventFd] in *.
    destruct (decide (fd0 = fd)) as [->|Hni]; [|rewrite close_others by done; by apply Hn].
    destruct (close_entry (kernel m) fd) as [->| ->]; [done|by apply Hn].
  - intros fd' Hni. unfold in_step. cbn [m' kernel m_fd_events]. by rewrite close_others.
  - unfold in_step, idle_fd. cbn [m' kernel m_fd_events]. intros Hidle Hst.
    assert (Hnone : interest (kernel m) fd = None).
    { rewrite Hst. destruct (m_fd_events m !! Z.to_nat fd) as [c|]; [|done]. unfold wanted. by rewrite Hidle. }
    rewrite <- Hst, Hnone. destruct (close_entry (kernel m) fd) as [->| ->]; done.
Qed.

Lemma io_run_cases o m :
  iom_inv m -> op_ok o m ->
  (exists m' rcs vs, io_run o m = Iom_ok m' rcs vs /\ iom_inv m' /\ m_eventFd m' = m_eventFd m /\
     ((forall fd, o <> op_close_outside fd) -> stays (op_fd o) rcs m m')) \/
  (io_run o m = Iom_error /\ removes o = true /\ zlen (m_fd_events m) <= op_fd o).
Proof.
  intros Hi (Hfd & Hne & Ho).
  assert (Hno : exists m' rcs vs, Iom_ok m [] [] = Iom_ok m' rcs vs /\ iom_inv m' /\ stays (op_fd o) rcs m m')
    by (exists m, [], []; split_and!; [done|done|split_and!; [done|auto|done]]).
  assert (Hyes : forall r, (exists m' rcs vs, r = Iom_ok m' rcs vs /\ iom_inv m' /\ stays (op_fd o) rcs m m') ->
    exists m' rcs vs, r = Iom_ok m' rcs vs /\ iom_inv m' /\ m_eventFd m' = m_eventFd m /\
      ((forall fd, o <> op_close_outside fd) -> stays (op_fd o) rcs m m')).
  { intros r (m' & rcs & vs & -> & Hm' & Hst). exists m', rcs, vs. split_and!; [done|done|apply Hst|done]. }
  destruct o as [fd ev t|fd ev f|fd ev t|fd ev f|fd ev|fd|fd|fd ev|fd|fd ev|fd]; cbn [op_fd io_run removes] in *.
  - left. apply Hyes. unfold addEvent_task. destruct (negb _); [done|]. apply add_inv; try done. forall_list.
  - left. apply Hyes. unfold addEvent_func. destruct f; [|done]. apply add_inv; try done. forall_list.
  - left. apply Hyes. unfold addOnceEvent_task. destruct (negb _); [done|]. apply add_inv; try done. forall_list.
  - left. apply Hyes. unfold addOnceEvent_func. destruct f; [|done]. apply add_inv; try done. forall_list.
  - unfold delEvent. rewrite past_end_int by done. destruct (_ <=? fd) eqn:E; bool_to_prop; [by right|left].
    apply Hyes, with_context_inv; try done. forall_list.
  - left. apply Hyes. unfold closeFd. rewrite past_end_int by done. destruct (_ <=? fd) eqn:E; bool_to_prop; [done|].
    apply with_context_inv; try done. forall_list.
  - left. apply Hyes. unfold closeWithNoClose. rewrite past_end_int by done. destruct (_ <=? fd) eqn:E; bool_to_prop; [done|].
    apply with_context_inv; try done. forall_list.
  - unfold cancelEvent. rewrite past_end_int by done. destruct (_ <=? fd) eqn:E; bool_to_prop; [by right|left].
    apply Hyes, with_context_inv; try done. forall_list.
  - unfold cancelAll, cancelEvent. rewrite past_end_int by done. destruct (_ <=? fd) eqn:E; bool_to_prop; [by right|left].
    apply Hyes, with_context_inv; try done. forall_list.
  - left. apply Hyes. unfold on_epoll_event. destruct (fd =? _) eqn:E; [done|]. apply with_context_inv; try done; [|forall_list].
    split; [done|]. destruct (Z.lt_ge_cases fd (zlen (m_fd_events m))) as [|Hge]; [done|].
    by rewrite (ii_none m Hi fd Hge Hne) in Ho.
  - left. eexists _, _, _. split; [done|]. split; [by apply close_outside_inv|]. split; [done|].
    intros Hx. by destruct (Hx fd).
Qed.

Lemma ctor_inv eventFd k m :
  0 <= eventFd -> (forall fd, interest k fd = None) -> IOManager_ctor eventFd k = Some m ->
  iom_inv m /\ m_eventFd m = eventFd /\ forall fd, 0 <= fd -> fd <> eventFd -> in_step m fd.
Proof.
  intros He Hk. unfold IOManager_ctor.
  pose proof (fun fd' => ctl_others k EPOLL_CTL_ADD eventFd (READ ||| EPOLLET) fd') as Ho.
  destruct (epoll_ctl k EPOLL_CTL_ADD eventFd (READ ||| EPOLLET)) as [rc k']. cbn [snd] in Ho.
  destruct (negb (rc =? 0)); [done|].
  set (events := map _ _). assert (Hlen : length events = 128%nat) by done.
  destruct (events !! Z.to_nat eventFd) as [c|] eqn:Ec; [|done].
  pose proof (lookup_fresh_contexts 0 128 _ _ Ec) as [Hc _]. cbn [run]. intros [= <-].
  split; [|split; [done|]]; [split; cbn [m_fd_events m_eventFd kernel]; unfold zlen; rewrite ?length_insert, ?Hlen; [lia| |]|].
  - intros i c0 Hi. destruct (decide (i = Z.to_nat eventFd)) as [->|Hne].
    + apply lookup_lt_Some in Ec. rewrite list_lookup_insert_eq in Hi by lia. injection Hi as <-. subst c.
      split; [by apply addEvent_ok; [apply ctor_ok|done|done]|done].
    + rewrite list_lookup_insert_ne in Hi by done. apply (lookup_fresh_contexts 0 128) in Hi as [-> _].
      split; [apply ctor_ok|done].
  - intros fd Hle Hne. by rewrite Ho, Hk.
  - intros fd Hfd Hne. unfold in_step. cbn [kernel m_fd_events]. rewrite Ho, Hk by done.
    rewrite list_lookup_insert_ne by lia. destruct (events !! Z.to_nat fd) as [c0|] eqn:E0; [|done].
    by apply (lookup_fresh_contexts 0 128) in E0 as [-> _].
Qed.

(** ** Histories *)

(** An operation on a descriptor, with whether all its calls of [epoll_ctl] succeeded;
    for [close], whether the descriptor had no events. *)
Definition outcome_ok (o : io_op) (rcs : list Z) m : bool :=
  match o with op_close_outside fd => idle_fd m fd | _ => forallb (Z.eqb 0) rcs end.

Inductive io_history m0 : list (Z * bool) -> IOManager K -> Prop :=
  | io_start : io_history m0 [] m0
  | io_next h m o m' rcs vs :
      io_history m0 h m -> op_ok o m -> io_run o m = Iom_ok m' rcs vs ->
      io_history m0 ((op_fd o, outcome_ok o rcs m) :: h) m'.

(** Nothing went wrong on [fd]. *)
Definition undisturbed (fd : Z) (h : list (Z * bool)) : bool := forallb (fun e => negb (e.1 =? fd) || e.2) h.

Lemma forallb_zero rcs : forallb (Z.eqb 0) rcs = true -> Forall (eq 0) rcs.
Proof. intros H0. apply Forall_forall. intros rc Hin. rewrite forallb_forall in H0. apply list_elem_of_In, H0 in Hin. lia. Qed.

Lemma io_history_inv m0 h m :
  io_history m0 h m -> iom_inv m0 -> (forall fd, 0 <= fd -> fd <> m_eventFd m0 -> in_step m0 fd) ->
  iom_inv m /\ m_eventFd m = m_eventFd m0 /\
  forall fd, 0 <= fd -> fd <> m_eventFd m0 -> undisturbed fd h = true -> in_step m fd.
Proof.
  intros Hh Hi0 Hs0. induction Hh as [|h m o m' rcs vs _ (Hi & He & Hs) Ho Hr]; [by split_and!; auto|].
  destruct (io_run_cases o m Hi Ho) as [(m2 & r & v & E & Hi' & He' & Hst)|[E _]]; [|congruence].
  rewrite Hr in E. injection E as <- <- <-. split; [done|]. split; [congruence|].
  intros fd Hfd Hne Hu. cbn [undisturbed forallb fst snd] in Hu. apply andb_true_iff in Hu as [Hok Hu].
  pose proof (Hs fd Hfd Hne Hu) as Hin.
  assert (Hok' : op_fd o = fd -> outcome_ok o rcs m = true) by (intros <-; by rewrite Z.eqb_refl in Hok).
  assert (Hcase : (exists fd', o = op_close_outside fd') \/ stays (op_fd o) rcs m m' /\ outcome_ok o rcs m = forallb (Z.eqb 0) rcs).
  { destruct o as [| | | | | | | | | |fd']; try (right; split; [by apply Hst|done]). left. by exists fd'. }
  destruct Hcase as [[fd' ->]|((_ & Hother & Hself) & Eo)].
  - cbn in Hr. injection Hr as <- _ _. destruct Ho as (Hp & Hnev & _). cbn [op_fd] in *.
    destruct (close_outside_inv fd' m Hi Hp Hnev) as (_ & H1 & H2).
    destruct (decide (fd = fd')) as [->|Hni]; [|by apply H1]. apply H2; [by apply Hok'|done].
  - destruct (decide (fd = op_fd o)) as [->|Hni]; [|apply Hother; [done|congruence|done|done]].
    apply (Hself Hin), forallb_zero. rewrite <- Eo. by apply Hok'.
Qed.
End props.

(** * Results *)

(** C27. The kernel follows the registrations: from a fresh IO manager, after any
    sequence of operations on descriptors other than its eventfd, and whichever
    calls of [epoll_ctl] fail, the next operation returns: no index is out of the
    vector and no callback throws; only deleting or cancelling on a descriptor the
    vector does not reach is an error, the exception or failed assertion of the
    code.  Epoll watches a descriptor for exactly the events of its context (edge
    triggered), or not at all, as long as no call for it failed and it was not
    closed with events registered; and while that is so the next operation on it
    makes no call that the interest list rules out: the first to fail does so for
    another reason than [EEXIST] or [ENOENT]. *)
Theorem iomanager_in_sync {K} `{Epoll K} eventFd (k : K) m0 h m :
  0 <= eventFd -> (forall fd, interest k fd = None) -> IOManager_ctor eventFd k = Some m0 -> io_history m0 h m ->
  (forall fd, 0 <= fd -> fd <> eventFd -> undisturbed fd h = true -> in_step m fd) /\
  forall o, op_ok o m ->
    (exists m' rcs vs, io_run o m = Iom_ok m' rcs vs /\ (undisturbed (op_fd o) h = true -> fitting rcs)) \/
    (io_run o m = Iom_error /\ removes o = true /\ zlen (m_fd_events m) <= op_fd o).
Proof.
  intros He Hk Hc Hh. destruct (ctor_inv eventFd k m0 He Hk Hc) as (Hi0 & Hev & Hs0).
  rewrite <- Hev in Hs0. destruct (io_history_inv m0 h m Hh Hi0 Hs0) as (Hi & Hev' & Hs). rewrite Hev in *. split; [done|].
  intros o Ho. destruct (io_run_cases o m Hi Ho) as [(m' & rcs & vs & E & _ & _ & Hst)|?]; [left|by right].
  exists m', rcs, vs. split; [done|]. intros Hu. destruct Ho as (Hfd & Hne & _).
  destruct o as [| | | | | | | | | |fd']; try (apply Hst; [done|]; apply Hs; [done|congruence|done]).
  cbn in E. by injection E as _ <- _.
Qed.

(** Descriptor 200 is open: registering it succeeds and it is watched; 201 is not:
    the call fails and the descriptor is disturbed. *)
Definition ex_kernel : map_kernel := MkKernel {[3; 200]} ∅.

Definition ex_manager : IOManager map_kernel :=
  match IOManager_ctor 3 ex_kernel with Some m => m | None => mk_iom 3 [] ex_kernel end.

Definition ex_registered : IOManager map_kernel :=
  match io_run (op_add_func 200 READ (Some 7%nat)) ex_manager with Iom_ok m _ _ => m | _ => ex_manager end.

Lemma iomanager_in_sync_witness :
  in_step ex_registered 200 /\ interest (kernel ex_registered) 200 = Some (READ ||| EPOLLET) /\
  exists m' rcs vs, io_run (op_add_func 201 READ (Some 8%nat)) ex_registered = Iom_ok m' rcs vs /\ fitting rcs /\ rcs = [EBADF].
Proof.
  assert (Hh : io_history ex_manager [(200, true)] ex_registered).
  { apply (io_next ex_manager [] ex_manager (op_add_func 200 READ (Some 7%nat)) ex_registered [0] []).
    - constructor.
    - split; [|split]; vm_compute; discriminate.
    - vm_compute. reflexivity. }
  assert (Hk : forall fd, interest ex_kernel fd = None) by (intros fd; reflexivity).
  assert (Hc : IOManager_ctor 3 ex_kernel = Some ex_manager) by (vm_compute; reflexivity).
  destruct (iomanager_in_sync 3 ex_kernel ex_manager [(200, true)] ex_registered ltac:(lia) Hk Hc Hh) as [Hs Hnext].
  split; [|split].
  - apply Hs; [lia|lia|reflexivity].
  - vm_compute. reflexivity.
  - destruct (Hnext (op_add_func 201 READ (Some 8%nat))) as [(m' & rcs & vs & E & Hf)|(_ & Hx & _)]; [|
      |vm_compute in Hx; discriminate].
    + split; [|split]; vm_compute; discriminate.
    + exists m', rcs, vs. split; [exact E|]. split.
      * apply Hf. reflexivity.
      * vm_compute in E. by injection E as _ <- _.
Defined.

(** ** Registrations on one descriptor *)

Lemma with_context_one {K} `{Epoll K} fd ts m (m' : IOManager K) rcs vs :
  with_context fd ts m = Iom_ok m' rcs vs ->
  exists c c' k, m_fd_events m !! Z.to_nat fd = Some c /\
    run_all (m_eventFd m) ts c (kernel m) = Some (c', k, rcs, vs) /\
    m_fd_events m' !! Z.to_nat fd = Some c'.
Proof.
  unfold with_context. intros E. destruct (fd <? 0); [done|]. destruct (m_fd_events m !! Z.to_nat fd) as [c|] eqn:Ec; [|done].
  destruct (run_all _ ts c _) as [[[[c' k] r] v]|] eqn:Er; [|done]. injection E as <- <- <-.
  exists c, c', k. split_and!; [done|done|]. cbn. apply list_lookup_insert_eq. by eapply lookup_lt_Some.
Qed.

(** The flags are bits 0 and 2. *)
Lemma truthy_bit x n : 0 <= n -> truthy (x & 2 ^ n) = Z.testbit x n.
Proof.
  intros Hn. destruct (Z.testbit x n) eqn:E.
  - apply truthy_spec. intros E0. assert (Z.testbit (x & 2 ^ n) n = false) as Hf by (by rewrite E0, Z.bits_0).
    by rewrite Z.land_spec, E, Z.pow2_bits_true in Hf by done.
  - apply truthy_false. apply Z.bits_inj'. intros i Hi. rewrite Z.land_spec, Z.bits_0, Z.pow2_bits_eqb by done.
    destruct (n =? i) eqn:En; [|apply andb_false_r]. bool_to_prop. subst i. by rewrite E.
Qed.

Lemma truthy_read x : truthy (x & READ) = Z.testbit x 0.
Proof. by apply (truthy_bit x 0). Qed.
Lemma truthy_write x : truthy (x & WRITE) = Z.testbit x 2.
Proof. by apply (truthy_bit x 2). Qed.

Ltac flags := rewrite ?truthy_read, ?truthy_write, ?Z.land_spec, ?Z.lor_spec, ?Z.lnot_spec by lia.

Ltac bit_constants :=
  change (Z.testbit READ 0) with true; change (Z.testbit READ 2) with false;
  change (Z.testbit WRITE 0) with false; change (Z.testbit WRITE 2) with true.

Lemma addEvent_read task c :
  addEvent READ task c = mk_ctx (m_fd c) (m_event c ||| READ) task (m_cb_write c).
Proof. done. Qed.
Lemma addEvent_write task c :
  addEvent WRITE task c = mk_ctx (m_fd c) (m_event c ||| WRITE) (m_cb_read c) task.
Proof. done. Qed.

(** An event set and deleted again leaves the other event. *)
Lemma add_del_trigger event task events c :
  ctx_ok c -> event = READ \/ event = WRITE ->
  trigger events (FdContext.delEvent event (addEvent event task c)) = trigger (events & Z.lnot event) c.
Proof.
  intros [_ [_ Hr] [_ Hw]] Hev. rewrite truthy_read in Hr. rewrite truthy_write in Hw.
  unfold trigger, FdContext.delEvent.
  destruct Hev as [-> | ->]; [rewrite addEvent_read|rewrite addEvent_write]; cbn [m_event m_cb_read m_cb_write]; flags;
    bit_constants; destruct (Z.testbit (m_event c) 0), (Z.testbit (m_event c) 2), (Z.testbit events 0), (Z.testbit events 2);
    cbn [andb orb negb]; rewrite ?Hr, ?Hw by done; done.
Qed.

(** [addOnceEvent] with a function never calls it: the registration is
    deleted before any report can be served.  From then on every report runs what
    it would have run for the other event alone before the call; so a callback
    that was registered for the same event before is gone as well. *)
Theorem addOnceEvent_never_fires {K} `{Epoll K} fd event f events (m m' : IOManager K) rcs vs c :
  iom_inv m -> 0 <= fd -> event = READ \/ event = WRITE ->
  m_fd_events m !! Z.to_nat fd = Some c ->
  addOnceEvent_func fd event (Some f) m = Iom_ok m' rcs vs ->
  exists c', m_fd_events m' !! Z.to_nat fd = Some c' /\ vs = [] /\
    trigger events c' = trigger (events & Z.lnot event) c.
Proof.
  intros Hi Hfd Hev Hc E. unfold addOnceEvent_func in E.
  apply with_context_one in E as (c0 & c' & k & Hc0 & Er & Hc').
  assert (c0 = c) as ->.
  { unfold grown in Hc0. rewrite past_end_int in Hc0 by done.
    destruct (_ <=? fd) eqn:El; [|congruence]. bool_to_prop. apply lookup_lt_Some in Hc. unfold zlen in El. lia. }
  exists c'. split; [done|]. cbn [run_all run] in Er. repeat case_match; simplify_eq. split; [done|].
  apply add_del_trigger; [|done]. apply (ii_ctx m Hi _ _ Hc).
Qed.

Lemma ex_manager_inv : iom_inv ex_manager.
Proof.
  apply (ctor_inv 3 ex_kernel ex_manager); [lia|intros fd; reflexivity|vm_compute; reflexivity].
Qed.

Lemma ex_registered_inv : iom_inv ex_registered.
Proof.
  destruct (io_run_cases (op_add_func 200 READ (Some 7%nat)) ex_manager ex_manager_inv) as [(m' & rcs & vs & E & Hi & _)|(_ & Hx & _)];
    [split; [|split]; vm_compute; discriminate| |vm_compute in Hx; discriminate].
  unfold ex_registered. by rewrite E.
Qed.

Lemma addOnceEvent_never_fires_witness :
  exists m' rcs vs c', addOnceEvent_func 200 READ (Some 7%nat) ex_registered = Iom_ok m' rcs vs /\
    m_fd_events m' !! 200%nat = Some c' /\ trigger READ c' = Some [].
Proof.
  pose proof ex_registered_inv as Hi.
  assert (E : exists m' rcs vs, addOnceEvent_func 200 READ (Some 7%nat) ex_registered = Iom_ok m' rcs vs).
  { do 3 eexists. vm_compute. reflexivity. }
  destruct E as (m' & rcs & vs & E).
  assert (Hc : exists c, m_fd_events ex_registered !! Z.to_nat 200 = Some c /\ trigger (READ & Z.lnot READ) c = Some []).
  { eexists. split; vm_compute; reflexivity. }
  destruct Hc as (c & Hc & Ht0).
  destruct (addOnceEvent_never_fires 200 READ 7 READ ex_registered m' rcs vs c Hi ltac:(lia) ltac:(by left) Hc E) as (c' & Hc' & _ & Ht).
  exists m', rcs, vs, c'. split; [exact E|]. split; [exact Hc'|]. by rewrite Ht.
Defined.

(** Cancelling wakes the waiter exactly once: [cancelEvent] on a registered
    event runs its callback once and removes the registration, so that no later
    report of that event runs anything. *)
Theorem cancelEvent_wakes_once {K} `{Epoll K} fd event f task events (m : IOManager K) c :
  iom_inv m -> 0 <= fd -> fd <> m_eventFd m -> event = READ \/ event = WRITE ->
  m_fd_events m !! Z.to_nat fd = Some c -> truthy (m_event c & event) = true ->
  (if event =? READ then m_cb_read c else m_cb_write c) = task -> fresh f task ->
  exists m' rcs c', cancelEvent fd event m = Iom_ok m' rcs [called f] /\
    m_fd_events m' !! Z.to_nat fd = Some c' /\ trigger (events & event) c' = Some [].
Proof.
  intros Hi Hfd Hne Hev Hc Hset Htask Hf.
  pose proof (lookup_lt_Some _ _ _ Hc) as Hlt.
  destruct (with_context_inv fd [TRIGGER_TASK event; DEL_TASK event] m Hi) as (m' & rcs & vs & E & _);
    [unfold zlen; lia|done|forall_list|].
  pose proof E as E2. apply with_context_one in E2 as (c0 & c' & k & Hc0 & Er & Hc'). simplify_eq.
  unfold cancelEvent. rewrite past_end_int, (proj2 (Z.leb_gt _ fd)) by (unfold zlen; lia).
  exists m', rcs, c'. rewrite E.
  destruct (fresh_clone _ _ Hf) as (t & Hcl & Hft). destruct (fresh_start f t true Hft) as [t' Hst].
  destruct (fresh_legal _ _ Hft) as [Hleg _].
  assert (Hslot : trigger_slot (if event =? READ then m_cb_read c else m_cb_write c) = Some [f])
    by (unfold trigger_slot; by rewrite Hcl, Hleg, Hst).
  assert (Htr : trigger event c = Some [f]).
  { unfold trigger. destruct Hev as [-> | ->]; cbn [Z.eqb READ WRITE Pos.eqb] in *; rewrite <- !Z.land_assoc.
    - change (READ & READ) with READ. change (READ & WRITE) with 0. by rewrite Hset, Hslot, Z.land_0_r.
    - change (WRITE & READ) with 0. change (WRITE & WRITE) with WRITE. by rewrite Hset, Hslot, Z.land_0_r. }
  cbn [run_all run] in Er. rewrite Htr in Er.
  destruct (stateSync _ c _ _) as [z k1], (stateSync _ (FdContext.delEvent event c) _ k1) as [z0 k2].
  injection Er as <- _ <- <-. split_and!; [done|done|].
  unfold trigger, FdContext.delEvent. cbn [m_event].
  destruct Hev as [-> | ->]; flags; bit_constants; by rewrite ?andb_false_r.
Qed.

Lemma cancelEvent_wakes_once_witness :
  exists m2 rcs c', cancelEvent 200 READ ex_registered = Iom_ok m2 rcs [called 7] /\
    m_fd_events m2 !! 200%nat = Some c' /\ trigger READ c' = Some [].
Proof.
  pose proof ex_registered_inv as Hi.
  edestruct (cancelEvent_wakes_once 200 READ 7 (TaskCoro20_func (Some 7%nat)) READ ex_registered) as (m2 & rcs & c' & E2 & Hc' & Ht);
    [exact Hi|lia|vm_compute; discriminate|by left|vm_compute; reflexivity|vm_compute; reflexivity|vm_compute; reflexivity|apply create_func_fresh|].
  exists m2, rcs, c'. split; [exact E2|]. split; [exact Hc'|exact Ht].
Defined.
