(* ===== verification/FdManager.v ===== *)
(** * Descriptor contexts of the hooks

    Models [FdCtx] and [FdManager] ([sylar/basic/fdManager.cc]): a vector of
    context pointers indexed by descriptor.  What the kernel says about a
    descriptor is an argument ([fstat] and [fcntl]); the size [fd * 1.5] is
    exact in doubles. *)

From S2P Require Import Prelude.

Definition UINT64_MAX : Z := 2 ^ 64 - 1.
Definition O_NONBLOCK : Z := 2048.
Definition SO_RCVTIMEO : Z := 20.

(** ** [FdCtx] *)

Record FdCtx := mk_fdctx {
  m_is_init : bool;
  m_is_closed : bool;
  m_sysNoblock : bool;
  m_userNoblock : bool;
  m_is_socket : bool;
  m_fd : Z;
  m_recvTimeout : Z;
  m_sendTimeout : Z;
}.

(** What [fstat] answers: an error, or whether it is a socket. *)
Inductive fd_stat := stat_error | stat_file | stat_socket.

(** [init]: the context, and the flags the descriptor is left with. *)
Definition init (st : fd_stat) (flag : Z) (c : FdCtx) : FdCtx * Z :=
  if m_is_init c then (c, flag)
  else
    let is_init := match st with stat_error => false | _ => true end in
    let is_socket := match st with stat_socket => true | _ => false end in
    (mk_fdctx is_init false is_socket false is_socket (m_fd c) UINT64_MAX UINT64_MAX,
     if is_socket then (if negb (truthy (flag & O_NONBLOCK)) then flag ||| O_NONBLOCK else flag) else flag).

Definition FdCtx_ctor (fd : Z) (st : fd_stat) (flag : Z) : FdCtx * Z :=
  init st flag (mk_fdctx false false false false false fd UINT64_MAX UINT64_MAX).

Definition setTimeout (type time : Z) (c : FdCtx) : FdCtx :=
  if type =? SO_RCVTIMEO then
    mk_fdctx (m_is_init c) (m_is_closed c) (m_sysNoblock c) (m_userNoblock c) (m_is_socket c) (m_fd c)
      time (m_sendTimeout c)
  else
    mk_fdctx (m_is_init c) (m_is_closed c) (m_sysNoblock c) (m_userNoblock c) (m_is_socket c) (m_fd c)
      (m_recvTimeout c) time.

Definition getTimeout (type : Z) (c : FdCtx) : Z :=
  if type =? SO_RCVTIMEO then m_recvTimeout c else m_sendTimeout c.

(** ** [FdManager] *)

(** The vector; a null pointer is [None]. *)
Abbreviation FdManager := (list (option FdCtx)).

Definition FdManager_ctor : FdManager := replicate 64 None.

(** [std::vector::resize] *)
Definition resize (n : nat) (v : FdManager) : FdManager := take n v ++ replicate (n - length v) None.

Inductive get_res :=
  | Get_ret (c : option FdCtx) (v : FdManager)
  | Get_bad_access.                     (* a write past the end of the vector *)

(** [get] of a descriptor that is not negative. *)
Definition get (fd : Z) (auto_create : bool) (st : fd_stat) (flag : Z) (v : FdManager) : get_res :=
  let slot := default None (v !! Z.to_nat fd) in
  if negb auto_create then Get_ret (if fd <? zlen v then slot else None) v
  else
    match slot with
    | Some c => Get_ret (Some c) v
    | None =>
        let new_ctx := (FdCtx_ctor fd st flag).1 in
        let v := resize (Z.to_nat (fd * 3 / 2)) v in
        if fd <? zlen v then Get_ret (Some new_ctx) (<[Z.to_nat fd := Some new_ctx]> v)
        else Get_bad_access
    end.

Definition del (fd : Z) (v : FdManager) : FdManager :=
  if zlen v <=? fd then v else <[Z.to_nat fd := None]> v.

(** The context known for a descriptor. *)
Definition known (fd : Z) (v : FdManager) : option FdCtx := default None (v !! Z.to_nat fd).

Lemma length_resize n v : length (resize n v) = n.
Proof. unfold resize. rewrite length_app, length_take, length_replicate. lia. Qed.

Lemma known_resize fd n v :
  known fd (resize n v) = if (Z.to_nat fd <? n)%nat then known fd v else None.
Proof.
  unfold known, resize. destruct (_ <? n)%nat eqn:E.
  - apply Nat.ltb_lt in E. destruct (decide (Z.to_nat fd < length v)%nat).
    + rewrite lookup_app_l by (rewrite length_take; lia). by rewrite lookup_take_lt by done.
    + rewrite lookup_app_r, lookup_replicate_2 by (rewrite length_take; lia).
      rewrite (lookup_ge_None_2 v) by lia. done.
  - apply Nat.ltb_ge in E. rewrite lookup_ge_None_2; [done|].
    rewrite length_app, length_take, length_replicate. lia.
Qed.

(** Asking for the context of a new descriptor makes the manager forget
    others: [get] with [auto_create] sets the vector to one and a half times the
    descriptor, so every context at or above that size is lost -- shrinking
    included; the contexts below it stay, and the new one is found. *)
Theorem get_forgets fd st flag v :
  2 <= fd -> known fd v = None ->
  exists v', get fd true st flag v = Get_ret (Some (FdCtx_ctor fd st flag).1) v' /\
    forall k, 0 <= k ->
      known k v' = if k =? fd then Some (FdCtx_ctor fd st flag).1
                   else if k <? fd * 3 / 2 then known k v else None.
Proof.
  intros Hfd Hk. unfold get. unfold known in Hk. rewrite Hk. cbn [negb].
  pose proof (Z.div_mod (fd * 3) 2 ltac:(lia)). pose proof (Z.mod_pos_bound (fd * 3) 2 ltac:(lia)).
  set (n := fd * 3 / 2) in *. unfold zlen. rewrite length_resize, Z2Nat.id by lia.
  rewrite (proj2 (Z.ltb_lt fd n)) by lia. eexists. split; [done|]. intros k Hk0.
  destruct (k =? fd) eqn:E; bool_to_prop.
  - subst k. unfold known. rewrite list_lookup_insert_eq by (rewrite length_resize; lia). done.
  - unfold known at 1. rewrite list_lookup_insert_ne by lia. fold (known k (resize (Z.to_nat n) v)).
    rewrite known_resize. destruct (k <? n) eqn:E2; bool_to_prop.
    + by rewrite (proj2 (Nat.ltb_lt _ _)) by lia.
    + by rewrite (proj2 (Nat.ltb_ge _ _)) by lia.
Qed.

Lemma get_forgets_witness :
  exists v, get 40 true stat_socket 2 FdManager_ctor = Get_ret (known 40 v) v /\ known 40 v <> None /\
    exists v', get 5 true stat_socket 2 v = Get_ret (Some (FdCtx_ctor 5 stat_socket 2).1) v' /\ known 40 v' = None.
Proof.
  destruct (get_forgets 40 stat_socket 2 FdManager_ctor) as (v & E & Hv); [lia|reflexivity|].
  exists v. pose proof (Hv 40 ltac:(lia)) as H40. cbn [Z.eqb Pos.eqb] in H40. rewrite H40.
  split; [exact E|]. split; [discriminate|].
  destruct (get_forgets 5 stat_socket 2 v) as (v' & E' & Hv'); [lia|rewrite (Hv 5 ltac:(lia)); reflexivity|].
  exists v'. split; [exact E'|]. rewrite (Hv' 40 ltac:(lia)). reflexivity.
Defined.

(** The descriptors 0 and 1 are written past the end of the vector. *)
Lemma get_bad_access fd st flag v : 0 <= fd < 2 -> known fd v = None -> get fd true st flag v = Get_bad_access.
Proof.
  intros Hfd Hk. unfold get. unfold known in Hk. rewrite Hk. cbn [negb]. unfold zlen. rewrite length_resize.
  assert (fd = 0 \/ fd = 1) as [-> | ->] by lia; done.
Qed.
