(* ===== verification/Hook.v ===== *)
(** * Hooked system calls

    Models [sylar/coroutine/coro20/hook.cc]: [do_io], which makes a call on a
    non-blocking descriptor look like a blocking one, with the calls made of it,
    [co_connect], the sleeps, and the calls that keep the table of descriptors
    ([FdManager]) in step: [co_socket], [co_close], [co_fcntl], [co_ioctl] and
    [co_setsockopt].  What the kernel answers is an argument: a list of results
    with [errno] for calls that are repeated, a function for single calls.  What
    [co_await io_Awaiter] yields is an argument too; [awaited] ties it to the time
    limits of [TimeLimit].  A coroutine that needs an answer its list does not hold
    is still running. *)

From stdpp Require Import relations list.
From S2P Require Import Prelude TimeLimit FdManager.

Definition EINTR : Z := 4.
Definition EIO : Z := 5.
Definition EAGAIN : Z := 11.
Definition EBADFD : Z := 77.
Definition ETIMEDOUT : Z := 110.
Definition EINPROGRESS : Z := 115.
Definition SO_SNDTIMEO : Z := 21.
Definition SOL_SOCKET : Z := 1.
Definition HOOK_IOAWAIT_TIMEOUT : Z := 5000.

(** ** [fdTimerInfo] *)

Inductive timer_state := UNKNOWN | WATTING | T_TIMEOUT | T_FINISHED.
#[global] Instance timer_state_eq_dec : EqDecision timer_state.
Proof. solve_decision. Defined.

Definition fdTimerInfo_init (_ : timer_state) : timer_state := WATTING.
Definition setTimo (s : timer_state) : bool * timer_state :=
  if decide (s = WATTING) then (true, T_TIMEOUT) else (false, s).
Definition setFinish (s : timer_state) : bool * timer_state :=
  if decide (s = WATTING) then (true, T_FINISHED) else (false, s).

(** ** [io_Awaiter] *)

Inductive io_event := READ | WRITE.

(** [on_suspend]: the limit in ms that is handed to [addEventWithTimeout]. *)
Definition await_limit (m_timo : Z) : Z := if m_timo =? 0 then HOOK_IOAWAIT_TIMEOUT else m_timo.

(** What the awaiting coroutine can read from [*m_state] when it is resumed. *)
Definition awaited (w : LimitState) : Prop :=
  exists n s, rtc limit_step (addEventWithTimeout false n) s /\ (schedule_task ∈ performed s) /\
    head (performed s) = Some (set_rtState w).

(** ** [do_io] *)

(** How it ends: with a value, [errno] and the waits it made (the event and the
    limit of each); or it waits; or the call has not answered yet. *)
Inductive io_end :=
  | IO_ret (n : Z) (errno : Z) (waited : list (io_event * Z))
  | IO_waits (waited : list (io_event * Z))
  | IO_running (waited : list (io_event * Z)).

(** The value of a call and the [errno] it sets when the value is -1. *)
Abbreviation answer := (Z * Z)%type.

Definition errno_after (a : answer) (errno : Z) : Z := if a.1 =? -1 then a.2 else errno.

(** From [retry] on; the result of the call is stored in an [int]. *)
Fixpoint io_loop (event : io_event) (time_out errno : Z) (answers : list answer) (waits : list LimitState)
    (waited : list (io_event * Z)) : io_end :=
  match answers with
  | [] => IO_running waited
  | a :: answers =>
      let n := to_int a.1 in
      let errno := errno_after a errno in
      if (n =? -1) && (errno =? EINTR) then io_loop event time_out errno answers waits waited
      else if (n =? -1) && (errno =? EAGAIN) then
        let waited := waited ++ [(event, await_limit time_out)] in
        match waits with
        | [] => IO_waits waited
        | FINISHED :: waits => io_loop event time_out errno answers waits waited
        | TIMEOUT :: _ => IO_ret (-1) ETIMEDOUT waited
        | _ => IO_ret (-1) EIO waited
        end
      else IO_ret n errno waited
  end.

(** The limit in ms for a timeout stored in microseconds. *)
Definition io_timeout (time_us : Z) : Z :=
  let time_out := if (time_us =? 0) || (time_us =? UINT64_MAX) then HOOK_IOAWAIT_TIMEOUT else (u64 (time_us + 999)) / 1000 in
  if time_out =? 0 then 1 else time_out.

(** [FdMgr::GetInstance()->get(fd, false)] *)
Definition get_ctx (fd : Z) (v : FdManager) : option FdCtx :=
  match get fd false stat_error 0 v with Get_ret c _ => c | Get_bad_access => None end.

(** The original function called once. *)
Definition call_once (errno : Z) (answers : list answer) : io_end :=
  match answers with
  | [] => IO_running []
  | a :: _ => IO_ret (to_int a.1) (errno_after a errno) []
  end.

Definition do_io (event : io_event) (type fd : Z) (v : FdManager) (errno : Z) (answers : list answer)
    (waits : list LimitState) : io_end :=
  match get_ctx fd v with
  | None => call_once errno answers
  | Some c =>
      if m_is_closed c then IO_ret (-1) EBADFD []
      else if negb (m_is_socket c) || m_userNoblock c then call_once errno answers
      else io_loop event (io_timeout (getTimeout type c)) errno answers waits []
  end.

Definition co_accept := do_io READ SO_RCVTIMEO.
Definition co_read := do_io READ SO_RCVTIMEO.
Definition co_readv := do_io READ SO_RCVTIMEO.
Definition co_preadv := do_io READ SO_RCVTIMEO.
Definition co_preadv2 := do_io READ SO_RCVTIMEO.
Definition co_recv := do_io READ SO_RCVTIMEO.
Definition co_recvfrom := do_io READ SO_RCVTIMEO.
Definition co_recvmsg := do_io READ SO_RCVTIMEO.
Definition co_write := do_io WRITE SO_SNDTIMEO.
Definition co_writev := do_io WRITE SO_SNDTIMEO.
Definition co_pwritev := do_io WRITE SO_SNDTIMEO.
Definition co_pwritev2 := do_io WRITE SO_SNDTIMEO.
Definition co_send := do_io WRITE SO_SNDTIMEO.
Definition co_sendto := do_io WRITE SO_SNDTIMEO.
Definition co_sendmsg := do_io WRITE SO_SNDTIMEO.

(** ** [co_connect] *)

(** [sockopt] is the answer of [getsockopt(SO_ERROR)]: an error, or the pending
    error of the socket. *)
Definition co_connect (connect_timo fd : Z) (v : FdManager) (errno : Z) (conn : answer) (waits : list LimitState)
    (sockopt : Z + Z) : io_end :=
  match get_ctx fd v with
  | None => IO_ret (-1) EBADFD []
  | Some c =>
      if m_is_closed c || negb (m_is_init c) then IO_ret (-1) EBADFD []
      else if negb (m_is_socket c) || m_userNoblock c then IO_ret conn.1 (errno_after conn errno) []
      else
        let n := conn.1 in
        let errno := errno_after conn errno in
        if n =? 0 then IO_ret 0 errno []
        else if negb (errno =? EINPROGRESS) || negb (n =? -1) then IO_ret n errno []
        else
          let waited := [(WRITE, await_limit connect_timo)] in
          match waits with
          | [] => IO_waits waited
          | TIMEOUT :: _ => IO_ret (-1) ETIMEDOUT waited
          | FINISHED :: _ =>
              match sockopt with
              | inl e => IO_ret (-1) e waited
              | inr error => IO_ret (if error =? 0 then 0 else -1) error waited
              end
          | _ => IO_ret (-1) EIO waited
          end
  end.

(** ** Sleeping: the interval in ms given to [TimeTask::create] *)

Definition SleepAwaiter (time : Z) : Z := time.
Definition co_sleep (seconds : Z) : Z := SleepAwaiter seconds.
Definition co_usleep (usec : Z) : Z := SleepAwaiter usec.
Definition co_nanosleep (tv_sec tv_nsec : Z) : Z := SleepAwaiter (u64 (tv_sec * 1000000 + tv_nsec / 1000)).

(** ** The table of descriptors *)

(** A shared context is changed in place. *)
Definition store (fd : Z) (c : FdCtx) (v : FdManager) : FdManager := <[Z.to_nat fd := Some c]> v.

Definition setUserNoblock (b : bool) (c : FdCtx) : FdCtx :=
  mk_fdctx (m_is_init c) (m_is_closed c) (m_sysNoblock c) b (m_is_socket c) (m_fd c) (m_recvTimeout c) (m_sendTimeout c).

(** [socket] answers [fd]; [st] and [flag] are what [fstat] and [fcntl] say of it. *)
Definition co_socket (fd : Z) (st : fd_stat) (flag : Z) (v : FdManager) : option (Z * FdManager) :=
  if fd =? -1 then Some (-1, v)
  else match get fd true st flag v with Get_ret _ v => Some (fd, v) | Get_bad_access => None end.

(** [rc] is the answer of [close]. *)
Definition co_close (fd mod_ rc : Z) (v : FdManager) : Z * FdManager :=
  if mod_ =? 0 then (rc, del fd v) else (-1, del fd v).

Definition F_GETFL : Z := 3.
Definition F_SETFL : Z := 4.

(** The commands with an [int] or a pointer as argument, in the order of the
    source. *)
Definition fcntl_with_arg : list Z :=
  [0; 1030; 2; 8; 10; 1024; 1026; 1031; 1033] ++ [1035; 1036; 1037; 1038] ++ [6; 7; 5; 37; 38; 36] ++ [16; 15].

(** [sys op arg] is the answer of [fcntl(fd, op, arg)]. *)
Definition co_fcntl (sys : Z -> option Z -> Z) (fd op arg : Z) (v : FdManager) : Z * FdManager :=
  if op =? F_SETFL then
    match get_ctx fd v with
    | Some c =>
        if m_is_closed c || negb (m_is_socket c) then (sys op (Some arg), v)
        else
          let c := setUserNoblock (truthy (arg & O_NONBLOCK)) c in
          let arg := if m_sysNoblock c then arg ||| O_NONBLOCK else arg & 0 in
          (sys op (Some arg), store fd c v)
    | None => (sys op (Some arg), v)
    end
  else if op =? F_GETFL then
    let value := sys op None in
    match get_ctx fd v with
    | Some c =>
        if m_is_closed c || negb (m_is_socket c) then (value, v)
        else (if m_userNoblock c then value ||| O_NONBLOCK else value & (Z.lnot O_NONBLOCK), v)
    | None => (value, v)
    end
  else if existsb (Z.eqb op) fcntl_with_arg then (sys op (Some arg), v)
  else (sys op None, v).

Definition FIONBIO : Z := 21537.                                   (* 0x5421 *)

(** What is called: [fcntl] or [ioctl], with the command and the argument. *)
Inductive ioctl_call := Call_fcntl (op : Z) (arg : Z) | Call_ioctl (op : Z) (arg : Z).

(** [arg] is the pointer, [*arg] the integer it points to. *)
Definition co_ioctl (fd op arg at_arg : Z) (v : FdManager) : ioctl_call * FdManager :=
  if op =? FIONBIO then
    match get_ctx fd v with
    | Some c =>
        if m_is_closed c || negb (m_is_socket c) then (Call_fcntl op arg, v)
        else (Call_ioctl op 1, store fd (setUserNoblock (negb (at_arg =? 0)) c) v)
    | None => (Call_fcntl op arg, v)
    end
  else (Call_ioctl op 1, v).

(** [rc] is the answer of [setsockopt]. *)
Definition co_setsockopt (fd level optname tv_sec tv_usec rc : Z) (v : FdManager) : Z * FdManager :=
  if (level =? SOL_SOCKET) && ((optname =? SO_RCVTIMEO) || (optname =? SO_SNDTIMEO)) then
    match get_ctx fd v with
    | Some c => (rc, store fd (setTimeout optname (u64 (tv_sec * 1000000 + tv_usec)) c) v)
    | None => (rc, v)
    end
  else (rc, v).

(** ** The table *)

Lemma get_ctx_known fd v : 0 <= fd -> get_ctx fd v = known fd v.
Proof.
  intros Hfd. unfold get_ctx, get, known. cbn [negb]. destruct (fd <? zlen v) eqn:E; bool_to_prop; [done|].
  by rewrite lookup_ge_None_2 by (unfold zlen in *; lia).
Qed.

Lemma known_store fd k c v :
  0 <= fd -> 0 <= k -> known fd v <> None -> known k (store fd c v) = if k =? fd then Some c else known k v.
Proof.
  intros Hfd Hk Hc. unfold known, store in *. destruct (k =? fd) eqn:E; bool_to_prop.
  - subst k. rewrite list_lookup_insert_eq; [done|]. destruct (v !! Z.to_nat fd) eqn:El; [|done]. by eapply lookup_lt_Some.
  - by rewrite list_lookup_insert_ne by lia.
Qed.

(** A socket the hooks know and the user treats as blocking. *)
Definition managed (fd : Z) (c : FdCtx) (v : FdManager) : Prop :=
  0 <= fd /\ known fd v = Some c /\ m_is_closed c = false /\ m_is_socket c = true /\ m_userNoblock c = false.

Lemma do_io_managed event type fd c v errno answers waits :
  managed fd c v ->
  do_io event type fd v errno answers waits = io_loop event (io_timeout (getTimeout type c)) errno answers waits [].
Proof. intros (Hfd & Hk & Hc & Hs & Hu). unfold do_io. by rewrite get_ctx_known, Hk, Hc, Hs, Hu. Qed.

(** ** What is awaited *)

Lemma awaited_cases w : awaited w -> w = FINISHED \/ w = TIMEOUT.
Proof.
  intros (n & s & Hr & Hs & Hh). pose proof (event_limit_winner false n s Hr) as Hw.
  destruct (one_winner_effects _ _ Hw) as (b & Hb & _ & [rest Hp] & _).
  branch_cases Hb; destruct (performed s) as [|e p]; try done; simplify_eq/=; auto.
Qed.

(** Both can happen. *)
Lemma awaited_TIMEOUT : awaited TIMEOUT.
Proof.
  exists 1%nat, timeout_run. split_and!; [exact timeout_run_reachable| |done].
  unfold timeout_run. cbn. do 2 apply list_elem_of_further. apply list_elem_of_here.
Qed.

Lemma awaited_FINISHED : awaited FINISHED.
Proof.
  exists 1%nat. eexists. split_and!.
  - run_thread 1%nat. run_thread 1%nat. run_thread 1%nat. run_thread 1%nat. apply rtc_refl.
  - cbn. do 2 apply list_elem_of_further. apply list_elem_of_here.
  - done.
Qed.

(** ** The loop *)

(** Calls that do not end [do_io]: interrupted ones, and ones that would block
    followed by a wait that ends with the descriptor ready. *)
Inductive retries : list answer -> list LimitState -> Prop :=
  | retries_nil : retries [] []
  | retries_intr answers waits : retries answers waits -> retries ((-1, EINTR) :: answers) waits
  | retries_wait answers waits : retries answers waits -> retries ((-1, EAGAIN) :: answers) (FINISHED :: waits).

Definition transient (a : answer) : Prop := a.1 = -1 /\ (a.2 = EINTR \/ a.2 = EAGAIN).

Lemma io_loop_retries event t as_ ws : retries as_ ws -> forall errno answers waits log,
  exists errno', io_loop event t errno (as_ ++ answers) (ws ++ waits) log =
    io_loop event t errno' answers waits (log ++ replicate (length ws) (event, await_limit t)).
Proof.
  induction 1 as [|as_ ws _ IH|as_ ws _ IH]; intros errno answers waits log.
  - exists errno. cbn [app length replicate]. by rewrite app_nil_r.
  - cbn [app io_loop fst]. change (to_int (-1) =? -1) with true. change (errno_after (-1, EINTR) errno) with EINTR.
    change (EINTR =? EINTR) with true. cbn [andb]. apply IH.
  - cbn [app io_loop fst]. change (to_int (-1) =? -1) with true. change (errno_after (-1, EAGAIN) errno) with EAGAIN.
    change (EAGAIN =? EINTR) with false. change (EAGAIN =? EAGAIN) with true. cbn [andb].
    destruct (IH EAGAIN answers waits (log ++ [(event, await_limit t)])) as (errno' & E). exists errno'.
    cbn [length replicate]. by rewrite E, <- app_assoc.
Qed.

Lemma io_loop_final event t errno a answers waits log :
  - 2 ^ 31 <= a.1 < 2 ^ 31 -> ~ transient a ->
  io_loop event t errno (a :: answers) waits log = IO_ret a.1 (errno_after a errno) log.
Proof.
  intros Hn Ht. cbn [io_loop]. rewrite to_int_small by lia. unfold errno_after, transient in *.
  destruct (a.1 =? -1) eqn:E; bool_to_prop; [|done]. cbn [andb].
  destruct (a.2 =? EINTR) eqn:E1, (a.2 =? EAGAIN) eqn:E2; bool_to_prop; try done; exfalso; apply Ht; auto.
Qed.

(** A call that would block. *)
Lemma io_loop_eagain event t errno answers waits log :
  let log' := log ++ [(event, await_limit t)] in
  io_loop event t errno ((-1, EAGAIN) :: answers) waits log =
  match waits with
  | [] => IO_waits log'
  | FINISHED :: waits => io_loop event t EAGAIN answers waits log'
  | TIMEOUT :: _ => IO_ret (-1) ETIMEDOUT log'
  | _ => IO_ret (-1) EIO log'
  end.
Proof. done. Qed.

(** Every end of the loop: a failure is never one of the transient ones, and every
    wait had the limit. *)
Lemma io_loop_ends event t answers : forall errno waits log,
  Forall (fun w => w = FINISHED \/ w = TIMEOUT) waits -> Forall (eq (event, await_limit t)) log ->
  match io_loop event t errno answers waits log with
  | IO_ret n e log' => (n = -1 -> e <> EAGAIN /\ e <> EINTR) /\ Forall (eq (event, await_limit t)) log'
  | IO_waits log' | IO_running log' => Forall (eq (event, await_limit t)) log'
  end.
Proof.
  induction answers as [|a answers IH]; intros errno waits log Hw Hlog; cbn [io_loop]; [done|].
  destruct ((_ =? -1) && (_ =? EINTR)) eqn:E1; [by apply IH|].
  destruct ((_ =? -1) && (_ =? EAGAIN)) eqn:E2.
  - assert (Hlog' : Forall (eq (event, await_limit t)) (log ++ [(event, await_limit t)])).
    { apply Forall_app. split; [done|by repeat constructor]. }
    destruct Hw as [|w waits [-> | ->] Hw]; [done| |by split]. by apply IH.
  - split; [|done]. intros Hn. rewrite Hn in E1, E2. change (-1 =? -1) with true in E1, E2. cbn [andb] in E1, E2.
    bool_to_prop. done.
Qed.

(** ** Limits *)

(** The limit is the time asked for, rounded up to a millisecond. *)
Lemma io_timeout_rounds us :
  0 < us -> us + 999 < 2 ^ 64 -> (io_timeout us - 1) * 1000 < us <= io_timeout us * 1000.
Proof.
  intros H1 H2. unfold io_timeout. rewrite (proj2 (Z.eqb_neq us 0)), (proj2 (Z.eqb_neq us UINT64_MAX)) by (unfold UINT64_MAX; lia).
  cbn [orb]. rewrite wrap_small by lia.
  pose proof (Z.div_mod (us + 999) 1000 ltac:(lia)). pose proof (Z.mod_pos_bound (us + 999) 1000 ltac:(lia)).
  destruct (_ =? 0) eqn:E; bool_to_prop; lia.
Qed.

Lemma io_timeout_pos us : 0 <= us < 2 ^ 64 -> 0 < io_timeout us.
Proof.
  intros H. unfold io_timeout. destruct (_ || _); [done|]. destruct (_ =? 0) eqn:E; bool_to_prop; [done|].
  pose proof (Z.mod_pos_bound (us + 999) (2 ^ 64) ltac:(lia)). unfold wrap in *.
  pose proof (Z.div_pos ((us + 999) mod 2 ^ 64) 1000 ltac:(lia) ltac:(lia)). lia.
Qed.

Lemma await_limit_timeout us : 0 <= us < 2 ^ 64 -> await_limit (io_timeout us) = io_timeout us.
Proof. intros H. unfold await_limit. pose proof (io_timeout_pos us H). by rewrite (proj2 (Z.eqb_neq _ _)) by lia. Qed.

(** ** Flags *)

Lemma truthy_nonblock x : truthy (x & O_NONBLOCK) = Z.testbit x 11.
Proof.
  unfold truthy. change O_NONBLOCK with (2 ^ 11). destruct (Z.testbit x 11) eqn:E.
  - apply negb_true_iff, Z.eqb_neq. intros H. apply (f_equal (fun z => Z.testbit z 11)) in H.
    rewrite Z.land_spec, E, Z.pow2_bits_true, Z.bits_0 in H by lia. done.
  - apply negb_false_iff, Z.eqb_eq. apply Z.bits_inj'. intros n Hn. rewrite Z.land_spec, Z.bits_0, Z.pow2_bits_eqb by lia.
    destruct (11 =? n) eqn:En; [|by rewrite andb_false_r]. bool_to_prop. subst n. by rewrite E.
Qed.

Lemma nonblock_shown x : (if Z.testbit x 11 then (x ||| O_NONBLOCK) ||| O_NONBLOCK else (x ||| O_NONBLOCK) & (Z.lnot O_NONBLOCK)) = x.
Proof.
  change O_NONBLOCK with (2 ^ 11). destruct (Z.testbit x 11) eqn:E; apply Z.bits_inj'; intros n Hn;
    rewrite ?Z.land_spec, ?Z.lor_spec, ?Z.lnot_spec, ?Z.pow2_bits_eqb by lia;
    destruct (11 =? n) eqn:En; bool_to_prop; subst; rewrite ?E, ?orb_true_r, ?orb_false_r, ?andb_true_r; done.
Qed.

(** * Results *)

(** C21. A hooked call on a managed socket behaves like a blocking call: interrupted
    calls and calls that would block are repeated, each of the latter after one wait
    of the descriptor's limit; the first other answer is returned with its [errno];
    a wait that times out gives -1 with [ETIMEDOUT]; and a call whose wait has not
    ended is waiting. *)
Theorem blocking_io event type fd c v errno as_ ws a answers waits :
  managed fd c v -> retries as_ ws -> - 2 ^ 31 <= a.1 < 2 ^ 31 -> ~ transient a ->
  let log n := replicate n (event, await_limit (io_timeout (getTimeout type c))) in
  (exists e, do_io event type fd v errno (as_ ++ a :: answers) (ws ++ waits) = IO_ret a.1 e (log (length ws)) /\
     (a.1 = -1 -> e = a.2)) /\
  do_io event type fd v errno (as_ ++ (-1, EAGAIN) :: answers) (ws ++ TIMEOUT :: waits) =
    IO_ret (-1) ETIMEDOUT (log (S (length ws))) /\
  do_io event type fd v errno (as_ ++ (-1, EAGAIN) :: answers) ws = IO_waits (log (S (length ws))).
Proof.
  intros Hm Hr Ha Ht log. rewrite !(do_io_managed _ _ _ _ _ _ _ _ Hm). set (t := io_timeout _).
  assert (Hlog : forall n, log n ++ [(event, await_limit t)] = log (S n)).
  { intros n. unfold log. by rewrite (replicate_S_end n). }
  split_and!.
  - destruct (io_loop_retries event t as_ ws Hr errno (a :: answers) waits []) as (e' & ->). cbn [app].
    rewrite io_loop_final by done. eexists. split; [done|]. unfold errno_after. by intros ->.
  - destruct (io_loop_retries event t as_ ws Hr errno ((-1, EAGAIN) :: answers) (TIMEOUT :: waits) []) as (e' & ->).
    rewrite io_loop_eagain. cbn [app]. f_equal. apply Hlog.
  - destruct (io_loop_retries event t as_ ws Hr errno ((-1, EAGAIN) :: answers) [] []) as (e' & E). rewrite app_nil_r in E.
    rewrite E, io_loop_eagain. cbn [app]. f_equal. apply Hlog.
Qed.

Definition ex_ctx : FdCtx := setTimeout SO_RCVTIMEO 2500 (FdCtx_ctor 7 stat_socket 2).1.
Definition ex_table : FdManager := store 7 ex_ctx FdManager_ctor.

Lemma ex_managed : managed 7 ex_ctx ex_table.
Proof. by split_and!. Qed.

Lemma blocking_io_witness :
  co_recv 7 ex_table 0 [(-1, EINTR); (-1, EAGAIN); (12, 0)] [FINISHED] = IO_ret 12 EAGAIN [(READ, 3)] /\
  co_recv 7 ex_table 0 [(-1, EINTR); (-1, EAGAIN); (-1, EAGAIN)] [FINISHED; TIMEOUT] =
    IO_ret (-1) ETIMEDOUT [(READ, 3); (READ, 3)].
Proof.
  destruct (blocking_io READ SO_RCVTIMEO 7 ex_ctx ex_table 0 [(-1, EINTR); (-1, EAGAIN)] [FINISHED] (12, 0) [] [] ex_managed)
    as ((e & He & _) & H2 & _); [repeat constructor|by cbn|by intros [? _]|].
  split; [|exact H2]. assert (e = EAGAIN) as -> by (vm_compute in He; by injection He). exact He.
Defined.

(** A managed socket never reports [EAGAIN] or [EINTR]: whatever the kernel answers
    and whatever the waits yield (as the time limits allow), a hooked call that
    returns -1 has another [errno], and every wait it made had the limit of the
    descriptor. *)
Theorem blocking_io_never_eagain event type fd c v errno answers waits :
  managed fd c v -> Forall awaited waits ->
  match do_io event type fd v errno answers waits with
  | IO_ret n e log => (n = -1 -> e <> EAGAIN /\ e <> EINTR) /\
      Forall (eq (event, await_limit (io_timeout (getTimeout type c)))) log
  | IO_waits log | IO_running log => Forall (eq (event, await_limit (io_timeout (getTimeout type c)))) log
  end.
Proof.
  intros Hm Hw. rewrite (do_io_managed _ _ _ _ _ _ _ _ Hm). apply io_loop_ends; [|done].
  eapply Forall_impl; [exact Hw|apply awaited_cases].
Qed.

Lemma blocking_io_never_eagain_witness :
  match do_io READ SO_RCVTIMEO 7 ex_table 0 [(-1, EAGAIN)] [TIMEOUT] with
  | IO_ret n e log => (n = -1 -> e <> EAGAIN /\ e <> EINTR) /\
      Forall (eq (READ, await_limit (io_timeout (getTimeout SO_RCVTIMEO ex_ctx)))) log
  | IO_waits log | IO_running log => Forall (eq (READ, await_limit (io_timeout (getTimeout SO_RCVTIMEO ex_ctx)))) log
  end.
Proof.
  apply (blocking_io_never_eagain READ SO_RCVTIMEO 7 ex_ctx ex_table 0 [(-1, EAGAIN)] [TIMEOUT] ex_managed).
  apply Forall_cons_2; [exact awaited_TIMEOUT|apply Forall_nil_2].
Defined.

(** A receive or send timeout set on a managed socket is the one that is waited
    for, rounded up to a millisecond and never down; the timeout of the other
    direction stays as it was. *)
Theorem timeout_honoured fd c v optname tv_sec tv_usec rc errno :
  managed fd c v -> optname = SO_RCVTIMEO \/ optname = SO_SNDTIMEO ->
  0 <= tv_sec -> 0 <= tv_usec < 1000000 -> 0 < tv_sec * 1000000 + tv_usec -> tv_sec * 1000000 + tv_usec + 999 < 2 ^ 63 ->
  let v' := (co_setsockopt fd SOL_SOCKET optname tv_sec tv_usec rc v).2 in
  exists ms, (forall event, do_io event optname fd v' errno [(-1, EAGAIN)] [] = IO_waits [(event, ms)]) /\
    (ms - 1) * 1000 < tv_sec * 1000000 + tv_usec <= ms * 1000 /\
    forall event other, other = SO_RCVTIMEO \/ other = SO_SNDTIMEO -> other <> optname ->
      do_io event other fd v' errno [(-1, EAGAIN)] [] = do_io event other fd v errno [(-1, EAGAIN)] [].
Proof.
  intros Hm Ho Hs Hu Hpos Hmax v'. set (us := tv_sec * 1000000 + tv_usec) in *.
  destruct Hm as (Hfd & Hk & Hc & Hso & Hub).
  assert (Hv' : v' = store fd (setTimeout optname us c) v).
  { unfold v', co_setsockopt. change (SOL_SOCKET =? SOL_SOCKET) with true.
    rewrite get_ctx_known, Hk by done. fold us. rewrite wrap_small by lia. by destruct Ho as [-> | ->]. }
  assert (Hm' : managed fd (setTimeout optname us c) v').
  { unfold managed. rewrite Hv', known_store, Z.eqb_refl by (done || congruence).
    unfold setTimeout. destruct (optname =? SO_RCVTIMEO); by split_and!. }
  assert (Hget : getTimeout optname (setTimeout optname us c) = us)
    by (unfold getTimeout, setTimeout; by destruct (optname =? SO_RCVTIMEO)).
  exists (io_timeout us). split_and!.
  - intros event. rewrite (do_io_managed _ _ _ _ _ _ _ _ Hm'), Hget, io_loop_eagain. cbn [app].
    by rewrite await_limit_timeout by lia.
  - apply io_timeout_rounds; lia.
  - apply io_timeout_rounds; lia.
  - intros event other Hother Hne. rewrite (do_io_managed _ _ _ _ _ _ _ _ Hm'), (do_io_managed event other fd c v) by done.
    do 2 f_equal. unfold getTimeout, setTimeout.
    destruct Ho as [-> | ->], Hother as [-> | ->]; done.
Qed.

Lemma timeout_honoured_witness :
  exists ms, (forall event, do_io event SO_RCVTIMEO 7 (co_setsockopt 7 SOL_SOCKET SO_RCVTIMEO 1 500 0 ex_table).2 0
      [(-1, EAGAIN)] [] = IO_waits [(event, ms)]) /\ (ms - 1) * 1000 < 1 * 1000000 + 500 <= ms * 1000.
Proof.
  destruct (timeout_honoured 7 ex_ctx ex_table SO_RCVTIMEO 1 500 0 0 ex_managed (or_introl eq_refl)) as (ms & H1 & H2 & _); try lia.
  exists ms. by split.
Defined.

(** The user's view of the flags of a socket: setting flags on a managed socket
    leaves the descriptor non-blocking and remembers the user's choice, and reading
    them back, when the kernel answers what it was given, yields exactly the flags
    that were set; other descriptors keep theirs. *)
Theorem fcntl_flags_roundtrip sys sys' fd c v arg :
  0 <= fd -> known fd v = Some c -> m_is_closed c = false -> m_is_socket c = true -> m_sysNoblock c = true ->
  sys' F_GETFL None = arg ||| O_NONBLOCK ->
  let r := co_fcntl sys fd F_SETFL arg v in
  r.1 = sys F_SETFL (Some (arg ||| O_NONBLOCK)) /\
  co_fcntl sys' fd F_GETFL 0 r.2 = (arg, r.2) /\
  (forall k, 0 <= k -> k <> fd -> known k r.2 = known k v).
Proof.
  intros Hfd Hk Hc Hs Hsys Hker r.
  assert (Hr : r = (sys F_SETFL (Some (arg ||| O_NONBLOCK)), store fd (setUserNoblock (Z.testbit arg 11) c) v)).
  { unfold r, co_fcntl. change (F_SETFL =? F_SETFL) with true. rewrite get_ctx_known, Hk, Hc, Hs by done. cbn [negb orb].
    rewrite truthy_nonblock. cbn [m_sysNoblock setUserNoblock]. by rewrite Hsys. }
  rewrite Hr. cbn [fst snd]. split_and!; [done| |].
  - unfold co_fcntl. change (F_GETFL =? F_SETFL) with false. change (F_GETFL =? F_GETFL) with true. cbv iota.
    rewrite get_ctx_known, known_store, Z.eqb_refl by (done || congruence).
    cbn [m_is_closed m_is_socket setUserNoblock m_userNoblock]. rewrite Hc, Hs, Hker. cbn [negb orb].
    by rewrite nonblock_shown.
  - intros k Hk0 Hne. rewrite known_store by (done || congruence). by rewrite (proj2 (Z.eqb_neq _ _)).
Qed.

Lemma fcntl_flags_roundtrip_witness :
  co_fcntl (fun _ _ => 2050) 7 F_GETFL 0 (co_fcntl (fun _ _ => 0) 7 F_SETFL 2 ex_table).2 =
  (2, (co_fcntl (fun _ _ => 0) 7 F_SETFL 2 ex_table).2).
Proof. by apply (fcntl_flags_roundtrip (fun _ _ => 0) (fun _ _ => 2050) 7 ex_ctx ex_table 2). Defined.

(** The argument of an [ioctl] is lost: whatever it is, the call that is made has 1 in
    its place; [FIONBIO] on a descriptor that is not a managed socket becomes an
    [fcntl] with the number of an [ioctl]. *)
Theorem ioctl_argument_lost fd op arg at_arg v :
  (forall v' call, co_ioctl fd op arg at_arg v = (call, v') -> call = Call_ioctl op 1 \/ (op = FIONBIO /\ call = Call_fcntl op arg)).
Proof.
  intros v' call. unfold co_ioctl. destruct (op =? FIONBIO) eqn:E; bool_to_prop; [|intros [= <- <-]; auto].
  destruct (get_ctx fd v) as [c|]; [|intros [= <- <-]; auto]. destruct (_ || _); intros [= <- <-]; auto.
Qed.

(** The sleeps take their argument as milliseconds: [co_usleep] sleeps a thousand
    times as long as asked, [co_nanosleep] as many milliseconds as microseconds were
    asked for, [co_sleep] a thousandth. *)
Theorem sleeps_in_milliseconds seconds usec sec nsec :
  0 <= sec -> 0 <= nsec < 1000000000 -> sec < 2 ^ 32 ->
  co_sleep seconds = seconds /\ co_usleep usec = usec /\ co_nanosleep sec nsec = sec * 1000000 + nsec / 1000.
Proof.
  intros. split_and!; [done..|]. unfold co_nanosleep, SleepAwaiter. apply wrap_small.
  pose proof (Z.div_pos nsec 1000 ltac:(lia) ltac:(lia)). assert (nsec / 1000 < 1000000) by (apply Z.div_lt_upper_bound; lia). lia.
Qed.

(** Connecting: at once, or after a wait for the descriptor to become writable, with
    the socket's pending error as the result; a wait that times out gives
    [ETIMEDOUT]. *)
Theorem connect_waits connect_timo fd c v errno conn waits sockopt :
  managed fd c v -> m_is_init c = true -> Forall awaited waits ->
  co_connect connect_timo fd v errno conn waits sockopt =
  if conn.1 =? 0 then IO_ret 0 errno []
  else if (conn.1 =? -1) && (conn.2 =? EINPROGRESS) then
    let log := [(WRITE, if connect_timo =? 0 then 5000 else connect_timo)] in
    match waits with
    | [] => IO_waits log
    | w :: _ =>
        if decide (w = TIMEOUT) then IO_ret (-1) ETIMEDOUT log
        else match sockopt with
             | inl e => IO_ret (-1) e log
             | inr error => IO_ret (if error =? 0 then 0 else -1) error log
             end
    end
  else IO_ret conn.1 (if conn.1 =? -1 then conn.2 else errno) [].
Proof.
  intros (Hfd & Hk & Hc & Hs & Hu) Hi Hw. unfold co_connect. rewrite get_ctx_known, Hk, Hc, Hi, Hs, Hu by done. cbn [negb orb].
  destruct conn as [n e]. unfold errno_after. cbn [fst snd].
  destruct (n =? 0) eqn:E0; bool_to_prop; [by subst n|]. destruct (n =? -1) eqn:E1; cbn [andb negb orb].
  - rewrite orb_false_r. destruct (e =? EINPROGRESS) eqn:E2; cbn [negb]; [|bool_to_prop; by subst].
    unfold await_limit, HOOK_IOAWAIT_TIMEOUT.
    destruct Hw as [|w ws Hw _]; [done|]. destruct (awaited_cases w Hw) as [-> | ->]; [|done].
    by rewrite decide_False.
  - by rewrite orb_true_r.
Qed.
