(* ===== verification/DbPool.v ===== *)
(** * The connection pool

    Models [DBPool] and [ConnectWrapper] ([sylar/DBPool/database.hpp],
    [database.tpp]).  Whether a connection can be opened is an argument: the
    result of each [connect], in order.  Callbacks are numbers; [scheduled] are
    those handed to the IO manager, in order. *)

From stdpp Require Import relations.
From S2P Require Import Prelude.

Inductive State := INIT | READY | FULL | CLOSED | CLOSING | ERROR.

#[global] Instance State_eq_dec : EqDecision State.
Proof. solve_decision. Defined.

Record DBPool := mk_db {
  m_freeConnInfos : list Z;
  m_waitConnCb : list nat;
  m_connectorCount : Z;
  m_busyConnCount : Z;
  m_minConnector : Z;
  m_maxConnector : Z;
  m_state : State;
  m_increaseNum : Z;
  scheduled : list nat;
}.

(** The constructor; [None] is the runtime_error. *)
Definition DBPool_ctor (min_conn max_conn increaseNum : Z) : option DBPool :=
  if (min_conn <? 0) || (max_conn <? 0) || (max_conn <? min_conn) then None
  else Some (mk_db [] [] 0 0 min_conn max_conn INIT increaseNum []).

Definition checkRunState (p : DBPool) : bool :=
  match m_state p with READY | FULL => true | _ => false end.

Definition set_conns (free : list Z) (count busy : Z) (st : State) (p : DBPool) : DBPool :=
  mk_db free (m_waitConnCb p) count busy (m_minConnector p) (m_maxConnector p) st (m_increaseNum p) (scheduled p).
Definition set_waiters (w : list nat) (s : list nat) (p : DBPool) : DBPool :=
  mk_db (m_freeConnInfos p) w (m_connectorCount p) (m_busyConnCount p) (m_minConnector p) (m_maxConnector p)
    (m_state p) (m_increaseNum p) s.

(** [tickle] *)
Definition tickle (p : DBPool) : DBPool :=
  match m_waitConnCb p with
  | [] => p
  | waiters =>
      let n := if decide (m_state p = CLOSING) then length waiters
               else Nat.min (length (m_freeConnInfos p)) (length waiters) in
      set_waiters (drop n waiters) (scheduled p ++ take n waiters) p
  end.

(** [registeConnCb] of a callback; [None] is a null one. *)
Definition registeConnCb (cb : option nat) (p : DBPool) : Z * DBPool :=
  if negb (checkRunState p) then (-1, p)
  else
    match cb with
    | None => (-1, p)
    | Some f =>
        if decide (m_state p = FULL) then (0, set_waiters (m_waitConnCb p ++ [f]) (scheduled p) p)
        else (0, set_waiters (m_waitConnCb p) (scheduled p ++ [f]) p)
    end.

Definition close (p : DBPool) : DBPool :=
  tickle (set_conns (m_freeConnInfos p) (m_connectorCount p) (m_busyConnCount p) CLOSING p).

(** [borrowOneConn]: the index in the wrapper, -1 if there is none. *)
Inductive borrow_res :=
  | Bo_idx (idx : Z) (p : DBPool)
  | Bo_assert.                          (* connector is out of range *)

Definition borrowOneConn (p : DBPool) : borrow_res :=
  if negb (checkRunState p) || bool_decide (m_state p = FULL) then Bo_idx (-1) p
  else
    match m_freeConnInfos p with
    | [] => Bo_idx (-1) p
    | connectorIdx :: free =>
        if (0 <=? connectorIdx) && (connectorIdx <? m_connectorCount p) then
          let busy := m_busyConnCount p + 1 in
          Bo_idx connectorIdx
            (set_conns free (m_connectorCount p) busy
               (if busy =? m_connectorCount p then FULL else m_state p) p)
        else Bo_assert
    end.

(** [returnConn]; [reconnects] is the result of the new connection that replaces
    one that timed out. *)
Definition returnConn (conn_idx : Z) (isTimeOut reconnects : bool) (p : DBPool) : Z * DBPool :=
  if negb (checkRunState p) || ((conn_idx <? 0) || (m_maxConnector p <=? conn_idx)) then (-1, p)
  else if isTimeOut && negb reconnects then
    (-1, set_conns (m_freeConnInfos p) (m_connectorCount p - 1) (m_busyConnCount p - 1) (m_state p) p)
  else
    (0, tickle (set_conns (m_freeConnInfos p ++ [conn_idx]) (m_connectorCount p) (m_busyConnCount p - 1)
                 (if decide (m_state p = FULL) then READY else m_state p) p)).

(** The destructor of [ConnectWrapper]. *)
Definition ConnectWrapper_dtor (conn_idx : Z) (timeout reconnects : bool) (p : DBPool) : DBPool :=
  if conn_idx <? 0 then p else (returnConn conn_idx timeout reconnects p).2.

(** The loop of [expand]: indices from [i] on, as long as connecting succeeds; the
    flag tells whether it did, [max_idx] is the last index tried. *)
Fixpoint expand_loop (n : nat) (i : Z) (results : list bool) (free : list Z) (max_idx : Z)
    : list Z * bool * Z :=
  match n with
  | O => (free, true, max_idx)
  | S n =>
      match results with
      | false :: _ => (free ++ [i], false, i)
      | true :: results => expand_loop n (i + 1) results (free ++ [i]) i
      | [] => expand_loop n (i + 1) [] (free ++ [i]) i
      end
  end.

(** [expand]; [results] are those of the connections, success where it is
    shorter.  The assertion compares with the size of the vector, which is
    [m_maxConnector]. *)
Definition expand (results : list bool) (p : DBPool) : Z * DBPool :=
  if m_maxConnector p =? m_connectorCount p then (0, p)
  else
    let temp := m_maxConnector p - m_connectorCount p in
    let increaseNum := if m_increaseNum p <? temp then m_increaseNum p else temp in
    let '(free, ok, max_idx) :=
      expand_loop (Z.to_nat increaseNum) (m_connectorCount p) results (m_freeConnInfos p) 0 in
    if negb ok then (-1, set_conns free max_idx (m_busyConnCount p) (m_state p) p)
    else
      let count := m_connectorCount p + increaseNum in
      (0, set_conns free count (m_busyConnCount p)
            (if m_busyConnCount p <? count then READY else m_state p) p).

(** ** The pool as long as connections succeed *)

(** One operation, with the indices lent out: borrowing, returning one that is lent
    (kept or reconnected), waiting, growing. *)
Inductive db_step : list Z * DBPool -> list Z * DBPool -> Prop :=
  | step_borrow lent p idx p' :
      borrowOneConn p = Bo_idx idx p' ->
      db_step (lent, p) (if idx <? 0 then lent else idx :: lent, p')
  | step_return l1 l2 p idx timeout rc p' :
      returnConn idx timeout true p = (rc, p') -> db_step (l1 ++ idx :: l2, p) (l1 ++ l2, p')
  | step_register lent p cb rc p' : registeConnCb cb p = (rc, p') -> db_step (lent, p) (lent, p')
  | step_expand lent p rc p' : expand [] p = (rc, p') -> db_step (lent, p) (lent, p').

Definition state_ok (p : DBPool) : Prop :=
  match m_state p with
  | INIT => m_connectorCount p = 0
  | READY => m_freeConnInfos p <> []
  | FULL => m_freeConnInfos p = [] /\ 0 < m_connectorCount p
  | _ => False
  end.

Record db_inv (lent : list Z) (p : DBPool) : Prop := mk_db_inv {
  di_conns : m_freeConnInfos p ++ lent ≡ₚ seqZ 0 (m_connectorCount p);
  di_busy : m_busyConnCount p = zlen lent;
  di_count : 0 <= m_connectorCount p <= m_maxConnector p;
  di_incr : 0 <= m_increaseNum p;
  di_state : state_ok p;
}.

Lemma db_lengths lent p : db_inv lent p -> zlen (m_freeConnInfos p) + zlen lent = m_connectorCount p.
Proof.
  intros Hi. rewrite <- zlen_app. unfold zlen. rewrite (di_conns _ _ Hi), length_seqZ.
  pose proof (di_count _ _ Hi). lia.
Qed.

Lemma db_in_range lent p idx :
  db_inv lent p -> idx ∈ m_freeConnInfos p \/ idx ∈ lent -> 0 <= idx < m_connectorCount p.
Proof.
  intros Hi Hin. assert (H : idx ∈ m_freeConnInfos p ++ lent) by (by apply elem_of_app).
  rewrite (di_conns _ _ Hi) in H. apply elem_of_seqZ in H. lia.
Qed.

(** Waiters do not matter to the connections. *)
Lemma inv_waiters lent p w s : db_inv lent p -> db_inv lent (set_waiters w s p).
Proof. intros [H1 H2 H3 H4 H5]. by split. Qed.

Lemma inv_tickle lent p : db_inv lent p -> db_inv lent (tickle p).
Proof. intros Hi. unfold tickle. destruct (m_waitConnCb p); [done|]. by apply inv_waiters. Qed.

Lemma borrow_inv lent p :
  db_inv lent p ->
  exists idx p', borrowOneConn p = Bo_idx idx p' /\ db_inv (if idx <? 0 then lent else idx :: lent) p' /\
    (idx = -1 /\ p' = p \/ 0 <= idx < m_connectorCount p /\ ~ idx ∈ lent) /\
    (m_state p = READY -> idx <> -1).
Proof.
  intros Hi. pose proof (db_lengths _ _ Hi) as Hl. pose proof (di_state _ _ Hi) as Hst.
  unfold borrowOneConn, checkRunState, state_ok in *.
  destruct (m_state p) eqn:Es; cbn [negb orb]; try done.
  - exists (-1), p. split_and!; [done|done|by left|done].
  - rewrite bool_decide_eq_false_2 by done. destruct (m_freeConnInfos p) as [|idx free] eqn:Ef; [done|].
    destruct (db_in_range lent p idx Hi) as [H0 H1]; [left; rewrite Ef; by left|].
    rewrite (proj2 (Z.leb_le 0 idx)), (proj2 (Z.ltb_lt idx _)) by done. cbn [andb].
    rewrite zlen_cons in Hl. eexists idx, _. split; [done|]. rewrite (proj2 (Z.ltb_ge idx 0)) by done.
    destruct Hi as [C1 C2 C3 C4 C5]. rewrite Ef in C1. cbn [app] in C1.
    assert (Hnd : NoDup (idx :: free ++ lent)) by (rewrite C1; apply NoDup_seqZ).
    split_and!; [|right; split; [done|]|lia].
    + split; cbn [set_conns m_freeConnInfos m_connectorCount m_busyConnCount m_maxConnector m_increaseNum];
        [by rewrite <- Permutation_middle|rewrite zlen_cons; lia|done|done|].
      unfold state_ok. cbn [set_conns m_state m_freeConnInfos m_connectorCount].
      destruct (_ =? m_connectorCount p) eqn:Eb; bool_to_prop; rewrite ?Es.
      * split; [|lia]. destruct free; [done|]. rewrite zlen_cons in Hl. pose proof (zlen_nonneg free). lia.
      * intros ->. unfold zlen in Hl. cbn in Hl. rewrite C2 in Eb. unfold zlen in Eb. lia.
    + intros Hin. apply NoDup_cons in Hnd as [Hn _]. apply Hn, elem_of_app. by right.
  - exists (-1), p. rewrite bool_decide_eq_true_2 by done. split_and!; [done|done|by left|done].
Qed.

Lemma return_inv l1 l2 p idx timeout rc p' :
  db_inv (l1 ++ idx :: l2) p -> returnConn idx timeout true p = (rc, p') ->
  rc = 0 /\ db_inv (l1 ++ l2) p'.
Proof.
  intros Hi. pose proof (db_lengths _ _ Hi) as Hl. pose proof (di_state _ _ Hi) as Hst.
  destruct (db_in_range _ p idx Hi) as [H0 H1]; [right; apply elem_of_app; right; by left|].
  pose proof (di_count _ _ Hi) as Hcnt. unfold returnConn, checkRunState, state_ok in *.
  rewrite (proj2 (Z.ltb_ge idx 0)), (proj2 (Z.leb_gt _ idx)) by lia. rewrite andb_false_r.
  rewrite zlen_app, zlen_cons in Hl. pose proof (zlen_nonneg l1). pose proof (zlen_nonneg l2).
  pose proof (zlen_nonneg (m_freeConnInfos p)).
  destruct (m_state p) eqn:Es; cbn [negb orb]; try done; [lia| |]; intros [= <- <-]; (split; [done|]); apply inv_tickle.
  all: destruct Hi as [C1 C2 C3 C4 C5]; split;
    cbn [set_conns m_freeConnInfos m_connectorCount m_busyConnCount m_maxConnector m_increaseNum]; try done.
  all: try (rewrite C2, !zlen_app, zlen_cons; lia).
  all: try (rewrite <- C1, <- app_assoc; f_equiv; cbn; by rewrite Permutation_middle).
  all: unfold state_ok; cbn; intros E0; by apply app_nil in E0 as [_ ?].
Qed.

Lemma expand_loop_ok n : forall i free m,
  expand_loop n i [] free m = (free ++ seqZ i (Z.of_nat n), true, if (n =? 0)%nat then m else i + Z.of_nat n - 1).
Proof.
  induction n as [|n IH]; intros i free m; cbn [expand_loop]; [by rewrite app_nil_r|].
  rewrite IH, <- app_assoc. cbn [app Nat.eqb]. f_equal.
  - f_equal. f_equal. rewrite (seqZ_cons i) by lia. f_equal. f_equal; lia.
  - destruct n; cbn [Nat.eqb]; lia.
Qed.

Lemma expand_inv lent p rc p' : db_inv lent p -> expand [] p = (rc, p') -> rc = 0 /\ db_inv lent p'.
Proof.
  intros Hi. pose proof (db_lengths _ _ Hi) as Hl. pose proof (di_busy _ _ Hi) as Hb. unfold expand.
  destruct (_ =? m_connectorCount p) eqn:E; bool_to_prop; [by intros [= <- <-]|].
  pose proof (di_count _ _ Hi) as Hc. pose proof (di_incr _ _ Hi) as Hin.
  set (inc := if _ <? _ then _ else _). assert (Hinc : 0 <= inc <= m_maxConnector p - m_connectorCount p).
  { unfold inc. destruct (_ <? _) eqn:E2; bool_to_prop; lia. }
  clearbody inc. rewrite expand_loop_ok, Z2Nat.id by lia. cbn [negb]. intros [= <- <-]. split; [done|].
  destruct Hi as [C1 C2 C3 C4 C5]. pose proof (zlen_nonneg (m_freeConnInfos p)).
  split; cbn [set_conns m_freeConnInfos m_connectorCount m_busyConnCount m_maxConnector m_increaseNum]; [|done|lia|done|].
  - rewrite <- app_assoc, (Permutation_app_comm (seqZ _ _) lent), app_assoc, C1.
    rewrite (seqZ_app 0 (m_connectorCount p) inc) by lia. done.
  - unfold state_ok in *. cbn [set_conns m_state m_freeConnInfos m_connectorCount].
    destruct (_ <? _) eqn:E2; bool_to_prop.
    + intros E0. apply app_nil in E0 as [E0 E1]. rewrite E0 in Hl. unfold zlen in Hl at 1. cbn in Hl.
      assert (zlen (seqZ (m_connectorCount p) inc) = inc) as Hz by (unfold zlen; rewrite length_seqZ; lia).
      rewrite E1 in Hz. unfold zlen in Hz. cbn in Hz. lia.
    + assert (inc = 0) as -> by lia. rewrite app_nil_r, Z.add_0_r. done.
Qed.

Lemma db_step_inv lent p lent' p' : db_step (lent, p) (lent', p') -> db_inv lent p -> db_inv lent' p'.
Proof.
  intros Hs Hi. inversion Hs as [? ? idx ? Hb|l1 l2 ? idx to rc ? Hr|? ? cb rc ? Hr|? ? rc ? He]; simplify_eq.
  - destruct (borrow_inv lent p Hi) as (idx' & p2 & E & Hi' & _). rewrite Hb in E. by injection E as -> ->.
  - by eapply return_inv.
  - unfold registeConnCb in Hr. repeat case_match; simplify_eq; by try apply inv_waiters.
  - by eapply expand_inv.
Qed.

Lemma db_steps_inv s s' : rtc db_step s s' -> db_inv s.1 s.2 -> db_inv s'.1 s'.2.
Proof.
  induction 1 as [|[l p] [l1 p1] s3 H12 _ IH]; intros Hi; [done|]. apply IH. by eapply db_step_inv.
Qed.

Lemma db_steps_max s s' : rtc db_step s s' -> m_maxConnector s'.2 = m_maxConnector s.2.
Proof.
  induction 1 as [|s1 s2 s3 H12 _ IH]; [done|]. rewrite IH.
  destruct H12 as [? ? ? ? Hx|? ? ? ? ? ? ? Hx|? ? ? ? ? Hx|? ? ? ? Hx]; cbn;
    unfold borrowOneConn, returnConn, registeConnCb, expand, tickle in Hx; repeat case_match; simplify_eq/=; done.
Qed.

(** * Results *)

(** No connection is lent twice: as long as connecting succeeds, after any
    sequence of borrowing, returning, waiting and growing, the free and the lent
    connections are together exactly the open ones, the busy counter counts the
    lent ones, and the pool is [FULL] exactly when no connection is free; so
    borrowing never fails its range check, gives a connection whenever one is
    free, and never one that is lent already. *)
Theorem dbpool_consistent min_conn max_conn increaseNum p0 lent p :
  DBPool_ctor min_conn max_conn increaseNum = Some p0 -> 0 <= increaseNum ->
  rtc db_step ([], p0) (lent, p) ->
  m_freeConnInfos p ++ lent ≡ₚ seqZ 0 (m_connectorCount p) /\
  m_busyConnCount p = zlen lent /\ m_connectorCount p <= max_conn /\
  (m_state p = FULL -> m_freeConnInfos p = []) /\ (m_freeConnInfos p <> [] -> m_state p = READY) /\
  exists idx p', borrowOneConn p = Bo_idx idx p' /\
    (idx = -1 /\ m_freeConnInfos p = [] \/ 0 <= idx < m_connectorCount p /\ ~ idx ∈ lent).
Proof.
  intros E Hinc Hr. unfold DBPool_ctor in E. destruct (_ || _) eqn:Ev; [done|]. bool_to_prop. injection E as <-.
  assert (Hi : db_inv lent p) by (apply (db_steps_inv _ _ Hr); by split; cbn; try lia).
  pose proof (db_steps_max _ _ Hr) as Hm. cbn in Hm. pose proof (di_state _ _ Hi) as Hst. unfold state_ok in Hst.
  pose proof (db_lengths _ _ Hi) as Hl. pose proof (zlen_nonneg lent).
  assert (Hne : m_freeConnInfos p <> [] -> m_state p = READY).
  { intros Hf. destruct (m_state p); try done; [|by destruct Hst].
    destruct (m_freeConnInfos p); [done|]. rewrite zlen_cons in Hl. pose proof (zlen_nonneg l). lia. }
  split_and!; [apply Hi|apply Hi|pose proof (di_count _ _ Hi); lia| |done|].
  - intros Ef. rewrite Ef in Hst. by destruct Hst.
  - destruct (borrow_inv lent p Hi) as (idx & p' & Eb & _ & Hc & Hrdy). exists idx, p'. split; [done|].
    destruct Hc as [[-> _]|Hrng]; [left|by right]. split; [done|].
    destruct (m_freeConnInfos p) eqn:Ef; [done|]. exfalso. by apply Hrdy; [apply Hne|].
Qed.

Lemma borrow_step lent p idx p' : borrowOneConn p = Bo_idx idx p' -> (idx <? 0) = false ->
  db_step (lent, p) (idx :: lent, p').
Proof. intros H1 H2. pose proof (step_borrow lent p idx p' H1) as Hs. by rewrite H2 in Hs. Qed.

Lemma dbpool_consistent_witness :
  exists p0 p, DBPool_ctor 1 4 2 = Some p0 /\ rtc db_step ([], p0) ([0], p) /\
    m_freeConnInfos p ++ [0] ≡ₚ seqZ 0 (m_connectorCount p) /\ m_connectorCount p = 2.
Proof.
  eexists _, _. split; [reflexivity|].
  match goal with |- ?R /\ _ => assert (Hr : R) end.
  { eapply rtc_l; [eapply step_expand; reflexivity|].
    eapply rtc_l; [eapply borrow_step; reflexivity|]. apply rtc_refl. }
  split; [exact Hr|].
  destruct (dbpool_consistent 1 4 2 _ [0] _ eq_refl ltac:(lia) Hr) as (H1 & _). split; [exact H1|reflexivity].
Defined.

(** A connection that cannot be opened takes the pool down.  If a timed-out
    connection cannot be replaced, the counter drops although the other indices
    stay, and the next borrower that gets the highest index fails the range
    check; if growing a full pool fails, the index that could not be opened stays
    in the free list and is the one the next borrower gets, with the same
    result. *)
Theorem dbpool_connect_failure_aborts lent p idx :
  db_inv lent p -> idx ∈ lent ->
  (forall rest, m_freeConnInfos p = (m_connectorCount p - 1) :: rest ->
     borrowOneConn (returnConn idx true false p).2 = Bo_assert) /\
  (m_state p = FULL -> m_connectorCount p < m_maxConnector p -> 0 < m_increaseNum p ->
     borrowOneConn (returnConn idx false true (expand [false] p).2).2 = Bo_assert).
Proof.
  intros Hi Hin. destruct (db_in_range _ p idx Hi ltac:(by right)) as [H0 H1].
  pose proof (di_count _ _ Hi) as Hc. pose proof (di_state _ _ Hi) as Hst. unfold state_ok in Hst. split.
  - intros rest Hf. unfold returnConn, checkRunState. rewrite (proj2 (Z.ltb_ge idx 0)), (proj2 (Z.leb_gt _ idx)) by lia.
    destruct (m_state p) eqn:Es; try done; [lia| |rewrite Hf in Hst; by destruct Hst].
    cbn [negb orb andb snd]. unfold borrowOneConn, checkRunState. cbn [set_conns m_state m_freeConnInfos m_connectorCount].
    rewrite bool_decide_eq_false_2 by done. rewrite Hf. cbn [negb orb].
    by rewrite Z.ltb_irrefl, andb_false_r.
  - intros Es Hlt Hinc. rewrite Es in Hst. destruct Hst as [Hf _].
    unfold expand. rewrite (proj2 (Z.eqb_neq (m_maxConnector p) _)) by lia.
    set (inc := if _ <? _ then _ else _). assert (Hpos : 0 < inc) by (unfold inc; destruct (_ <? _); lia).
    destruct (Z.to_nat inc) as [|n] eqn:En; [lia|]. cbn [expand_loop negb snd]. rewrite Hf, Es. cbn [app].
    unfold returnConn, checkRunState. cbn [set_conns m_state m_freeConnInfos m_connectorCount m_maxConnector m_busyConnCount].
    rewrite (proj2 (Z.ltb_ge idx 0)), (proj2 (Z.leb_gt _ idx)) by lia. cbn [negb orb andb].
    unfold tickle, set_conns, set_waiters. cbn. destruct (m_waitConnCb p); cbn;
      unfold borrowOneConn, checkRunState; cbn; by rewrite Z.ltb_irrefl, andb_false_r.
Qed.

Definition ex_pool : DBPool := mk_db [1] [] 2 1 1 4 READY 2 [].

Lemma dbpool_connect_failure_aborts_witness :
  borrowOneConn (returnConn 0 true false ex_pool).2 = Bo_assert.
Proof.
  assert (Hi : db_inv [0] ex_pool).
  { split; try (cbn; lia); try done. change (seqZ 0 2) with [0; 1]. apply Permutation_swap. }
  apply (dbpool_connect_failure_aborts [0] ex_pool 0 Hi ltac:(by left)) with (rest := []). reflexivity.
Defined.
