(* ===== verification/Snowflake.v ===== *)
(** * Identifiers in time order

    Models [Snowflake] of [sylar/tools/Snowflake.hpp].  The readings of the
    steady clock, in milliseconds, are the elements of a list; every call of
    [millsecond] takes the next one.  [worker] and [datacenter] are the values of
    the configuration at the call. *)

From stdpp Require Import sorting.
From S2P Require Import Prelude.

Definition WORKER_ID_BITS : Z := 5.
Definition DATACENTER_ID_BITS : Z := 5.
Definition MAX_WORKER_ID : Z := (1 <<< WORKER_ID_BITS) - 1.
Definition MAX_DATACENTER_ID : Z := (1 <<< DATACENTER_ID_BITS) - 1.
Definition SEQUENCE_BITS : Z := 12.
Definition WORKER_ID_SHIFT : Z := SEQUENCE_BITS.
Definition DATACENTER_ID_SHIFT : Z := SEQUENCE_BITS + WORKER_ID_BITS.
Definition TIMESTAMP_LEFT_SHIFT : Z := SEQUENCE_BITS + WORKER_ID_BITS + DATACENTER_ID_BITS.
Definition SEQUENCE_MASK : Z := (1 <<< SEQUENCE_BITS) - 1.

Record Snowflake := mk_snow {
  start_millsecond : Z;
  last_timestamp : Z;
  sequence : Z;
}.

Definition Snowflake_ctor (start_ms : Z) : Snowflake := mk_snow start_ms (-1) 0.

(** [init]: [None] is the runtime_error. *)
Definition init (worker datacenter : Z) : option unit :=
  if (MAX_WORKER_ID <? worker) || (worker <? 0) then None
  else if (MAX_DATACENTER_ID <? datacenter) || (datacenter <? 0) then None
  else Some tt.

(** [millsecond]: the readings are relative to the start. *)
Definition millsecond (s : Snowflake) (diff : Z) : Z := start_millsecond s + diff.

(** [wait_next_millis]; [None]: the readings ran out. *)
Fixpoint wait_next_millis (s : Snowflake) (last : Z) (clock : list Z) : option (Z * list Z) :=
  match clock with
  | [] => None
  | d :: clock =>
      let timestamp := millsecond s d in
      if timestamp <=? last then wait_next_millis s last clock else Some (timestamp, clock)
  end.

(** A 64-bit signed integer. *)
Definition s64 (x : Z) : Z := (x + 2 ^ 63) mod 2 ^ 64 - 2 ^ 63.

Definition compose (TWEPOCH timestamp datacenter worker seq : Z) : Z :=
  (s64 ((timestamp - TWEPOCH) <<< TIMESTAMP_LEFT_SHIFT) ||| (datacenter <<< DATACENTER_ID_SHIFT)
   ||| (worker <<< WORKER_ID_SHIFT)) ||| seq.

Definition nextid (TWEPOCH worker datacenter : Z) (s : Snowflake) (clock : list Z)
    : option (Z * Snowflake * list Z) :=
  match clock with
  | [] => None
  | d :: clock =>
      let timestamp := millsecond s d in
      let taken :=
        if last_timestamp s =? timestamp then
          let seq := (sequence s + 1) & SEQUENCE_MASK in
          if seq =? 0 then
            match wait_next_millis s (last_timestamp s) clock with
            | Some (timestamp, clock) => Some (timestamp, seq, clock)
            | None => None
            end
          else Some (timestamp, seq, clock)
        else Some (timestamp, 0, clock) in
      match taken with
      | None => None
      | Some (timestamp, seq, clock) =>
          Some (compose TWEPOCH timestamp datacenter worker seq,
                mk_snow (start_millsecond s) timestamp seq, clock)
      end
  end.

(** [n] identifiers in a row. *)
Fixpoint nextids (n : nat) (TWEPOCH worker datacenter : Z) (s : Snowflake) (clock : list Z)
    : option (list Z * Snowflake * list Z) :=
  match n with
  | O => Some ([], s, clock)
  | S n =>
      match nextid TWEPOCH worker datacenter s clock with
      | None => None
      | Some (id, s, clock) =>
          match nextids n TWEPOCH worker datacenter s clock with
          | Some (ids, s, clock) => Some (id :: ids, s, clock)
          | None => None
          end
      end
  end.

(** ** The fields of an identifier *)

(** The time an identifier has room for: 69 years from the epoch. *)
Definition in_epoch (TW t : Z) : Prop := 0 <= t - TW < 2 ^ 41.

Lemma compose_sum TW t d w q :
  in_epoch TW t -> 0 <= w <= MAX_WORKER_ID -> 0 <= d <= MAX_DATACENTER_ID -> 0 <= q < 2 ^ 12 ->
  compose TW t d w q = (t - TW) * 2 ^ 22 + d * 2 ^ 17 + w * 2 ^ 12 + q.
Proof.
  change MAX_WORKER_ID with 31. change MAX_DATACENTER_ID with 31. intros Ht Hw Hd Hq. unfold compose.
  change TIMESTAMP_LEFT_SHIFT with 22. change DATACENTER_ID_SHIFT with 17. change WORKER_ID_SHIFT with 12.
  assert (Es : s64 ((t - TW) <<< 22) = (t - TW) <<< 22).
  { unfold s64, in_epoch in *. rewrite Z.shiftl_mul_pow2, Z.mod_small by lia. lia. }
  rewrite Es, <- !Z.lor_assoc.
  rewrite (lor_add_disjoint w q 12) by lia. rewrite (lor_add_disjoint d _ 17) by lia.
  rewrite (lor_add_disjoint (t - TW) _ 22) by lia. lia.
Qed.

(** ** Order *)

(** The clock does not go back: the readings are not before what the generator
    has seen. *)
Definition clock_ok (s : Snowflake) (clock : list Z) : Prop :=
  StronglySorted Z.le (last_timestamp s :: map (millsecond s) clock).

Definition snow_inv (s : Snowflake) : Prop := 0 <= sequence s < 2 ^ 12.

(** The position of the next identifier in time and sequence. *)
Definition rank (s : Snowflake) : Z := last_timestamp s * 2 ^ 12 + sequence s.

Lemma sorted_tail (x y : Z) l : StronglySorted Z.le (x :: y :: l) -> x <= y /\ StronglySorted Z.le (y :: l).
Proof. intros H. inversion_clear H as [|? ? Hs Hall]. split; [by inversion_clear Hall|done]. Qed.

Lemma sorted_skip (x y : Z) l : StronglySorted Z.le (x :: y :: l) -> StronglySorted Z.le (x :: l).
Proof.
  intros H. inversion_clear H as [|? ? Hs Hall]. inversion_clear Hs. inversion_clear Hall. by constructor.
Qed.

Lemma wait_later s last clock t rest :
  wait_next_millis s last clock = Some (t, rest) ->
  StronglySorted Z.le (last :: map (millsecond s) clock) ->
  last < t /\ StronglySorted Z.le (t :: map (millsecond s) rest) /\
  exists seen, map (millsecond s) clock = seen ++ t :: map (millsecond s) rest.
Proof.
  induction clock as [|d clock IH]; cbn; [done|]. destruct (_ <=? last) eqn:E; bool_to_prop; intros Hw Hs.
  - destruct IH as (? & ? & seen & ->); [done|by apply sorted_skip in Hs|]. split_and!; [done|done|].
    by exists (millsecond s d :: seen).
  - injection Hw as <- <-. apply sorted_tail in Hs as [_ ?]. split_and!; [done|done|]. by exists [].
Qed.

Lemma wait_reaches s last clock :
  Exists (fun d => last < millsecond s d) clock -> exists t rest, wait_next_millis s last clock = Some (t, rest).
Proof.
  induction 1 as [d clock Hd|d clock _ IH]; cbn.
  - rewrite (proj2 (Z.leb_gt _ _)) by done. by eexists _, _.
  - destruct (_ <=? last); [done|]. by eexists _, _.
Qed.

Lemma next_seq q : 0 <= q < 2 ^ 12 -> (q + 1) & SEQUENCE_MASK = if q =? 2 ^ 12 - 1 then 0 else q + 1.
Proof.
  intros Hq. change SEQUENCE_MASK with (Z.ones 12). rewrite Z.land_ones by lia.
  destruct (q =? _) eqn:E; bool_to_prop; [subst; done|]. apply Z.mod_small. lia.
Qed.

Lemma nextid_step TW w d s clock id s' rest :
  nextid TW w d s clock = Some (id, s', rest) -> snow_inv s -> clock_ok s clock ->
  snow_inv s' /\ clock_ok s' rest /\ rank s < rank s' /\ start_millsecond s' = start_millsecond s /\
  id = compose TW (last_timestamp s') d w (sequence s') /\
  exists seen, map (millsecond s) clock = seen ++ last_timestamp s' :: map (millsecond s) rest.
Proof.
  intros E Hi Hc. destruct clock as [|r clock]; [done|]. cbn [nextid] in E.
  unfold clock_ok in Hc. cbn [map] in Hc. destruct (sorted_tail _ _ _ Hc) as [Hle Hs].
  unfold snow_inv, rank in *.
  destruct (last_timestamp s =? millsecond s r) eqn:Et; bool_to_prop.
  - rewrite next_seq in E by done. destruct (sequence s =? 2 ^ 12 - 1) eqn:Eq; cbn [Z.eqb] in E.
    + destruct (wait_next_millis s (last_timestamp s) clock) as [[t rest']|] eqn:Ew; [|done]. injection E as <- <- <-.
      destruct (wait_later s _ clock t rest' Ew) as (Hlt & Hs' & seen & Es); [by rewrite <- Et in Hs|].
      cbn [sequence last_timestamp start_millsecond]. split_and!; [lia|lia|exact Hs'|lia|done|done|].
      cbn [map]. rewrite Es. by exists (millsecond s r :: seen).
    + bool_to_prop. rewrite (proj2 (Z.eqb_neq _ 0)) in E by lia. injection E as <- <- <-.
      cbn [sequence last_timestamp start_millsecond]. split_and!; [lia|lia|exact Hs|lia|done|done|].
      by exists [].
  - injection E as <- <- <-. cbn [sequence last_timestamp start_millsecond].
    split_and!; [lia|lia|exact Hs|lia|done|done|by exists []].
Qed.

(** Identifiers are made of times and sequence numbers of growing rank. *)
Lemma nextids_ranks n TW w d : forall s0 clock ids s rest,
  snow_inv s0 -> clock_ok s0 clock -> Forall (in_epoch TW) (map (millsecond s0) clock) ->
  nextids n TW w d s0 clock = Some (ids, s, rest) ->
  exists tqs, ids = map (fun tq => compose TW tq.1 d w tq.2) tqs /\
    StronglySorted (fun a b => a.1 * 2 ^ 12 + a.2 < b.1 * 2 ^ 12 + b.2) tqs /\
    Forall (fun tq => rank s0 < tq.1 * 2 ^ 12 + tq.2 /\ 0 <= tq.2 < 2 ^ 12 /\ in_epoch TW tq.1) tqs.
Proof.
  induction n as [|n IH]; intros s0 clock ids s rest Hi Hc He E; cbn in E.
  { injection E as <- _ _. exists []. split; [done|]. split; constructor. }
  destruct (nextid TW w d s0 clock) as [[[id s1] c1]|] eqn:E1; [|done].
  destruct (nextids n TW w d s1 c1) as [[[ids' s2] c2]|] eqn:E2; [|done]. injection E as <- _ _.
  destruct (nextid_step _ _ _ _ _ _ _ _ E1 Hi Hc) as (Hi1 & Hc1 & Hr & Hst & -> & seen & Es).
  rewrite Es in He. apply Forall_app in He as [_ He]. inversion_clear He as [|? ? Ht He'].
  assert (Hm : map (millsecond s1) c1 = map (millsecond s0) c1) by (unfold millsecond; by rewrite Hst).
  destruct (IH s1 c1 ids' s2 c2 Hi1 Hc1) as (tqs & -> & Hs & Hall); [by rewrite Hm|done|].
  exists ((last_timestamp s1, sequence s1) :: tqs). split_and!; [done| |].
  - constructor; [done|]. eapply Forall_impl; [exact Hall|]. cbn. unfold rank. lia.
  - constructor; [done|]. eapply Forall_impl; [exact Hall|]. cbn. intros tq (? & ? & ?). split; [lia|done].
Qed.

(** * Results *)

(** Identifiers grow: with a steady clock and a worker and data centre in
    range, every sequence of identifiers of one generator is strictly
    increasing, so no identifier is given twice -- also when more than 4096 are
    asked for within one millisecond. *)
Theorem snowflake_increasing n TW w d start clock ids s rest :
  init w d = Some tt ->
  nextids n TW w d (Snowflake_ctor start) clock = Some (ids, s, rest) ->
  clock_ok (Snowflake_ctor start) clock ->
  Forall (fun r => in_epoch TW (start + r)) clock ->
  StronglySorted Z.lt ids.
Proof.
  intros Hinit E Hc He. assert (Hwd : 0 <= w <= MAX_WORKER_ID /\ 0 <= d <= MAX_DATACENTER_ID).
  { unfold init in Hinit. destruct ((MAX_WORKER_ID <? w) || (w <? 0)) eqn:E1; [discriminate|].
    destruct ((MAX_DATACENTER_ID <? d) || (d <? 0)) eqn:E2; [discriminate|]. bool_to_prop. lia. }
  destruct Hwd as [Hw Hd].
  destruct (nextids_ranks n TW w d (Snowflake_ctor start) clock ids s rest) as (tqs & -> & Hsort & Hall); try done.
  { by apply Forall_fmap. }
  clear -Hsort Hall Hw Hd. induction Hsort as [|[t q] tqs _ IH Hlt]; [constructor|]. cbn [map].
  inversion_clear Hall as [|? ? Htq Hall']. destruct Htq as (_ & Hq & Ht). cbn in Hq, Ht.
  constructor; [by apply IH|]. apply Forall_fmap. apply Forall_forall. intros [t' q'] Hin.
  pose proof (proj1 (Forall_forall _ _) Hlt _ Hin) as Hr. cbn in Hr.
  destruct (proj1 (Forall_forall _ _) Hall' _ Hin) as (_ & Hq' & Ht'). cbn in Hq', Ht'. cbn.
  rewrite !compose_sum by done. nia.
Qed.

Lemma snowflake_increasing_witness :
  exists ids s rest, nextids 3 0 1 2 (Snowflake_ctor 1000) [0; 0; 1] = Some (ids, s, rest) /\
    StronglySorted Z.lt ids.
Proof.
  eexists _, _, _. split; [vm_compute; reflexivity|].
  eapply (snowflake_increasing 3 0 1 2 1000 [0; 0; 1]); [reflexivity|vm_compute; reflexivity| |].
  - change (StronglySorted Z.le [-1; 1000; 1000; 1001]).
    repeat (apply SSorted_cons; [|repeat (apply Forall_cons_2; [lia|]); apply Forall_nil_2]). apply SSorted_nil.
  - repeat (apply Forall_cons_2; [unfold in_epoch; lia|]). apply Forall_nil_2.
Defined.

(** The fields can be read back. *)
Lemma compose_fields TW t d w q :
  0 <= w <= MAX_WORKER_ID -> 0 <= d <= MAX_DATACENTER_ID -> 0 <= q < 2 ^ 12 -> in_epoch TW t ->
  let id := compose TW t d w q in
  id / 2 ^ 22 = t - TW /\ (id / 2 ^ 17) mod 32 = d /\ (id / 2 ^ 12) mod 32 = w /\ id mod 2 ^ 12 = q.
Proof.
  intros Hw Hd Hq Ht. cbn zeta. rewrite compose_sum by done.
  change MAX_WORKER_ID with 31 in Hw. change MAX_DATACENTER_ID with 31 in Hd.
  split_and!.
  - symmetry. apply (Z.div_unique _ _ _ (d * 2 ^ 17 + w * 2 ^ 12 + q)); lia.
  - rewrite <- (Z.div_unique ((t - TW) * 2 ^ 22 + d * 2 ^ 17 + w * 2 ^ 12 + q) (2 ^ 17) ((t - TW) * 32 + d) (w * 2 ^ 12 + q)) by lia.
    symmetry. apply (Z.mod_unique _ _ (t - TW)); lia.
  - rewrite <- (Z.div_unique ((t - TW) * 2 ^ 22 + d * 2 ^ 17 + w * 2 ^ 12 + q) (2 ^ 12) ((t - TW) * 1024 + d * 32 + w) q) by lia.
    symmetry. apply (Z.mod_unique _ _ ((t - TW) * 32 + d)); lia.
  - symmetry. apply (Z.mod_unique _ _ ((t - TW) * 1024 + d * 32 + w)); lia.
Qed.
