(* ===== verification/Address.v ===== *)
(** * Socket addresses

    Models [sylar/basic/address.h] and [address.cc]: the four kinds of address
    with their memory images, comparison, network masks, printing, and the
    look-up functions.  The resolver, [getifaddrs], [inet_pton] and [inet_ntop]
    are arguments.  Memory the constructors leave unset is an argument too. *)

From S2P Require Import Prelude Endian CppString.

Definition AF_UNSPEC : Z := 0.
Definition AF_UNIX : Z := 1.
Definition AF_INET : Z := 2.
Definition AF_INET6 : Z := 10.

(** ** Memory layouts *)

(** Fields that the source swaps keep the value they have in memory: [sin_port]
    and [s_addr] are in network order. *)
Record sockaddr_in := mk_in {
  sin_family : Z; sin_port : Z; s_addr : Z; sin_zero : list Z }.
Record sockaddr_in6 := mk_in6 {
  sin6_family : Z; sin6_port : Z; sin6_flowinfo : Z; s6_addr : list Z; sin6_scope_id : Z }.
Record sockaddr_un := mk_un { sun_family : Z; sun_path : list Z }.
Record sockaddr := mk_sa { sa_family : Z; sa_data : list Z }.

(** [offsetof(sockaddr_un, sun_path)] and [sizeof(sun_path) - 1]. *)
Definition PATH_OFFSET : Z := 2.
Definition SUN_PATH : nat := 108.
Definition MAX_PATH_LEN : Z := Z.of_nat SUN_PATH - 1.

Inductive Address :=
  | IPv4Address (m_addr : sockaddr_in)
  | IPv6Address (m_addr : sockaddr_in6)
  | UnixAddress (m_addr : sockaddr_un) (m_addr_size : Z)
  | UnknownAddress (m_addr : sockaddr).

(** The octets behind [getAddr()]. *)
Definition getAddr (a : Address) : list Z :=
  match a with
  | IPv4Address m => le_bytes 2 (sin_family m) ++ le_bytes 2 (sin_port m) ++ le_bytes 4 (s_addr m) ++ sin_zero m
  | IPv6Address m =>
      le_bytes 2 (sin6_family m) ++ le_bytes 2 (sin6_port m) ++ le_bytes 4 (sin6_flowinfo m)
      ++ s6_addr m ++ le_bytes 4 (sin6_scope_id m)
  | UnixAddress m _ => le_bytes 2 (sun_family m) ++ sun_path m
  | UnknownAddress m => le_bytes 2 (sa_family m) ++ sa_data m
  end.

Definition getAddrLen (a : Address) : Z :=
  match a with
  | IPv4Address _ => 16
  | IPv6Address _ => 28
  | UnixAddress _ m_addr_size => m_addr_size
  | UnknownAddress _ => 16
  end.

Definition getFamily (a : Address) : Z := of_le_bytes (take 2 (getAddr a)).

(** ** Comparison *)

(** The sign of [memcmp] on two blocks of the same length. *)
Fixpoint memcmp (a b : list Z) : comparison :=
  match a, b with
  | x :: a, y :: b => match x ?= y with Eq => memcmp a b | c => c end
  | _, _ => Eq
  end.

(** The first [n] octets of an object; [None]: the object is shorter. *)
Definition read_mem (n : Z) (mem : list Z) : option (list Z) :=
  if n <=? zlen mem then Some (take (Z.to_nat n) mem) else None.

(** [operator<]; [None]: an object is read past its end. *)
Definition addr_lt (a b : Address) : option bool :=
  let minLen := if getAddrLen a <? getAddrLen b then getAddrLen a else getAddrLen b in
  x ← read_mem minLen (getAddr a); y ← read_mem minLen (getAddr b);
  Some match memcmp x y with
       | Lt => true
       | Gt => false
       | Eq => getAddrLen a <? getAddrLen b
       end.

(** [operator==]: the result of [memcmp] is used as the condition. *)
Definition addr_eq (a b : Address) : option bool :=
  if getAddrLen a =? getAddrLen b then
    x ← read_mem (getAddrLen a) (getAddr a); y ← read_mem (getAddrLen a) (getAddr b);
    Some (match memcmp x y with Eq => false | _ => true end)
  else Some false.

Definition addr_ne (a b : Address) : option bool := negb <$> addr_eq a b.

(** ** [Create] *)

(** A field of [n] octets at [off]. *)
Definition field (off n : nat) (mem : list Z) : Z := of_le_bytes (take n (drop off mem)).

(** [addr] is the memory behind the pointer, [None] the null pointer.  The result
    is [None] when the copy of the structure reads past the end of the memory;
    the address itself is [None] for [nullptr]. *)
Definition Create (addr : option (list Z)) (path_len : Z) : option (option Address) :=
  match addr with
  | None => Some None
  | Some mem =>
      let family := field 0 2 mem in
      if family =? AF_INET then
        m ← read_mem 16 mem;
        Some (Some (IPv4Address (mk_in (field 0 2 m) (field 2 2 m) (field 4 4 m) (drop 8 m))))
      else if family =? AF_INET6 then
        m ← read_mem 28 mem;
        Some (Some (IPv6Address (mk_in6 (field 0 2 m) (field 2 2 m) (field 4 4 m)
                                   (take 16 (drop 8 m)) (field 24 4 m))))
      else if family =? AF_UNIX then
        m ← read_mem 110 mem;
        Some (Some (UnixAddress (mk_un (field 0 2 m) (drop 2 m)) (u32 (PATH_OFFSET + path_len))))
      else
        m ← read_mem 16 mem;
        Some (Some (UnknownAddress (mk_sa (field 0 2 m) (drop 2 m))))
  end.

(** ** Masks *)

(** The conversion of a [uint32_t] argument to [int]. *)
Definition int_of_u32 (x : Z) : Z := if x <? 2 ^ 31 then x else x - 2 ^ 32.

(** [getMask<T>] for a [T] of [bits] bits. *)
Definition getMask (bits prefix_len : Z) : Z :=
  if bits <=? prefix_len then Z.ones bits
  else if prefix_len <=? 0 then 0
  else wrap bits (Z.ones bits <<< (bits - prefix_len)).

(** [countSetBites]: every round clears the lowest set bit. *)
Fixpoint count_loop (fuel : nat) (value count : Z) : option Z :=
  if value =? 0 then Some count
  else match fuel with
       | O => None
       | S fuel => count_loop fuel (value & (value - 1)) (count + 1)
       end.
Definition countSetBites (bits : nat) (value : Z) : option Z := count_loop bits value 0.

(** ** IPv4 *)

Definition zeros (n : nat) : list Z := replicate n 0.

Definition IPv4Address_default (unset : sockaddr_in) : Address :=
  IPv4Address (mk_in AF_INET (sin_port unset) (s_addr unset) (sin_zero unset)).

Definition in_of (address port : Z) : sockaddr_in :=
  mk_in AF_INET (byteSwapToBigEndian 2 port) (byteSwapToBigEndian 4 address) (zeros 8).

Definition IPv4Address_of (address port : Z) : Address := IPv4Address (in_of address port).

(** [pton] is what [inet_pton] stores, or [None] when it does not return 1. *)
Definition IPv4Address_text (pton : option Z) (port : Z) : Address :=
  IPv4Address (mk_in AF_INET (byteSwapToBigEndian 2 port) (default 0 pton) (zeros 8)).

Definition with_s_addr (m : sockaddr_in) (x : Z) : sockaddr_in :=
  mk_in (sin_family m) (sin_port m) x (sin_zero m).

Definition v4_broadcastAddress (m_addr : sockaddr_in) (prefix_len : Z) : option Address :=
  if 32 <? prefix_len then None
  else Some (IPv4Address (with_s_addr m_addr
         (s_addr m_addr ||| byteSwapToBigEndian 4 (Z.ones 32 ^^ getMask 32 (int_of_u32 prefix_len))))).

Definition v4_networkAddress (m_addr : sockaddr_in) (prefix_len : Z) : option Address :=
  if 32 <? prefix_len then None
  else Some (IPv4Address (with_s_addr m_addr
         (s_addr m_addr & byteSwapToBigEndian 4 (getMask 32 (int_of_u32 prefix_len))))).

Definition v4_subnetMask (prefix_len : Z) : Address :=
  IPv4Address (mk_in AF_INET 0 (byteSwapToBigEndian 4 (getMask 32 (int_of_u32 prefix_len))) (zeros 8)).

Definition v4_insert (m_addr : sockaddr_in) : list Z :=
  let addr := s_addr m_addr in
  let port := NetByteSwapToHostEndian 2 (sin_port m_addr) in
  to_string ((addr >>> 0) & 0xff) ++ str "." ++ to_string ((addr >>> 8) & 0xff) ++ str "."
  ++ to_string ((addr >>> 16) & 0xff) ++ str "." ++ to_string ((addr >>> 24) & 0xff)
  ++ str ":" ++ to_string port.

(** ** IPv6 *)

Definition IPv6Address_default (unset : sockaddr_in6) : Address :=
  IPv6Address (mk_in6 AF_INET6 (sin6_port unset) (sin6_flowinfo unset) (s6_addr unset) (sin6_scope_id unset)).

Definition IPv6Address_text (pton : option (list Z)) (port : Z) : Address :=
  IPv6Address (mk_in6 AF_INET6 (byteSwapToBigEndian 2 port) 0 (default (zeros 16) pton) 0).

(** [addr] points to at least 16 octets. *)
Definition IPv6Address_of (addr : list Z) (port : Z) : Address :=
  IPv6Address (mk_in6 AF_INET6 (byteSwapToBigEndian 2 port) 0 (take 16 addr) 0).

Definition with_s6_addr (m : sockaddr_in6) (x : list Z) : sockaddr_in6 :=
  mk_in6 (sin6_family m) (sin6_port m) (sin6_flowinfo m) x (sin6_scope_id m).

(** [last_block6] and [last_bits] after the clamp. *)
Definition blocks6 (prefix_len : Z) : nat * Z :=
  if 16 <=? prefix_len / 8 then (16%nat, 0) else (Z.to_nat (prefix_len / 8), prefix_len mod 8).

Definition octet6 (m_addr : sockaddr_in6) (i : nat) : Z := default 0 (s6_addr m_addr !! i).

(** The store into the last block: [(x >> last_bits) << last_bits] into a [uint8_t]. *)
Definition last_octet (x last_bits : Z) : Z := u8 ((x >>> last_bits) <<< last_bits).

Definition v6_networkAddress (m_addr : sockaddr_in6) (prefix_len : Z) : Address :=
  let (last_block6, last_bits) := blocks6 prefix_len in
  let out := write_at 0 (take last_block6 (s6_addr m_addr)) (zeros 16) in
  let out := if last_bits =? 0 then out
             else <[last_block6 := last_octet (octet6 m_addr last_block6) last_bits]> out in
  IPv6Address (with_s6_addr m_addr out).

Definition v6_subnetMask (m_addr : sockaddr_in6) (prefix_len : Z) : Address :=
  let (last_block6, last_bits) := blocks6 prefix_len in
  let out := write_at 0 (replicate last_block6 255) (zeros 16) in
  let out := if last_bits =? 0 then out
             else <[last_block6 := last_octet (octet6 m_addr last_block6) last_bits]> out in
  IPv6Address (with_s6_addr m_addr out).

(** [buffer]: what [inet_ntop] leaves in the buffer. *)
Definition v6_insert (buffer : list Z) (m_addr : sockaddr_in6) : list Z :=
  str "[" ++ buffer ++ str "]" ++ str ":" ++ to_string (NetByteSwapToHostEndian 2 (sin6_port m_addr)).

(** ** Ports *)

Definition getPort (a : Address) : option Z :=
  match a with
  | IPv4Address m => Some (NetByteSwapToHostEndian 2 (sin_port m))
  | IPv6Address m => Some (NetByteSwapToHostEndian 2 (sin6_port m))
  | _ => None
  end.

Definition setPort (v : Z) (a : Address) : option Address :=
  match a with
  | IPv4Address m => Some (IPv4Address (mk_in (sin_family m) (byteSwapToBigEndian 2 v) (s_addr m) (sin_zero m)))
  | IPv6Address m =>
      Some (IPv6Address (mk_in6 (sin6_family m) (byteSwapToBigEndian 2 v) (sin6_flowinfo m) (s6_addr m)
                           (sin6_scope_id m)))
  | _ => None
  end.

(** ** Unix and unknown addresses *)

Definition UnixAddress_default (unset : sockaddr_un) (unset_size : Z) : Address :=
  UnixAddress (mk_un AF_UNIX (sun_path unset)) unset_size.

(** The constructor from a path; [None]: [std::logic_error].  [m_addr_size] is
    added to without having been set. *)
Definition UnixAddress_path (path : list Z) (unset_size : Z) : option Address :=
  let path_len := zlen path + 1 in
  let path_len := match path with 0 :: _ => path_len - 1 | _ => path_len end in
  if MAX_PATH_LEN <? path_len then None
  else Some (UnixAddress (mk_un AF_UNIX (write_at 0 (take (Z.to_nat path_len) (path ++ [0])) (zeros SUN_PATH)))
               (u32 (unset_size + (PATH_OFFSET + path_len)))).

Definition setAddrLen (len : Z) (m_addr : sockaddr_un) : Address := UnixAddress m_addr len.

(** A C string at the start of a block; [None]: no terminator in the block. *)
Fixpoint c_string (mem : list Z) : option (list Z) :=
  match mem with
  | [] => None
  | c :: mem => if c =? 0 then Some [] else cons c <$> c_string mem
  end.

(** [insert]; [None]: the path is read past its end. *)
Definition unix_insert (m_addr : sockaddr_un) (m_addr_size : Z) : option (list Z) :=
  if (PATH_OFFSET <? m_addr_size) && (default 0 (sun_path m_addr !! 0%nat) =? 0) then
    app (str "\0") <$> read_mem (m_addr_size - PATH_OFFSET - 1) (drop 1 (sun_path m_addr))
  else c_string (sun_path m_addr).

Definition UnknownAddress_family (family : Z) : Address := UnknownAddress (mk_sa (u16 family) (zeros 14)).

(** [toString]; [buffer] is what [inet_ntop] gives for an IPv6 address. *)
Definition toString (buffer : list Z) (a : Address) : option (list Z) :=
  match a with
  | IPv4Address m => Some (v4_insert m)
  | IPv6Address m => Some (v6_insert buffer m)
  | UnixAddress m size => unix_insert m size
  | UnknownAddress _ => Some []
  end.

(** ** Look-up *)

(** The part of [Lookup] before the resolver: the node and the service, or
    [None] for a bracket that is not closed. *)
Definition split_host (host : list Z) : option (list Z * list Z) :=
  let bracketed :=
    match host with
    | c :: _ => c =? 91                                      (* '[' *)
    | [] => false
    end in
  first ← (if bracketed then
             end_node ← str_find (str "]") host;
             Some (str_substr 1 (Some (end_node - 1)%nat) host,
                   if (end_node + 2 <? length host)%nat then str_substr (end_node + 2) None host else [])
           else Some ([], []));
  match first with
  | ([], service) =>
      let end_node := default (length host) (str_find (str ":") host) in
      Some (str_substr 0 (Some end_node) host,
            if (end_node + 1 <? length host)%nat then str_substr (end_node + 1) None host else service)
  | _ => Some first
  end.

(** One entry of the resolver's list: the memory of [ai_addr] and [ai_addrlen]. *)
Definition addrinfo : Type := list Z * Z.

(** The resolver for a family, a socket type and a protocol; [None]: it failed. *)
Definition resolver : Type := Z -> Z -> Z -> list Z -> list Z -> option (list addrinfo).

(** [Lookup] appends to [result]; it returns [false] when nothing is there.  The
    outer [None]: an entry is shorter than its family says. *)
Definition Lookup (getaddrinfo : resolver) (result : list (option Address)) (host : list Z)
    (family type_ protocol : Z) : option (bool * list (option Address)) :=
  match split_host host with
  | None => Some (false, result)
  | Some (node, service) =>
      match getaddrinfo family type_ protocol node service with
      | None => Some (false, result)
      | Some entries =>
          found ← mapM (fun e : addrinfo => Create (Some e.1) e.2) entries;
          let result := result ++ found in
          Some (negb (zlen result <=? 0), result)
      end
  end.

Definition LookupAny (getaddrinfo : resolver) (host : list Z) (family type_ protocol : Z)
    : option (option Address) :=
  r ← Lookup getaddrinfo [] host family type_ protocol;
  match r with
  | (true, a :: _) => Some a
  | _ => Some None
  end.

Definition is_ip (a : Address) : bool :=
  match a with IPv4Address _ | IPv6Address _ => true | _ => false end.

Fixpoint first_ip (l : list (option Address)) : option Address :=
  match l with
  | [] => None
  | Some a :: l => if is_ip a then Some a else first_ip l
  | None :: l => first_ip l
  end.

Definition LookupAnyIPAddress (getaddrinfo : resolver) (host : list Z) (family type_ protocol : Z)
    : option (option Address) :=
  r ← Lookup getaddrinfo [] host family type_ protocol; Some (first_ip r.2).

(** ** Interfaces *)

(** An entry of [getifaddrs]: [ifa_addr] may be null. *)
Record ifaddrs := mk_ifaddrs { ifa_name : list Z; ifa_addr : option (list Z); ifa_netmask : list Z }.

(** The multimap, its entries in the order of insertion. *)
Definition interface_map : Type := list (list Z * (Address * Z)).

(** The prefix length of an IPv6 mask: the sum over its sixteen octets. *)
Fixpoint count6 (octets : list Z) (prefix_len : Z) : option Z :=
  match octets with
  | [] => Some prefix_len
  | o :: octets => n ← countSetBites 8 o; count6 octets (prefix_len + n)
  end.

(** The prefix length from the mask of an entry. *)
Definition netmask4 (p : ifaddrs) : option Z :=
  m ← read_mem 16 (ifa_netmask p); countSetBites 32 (field 4 4 m).
Definition netmask6 (p : ifaddrs) : option Z :=
  m ← read_mem 28 (ifa_netmask p); count6 (take 16 (drop 8 m)) 0.

(** [if(addr) result.insert(...)] *)
Definition insert_interface (name : list Z) (addr : option Address) (prefix_len : Z) (result : interface_map)
    : interface_map :=
  match addr with Some a => result ++ [(name, (a, prefix_len))] | None => result end.

(** One round of the loop; [None]: a null pointer is followed, or an object is
    read past its end. *)
Definition interface_entry (family : Z) (p : ifaddrs) (result : interface_map) : option interface_map :=
  match ifa_addr p with
  | None => None
  | Some mem =>
      let sa_family := field 0 2 mem in
      if negb (family =? AF_UNSPEC) && negb (sa_family =? family) then Some result
      else if sa_family =? AF_INET then
        addr ← Create (Some mem) 16; prefix_len ← netmask4 p;
        Some (insert_interface (ifa_name p) addr prefix_len result)
      else if sa_family =? AF_INET6 then
        addr ← Create (Some mem) 28; prefix_len ← netmask6 p;
        Some (insert_interface (ifa_name p) addr prefix_len result)
      else Some result
  end.

Fixpoint interface_loop (family : Z) (ps : list ifaddrs) (result : interface_map) : option interface_map :=
  match ps with
  | [] => Some result
  | p :: ps => result ← interface_entry family p result; interface_loop family ps result
  end.

(** [interfaces] is [None] when [getifaddrs] fails. *)
Definition getInterfaceAddress (interfaces : option (list ifaddrs)) (family : Z) (result : interface_map)
    : option (bool * interface_map) :=
  match interfaces with
  | None => Some (false, result)
  | Some ps =>
      result ← interface_loop family ps result;
      Some (negb (match result with [] => true | _ => false end), result)
  end.

(** The overload for one interface; [equal_range] keeps the order of insertion. *)
Definition getInterfaceAddress_named (interfaces : option (list ifaddrs)) (family : Z)
    (interfaceName : list Z) (result : list (Address * Z)) : option (bool * list (Address * Z)) :=
  r ← getInterfaceAddress interfaces family [];
  match r with
  | (false, _) => Some (false, result)
  | (true, all_result) =>
      let result := result ++ map snd (List.filter (fun e => str_eqb e.1 interfaceName) all_result) in
      Some (negb (match result with [] => true | _ => false end), result)
  end.

(** ** Bits and byte order *)

(** A bitwise operation commutes with the swap. *)
Section bitwise.
Context (f : Z -> Z -> Z) (g : bool -> bool -> bool).
Hypothesis f_spec : forall x y i, 0 <= i -> Z.testbit (f x y) i = g (Z.testbit x i) (Z.testbit y i).
Hypothesis g_false : g false false = false.

Lemma f_shiftr x y n : 0 <= n -> f x y >>> n = f (x >>> n) (y >>> n).
Proof.
  intros Hn. apply Z.bits_inj'. intros i Hi.
  by rewrite f_spec, !Z.shiftr_spec, f_spec by lia.
Qed.

Lemma f_octet x y : f x y & 255 = f (x & 255) (y & 255).
Proof.
  change 255 with (Z.ones 8). apply Z.bits_inj'. intros i Hi.
  rewrite Z.land_spec, !f_spec, !Z.land_spec by lia. destruct (decide (i < 8)).
  - rewrite Z.ones_spec_low by lia. by rewrite !andb_true_r.
  - rewrite Z.ones_spec_high by lia. by rewrite !andb_false_r, g_false.
Qed.

Lemma le_bytes_bitwise n x y : le_bytes n (f x y) = zip_with f (le_bytes n x) (le_bytes n y).
Proof.
  revert x y. induction n as [|n IH]; intros x y; [done|]. cbn [le_bytes zip_with].
  by rewrite f_octet, f_shiftr, IH by lia.
Qed.

Lemma of_le_bytes_bitwise a b :
  bytes_ok a -> bytes_ok b -> length a = length b ->
  of_le_bytes (zip_with f a b) = f (of_le_bytes a) (of_le_bytes b).
Proof.
  intros Ha. revert b. induction Ha as [|x a Hx Ha IH]; intros b Hb Hl.
  { destruct b; [|done]. cbn. apply Z.bits_inj'. intros i Hi.
    by rewrite f_spec, Z.bits_0, g_false by lia. }
  destruct b as [|y b]; [done|]. injection Hl as Hl. inversion_clear Hb as [|? ? Hy Hb'].
  cbn [zip_with of_le_bytes]. rewrite IH by done. apply Z.bits_inj'. intros i Hi.
  rewrite f_spec, !Z.lor_spec, f_spec by lia. destruct (decide (i < 8)).
  - rewrite !Z.shiftl_spec_low by lia. by rewrite !orb_false_r.
  - rewrite !Z.shiftl_spec, f_spec by lia.
    assert (H8 : forall z, byte_ok z -> Z.testbit z i = false).
    { intros z Hz. rewrite <- (Z.mod_small z (2 ^ 8)) by done. by rewrite Z.mod_pow2_bits_high by lia. }
    by rewrite (H8 x), (H8 y), g_false by done.
Qed.

Lemma reverse_zip_with (a b : list Z) :
  length a = length b -> reverse (zip_with f a b) = zip_with f (reverse a) (reverse b).
Proof.
  revert b. induction a as [|x a IH]; intros [|y b] Hl; [done..|]. injection Hl as Hl.
  cbn [zip_with]. rewrite !reverse_cons, IH by done.
  by rewrite zip_with_app by (rewrite !length_reverse; done).
Qed.

Lemma byteSwap_bitwise n x y : byteSwap n (f x y) = f (byteSwap n x) (byteSwap n y).
Proof.
  unfold byteSwap. rewrite le_bytes_bitwise, reverse_zip_with, of_le_bytes_bitwise;
    rewrite ?length_reverse, ?length_le_bytes; auto with sylar.
Qed.
End bitwise.

Lemma byteSwap_land n x y : byteSwap n (x & y) = byteSwap n x & byteSwap n y.
Proof. apply (byteSwap_bitwise Z.land andb); [intros; apply Z.land_spec|done]. Qed.

Lemma byteSwap_lor n x y : byteSwap n (x ||| y) = byteSwap n x ||| byteSwap n y.
Proof. apply (byteSwap_bitwise Z.lor orb); [intros; apply Z.lor_spec|done]. Qed.

(** ** Masks *)

Lemma getMask_ldiff p : 0 <= p <= 32 -> getMask 32 (int_of_u32 p) = Z.ldiff (Z.ones 32) (Z.ones (32 - p)).
Proof.
  intros Hp. apply (below_decide 33 (fun p => getMask 32 (int_of_u32 p) = Z.ldiff (Z.ones 32) (Z.ones (32 - p))));
    [by vm_compute|lia].
Qed.

Lemma getMask_lnot p : 0 <= p <= 32 -> Z.ones 32 ^^ getMask 32 (int_of_u32 p) = Z.ones (32 - p).
Proof.
  intros Hp. apply (below_decide 33 (fun p => Z.ones 32 ^^ getMask 32 (int_of_u32 p) = Z.ones (32 - p)));
    [by vm_compute|lia].
Qed.

Lemma getMask_value p : 0 <= p <= 32 -> getMask 32 (int_of_u32 p) = 2 ^ 32 - 2 ^ (32 - p).
Proof.
  intros Hp. apply (below_decide 33 (fun p => getMask 32 (int_of_u32 p) = 2 ^ 32 - 2 ^ (32 - p)));
    [by vm_compute|lia].
Qed.

Lemma land_mask a k : 0 <= a < 2 ^ 32 -> 0 <= k -> a & Z.ldiff (Z.ones 32) (Z.ones k) = a / 2 ^ k * 2 ^ k.
Proof.
  intros Ha Hk. rewrite Z.ldiff_land, Z.land_assoc, land_ones_small, <- Z.ldiff_land by (done || lia).
  by rewrite Z.ldiff_ones_r, Z.shiftl_mul_pow2, Z.shiftr_div_pow2 by lia.
Qed.

Lemma lor_ones a k : 0 <= k -> a ||| Z.ones k = a / 2 ^ k * 2 ^ k + (2 ^ k - 1).
Proof.
  intros Hk. pose proof (Z.pow_pos_nonneg 2 k ltac:(lia) Hk).
  rewrite <- (lor_add_disjoint (a / 2 ^ k)) by lia.
  rewrite <- Z.shiftr_div_pow2, <- Z.ldiff_ones_r by lia.
  replace (2 ^ k - 1) with (Z.ones k) by (rewrite Z.ones_equiv; lia).
  apply Z.bits_inj'. intros i Hi. rewrite !Z.lor_spec, Z.ldiff_spec.
  by destruct (Z.testbit a i), (Z.testbit (Z.ones k) i).
Qed.

(** ** Counting bits *)

Fixpoint pos_pop (p : positive) : Z :=
  match p with xH => 1 | xO p => pos_pop p | xI p => 1 + pos_pop p end.
Definition popcount (x : Z) : Z := match x with Zpos p => pos_pop p | _ => 0 end.

Lemma popcount_double x : 0 <= x -> popcount (2 * x) = popcount x.
Proof. by destruct x. Qed.

Lemma land_double x y : (2 * x) & (2 * y) = 2 * (x & y).
Proof.
  assert (E : forall z, 2 * z = z <<< 1) by (intros; rewrite Z.shiftl_mul_pow2; lia).
  by rewrite !E, Z.shiftl_land.
Qed.

(** [x & (x - 1)] has one bit less. *)
Lemma popcount_clear p : 0 <= Zpos p & (Zpos p - 1) < Zpos p /\
  popcount (Zpos p & (Zpos p - 1)) = pos_pop p - 1.
Proof.
  induction p as [p IH|p IH|]; [| |done].
  - assert (Zpos p~1 & (Zpos p~1 - 1) = Zpos p~0) as ->; [|split; [lia|cbn [popcount pos_pop]; lia]].
    replace (Zpos p~1 - 1) with (Zpos p~0) by lia.
    apply Z.bits_inj'. intros i Hi. rewrite Z.land_spec.
    destruct (decide (i = 0)) as [->|]; [done|].
    replace i with (Z.succ (i - 1)) by lia.
    change (Zpos p~1) with (2 * Zpos p + 1). change (Zpos p~0) with (2 * Zpos p).
    rewrite Z.testbit_odd_succ, Z.testbit_even_succ by lia. by destruct (Z.testbit _ _).
  - destruct IH as [Hr Hp].
    assert (Zpos p~0 & (Zpos p~0 - 1) = 2 * (Zpos p & (Zpos p - 1))) as ->.
    { replace (Zpos p~0 - 1) with (2 * (Zpos p - 1) + 1) by lia. change (Zpos p~0) with (2 * Zpos p).
      rewrite <- land_double. apply Z.bits_inj'. intros i Hi. rewrite !Z.land_spec.
      destruct (decide (i = 0)) as [->|]; [by rewrite !Z.testbit_even_0|].
      replace i with (Z.succ (i - 1)) by lia.
      by rewrite Z.testbit_odd_succ, !Z.testbit_even_succ by lia. }
    rewrite popcount_double by lia. rewrite Hp. split; [lia|done].
Qed.

Lemma popcount_bound bits x : 0 <= x < 2 ^ Z.of_nat bits -> 0 <= popcount x <= Z.of_nat bits.
Proof.
  revert x. induction bits as [|bits IH]; intros x Hx.
  { change (2 ^ Z.of_nat 0) with 1 in Hx. assert (x = 0) as -> by lia. done. }
  replace (Z.of_nat (S bits)) with (Z.succ (Z.of_nat bits)) in * by lia. rewrite Z.pow_succ_r in Hx by lia.
  destruct x as [|p|p]; cbn; [lia| |lia].
  destruct p as [p|p|]; cbn [pos_pop]; [| |lia]; specialize (IH (Zpos p)); cbn [popcount] in IH; lia.
Qed.

Lemma count_loop_spec fuel x count :
  0 <= x -> popcount x <= Z.of_nat fuel -> count_loop fuel x count = Some (count + popcount x).
Proof.
  revert x count. induction fuel as [|fuel IH]; intros x count Hx Hf; cbn [count_loop].
  - destruct (x =? 0) eqn:E; bool_to_prop; [subst; by rewrite Z.add_0_r|].
    destruct x as [|p|]; [done| |lia]. cbn in Hf.
    assert (0 < pos_pop p) by (clear; induction p; cbn; lia). lia.
  - destruct (x =? 0) eqn:E; bool_to_prop; [subst; by rewrite Z.add_0_r|].
    destruct x as [|p|]; [done| |lia]. destruct (popcount_clear p) as [Hr Hp].
    cbn [popcount] in *. rewrite IH, Hp by lia. f_equal. lia.
Qed.

(** The loop ends within [bits] rounds and counts the set bits. *)
Lemma countSetBites_spec bits x :
  0 <= x < 2 ^ Z.of_nat bits -> countSetBites bits x = Some (popcount x).
Proof.
  intros Hx. unfold countSetBites. rewrite count_loop_spec; [done|lia|].
  by apply popcount_bound.
Qed.

(** ** Memory images *)

Definition addr_wf (a : Address) : Prop :=
  match a with
  | IPv4Address m =>
      sin_family m = AF_INET /\ 0 <= sin_port m < 2 ^ 16 /\ 0 <= s_addr m < 2 ^ 32 /\ length (sin_zero m) = 8%nat
  | IPv6Address m =>
      sin6_family m = AF_INET6 /\ 0 <= sin6_port m < 2 ^ 16 /\ 0 <= sin6_flowinfo m < 2 ^ 32 /\
      length (s6_addr m) = 16%nat /\ 0 <= sin6_scope_id m < 2 ^ 32
  | UnixAddress m size => sun_family m = AF_UNIX /\ length (sun_path m) = SUN_PATH /\ 0 <= size <= 110
  | UnknownAddress m =>
      0 <= sa_family m < 2 ^ 16 /\ sa_family m <> AF_INET /\ sa_family m <> AF_INET6 /\
      sa_family m <> AF_UNIX /\ length (sa_data m) = 14%nat
  end.

#[global] Instance addr_wf_dec a : Decision (addr_wf a).
Proof. destruct a; cbn; apply _. Defined.

Lemma field_here (n : nat) x post :
  0 <= x < 2 ^ (8 * Z.of_nat n) -> field 0 n (le_bytes n x ++ post) = x.
Proof.
  intros Hx. unfold field. rewrite drop_0, take_app_length' by (by rewrite length_le_bytes).
  by apply of_le_bytes_le_bytes.
Qed.

Lemma field_skip k j n pre post : length pre = k -> field (k + j) n (pre ++ post) = field j n post.
Proof. intros <-. unfold field. by rewrite drop_app_add. Qed.

Lemma read_mem_all mem n : zlen mem = n -> read_mem n mem = Some mem.
Proof.
  intros <-. unfold read_mem. rewrite Z.leb_refl. f_equal. apply take_ge. unfold zlen. lia.
Qed.

Lemma zlen_getAddr a :
  addr_wf a -> zlen (getAddr a) = match a with IPv6Address _ => 28 | UnixAddress _ _ => 110 | _ => 16 end.
Proof.
  unfold zlen. destruct a as [m|m|m sz|m]; cbn [addr_wf getAddr];
    rewrite !length_app, ?length_le_bytes; intros; destruct_and?; unfold SUN_PATH in *; lia.
Qed.

Ltac fields :=
  repeat first
    [ rewrite field_here by (unfold AF_INET, AF_INET6, AF_UNIX; cbn; lia)
    | rewrite (field_skip 2 0) by apply length_le_bytes
    | rewrite (field_skip 2 2) by apply length_le_bytes
    | rewrite (field_skip 2 22) by apply length_le_bytes
    | rewrite (field_skip 2 20) by apply length_le_bytes
    | rewrite (field_skip 4 16) by apply length_le_bytes
    | rewrite (field_skip 16 0) by done ].

(** ** Order *)

(** The octets that count. *)
Definition image (a : Address) : list Z := take (Z.to_nat (getAddrLen a)) (getAddr a).

Lemma lex_memcmp a b :
  lex a b = match memcmp a b with Eq => (length a ?= length b)%nat | c => c end.
Proof.
  revert b. induction a as [|x a IH]; intros [|y b]; cbn; [done..|]. rewrite IH. by destruct (x ?= y).
Qed.

Lemma memcmp_take n a b :
  (min (length a) (length b) <= n)%nat -> memcmp (take n a) (take n b) = memcmp a b.
Proof.
  revert a b. induction n as [|n IH]; intros [|x a] [|y b] Hn; cbn in *; try done; try lia.
  rewrite IH by lia. done.
Qed.

Definition readable (a : Address) : Prop := 0 <= getAddrLen a <= zlen (getAddr a).

#[global] Instance readable_dec a : Decision (readable a).
Proof. unfold readable. apply _. Defined.

Lemma wf_readable a : addr_wf a -> readable a.
Proof.
  intros H. pose proof (zlen_getAddr a H) as E. unfold readable. rewrite E.
  destruct a; cbn in *; lia.
Qed.

Lemma length_image a : readable a -> length (image a) = Z.to_nat (getAddrLen a).
Proof. intros [H1 H2]. unfold image, zlen in *. rewrite length_take. lia. Qed.

Lemma read_image n a :
  readable a -> 0 <= n <= getAddrLen a -> read_mem n (getAddr a) = Some (take (Z.to_nat n) (image a)).
Proof.
  intros [H1 H2] Hn. unfold read_mem. rewrite (proj2 (Z.leb_le _ _)) by lia.
  unfold image. rewrite take_take. do 2 f_equal. lia.
Qed.

(** [operator<] is the lexicographic order of the images. *)
Lemma addr_lt_lex a b :
  readable a -> readable b ->
  addr_lt a b = Some (match lex (image a) (image b) with Lt => true | _ => false end).
Proof.
  intros Ha Hb. unfold addr_lt. cbn zeta.
  set (n := if getAddrLen a <? getAddrLen b then getAddrLen a else getAddrLen b).
  assert (Hn : 0 <= n <= getAddrLen a /\ n <= getAddrLen b /\ (n = getAddrLen a \/ n = getAddrLen b)).
  { destruct Ha, Hb. unfold n. destruct (_ <? _) eqn:E; bool_to_prop; lia. }
  pose proof (length_image a Ha). pose proof (length_image b Hb).
  rewrite !read_image by (done || lia). cbn [mbind option_bind].
  rewrite memcmp_take, lex_memcmp by lia. destruct (memcmp (image a) (image b)); [|done..].
  f_equal. destruct Ha, Hb. rewrite length_image, length_image by done.
  destruct (Nat.compare_spec (Z.to_nat (getAddrLen a)) (Z.to_nat (getAddrLen b)));
    destruct (_ <? _) eqn:E; bool_to_prop; (done || lia).
Qed.

Lemma addr_eq_lex a b :
  readable a -> readable b ->
  addr_eq a b = Some ((getAddrLen a =? getAddrLen b) && negb (bool_decide (image a = image b))).
Proof.
  intros Ha Hb. unfold addr_eq. destruct (_ =? _) eqn:E; [|done]. bool_to_prop.
  pose proof (length_image a Ha). pose proof (length_image b Hb). destruct Ha, Hb.
  rewrite E, read_image, <- E, read_image by (unfold readable; lia). cbn [mbind option_bind andb].
  rewrite memcmp_take by lia. f_equal.
  pose proof (lex_memcmp (image a) (image b)) as L. rewrite (proj2 (Nat.compare_eq_iff _ _)) in L by lia.
  case_bool_decide as D.
  - rewrite D, lex_refl in L. rewrite D. destruct (memcmp (image b) (image b)); done.
  - destruct (memcmp (image a) (image b)); [|done..]. by apply lex_Eq in L.
Qed.

(** * Results *)

(** Subnets of an IPv4 address: for every prefix length up to 32 the network
    address is the address rounded down to a multiple of the block size, the
    broadcast address is the last of that block, both with the port kept, and the
    mask has exactly the leading ones; a longer prefix gives no address. *)
Theorem ipv4_subnet a port p :
  0 <= a < 2 ^ 32 -> 0 <= p ->
  let size := 2 ^ (32 - p) in
  (p <= 32 ->
    v4_networkAddress (in_of a port) p = Some (IPv4Address_of (a / size * size) port) /\
    v4_broadcastAddress (in_of a port) p = Some (IPv4Address_of (a / size * size + (size - 1)) port) /\
    v4_subnetMask p = IPv4Address_of (2 ^ 32 - size) 0) /\
  (32 < p -> v4_networkAddress (in_of a port) p = None /\ v4_broadcastAddress (in_of a port) p = None).
Proof.
  intros Ha Hp size. unfold v4_networkAddress, v4_broadcastAddress. split; intros H.
  - rewrite (proj2 (Z.ltb_ge 32 p)) by lia.
    unfold v4_subnetMask, IPv4Address_of, in_of, with_s_addr, byteSwapToBigEndian. cbn [s_addr sin_family sin_port sin_zero].
    rewrite <- byteSwap_land, <- byteSwap_lor. split_and!.
    + by rewrite getMask_ldiff, land_mask by lia.
    + by rewrite getMask_lnot, lor_ones by lia.
    + by rewrite getMask_value by lia.
  - by rewrite (proj2 (Z.ltb_lt 32 p)) by lia.
Qed.

Lemma ipv4_subnet_witness :
  v4_networkAddress (in_of 0xC0A80A37 80) 20 = Some (IPv4Address_of 0xC0A80000 80) /\
  v4_broadcastAddress (in_of 0xC0A80A37 80) 20 = Some (IPv4Address_of 0xC0A80FFF 80) /\
  v4_subnetMask 20 = IPv4Address_of 0xFFFFF000 0.
Proof. apply (proj1 (ipv4_subnet 0xC0A80A37 80 20 ltac:(lia) ltac:(lia))). lia. Defined.

(** An address survives its memory image: [Create] on the octets of a well-formed
    address gives the address back (for a Unix address, with the path length that
    belongs to its size). *)
Lemma create_getAddr a path_len :
  addr_wf a -> (forall m size, a = UnixAddress m size -> path_len = size - PATH_OFFSET) ->
  Create (Some (getAddr a)) path_len = Some (Some a).
Proof.
  intros Hwf Hlen. pose proof (zlen_getAddr a Hwf) as Hz. unfold Create. cbn zeta.
  destruct a as [m|m|m size|m]; destruct m; cbn [getAddr] in *; cbn in Hwf; destruct_and? Hwf; subst;
    cbn [sin_family sin_port s_addr sin_zero sin6_family sin6_port sin6_flowinfo s6_addr sin6_scope_id
         sun_family sun_path sa_family sa_data] in *; fields.
  - rewrite Z.eqb_refl, read_mem_all by done. cbn [mbind option_bind]. fields. done.
  - rewrite (proj2 (Z.eqb_neq _ _)), Z.eqb_refl, read_mem_all by done. cbn [mbind option_bind]. fields.
    rewrite <- (app_nil_r (le_bytes 4 sin6_scope_id0)) at 2. rewrite field_here by (cbn; lia).
    do 4 f_equal. by apply take_app_length'.
  - rewrite !(proj2 (Z.eqb_neq AF_UNIX _)), Z.eqb_refl, read_mem_all by done. cbn [mbind option_bind]. fields.
    rewrite (Hlen _ _ eq_refl), Zplus_minus, wrap_small by lia. done.
  - rewrite !(proj2 (Z.eqb_neq sa_family0 _)), read_mem_all by done. cbn [mbind option_bind]. fields. done.
Qed.

Lemma create_getAddr_witness :
  Create (Some (getAddr (IPv4Address_of 0x7F000001 8080))) 0 = Some (Some (IPv4Address_of 0x7F000001 8080)).
Proof. apply create_getAddr; [decide_now|done]. Defined.

(** [operator<] orders addresses: on addresses that can be read it is a strict
    total order up to the octets that count. *)
Theorem addr_lt_total_order a b c :
  readable a -> readable b -> readable c ->
  addr_lt a a = Some false /\
  (addr_lt a b = Some true -> addr_lt b c = Some true -> addr_lt a c = Some true) /\
  (addr_lt a b = Some true -> addr_lt b a = Some false) /\
  (addr_lt a b = Some false -> addr_lt b a = Some false -> image a = image b).
Proof.
  intros Ha Hb Hc. rewrite !addr_lt_lex, lex_refl, (lex_opp (image a) (image b)) by done. split_and!; [done| | |].
  - destruct (lex (image a) (image b)) eqn:E1, (lex (image b) (image c)) eqn:E2; try done.
    by rewrite (lex_trans _ _ _ E1 E2).
  - by destruct (lex (image a) (image b)).
  - destruct (lex (image a) (image b)) eqn:E; try done. intros _ _. by apply lex_Eq.
Qed.

Lemma addr_lt_total_order_witness :
  let a := IPv4Address_of 0x0A000001 80 in
  let b := IPv4Address_of 0x0A000002 80 in
  let c := IPv4Address_of 0x0A000002 81 in
  addr_lt a b = Some true /\ addr_lt b c = Some true /\ addr_lt a c = Some true.
Proof.
  intros a b c.
  destruct (addr_lt_total_order a b c) as (_ & H & _); [decide_now..|]. split_and!; [done..|].
  by apply H.
Defined.

(** [operator==] is inverted: it holds exactly for addresses of the same length
    whose octets differ, so that no address equals itself and [operator!=] holds
    for two copies of one address. *)
Theorem addr_eq_inverted a b :
  readable a -> readable b ->
  (addr_eq a b = Some true <-> getAddrLen a = getAddrLen b /\ image a <> image b) /\
  addr_eq a a = Some false /\ addr_ne a a = Some true.
Proof.
  intros Ha Hb. unfold addr_ne. rewrite !addr_eq_lex by done.
  rewrite (bool_decide_eq_true_2 (image a = image a)), andb_false_r by done.
  split; [|done]. case_bool_decide; destruct (_ =? _) eqn:E; bool_to_prop; split; intros; destruct_and?; congruence || done.
Qed.

Lemma addr_eq_inverted_witness :
  addr_eq (IPv4Address_of 0x7F000001 80) (IPv4Address_of 0x7F000001 80) = Some false.
Proof. apply (addr_eq_inverted _ (IPv4Address_of 0x7F000001 80)); decide_now. Defined.

(** ** IPv6 prefixes *)

Lemma length_write0 (xs : list Z) n : (length xs <= n)%nat -> length (write_at 0 xs (zeros n)) = n.
Proof. intros H. unfold zeros. rewrite length_write_at; rewrite length_replicate; lia. Qed.

Lemma lookup_write0 (xs : list Z) n i :
  (length xs <= n)%nat -> (i < n)%nat ->
  write_at 0 xs (zeros n) !! i = Some (if decide (i < length xs)%nat then default 0 (xs !! i) else 0).
Proof.
  intros Hl Hi. unfold write_at, zeros. rewrite take_0, app_nil_l. cbn [Nat.add].
  destruct (decide (i < length xs)%nat) as [H|H].
  - rewrite lookup_app_l by done. destruct (lookup_lt_is_Some_2 xs i H) as [x E]. by rewrite E.
  - rewrite lookup_app_r, lookup_drop by lia. apply lookup_replicate_2. lia.
Qed.

Lemma last_octet_value x r : byte_ok x -> 0 <= r < 8 -> last_octet x r = x / 2 ^ r * 2 ^ r.
Proof.
  intros [Hx1 Hx2] Hr. unfold last_octet. rewrite Z.shiftl_mul_pow2, Z.shiftr_div_pow2 by lia.
  pose proof (Z.pow_pos_nonneg 2 r). pose proof (Z.mul_div_le x (2 ^ r)).
  assert (0 <= x / 2 ^ r) by (apply Z.div_pos; lia). apply wrap_small. nia.
Qed.

(** The octets of an IPv6 network address. *)
Lemma v6_network_octets m p i :
  length (s6_addr m) = 16%nat -> bytes_ok (s6_addr m) -> 0 <= p <= 128 -> (i < 16)%nat ->
  exists o, v6_networkAddress m p = IPv6Address (with_s6_addr m o) /\ length o = 16%nat /\
  let x := octet6 m i in
  let r := p mod 8 in
  o !! i = Some (if decide (Z.of_nat i < p / 8) then x
                 else if decide (Z.of_nat i = p / 8 /\ r <> 0) then x / 2 ^ r * 2 ^ r else 0).
Proof.
  intros Hl Hok Hp Hi. unfold v6_networkAddress, blocks6.
  assert (Hd : 0 <= p / 8 <= 16) by (split; [apply Z.div_pos; lia|apply Z.div_le_upper_bound; lia]).
  set (xs := fun b => take b (s6_addr m)).
  assert (Hx : forall b, (b <= 16)%nat -> length (xs b) = b) by (intros; unfold xs; rewrite length_take; lia).
  assert (Hxi : forall b, (i < b)%nat -> xs b !! i = s6_addr m !! i) by (intros; unfold xs; by rewrite lookup_take_lt).
  destruct (16 <=? p / 8) eqn:E; bool_to_prop.
  - assert (p = 128) as -> by (pose proof (Z.div_mod p 8); pose proof (Z.mod_pos_bound p 8); lia).
    exists (write_at 0 (xs 16%nat) (zeros 16)). split; [done|].
    rewrite length_write0 by (rewrite Hx; lia). split; [done|]. cbn zeta.
    rewrite lookup_write0 by (rewrite ?Hx; lia). rewrite Hx, Hxi by lia.
    rewrite !decide_True by (change (128 / 8) with 16; lia). done.
  - cbv beta iota zeta. set (b := Z.to_nat (p / 8)). fold (xs b). destruct (p mod 8 =? 0) eqn:R; bool_to_prop.
    + eexists. split; [done|]. rewrite length_write0 by (rewrite Hx; lia). split; [done|]. cbn zeta.
      rewrite lookup_write0 by (rewrite ?Hx; lia). rewrite Hx by lia.
      destruct (decide (i < b)%nat); [rewrite decide_True, Hxi by lia; done|].
      by rewrite decide_False, decide_False by lia.
    + eexists. split; [done|]. rewrite length_insert, length_write0 by (rewrite Hx; lia). split; [done|]. cbn zeta.
      destruct (decide (i = b)) as [->|Hne].
      * rewrite list_lookup_insert_eq by (rewrite length_write0; rewrite ?Hx; lia).
        rewrite decide_False, decide_True by lia. f_equal. apply last_octet_value; [|apply Z.mod_pos_bound; lia].
        unfold octet6. destruct (lookup_lt_is_Some_2 (s6_addr m) b) as [x Ex]; [lia|].
        rewrite Ex. by apply (Forall_lookup_1 _ _ _ _ Hok Ex).
      * rewrite list_lookup_insert_ne by done. rewrite lookup_write0 by (rewrite ?Hx; lia). rewrite Hx by lia.
        destruct (decide (i < b)%nat); [rewrite decide_True, Hxi by lia; done|].
        by rewrite decide_False, decide_False by lia.
Qed.

(** ** The mask of an interface *)

Lemma popcount_mask p : 0 <= p <= 32 -> popcount (byteSwap 4 (getMask 32 (int_of_u32 p))) = p.
Proof.
  intros Hp. apply (below_decide 33 (fun p => popcount (byteSwap 4 (getMask 32 (int_of_u32 p))) = p));
    [by vm_compute|lia].
Qed.

Lemma field_s_addr m : addr_wf (IPv4Address m) -> field 4 4 (getAddr (IPv4Address m)) = s_addr m.
Proof.
  intros (H1 & H2 & H3 & H4). cbn [getAddr]. rewrite (field_skip 2 2), (field_skip 2 0) by apply length_le_bytes.
  by apply field_here.
Qed.

(** ** Hosts *)

Lemma substr_node (node rest : list Z) : str_substr 0 (Some (length node)) (node ++ rest) = node.
Proof. unfold str_substr. rewrite drop_0. by apply take_app_length'. Qed.

Lemma drop_guarded k (host : list Z) : (if (k <? length host)%nat then str_substr k None host else []) = drop k host.
Proof. unfold str_substr. destruct (Nat.ltb_spec k (length host)); [done|]. by rewrite drop_ge. Qed.

Definition no_bracket (host : list Z) : Prop := match host with c :: _ => c <> 91 | [] => True end.

Lemma split_plain host :
  no_bracket host ->
  let end_node := default (length host) (str_find (str ":") host) in
  split_host host = Some (str_substr 0 (Some end_node) host, drop (end_node + 1) host).
Proof.
  intros Hb end_node. rewrite <- drop_guarded. unfold split_host. destruct host as [|c host]; [done|]. cbn in Hb.
  by rewrite (proj2 (Z.eqb_neq c 91) Hb).
Qed.

Lemma split_bracket node rest :
  node <> [] -> 93 ∉ node -> split_host ((91 :: node) ++ 93 :: rest) = Some (node, drop 1 rest).
Proof.
  intros Hn Hc. unfold split_host. change (str "]") with [93].
  rewrite str_find_char by (by rewrite not_elem_of_cons). cbn [mbind option_bind].
  rewrite drop_guarded, drop_app_add. cbn [app]. change (91 =? 91) with true. cbv iota. cbn [mbind option_bind].
  cbn [length drop str_substr]. rewrite Nat.sub_succ, Nat.sub_0_r, drop_0, take_app_length' by done.
  by destruct node.
Qed.

(** IPv6 network addresses: every octet before the prefix's last one is kept, the
    octets after it are cleared, and the last one loses its [p mod 8] low bits.
    So the result is the network for the prefix lengths whose remainder is 0 or 4,
    and for no other remainder when the octet's bits are set: the network of
    [p mod 8] leading bits would drop the [8 - p mod 8] low bits. *)
Theorem v6_network_spec m p :
  length (s6_addr m) = 16%nat -> bytes_ok (s6_addr m) -> 0 <= p <= 128 ->
  exists o, v6_networkAddress m p = IPv6Address (with_s6_addr m o) /\ length o = 16%nat /\
  (forall i, (i < 16)%nat -> let x := octet6 m i in
    let kept := Z.min 8 (Z.max 0 (p - 8 * Z.of_nat i)) in
    (kept = 0 \/ kept = 4 \/ kept = 8 -> o !! i = Some (x / 2 ^ (8 - kept) * 2 ^ (8 - kept))) /\
    (0 < kept < 8 -> kept <> 4 -> x = 255 -> o !! i <> Some (x / 2 ^ (8 - kept) * 2 ^ (8 - kept)))).
Proof.
  intros Hl Hok Hp. destruct (v6_network_octets m p 0 Hl Hok Hp) as (o & Ho & Hlo & _); [lia|].
  exists o. split_and!; [done..|]. intros i Hi x kept.
  destruct (v6_network_octets m p i Hl Hok Hp Hi) as (o' & Ho' & _ & H). rewrite Ho in Ho'.
  injection Ho' as <-. fold x in H. cbn zeta in H. rewrite H. clear H.
  assert (Hx : 0 <= x < 256).
  { unfold x, octet6. destruct (lookup_lt_is_Some_2 (s6_addr m) i) as [y E]; [lia|].
    rewrite E. apply (Forall_lookup_1 _ _ _ _ Hok E). }
  pose proof (Z.div_mod p 8 ltac:(lia)) as Hdm. pose proof (Z.mod_pos_bound p 8 ltac:(lia)) as Hm.
  destruct (decide (Z.of_nat i < p / 8)) as [H1|H1].
  { assert (kept = 8) as -> by lia. split; [|lia]. intros _. f_equal. change (8 - 8) with 0.
    rewrite Z.pow_0_r, Z.div_1_r. lia. }
  destruct (decide _) as [[H2 H3]|H2].
  { assert (kept = p mod 8) as -> by lia. split.
    - intros [?|[->|?]]; [lia|done|lia].
    - intros Hk H4 ->. assert (p mod 8 = 1 \/ p mod 8 = 2 \/ p mod 8 = 3 \/ p mod 8 = 5 \/ p mod 8 = 6 \/ p mod 8 = 7)
        as [->|[->|[->|[->|[->| ->]]]]] by lia; done. }
  assert (kept = 0) as -> by lia. split; [|lia]. intros _. f_equal.
  change (2 ^ (8 - 0)) with 256. by rewrite Z.div_small by lia.
Qed.

(** [feff::] with prefix 10: the network is [fec0::], the code gives [fefc::]. *)
Lemma v6_network_spec_witness :
  exists o, v6_networkAddress (mk_in6 AF_INET6 0 0 ([0xfe; 0xff] ++ zeros 14) 0) 10 =
    IPv6Address (with_s6_addr (mk_in6 AF_INET6 0 0 ([0xfe; 0xff] ++ zeros 14) 0) o) /\
    o !! 0%nat = Some 0xfe /\ o !! 1%nat <> Some 0xc0.
Proof.
  destruct (v6_network_spec (mk_in6 AF_INET6 0 0 ([0xfe; 0xff] ++ zeros 14) 0) 10) as (o & Ho & _ & H);
    [done|decide_now|lia|].
  exists o. split_and!; [done| |].
  - apply (proj1 (H 0%nat ltac:(lia))). right. by right.
  - by apply (proj2 (H 1%nat ltac:(lia))).
Defined.

Lemma field_family x : addr_wf (IPv4Address x) -> field 0 2 (getAddr (IPv4Address x)) = AF_INET.
Proof. intros [Hf _]. cbn [getAddr]. rewrite Hf. by apply field_here. Qed.

Lemma count_s_addr m :
  addr_wf (IPv4Address m) -> countSetBites 32 (field 4 4 (getAddr (IPv4Address m))) = Some (popcount (s_addr m)).
Proof.
  intros Hm. rewrite field_s_addr by done. destruct Hm as (_ & _ & Hm & _). by apply countSetBites_spec.
Qed.

(** One IPv4 entry, from what its parts give. *)
Lemma interface_entry_v4 p mem a n result :
  ifa_addr p = Some mem -> field 0 2 mem = AF_INET -> Create (Some mem) 16 = Some (Some a) ->
  netmask4 p = Some n ->
  interface_entry AF_UNSPEC p result = Some (result ++ [(ifa_name p, (a, n))]).
Proof. intros H1 H2 H3 H4. unfold interface_entry. by rewrite H1, H2, !Z.eqb_refl, H3, H4. Qed.

Lemma netmask4_count p nm : 
  addr_wf (IPv4Address nm) -> ifa_netmask p = getAddr (IPv4Address nm) -> netmask4 p = Some (popcount (s_addr nm)).
Proof.
  intros Hm E. unfold netmask4. rewrite E, read_mem_all by (by rewrite zlen_getAddr).
  by apply count_s_addr.
Qed.

Lemma in_of_wf a port : addr_wf (IPv4Address (in_of a port)).
Proof.
  unfold in_of, byteSwapToBigEndian. cbn [addr_wf sin_family sin_port s_addr sin_zero].
  pose proof (byteSwap_range 2 port) as H2. pose proof (byteSwap_range 4 a) as H4.
  change (8 * Z.of_nat 2) with 16 in H2. change (8 * Z.of_nat 4) with 32 in H4.
  split_and!; try done; lia.
Qed.

(** Interfaces: an IPv4 interface whose mask is the subnet mask of a prefix is
    listed with its address and that prefix length, whatever the earlier entries. *)
Theorem interface_prefix name a port p result :
  0 <= p <= 32 ->
  interface_entry AF_UNSPEC
    (mk_ifaddrs name (Some (getAddr (IPv4Address_of a port))) (getAddr (v4_subnetMask p))) result =
  Some (result ++ [(name, (IPv4Address_of a port, p))]).
Proof.
  intros Hp. pose proof (in_of_wf a port) as Hx.
  pose proof (in_of_wf (getMask 32 (int_of_u32 p)) 0) as Hm.
  change (v4_subnetMask p) with (IPv4Address (in_of (getMask 32 (int_of_u32 p)) 0)).
  eapply (interface_entry_v4 (mk_ifaddrs name _ _)); [reflexivity|by apply field_family|by apply create_getAddr|].
  rewrite (netmask4_count _ _ Hm) by done. f_equal. by apply popcount_mask.
Qed.

Lemma interface_prefix_witness :
  interface_entry AF_UNSPEC
    (mk_ifaddrs (str "eth0") (Some (getAddr (IPv4Address_of 0xC0A80A37 0))) (getAddr (v4_subnetMask 20))) [] =
  Some [(str "eth0", (IPv4Address_of 0xC0A80A37 0, 20))].
Proof. apply (interface_prefix (str "eth0") 0xC0A80A37 0 20 []). lia. Defined.

(** Hosts: [Lookup] asks the resolver for the node and the service of
    [[node]:service], [node:service] and [node]; an unclosed bracket is refused. *)
Theorem split_host_correct node service :
  (node <> [] -> 93 ∉ node ->
    split_host (str "[" ++ node ++ str "]:" ++ service) = Some (node, service)) /\
  (no_bracket node -> 58 ∉ node ->
    split_host (node ++ str ":" ++ service) = Some (node, service) /\
    split_host node = Some (node, [])) /\
  (93 ∉ node -> split_host (str "[" ++ node) = None).
Proof.
  split_and!.
  - intros Hn Hc. by apply (split_bracket node (58 :: service)).
  - intros Hb Hc. split.
    + change (str ":" ++ service) with (58 :: service). rewrite split_plain by (by destruct node).
      change (str ":") with [58]. rewrite str_find_char by done. cbn [from_option id]. by rewrite substr_node, drop_app_add.
    + rewrite split_plain by done. change (str ":") with [58]. rewrite str_find_char_None by done.
      cbn [from_option id]. rewrite drop_ge by lia. unfold str_substr. by rewrite drop_0, firstn_all.
  - intros Hc. unfold split_host. change (str "[" ++ node) with (91 :: node).
    change (str "]") with [93]. by rewrite str_find_char_None by (by rewrite not_elem_of_cons).
Qed.

Lemma split_host_correct_witness :
  split_host (str "[::1]:8080") = Some (str "::1", str "8080") /\
  split_host (str "baidu.com:http") = Some (str "baidu.com", str "http").
Proof.
  split.
  - apply (proj1 (split_host_correct (str "::1") (str "8080"))); [done|decide_now].
  - apply (proj1 (proj2 (split_host_correct (str "baidu.com") (str "http")))); [done|decide_now].
Defined.
