(* ===== verification/Socket.v ===== *)
(** * Sockets and the TCP server

    Models [sylar/basic/socket.h] and [socket.cc], the object around a socket
    descriptor, and of [sylar/server/tcp/tcpServer.cc] binding, starting and
    stopping.  The descriptor table is that of [FdManager], the coroutine calls are
    those of [Hook]; a request to the IO manager to close a descriptor is recorded
    in a list.  What the kernel answers is an argument. *)

From stdpp Require Import list.
From S2P Require Import Prelude Endian CppString Address TimeLimit FdManager Hook.

Definition SOCK_STREAM : Z := 1.
Definition SOCK_DGRAM : Z := 2.
Definition SO_REUSEADDR : Z := 2.
Definition SO_REUSEPORT : Z := 15.
Definition IPPROTO_TCP : Z := 6.
Definition TCP_NODELAY : Z := 1.

Record Socket := mk_socket {
  m_sock_fd : Z;
  m_family : Z;
  m_type : Z;
  m_protocol : Z;
  m_is_set_reuseport : bool;
  m_isConnected : bool;
  m_local_address : option Address;
  m_remote_address : option Address;
}.

Definition Socket_ctor (family type protocol : Z) : Socket := mk_socket (-1) family type protocol true false None None.

(** The descriptors the destructor asks to close. *)
Definition Socket_dtor (s : Socket) : list Z := if m_sock_fd s =? -1 then [] else [m_sock_fd s].

(** The object that is left behind by a move. *)
Definition moved_from (o : Socket) : Socket :=
  mk_socket (-1) (m_family o) (m_type o) (m_protocol o) (m_is_set_reuseport o) false (m_local_address o) (m_remote_address o).

(** The move constructor: the new object and the old one. *)
Definition Socket_move (o : Socket) : Socket * Socket := (o, moved_from o).

(** Move assignment of two different objects, and what is closed. *)
Definition Socket_assign (s o : Socket) : Socket * Socket * list Z := (o, moved_from o, Socket_dtor s).

Definition with_fd (fd : Z) (s : Socket) : Socket :=
  mk_socket fd (m_family s) (m_type s) (m_protocol s) (m_is_set_reuseport s) (m_isConnected s) (m_local_address s) (m_remote_address s).
Definition with_connected (b : bool) (s : Socket) : Socket :=
  mk_socket (m_sock_fd s) (m_family s) (m_type s) (m_protocol s) (m_is_set_reuseport s) b (m_local_address s) (m_remote_address s).
Definition with_local (a : option Address) (s : Socket) : Socket :=
  mk_socket (m_sock_fd s) (m_family s) (m_type s) (m_protocol s) (m_is_set_reuseport s) (m_isConnected s) a (m_remote_address s).
Definition with_remote (a : option Address) (s : Socket) : Socket :=
  mk_socket (m_sock_fd s) (m_family s) (m_type s) (m_protocol s) (m_is_set_reuseport s) (m_isConnected s) (m_local_address s) a.
Definition reuse_done (s : Socket) : Socket :=
  mk_socket (m_sock_fd s) (m_family s) (m_type s) (m_protocol s) false (m_isConnected s) (m_local_address s) (m_remote_address s).

Definition isValid (s : Socket) : bool := negb (m_sock_fd s =? -1).

(** ** Options and timeouts *)

(** [setOption(level, option, value, len)] of an option that is not a timeout:
    [rc] is the kernel's answer. *)
Definition setOption (rc : Z) : bool := rc =? 0.

(** The template [setOption(level, option, value)] returns the [int] of
    [co_setsockopt] as a [bool]. *)
Definition setOption_template (rc : Z) : bool := negb (rc =? 0).

Definition getTimeOut (type : Z) (s : Socket) (v : FdManager) : Z :=
  match get_ctx (m_sock_fd s) v with Some c => getTimeout type c | None => -1 end.
Definition setTimeOut (type time : Z) (s : Socket) (v : FdManager) : FdManager :=
  match get_ctx (m_sock_fd s) v with Some c => store (m_sock_fd s) (setTimeout type (u64 time) c) v | None => v end.

Definition getSendTimeOut := getTimeOut SO_SNDTIMEO.
Definition setSendTimeOut := setTimeOut SO_SNDTIMEO.
Definition getRecvTimeOut := getTimeOut SO_RCVTIMEO.
Definition setRecvTimeOut := setTimeOut SO_RCVTIMEO.

(** ** Creating *)

(** [initSock]: the options that are set, in order, and then the flags; it changes
    no state of the object. *)
Definition initSock (s : Socket) : list (Z * Z) :=
  (SOL_SOCKET, SO_REUSEADDR) :: (if m_type s =? SOCK_STREAM then [(IPPROTO_TCP, TCP_NODELAY)] else []).

(** What the kernel says of a new descriptor: its number (or -1), [fstat] and the
    flags. *)
Record new_fd := mk_new { nf_fd : Z; nf_stat : fd_stat; nf_flag : Z }.

(** [None]: the table is written past its end. *)
Definition newSock (k : new_fd) (s : Socket) (v : FdManager) : option (Socket * FdManager) :=
  r ← co_socket (nf_fd k) (nf_stat k) (nf_flag k) v; Some (with_fd r.1 s, r.2).

Definition CreateTCP (address : Address) (k : new_fd) := newSock k (Socket_ctor (getFamily address) SOCK_STREAM 0).
Definition CreateUDP (address : Address) (k : new_fd) := newSock k (Socket_ctor (getFamily address) SOCK_DGRAM 0).
Definition CreateTCPSocket (k : new_fd) := newSock k (Socket_ctor AF_INET SOCK_STREAM 0).
Definition CreateUDPSocket (k : new_fd) := newSock k (Socket_ctor AF_INET SOCK_DGRAM 0).
Definition CreateTCPSocket6 (k : new_fd) := newSock k (Socket_ctor AF_INET6 SOCK_STREAM 0).
Definition CreateUDPSocket6 (k : new_fd) := newSock k (Socket_ctor AF_INET6 SOCK_DGRAM 0).
Definition CreateUnixTCPSocket (k : new_fd) := newSock k (Socket_ctor AF_UNIX SOCK_STREAM 0).
Definition CreateUnixUDPSocket (k : new_fd) := newSock k (Socket_ctor AF_UNIX SOCK_DGRAM 0).

(** ** Addresses *)

(** The memory of a new address is unset. *)
Record unset_memory := mk_unset { u_in : sockaddr_in; u_in6 : sockaddr_in6; u_un : sockaddr_un; u_size : Z; u_sa : sockaddr }.

Definition empty_address (family : Z) (u : unset_memory) : Address :=
  if family =? AF_INET then IPv4Address_default (u_in u)
  else if family =? AF_INET6 then IPv6Address_default (u_in6 u)
  else if family =? AF_UNIX then UnixAddress_default (u_un u) (u_size u)
  else UnknownAddress (u_sa u).

(** [getpeername] or [getsockname]: what the kernel makes of the object, and the
    length; [None]: an error. *)
Abbreviation name_call := (Address -> option (Address * Z)).

Definition named_address (name : name_call) (u : unset_memory) (s : Socket) : option Address :=
  match name (empty_address (m_family s) u) with
  | None => None
  | Some (result, addrLen) =>
      Some (if getFamily result =? AF_UNIX then match result with UnixAddress m _ => setAddrLen addrLen m | a => a end
            else result)
  end.

Definition getRemoteAddress (name : name_call) (u : unset_memory) (s : Socket) : option Address * Socket :=
  match m_remote_address s with
  | Some a => (Some a, s)
  | None => match named_address name u s with None => (None, s) | Some a => (Some a, with_remote (Some a) s) end
  end.

(** [getLocalAddress] tests the remote address. *)
Definition getLocalAddress (name : name_call) (u : unset_memory) (s : Socket) : option Address * Socket :=
  match m_remote_address s with
  | Some _ => (m_local_address s, s)
  | None => match named_address name u s with None => (None, s) | Some a => (Some a, with_local (Some a) s) end
  end.

(** ** Using *)

Section Use.
Context (peername sockname : name_call) (u : unset_memory).

(** [init]; [None]: the table is written past its end. *)
Definition init (sock_fd : Z) (st : fd_stat) (flag : Z) (s : Socket) (v : FdManager) : option (bool * Socket * FdManager) :=
  match get sock_fd true st flag v with
  | Get_bad_access => None
  | Get_ret None v => Some (false, s, v)
  | Get_ret (Some c) v =>
      if FdManager.m_is_socket c && negb (m_is_closed c) then
        let s := with_connected true (with_fd sock_fd s) in
        let s := (getLocalAddress sockname u s).2 in
        let s := (getRemoteAddress peername u s).2 in
        Some (true, s, v)
      else Some (false, s, v)
  end.

(** [accept] when [co_accept] has returned [fd]: the new socket or [nullptr]; the
    object that is not returned is destroyed, with what that closes. *)
Definition accept (fd : Z) (st : fd_stat) (flag : Z) (s : Socket) (v : FdManager) : option (option Socket * FdManager * list Z) :=
  let new_sock := Socket_ctor (m_family s) (m_type s) (m_protocol s) in
  if fd =? -1 then Some (None, v, Socket_dtor new_sock)
  else
    r ← init fd st flag new_sock v;
    let '(ok, new_sock, v) := r in
    Some (if ok : bool then (Some new_sock, v, []) else (None, v, Socket_dtor new_sock)).

(** [bind]; [rc] is the answer of [::bind]. *)
Definition bind (k : new_fd) (rc : Z) (addr : Address) (s : Socket) (v : FdManager) : option (bool * Socket * FdManager) :=
  r ← (if isValid s then Some (s, v) else newSock k s v);
  let '(s, v) := r in
  if negb (isValid s) then Some (false, s, v)
  else
    let s := if m_is_set_reuseport s then reuse_done s else s in
    if negb (getFamily addr =? m_family s) then Some (false, s, v)
    else Some (rc =? 0, s, v).

(** [connect]; [rc] is the answer of [::connect], the time limit is not used. *)
Definition connect (k : new_fd) (rc : Z) (addr : Address) (timeOut : Z) (s : Socket) (v : FdManager) :
    option (bool * Socket * FdManager) :=
  r ← (if isValid s then Some (s, v) else newSock k s v);
  let '(s, v) := r in
  if negb (isValid s) then Some (false, s, v)
  else if negb (getFamily addr =? m_family s) then Some (false, s, v)
  else if negb (rc =? 0) then Some (false, s, v)
  else
    let s := with_connected true s in
    let s := (getRemoteAddress peername u s).2 in
    let s := (getLocalAddress sockname u s).2 in
    Some (true, s, v).
End Use.

Definition listen (rc : Z) (s : Socket) : bool := isValid s && (rc =? 0).

(** [close]: its value, the object, and what is closed. *)
Definition close (s : Socket) : bool * Socket * list Z :=
  if negb (m_isConnected s) || (m_sock_fd s =? -1) then (true, s, [])
  else
    let s := with_connected false s in
    if negb (m_sock_fd s =? -1) then (false, with_fd (-1) s, [m_sock_fd s]) else (false, s, []).

(** The transfers: a connected socket makes the hooked call; another returns the
    given value and leaves [errno]. *)
Definition transfer (hooked : Z -> FdManager -> Z -> list answer -> list LimitState -> io_end) (otherwise : Z)
    (s : Socket) (v : FdManager) (errno : Z) (answers : list answer) (waits : list LimitState) : io_end :=
  if m_isConnected s then hooked (m_sock_fd s) v errno answers waits else IO_ret otherwise errno [].

Definition send := transfer co_send (-1).
Definition send_iov := transfer co_sendmsg (-1).
Definition sendTo := transfer co_sendto (-1).
Definition sendTo_iov := transfer co_sendmsg (-1).
Definition recv := transfer co_recv (-2).
Definition recv_iov := transfer co_recvmsg (-1).
Definition recvFrom := transfer co_recvfrom (-1).
Definition recvFrom_iov := transfer co_recvmsg (-1).

(** ** [TcpServer] *)

Record TcpServer := mk_server { m_sockets : list Socket; m_stop : bool }.

Definition TcpServer_ctor : TcpServer := mk_server [] true.

(** What the kernel answers for one socket of [bind]. *)
Record bind_answers := mk_bind { ba_new : new_fd; ba_new2 : new_fd; ba_bind : Z; ba_listen : Z; ba_sockname : name_call; ba_peername : name_call }.

(** One round: the socket if it listens; the inner [None]: it failed; the outer
    [None]: undefined (a null address is followed by the log of an error, or the
    table is written past its end).  [logged]: errors are logged. *)
Definition bind_one (u : unset_memory) (logged : bool) (k : bind_answers) (addr : Address) (v : FdManager) :
    option (option Socket * FdManager) :=
  r ← CreateTCP addr (ba_new k) v;
  r ← bind (ba_new2 k) (ba_bind k) addr r.1 r.2;
  let '(bound, s, v) := r in
  if negb bound then
    match (getLocalAddress (ba_sockname k) u s).1 with
    | None => if logged : bool then None else Some (None, v)
    | Some _ => Some (None, v)
    end
  else if negb (listen (ba_listen k) s) then
    let (local, s) := getLocalAddress (ba_sockname k) u s in
    match local, (getRemoteAddress (ba_peername k) u s).1 with
    | Some _, Some _ => Some (None, v)
    | _, _ => if logged then None else Some (None, v)
    end
  else Some (Some s, v).

(** [bind] of a list of addresses, each repeated as often as its number says: the
    value, the addresses that failed, the server.  [answers] gives the kernel's
    answers in order. *)
Fixpoint bind_loop (u : unset_memory) (logged : bool) (rounds : list (Address * bind_answers)) (rt : bool) (failed : list Address)
    (srv : TcpServer) (v : FdManager) : option (bool * list Address * TcpServer * FdManager) :=
  match rounds with
  | [] => Some (rt, failed, srv, v)
  | (addr, k) :: rounds =>
      r ← bind_one u logged k addr v;
      match r with
      | (None, v) => bind_loop u logged rounds false (failed ++ [addr]) srv v
      | (Some s, v) => bind_loop u logged rounds rt failed (mk_server (m_sockets srv ++ [s]) (m_stop srv)) v
      end
  end.

(** The rounds of the two loops. *)
Definition bind_rounds (addrs_num : list (Address * Z)) : list Address :=
  concat (map (fun p => replicate (Z.to_nat p.2) p.1) addrs_num).

Definition TcpServer_bind (u : unset_memory) (logged : bool) (addrs_num : list (Address * Z)) (answers : list bind_answers)
    (failed : list Address) (srv : TcpServer) (v : FdManager) : option (bool * list Address * TcpServer * FdManager) :=
  bind_loop u logged (zip (bind_rounds addrs_num) answers) true failed srv v.

(** [start]: the sockets for which an accept coroutine is scheduled. *)
Definition start (srv : TcpServer) : bool * TcpServer * list Socket :=
  if negb (m_stop srv) then (true, srv, []) else (true, mk_server (m_sockets srv) false, m_sockets srv).

(** [stop], and what is closed. *)
Definition stop (srv : TcpServer) : bool * TcpServer * list Z :=
  if m_stop srv then (true, srv, [])
  else
    let closed := map close (m_sockets srv) in
    (true, mk_server (map (fun r => r.1.2) closed) true, concat (map snd closed)).

(** The destructor: every socket is closed and, when the server held its last
    reference, destroyed. *)
Definition TcpServer_dtor (srv : TcpServer) : list Z :=
  concat (map (fun s => let '(_, s, fds) := close s in fds ++ Socket_dtor s) (m_sockets srv)).

(** ** Ownership of descriptors *)

(** The live socket objects ([None]: destroyed) and the descriptors that are open. *)
Record sockets := mk_sockets { objs : list (option Socket); open_fds : list Z }.

Definition closing (fds : list Z) (open : list Z) : list Z := List.filter (fun fd => negb (existsb (Z.eqb fd) fds)) open.

Inductive sockets_step : sockets -> list Z -> sockets -> Prop :=
  | step_ctor st family type protocol :
      sockets_step st [] (mk_sockets (objs st ++ [Some (Socket_ctor family type protocol)]) (open_fds st))
  | step_newSock st i s fd :              (* [newSock] is called on objects without a descriptor *)
      objs st !! i = Some (Some s) -> isValid s = false -> 0 <= fd -> fd ∉ open_fds st ->
      sockets_step st [] (mk_sockets (<[i := Some (with_fd fd s)]> (objs st)) (fd :: open_fds st))
  | step_accept st s fd local remote :    (* the socket a successful [accept] returns *)
      0 <= fd -> fd ∉ open_fds st ->
      sockets_step st []
        (mk_sockets (objs st ++ [Some (with_remote remote (with_local local (with_connected true (with_fd fd s))))]) (fd :: open_fds st))
  | step_connected st i s :
      objs st !! i = Some (Some s) ->
      sockets_step st [] (mk_sockets (<[i := Some (with_connected true s)]> (objs st)) (open_fds st))
  | step_move st i s :
      objs st !! i = Some (Some s) ->
      sockets_step st [] (mk_sockets (<[i := Some (Socket_move s).2]> (objs st) ++ [Some (Socket_move s).1]) (open_fds st))
  | step_assign st i j s o :
      i <> j -> objs st !! i = Some (Some s) -> objs st !! j = Some (Some o) ->
      sockets_step st (Socket_assign s o).2
        (mk_sockets (<[i := Some (Socket_assign s o).1.1]> (<[j := Some (Socket_assign s o).1.2]> (objs st)))
           (closing (Socket_assign s o).2 (open_fds st)))
  | step_close st i s :
      objs st !! i = Some (Some s) ->
      sockets_step st (close s).2 (mk_sockets (<[i := Some (close s).1.2]> (objs st)) (closing (close s).2 (open_fds st)))
  | step_dtor st i s :
      objs st !! i = Some (Some s) ->
      sockets_step st (Socket_dtor s) (mk_sockets (<[i := None]> (objs st)) (closing (Socket_dtor s) (open_fds st))).

Inductive sockets_reached : sockets -> Prop :=
  | reached_none open : Forall (Z.le 0) open -> sockets_reached (mk_sockets [] open)
  | reached_step st fds st' : sockets_reached st -> sockets_step st fds st' -> sockets_reached st'.

(** The object at a place holds a descriptor. *)
Definition owns (st : sockets) (i : nat) (fd : Z) : Prop :=
  exists s, objs st !! i = Some (Some s) /\ m_sock_fd s = fd /\ fd <> -1.

Record owned_once (st : sockets) : Prop := mk_owned {
  oo_open : forall i fd, owns st i fd -> fd ∈ open_fds st;
  oo_once : forall i j fd, owns st i fd -> owns st j fd -> i = j;
}.

Lemma closing_spec fds open fd : fd ∈ closing fds open <-> (fd ∈ open) /\ (fd ∉ fds).
Proof.
  unfold closing. rewrite !list_elem_of_In, List.filter_In. split; intros [H1 H2]; (split; [done|]).
  - intros H. apply negb_true_iff in H2.
    assert (existsb (Z.eqb fd) fds = true) by (apply existsb_exists; exists fd; by rewrite Z.eqb_refl). congruence.
  - apply negb_true_iff. destruct (existsb (Z.eqb fd) fds) eqn:E; [|done]. exfalso. apply H2.
    apply existsb_exists in E as (x & Hx & Ex). bool_to_prop. by subst x.
Qed.

(** Objects change so that every one that holds a descriptor held it before, at a
    place given by an injective map. *)
Lemma owned_transfer st objs' open' (from : nat -> nat) :
  owned_once st ->
  (forall i s, objs' !! i = Some (Some s) -> m_sock_fd s <> -1 -> owns st (from i) (m_sock_fd s)) ->
  (forall i j s t, objs' !! i = Some (Some s) -> objs' !! j = Some (Some t) -> m_sock_fd s = m_sock_fd t ->
     m_sock_fd s <> -1 -> from i = from j -> i = j) ->
  (forall i s, objs' !! i = Some (Some s) -> m_sock_fd s <> -1 -> m_sock_fd s ∈ open_fds st -> m_sock_fd s ∈ open') ->
  owned_once (mk_sockets objs' open').
Proof.
  intros [Ho H1] Hfrom Hinj Hopen. split.
  - intros i fd (s & Hs & <- & Hn). cbn in *. eapply Hopen; [done|done|]. eapply Ho. by apply Hfrom.
  - intros i j fd (s & Hs & Es & Hn) (t & Ht & Et & _). cbn in *. subst fd. eapply Hinj; [done|done|by symmetry|done|].
    eapply H1; [by apply Hfrom|]. rewrite <- Et. apply Hfrom; congruence.
Qed.

(** One object gets a descriptor nobody holds. *)
Lemma owned_fresh st objs' k fd :
  owned_once st -> fd ∉ open_fds st ->
  (forall i s, objs' !! i = Some (Some s) -> i <> k -> m_sock_fd s <> -1 -> owns st i (m_sock_fd s)) ->
  (forall s, objs' !! k = Some (Some s) -> m_sock_fd s = fd) ->
  owned_once (mk_sockets objs' (fd :: open_fds st)).
Proof.
  intros [Ho H1] Hfresh Hold Hk. split.
  - intros i x (s & Hs & <- & Hn). cbn in *. destruct (decide (i = k)) as [->|Hne].
    + rewrite (Hk _ Hs). apply list_elem_of_here.
    + apply list_elem_of_further. eapply Ho. by apply (Hold i).
  - assert (Haux : forall i s t, objs' !! i = Some (Some s) -> i <> k -> m_sock_fd s <> -1 ->
      objs' !! k = Some (Some t) -> m_sock_fd s <> m_sock_fd t).
    { intros i s t Hs Hne Hn Ht E. apply Hfresh. rewrite <- (Hk _ Ht), <- E. eapply Ho. by apply (Hold i). }
    intros i j x (s & Hs & Es & Hn) (t & Ht & Et & _). cbn in *.
    destruct (decide (i = k)) as [->|Hi], (decide (j = k)) as [->|Hj]; [done|..].
    + exfalso. eapply (Haux j t s); [done|done|congruence|done|congruence].
    + exfalso. eapply (Haux i s t); [done|done|congruence|done|congruence].
    + eapply H1; [apply (Hold i s Hs Hi); congruence|]. rewrite Es, <- Et. apply (Hold j t Ht Hj). congruence.
Qed.

Lemma owns_here st i s : objs st !! i = Some (Some s) -> m_sock_fd s <> -1 -> owns st i (m_sock_fd s).
Proof. intros H1 H2. by exists s. Qed.

(** An object is replaced by one that holds the same descriptor or none, and what
    it drops is closed. *)
Lemma owned_update st i s o' fds :
  owned_once st -> objs st !! i = Some (Some s) ->
  (forall s', o' = Some s' -> m_sock_fd s' <> -1 -> m_sock_fd s' = m_sock_fd s) ->
  (forall fd, fd ∈ fds -> fd = m_sock_fd s /\ fd <> -1 /\ forall s', o' = Some s' -> m_sock_fd s' = -1) ->
  owned_once (mk_sockets (<[i := o']> (objs st)) (closing fds (open_fds st))).
Proof.
  intros Hw Hi Hsame Hclosed. pose proof (lookup_lt_Some _ _ _ Hi) as Hlt.
  assert (Hfrom : forall k t, <[i := o']> (objs st) !! k = Some (Some t) -> m_sock_fd t <> -1 -> owns st k (m_sock_fd t)).
  { intros k t Hk Hn. destruct (decide (k = i)) as [->|Hne].
    - rewrite list_lookup_insert_eq in Hk by done. injection Hk as ->. rewrite (Hsame t eq_refl Hn).
      apply owns_here; [done|]. by rewrite <- (Hsame t eq_refl Hn).
    - rewrite list_lookup_insert_ne in Hk by done. by apply owns_here. }
  apply (owned_transfer st _ _ id Hw); [done|done|].
  intros k t Hk Hn Ho. apply closing_spec. split; [done|]. intros Hf. destruct (Hclosed _ Hf) as (E & _ & Hno).
  assert (k = i) as ->. { eapply (oo_once _ Hw); [by apply Hfrom|]. rewrite E. apply owns_here; [done|]. by rewrite <- E. }
  rewrite list_lookup_insert_eq in Hk by done. injection Hk as ->. by specialize (Hno t eq_refl).
Qed.

Lemma dtor_fds s fd : fd ∈ Socket_dtor s -> fd = m_sock_fd s /\ fd <> -1.
Proof.
  unfold Socket_dtor. destruct (m_sock_fd s =? -1) eqn:E; bool_to_prop; [by intros Hin%elem_of_nil|].
  intros Hin%list_elem_of_singleton. by subst.
Qed.

Lemma close_fds s fd : fd ∈ (close s).2 -> fd = m_sock_fd s /\ fd <> -1 /\ m_sock_fd (close s).1.2 = -1.
Proof.
  unfold close. destruct (_ || _) eqn:E; [by intros Hin%elem_of_nil|]. apply orb_false_iff in E as [_ E].
  cbn [m_sock_fd with_connected]. rewrite E. cbn [negb]. bool_to_prop. intros Hin%list_elem_of_singleton. by subst.
Qed.

Lemma close_same s : m_sock_fd (close s).1.2 <> -1 -> m_sock_fd (close s).1.2 = m_sock_fd s.
Proof. unfold close. destruct (_ || _); [done|]. cbn [m_sock_fd with_connected]. by destruct (negb _). Qed.

Lemma lookup_snoc_cases {A} (l : list A) x i y :
  (l ++ [x]) !! i = Some y -> l !! i = Some y \/ (i = length l /\ y = x).
Proof.
  intros H. apply lookup_app_Some in H as [H|[Hle H]]; [by left|right].
  destruct (i - length l)%nat eqn:E; cbn in H; [|done]. injection H as <-. split; [lia|done].
Qed.

(** A new object takes over what another one drops. *)
Lemma owned_move st i s :
  owned_once st -> objs st !! i = Some (Some s) ->
  owned_once (mk_sockets (<[i := Some (moved_from s)]> (objs st) ++ [Some s]) (open_fds st)).
Proof.
  intros Hw Hi. pose proof (lookup_lt_Some _ _ _ Hi) as Hlt. set (n := length (objs st)) in *.
  assert (Hcase : forall k t, (<[i := Some (moved_from s)]> (objs st) ++ [Some s]) !! k = Some (Some t) -> m_sock_fd t <> -1 ->
    (k <> i /\ (k < n)%nat /\ objs st !! k = Some (Some t)) \/ (k = n /\ t = s)).
  { intros k t Hk Hn. apply lookup_snoc_cases in Hk as [Hk|[Hk E]].
    - left. destruct (decide (k = i)) as [->|Hne].
      + rewrite list_lookup_insert_eq in Hk by done. by injection Hk as <-.
      + rewrite list_lookup_insert_ne in Hk by done. split_and!; [done|by eapply lookup_lt_Some|done].
    - right. rewrite length_insert in Hk. by injection E as ->. }
  apply (owned_transfer st _ _ (fun k => if decide (k = n) then i else k) Hw).
  - intros k t Hk Hn. destruct (Hcase k t Hk Hn) as [(Hne & Hk2 & Ht)|[-> ->]].
    + rewrite decide_False by lia. by apply owns_here.
    + rewrite decide_True by done. by apply owns_here.
  - intros k j t o Hk Hj E Hn Ef. assert (Hn2 : m_sock_fd o <> -1) by congruence.
    destruct (Hcase k t Hk Hn) as [(Hne & Hk2 & Ht)|[-> ->]], (Hcase j o Hj Hn2) as [(Hnj & Hj2 & Ho)|[-> ->]];
      repeat case_decide; (lia || congruence).
  - done.
Qed.

Lemma owned_assign st i j s o :
  owned_once st -> i <> j -> objs st !! i = Some (Some s) -> objs st !! j = Some (Some o) ->
  owned_once (mk_sockets (<[i := Some o]> (<[j := Some (moved_from o)]> (objs st))) (closing (Socket_dtor s) (open_fds st))).
Proof.
  intros Hw Hne Hi Hj. pose proof (lookup_lt_Some _ _ _ Hi) as Hlt. pose proof (lookup_lt_Some _ _ _ Hj) as Hltj.
  assert (Hcase : forall k t, <[i := Some o]> (<[j := Some (moved_from o)]> (objs st)) !! k = Some (Some t) -> m_sock_fd t <> -1 ->
    (k <> i /\ k <> j /\ objs st !! k = Some (Some t)) \/ (k = i /\ t = o)).
  { intros k t Hk Hn. destruct (decide (k = i)) as [->|Hki].
    - right. rewrite list_lookup_insert_eq in Hk by (by rewrite length_insert). by injection Hk as <-.
    - left. rewrite list_lookup_insert_ne in Hk by done. destruct (decide (k = j)) as [->|Hkj].
      + rewrite list_lookup_insert_eq in Hk by done. by injection Hk as <-.
      + by rewrite list_lookup_insert_ne in Hk by done. }
  apply (owned_transfer st _ _ (fun k => if decide (k = i) then j else k) Hw).
  - intros k t Hk Hn. destruct (Hcase k t Hk Hn) as [(Hki & Hkj & Ht)|[-> ->]].
    + rewrite decide_False by done. by apply owns_here.
    + rewrite decide_True by done. by apply owns_here.
  - intros k l t x Hk Hl E Hn Ef. assert (Hn2 : m_sock_fd x <> -1) by congruence.
    destruct (Hcase k t Hk Hn) as [(Hki & Hkj & Ht)|[-> ->]], (Hcase l x Hl Hn2) as [(Hli & Hlj & Hx)|[-> ->]];
      repeat case_decide; congruence.
  - intros k t Hk Hn Ho. apply closing_spec. split; [done|]. intros Hf. apply dtor_fds in Hf as [E E2].
    assert (Hos : owns st i (m_sock_fd t)) by (rewrite E; apply owns_here; [done|congruence]).
    destruct (Hcase k t Hk Hn) as [(Hki & Hkj & Ht)|[-> ->]].
    + apply Hki. eapply (oo_once _ Hw); [by apply owns_here|exact Hos].
    + apply Hne. eapply (oo_once _ Hw); [exact Hos|by apply owns_here].
Qed.

Lemma owned_step st fds st' : owned_once st -> sockets_step st fds st' -> owned_once st'.
Proof.
  intros Hw Hs. destruct Hs as [st family type protocol|st i s fd Hi Hv Hfd Hfresh|st s fd local remote Hfd Hfresh|st i s Hi
    |st i s Hi|st i j s o Hne Hi Hj|st i s Hi|st i s Hi].
  - apply (owned_transfer st _ _ id Hw); [|done..]. intros k t Hk Hn.
    apply lookup_snoc_cases in Hk as [Hk|[_ E]]; [by apply owns_here|]. by injection E as ->.
  - apply (owned_fresh st _ i); [done|done| |].
    + intros k t Hk Hne Hn. rewrite list_lookup_insert_ne in Hk by done. by apply owns_here.
    + intros t Ht. rewrite list_lookup_insert_eq in Ht by (by eapply lookup_lt_Some). by injection Ht as <-.
  - apply (owned_fresh st _ (length (objs st))); [done|done| |].
    + intros k t Hk Hne Hn. apply lookup_snoc_cases in Hk as [Hk|[E _]]; [by apply owns_here|done].
    + intros t Ht. rewrite lookup_app_r, Nat.sub_diag in Ht by lia. by injection Ht as <-.
  - assert (E : closing [] (open_fds st) = open_fds st).
    { unfold closing. cbn. induction (open_fds st) as [|x l IH]; [done|]. cbn. by rewrite IH. }
    rewrite <- E. apply (owned_update st i s); [done|done|by intros s' [= <-]|by intros fd Hin%elem_of_nil].
  - by apply owned_move.
  - by apply owned_assign.
  - apply (owned_update st i s); [done|done|intros s' [= <-]; apply close_same|].
    intros fd Hin. apply close_fds in Hin as (E1 & E2 & E3). split_and!; [done|done|]. by intros s' [= <-].
  - apply (owned_update st i s); [done|done|done|]. intros fd Hin. apply dtor_fds in Hin as [E1 E2]. done.
Qed.

Lemma sockets_owned st : sockets_reached st -> owned_once st.
Proof.
  induction 1 as [open _|st fds st' _ IH Hs]; [|by eapply owned_step].
  by split; [intros i fd (s & Hs & _)|intros i j fd (s & Hs & _)].
Qed.

(** Every descriptor that is closed is dropped by the object that held it. *)
Lemma step_closes st fds st' fd : sockets_step st fds st' -> fd ∈ fds -> exists i, owns st i fd.
Proof.
  intros Hs Hin. destruct Hs as [| | | | |st i j s o Hne Hi Hj|st i s Hi|st i s Hi]; try by apply elem_of_nil in Hin.
  - apply dtor_fds in Hin as [-> Hn]. exists i. by apply owns_here.
  - apply close_fds in Hin as (-> & Hn & _). exists i. by apply owns_here.
  - apply dtor_fds in Hin as [-> Hn]. exists i. by apply owns_here.
Qed.

(** * Results *)

(** C25. No descriptor is closed twice or closed under another object: in every run of
    constructions, creations, accepts, moves, assignments, closes and destructions, no
    two objects hold the same descriptor, every descriptor that is closed is open at
    that moment, and afterwards no object holds it. *)
Theorem sockets_close_once st fds st' fd :
  sockets_reached st -> sockets_step st fds st' ->
  (forall i j, owns st i fd -> owns st j fd -> i = j) /\
  (fd ∈ fds -> (fd ∈ open_fds st) /\ forall i, ~ owns st' i fd).
Proof.
  intros Hr Hs. pose proof (sockets_owned st Hr) as Hw. pose proof (owned_step st fds st' Hw Hs) as Hw'.
  split; [intros i j; apply (oo_once _ Hw)|]. intros Hin. destruct (step_closes _ _ _ _ Hs Hin) as [i Hi].
  split; [by eapply (oo_open _ Hw)|]. intros k Hk. apply (oo_open _ Hw') in Hk.
  destruct Hs; try (by apply elem_of_nil in Hin); cbn [open_fds] in Hk; apply closing_spec in Hk as [_ Hk]; done.
Qed.

Definition ex_socket : Socket := Socket_ctor AF_INET SOCK_STREAM 0.
Definition ex_sockets : sockets := mk_sockets [Some (with_fd 5 ex_socket)] [5].

Lemma ex_sockets_reached : sockets_reached ex_sockets.
Proof.
  eapply reached_step; [eapply reached_step; [apply (reached_none []); constructor|apply (step_ctor _ AF_INET SOCK_STREAM 0)]|].
  exact (step_newSock (mk_sockets [Some ex_socket] []) 0%nat ex_socket 5 eq_refl eq_refl ltac:(lia) (not_elem_of_nil 5)).
Qed.

Lemma sockets_close_once_witness :
  (5 ∈ open_fds ex_sockets) /\ forall i, ~ owns (mk_sockets [None] []) i 5.
Proof.
  refine (proj2 (sockets_close_once ex_sockets [5] (mk_sockets [None] []) 5 ex_sockets_reached _) _).
  - apply (step_dtor ex_sockets 0%nat (with_fd 5 ex_socket)). done.
  - apply list_elem_of_here.
Defined.

(** ** Binding *)

(** What every socket a server binds is like. *)
Definition listening (s : Socket) : Prop := isValid s = true /\ m_isConnected s = false.

Lemma bind_one_listening u logged k addr v s v' :
  bind_one u logged k addr v = Some (Some s, v') -> listening s /\ m_family s = getFamily addr.
Proof.
  unfold bind_one, CreateTCP, newSock. destruct (co_socket _ _ _ v) as [[fd v1]|]; [|done]. cbn [mbind option_bind fst snd].
  unfold bind. destruct (isValid (with_fd fd _)) eqn:Ev.
  - cbn [mbind option_bind]. rewrite Ev. cbn [negb]. cbn [m_is_set_reuseport with_fd Socket_ctor m_family reuse_done].
    destruct (negb (getFamily addr =? getFamily addr)); [cbn; by repeat case_match|].
    cbn [mbind option_bind]. destruct (negb (ba_bind k =? 0)); [by repeat case_match|].
    destruct (negb (listen _ _)); [destruct (getLocalAddress _ _ _); by repeat case_match|]. intros [= <- <-]. done.
  - unfold newSock. destruct (co_socket _ _ _ v1) as [[fd2 v2]|]; [|done]. cbn [mbind option_bind fst snd].
    destruct (negb (isValid (with_fd fd2 _))) eqn:Ev2; [cbn; by repeat case_match|]. apply negb_false_iff in Ev2.
    cbn [m_is_set_reuseport with_fd Socket_ctor m_family reuse_done].
    destruct (negb (getFamily addr =? getFamily addr)); [cbn; by repeat case_match|].
    cbn [mbind option_bind]. destruct (negb (ba_bind k =? 0)); [by repeat case_match|].
    destruct (negb (listen _ _)); [destruct (getLocalAddress _ _ _); by repeat case_match|]. intros [= <- <-]. done.
Qed.

Lemma bind_loop_reports u logged rounds : forall rt failed srv v rt' failed' srv' v',
  bind_loop u logged rounds rt failed srv v = Some (rt', failed', srv', v') ->
  exists ok fl, srv' = mk_server (m_sockets srv ++ ok) (m_stop srv) /\ failed' = failed ++ fl /\
    (length ok + length fl = length rounds)%nat /\ rt' = rt && (length fl =? 0)%nat /\ Forall listening ok.
Proof.
  induction rounds as [|[addr k] rounds IH]; intros rt failed srv v rt' failed' srv' v'; cbn [bind_loop].
  - intros [= <- <- <- <-]. exists [], []. rewrite !app_nil_r, andb_true_r. destruct srv. done.
  - destruct (bind_one u logged k addr v) as [[[s|] v1]|] eqn:E; cbn [mbind option_bind]; [| |done].
    + intros H. destruct (IH _ _ _ _ _ _ _ _ H) as (ok & fl & -> & -> & Hl & -> & Hok). exists (s :: ok), fl.
      cbn [m_sockets m_stop length]. rewrite <- app_assoc. split_and!; [done|done|lia|done|].
      constructor; [|done]. by destruct (bind_one_listening _ _ _ _ _ _ _ E).
    + intros H. destruct (IH _ _ _ _ _ _ _ _ H) as (ok & fl & -> & -> & Hl & -> & Hok). exists ok, (addr :: fl).
      cbn [length]. rewrite <- app_assoc. split_and!; [done|done|lia|by rewrite andb_false_r|done].
Qed.

(** Binding a server reports what happened: every round either adds a listening
    socket to the server or adds its address to the failures; the value is [true]
    exactly when there is no failure; the sockets bound before stay. *)
Theorem bind_reports u logged addrs_num answers failed srv v rt failed' srv' v' :
  length answers = length (bind_rounds addrs_num) ->
  TcpServer_bind u logged addrs_num answers failed srv v = Some (rt, failed', srv', v') ->
  exists ok fl, m_sockets srv' = m_sockets srv ++ ok /\ failed' = failed ++ fl /\
    (length ok + length fl = length (bind_rounds addrs_num))%nat /\ (rt = true <-> fl = []) /\ Forall listening ok.
Proof.
  intros Hlen H. apply bind_loop_reports in H as (ok & fl & -> & -> & Hl & -> & Hok). exists ok, fl.
  rewrite length_zip_with, Nat.min_l in Hl by lia. split_and!; [done|done|done| |done]. cbn.
  by destruct fl.
Qed.

Definition ex_unset : unset_memory :=
  mk_unset (mk_in 0 0 0 []) (mk_in6 0 0 0 [] 0) (mk_un 0 []) 0 (mk_sa 0 []).
Definition ex_answers (fd rc : Z) : bind_answers :=
  mk_bind (mk_new fd stat_socket 2) (mk_new (-1) stat_error 0) rc 0 (fun a => Some (a, 16)) (fun _ => None).
Definition ex_addr : Address := IPv4Address_of 16777343 80.

Lemma bind_reports_witness :
  exists ok fl, (length ok + length fl = 2)%nat /\ fl = [ex_addr] /\ Forall listening ok.
Proof.
  destruct (TcpServer_bind ex_unset true [(ex_addr, 2)] [ex_answers 7 0; ex_answers 9 (-1)] [] TcpServer_ctor FdManager_ctor)
    as [[[[rt failed'] srv'] v']|] eqn:E; [|vm_compute in E; discriminate E].
  destruct (bind_reports ex_unset true [(ex_addr, 2)] [ex_answers 7 0; ex_answers 9 (-1)] [] TcpServer_ctor FdManager_ctor
    rt failed' srv' v' eq_refl E) as (ok & fl & _ & H2 & H3 & _ & H5).
  exists ok, fl. split_and!; [exact H3| |exact H5]. cbn in H2. rewrite <- H2. vm_compute in E. by injection E.
Defined.

(** Stopping a server does not close its listening sockets: [close] returns at once
    on a socket that is not connected, and neither [bind] nor [listen] connects one.
    They stay in the server with their descriptors. *)
Theorem stop_closes_nothing srv :
  Forall listening (m_sockets srv) -> m_stop srv = false ->
  stop srv = (true, mk_server (m_sockets srv) true, []).
Proof.
  intros Hl Hs. unfold stop. rewrite Hs.
  assert (H : map close (m_sockets srv) = map (fun s => (true, s, [])) (m_sockets srv)).
  { induction Hl as [|s l [_ Hc] _ IH]; [done|]. cbn [map]. rewrite IH. f_equal. unfold close. by rewrite Hc. }
  rewrite H, !map_map. cbn [fst snd]. rewrite map_id. do 2 f_equal. clear. by induction (m_sockets srv).
Qed.

(** [Socket::connect] on a descriptor of the table fails: the descriptor is
    non-blocking, [::connect] answers -1 with [EINPROGRESS], and that is reported as
    a failure, without waiting and whatever the time limit. *)
Theorem connect_in_progress peername sockname u k addr timeOut s v :
  isValid s = true -> connect peername sockname u k (-1) addr timeOut s v = Some (false, s, v).
Proof. intros Hv. unfold connect. rewrite Hv. cbn [mbind option_bind]. rewrite Hv. cbn [negb]. by destruct (negb _). Qed.

(** After a successful [connect] the local address is never asked for: the remote
    address is stored first, and [getLocalAddress] takes it for its own. *)
Theorem connected_without_local peername sockname u k addr timeOut s v r l :
  isValid s = true -> getFamily addr = m_family s -> m_remote_address s = None -> m_local_address s = None ->
  peername (empty_address (m_family s) u) = Some (r, l) ->
  exists s', connect peername sockname u k 0 addr timeOut s v = Some (true, s', v) /\
    m_local_address s' = None /\ forall name, (getLocalAddress name u s').1 = None.
Proof.
  intros Hv Hf Hr Hl Hp. unfold connect. rewrite Hv. cbn [mbind option_bind]. rewrite Hv, Hf, Z.eqb_refl. cbn [negb].
  change (0 =? 0) with true. cbn [negb]. eexists. split; [reflexivity|].
  unfold getRemoteAddress, named_address. cbn [m_remote_address with_connected m_family]. rewrite Hr, Hp.
  unfold getLocalAddress. cbn. done.
Qed.

(** A descriptor that [accept] got and that cannot be initialised is never closed. *)
Theorem accept_leaks peername sockname u fd flag s v :
  2 <= fd -> known fd v = None ->
  exists v', accept peername sockname u fd stat_file flag s v = Some (None, v', []).
Proof.
  intros Hfd Hk. unfold accept. rewrite (proj2 (Z.eqb_neq fd (-1))) by lia. unfold init.
  destruct (get fd true stat_file flag v) as [c v'|] eqn:E.
  - unfold get in E. unfold known in Hk. rewrite Hk in E. cbn [negb] in E. destruct (fd <? _); [|done].
    injection E as <- <-. cbn. by eexists.
  - exfalso. unfold get in E. unfold known in Hk. rewrite Hk in E. cbn [negb] in E.
    pose proof (Z.div_mod (fd * 3) 2 ltac:(lia)). pose proof (Z.mod_pos_bound (fd * 3) 2 ltac:(lia)).
    unfold zlen in E. rewrite length_resize, Z2Nat.id in E by lia.
    by rewrite (proj2 (Z.ltb_lt _ _)) in E by lia.
Qed.

(** A receive that had to wait leaves [EAGAIN] in [errno] although it succeeds. *)
Theorem recv_leaves_eagain s c v errno n :
  m_isConnected s = true -> managed (m_sock_fd s) c v -> 0 < n < 2 ^ 31 ->
  recv s v errno [(-1, EAGAIN); (n, 0)] [FINISHED] =
  IO_ret n EAGAIN [(READ, await_limit (io_timeout (m_recvTimeout c)))].
Proof.
  intros Hc Hm Hn. unfold recv, transfer. rewrite Hc. unfold co_recv. rewrite (do_io_managed _ _ _ _ _ _ _ _ Hm).
  rewrite io_loop_eagain, io_loop_final; [|cbn; lia|intros [H _]; cbn in H; lia].
  unfold errno_after. cbn [fst]. by rewrite (proj2 (Z.eqb_neq n (-1))) by lia.
Qed.
