(* ===== verification/SocketEvents.v ===== *)
(** * Cancelling what a socket waits for

    Models [Socket::cancelRead], [cancelWrite] and [cancelAll] ([sylar/basic/socket.cc]),
    through which one coroutine wakes another that waits on the socket, on the events of the
    IO manager; and [getOption]. *)

From stdpp Require Import gmap.
From S2P Require Import Prelude Address Hook Socket TaskCoro FdContext IoManager IoProps.

Section Cancel.
Context {K : Type} `{Epoll K}.

(** The result is always true; what happens to the IO manager beside it. *)
Definition cancelRead (s : Socket) (m : IOManager K) : bool * iom_res K := (true, cancelEvent (m_sock_fd s) READ m).
Definition cancelWrite (s : Socket) (m : IOManager K) : bool * iom_res K := (true, cancelEvent (m_sock_fd s) WRITE m).
Definition Socket_cancelAll (s : Socket) (m : IOManager K) : bool * iom_res K := (true, cancelAll (m_sock_fd s) m).

(** [getOption]: [rc] is the kernel's answer. *)
Definition getOption (rc : Z) : bool := negb (truthy rc).

(** The coroutine that waits to read is woken, once. *)
Theorem cancelRead_wakes s m c f events :
  iom_inv m -> 0 <= m_sock_fd s -> m_sock_fd s <> m_eventFd m ->
  m_fd_events m !! Z.to_nat (m_sock_fd s) = Some c -> truthy (m_event c & READ) = true -> fresh f (m_cb_read c) ->
  exists m' rcs c', cancelRead s m = (true, Iom_ok m' rcs [called f]) /\
    m_fd_events m' !! Z.to_nat (m_sock_fd s) = Some c' /\ trigger (events & READ) c' = Some [].
Proof.
  intros Hi Hfd Hne Hc Hset Hf.
  destruct (cancelEvent_wakes_once (m_sock_fd s) READ f (m_cb_read c) events m c Hi Hfd Hne (or_introl eq_refl) Hc Hset eq_refl Hf)
    as (m' & rcs & c' & E & Hc' & Ht).
  exists m', rcs, c'. split_and!; [|done|done]. unfold cancelRead. by rewrite E.
Qed.

(** Likewise for writing. *)
Theorem cancelWrite_wakes s m c f events :
  iom_inv m -> 0 <= m_sock_fd s -> m_sock_fd s <> m_eventFd m ->
  m_fd_events m !! Z.to_nat (m_sock_fd s) = Some c -> truthy (m_event c & WRITE) = true -> fresh f (m_cb_write c) ->
  exists m' rcs c', cancelWrite s m = (true, Iom_ok m' rcs [called f]) /\
    m_fd_events m' !! Z.to_nat (m_sock_fd s) = Some c' /\ trigger (events & WRITE) c' = Some [].
Proof.
  intros Hi Hfd Hne Hc Hset Hf.
  destruct (cancelEvent_wakes_once (m_sock_fd s) WRITE f (m_cb_write c) events m c Hi Hfd Hne (or_intror eq_refl) Hc Hset eq_refl Hf)
    as (m' & rcs & c' & E & Hc' & Ht).
  exists m', rcs, c'. split_and!; [|done|done]. unfold cancelWrite. by rewrite E.
Qed.

(** None of them looks whether the socket has a descriptor: on one that was closed or moved from, the
    assertion of [cancelEvent] fails. *)
Theorem cancel_closed s m :
  isValid s = false -> zlen (m_fd_events m) < 2 ^ 63 ->
  (cancelRead s m).2 = Iom_error /\ (cancelWrite s m).2 = Iom_error /\ (Socket_cancelAll s m).2 = Iom_error.
Proof.
  intros Hv Hm. unfold isValid in Hv. apply negb_false_iff, Z.eqb_eq in Hv.
  assert (E : past_end (m_sock_fd s) m = true) by (unfold past_end, as_size; rewrite Hv; apply Z.leb_le; cbn; lia).
  unfold cancelRead, cancelWrite, Socket_cancelAll, cancelAll, cancelEvent. cbn [snd]. by rewrite E.
Qed.
End Cancel.
