(* ===== verification/Http.v ===== *)
(** * HTTP requests, routing and accepting

    Models [sylar/protocol/http/http.hpp] and [http.cc] (query parameters and
    cookies), the method names of [constants.hpp], and of
    [sylar/server/http/httpServer.cc] the table of handlers, the choice of a
    handler, sending a response and the accept loop, next to that of
    [sylar/server/tcp/tcpServer.cc].  The URI and the headers come from the
    message parser and are arguments; a URI has fewer than 2^31 octets, so that
    the [int] positions of the source do not overflow. *)

From stdpp Require Import gmap.
From S2P Require Import Prelude CppString.

(** ** Parameters *)

(** [s.find(c, pos)] stored in an [int]: -1 for [npos]. *)
Definition find_int (c pos : Z) (s : list Z) : Z :=
  match str_find_from [c] (Z.to_nat pos) s with Some n => Z.of_nat n | None => -1 end.

(** [s.substr(pos, n)] *)
Definition sub (pos n : Z) (s : list Z) : list Z := str_substr (Z.to_nat pos) (Some (Z.to_nat n)) s.

Abbreviation strings := (gmap (list Z) (list Z)).

(** [std::map::insert]: an existing entry stays. *)
Definition map_insert (k v : list Z) (m : strings) : strings :=
  match m !! k with Some _ => m | None => <[k := v]> m end.

Definition HASH : Z := 35.
Definition AMP : Z := 38.
Definition SEMI : Z := 59.
Definition EQUALS : Z := 61.
Definition QUESTION : Z := 63.

(** The loop of [parserParams]; [None]: out of fuel. *)
Fixpoint params_loop (fuel : nat) (uri : list Z) (param_begin param_end : Z) (m_params : strings) : option strings :=
  match fuel with
  | O => None
  | S fuel =>
      if param_begin <? param_end then
        let key_end := find_int EQUALS param_begin uri in
        if (key_end =? -1) || (param_end <? key_end) then Some m_params
        else
          let key := sub param_begin (key_end - param_begin) uri in
          let value_end := find_int AMP key_end uri in
          let value_end := if (value_end =? -1) || (param_end <? value_end) then param_end else value_end in
          let value := sub (key_end + 1) (value_end - key_end - 1) uri in
          params_loop fuel uri (value_end + 1) param_end (map_insert key value m_params)
      else Some m_params
  end.

Record Request := mk_request { m_path : list Z; m_params : strings; m_cookies : strings }.

(** [parserParams] on a fresh request: the path and the parameters.  Every round
    moves [param_begin] forward. *)
Definition parserParams (uri : list Z) : option (list Z * strings) :=
  let path_end := find_int QUESTION 0 uri in
  let path := if path_end =? -1 then [] else sub 0 path_end uri in
  let param_begin := path_end + 1 in
  let param_end := find_int HASH 0 uri in
  let param_end := if param_end =? -1 then zlen uri else param_end in
  params ← params_loop (S (length uri)) uri param_begin param_end ∅;
  Some (path, params).

(** ** Cookies *)

(** The items of [std::getline(ss, item, c)]; [item] is the part already read. *)
Fixpoint getlines (c : Z) (s item : list Z) : list (list Z) :=
  match s with
  | [] => match item with [] => [] | _ => [item] end
  | x :: s => if x =? c then item :: getlines c s [] else getlines c s (item ++ [x])
  end.

Definition is_blank (c : Z) : bool := (c =? 32) || (c =? 9).

(** [s.erase(0, s.find_first_not_of(" \t"))] *)
Fixpoint erase_blanks (s : list Z) : list Z :=
  match s with
  | c :: s' => if is_blank c then erase_blanks s' else s
  | [] => []
  end.

Definition parse_cookie (m_cookies : strings) (item : list Z) : strings :=
  match str_find [EQUALS] item with
  | None => m_cookies
  | Some pos =>
      map_insert (erase_blanks (str_substr 0 (Some pos) item)) (erase_blanks (str_substr (pos + 1) None item)) m_cookies
  end.

Definition parserCookies (cookie_str : list Z) : strings :=
  fold_left parse_cookie (getlines SEMI cookie_str []) ∅.

(** The constructor of [Request] for a URI and the header [Cookie]. *)
Definition Request_ctor (uri cookie : list Z) : option Request :=
  r ← parserParams uri; Some (mk_request r.1 r.2 (parserCookies cookie)).

Definition getParam (r : Request) (key : list Z) : list Z := default [] (m_params r !! key).
Definition getCookie (r : Request) (key : list Z) : list Z := default [] (m_cookies r !! key).

(** ** Methods *)

(** [HTTP_METHOD_MAP]: the number and the name of every method. *)
Definition HTTP_METHOD_MAP : list (Z * list Z) :=
  [(0, str "DELETE"); (1, str "GET"); (2, str "HEAD"); (3, str "POST"); (4, str "PUT");
   (5, str "CONNECT"); (6, str "OPTIONS"); (7, str "TRACE"); (8, str "COPY"); (9, str "LOCK");
   (10, str "MKCOL"); (11, str "MOVE"); (12, str "PROPFIND"); (13, str "PROPPATCH"); (14, str "SEARCH");
   (15, str "UNLOCK"); (16, str "BIND"); (17, str "REBIND"); (18, str "UNBIND"); (19, str "ACL");
   (20, str "REPORT"); (21, str "MKACTIVITY"); (22, str "CHECKOUT"); (23, str "MERGE"); (24, str "M-SEARCH");
   (25, str "NOTIFY"); (26, str "SUBSCRIBE"); (27, str "UNSUBSCRIBE"); (28, str "PATCH"); (29, str "PURGE");
   (30, str "MKCALENDAR"); (31, str "LINK"); (32, str "UNLINK"); (33, str "SOURCE")].

Definition HTTP_GET : Z := 1.
Definition HTTP_POST : Z := 3.

(** The chain of comparisons of [HttpMethodToString]. *)
Definition HttpMethodToString (method : Z) : list Z :=
  match find (fun e => e.1 =? method) HTTP_METHOD_MAP with
  | Some e => e.2
  | None => str "Http invalid method"
  end.

(** ** Handlers *)

(** [m_urls]: the method and the handler (a number) registered for a path. *)
Abbreviation urls := (gmap (list Z) (Z * nat)).

Definition registerUrl (url : list Z) (cb : nat) (method : Z) (m_urls : urls) : urls :=
  <[url := (method, cb)]> m_urls.
Definition GET (url : list Z) (cb : nat) (m_urls : urls) : urls := registerUrl url cb HTTP_GET m_urls.
Definition POST (url : list Z) (cb : nat) (m_urls : urls) : urls := registerUrl url cb HTTP_POST m_urls.

(** [execHandler]: the handler it awaits, if any, for a URL and the method of the
    request. *)
Definition execHandler (m_urls : urls) (url method : list Z) : option nat :=
  let idx := find_int QUESTION 0 url in
  let path := if idx =? -1 then url else sub 0 idx url in
  match m_urls !! path with
  | None => None
  | Some (m, cb) => if str_eqb method (HttpMethodToString m) then Some cb else None
  end.

(** ** Sending a response *)

Definition EPIPE : Z := 32.

(** How [co_sendResp] ends: its value and the octets the socket took; or it waits;
    or the socket is handed a pointer before the response. *)
Inductive send_end := Sent (rc : Z) (out : list Z) | Send_waits (out : list Z) | Send_undefined.

(** The loop over the answers of the socket ([send]'s value and [errno]). *)
Fixpoint send_loop (answers : list (Z * Z)) (resp : list Z) (offset : Z) (out : list Z) : send_end :=
  if offset <? 0 then Send_undefined
  else if offset <? zlen resp then
    match answers with
    | [] => Send_waits out
    | (send_size, errno) :: answers =>
        if (send_size =? -1) && (errno =? EPIPE) then Sent (zlen resp) out
        else if send_size =? -1 then Sent (-1) out
        else send_loop answers resp (offset + send_size) (out ++ sub offset send_size resp)
    end
  else Sent (zlen resp) out.

Definition co_sendResp (answers : list (Z * Z)) (resp : list Z) : send_end := send_loop answers resp 0 [].

(** ** Accepting *)

(** What the accept loops schedule. *)
Inductive scheduled := handle_client (client : nat) | start_accept.

(** A round of the loop: whether the server is stopped when it is tested, and the
    client [accept] gives ([None] for a null pointer). *)
Definition round : Type := bool * option nat.

Definition schedule_client (client : option nat) : list scheduled :=
  match client with Some c => [handle_client c] | None => [] end.

(** [TcpServer::startAccept]: what it schedules, and whether it has ended or waits
    for the next client. *)
Fixpoint tcp_startAccept (rounds : list round) : list scheduled * bool :=
  match rounds with
  | [] => ([], false)
  | (stop, client) :: rounds =>
      if stop then ([], true)
      else let (s, ended) := tcp_startAccept rounds in (schedule_client client ++ s, ended)
  end.

(** [HttpServer::startAccept]: [count] is decremented and tested before every
    round, and the coroutine schedules itself again when the loop is left. *)
Fixpoint http_accept_loop (count : nat) (rounds : list round) : list scheduled * bool :=
  match count with
  | O | S O => ([start_accept], true)
  | S count =>
      match rounds with
      | [] => ([], false)
      | (stop, client) :: rounds =>
          if stop then ([start_accept], true)
          else let (s, ended) := http_accept_loop count rounds in (schedule_client client ++ s, ended)
      end
  end.
Definition http_startAccept (rounds : list round) : list scheduled * bool := http_accept_loop 1000 rounds.

(** ** Lemmas on parameters *)

Lemma find_from_app c pre s n :
  str_find [c] s = Some n -> find_int c (zlen pre) (pre ++ s) = zlen pre + Z.of_nat n.
Proof.
  intros H. unfold find_int, str_find_from, zlen. rewrite Nat2Z.id.
  rewrite (proj2 (Nat.leb_le _ _)) by (rewrite length_app; lia).
  rewrite drop_app_length, H. cbn. lia.
Qed.

Lemma find_from_None c pre s : c ∉ s -> find_int c (zlen pre) (pre ++ s) = -1.
Proof.
  intros H. unfold find_int, str_find_from, zlen. rewrite Nat2Z.id.
  rewrite (proj2 (Nat.leb_le _ _)) by (rewrite length_app; lia).
  by rewrite drop_app_length, str_find_char_None.
Qed.

Lemma sub_app pre mid post : sub (zlen pre) (zlen mid) (pre ++ mid ++ post) = mid.
Proof.
  unfold sub, str_substr, zlen. rewrite !Nat2Z.id, drop_app_length. by apply take_app_length'.
Qed.

(** The first occurrence of a character comes after a part that has none. *)
Lemma find_after c pre mid post :
  c ∉ mid -> find_int c (zlen pre) (pre ++ mid ++ post) = -1 \/
             zlen (pre ++ mid) <= find_int c (zlen pre) (pre ++ mid ++ post).
Proof.
  intros H. unfold find_int, str_find_from, zlen. rewrite Nat2Z.id.
  rewrite (proj2 (Nat.leb_le _ _)) by (rewrite length_app; lia). rewrite drop_app_length.
  destruct (str_find [c] (mid ++ post)) as [n|] eqn:E; cbn; [right|by left].
  rewrite length_app. destruct (str_find_Some _ _ _ E) as (a & r & Heq & Hl & _).
  destruct (decide (n < length mid)%nat) as [Hlt|]; [|lia]. exfalso. apply H.
  apply list_elem_of_lookup_2 with n. rewrite <- (lookup_app_l mid post) by done. rewrite Heq, <- Hl.
  rewrite lookup_app_r by lia. by rewrite Nat.sub_diag.
Qed.

(** The query of a list of parameters. *)
Definition pair_text (kv : list Z * list Z) : list Z := kv.1 ++ EQUALS :: kv.2.
Fixpoint query (kvs : list (list Z * list Z)) : list Z :=
  match kvs with
  | [] => []
  | [kv] => pair_text kv
  | kv :: kvs => pair_text kv ++ AMP :: query kvs
  end.

(** Keys without [=] and [#], values without [&] and [#]. *)
Definition pair_ok (kv : list Z * list Z) : Prop :=
  (EQUALS ∉ kv.1) /\ (HASH ∉ kv.1) /\ (AMP ∉ kv.2) /\ (HASH ∉ kv.2).
#[global] Instance pair_ok_dec kv : Decision (pair_ok kv).
Proof. unfold pair_ok. apply _. Defined.

(** The fragment: nothing, or [#] and anything. *)
Definition fragment (f : list Z) : Prop := match f with [] => True | c :: _ => c = HASH end.

Definition all_params (kvs : list (list Z * list Z)) (m : strings) : strings :=
  fold_left (fun m kv => map_insert kv.1 kv.2 m) kvs m.

Lemma query_cons kv kvs :
  query (kv :: kvs) = pair_text kv ++ match kvs with [] => [] | _ => AMP :: query kvs end.
Proof. destruct kvs; [by rewrite app_nil_r|done]. Qed.

(** Where a value ends: at the [&] after it, or at the end of the query. *)
Lemma value_end_spec pre v tail frag :
  AMP ∉ v -> match tail with [] => True | c :: _ => c = AMP end ->
  let uri := pre ++ (EQUALS :: v) ++ tail ++ frag in
  let stop := zlen pre + 1 + zlen v + zlen tail in
  let ve := find_int AMP (zlen pre) uri in
  (if (ve =? -1) || (stop <? ve) then stop else ve) = zlen pre + 1 + zlen v.
Proof.
  intros Hv Ht uri stop ve. unfold ve, uri, stop.
  assert (Hamp : AMP ∉ EQUALS :: v) by (rewrite not_elem_of_cons; done).
  destruct tail as [|c tail].
  - destruct (find_after AMP pre (EQUALS :: v) frag Hamp) as [E|E]; cbn [app] in *; zlen_nil_simpl;
      [rewrite E; cbn; lia|].
    rewrite zlen_app, zlen_cons in E. set (x := find_int AMP _ _) in *.
    destruct ((x =? -1) || _) eqn:B; [lia|]. bool_to_prop. lia.
  - cbn in Ht. subst c. cbn [app].
    rewrite (find_from_app _ _ _ (length (EQUALS :: v))) by (by apply (str_find_char AMP (EQUALS :: v))).
    rewrite zlen_cons. pose proof (zlen_nonneg tail). cbn [length].
    rewrite (proj2 (Z.eqb_neq _ (-1))), (proj2 (Z.ltb_ge _ _)) by (unfold zlen in *; lia). cbn. unfold zlen. lia.
Qed.

(** One round of the loop on [key=value] followed by [rest], which is at the end of
    the query or starts with [&]. *)
Lemma params_round fuel pre k v tail frag m :
  pair_ok (k, v) -> fragment frag -> match tail with [] => True | c :: _ => c = AMP end ->
  let uri := pre ++ pair_text (k, v) ++ tail ++ frag in
  let stop := zlen (pre ++ pair_text (k, v) ++ tail) in
  params_loop (S fuel) uri (zlen pre) stop m =
  params_loop fuel uri (zlen (pre ++ pair_text (k, v)) + 1) stop (map_insert k v m).
Proof.
  intros (Hk1 & Hk2 & Hv1 & Hv2) Hf Ht uri stop. cbn [fst snd] in *.
  assert (Huri1 : uri = pre ++ (k ++ EQUALS :: v ++ tail ++ frag))
    by (unfold uri, pair_text; cbn; app_simpl).
  assert (Huri2 : uri = (pre ++ k) ++ (EQUALS :: v) ++ tail ++ frag)
    by (unfold uri, pair_text; cbn; app_simpl).
  assert (Huri3 : uri = (pre ++ k ++ [EQUALS]) ++ v ++ tail ++ frag)
    by (unfold uri, pair_text; cbn; app_simpl).
  assert (Hstop : stop = zlen pre + zlen k + 1 + zlen v + zlen tail)
    by (unfold stop, pair_text; cbn; zlen_simpl; lia).
  pose proof (zlen_nonneg k); pose proof (zlen_nonneg v); pose proof (zlen_nonneg tail); pose proof (zlen_nonneg pre).
  cbn [params_loop]. rewrite (proj2 (Z.ltb_lt _ _)) by lia.
  assert (Hke : find_int EQUALS (zlen pre) uri = zlen (pre ++ k)).
  { rewrite Huri1, (find_from_app _ _ _ (length k)) by (by apply str_find_char). zlen_simpl. done. }
  rewrite Hke. assert (Hzk : zlen (pre ++ k) = zlen pre + zlen k) by (by zlen_simpl).
  rewrite (proj2 (Z.eqb_neq _ (-1))), (proj2 (Z.ltb_ge stop _)) by lia. cbn [orb].
  assert (Hkey : sub (zlen pre) (zlen (pre ++ k) - zlen pre) uri = k).
  { replace (zlen (pre ++ k) - zlen pre) with (zlen k) by lia. rewrite Huri1. apply sub_app. }
  pose proof (value_end_spec (pre ++ k) v tail frag Hv1 Ht) as Hve. cbn zeta in Hve. rewrite <- Huri2 in Hve.
  replace (zlen (pre ++ k) + 1 + zlen v + zlen tail) with stop in Hve by lia.
  rewrite Hve, Hkey. f_equal.
  - unfold pair_text. cbn. zlen_simpl. lia.
  - f_equal. replace (zlen (pre ++ k) + 1) with (zlen (pre ++ k ++ [EQUALS])) by (zlen_simpl; lia).
    replace (zlen (pre ++ k ++ [EQUALS]) + zlen v - zlen (pre ++ k) - 1) with (zlen v) by (zlen_simpl; lia).
    rewrite Huri3. apply sub_app.
Qed.

Lemma params_all fuel pre kvs frag m :
  Forall pair_ok kvs -> fragment frag -> (length kvs < fuel)%nat ->
  params_loop fuel (pre ++ query kvs ++ frag) (zlen pre) (zlen (pre ++ query kvs)) m = Some (all_params kvs m).
Proof.
  intros Hk Hf. revert fuel pre m. induction Hk as [|[k v] kvs Hkv Hk IH]; intros fuel pre m Hfuel;
    destruct fuel as [|fuel]; cbn [length] in Hfuel; try lia.
  { cbn [query params_loop]. by rewrite (app_nil_r pre), Z.ltb_irrefl. }
  rewrite query_cons. set (tail := match kvs with [] => [] | _ => AMP :: query kvs end).
  replace ((pair_text (k, v) ++ tail) ++ frag) with (pair_text (k, v) ++ tail ++ frag) by app_simpl.
  rewrite params_round by (done || by destruct kvs). unfold all_params. cbn [fold_left fst snd].
  destruct kvs as [|kv kvs].
  - unfold tail. rewrite app_nil_r. destruct fuel as [|fuel]; [lia|]. cbn [params_loop].
    by rewrite (proj2 (Z.ltb_ge _ _)) by lia.
  - specialize (IH fuel (pre ++ pair_text (k, v) ++ [AMP]) (map_insert k v m) ltac:(lia)).
    unfold all_params in IH. rewrite <- IH. unfold tail. f_equal.
    + app_simpl.
    + zlen_simpl. lia.
    + zlen_simpl. lia.
Qed.

Lemma length_query kvs : (length kvs <= length (query kvs))%nat.
Proof.
  induction kvs as [|kv kvs IH]; [done|]. rewrite query_cons, length_app. unfold pair_text. rewrite length_app.
  cbn [length]. destruct kvs; cbn [length] in *; lia.
Qed.

Lemma query_no_hash kvs : Forall pair_ok kvs -> HASH ∉ query kvs.
Proof.
  induction 1 as [|kv kvs (H1 & H2 & H3 & H4) _ IH]; [by apply not_elem_of_nil|].
  rewrite query_cons. unfold pair_text. rewrite !not_elem_of_app, not_elem_of_cons.
  split_and!; try done. destruct kvs; [by apply not_elem_of_nil|]. by rewrite not_elem_of_cons.
Qed.

Lemma find_int_0 c a r : c ∉ a -> find_int c 0 (a ++ c :: r) = zlen a.
Proof.
  intros H. pose proof (find_from_app c [] (a ++ c :: r) (length a) (str_find_char c a r H)) as E.
  cbn [app] in E. change (zlen []) with 0 in E. rewrite E. unfold zlen. lia.
Qed.

Lemma find_int_None c s : c ∉ s -> find_int c 0 s = -1.
Proof. apply (find_from_None c []). Qed.

(** The entry that counts is the first one. *)
Definition first_value (kvs : list (list Z * list Z)) (k : list Z) : option (list Z) :=
  snd <$> List.find (fun kv => str_eqb kv.1 k) kvs.

Lemma map_insert_lookup k v m k' :
  map_insert k v m !! k' = match m !! k' with Some x => Some x | None => if str_eqb k k' then Some v else None end.
Proof.
  unfold map_insert, str_eqb. case_bool_decide as E.
  - subst k'. destruct (m !! k) eqn:Em; [done|]. by rewrite lookup_insert_eq.
  - destruct (m !! k); [by destruct (m !! k')|]. rewrite lookup_insert_ne by done. by destruct (m !! k').
Qed.

Lemma all_params_lookup kvs m k :
  all_params kvs m !! k = match m !! k with Some x => Some x | None => first_value kvs k end.
Proof.
  revert m. induction kvs as [|kv kvs IH]; intros m; cbn [all_params fold_left].
  - by destruct (m !! k).
  - unfold all_params in IH. rewrite IH, map_insert_lookup. unfold first_value. cbn [List.find].
    destruct (m !! k); [done|]. by destruct (str_eqb kv.1 k).
Qed.

Lemma parserParams_query path kvs frag :
  QUESTION ∉ path -> HASH ∉ path -> Forall pair_ok kvs -> fragment frag ->
  parserParams (path ++ QUESTION :: query kvs ++ frag) = Some (path, all_params kvs ∅).
Proof.
  intros Hq Hh Hk Hf. unfold parserParams. set (uri := path ++ _).
  assert (Huri : uri = (path ++ [QUESTION]) ++ query kvs ++ frag) by (unfold uri; app_simpl).
  assert (Hq' : find_int QUESTION 0 uri = zlen path) by (by apply find_int_0).
  pose proof (zlen_nonneg path). rewrite Hq', (proj2 (Z.eqb_neq _ (-1))) by lia.
  assert (Hend : (let e := find_int HASH 0 uri in if e =? -1 then zlen uri else e) =
    zlen ((path ++ [QUESTION]) ++ query kvs)).
  { assert (Hno : HASH ∉ (path ++ [QUESTION]) ++ query kvs).
    { rewrite !not_elem_of_app, not_elem_of_cons. split_and!; try done; [by apply not_elem_of_nil|by apply query_no_hash]. }
    destruct frag as [|c frag].
    - rewrite app_nil_r in Huri. rewrite Huri. by rewrite find_int_None.
    - cbn in Hf. subst c. rewrite Huri, app_assoc. rewrite find_int_0 by done. cbn zeta.
      pose proof (zlen_nonneg ((path ++ [QUESTION]) ++ query kvs)).
      by rewrite (proj2 (Z.eqb_neq _ (-1))) by lia. }
  cbn zeta in *. rewrite Hend.
  replace (zlen path + 1) with (zlen (path ++ [QUESTION])) by (zlen_simpl; lia).
  rewrite Huri at 2. rewrite params_all; [|done|done|].
  - cbn [mbind option_bind]. do 2 f_equal. unfold uri. exact (sub_app [] path (QUESTION :: query kvs ++ frag)).
  - rewrite Huri, !length_app. pose proof (length_query kvs). lia.
Qed.

(** ** Lemmas on cookies *)

Lemma getlines_sep c a s item :
  c ∉ a -> getlines c (a ++ c :: s) item = (item ++ a) :: getlines c s [].
Proof.
  revert item. induction a as [|x a IH]; intros item Hc; cbn [app getlines].
  - by rewrite Z.eqb_refl, app_nil_r.
  - rewrite not_elem_of_cons in Hc. destruct Hc as [Hx Ha].
    rewrite (proj2 (Z.eqb_neq x c)) by done. rewrite IH by done. f_equal. app_simpl.
Qed.

Lemma getlines_last c a item :
  c ∉ a -> item ++ a <> [] -> getlines c a item = [item ++ a].
Proof.
  revert item. induction a as [|x a IH]; intros item Hc Hn; cbn [getlines].
  - rewrite app_nil_r in *. by destruct item.
  - rewrite not_elem_of_cons in Hc. destruct Hc as [Hx Ha].
    rewrite (proj2 (Z.eqb_neq x c)) by done. rewrite IH by (done || by destruct item). f_equal. app_simpl.
Qed.

(** The text of a [Cookie] header: the pairs separated by [; ]. *)
Fixpoint cookie_text (kvs : list (list Z * list Z)) : list Z :=
  match kvs with
  | [] => []
  | [kv] => pair_text kv
  | kv :: kvs => pair_text kv ++ SEMI :: 32 :: cookie_text kvs
  end.

Definition no_leading_blank (s : list Z) : Prop := match s with c :: _ => is_blank c = false | [] => True end.
#[global] Instance no_leading_blank_dec s : Decision (no_leading_blank s).
Proof. destruct s; cbn; apply _. Defined.

(** Names without [=] and [;], values without [;], neither starting with a blank. *)
Definition cookie_ok (kv : list Z * list Z) : Prop :=
  (EQUALS ∉ kv.1) /\ (SEMI ∉ kv.1) /\ (SEMI ∉ kv.2) /\ no_leading_blank kv.1 /\ no_leading_blank kv.2.
#[global] Instance cookie_ok_dec kv : Decision (cookie_ok kv).
Proof. unfold cookie_ok. apply _. Defined.

Lemma erase_none s : no_leading_blank s -> erase_blanks s = s.
Proof. destruct s as [|c s]; [done|]. cbn. by intros ->. Qed.

Lemma parse_cookie_pair m kv (blank : bool) :
  cookie_ok kv -> parse_cookie m ((if blank then [32] else []) ++ pair_text kv) = map_insert kv.1 kv.2 m.
Proof.
  intros (H1 & H2 & H3 & H4 & H5). unfold parse_cookie. destruct kv as [k v]. cbn [fst snd] in *.
  set (b := if blank then [32] else []).
  assert (Hb : EQUALS ∉ b ++ k) by (rewrite not_elem_of_app; split; [destruct blank; decide_now|done]).
  replace (b ++ pair_text (k, v)) with ((b ++ k) ++ EQUALS :: v) by (unfold pair_text; cbn; app_simpl).
  rewrite str_find_char by done. unfold str_substr. rewrite drop_0, take_app_length', drop_app_add by done.
  change (drop 1 (EQUALS :: v)) with v. rewrite (erase_none v) by done. f_equal.
  destruct blank; cbn; by apply erase_none.
Qed.

Lemma parserCookies_loop kvs m (blank : bool) :
  Forall cookie_ok kvs ->
  fold_left parse_cookie (getlines SEMI (cookie_text kvs) (if blank then [32] else [])) m = all_params kvs m.
Proof.
  intros Hk. revert m blank. induction Hk as [|kv kvs Hkv Hk IH]; intros m blank; [by destruct blank|].
  assert (Hs : SEMI ∉ pair_text kv).
  { destruct Hkv as (_ & H2 & H3 & _). unfold pair_text. by rewrite not_elem_of_app, not_elem_of_cons. }
  unfold all_params. cbn [fold_left]. fold (all_params kvs (map_insert kv.1 kv.2 m)).
  destruct kvs as [|kv' kvs].
  - cbn [cookie_text]. rewrite getlines_last; [|done|by destruct blank, kv as [[|??] ?]].
    cbn [fold_left]. by rewrite parse_cookie_pair.
  - change (cookie_text (kv :: kv' :: kvs)) with (pair_text kv ++ SEMI :: 32 :: cookie_text (kv' :: kvs)).
    rewrite getlines_sep by done. cbn [fold_left]. rewrite parse_cookie_pair by done.
    rewrite <- (IH _ true). done.
Qed.

(** * Results *)

(** Requests are decoded: for a URI made of a path, a query of [key=value] pairs
    and possibly a fragment, and a [Cookie] header of pairs separated by [; ], the
    constructor returns the path, and [getParam] and [getCookie] give the first
    value of every key, the empty string for the others. *)
Theorem request_decoded path kvs frag cookies :
  QUESTION ∉ path -> HASH ∉ path -> Forall pair_ok kvs -> fragment frag -> Forall cookie_ok cookies ->
  exists r, Request_ctor (path ++ QUESTION :: query kvs ++ frag) (cookie_text cookies) = Some r /\
    m_path r = path /\
    (forall k, getParam r k = default [] (first_value kvs k)) /\
    (forall k, getCookie r k = default [] (first_value cookies k)).
Proof.
  intros Hq Hh Hk Hf Hc. unfold Request_ctor. rewrite parserParams_query by done. cbn [mbind option_bind fst snd].
  eexists. split_and!; [done|done| |]; intros k; unfold getParam, getCookie; cbn [m_params m_cookies].
  - by rewrite all_params_lookup, lookup_empty.
  - unfold parserCookies. pose proof (parserCookies_loop cookies ∅ false Hc) as E. cbn [app] in E. cbv iota in E.
    by rewrite E, all_params_lookup, lookup_empty.
Qed.

Lemma request_decoded_witness :
  exists r, Request_ctor (str "/index?a=1&b=2=3&a=4#top?x=9") (str "sid=abc; lang=en") = Some r /\
    m_path r = str "/index" /\ getParam r (str "a") = str "1" /\ getParam r (str "b") = str "2=3" /\
    getCookie r (str "lang") = str "en".
Proof.
  destruct (request_decoded (str "/index") [(str "a", str "1"); (str "b", str "2=3"); (str "a", str "4")]
    (str "#top?x=9") [(str "sid", str "abc"); (str "lang", str "en")]) as (r & Hr & Hp & Hk & Hc);
    [decide_now|decide_now|decide_now|done|decide_now|].
  exists r. rewrite !Hk, Hc. by split_and!.
Defined.

(** Without a [?] the whole URI is read as a query: the path stays empty and a
    path that contains [=] becomes a parameter. *)
Theorem params_without_query kvs :
  Forall pair_ok kvs -> QUESTION ∉ query kvs ->
  exists r, Request_ctor (query kvs) [] = Some r /\ m_path r = [] /\
    (forall k, getParam r k = default [] (first_value kvs k)).
Proof.
  intros Hk Hq. unfold Request_ctor, parserParams. rewrite (find_int_None QUESTION) by done.
  rewrite (find_int_None HASH) by (by apply query_no_hash). cbn zeta. change (-1 =? -1) with true. cbv iota.
  pose proof (params_all (S (length (query kvs))) [] kvs [] ∅ Hk I) as E. cbn [app] in E.
  rewrite app_nil_r in E. change (-1 + 1) with (zlen (@nil Z)). rewrite E by (pose proof (length_query kvs); lia).
  cbn [mbind option_bind fst snd]. eexists. split_and!; [done..|].
  intros k. unfold getParam. cbn [m_params]. by rewrite all_params_lookup, lookup_empty.
Qed.

Lemma params_without_query_witness :
  exists r, Request_ctor (str "/files/v=2") [] = Some r /\ m_path r = [] /\ getParam r (str "/files/v") = str "2".
Proof.
  destruct (params_without_query [(str "/files/v", str "2")]) as (r & Hr & Hp & Hk); [decide_now|decide_now|].
  exists r. rewrite Hk. by split_and!.
Defined.

(** ** Routing *)

Definition register_all (regs : list (list Z * Z * nat)) : urls :=
  fold_left (fun m r => registerUrl r.1.1 r.2 r.1.2 m) regs ∅.

Lemma register_all_lookup regs m path :
  fold_left (fun m r => registerUrl r.1.1 r.2 r.1.2 m) regs m !! path =
  match List.find (fun r => str_eqb r.1.1 path) (reverse regs) with
  | Some r => Some (r.1.2, r.2)
  | None => m !! path
  end.
Proof.
  induction regs as [|r regs IH] using rev_ind; [done|].
  rewrite fold_left_app, reverse_snoc. cbn [fold_left List.find]. unfold registerUrl, str_eqb.
  case_bool_decide as E; [by rewrite E, lookup_insert_eq|by rewrite lookup_insert_ne].
Qed.

(** Routing: for a URL whose path contains no [?], with or without a query, the
    handler awaited is that of the last registration of the path, provided the
    request's method is the registered one.  So a second registration of a path
    under another method takes the first one's place. *)
Theorem handler_chosen regs path q method :
  QUESTION ∉ path -> match q with [] => True | c :: _ => c = QUESTION end ->
  execHandler (register_all regs) (path ++ q) method =
  match List.find (fun r => str_eqb r.1.1 path) (reverse regs) with
  | Some r => if str_eqb method (HttpMethodToString r.1.2) then Some r.2 else None
  | None => None
  end.
Proof.
  intros Hq Hc. unfold execHandler, register_all.
  assert (Hp : (if find_int QUESTION 0 (path ++ q) =? -1 then path ++ q
                else sub 0 (find_int QUESTION 0 (path ++ q)) (path ++ q)) = path).
  { destruct q as [|c q]; [by rewrite app_nil_r, find_int_None|]. subst c. rewrite find_int_0 by done.
    pose proof (zlen_nonneg path). rewrite (proj2 (Z.eqb_neq _ (-1))) by lia. exact (sub_app [] path _). }
  cbn zeta. rewrite Hp, register_all_lookup. by destruct (List.find _ _) as [[[u m] cb]|].
Qed.

Lemma handler_chosen_witness :
  let urls := register_all [(str "/user", HTTP_GET, 1%nat); (str "/user", HTTP_POST, 2%nat)] in
  execHandler urls (str "/user?id=7") (str "POST") = Some 2%nat /\
  execHandler urls (str "/user") (str "GET") = None.
Proof.
  split.
  - rewrite (handler_chosen [(str "/user", HTTP_GET, 1%nat); (str "/user", HTTP_POST, 2%nat)] (str "/user") (str "?id=7"));
      [done|decide_now|done].
  - rewrite (handler_chosen [(str "/user", HTTP_GET, 1%nat); (str "/user", HTTP_POST, 2%nat)] (str "/user") []);
      [done|decide_now|done].
Defined.

(** ** Responses *)

(** The socket takes something, and no more than it is offered. *)
Fixpoint takes (answers : list (Z * Z)) (remaining : Z) : Prop :=
  match answers with
  | [] => 0 <= remaining
  | a :: answers => 0 < a.1 <= remaining /\ takes answers (remaining - a.1)
  end.
Definition total (answers : list (Z * Z)) : Z := foldr (fun a n => a.1 + n) 0 answers.

Lemma takes_bound answers remaining : takes answers remaining -> 0 <= total answers <= remaining.
Proof.
  revert remaining. induction answers as [|a answers IH]; cbn; intros remaining; [lia|].
  intros [H1 H2]. specialize (IH _ H2). unfold total in IH. lia.
Qed.

Lemma send_loop_takes answers rest resp offset :
  0 <= offset -> takes answers (zlen resp - offset) ->
  send_loop (answers ++ rest) resp offset (take (Z.to_nat offset) resp) =
  send_loop rest resp (offset + total answers) (take (Z.to_nat (offset + total answers)) resp).
Proof.
  revert offset. induction answers as [|[n e] answers IH]; intros offset Ho; cbn [takes app fst].
  { unfold total. cbn. by rewrite Z.add_0_r. }
  intros [Hn Ht]. pose proof (takes_bound _ _ Ht). cbn [send_loop].
  rewrite (proj2 (Z.ltb_ge offset 0)), (proj2 (Z.ltb_lt offset _)) by lia.
  rewrite (proj2 (Z.eqb_neq n (-1))) by lia. cbn [andb].
  assert (take (Z.to_nat offset) resp ++ sub offset n resp = take (Z.to_nat (offset + n)) resp) as ->.
  { unfold sub, str_substr. rewrite Z2Nat.inj_add by lia.
    rewrite <- (take_drop (Z.to_nat offset) resp) at 3. rewrite take_app_add'; [done|].
    rewrite length_take. unfold zlen in *. lia. }
  rewrite IH by (try lia; by replace (zlen resp - (offset + n)) with (zlen resp - offset - n) by lia).
  unfold total. cbn. by rewrite Z.add_assoc.
Qed.

(** Sending: while the socket takes octets the response goes out in order; once it
    has taken all of them the result is the length of the response.  A broken
    pipe after a part also gives the length of the whole response, any other
    error -1. *)
Theorem co_sendResp_spec answers resp errno more :
  takes answers (zlen resp) ->
  let sent := total answers in
  (sent = zlen resp -> co_sendResp answers resp = Sent (zlen resp) resp) /\
  (sent < zlen resp ->
    co_sendResp answers resp = Send_waits (take (Z.to_nat sent) resp) /\
    co_sendResp (answers ++ (-1, errno) :: more) resp =
      Sent (if errno =? EPIPE then zlen resp else -1) (take (Z.to_nat sent) resp)).
Proof.
  intros Ht sent. pose proof (takes_bound _ _ Ht).
  pose proof (send_loop_takes answers [] resp 0) as E1. pose proof (send_loop_takes answers ((-1, errno) :: more) resp 0) as E2.
  rewrite Z.sub_0_r in *. specialize (E1 ltac:(lia) Ht). specialize (E2 ltac:(lia) Ht).
  rewrite app_nil_r in E1. change (take (Z.to_nat 0) resp) with (@nil Z) in *. rewrite Z.add_0_l in *. fold sent in E1, E2.
  unfold co_sendResp. split; intros Hs.
  - rewrite E1, Hs. cbn [send_loop]. rewrite (proj2 (Z.ltb_ge _ 0)), Z.ltb_irrefl by apply zlen_nonneg. f_equal. apply take_ge. unfold zlen. lia.
  - rewrite E1, E2. cbn [send_loop]. rewrite (proj2 (Z.ltb_ge _ 0)), (proj2 (Z.ltb_lt _ _)) by lia. split; [done|].
    change (-1 =? -1) with true. cbn [andb]. by destruct (errno =? EPIPE).
Qed.

Lemma co_sendResp_spec_witness :
  co_sendResp [(3, 0); (2, 0)] (str "hello") = Sent 5 (str "hello") /\
  co_sendResp [(3, 0); (-1, EPIPE)] (str "hello") = Sent 5 (str "hel").
Proof.
  split.
  - apply (co_sendResp_spec [(3, 0); (2, 0)] (str "hello") 0 []); [by vm_compute|done].
  - apply (co_sendResp_spec [(3, 0)] (str "hello") EPIPE []); [by vm_compute|done].
Defined.

(** ** Accepting *)

Definition clients (cs : list nat) : list round := map (fun c => (false, Some c)) cs.

Lemma http_accept_clients count cs rest :
  http_accept_loop (S (length cs + count)) (clients cs ++ rest) =
  let (s, ended) := http_accept_loop (S count) rest in (map handle_client cs ++ s, ended).
Proof.
  induction cs as [|c cs IH].
  { cbn [length Nat.add clients map app]. by destruct (http_accept_loop (S count) rest). }
  change (http_accept_loop (S (length (c :: cs) + count)) (clients (c :: cs) ++ rest))
    with (let (s, ended) := http_accept_loop (S (length cs + count)) (clients cs ++ rest) in
          (schedule_client (Some c) ++ s, ended)).
  rewrite IH. by destruct (http_accept_loop (S count) rest).
Qed.

(** Accepting: every client accepted by the HTTP server is handed to exactly one
    [handleClient], in order; after 999 of them the coroutine schedules itself once
    more and ends, whatever comes next.  A stopped server accepts nobody, but its
    coroutine still schedules itself again, where the TCP server's ends. *)
Theorem http_accept_spec cs rest client :
  (length cs <= 999)%nat ->
  (http_startAccept (clients cs) = if decide (length cs = 999)%nat then (map handle_client cs ++ [start_accept], true)
                                   else (map handle_client cs, false)) /\
  (length cs = 999%nat -> http_startAccept (clients cs ++ rest) = (map handle_client cs ++ [start_accept], true)) /\
  http_startAccept (clients cs ++ (true, client) :: rest) = (map handle_client cs ++ [start_accept], true) /\
  tcp_startAccept (clients cs ++ (true, client) :: rest) = (map handle_client cs, true).
Proof.
  intros Hl. unfold http_startAccept.
  assert (E : forall r, http_accept_loop 1000 (clients cs ++ r) =
    let (s, ended) := http_accept_loop (S (999 - length cs)) r in (map handle_client cs ++ s, ended)).
  { intros r. rewrite <- http_accept_clients. do 2 f_equal. lia. }
  split_and!.
  - specialize (E []). rewrite app_nil_r in E. rewrite E. case_decide as D; [by rewrite D|].
    destruct (999 - length cs)%nat eqn:F; [lia|]. cbn [http_accept_loop]. by rewrite app_nil_r.
  - intros D. by rewrite E, D.
  - rewrite E. by destruct (999 - length cs)%nat.
  - clear. induction cs as [|c cs IH]; [done|]. cbn. fold (clients cs). by rewrite IH.
Qed.

Lemma http_accept_spec_witness :
  http_startAccept (clients [4%nat; 5%nat]) = ([handle_client 4; handle_client 5], false) /\
  http_startAccept [(true, None)] = ([start_accept], true).
Proof.
  split.
  - apply (http_accept_spec [4%nat; 5%nat] [] None). cbn. lia.
  - apply (http_accept_spec [] [] None). cbn. lia.
Defined.
