(* ===== verification/HttpMessage.v ===== *)
(** * HTTP messages: what requests and responses share

    Models [sylar/protocol/http/parser.hpp] and [impl/parser.hpp] with the
    character classes and limits of [constants.hpp] and the order of header names
    of [protocol/common/utilities.hpp]: white space and tokens, header lists,
    bodies, and the loop that cuts a buffer into lines, which
    [request::consume] and [response::consume] both run. *)

From stdpp Require Import sorting.
From S2P Require Import Prelude CppString.

(** ** Characters *)

(** [header_token]: the rows 20..7f of the table; every other entry is 0. *)
Definition header_token_rows : list (list Z) :=
  [[0;1;0;1;1;1;1;1;0;0;1;1;0;1;1;0];
   [1;1;1;1;1;1;1;1;1;1;0;0;0;0;0;0];
   [0;1;1;1;1;1;1;1;1;1;1;1;1;1;1;1];
   [1;1;1;1;1;1;1;1;1;1;1;0;0;0;1;1];
   [1;1;1;1;1;1;1;1;1;1;1;1;1;1;1;1];
   [1;1;1;1;1;1;1;1;1;1;1;0;1;0;1;0]].

Definition header_token (c : Z) : Z :=
  default 0 (header_token_rows !! Z.to_nat ((c - 32) / 16) ≫= fun row => row !! Z.to_nat (c mod 16)).

Definition is_token_char (c : Z) : bool := (32 <=? c) && (header_token c =? 1).
Definition is_not_token_char (c : Z) : bool := negb (is_token_char c).
Definition is_whitespace_char (c : Z) : bool := (c =? 9) || (c =? 32).

(** ** White space *)

(** [std::find_if(it, end, &is_not_whitespace_char)], as the rest of the text. *)
Fixpoint skip_ws (s : list Z) : list Z :=
  match s with
  | c :: s' => if is_whitespace_char c then skip_ws s' else s
  | [] => []
  end.

Definition extract_lws (s : list Z) : list Z :=
  match s with
  | c1 :: c2 :: c3 :: s' =>
      if (c1 =? CR) && (c2 =? LF) && is_whitespace_char c3 then skip_ws s' else skip_ws s
  | _ => skip_ws s
  end.

(** The loop of [extract_all_lws]: it ends at the end of the text, or when a pass
    takes nothing.  Every other pass takes something. *)
Fixpoint all_lws_loop (fuel : nat) (old_it : list Z) : list Z :=
  let new_it := extract_lws old_it in
  match fuel with
  | O => new_it
  | S fuel =>
      if (length new_it =? 0)%nat || (length old_it =? length new_it)%nat then new_it
      else all_lws_loop fuel new_it
  end.
Definition extract_all_lws (s : list Z) : list Z := all_lws_loop (length s) s.

(** [strip_lws]; [None]: the two iterators cross, and [std::string] throws
    [std::length_error]. *)
Definition strip_lws (input : list Z) : option (list Z) :=
  match extract_all_lws input with
  | [] => Some []
  | begin =>
      match extract_all_lws (reverse input) with
      | [] => Some []
      | rbegin =>
          let first := (length input - length begin)%nat in
          if (first <=? length rbegin)%nat then Some (take (length rbegin - first) begin) else None
      end
  end.

(** ** Errors *)

Definition bad_request : Z := 400.
Definition request_entity_too_large : Z := 413.
Definition request_header_fields_too_large : Z := 431.
Definition internal_server_error : Z := 500.

(** The exceptions that leave the parser; all derive from [std::exception]. *)
Inductive exn := http_exception (error_code : Z) | length_error.

(** ** Header lists *)

Definition tolower (c : Z) : Z := if (65 <=? c) && (c <=? 90) then c + 32 else c.
Definition lower (s : list Z) : list Z := map tolower s.

(** [ci_less] is [lex] on lower case; two keys are equivalent when neither is
    less. *)
Definition ci_compare (a b : list Z) : comparison := lex (lower a) (lower b).

(** [std::map<std::string, std::string, ci_less>]: the entries in order. *)
Abbreviation header_list := (list (list Z * list Z)).

Fixpoint header_find (key : list Z) (h : header_list) : option (list Z) :=
  match h with
  | [] => None
  | (k, v) :: h => match ci_compare key k with Eq => Some v | _ => header_find key h end
  end.

(** [m_headers[key] = val]: an existing key keeps its spelling. *)
Fixpoint header_set (key val : list Z) (h : header_list) : header_list :=
  match h with
  | [] => [(key, val)]
  | (k, v) :: h' =>
      match ci_compare key k with
      | Lt => (key, val) :: h
      | Eq => (k, val) :: h'
      | Gt => (k, v) :: header_set key val h'
      end
  end.

(** [m_headers.erase(key)] *)
Definition header_erase (key : list Z) (h : header_list) : header_list :=
  List.filter (fun e => match ci_compare key e.1 with Eq => false | _ => true end) h.

(** ** The common part of a message *)

Inductive body_encoding := unknown | plain | chunked.

Record parser := mk_parser {
  m_version : list Z;
  m_headers : header_list;
  m_header_bytes : Z;
  m_body : list Z;
  m_body_bytes_needed : Z;
  m_body_bytes_max : Z;
  m_body_encoding : body_encoding;
}.

Definition max_header_size : Z := 16000.
Definition max_body_size : Z := 32000000.

Definition parser_ctor : parser := mk_parser [] [] 0 [] 0 max_body_size unknown.

(** [parser::reset]: the size limit of bodies stays. *)
Definition parser_reset (p : parser) : parser := mk_parser [] [] 0 [] 0 (m_body_bytes_max p) unknown.

Definition set_max_body_size (value : Z) (p : parser) : parser :=
  mk_parser (m_version p) (m_headers p) (m_header_bytes p) (m_body p) (m_body_bytes_needed p) value (m_body_encoding p).

Definition set_version (version : list Z) (p : parser) : parser :=
  mk_parser version (m_headers p) (m_header_bytes p) (m_body p) (m_body_bytes_needed p) (m_body_bytes_max p)
    (m_body_encoding p).

Definition with_headers (h : header_list) (p : parser) : parser :=
  mk_parser (m_version p) h (m_header_bytes p) (m_body p) (m_body_bytes_needed p) (m_body_bytes_max p)
    (m_body_encoding p).

Definition with_header_bytes (n : Z) (p : parser) : parser :=
  mk_parser (m_version p) (m_headers p) n (m_body p) (m_body_bytes_needed p) (m_body_bytes_max p) (m_body_encoding p).

Definition with_body (body : list Z) (needed : Z) (enc : body_encoding) (p : parser) : parser :=
  mk_parser (m_version p) (m_headers p) (m_header_bytes p) body needed (m_body_bytes_max p) enc.

Definition get_header (key : list Z) (p : parser) : list Z := default [] (header_find key (m_headers p)).

(** [append_header]; [inr]: it throws. *)
Definition append_header (key val : list Z) (p : parser) : parser + exn :=
  if existsb is_not_token_char key then inr (http_exception bad_request)
  else inl (with_headers
    (header_set key (match get_header key p with [] => val | old => old ++ str ", " ++ val end) (m_headers p)) p).

Definition replace_header (key val : list Z) (p : parser) : parser := with_headers (header_set key val (m_headers p)) p.
Definition remove_header (key : list Z) (p : parser) : parser := with_headers (header_erase key (m_headers p)) p.

Definition set_body (value : list Z) (p : parser) : parser :=
  match value with
  | [] =>
      let p := remove_header (str "Content-Length") p in
      with_body [] (m_body_bytes_needed p) (m_body_encoding p) p
  | _ =>
      let p := replace_header (str "Content-Length") (to_string (zlen value)) p in
      with_body value (m_body_bytes_needed p) (m_body_encoding p) p
  end.

(** [process_header] on a line. *)
Definition process_header (line : list Z) (p : parser) : parser + exn :=
  match str_find (str ":") line with
  | None => inr (http_exception bad_request)
  | Some cursor =>
      match strip_lws (take cursor line), strip_lws (drop (cursor + 1) line) with
      | Some key, Some val => append_header key val p
      | _, _ => inr length_error
      end
  end.

Definition raw_header (e : list Z * list Z) : list Z := e.1 ++ str ": " ++ e.2 ++ CRLF.
Definition raw_headers (p : parser) : list Z := concat (map raw_header (m_headers p)).

(** ** Bodies *)

(** [isspace] in the C locale. *)
Definition isspace (c : Z) : bool := (c =? 32) || ((9 <=? c) && (c <=? 13)).

Fixpoint skip_space (s : list Z) : list Z :=
  match s with
  | c :: s' => if isspace c then skip_space s' else s
  | [] => []
  end.

Definition ULONG_MAX : Z := 2 ^ 64 - 1.

(** [std::strtoul(s, &end, 10)]: a magnitude that does not fit gives
    [ULONG_MAX], a minus sign negates modulo 2^64. *)
Definition strtoul (s : list Z) : Z :=
  let s := skip_space s in
  let '(neg, s) := match s with
                   | 45 :: s => (true, s)
                   | 43 :: s => (false, s)
                   | _ => (false, s)
                   end in
  let v := digits_value 0 s in
  if ULONG_MAX <? v then ULONG_MAX else if neg then u64 (- v) else v.

(** [prepare_body]; when it throws, the number of octets needed is already set. *)
Definition prepare_body (p : parser) : parser * (bool + exn) :=
  match get_header (str "Content-Length") p with
  | [] => (p, inl false)
  | cl_header =>
      let p := with_body (m_body p) (strtoul cl_header) (m_body_encoding p) p in
      if m_body_bytes_max p <? m_body_bytes_needed p then (p, inr (http_exception request_entity_too_large))
      else (with_body (m_body p) (m_body_bytes_needed p) plain p, inl true)
  end.

Definition body_ready (p : parser) : bool := m_body_bytes_needed p =? 0.

Definition process_body (buf : list Z) (p : parser) : parser * (Z + exn) :=
  match m_body_encoding p with
  | plain =>
      let processed := Z.min (m_body_bytes_needed p) (zlen buf) in
      (with_body (m_body p ++ take (Z.to_nat processed) buf) (m_body_bytes_needed p - processed) plain p, inl processed)
  | _ => (p, inr (http_exception internal_server_error))
  end.

(** ** Cutting a buffer into lines *)

(** How the loop of [consume] ends: out of octets, with what is left of the
    buffer; at a blank line, with the buffer from its delimiter on; or with an
    exception. *)
Inductive lines_end (S : Type) :=
  | L_more (rest : list Z) (s : S)
  | L_blank (rest : list Z) (s : S)
  | L_throw (e : exn) (s : S)
  | L_fuel.
Arguments L_more {S} _ _.
Arguments L_blank {S} _ _.
Arguments L_throw {S} _ _.
Arguments L_fuel {S}.

Section lines.
Context {S : Type} (header_bytes : S -> Z) (set_header_bytes : Z -> S -> S)
  (on_line : list Z -> S -> S * option exn).

(** [sizeof(header_delimiter)] counts the terminator of the literal. *)
Definition DELIMITER_SIZE : Z := 3.

Fixpoint lines_loop (fuel : nat) (rest : list Z) (s : S) : lines_end S :=
  match fuel with
  | O => L_fuel
  | Datatypes.S fuel =>
      let found := str_find CRLF rest in
      let line_len := default (length rest) found in
      let s := set_header_bytes (header_bytes s + (Z.of_nat line_len + DELIMITER_SIZE)) s in
      if max_header_size <? header_bytes s then L_throw (http_exception request_header_fields_too_large) s
      else
        match found with
        | None => L_more rest (set_header_bytes (header_bytes s - zlen rest) s)
        | Some O => L_blank rest s
        | Some k =>
            match on_line (take k rest) s with
            | (s, None) => lines_loop fuel (drop (k + 2) rest) s
            | (s, Some e) => L_throw e s
            end
        end
  end.
End lines.

(** What the loop leaves alone: a part of the state no line and no count touches. *)
Lemma lines_loop_keeps {S A} (part : S -> A) hb set on_line fuel rest (s : S) :
  (forall n s, part (set n s) = part s) -> (forall l s, part (on_line l s).1 = part s) ->
  match lines_loop hb set on_line fuel rest s with
  | L_more _ s' | L_blank _ s' | L_throw _ s' => part s' = part s
  | L_fuel => True
  end.
Proof.
  intros Hset Hline. revert rest s. induction fuel as [|fuel IH]; intros rest s; [done|]. cbn [lines_loop].
  set (s1 := set _ s). assert (E1 : part s1 = part s) by apply Hset. destruct (_ <? hb s1); [done|].
  destruct (str_find CRLF rest) as [[|k]|]; [done| |by rewrite Hset].
  pose proof (Hline (take (Datatypes.S k) rest) s1) as H. destruct (on_line _ s1) as [s2 [e|]]; cbn [fst] in H.
  - by rewrite H.
  - specialize (IH (drop (Datatypes.S k + 2) rest) s2). by destruct (lines_loop _ _ _ _ _ _); rewrite ?IH, ?H.
Qed.

(** Where the loop stops: with text that holds no line end, or at the first octets
    of a blank line. *)
Lemma lines_loop_stops {S} hb set on_line fuel rest (s : S) :
  (length rest < fuel)%nat ->
  match lines_loop hb set on_line fuel rest s with
  | L_more rest' _ => str_find CRLF rest' = None
  | L_blank rest' _ => exists pre t, rest = pre ++ rest' /\ rest' = CRLF ++ t
  | L_throw _ _ => True
  | L_fuel => False
  end.
Proof.
  revert rest s. induction fuel as [|fuel IH]; intros rest s Hf; [lia|]. cbn [lines_loop].
  destruct (max_header_size <? _); [done|]. destruct (str_find CRLF rest) as [[|k]|] eqn:E; [| |done].
  - apply str_find_Some in E as (a & t & Ht & Ha & _). exists [], t. by destruct a.
  - destruct (on_line _ _) as [s2 [e|]]; [done|]. apply str_find_Some in E as (a & t & Ht & Ha & _).
    assert (Hlen : (Datatypes.S k + 2 <= length rest)%nat).
    { rewrite Ht, !length_app. change (length CRLF) with 2%nat. lia. }
    specialize (IH (drop (Datatypes.S k + 2) rest) s2). rewrite length_drop in IH. specialize (IH ltac:(lia)).
    destruct (lines_loop _ _ _ _ _ s2) as [| rest' ? | |]; try done. destruct IH as (pre & t' & Hr & Ht').
    exists (take (Datatypes.S k + 2) rest ++ pre), t'. split; [|done]. by rewrite <- app_assoc, <- Hr, take_drop.
Qed.

(** ** Lemmas on white space *)

Definition ws_free_start (s : list Z) : Prop := match s with c :: _ => is_whitespace_char c = false | [] => True end.

(** Neither end is white space. *)
Definition trimmed (s : list Z) : Prop := ws_free_start s /\ ws_free_start (reverse s).
#[global] Instance ws_free_start_dec s : Decision (ws_free_start s).
Proof. destruct s; cbn; apply _. Defined.
#[global] Instance trimmed_dec s : Decision (trimmed s).
Proof. unfold trimmed. apply _. Defined.

Lemma skip_ws_free s : ws_free_start s -> skip_ws s = s.
Proof. destruct s as [|c s]; [done|]. cbn. by intros ->. Qed.

Lemma skip_ws_start s : ws_free_start (skip_ws s).
Proof. induction s as [|c s IH]; cbn; [done|]. by destruct (is_whitespace_char c) eqn:E. Qed.

Lemma extract_lws_no_CR s : CR ∉ s -> extract_lws s = skip_ws s.
Proof.
  destruct s as [|c1 [|c2 [|c3 s]]]; try done. rewrite not_elem_of_cons. intros [H _].
  unfold extract_lws. by rewrite (proj2 (Z.eqb_neq c1 CR)) by done.
Qed.

Lemma skip_ws_suffix s : exists w, s = w ++ skip_ws s.
Proof.
  induction s as [|c s [w IH]]; [by exists []|]. cbn. destruct (is_whitespace_char c).
  - exists (c :: w). cbn. by rewrite <- IH.
  - by exists [].
Qed.

Lemma extract_all_no_CR s : CR ∉ s -> extract_all_lws s = skip_ws s.
Proof.
  intros Hs. destruct (skip_ws_suffix s) as [w Hw].
  assert (Hn : CR ∉ skip_ws s) by (rewrite Hw, not_elem_of_app in Hs; by destruct Hs).
  unfold extract_all_lws. destruct (length s) eqn:L; cbn [all_lws_loop]; rewrite extract_lws_no_CR by done; [done|].
  destruct (_ || _); [done|]. destruct n; cbn [all_lws_loop]; rewrite extract_lws_no_CR by done;
    rewrite (skip_ws_free (skip_ws s)) by apply skip_ws_start; [done|]. by rewrite Nat.eqb_refl, orb_true_r.
Qed.

Lemma CR_reverse s : CR ∉ s -> CR ∉ reverse s.
Proof. by rewrite elem_of_reverse. Qed.

(** White space in front and text without white space at its ends. *)
Lemma strip_lws_pad w s :
  Forall (fun c => is_whitespace_char c = true) w -> CR ∉ s -> trimmed s -> strip_lws (w ++ s) = Some s.
Proof.
  intros Hw Hs [H1 H2].
  assert (Hcr : CR ∉ w ++ s).
  { rewrite not_elem_of_app. split; [|done]. intros Hin. rewrite Forall_forall in Hw. by specialize (Hw _ Hin). }
  assert (Hskip : skip_ws (w ++ s) = s).
  { clear -Hw H1. induction Hw as [|c w Hc _ IH]; cbn; [by apply skip_ws_free|by rewrite Hc]. }
  unfold strip_lws. rewrite (extract_all_no_CR (w ++ s)), Hskip by done.
  destruct s as [|c s]; [done|]. rewrite extract_all_no_CR by (by apply CR_reverse).
  rewrite reverse_app. rewrite skip_ws_free by (destruct (reverse (c :: s)) eqn:E; [|done];
    by apply (f_equal reverse) in E; rewrite reverse_involutive in E).
  destruct (reverse (c :: s) ++ reverse w) as [|x l] eqn:E.
  { apply (f_equal length) in E. rewrite length_app, !length_reverse in E. cbn in E. lia. }
  assert (Hl : length (x :: l) = length (w ++ c :: s)) by (rewrite <- E, !length_app, !length_reverse; lia).
  rewrite Hl, !length_app. rewrite (proj2 (Nat.leb_le _ _)) by lia. f_equal. apply take_ge. lia.
Qed.

Lemma strip_lws_trimmed s : CR ∉ s -> trimmed s -> strip_lws s = Some s.
Proof. intros H1 H2. by apply (strip_lws_pad []). Qed.

(** ** Lemmas on header lists *)

Definition ci_eq (a b : list Z) : Prop := lower a = lower b.
#[global] Instance ci_eq_dec a b : Decision (ci_eq a b).
Proof. unfold ci_eq. apply _. Defined.

Lemma ci_compare_Eq a b : ci_compare a b = Eq <-> ci_eq a b.
Proof. unfold ci_compare, ci_eq. split; [apply lex_Eq|intros ->; apply lex_refl]. Qed.

Lemma header_find_cons k x y h :
  header_find k ((x, y) :: h) = if decide (ci_eq k x) then Some y else header_find k h.
Proof.
  cbn [header_find]. case_decide as D; [by rewrite (proj2 (ci_compare_Eq k x) D)|].
  destruct (ci_compare k x) eqn:E; [|done..]. by apply ci_compare_Eq in E.
Qed.

Lemma header_find_set k k' v h :
  header_find k (header_set k' v h) = if decide (ci_eq k k') then Some v else header_find k h.
Proof.
  induction h as [|[x y] h IH]; cbn [header_set]; [by rewrite header_find_cons|].
  destruct (ci_compare k' x) eqn:E; rewrite !header_find_cons.
  - apply ci_compare_Eq in E. unfold ci_eq in *. repeat case_decide; congruence.
  - done.
  - rewrite IH. assert (~ ci_eq k' x) by (intros H; by rewrite (proj2 (ci_compare_Eq k' x) H) in E).
    unfold ci_eq in *. repeat case_decide; congruence.
Qed.

(** The keys are in strictly increasing order. *)
Definition header_sorted : header_list -> Prop := StronglySorted (fun a b => ci_compare a.1 b.1 = Lt).

Lemma header_set_sorted k v h : header_sorted h -> header_sorted (header_set k v h).
Proof.
  intros Hs. assert (H : header_sorted (header_set k v h) /\
    forall x, ci_compare x k = Lt -> Forall (fun e => ci_compare x e.1 = Lt) h ->
      Forall (fun e => ci_compare x e.1 = Lt) (header_set k v h)); [|apply H].
  induction Hs as [|[x y] h Hs IH Hf]; cbn [header_set].
  { split; [by repeat constructor|by constructor]. }
  destruct IH as [IHs IHf]. destruct (ci_compare k x) eqn:E.
  - split; [by constructor|]. intros z Hz Hzf. inversion_clear Hzf. by constructor.
  - split; [|by constructor]. constructor; [by constructor|]. constructor; [done|].
    apply (Forall_impl _ _ _ Hf). intros e He. by apply (lex_trans _ (lower x)).
  - assert (Hxk : ci_compare x k = Lt) by (unfold ci_compare in *; rewrite lex_opp, E; done).
    split; [constructor; [done|by apply IHf]|]. intros z Hz Hzf. inversion_clear Hzf. constructor; [done|by apply IHf].
Qed.

(** ** Lemmas on lines *)

(** One step of the search, away from a carriage return. *)
Lemma find_CRLF_cons c s : c <> CR -> str_find CRLF (c :: s) = S <$> str_find CRLF s.
Proof.
  intros H. change (str_find CRLF (c :: s)) with
    (if (CR =? c) && starts_with [LF] s then Some 0%nat else S <$> str_find CRLF s).
  by rewrite (proj2 (Z.eqb_neq CR c)) by done.
Qed.

Lemma find_CRLF l r : CR ∉ l -> str_find CRLF (l ++ CRLF ++ r) = Some (length l).
Proof.
  induction l as [|c l IH]; intros Hc; [done|]. rewrite not_elem_of_cons in Hc. destruct Hc as [Hx Hl].
  change ((c :: l) ++ CRLF ++ r) with (c :: l ++ CRLF ++ r). by rewrite find_CRLF_cons, IH.
Qed.

(** A part of a line, perhaps with the first octet of its delimiter. *)
Definition unfinished (p : list Z) : Prop := exists l, (CR ∉ l) /\ (p = l \/ p = l ++ [CR]).

Lemma find_unfinished p : unfinished p -> str_find CRLF p = None.
Proof.
  intros (l & Hl & Hp). assert (H : forall q, q = [] \/ q = [CR] -> str_find CRLF (l ++ q) = None).
  { intros q Hq. clear Hp p. induction l as [|c l IH]; [by destruct Hq as [-> | ->]|].
    rewrite not_elem_of_cons in Hl. destruct Hl as [Hx Hl]. cbn [app]. by rewrite find_CRLF_cons, IH. }
  destruct Hp as [-> | ->]; [rewrite <- (app_nil_r l)|]; apply H; auto.
Qed.

Definition line_ok (l : list Z) : Prop := l <> [] /\ (CR ∉ l).
#[global] Instance line_ok_dec l : Decision (line_ok l).
Proof. unfold line_ok. apply _. Defined.

(** The text of lines, and what it costs against the size limit. *)
Definition lines_text (ls : list (list Z)) : list Z := concat (map (fun l => l ++ CRLF) ls).
Definition lines_cost (ls : list (list Z)) : Z := foldr (fun l n => zlen l + DELIMITER_SIZE + n) 0 ls.

Lemma lines_cost_nonneg ls : 0 <= lines_cost ls.
Proof. induction ls as [|l ls IH]; cbn; [lia|]. pose proof (zlen_nonneg l). unfold lines_cost, DELIMITER_SIZE in *. lia. Qed.

Lemma lines_cost_cons l ls : lines_cost (l :: ls) = zlen l + DELIMITER_SIZE + lines_cost ls.
Proof. done. Qed.

Lemma lines_cost_app ls1 ls2 : lines_cost (ls1 ++ ls2) = lines_cost ls1 + lines_cost ls2.
Proof. induction ls1 as [|l ls1 IH]; [done|]. cbn [app]. rewrite !lines_cost_cons, IH. lia. Qed.

Lemma lines_text_app ls1 ls2 : lines_text (ls1 ++ ls2) = lines_text ls1 ++ lines_text ls2.
Proof. unfold lines_text. by rewrite map_app, concat_app. Qed.

Lemma length_lines_text ls : (length ls <= length (lines_text ls))%nat.
Proof.
  induction ls as [|l ls IH]; [done|]. unfold lines_text in *. cbn [map concat length].
  rewrite !length_app. cbn [CRLF length]. lia.
Qed.

(** A part of the head of a message ends inside a line. *)
Lemma head_prefix ls x y :
  Forall line_ok ls -> lines_text ls ++ CRLF = x ++ y -> y <> [] ->
  exists ls1 ls2 p, ls = ls1 ++ ls2 /\ x = lines_text ls1 ++ p /\ unfinished p /\ p ++ y = lines_text ls2 ++ CRLF.
Proof.
  intros Hls. revert x. induction Hls as [|l ls [Hne Hcr] Hls IH]; intros x E Hy.
  { exists [], [], x. split_and!; try done. exists []. split; [by apply not_elem_of_nil|].
    destruct x as [|a [|b x]]; [by left|right; by injection E as -> |].
    injection E as _ _ E. by destruct x, y. }
  unfold lines_text in E. cbn [map concat] in E. rewrite <- !app_assoc in E. fold (lines_text ls) in E.
  destruct (decide (length x < length l + 2)%nat) as [Hlt|Hge].
  - exists [], (l :: ls), x. split_and!; try done.
    + destruct (decide (length x <= length l)%nat) as [Hle|Hgt].
      * exists x. split; [|by left]. apply (f_equal (take (length x))) in E.
        rewrite take_app_length, take_app_le in E by done. rewrite <- E. intros Hin. apply Hcr.
        rewrite <- (take_drop (length x) l), elem_of_app. by left.
      * exists l. split; [done|]. right. apply (f_equal (take (length x))) in E.
        rewrite take_app_length in E. replace (length x) with (length l + 1)%nat in E by lia.
        by rewrite take_app_add in E.
    + unfold lines_text. cbn [map concat]. rewrite <- !app_assoc. by rewrite <- E.
  - apply (f_equal (drop (length l + 2))) in E as E2. rewrite drop_app_add in E2.
    change (drop 2 (CRLF ++ lines_text ls ++ CRLF)) with (lines_text ls ++ CRLF) in E2.
    rewrite (drop_app_le x y) in E2 by lia.
    destruct (IH _ E2 Hy) as (ls1 & ls2 & p & -> & Hx & Hp & Hpy).
    exists (l :: ls1), ls2, p. split_and!; try done.
    unfold lines_text. cbn [map concat]. fold (lines_text ls1). rewrite <- (take_drop (length l + 2) x), Hx.
    rewrite app_assoc. f_equal. f_equal. apply (f_equal (take (length l + 2))) in E.
    rewrite take_app_add, (take_app_le x y) in E by lia. by rewrite <- E.
Qed.

(** The text of lines is shorter than what it costs. *)
Lemma lines_text_cost ls : zlen (lines_text ls) <= lines_cost ls.
Proof.
  induction ls as [|l ls IH]; [done|]. change (lines_text (l :: ls)) with ((l ++ CRLF) ++ lines_text ls).
  rewrite lines_cost_cons, !zlen_app. change (zlen CRLF) with 2. unfold DELIMITER_SIZE. lia.
Qed.

Section lines_lemmas.
Context {S : Type} (header_bytes : S -> Z) (set_header_bytes : Z -> S -> S)
  (on_line : list Z -> S -> S * option exn).
Hypothesis bytes_set : forall n s, header_bytes (set_header_bytes n s) = n.
Hypothesis set_set : forall n m s, set_header_bytes n (set_header_bytes m s) = set_header_bytes n s.
Hypothesis set_same : forall s, set_header_bytes (header_bytes s) s = s.
Hypothesis line_set : forall l n s,
  on_line l (set_header_bytes n s) = (set_header_bytes n (on_line l s).1, (on_line l s).2).

Abbreviation loop := (lines_loop header_bytes set_header_bytes on_line).

(** The lines processed one after the other; [None]: one of them throws. *)
Fixpoint run_lines (ls : list (list Z)) (s : S) : option S :=
  match ls with
  | [] => Some s
  | l :: ls => match on_line l s with (s, None) => run_lines ls s | (_, Some _) => None end
  end.

Lemma run_lines_set ls n s s' :
  run_lines ls s = Some s' -> run_lines ls (set_header_bytes n s) = Some (set_header_bytes n s').
Proof.
  revert s. induction ls as [|l ls IH]; intros s; cbn [run_lines]; [by intros [= ->]|].
  rewrite line_set. destruct (on_line l s) as [s1 [e|]]; cbn [fst snd]; [done|]. apply IH.
Qed.

(** Whole lines are processed and paid for. *)
Lemma loop_lines ls rest fuel s s' :
  Forall line_ok ls -> run_lines ls s = Some s' ->
  header_bytes s + lines_cost ls <= max_header_size ->
  loop (length ls + fuel) (lines_text ls ++ rest) s =
  loop fuel rest (set_header_bytes (header_bytes s + lines_cost ls) s').
Proof.
  intros Hls. revert s s'. induction Hls as [|l ls [Hne Hcr] Hls IH]; intros s s' Hr Hc.
  { cbn in *. injection Hr as ->. by rewrite Z.add_0_r, set_same. }
  assert (lines_text (l :: ls) ++ rest = l ++ CRLF ++ lines_text ls ++ rest) as ->
    by (unfold lines_text; cbn [map concat]; by rewrite <- !app_assoc).
  cbn [length Nat.add lines_loop]. rewrite find_CRLF by done. cbn [from_option id].
  rewrite lines_cost_cons in *. pose proof (lines_cost_nonneg ls).
  rewrite bytes_set, (proj2 (Z.ltb_ge _ _)) by (unfold zlen in *; lia).
  destruct (length l) as [|k] eqn:El; [by destruct l|]. rewrite <- El.
  rewrite (take_app_length l), line_set. cbn [run_lines] in Hr.
  destruct (on_line l s) as [s1 [e|]]; [done|]. cbn [fst snd]. rewrite drop_app_add.
  change (drop 2 (CRLF ++ lines_text ls ++ rest)) with (lines_text ls ++ rest). erewrite IH; [|by apply run_lines_set|rewrite bytes_set; unfold zlen in *; lia].
  rewrite set_set, bytes_set. do 2 f_equal. unfold zlen. lia.
Qed.

(** Lines that pass the limit: the one that does is not processed. *)
Lemma loop_lines_over ls rest fuel s s' :
  Forall line_ok ls -> run_lines ls s = Some s' ->
  header_bytes s <= max_header_size -> max_header_size < header_bytes s + lines_cost ls ->
  exists s2, loop (length ls + fuel) (lines_text ls ++ rest) s = L_throw (http_exception request_header_fields_too_large) s2.
Proof.
  intros Hls. revert s s'. induction Hls as [|l ls [Hne Hcr] Hls IH]; intros s s' Hr Hb Hc; [change (lines_cost []) with 0 in Hc; lia|].
  assert (lines_text (l :: ls) ++ rest = l ++ CRLF ++ lines_text ls ++ rest) as ->
    by (unfold lines_text; cbn [map concat]; by rewrite <- !app_assoc).
  cbn [length Nat.add lines_loop]. rewrite find_CRLF by done. cbn [from_option id]. rewrite bytes_set.
  destruct (max_header_size <? _) eqn:E; [by eexists|]. bool_to_prop. rewrite lines_cost_cons in Hc.
  destruct (length l) as [|k] eqn:El; [by destruct l|]. rewrite <- El in *.
  rewrite (take_app_length l), line_set. cbn [run_lines] in Hr.
  destruct (on_line l s) as [s1 [e|]]; [done|]. cbn [fst snd]. rewrite drop_app_add.
  change (drop 2 (CRLF ++ lines_text ls ++ rest)) with (lines_text ls ++ rest).
  eapply IH; [by apply run_lines_set|rewrite bytes_set; unfold zlen in *; lia..].
Qed.

(** Octets without a line end that pass the limit, and a blank line that does. *)
Lemma loop_over fuel p s :
  str_find CRLF p = None -> max_header_size < header_bytes s + zlen p + DELIMITER_SIZE ->
  exists s2, loop (Datatypes.S fuel) p s = L_throw (http_exception request_header_fields_too_large) s2.
Proof.
  intros Hp Hc. cbn [lines_loop]. rewrite Hp. cbn [from_option id].
  rewrite bytes_set, (proj2 (Z.ltb_lt _ _)) by (unfold zlen in *; lia). by eexists.
Qed.

Lemma loop_blank_over fuel rest s :
  max_header_size < header_bytes s + DELIMITER_SIZE ->
  exists s2, loop (Datatypes.S fuel) (CRLF ++ rest) s = L_throw (http_exception request_header_fields_too_large) s2.
Proof.
  intros Hc. cbn [lines_loop]. change (str_find CRLF (CRLF ++ rest)) with (Some 0%nat). cbn [from_option id].
  rewrite bytes_set, (proj2 (Z.ltb_lt _ _)) by lia. by eexists.
Qed.

(** The octets that are left do not make a line. *)
Lemma loop_more fuel p s :
  unfinished p -> header_bytes s + zlen p + DELIMITER_SIZE <= max_header_size ->
  loop (Datatypes.S fuel) p s = L_more p (set_header_bytes (header_bytes s + DELIMITER_SIZE) s).
Proof.
  intros Hp Hc. cbn [lines_loop]. rewrite find_unfinished by done. cbn [from_option id].
  rewrite bytes_set, (proj2 (Z.ltb_ge _ _)) by (unfold zlen in *; lia).
  rewrite set_set. do 2 f_equal. unfold zlen. lia.
Qed.

(** The blank line. *)
Lemma loop_blank fuel rest s :
  header_bytes s + DELIMITER_SIZE <= max_header_size ->
  loop (Datatypes.S fuel) (CRLF ++ rest) s =
  L_blank (CRLF ++ rest) (set_header_bytes (header_bytes s + DELIMITER_SIZE) s).
Proof.
  intros Hc. cbn [lines_loop]. change (str_find CRLF (CRLF ++ rest)) with (Some 0%nat). cbn [from_option id].
  by rewrite bytes_set, (proj2 (Z.ltb_ge _ _)) by lia.
Qed.
End lines_lemmas.

(** ** Numbers *)

Lemma digits_value_nonneg s acc : 0 <= acc -> 0 <= digits_value acc s.
Proof.
  revert acc. induction s as [|c s IH]; intros acc H; [done|]. cbn. unfold isdigit.
  destruct (48 <=? c) eqn:E1, (c <=? 57); cbn [andb]; try done. bool_to_prop. apply IH. lia.
Qed.

Lemma strtoul_nonneg s : 0 <= strtoul s.
Proof.
  unfold strtoul. destruct (match skip_space s with 45 :: _ => _ | _ => _ end) as [neg t].
  pose proof (digits_value_nonneg t 0 ltac:(lia)). destruct (_ <? _); [done|]. destruct neg; [|done].
  apply Z.mod_pos_bound. lia.
Qed.

Lemma digits_value_digits fuel n acc :
  0 <= n < 10 ^ Z.of_nat fuel -> (0 < fuel)%nat -> digits_value 0 (digits fuel n acc) = digits_value n acc.
Proof.
  revert n acc. induction fuel as [|fuel IH]; intros n acc Hn Hf; [lia|]. cbn [digits].
  assert (Hdig : forall d, 0 <= d < 10 -> isdigit (48 + d) = true) by (intros; unfold isdigit; lia).
  destruct (n <? 10) eqn:E; bool_to_prop.
  - cbn [digits_value]. rewrite Hdig by lia. f_equal. lia.
  - pose proof (Z.mod_pos_bound n 10 ltac:(lia)). rewrite Nat2Z.inj_succ, Z.pow_succ_r in Hn by lia.
    assert (0 <= n / 10 < 10 ^ Z.of_nat fuel) by (split; [apply Z.div_pos; lia|apply Z.div_lt_upper_bound; lia]).
    destruct fuel; [change (10 ^ Z.of_nat 0) with 1 in *; assert (n / 10 = 0) by lia; pose proof (Z.div_mod n 10); lia|].
    rewrite IH by lia. cbn [digits_value]. rewrite Hdig by lia. f_equal. pose proof (Z.div_mod n 10). lia.
Qed.

Lemma digits_head fuel n acc :
  0 <= n -> (0 < fuel)%nat -> exists c s, digits fuel n acc = c :: s /\ 48 <= c <= 57.
Proof.
  revert n acc. induction fuel as [|fuel IH]; intros n acc Hn Hf; [lia|]. cbn [digits].
  destruct (n <? 10) eqn:E; bool_to_prop; [eexists _, _; split; [done|lia]|].
  destruct fuel; [cbn; pose proof (Z.mod_pos_bound n 10 ltac:(lia)); eexists _, _; split; [done|lia]|].
  apply IH; [apply Z.div_pos; lia|lia].
Qed.

(** [strtoul] reads what [std::to_string] writes. *)
Lemma strtoul_to_string n : 0 <= n <= ULONG_MAX -> strtoul (to_string n) = n.
Proof.
  intros Hn. unfold ULONG_MAX in Hn. unfold to_string.
  pose proof (digits_value_digits 20 n [] ltac:(change (10 ^ Z.of_nat 20) with 100000000000000000000; lia) ltac:(lia)) as Hv.
  destruct (digits_head 20 n []) as (c & s & Hs & Hc); [lia|lia|]. rewrite Hs in *.
  assert (c = 48 \/ c = 49 \/ c = 50 \/ c = 51 \/ c = 52 \/ c = 53 \/ c = 54 \/ c = 55 \/ c = 56 \/ c = 57) as Hcs by lia.
  assert (strtoul (c :: s) = if ULONG_MAX <? digits_value 0 (c :: s) then ULONG_MAX else digits_value 0 (c :: s)) as ->
    by (by repeat (destruct Hcs as [-> | Hcs]; [done|]); subst c).
  rewrite Hv. cbn [digits_value]. by rewrite (proj2 (Z.ltb_ge _ _)) by (unfold ULONG_MAX; lia).
Qed.
