(* ===== verification/HttpRequest.v ===== *)
(** * HTTP requests read from a stream

    Models [sylar/protocol/http/request.hpp] and [impl/request.hpp]: the state of
    a request that is being received, [consume], [reset] and [raw].  [m_buf] is a
    shared pointer: [None] is the null pointer it becomes when the headers are
    complete. *)

From S2P Require Import Prelude CppString HttpMessage.

Record request := mk_request {
  base : parser;
  m_buf : option (list Z);
  m_method : list Z;
  m_uri : list Z;
  m_ready : bool;
}.

Definition request_ctor : request := mk_request parser_ctor (Some []) [] [] false.
Definition request_reset (r : request) : request := mk_request (parser_reset (base r)) (Some []) [] [] false.

Definition with_base (p : parser) (r : request) : request := mk_request p (m_buf r) (m_method r) (m_uri r) (m_ready r).
Definition with_buf (b : option (list Z)) (r : request) : request :=
  mk_request (base r) b (m_method r) (m_uri r) (m_ready r).
Definition with_ready (v : bool) (r : request) : request :=
  mk_request (base r) (m_buf r) (m_method r) (m_uri r) v.

Definition set_uri (uri : list Z) (r : request) : request := mk_request (base r) (m_buf r) (m_method r) uri (m_ready r).

(** [set_method]: the method must be a token. *)
Definition set_method (method : list Z) (r : request) : request * option exn :=
  if existsb is_not_token_char method then (r, Some (http_exception bad_request))
  else (mk_request (base r) (m_buf r) method (m_uri r) (m_ready r), None).

(** [process] on the request line. *)
Definition process (line : list Z) (r : request) : request * option exn :=
  match str_find (str " ") line with
  | None => (r, Some (http_exception bad_request))
  | Some n =>
      match set_method (take n line) r with
      | (r, Some e) => (r, Some e)
      | (r, None) =>
          let rest := drop (n + 1) line in
          match str_find (str " ") rest with
          | None => (r, Some (http_exception bad_request))
          | Some k =>
              let r := set_uri (take k rest) r in
              (with_base (set_version (drop (k + 1) rest) (base r)) r, None)
          end
      end
  end.

(** A line that is not blank. *)
Definition request_line (line : list Z) (r : request) : request * option exn :=
  match m_method r with
  | [] => process line r
  | _ =>
      match process_header line (base r) with
      | inl p => (with_base p r, None)
      | inr e => (r, Some e)
      end
  end.

(** What [consume] does: the octets it processed, an exception, or a null buffer
    is used. *)
Inductive consume_end :=
  | Consumed (n : Z) (r : request)
  | Consume_threw (e : exn) (r : request)
  | Consume_undefined.

(** [process_body] and the test after it; [before] octets were processed already. *)
Definition consume_body (before : Z) (buf : list Z) (r : request) : consume_end :=
  match process_body buf (base r) with
  | (p, inr e) => Consume_threw e (with_base p r)
  | (p, inl n) =>
      let r := with_base p r in
      Consumed (before + n) (if body_ready p then with_ready true r else r)
  end.

(** The end of the headers: [rest] is the buffer from the blank line's delimiter
    on, [buf] the octets given to this call. *)
Definition consume_blank (rest buf : list Z) (r : request) : consume_end :=
  match m_method r, get_header (str "Host") (base r) with
  | [], _ | _, [] => Consume_threw (http_exception bad_request) r
  | _, _ =>
      let bytes_processed := u64 (zlen buf - zlen rest + DELIMITER_SIZE - 1) in
      let r := with_buf None r in
      match prepare_body (base r) with
      | (p, inr e) => Consume_threw e (with_base p r)
      | (p, inl true) => consume_body bytes_processed (drop (Z.to_nat bytes_processed) buf) (with_base p r)
      | (p, inl false) => Consumed bytes_processed (with_ready true (with_base p r))
      end
  end.

Definition header_bytes (r : request) : Z := m_header_bytes (base r).
Definition set_header_bytes (n : Z) (r : request) : request := with_base (with_header_bytes n (base r)) r.

(** [request::consume].  An exception leaves the appended buffer as it is. *)
Definition consume (buf : list Z) (r : request) : consume_end :=
  if m_ready r then Consumed 0 r
  else if 0 <? m_body_bytes_needed (base r) then consume_body 0 buf r
  else
    match m_buf r with
    | None => Consume_undefined
    | Some old =>
        let text := old ++ buf in
        let r := with_buf (Some text) r in
        match lines_loop header_bytes set_header_bytes request_line (S (length text)) text r with
        | L_more rest r => Consumed (zlen buf) (with_buf (Some rest) r)
        | L_blank rest r => consume_blank rest buf r
        | L_throw e r => Consume_threw e r
        | L_fuel => Consume_undefined
        end
    end.

Definition raw_head (r : request) : list Z :=
  m_method r ++ str " " ++ m_uri r ++ str " " ++ m_version (base r) ++ CRLF ++ raw_headers (base r) ++ CRLF.
Definition raw (r : request) : list Z := raw_head r ++ m_body (base r).

(** ** The header lines *)

Definition token (s : list Z) : Prop := Forall (fun c => is_token_char c = true) s.
#[global] Instance token_dec s : Decision (token s).
Proof. unfold token. apply _. Defined.

Lemma token_checked s : token s -> existsb is_not_token_char s = false.
Proof. induction 1 as [|c s Hc _ IH]; [done|]. cbn. unfold is_not_token_char at 1. by rewrite Hc. Qed.

Lemma token_excludes c s : token s -> is_token_char c = false -> c ∉ s.
Proof. intros Hs Hc Hin. unfold token in Hs. rewrite Forall_forall in Hs. specialize (Hs _ Hin). congruence. Qed.

Lemma token_trimmed s : token s -> trimmed s.
Proof.
  assert (H : forall s, token s -> ws_free_start s).
  { intros [|c t] Ht; [done|]. cbn. inversion_clear Ht as [|? ? Hc _]. unfold is_whitespace_char.
    destruct (c =? 9) eqn:E1; [bool_to_prop; by subst|]. destruct (c =? 32) eqn:E2; [bool_to_prop; by subst|done]. }
  intros Hs. split; apply H; [done|]. unfold token. by rewrite Forall_reverse.
Qed.

(** A header as it is written, and what [append_header] makes of it. *)
Definition header_line (e : list Z * list Z) : list Z := e.1 ++ str ": " ++ e.2.
Definition header_ok (e : list Z * list Z) : Prop :=
  e.1 <> [] /\ token e.1 /\ (CR ∉ e.2) /\ trimmed e.2.
#[global] Instance header_ok_dec e : Decision (header_ok e).
Proof. unfold header_ok. apply _. Defined.

Definition add_header (h : header_list) (e : list Z * list Z) : header_list :=
  header_set e.1 (match default [] (header_find e.1 h) with [] => e.2 | old => old ++ str ", " ++ e.2 end) h.

Lemma process_header_line e p :
  header_ok e -> process_header (header_line e) p = inl (with_headers (add_header (m_headers p) e) p).
Proof.
  intros (Hne & Ht & Hcr & Htr). destruct e as [k v]. cbn [fst snd] in *. unfold process_header, header_line. cbn [fst snd].
  change (str ":") with [58]. change (k ++ str ": " ++ v) with (k ++ 58 :: 32 :: v).
  rewrite str_find_char by (by apply token_excludes). rewrite take_app_length.
  rewrite drop_app_add. change (drop 1 (58 :: 32 :: v)) with ([32] ++ v).
  rewrite strip_lws_trimmed, strip_lws_pad; [|by repeat constructor|done|done|by apply token_excludes|by apply token_trimmed].
  unfold append_header. by rewrite token_checked.
Qed.

Lemma header_line_ok e : header_ok e -> line_ok (header_line e).
Proof.
  intros (Hne & Ht & Hcr & _). destruct e as [k v]. cbn [fst snd] in *. unfold header_line. cbn [fst snd].
  split; [by destruct k|]. rewrite !not_elem_of_app. split_and!; [by apply token_excludes|decide_now|done].
Qed.

Lemma run_headers hs r :
  Forall header_ok hs -> m_method r <> [] ->
  run_lines request_line (map header_line hs) r =
  Some (with_base (with_headers (fold_left add_header hs (m_headers (base r))) (base r)) r).
Proof.
  intros Hh. revert r. induction Hh as [|e hs He _ IH]; intros r Hm; cbn [map run_lines fold_left].
  - by destruct r as [[]].
  - unfold request_line. destruct (m_method r) eqn:Em; [done|]. rewrite process_header_line by done.
    rewrite IH by (cbn; by rewrite Em). by destruct r as [[]].
Qed.

(** A line changes the headers, the version, the method and the URI at most. *)
Lemma request_line_shape l r :
  exists h v m u, (request_line l r).1 = mk_request (with_headers h (set_version v (base r))) (m_buf r) m u (m_ready r).
Proof.
  destruct r as [[ver h hb body need mx enc] b m u rd]. unfold request_line, with_headers, set_version. cbn. destruct m.
  - unfold process. destruct (str_find _ l); [|by do 4 eexists]. unfold set_method. destruct (existsb _ _); [by do 4 eexists|].
    destruct (str_find _ _); by do 4 eexists.
  - unfold process_header, append_header. repeat case_match; simplify_eq; by do 4 eexists.
Qed.

(** ** The frame: the buffer and the octet count do not matter to a line *)

Definition frame (n : Z) (b : option (list Z)) (r : request) : request := set_header_bytes n (with_buf b r).

Lemma process_header_bytes line n p :
  process_header line (with_header_bytes n p) =
  match process_header line p with inl p' => inl (with_header_bytes n p') | inr e => inr e end.
Proof.
  unfold process_header. destruct (str_find _ line) as [k|]; [|done].
  destruct (strip_lws (take k line)) as [key|], (strip_lws (drop (k + 1) line)) as [val|]; try done.
  unfold append_header. by destruct (existsb _ key).
Qed.

Lemma request_line_frame l n b r :
  request_line l (frame n b r) = (frame n b (request_line l r).1, (request_line l r).2).
Proof.
  destruct r as [p b0 m u rd]. unfold request_line, frame, set_header_bytes, with_base, with_buf. cbn [base m_buf m_method m_uri m_ready].
  destruct m.
  - unfold process. destruct (str_find _ l) as [k|]; [|done]. unfold set_method. destruct (existsb _ _); [done|].
    by destruct (str_find _ _).
  - rewrite process_header_bytes. by destruct (process_header l p).
Qed.

Lemma frame_frame n b n' b' r : frame n b (frame n' b' r) = frame n b r.
Proof. done. Qed.

Lemma request_line_bytes l n r :
  request_line l (set_header_bytes n r) = (set_header_bytes n (request_line l r).1, (request_line l r).2).
Proof.
  assert (E : forall x, set_header_bytes n x = frame n (m_buf x) x) by (by intros [[]]).
  rewrite E, request_line_frame. f_equal. rewrite E. f_equal.
  by destruct (request_line_shape l r) as (? & ? & ? & ? & ->).
Qed.

Lemma run_lines_frame ls n b r r' :
  run_lines request_line ls r = Some r' -> run_lines request_line ls (frame n b r) = Some (frame n b r').
Proof.
  revert r. induction ls as [|l ls IH]; intros r; cbn [run_lines]; [by intros [= ->]|].
  rewrite request_line_frame. destruct (request_line l r) as [r1 [e|]]; cbn [fst snd]; [done|]. apply IH.
Qed.

Lemma run_lines_app {S} (f : list Z -> S -> S * option exn) ls1 ls2 s :
  run_lines f (ls1 ++ ls2) s = run_lines f ls1 s ≫= run_lines f ls2.
Proof.
  revert s. induction ls1 as [|l ls1 IH]; intros s; [done|]. cbn. by destruct (f l s) as [s1 [e|]].
Qed.

Lemma line_keeps_phase l r :
  m_ready (request_line l r).1 = m_ready r /\
  m_body_bytes_needed (base (request_line l r).1) = m_body_bytes_needed (base r).
Proof. by destruct (request_line_shape l r) as (? & ? & ? & ? & ->). Qed.

Lemma run_lines_phase ls r r' :
  run_lines request_line ls r = Some r' ->
  m_ready r' = m_ready r /\ m_body_bytes_needed (base r') = m_body_bytes_needed (base r).
Proof.
  revert r. induction ls as [|l ls IH]; intros r; cbn [run_lines]; [by intros [= ->]|].
  destruct (line_keeps_phase l r) as [H1 H2]. destruct (request_line l r) as [r1 [e|]]; [done|].
  cbn [fst] in *. intros H. destruct (IH _ H) as [H3 H4]. by rewrite H3, H4.
Qed.

(** ** Feeding a request in pieces *)

(** The pieces given one after the other until the request is ready: the request
    and the octets that were not taken.  [None]: an exception, a count outside the
    piece, or a piece left over in part although the request is not ready. *)
Fixpoint feed (chunks : list (list Z)) (r : request) : option (request * list Z) :=
  match chunks with
  | [] => Some (r, [])
  | c :: cs =>
      if m_ready r then Some (r, concat chunks)
      else
        match consume c r with
        | Consumed n r' =>
            if negb ((0 <=? n) && (n <=? zlen c)) then None
            else if m_ready r' then Some (r', drop (Z.to_nat n) c ++ concat cs)
            else if n =? zlen c then feed cs r' else None
        | _ => None
        end
  end.

(** What happens after the blank line of the piece [c]. *)
Definition after_blank (c t : list Z) (cs : list (list Z)) (r : request) : option (request * list Z) :=
  match consume_blank (CRLF ++ t) c r with
  | Consumed n r' =>
      if negb ((0 <=? n) && (n <=? zlen c)) then None
      else if m_ready r' then Some (r', drop (Z.to_nat n) c ++ concat cs)
      else if n =? zlen c then feed cs r' else None
  | _ => None
  end.

Lemma count_ok (n m : Z) : 0 <= n <= m -> negb ((0 <=? n) && (n <=? m)) = false.
Proof. intros H. rewrite !(proj2 (Z.leb_le _ _)) by lia. done. Qed.

Lemma unfinished_first p y l (z : list Z) : line_ok l -> unfinished p -> p ++ y = l ++ CRLF ++ z -> zlen p <= zlen l + 1.
Proof.
  intros [_ Hcr] Hp E. unfold zlen. destruct (decide (length p < length l + 2)%nat) as [Hs|Hs]; [lia|]. exfalso.
  apply find_unfinished in Hp. apply (f_equal (take (length p))) in E. rewrite take_app_length in E.
  rewrite E, take_app_ge in Hp by lia. rewrite take_app_ge in Hp by (cbn; lia). by rewrite find_CRLF in Hp.
Qed.

Lemma lines_text_cons l ls z : lines_text (l :: ls) ++ z = l ++ CRLF ++ lines_text ls ++ z.
Proof. unfold lines_text. cbn [map concat]. by rewrite <- !app_assoc. Qed.

Lemma unfinished_cost p y ls :
  Forall line_ok ls -> unfinished p -> p ++ y = lines_text ls ++ CRLF -> y <> [] -> zlen p <= lines_cost ls + 1.
Proof.
  intros Hls Hp E Hy. destruct Hls as [|l ls Hl _].
  - apply (f_equal length) in E. rewrite length_app in E. destruct y; [done|]. cbn in *. unfold zlen. lia.
  - rewrite lines_text_cons in E. apply unfinished_first in E; [|done..].
    rewrite lines_cost_cons. pose proof (lines_cost_nonneg ls). unfold DELIMITER_SIZE. lia.
Qed.

Lemma unfinished_line p y ls :
  Forall line_ok ls -> unfinished p -> p ++ y = lines_text ls -> y <> [] -> zlen p <= lines_cost ls.
Proof.
  intros Hls Hp E Hy. destruct Hls as [|l ls Hl _].
  - destruct p; [done|]. by destruct y.
  - rewrite <- (app_nil_r (lines_text _)), lines_text_cons in E. apply unfinished_first in E; [|done..].
    rewrite lines_cost_cons. pose proof (lines_cost_nonneg ls). unfold DELIMITER_SIZE. lia.
Qed.


(** The exception that feeding the pieces ends with, if it does. *)
Fixpoint refusal (chunks : list (list Z)) (r : request) : option exn :=
  match chunks with
  | [] => None
  | c :: cs =>
      if m_ready r then None
      else
        match consume c r with
        | Consume_threw e _ => Some e
        | Consumed n r' => if m_ready r' then None else if n =? zlen c then refusal cs r' else None
        | Consume_undefined => None
        end
  end.

Abbreviation too_large := (http_exception request_header_fields_too_large).

(** A call in the head: the loop over the lines of the buffer. *)
Lemma consume_loop c n p q ls rest :
  m_ready q = false -> m_body_bytes_needed (base q) = 0 -> p ++ c = lines_text ls ++ rest ->
  exists k, consume c (frame n (Some p) q) =
    match lines_loop header_bytes set_header_bytes request_line (length ls + S k) (lines_text ls ++ rest) (frame n (Some (p ++ c)) q) with
    | L_more rest r => Consumed (zlen c) (with_buf (Some rest) r)
    | L_blank rest r => consume_blank rest c r
    | L_throw e r => Consume_threw e r
    | L_fuel => Consume_undefined
    end.
Proof.
  intros Hr Hb Htext. exists (length (lines_text ls ++ rest) - length ls)%nat.
  pose proof (length_lines_text ls) as Hlen.
  replace (length ls + S (length (lines_text ls ++ rest) - length ls))%nat with (S (length (lines_text ls ++ rest)))
    by (rewrite length_app; lia).
  unfold consume. cbn [frame m_ready set_header_bytes with_base with_buf base m_buf].
  change (m_body_bytes_needed (with_header_bytes n (base q))) with (m_body_bytes_needed (base q)). rewrite Hr, Hb.
  change (0 <? 0) with false. cbv iota. by rewrite Htext.
Qed.

(** Whole lines in the buffer are processed, or pass the limit. *)
Lemma consume_lines n b q q' ls rest k :
  Forall line_ok ls -> run_lines request_line ls q = Some q' -> n <= max_header_size ->
  let loop := lines_loop header_bytes set_header_bytes request_line in
  (loop (length ls + k)%nat (lines_text ls ++ rest) (frame n b q) = loop k rest (frame (n + lines_cost ls) b q') /\
     n + lines_cost ls <= max_header_size) \/
  ((exists r, loop (length ls + k)%nat (lines_text ls ++ rest) (frame n b q) = L_throw too_large r) /\
     max_header_size < n + lines_cost ls).
Proof.
  intros Hls Hrun Hn. cbn zeta. pose proof (run_lines_frame _ n b _ _ Hrun) as Hrun'.
  destruct (decide (n + lines_cost ls <= max_header_size)) as [Hc|Hc].
  - left. split; [|done].
    rewrite (loop_lines header_bytes set_header_bytes request_line (fun _ _ => eq_refl) (fun _ _ _ => eq_refl) ltac:(by intros [[]])
      request_line_bytes ls rest k _ _ Hls Hrun') by done. done.
  - right. split; [|lia].
    apply (loop_lines_over header_bytes set_header_bytes request_line (fun _ _ => eq_refl)
      request_line_bytes ls rest k _ _ Hls Hrun'); change (header_bytes (frame n b q)) with n; lia.
Qed.

(** One piece that ends before the head does. *)
Lemma consume_part c n p q q' ls1 p' :
  m_ready q = false -> m_body_bytes_needed (base q) = 0 ->
  p ++ c = lines_text ls1 ++ p' -> Forall line_ok ls1 -> unfinished p' ->
  run_lines request_line ls1 q = Some q' -> n <= max_header_size ->
  (consume c (frame n (Some p) q) = Consumed (zlen c) (frame (n + lines_cost ls1 + DELIMITER_SIZE) (Some p') q') /\
     n + lines_cost ls1 + zlen p' + DELIMITER_SIZE <= max_header_size) \/
  ((exists r, consume c (frame n (Some p) q) = Consume_threw too_large r) /\
     max_header_size < n + lines_cost ls1 + zlen p' + DELIMITER_SIZE).
Proof.
  intros Hr Hb Htext Hls Hp' Hrun Hn. destruct (consume_loop c n p q ls1 p' Hr Hb Htext) as [k ->].
  pose proof (zlen_nonneg p').
  destruct (consume_lines n (Some (p ++ c)) q q' ls1 p' (S k) Hls Hrun Hn) as [[-> Hc]|[[r ->] Hc]]; [|right; split; [by eexists|unfold DELIMITER_SIZE; lia]].
  destruct (decide (n + lines_cost ls1 + zlen p' + DELIMITER_SIZE <= max_header_size)) as [Hm|Hm].
  - left. split; [|done]. erewrite loop_more; [|done|done|done|cbn; lia]. done.
  - right. split; [|lia]. destruct (loop_over header_bytes set_header_bytes request_line (fun _ _ => eq_refl) k p'
      (frame (n + lines_cost ls1) (Some (p ++ c)) q') (find_unfinished _ Hp') ltac:(cbn; lia)) as [s2 ->]. by eexists.
Qed.

(** The piece in which the head ends. *)
Lemma consume_last c t n p q q' ls :
  m_ready q = false -> m_body_bytes_needed (base q) = 0 ->
  p ++ c = lines_text ls ++ CRLF ++ t -> Forall line_ok ls ->
  run_lines request_line ls q = Some q' -> n <= max_header_size ->
  ((exists n', consume c (frame n (Some p) q) = consume_blank (CRLF ++ t) c (frame n' (Some (p ++ c)) q')) /\
     n + lines_cost ls + DELIMITER_SIZE <= max_header_size) \/
  ((exists r, consume c (frame n (Some p) q) = Consume_threw too_large r) /\
     max_header_size < n + lines_cost ls + DELIMITER_SIZE).
Proof.
  intros Hr Hb Htext Hls Hrun Hn. destruct (consume_loop c n p q ls (CRLF ++ t) Hr Hb Htext) as [k ->].
  destruct (consume_lines n (Some (p ++ c)) q q' ls (CRLF ++ t) (S k) Hls Hrun Hn) as [[-> Hc]|[[r ->] Hc]]; [|right; split; [by eexists|unfold DELIMITER_SIZE; lia]].
  destruct (decide (n + lines_cost ls + DELIMITER_SIZE <= max_header_size)) as [Hm|Hm].
  - left. split; [|done]. erewrite loop_blank; [|done|cbn; lia]. by eexists.
  - right. split; [|lia]. destruct (loop_blank_over header_bytes set_header_bytes request_line (fun _ _ => eq_refl) k t
      (frame (n + lines_cost ls) (Some (p ++ c)) q') ltac:(cbn; lia)) as [s2 ->]. by eexists.
Qed.

(** The piece in which a line ends that the parser throws on. *)
Lemma consume_bad c t n p q q' ls l e :
  m_ready q = false -> m_body_bytes_needed (base q) = 0 ->
  p ++ c = lines_text ls ++ l ++ CRLF ++ t -> Forall line_ok ls -> line_ok l ->
  run_lines request_line ls q = Some q' -> (request_line l q').2 = Some e -> n <= max_header_size ->
  (exists r, consume c (frame n (Some p) q) = Consume_threw e r) \/
  ((exists r, consume c (frame n (Some p) q) = Consume_threw too_large r) /\
     max_header_size < n + lines_cost (ls ++ [l])).
Proof.
  intros Hr Hb Htext Hls [Hne Hcr] Hrun He Hn. destruct (consume_loop c n p q ls (l ++ CRLF ++ t) Hr Hb Htext) as [k ->].
  rewrite lines_cost_app, lines_cost_cons. change (lines_cost []) with 0. pose proof (zlen_nonneg l).
  destruct (consume_lines n (Some (p ++ c)) q q' ls (l ++ CRLF ++ t) (S k) Hls Hrun Hn) as [[-> Hc]|[[r ->] Hc]]; [|right; split; [by eexists|unfold DELIMITER_SIZE; lia]].
  cbn [lines_loop]. rewrite find_CRLF by done. cbn [default from_option id].
  set (y := set_header_bytes _ _). assert (Hy : header_bytes y = n + lines_cost ls + (zlen l + DELIMITER_SIZE)) by done.
  rewrite Hy. destruct (max_header_size <? _) eqn:E; bool_to_prop; [right; split; [by eexists|lia]|left].
  destruct (length l) as [|j] eqn:El; [by destruct l|]. rewrite <- El, take_app_length.
  assert (Hz : (request_line l y).2 = Some e).
  { unfold y. rewrite request_line_bytes. cbn [snd]. by rewrite request_line_frame. }
  destruct (request_line l y) as [s2 o]. cbn in Hz. subst o. by eexists.
Qed.

(** The pieces up to the one in which the text [lines_text ls ++ CRLF] ends: the limit is
    passed, or that piece is reached with all its lines processed. *)
Lemma feed_lines cs n p q q' ls tail :
  m_ready q = false -> m_body_bytes_needed (base q) = 0 ->
  Forall line_ok ls -> run_lines request_line ls q = Some q' -> n <= max_header_size ->
  p ++ concat cs = lines_text ls ++ CRLF ++ tail -> (length p < length (lines_text ls ++ CRLF))%nat ->
  (exists c t cs' n' b, In c cs /\ tail = t ++ concat cs' /\ (length t <= length c)%nat /\
    drop (length c - length t) c = t /\ n + lines_cost ls + DELIMITER_SIZE <= max_header_size /\
    feed cs (frame n (Some p) q) = after_blank c t cs' (frame n' b q') /\
    forall e r, consume_blank (CRLF ++ t) c (frame n' b q') = Consume_threw e r -> refusal cs (frame n (Some p) q) = Some e) \/
  (refusal cs (frame n (Some p) q) = Some too_large /\
    max_header_size < n + lines_cost ls + DELIMITER_SIZE * zlen cs + 4).
Proof.
  intros Hr Hb. revert n p q ls Hr Hb. induction cs as [|c cs IH]; intros n p q ls Hr Hb Hls Hrun Hn Htext Hp.
  { exfalso. cbn [concat] in Htext. rewrite app_nil_r in Htext.
    rewrite Htext, app_assoc, (length_app (lines_text ls ++ CRLF)) in Hp. lia. }
  cbn [feed refusal concat] in *. rewrite zlen_cons. unfold DELIMITER_SIZE.
  change (m_ready (frame n (Some p) q)) with (m_ready q). rewrite Hr. cbv iota.
  rewrite (app_assoc (lines_text ls)) in Htext. rewrite app_assoc in Htext.
  pose proof (lines_cost_nonneg ls). pose proof (zlen_nonneg cs).
  destruct (decide (length (p ++ c) < length (lines_text ls ++ CRLF))%nat) as [Hlt|Hge].
  - assert (Hsplit : lines_text ls ++ CRLF = (p ++ c) ++ drop (length (p ++ c)) (lines_text ls ++ CRLF))
      by (eapply app_prefix; [exact Htext|lia]).
    set (y := drop _ _) in Hsplit.
    assert (Hy : y <> []) by (intros E; rewrite E, app_nil_r in Hsplit; rewrite Hsplit in Hlt; lia).
    destruct (head_prefix ls (p ++ c) y Hls Hsplit Hy) as (ls1 & ls2 & p' & -> & Hpc & Hun & Hp'y).
    apply Forall_app in Hls as [Hls1 Hls2]. rewrite run_lines_app in Hrun. rewrite lines_cost_app.
    destruct (run_lines request_line ls1 q) as [q1|] eqn:Hrun1; [|done]. cbn [mbind option_bind] in Hrun.
    destruct (run_lines_phase _ _ _ Hrun1) as [Hr1 Hb1].
    pose proof (unfinished_cost p' y ls2 Hls2 Hun Hp'y Hy). pose proof (zlen_nonneg p').
    destruct (consume_part c n p q q1 ls1 p' Hr Hb Hpc Hls1 Hun Hrun1 Hn) as [[-> Hc]|[[r ->] Hc]];
      [|right; split; [done|unfold DELIMITER_SIZE in *; lia]].
    rewrite count_ok by (pose proof (zlen_nonneg c); lia).
    change (m_ready (frame _ _ q1)) with (m_ready q1). rewrite Hr1, Hr. cbv iota. rewrite Z.eqb_refl.
    destruct (IH (n + lines_cost ls1 + DELIMITER_SIZE) p' q1 ls2) as [(c' & t & cs' & n' & b & Hin & Ht & Hlt' & Hd & Hm & Hf & He)|[Hf Hm]];
      [by rewrite Hr1|by rewrite Hb1|done|done|lia| | | |].
    + apply (app_inv_head (lines_text ls1)). rewrite app_assoc, <- Hpc, Htext, lines_text_app. by rewrite <- !app_assoc.
    + rewrite <- Hp'y, length_app. destruct y; [done|cbn; lia].
    + left. exists c', t, cs', n', b. split_and!; try done; [by right|unfold DELIMITER_SIZE in *; lia].
    + right. split; [done|unfold DELIMITER_SIZE in *; lia].
  - set (t := drop (length (lines_text ls ++ CRLF)) (p ++ c)).
    assert (Ht : p ++ c = lines_text ls ++ CRLF ++ t)
      by (rewrite app_assoc; eapply app_prefix; [symmetry; exact Htext|lia]).
    destruct (consume_last c t n p q q' ls Hr Hb Ht Hls Hrun Hn) as [[[n' Hc] Hm]|[[r ->] Hm]]; [left|right; split; [done|unfold DELIMITER_SIZE in *; lia]].
    exists c, t, cs, n', (Some (p ++ c)). rewrite Hc.
    assert (Hlen : (length p + length c = length (lines_text ls ++ CRLF) + length t)%nat).
    { apply (f_equal length) in Ht. rewrite app_assoc, !(length_app p), (length_app _ t) in Ht. done. }
    split_and!; [by left| |lia| |done|done|by intros e r ->].
    + apply (app_inv_head (lines_text ls ++ CRLF)). rewrite <- Htext, Ht. by rewrite <- !app_assoc.
    + apply (f_equal (drop (length (lines_text ls ++ CRLF)))) in Ht. rewrite app_assoc, drop_app_length in Ht.
      rewrite drop_app_ge in Ht by lia.
      replace (length c - length t)%nat with (length (lines_text ls ++ CRLF) - length p)%nat by lia. exact Ht.
Qed.

(** A line the parser throws on, after lines that it takes: the pieces are refused. *)
Lemma feed_bad cs n p q q' ls l e tail :
  m_ready q = false -> m_body_bytes_needed (base q) = 0 ->
  Forall line_ok ls -> line_ok l -> run_lines request_line ls q = Some q' -> (request_line l q').2 = Some e -> n <= max_header_size ->
  p ++ concat cs = lines_text (ls ++ [l]) ++ tail -> (length p < length (lines_text (ls ++ [l])))%nat ->
  refusal cs (frame n (Some p) q) = Some e \/
  (refusal cs (frame n (Some p) q) = Some too_large /\
    max_header_size < n + lines_cost (ls ++ [l]) + DELIMITER_SIZE * zlen cs).
Proof.
  intros Hr Hb. revert n p q ls Hr Hb. induction cs as [|c cs IH]; intros n p q ls Hr Hb Hls Hl Hrun He Hn Htext Hp.
  { exfalso. cbn [concat] in Htext. rewrite app_nil_r in Htext. rewrite Htext, length_app in Hp. lia. }
  cbn [refusal concat] in *. rewrite zlen_cons. unfold DELIMITER_SIZE.
  change (m_ready (frame n (Some p) q)) with (m_ready q). rewrite Hr. cbv iota. rewrite app_assoc in Htext.
  pose proof (lines_cost_nonneg (ls ++ [l])). pose proof (zlen_nonneg cs).
  destruct (decide (length (p ++ c) < length (lines_text (ls ++ [l])))%nat) as [Hlt|Hge].
  - assert (Hsplit : lines_text (ls ++ [l]) = (p ++ c) ++ drop (length (p ++ c)) (lines_text (ls ++ [l])))
      by (eapply app_prefix; [exact Htext|lia]).
    set (y := drop _ _) in Hsplit.
    assert (Hy : y <> []) by (intros E; rewrite E, app_nil_r in Hsplit; rewrite Hsplit in Hlt; lia).
    destruct (head_prefix (ls ++ [l]) (p ++ c) (y ++ CRLF)) as (ls1 & ls2 & p' & Els & Hpc & Hun & Hp'y);
      [by apply Forall_app; auto|by rewrite Hsplit, <- app_assoc|by destruct y|].
    destruct ls2 as [|l' ls3 _] using rev_ind.
    { exfalso. rewrite app_nil_r in Els. subst ls1. apply (f_equal length) in Hpc. rewrite (length_app _ p') in Hpc. lia. }
    rewrite app_assoc in Els. apply app_inj_tail in Els as [-> <-].
    apply Forall_app in Hls as [Hls1 Hls2]. rewrite run_lines_app in Hrun. rewrite <- app_assoc, lines_cost_app.
    destruct (run_lines request_line ls1 q) as [q1|] eqn:Hrun1; [|done]. cbn [mbind option_bind] in Hrun.
    destruct (run_lines_phase _ _ _ Hrun1) as [Hr1 Hb1].
    assert (Hp'y' : p' ++ y = lines_text (ls3 ++ [l])) by (rewrite app_assoc in Hp'y; by apply app_inv_tail in Hp'y).
    pose proof (unfinished_line p' y (ls3 ++ [l]) ltac:(by apply Forall_app; auto) Hun Hp'y' Hy). pose proof (zlen_nonneg p').
    destruct (consume_part c n p q q1 ls1 p' Hr Hb Hpc Hls1 Hun Hrun1 Hn) as [[-> Hc]|[[r ->] Hc]];
      [|right; split; [done|unfold DELIMITER_SIZE in *; lia]].
    change (m_ready (frame _ _ q1)) with (m_ready q1). rewrite Hr1, Hr. cbv iota. rewrite Z.eqb_refl.
    destruct (IH (n + lines_cost ls1 + DELIMITER_SIZE) p' q1 ls3) as [Hf|[Hf Hm]];
      [by rewrite Hr1|by rewrite Hb1|done|done|done|done|lia| | | |].
    + apply (app_inv_head (lines_text ls1)). rewrite app_assoc, <- Hpc, Htext, <- app_assoc, lines_text_app. by rewrite <- !app_assoc.
    + rewrite <- Hp'y', length_app. destruct y; [done|cbn; lia].
    + by left.
    + right. split; [done|unfold DELIMITER_SIZE in *; lia].
  - set (t := drop (length (lines_text (ls ++ [l]))) (p ++ c)).
    assert (Ht : p ++ c = lines_text (ls ++ [l]) ++ t) by (eapply app_prefix; [symmetry; exact Htext|lia]).
    rewrite lines_text_app in Ht. unfold lines_text at 2 in Ht. cbn [map concat] in Ht. rewrite app_nil_r, <- !app_assoc in Ht.
    destruct (consume_bad c t n p q q' ls l e Hr Hb Ht Hls Hl Hrun He Hn) as [[r ->]|[[r ->] Hm]]; [by left|right; split; [done|lia]].
Qed.

(** A piece that brings no line end. *)
Lemma consume_endless c n p q :
  m_ready q = false -> m_body_bytes_needed (base q) = 0 -> str_find CRLF (p ++ c) = None ->
  if max_header_size <? n + zlen (p ++ c) + DELIMITER_SIZE
  then exists r, consume c (frame n (Some p) q) = Consume_threw too_large r
  else consume c (frame n (Some p) q) = Consumed (zlen c) (frame (n + DELIMITER_SIZE) (Some (p ++ c)) q).
Proof.
  intros Hr Hb Hf. destruct (consume_loop c n p q [] (p ++ c) Hr Hb eq_refl) as [k ->].
  cbn [length Nat.add lines_text map concat app lines_loop]. rewrite Hf. cbn [default from_option id].
  set (y := set_header_bytes _ _). assert (Hy : header_bytes y = n + zlen (p ++ c) + DELIMITER_SIZE)
    by (change (header_bytes y) with (n + (Z.of_nat (length (p ++ c)) + DELIMITER_SIZE)); unfold zlen; lia).
  rewrite Hy. destruct (_ <? _); [by eexists|]. f_equal. unfold y.
  replace (n + zlen (p ++ c) + DELIMITER_SIZE - zlen (p ++ c)) with (n + DELIMITER_SIZE) by lia. done.
Qed.

(** A line that does not end is refused exactly when its octets, and three for each piece,
    pass the limit. *)
Lemma feed_endless cs : forall n p q,
  m_ready q = false -> m_body_bytes_needed (base q) = 0 -> n + zlen p <= max_header_size ->
  str_find CRLF (p ++ concat cs) = None ->
  (max_header_size < n + zlen (p ++ concat cs) + DELIMITER_SIZE * zlen cs -> refusal cs (frame n (Some p) q) = Some too_large) /\
  (n + zlen (p ++ concat cs) + DELIMITER_SIZE * zlen cs <= max_header_size -> refusal cs (frame n (Some p) q) = None).
Proof.
  induction cs as [|c cs IH]; intros n p q Hr Hb Hn Hf.
  { cbn [concat refusal]. rewrite app_nil_r. change (zlen []) with 0. split; [lia|done]. }
  cbn [concat refusal] in *. change (m_ready (frame n (Some p) q)) with (m_ready q). rewrite Hr. cbv iota.
  rewrite app_assoc in *. pose proof (consume_endless c n p q Hr Hb (str_find_prefix _ _ _ Hf)) as Hc.
  rewrite zlen_cons. pose proof (zlen_nonneg cs). pose proof (zlen_nonneg (concat cs)). unfold DELIMITER_SIZE in *.
  rewrite (zlen_app (p ++ c)). destruct (_ <? _) eqn:E; bool_to_prop.
  - destruct Hc as [r ->]. split; [done|lia].
  - rewrite Hc. change (m_ready (frame _ _ q)) with (m_ready q). rewrite Hr, Z.eqb_refl. cbv iota.
    destruct (IH (n + 3) (p ++ c) q Hr Hb ltac:(lia) Hf) as [H1 H2]. rewrite (zlen_app (p ++ c)) in H1, H2.
    split; intros; [apply H1|apply H2]; lia.
Qed.

(** ** The body *)

Definition body_state (r : request) (body : list Z) (needed : Z) : Prop :=
  m_body_encoding (base r) = plain /\ m_body (base r) = body /\ m_body_bytes_needed (base r) = needed.

(** Two requests that differ at most in their body and readiness. *)
Definition same_head (r r' : request) : Prop :=
  m_method r' = m_method r /\ m_uri r' = m_uri r /\ m_version (base r') = m_version (base r) /\
  m_headers (base r') = m_headers (base r).

Lemma same_head_trans r1 r2 r3 : same_head r1 r2 -> same_head r2 r3 -> same_head r1 r3.
Proof. intros (H1 & H2 & H3 & H4) (K1 & K2 & K3 & K4). unfold same_head. split_and!; congruence. Qed.

Lemma consume_body_step before buf r body (rest : list Z) :
  body_state r body (zlen rest) -> m_ready r = false ->
  exists r', consume_body before buf r = Consumed (before + Z.min (zlen rest) (zlen buf)) r' /\
    body_state r' (body ++ take (length rest) buf) (zlen rest - Z.min (zlen rest) (zlen buf)) /\
    m_ready r' = (zlen rest <=? zlen buf) /\ same_head r r'.
Proof.
  intros (He & Hb & Hn) Hr. unfold consume_body, process_body. rewrite He, Hb, Hn.
  set (k := Z.min (zlen rest) (zlen buf)). eexists. split; [reflexivity|].
  assert (Htake : take (Z.to_nat k) buf = take (length rest) buf).
  { unfold k, zlen. destruct (decide (length rest <= length buf)%nat); [f_equal; lia|]. rewrite !take_ge; [done|lia..]. }
  unfold body_ready. cbn [m_body_bytes_needed with_body]. rewrite Htake.
  destruct (zlen rest - k =? 0) eqn:E, (zlen rest <=? zlen buf) eqn:F; bool_to_prop;
    (split_and!; try done; unfold k in *; lia).
Qed.

Lemma feed_body cs r body (rest extra : list Z) :
  body_state r body (zlen rest) -> m_ready r = false -> rest <> [] ->
  concat cs = rest ++ extra ->
  exists r', feed cs r = Some (r', extra) /\ m_ready r' = true /\ m_body (base r') = body ++ rest /\ same_head r r'.
Proof.
  revert r body rest. induction cs as [|c cs IH]; intros r body rest Hs Hr Hne Hc; [by destruct rest|].
  destruct (consume_body_step 0 c r body rest Hs Hr) as (r' & Hcons & Hs' & Hr' & Hh).
  rewrite Z.add_0_l in Hcons. cbn [feed concat] in *. rewrite Hr. unfold consume. rewrite Hr.
  assert (0 < zlen rest) by (destruct rest; [done|rewrite zlen_cons; pose proof (zlen_nonneg rest); lia]).
  destruct Hs as (_ & _ & Hneed). rewrite Hneed, (proj2 (Z.ltb_lt 0 _)) by done. rewrite Hcons, Hr'.
  rewrite count_ok by (pose proof (zlen_nonneg c); lia).
  destruct (zlen rest <=? zlen c) eqn:E; bool_to_prop.
  - rewrite Z.min_l, Z.sub_diag in * by done. exists r'. unfold zlen in *. rewrite Nat2Z.id.
    assert (Hcr : c = rest ++ drop (length rest) c) by (eapply app_prefix; [symmetry; exact Hc|lia]).
    split_and!; [|done| |done].
    + do 2 f_equal. apply (app_inv_head rest). rewrite app_assoc, <- Hcr. done.
    + destruct Hs' as (_ & -> & _). f_equal. rewrite Hcr at 1. by apply take_app_length'.
  - rewrite Z.min_r, Z.eqb_refl in * by lia.
    assert (Hrc : rest = c ++ drop (length c) rest) by (eapply app_prefix; [exact Hc|unfold zlen in *; lia]).
    assert (Hz : zlen rest - zlen c = zlen (drop (length c) rest)) by (unfold zlen in *; rewrite length_drop; lia).
    rewrite Hz, (take_ge c) in Hs' by (unfold zlen in *; lia).
    destruct (IH r' (body ++ c) (drop (length c) rest) Hs' ltac:(by rewrite Hr')) as (r2 & Hf & H1 & H2 & H3).
    + intros D. rewrite D in Hz. change (zlen []) with 0 in Hz. lia.
    + apply (app_inv_head c). by rewrite Hc, app_assoc, <- Hrc.
    + exists r2. split_and!; try done; [by rewrite H2, <- app_assoc, <- Hrc|].
      by apply (same_head_trans _ r').
Qed.

(** The octets of the piece up to the end of the head are counted. *)
Lemma consume_blank_bytes q c t :
  m_method q <> [] -> get_header (str "Host") (base q) <> [] -> zlen c < 2 ^ 63 -> (length t <= length c)%nat ->
  drop (length c - length t) c = t ->
  consume_blank (CRLF ++ t) c q =
  match prepare_body (base q) with
  | (p, inr e) => Consume_threw e (with_base p (with_buf None q))
  | (p, inl true) => consume_body (zlen c - zlen t) t (with_base p (with_buf None q))
  | (p, inl false) => Consumed (zlen c - zlen t) (with_ready true (with_base p (with_buf None q)))
  end.
Proof.
  intros Hm Hh Hc Ht Hd. unfold consume_blank. destruct (m_method q); [done|]. destruct (get_header _ (base q)); [done|].
  assert (u64 (zlen c - zlen (CRLF ++ t) + DELIMITER_SIZE - 1) = zlen c - zlen t) as ->.
  { unfold DELIMITER_SIZE. rewrite zlen_app. change (zlen CRLF) with 2. pose proof (zlen_nonneg t).
    replace (zlen c - (2 + zlen t) + 3 - 1) with (zlen c - zlen t) by lia. apply wrap_small. unfold zlen in *. lia. }
  replace (Z.to_nat (zlen c - zlen t)) with (length c - length t)%nat by (unfold zlen; lia). by rewrite Hd.
Qed.

(** ** Requests as they are written *)

Record message := mk_message {
  d_method : list Z; d_uri : list Z; d_version : list Z;
  d_headers : list (list Z * list Z); d_body : list Z }.

Definition start_line (d : message) : list Z := d_method d ++ str " " ++ d_uri d ++ str " " ++ d_version d.
Definition message_lines (d : message) : list (list Z) := start_line d :: map header_line (d_headers d).
Definition message_text (d : message) : list Z := lines_text (message_lines d) ++ CRLF ++ d_body d.
Definition message_headers (d : message) : header_list := fold_left add_header (d_headers d) [].
Definition message_header (k : list Z) (d : message) : list Z := default [] (header_find k (message_headers d)).

(** A method that is a token, a URI without blanks, headers whose values have no
    white space at their ends, a [Host], and a [Content-Length] that is the length
    of the body, or no body. *)
Record head_ok (d : message) : Prop := mk_head_ok {
  mo_method : d_method d <> [] /\ token (d_method d);
  mo_uri : (32 ∉ d_uri d) /\ (CR ∉ d_uri d);
  mo_version : CR ∉ d_version d;
  mo_headers : Forall header_ok (d_headers d);
}.

Record message_ok (limit : Z) (d : message) : Prop := mk_message_ok {
  mo_head : head_ok d;
  mo_host : message_header (str "Host") d <> [];
  mo_length : (message_header (str "Content-Length") d = [] /\ d_body d = []) \/
    (message_header (str "Content-Length") d <> [] /\
     strtoul (message_header (str "Content-Length") d) = zlen (d_body d) /\ zlen (d_body d) <= limit);
}.

Lemma start_line_ok d : head_ok d -> line_ok (start_line d).
Proof.
  intros [[Hm Ht] [_ Hu] Hv _]. unfold start_line. split; [by destruct (d_method d)|].
  rewrite !not_elem_of_app. split_and!; try done; [by apply token_excludes|decide_now..].
Qed.

Lemma process_start_line d r :
  head_ok d -> m_method r = [] ->
  request_line (start_line d) r =
  (mk_request (set_version (d_version d) (base r)) (m_buf r) (d_method d) (d_uri d) (m_ready r), None).
Proof.
  intros [[Hm Ht] [Hu _] _ _] Hr. unfold request_line. rewrite Hr. unfold process, start_line.
  change (str " ") with [32]. cbn [app]. rewrite str_find_char by (by apply token_excludes).
  rewrite take_app_length. unfold set_method. rewrite token_checked by done.
  rewrite drop_app_add. change (drop 1 (32 :: d_uri d ++ 32 :: d_version d)) with (d_uri d ++ 32 :: d_version d).
  rewrite str_find_char, take_app_length, drop_app_add by done. done.
Qed.

(** The request after its head. *)
Definition head_of (d : message) (r : request) : request :=
  mk_request (with_headers (message_headers d) (set_version (d_version d) (parser_reset (base r))))
    (Some []) (d_method d) (d_uri d) false.

Lemma run_message d r :
  head_ok d -> run_lines request_line (message_lines d) (request_reset r) = Some (head_of d r).
Proof.
  intros Hd. unfold message_lines. cbn [run_lines]. rewrite process_start_line by done.
  rewrite run_headers; [done|apply Hd|]. cbn [m_method]. apply Hd.
Qed.

Lemma message_lines_ok d : head_ok d -> Forall line_ok (message_lines d).
Proof.
  intros Hd. unfold message_lines. constructor; [by apply (start_line_ok _ Hd)|]. apply Forall_map.
  apply (Forall_impl _ _ _ (mo_headers _ Hd)). intros e. apply header_line_ok.
Qed.

(** What a received request holds. *)
Definition holds (d : message) (r : request) : Prop :=
  m_ready r = true /\ m_method r = d_method d /\ m_uri r = d_uri d /\ m_version (base r) = d_version d /\
  m_headers (base r) = message_headers d /\ m_body (base r) = d_body d.

(** From the blank line on. *)
Lemma after_head d r n b c t cs extra :
  message_ok (m_body_bytes_max (base r)) d -> zlen c < 2 ^ 63 -> (length t <= length c)%nat ->
  drop (length c - length t) c = t -> d_body d ++ extra = t ++ concat cs ->
  exists r', after_blank c t cs (frame n b (head_of d r)) = Some (r', extra) /\ holds d r'.
Proof.
  intros Hd Hc Hlt Hdrop Ht. unfold after_blank.
  rewrite consume_blank_bytes; [|apply (mo_head _ _ Hd)|apply (mo_host _ _ Hd)|done..].
  unfold prepare_body. change (get_header (str "Content-Length") (base (frame n b (head_of d r))))
    with (message_header (str "Content-Length") d).
  assert (Hz : Z.to_nat (zlen c - zlen t) = (length c - length t)%nat) by (unfold zlen; lia).
  pose proof (zlen_nonneg t) as Ht0. assert (Htc : zlen t <= zlen c) by (unfold zlen; lia).
  destruct (mo_length _ _ Hd) as [[H1 H2]|(H1 & H2 & H3)].
  { rewrite H1, count_ok by lia. cbn [m_ready with_ready]. rewrite Hz, Hdrop. eexists. split; [by rewrite <- Ht, H2|]. unfold holds. by rewrite H2. }
  destruct (message_header (str "Content-Length") d) as [|x cl] eqn:Ecl; [done|]. rewrite H2.
  cbn [m_body_bytes_max m_body_bytes_needed m_body with_body]. rewrite (proj2 (Z.ltb_ge _ _)) by done. cbn [m_body_bytes_needed].
  set (q := with_base _ _).
  assert (Hq : body_state q [] (zlen (d_body d))) by done.
  destruct (consume_body_step (zlen c - zlen t) t q [] (d_body d) Hq eq_refl) as (r' & -> & Hs & Hr & Hh). rewrite Hr.
  rewrite count_ok by (pose proof (zlen_nonneg (d_body d)); lia).
  destruct (zlen (d_body d) <=? zlen t) eqn:E; bool_to_prop.
  - assert (Htb : t = d_body d ++ drop (length (d_body d)) t) by (eapply app_prefix; [exact Ht|unfold zlen in *; lia]).
    exists r'. destruct Hs as (_ & Hb & _), Hh as (K1 & K2 & K3 & K4). split.
    + do 2 f_equal. apply (app_inv_head (d_body d)). rewrite Ht, app_assoc. f_equal.
      rewrite Z.min_l by done.
      replace (Z.to_nat _) with ((length c - length t) + length (d_body d))%nat by (unfold zlen in *; lia).
      by rewrite <- drop_drop, Hdrop, <- Htb.
    + unfold holds. rewrite Hr, K1, K2, K3, K4, Hb. split_and!; try done. cbn [app]. rewrite Htb at 1. by apply take_app_length'.
  - rewrite Z.min_r, Z.sub_add, Z.eqb_refl in * by lia.
    assert (Hbt : d_body d = t ++ drop (length t) (d_body d)) by (eapply app_prefix; [symmetry; exact Ht|unfold zlen in *; lia]).
    assert (Hz' : zlen (d_body d) - zlen t = zlen (drop (length t) (d_body d))) by (unfold zlen in *; rewrite length_drop; lia).
    rewrite Hz', (take_ge t) in Hs by (unfold zlen in *; lia). cbn [app] in Hs.
    destruct (feed_body cs r' t (drop (length t) (d_body d)) extra Hs) as (r2 & Hf & J1 & J2 & J3).
    + by rewrite Hr.
    + intros D. rewrite D in Hz'. change (zlen []) with 0 in Hz'. lia.
    + apply (app_inv_head t). by rewrite <- Ht, app_assoc, <- Hbt.
    + exists r2. split; [done|]. destruct (same_head_trans _ _ _ Hh J3) as (K1 & K2 & K3 & K4).
      unfold holds. rewrite J1, J2, K1, K2, K3, K4, <- Hbt. done.
Qed.

(** A request however the stream is cut: for every well-formed request, every cut of its
    text and of what follows it into pieces, and every earlier state of the parser, feeding
    the pieces makes the request ready with its method, URI, version, headers and body, and
    leaves exactly the octets after it; or the head is refused as too large, each piece
    costing three octets of the limit and each line one more than it has. *)
Lemma request_stream_or d r chunks extra :
  message_ok (m_body_bytes_max (base r)) d ->
  concat chunks = message_text d ++ extra -> Forall (fun c => zlen c < 2 ^ 63) chunks ->
  (exists r', feed chunks (request_reset r) = Some (r', extra) /\ holds d r') \/
  (refusal chunks (request_reset r) = Some too_large /\
    max_header_size < lines_cost (message_lines d) + DELIMITER_SIZE * zlen chunks + 4).
Proof.
  intros Hd Hc Hsize. unfold message_text in Hc. rewrite <- !app_assoc in Hc.
  destruct (feed_lines chunks 0 [] (request_reset r) (head_of d r) (message_lines d) (d_body d ++ extra))
    as [(c & t & cs' & n' & b & Hin & Ht & Hlt & Hdrop & _ & Hf & _)|[Hf Hm]];
    [done|done|by apply message_lines_ok, (mo_head _ _ Hd)|by apply run_message, (mo_head _ _ Hd)|done|done|rewrite length_app; cbn; lia|left|by right].
  change (frame 0 (Some []) (request_reset r)) with (request_reset r) in Hf. rewrite Hf.
  rewrite Forall_forall in Hsize. specialize (Hsize c (proj2 (list_elem_of_In _ _) Hin)).
  by apply after_head.
Qed.

(** Within the limit it is received whole. *)
Lemma request_stream d r chunks extra :
  message_ok (m_body_bytes_max (base r)) d ->
  concat chunks = message_text d ++ extra -> Forall (fun c => zlen c < 2 ^ 63) chunks ->
  lines_cost (message_lines d) + DELIMITER_SIZE * zlen chunks + 4 <= max_header_size ->
  exists r', feed chunks (request_reset r) = Some (r', extra) /\ holds d r'.
Proof. intros Hd Hc Hs Hm. destruct (request_stream_or d r chunks extra Hd Hc Hs) as [H|[_ H]]; [done|lia]. Qed.

(** ** The limit of the body stays *)

Definition body_max (r : request) : Z := m_body_bytes_max (base r).

Lemma line_body_max l r : body_max (request_line l r).1 = body_max r.
Proof. by destruct (request_line_shape l r) as (? & ? & ? & ? & ->). Qed.

Lemma consume_body_max before buf r n r' : consume_body before buf r = Consumed n r' -> body_max r' = body_max r.
Proof. unfold consume_body, process_body. destruct (m_body_encoding _); try done. intros [= <- <-]. by destruct (body_ready _). Qed.

Lemma consume_max c r n r' : consume c r = Consumed n r' -> body_max r' = body_max r.
Proof.
  unfold consume. destruct (m_ready r); [by intros [= <- <-]|]. destruct (0 <? _); [apply consume_body_max|].
  destruct (m_buf r) as [old|]; [|done].
  pose proof (lines_loop_keeps body_max header_bytes set_header_bytes request_line (S (length (old ++ c))) (old ++ c)
    (with_buf (Some (old ++ c)) r) (fun _ _ => eq_refl) line_body_max) as H.
  destruct (lines_loop _ _ _ _ _ _) as [rest r1|rest r1| |]; try done; [by intros [= <- <-]|].
  unfold consume_blank. destruct (m_method r1); [done|]. destruct (get_header _ _); [done|].
  unfold prepare_body. destruct (get_header (str "Content-Length") _).
  - by intros [= <- <-].
  - destruct (_ <? _); [done|]. intros E. apply consume_body_max in E. by rewrite E.
Qed.

Lemma feed_max cs r r' extra : feed cs r = Some (r', extra) -> body_max r' = body_max r.
Proof.
  revert r. induction cs as [|c cs IH]; intros r; cbn [feed]; [by intros [= <- <-]|].
  destruct (m_ready r); [by intros [= <- <-]|]. destruct (consume c r) as [n r1| |] eqn:E; try done.
  apply consume_max in E. destruct (negb _); [done|]. destruct (m_ready r1); [intros [= <- <-]; done|].
  destruct (_ =? _); [|done]. intros H. apply IH in H. by rewrite H.
Qed.

(** ** Receiving is total *)

(** The states between two calls of [consume]: ready; or the head is read, with no
    line end in the buffer; or some of the body is missing. *)
Inductive parsing (r : request) : Prop :=
  | parsing_ready : m_ready r = true -> parsing r
  | parsing_head old : m_ready r = false -> m_body_bytes_needed (base r) = 0 ->
      m_buf r = Some old -> str_find CRLF old = None -> parsing r
  | parsing_body : m_ready r = false -> 0 < m_body_bytes_needed (base r) ->
      m_body_encoding (base r) = plain -> parsing r.

Lemma parsing_reset r : parsing (request_reset r).
Proof. by apply (parsing_head _ []). Qed.

(** What a call that is given octets does: it throws, or it takes some of them, all
    of them unless the request is ready. *)
Definition takes (c : list Z) (e : consume_end) : Prop :=
  match e with
  | Consumed n r => 1 <= n <= zlen c /\ (m_ready r = false -> n = zlen c) /\ parsing r
  | Consume_threw _ _ => True
  | Consume_undefined => False
  end.

Lemma consume_body_takes before (c buf : list Z) r :
  m_ready r = false -> m_body_encoding (base r) = plain -> 0 <= m_body_bytes_needed (base r) ->
  0 <= before -> before + zlen buf = zlen c -> 1 <= before + Z.min (m_body_bytes_needed (base r)) (zlen buf) ->
  takes c (consume_body before buf r).
Proof.
  intros Hr He Hn Hb Hc Hpos. unfold consume_body, process_body. rewrite He. cbn [takes].
  unfold body_ready. cbn [m_body_bytes_needed with_body]. pose proof (zlen_nonneg buf).
  destruct (m_body_bytes_needed (base r) - _ =? 0) eqn:E; bool_to_prop.
  - split_and!; [lia|lia|done|by apply parsing_ready].
  - split_and!; [lia|lia|intros _; lia|]. apply parsing_body; [done| |done]. cbn. lia.
Qed.

(** The blank line ends among the new octets. *)
Lemma blank_position (old c pre t : list Z) :
  str_find CRLF old = None -> old ++ c = pre ++ CRLF ++ t -> zlen t + 1 <= zlen c.
Proof.
  intros Hn E. destruct (decide (length c <= length t)%nat) as [Hle|]; [|unfold zlen; lia]. exfalso.
  assert (Hold : exists w, old = pre ++ CRLF ++ w).
  { exists (take (length old - length pre - 2) t).
    assert (Hl : (length old + length c = length pre + 2 + length t)%nat).
    { apply (f_equal length) in E. rewrite !length_app in E. change (length CRLF) with 2%nat in E. lia. }
    apply (f_equal (take (length old))) in E. rewrite take_app_length in E.
    etransitivity; [exact E|]. rewrite take_app_ge by lia. f_equal. rewrite take_app_ge by (change (length CRLF) with 2%nat; lia). done. }
  destruct Hold as [w ->]. pose proof (str_find_None _ _ Hn (length pre)) as H. rewrite drop_app_length in H.
  assert (starts_with CRLF (CRLF ++ w) = true) by (apply starts_with_spec; by exists w). congruence.
Qed.

Lemma consume_blank_takes (old c pre t : list Z) r :
  str_find CRLF old = None -> old ++ c = pre ++ CRLF ++ t -> zlen c < 2 ^ 63 -> m_ready r = false ->
  takes c (consume_blank (CRLF ++ t) c r).
Proof.
  intros Hn E Hc Hr. pose proof (blank_position _ _ _ _ Hn E) as Hpos. unfold consume_blank.
  destruct (m_method r); [done|]. destruct (get_header _ _); [done|].
  assert (u64 (zlen c - zlen (CRLF ++ t) + DELIMITER_SIZE - 1) = zlen c - zlen t) as ->.
  { rewrite zlen_app. change (zlen CRLF) with 2. unfold DELIMITER_SIZE. pose proof (zlen_nonneg t).
    replace (zlen c - (2 + zlen t) + 3 - 1) with (zlen c - zlen t) by lia. apply wrap_small. lia. }
  pose proof (zlen_nonneg t) as Ht. unfold prepare_body. destruct (get_header (str "Content-Length") _) as [|x cl].
  { cbn [takes]. split_and!; [lia|lia|done|by apply parsing_ready]. }
  destruct (_ <? _); [done|]. pose proof (strtoul_nonneg (x :: cl)) as Hs. apply consume_body_takes; try done; try lia.
  - unfold zlen in *. rewrite length_drop. lia.
  - cbn [base with_base m_body_bytes_needed with_body]. pose proof (zlen_nonneg (drop (Z.to_nat (zlen c - zlen t)) c)). lia.
Qed.

Lemma consume_takes c r : parsing r -> m_ready r = false -> 0 < zlen c < 2 ^ 63 -> takes c (consume c r).
Proof.
  intros [Hr|old Hr Hb Hbuf Hn|Hr Hb He] Hnr Hc; [congruence| |].
  - unfold consume. rewrite Hr, Hb, Hbuf. change (0 <? 0) with false. cbv iota.
    pose proof (lines_loop_stops header_bytes set_header_bytes request_line (S (length (old ++ c))) (old ++ c)
      (with_buf (Some (old ++ c)) r) (Nat.lt_succ_diag_r _)) as Hstop.
    pose proof (lines_loop_keeps (fun r => (m_ready r, m_body_bytes_needed (base r))) header_bytes set_header_bytes request_line
      (S (length (old ++ c))) (old ++ c) (with_buf (Some (old ++ c)) r) (fun _ _ => eq_refl)
      (fun l s => f_equal2 pair (proj1 (line_keeps_phase l s)) (proj2 (line_keeps_phase l s)))) as Hkeep.
    destruct (lines_loop _ _ _ _ _ _) as [rest r1|rest r1| |]; try done; injection Hkeep as Hk1 Hk2;
      cbn [m_ready base with_buf] in Hk1, Hk2.
    + split_and!; [lia|lia|done|]. apply (parsing_head _ rest); cbn [m_ready base m_buf with_buf]; try done; congruence.
    + destruct Hstop as (pre & t & E & ->). eapply consume_blank_takes; [exact Hn|exact E|lia|congruence].
  - unfold consume. rewrite Hr, (proj2 (Z.ltb_lt _ _)) by done.
    apply consume_body_takes; try done; lia.
Qed.

(** ** Writing and reading back *)

Lemma header_set_last k v h :
  Forall (fun e => ci_compare e.1 k = Lt) h -> header_set k v h = h ++ [(k, v)] /\ header_find k h = None.
Proof.
  induction 1 as [|[x y] h Hx _ [IH1 IH2]]; [done|]. cbn [header_set header_find app fst] in *.
  assert (ci_compare k x = Gt) as -> by (unfold ci_compare in *; by rewrite lex_opp, Hx). by rewrite IH1, IH2.
Qed.

(** Reading headers that are in order gives the same list. *)
Lemma rebuild_headers h1 h2 :
  header_sorted (h1 ++ h2) -> fold_left add_header h2 h1 = h1 ++ h2.
Proof.
  revert h1. induction h2 as [|[k v] h2 IH]; intros h1 Hs; [by rewrite app_nil_r|]. cbn [fold_left].
  assert (Hk : Forall (fun e => ci_compare e.1 k = Lt) h1).
  { clear IH. induction h1 as [|e h1 IH]; [done|]. inversion_clear Hs as [|? ? Hs' Hf].
    constructor; [|by apply IH]. rewrite Forall_app in Hf. destruct Hf as [_ Hf]. by inversion_clear Hf. }
  unfold add_header at 2. cbn [fst snd]. destruct (header_set_last k v h1 Hk) as [Hl Hf].
  rewrite Hf. cbn [from_option]. rewrite Hl, IH; by rewrite <- app_assoc.
Qed.

(** The message a request stands for. *)
Definition message_of (r : request) : message :=
  mk_message (m_method r) (m_uri r) (m_version (base r)) (m_headers (base r)) (m_body (base r)).

Lemma raw_headers_text p : raw_headers p = lines_text (map header_line (m_headers p)).
Proof.
  unfold raw_headers, lines_text. f_equal. rewrite map_map. apply map_ext. intros [k v].
  unfold raw_header, header_line. cbn [fst snd]. app_simpl.
Qed.

Lemma raw_is_text r : raw r = message_text (message_of r).
Proof.
  unfold raw, raw_head, message_text, message_lines. rewrite raw_headers_text.
  change (lines_text (?l :: ?ls)) with ((l ++ CRLF) ++ lines_text ls).
  unfold start_line, message_of. cbn [d_method d_uri d_version d_headers d_body]. by rewrite <- !app_assoc.
Qed.

(** * Results *)

(** C13. Writing a request and reading it back: the text [raw] makes of a request whose
    parts are well formed and whose headers are in the order of the map, cut into
    pieces in any way and followed by anything, is read into a request with the
    same parts, which [raw] writes in the same way, and what follows is left; or it is
    refused with 431, which happens only when the lines of the head, with three octets for
    each line and each piece, come to the limit. *)
Theorem request_raw_roundtrip r0 r chunks extra :
  message_ok (m_body_bytes_max (base r0)) (message_of r) -> header_sorted (m_headers (base r)) ->
  concat chunks = raw r ++ extra -> Forall (fun c => zlen c < 2 ^ 63) chunks ->
  (exists r', feed chunks (request_reset r0) = Some (r', extra) /\ m_ready r' = true /\
     message_of r' = message_of r /\ raw r' = raw r) \/
  (refusal chunks (request_reset r0) = Some (http_exception request_header_fields_too_large) /\
     max_header_size < lines_cost (message_lines (message_of r)) + DELIMITER_SIZE * zlen chunks + 4).
Proof.
  intros Hok Hs Hc Hsize. rewrite raw_is_text in Hc.
  destruct (request_stream_or _ r0 chunks extra Hok Hc Hsize) as [(r' & Hf & (H1 & H2 & H3 & H4 & H5 & H6))|?]; [left|by right].
  exists r'. rewrite !raw_is_text.
  assert (E : message_of r' = message_of r).
  { unfold message_of in *. rewrite H2, H3, H4, H5, H6. cbn. f_equal. unfold message_headers. cbn [d_headers].
    by apply (rebuild_headers []). }
  by rewrite E.
Qed.

(** A request with a body. *)
Definition ex_request : request :=
  mk_request (set_body (str "a=1&b=2")
    (replace_header (str "Host") (str "example.com") (set_version (str "HTTP/1.1") parser_ctor)))
    None (str "POST") (str "/submit?x=1") true.

Lemma request_raw_roundtrip_witness :
  exists r', feed [take 30 (raw ex_request); drop 30 (raw ex_request) ++ str "GET"] (request_reset request_ctor) =
      Some (r', str "GET") /\ m_ready r' = true /\ message_of r' = message_of ex_request /\
    raw r' = raw ex_request.
Proof.
  destruct (request_raw_roundtrip request_ctor ex_request [take 30 (raw ex_request); drop 30 (raw ex_request) ++ str "GET"] (str "GET"))
    as [H|[_ H]]; [..|exact H|by vm_compute in H].
  - split; [split; [split; [done|decide_now]|split; decide_now|decide_now..]|by vm_compute|].
    right. by vm_compute.
  - repeat constructor.
  - cbn [concat]. rewrite app_nil_r, app_assoc, take_drop. done.
  - decide_now.
Defined.
