(* ===== verification/HttpLimits.v ===== *)
(** * What the request parser guarantees for every input

    Invariants of [request] in [sylar/protocol/http] over arbitrary octets: the
    headers it stores are well formed, the memory it uses is bounded by the limits
    of the source, and faulty requests are refused with the status the source
    names. *)

From S2P Require Import Prelude CppString HttpMessage HttpRequest.

(** ** Text without line ends *)

Definition unbroken (s : list Z) : Prop := forall i, s !! i = Some CR -> s !! S i <> Some LF.

Lemma unbroken_nil : unbroken [].
Proof. intros i H. by rewrite lookup_nil in H. Qed.

Lemma unbroken_cons c s : c <> CR -> unbroken s -> unbroken (c :: s).
Proof. intros Hc Hs [|i]; [by intros [= ->]|]. apply Hs. Qed.

Lemma unbroken_app a b : unbroken a -> unbroken b -> head b <> Some LF -> unbroken (a ++ b).
Proof.
  intros Ha Hb Hh i. destruct (decide (S i < length a)%nat) as [H|H].
  { rewrite !lookup_app_l by lia. apply Ha. }
  destruct (decide (i < length a)%nat) as [H2|H2].
  - rewrite (lookup_app_r a b (S i)) by lia. replace (S i - length a)%nat with 0%nat by lia. intros _. by destruct b.
  - rewrite !lookup_app_r by lia. replace (S i - length a)%nat with (S (i - length a)) by lia. apply Hb.
Qed.

Lemma unbroken_infix x s y : unbroken (x ++ s ++ y) -> unbroken s.
Proof.
  intros H i Hi Hi2. apply (H (length x + i)%nat).
  - rewrite lookup_app_r by lia. replace (length x + i - length x)%nat with i by lia. by apply lookup_app_l_Some.
  - rewrite lookup_app_r by lia. replace (S (length x + i) - length x)%nat with (S i) by lia. by apply lookup_app_l_Some.
Qed.

(** The lines that are cut out of the buffer are unbroken. *)
Lemma unbroken_line rest k : str_find CRLF rest = Some k -> unbroken (take k rest).
Proof.
  intros Hf i Hi Hi2. apply str_find_Some in Hf as (_ & _ & _ & _ & Hmin).
  assert (Hk : (S i < k)%nat).
  { apply lookup_lt_Some in Hi2. rewrite length_take in Hi2. lia. }
  rewrite lookup_take_lt in Hi, Hi2 by lia. specialize (Hmin i ltac:(lia)).
  assert (E : drop i rest = CR :: LF :: drop (S (S i)) rest).
  { rewrite (drop_S _ _ _ Hi). by rewrite (drop_S _ _ _ Hi2). }
  by rewrite E in Hmin.
Qed.

Lemma extract_lws_suffix s : exists w, s = w ++ extract_lws s.
Proof.
  destruct (skip_ws_suffix s) as [w Hw]. destruct s as [|c1 [|c2 [|c3 s]]]; try by exists w.
  unfold extract_lws. destruct (_ && _); [|by exists w].
  destruct (skip_ws_suffix s) as [w' Hw']. exists (c1 :: c2 :: c3 :: w'). cbn. by rewrite <- Hw'.
Qed.

Lemma all_lws_suffix s : exists w, s = w ++ extract_all_lws s.
Proof.
  unfold extract_all_lws. generalize (length s). intros n. revert s. induction n as [|n IH]; intros s; cbn [all_lws_loop];
    destruct (extract_lws_suffix s) as [w Hw]; [by exists w|]. destruct (_ || _); [by exists w|].
  destruct (IH (extract_lws s)) as [w' Hw']. exists (w ++ w'). by rewrite <- app_assoc, <- Hw'.
Qed.

Lemma strip_lws_infix s v : strip_lws s = Some v -> exists x y, s = x ++ v ++ y.
Proof.
  unfold strip_lws. destruct (all_lws_suffix s) as [w Hw]. destruct (extract_all_lws s) as [|b bs].
  { intros [= <-]. by exists s, []; rewrite app_nil_r. }
  destruct (extract_all_lws (reverse s)) as [|rb rbs]; [intros [= <-]; by exists s, []; rewrite app_nil_r|].
  destruct (_ <=? _)%nat; [|done]. intros [= <-]. exists w, (drop (length (rb :: rbs) - (length s - length (b :: bs))) (b :: bs)).
  by rewrite take_drop.
Qed.

Lemma strip_lws_unbroken s v : unbroken s -> strip_lws s = Some v -> unbroken v.
Proof. intros Hs Hv. destruct (strip_lws_infix s v Hv) as (x & y & ->). by eapply unbroken_infix. Qed.

(** ** Well-formed headers *)

(** Names are tokens, values hold no line end, and the list is in the order of the
    map, so that no two names are equal up to case. *)
Definition headers_ok (h : header_list) : Prop :=
  header_sorted h /\ Forall (fun e => token e.1 /\ unbroken e.2) h.

Lemma header_set_Forall (P : list Z * list Z -> Prop) k v h :
  (forall k' w, P (k', w) -> P (k', v)) -> P (k, v) -> Forall P h -> Forall P (header_set k v h).
Proof.
  intros Hv Hk. induction 1 as [|[k' w] h Hw Hh IH]; cbn [header_set]; [by constructor|].
  destruct (ci_compare k k'); [|by repeat constructor|by constructor]. constructor; [|done]. by eapply Hv.
Qed.

Lemma header_find_unbroken k h : Forall (fun e => token e.1 /\ unbroken e.2) h -> unbroken (default [] (header_find k h)).
Proof.
  induction 1 as [|[x y] h [_ Hy] _ IH]; cbn [header_find]; [apply unbroken_nil|]. by destruct (ci_compare k x).
Qed.

Lemma token_of_check s : existsb is_not_token_char s = false -> token s.
Proof.
  induction s as [|c s IH]; cbn; [by constructor|]. intros H. apply orb_false_iff in H as [Hc Hs].
  constructor; [|by apply IH]. unfold is_not_token_char in Hc. by apply negb_false_iff in Hc.
Qed.

Lemma append_header_ok k v p p' :
  headers_ok (m_headers p) -> unbroken v -> append_header k v p = inl p' -> headers_ok (m_headers p').
Proof.
  intros [Hs Hf] Hv. unfold append_header. destruct (existsb _ k) eqn:Ek; [done|]. intros [= <-]. cbn [m_headers with_headers].
  assert (Hc : unbroken (match get_header k p with [] => v | old => old ++ str ", " ++ v end)).
  { pose proof (header_find_unbroken k _ Hf) as Hold. fold (get_header k p) in Hold.
    destruct (get_header k p) as [|c old]; [done|]. apply unbroken_app; [done| |done].
    apply unbroken_cons; [done|]. by apply unbroken_cons. }
  split; [by apply header_set_sorted|]. apply header_set_Forall; [by intros k' w [H _]| |done].
  split; [by apply token_of_check|done].
Qed.

Lemma request_line_headers l r :
  unbroken l -> headers_ok (m_headers (base r)) -> headers_ok (m_headers (base (request_line l r).1)).
Proof.
  intros Hl Hh. destruct r as [p b m u rd]. unfold request_line. cbn [m_method base] in *. destruct m.
  - unfold process. destruct (str_find _ l); [|done]. unfold set_method. destruct (existsb _ _); [done|].
    by destruct (str_find _ _).
  - destruct (process_header l p) as [p'|] eqn:E; [|done]. cbn. unfold process_header in E.
    destruct (str_find (str ":") l) as [k|]; [|done].
    destruct (strip_lws (take k l)) as [key|], (strip_lws (drop (k + 1) l)) as [val|] eqn:Ev; try done.
    eapply append_header_ok; [exact Hh| |exact E]. eapply strip_lws_unbroken; [|exact Ev].
    apply (unbroken_infix (take (k + 1) l) _ []). by rewrite app_nil_r, take_drop.
Qed.

(** ** The loop over lines *)

Lemma lines_loop_inv {S} (Q : S -> Prop) hb set on_line fuel rest (s : S) :
  (forall n s, Q s -> Q (set n s)) -> (forall l s, unbroken l -> Q s -> Q (on_line l s).1) -> Q s ->
  match lines_loop hb set on_line fuel rest s with
  | L_more _ s' | L_blank _ s' | L_throw _ s' => Q s'
  | L_fuel => True
  end.
Proof.
  intros Hset Hline. revert rest s. induction fuel as [|fuel IH]; intros rest s Hs; [done|]. cbn [lines_loop].
  set (s1 := set _ s). assert (Hs1 : Q s1) by (by apply Hset). destruct (_ <? hb s1); [done|].
  destruct (str_find CRLF rest) as [[|k]|] eqn:E; [done| |by apply Hset].
  pose proof (Hline (take (Datatypes.S k) rest) s1 (unbroken_line _ _ E) Hs1) as H.
  destruct (on_line _ s1) as [s2 [e|]]; cbn [fst] in H; [done|]. by apply IH.
Qed.

(** The count of the octets of the head covers what is left in the buffer. *)
Lemma lines_loop_bytes {S} hb set (on_line : list Z -> S -> S * option exn) fuel rest s :
  (forall n s, hb (set n s) = n) -> (forall l s, hb (on_line l s).1 = hb s) -> 0 <= hb s ->
  match lines_loop hb set on_line fuel rest s with
  | L_more rest' s' => 0 <= hb s' /\ hb s' + zlen rest' <= max_header_size
  | L_blank _ s' | L_throw _ s' => 0 <= hb s'
  | L_fuel => True
  end.
Proof.
  intros Hset Hline. revert rest s. induction fuel as [|fuel IH]; intros rest s Hs; [done|]. cbn [lines_loop].
  set (s1 := set _ s).
  assert (Hb : hb s1 = hb s + (Z.of_nat (default (length rest) (str_find CRLF rest)) + DELIMITER_SIZE)) by apply Hset.
  unfold DELIMITER_SIZE in Hb. destruct (_ <? hb s1) eqn:Em; bool_to_prop; [lia|].
  destruct (str_find CRLF rest) as [[|k]|]; cbn [default from_option id] in Hb; [lia| |].
  - pose proof (Hline (take (Datatypes.S k) rest) s1) as H. destruct (on_line _ s1) as [s2 [e|]]; cbn [fst] in H; [lia|].
    apply IH. lia.
  - rewrite Hset. unfold zlen. lia.
Qed.

(** ** Reachable requests *)

(** A request that was reset and then given octets, none of which made it throw. *)
Inductive reached (limit : Z) : request -> Prop :=
  | reached_reset r0 : body_max r0 = limit -> reached limit (request_reset r0)
  | reached_consume r c n r' : reached limit r -> consume c r = Consumed n r' -> reached limit r'.

Definition request_headers_ok (r : request) : Prop := headers_ok (m_headers (base r)).

Lemma consume_body_headers before buf r :
  match consume_body before buf r with
  | Consumed _ r' | Consume_threw _ r' => m_headers (base r') = m_headers (base r)
  | Consume_undefined => True
  end.
Proof. unfold consume_body, process_body. destruct (m_body_encoding _); try done. by destruct (body_ready _). Qed.

Lemma consume_blank_headers rest c r :
  match consume_blank rest c r with
  | Consumed _ r' | Consume_threw _ r' => m_headers (base r') = m_headers (base r)
  | Consume_undefined => True
  end.
Proof.
  unfold consume_blank. destruct (m_method r); [done|]. destruct (get_header (str "Host") _); [done|].
  unfold prepare_body. destruct (get_header (str "Content-Length") _); [done|]. destruct (_ <? _); [done|].
  set (n := u64 _). set (q := with_base _ _). pose proof (consume_body_headers n (drop (Z.to_nat n) c) q) as H.
  by destruct (consume_body _ _ q).
Qed.

Lemma consume_headers c r :
  request_headers_ok r ->
  match consume c r with
  | Consumed _ r' | Consume_threw _ r' => request_headers_ok r'
  | Consume_undefined => True
  end.
Proof.
  intros Hr. unfold consume, request_headers_ok in *. destruct (m_ready r); [done|]. destruct (0 <? _).
  { pose proof (consume_body_headers 0 c r) as H. by destruct (consume_body 0 c r); rewrite ?H. }
  destruct (m_buf r) as [old|]; [|done].
  pose proof (lines_loop_inv request_headers_ok header_bytes set_header_bytes request_line (S (length (old ++ c))) (old ++ c)
    (with_buf (Some (old ++ c)) r) (fun _ _ H => H) (fun l s Hl Hs => request_line_headers l s Hl Hs) Hr) as H.
  destruct (lines_loop _ _ _ _ _ _) as [rest r1|rest r1|e r1|]; [done| |done|done].
  pose proof (consume_blank_headers rest c r1) as Hb. by destruct (consume_blank rest c r1); rewrite ?Hb.
Qed.

Lemma reached_headers limit r : reached limit r -> request_headers_ok r.
Proof.
  induction 1 as [r0 _|r c n r' _ IH E]; [split; constructor|].
  pose proof (consume_headers c r IH) as H. by rewrite E in H.
Qed.

(** ** Memory *)

(** While the head is read the buffer is covered by the count; after it the body and
    what is missing of it stay within the limit. *)
Definition within (limit : Z) (r : request) : Prop :=
  body_max r = limit /\
  ((exists old, m_buf r = Some old /\ m_body (base r) = [] /\ m_body_bytes_needed (base r) = 0 /\
      0 <= m_header_bytes (base r) /\ m_header_bytes (base r) + zlen old <= max_header_size) \/
   (m_buf r = None /\ 0 <= m_body_bytes_needed (base r) /\
    zlen (m_body (base r)) + m_body_bytes_needed (base r) <= limit)).

Lemma line_header_bytes l r : header_bytes (request_line l r).1 = header_bytes r.
Proof. by destruct (request_line_shape l r) as (? & ? & ? & ? & ->). Qed.

Lemma line_body l r : m_body (base (request_line l r).1) = m_body (base r).
Proof. by destruct (request_line_shape l r) as (? & ? & ? & ? & ->). Qed.

Lemma consume_body_within limit before buf r n r' :
  body_max r = limit -> m_buf r = None -> 0 <= m_body_bytes_needed (base r) ->
  zlen (m_body (base r)) + m_body_bytes_needed (base r) <= limit ->
  consume_body before buf r = Consumed n r' -> within limit r'.
Proof.
  intros Hm Hb Hn Hs E. split; [by rewrite (consume_body_max _ _ _ _ _ E)|]. right.
  unfold consume_body, process_body in E. destruct (m_body_encoding _); try done. injection E as _ <-.
  set (k := Z.min _ _) in *. pose proof (zlen_nonneg buf).
  assert (Hk : 0 <= k <= m_body_bytes_needed (base r)) by lia.
  assert (Ht : zlen (take (Z.to_nat k) buf) <= k) by (unfold zlen; rewrite length_take; lia).
  by destruct (body_ready _); cbn; rewrite zlen_app; (split_and!; [done|lia|lia]).
Qed.

Lemma consume_blank_within limit rest c r n r' :
  body_max r = limit -> 0 <= limit -> m_body (base r) = [] -> m_body_bytes_needed (base r) = 0 ->
  consume_blank rest c r = Consumed n r' -> within limit r'.
Proof.
  intros Hm Hl Hb Hn. unfold consume_blank. destruct (m_method r); [done|]. destruct (get_header (str "Host") _); [done|].
  unfold prepare_body. destruct (get_header (str "Content-Length") _) as [|x cl].
  - intros [= _ <-]. split; [done|]. right. cbn. rewrite Hb, Hn. done.
  - cbn [m_body_bytes_max m_body_bytes_needed with_body with_buf base with_base].
    destruct (_ <? _) eqn:E; [done|]. bool_to_prop. unfold body_max in Hm. rewrite Hm in E.
    apply consume_body_within; cbn; [done|done|apply strtoul_nonneg|]. rewrite Hb. exact E.
Qed.

Lemma consume_within limit c r n r' :
  0 <= limit -> within limit r -> consume c r = Consumed n r' -> within limit r'.
Proof.
  intros Hl [Hm Hw]. unfold consume. destruct (m_ready r); [by intros [= _ <-]|].
  destruct Hw as [(old & Hbuf & Hbody & Hneed & Hhb & Hsum)|(Hbuf & Hneed & Hsum)].
  - rewrite Hneed, Hbuf. change (0 <? 0) with false. cbv iota.
    pose proof (lines_loop_keeps (fun r => (m_body (base r), m_body_bytes_needed (base r), body_max r)) header_bytes set_header_bytes
      request_line (S (length (old ++ c))) (old ++ c) (with_buf (Some (old ++ c)) r) (fun _ _ => eq_refl)
      (fun l s => f_equal2 pair (f_equal2 pair (line_body l s) (proj2 (line_keeps_phase l s))) (line_body_max l s))) as Hk.
    pose proof (lines_loop_bytes header_bytes set_header_bytes request_line (S (length (old ++ c))) (old ++ c)
      (with_buf (Some (old ++ c)) r) (fun _ _ => eq_refl) line_header_bytes Hhb) as Hc.
    destruct (lines_loop _ _ _ _ _ _) as [rest r1|rest r1| |]; try done; injection Hk as H1 H2 H3;
      cbn [base with_buf] in H1, H2; change (body_max (with_buf _ r)) with (body_max r) in H3.
    + intros [= _ <-]. split; [by rewrite <- Hm, <- H3|]. left. exists rest. cbn. rewrite H1, H2.
      unfold header_bytes in Hc. by split_and!; try apply Hc.
    + apply consume_blank_within; congruence || done.
  - rewrite Hbuf. destruct (0 <? _) eqn:E; [|done]. by apply consume_body_within.
Qed.

Lemma reached_within limit r : 0 <= limit -> reached limit r -> within limit r.
Proof.
  intros Hl. induction 1 as [r0 Hr0|r c n r' _ IH E]; [|by eapply consume_within].
  split; [done|]. left. by exists [].
Qed.

(** A head that is refused at its blank line. *)
Lemma blank_refused d r0 t e chunks :
  head_ok d ->
  (forall c t' n b, exists r, consume_blank (CRLF ++ t') c (frame n b (head_of d r0)) = Consume_threw e r) ->
  concat chunks = lines_text (message_lines d) ++ CRLF ++ t ->
  refusal chunks (request_reset r0) = Some e \/
  (refusal chunks (request_reset r0) = Some too_large /\
   max_header_size < lines_cost (message_lines d) + DELIMITER_SIZE * zlen chunks + 4).
Proof.
  intros Hd He Ht. change (request_reset r0) with (frame 0 (Some []) (request_reset r0)).
  destruct (feed_lines chunks 0 [] (request_reset r0) (head_of d r0) (message_lines d) t)
    as [(c & t' & cs' & n' & b & _ & _ & _ & _ & _ & _ & Hr)|?]; try done;
    [by apply message_lines_ok|by apply run_message|rewrite length_app; cbn; lia| |by right].
  left. destruct (He c t' n' b) as [r Hb]. by eapply Hr.
Qed.

(** * Results *)

(** C18. Stored headers are well formed whatever was received: after a reset and any
    octets, in any pieces, every header name is a token, no value holds a line end
    (so that the headers, written out again, are the same number of lines), and no
    two names are equal up to case; this also holds when the parser throws. *)
Theorem request_headers_wellformed limit r c :
  reached limit r ->
  request_headers_ok r /\ forall e r', consume c r = Consume_threw e r' -> request_headers_ok r'.
Proof.
  intros Hr. apply reached_headers in Hr. split; [done|]. intros e r' E. pose proof (consume_headers c r Hr) as H.
  by rewrite E in H.
Qed.

Lemma ex_reached : reached max_body_size (request_reset request_ctor).
Proof. by apply reached_reset. Defined.

Lemma request_headers_wellformed_witness :
  request_headers_ok (request_reset request_ctor) /\
  forall e r', consume (str "GET / HTTP/1.1" ++ CRLF ++ str "a b: c" ++ CRLF) (request_reset request_ctor) =
    Consume_threw e r' -> request_headers_ok r'.
Proof. exact (request_headers_wellformed _ _ _ ex_reached). Defined.

(** C19. The parser's memory is bounded whatever was received: the buffer it keeps of an
    unfinished head never exceeds [max_header_size], and the body together with what
    is announced of it never exceeds the limit of bodies. *)
Theorem request_memory_bounded limit r :
  0 <= limit -> reached limit r ->
  zlen (default [] (m_buf r)) <= max_header_size /\
  0 <= m_body_bytes_needed (base r) /\ zlen (m_body (base r)) + m_body_bytes_needed (base r) <= limit.
Proof.
  intros Hl Hr. apply reached_within in Hr as [_ [(old & -> & -> & -> & H1 & H2)|(-> & H1 & H2)]]; [|done|done].
  cbn [default from_option id]. change (zlen []) with 0. lia.
Qed.

(** A request of which two of five octets of the body have come, after a head in two pieces. *)
Definition fed (c : list Z) (r : request) : request := match consume c r with Consumed _ r' => r' | _ => request_ctor end.
Lemma fed_reached limit c r :
  reached limit r -> match consume c r with Consumed _ _ => true | _ => false end = true -> reached limit (fed c r).
Proof. unfold fed. intros Hr. destruct (consume c r) as [n r'|e r'|] eqn:E; [|done..]. intros _. by eapply reached_consume. Qed.

Definition ex_start : list Z := str "POST / HTTP/1.1" ++ CRLF ++ str "Host: h" ++ CRLF ++ str "Content-".
Definition ex_half : request :=
  fed (str "Length: 5" ++ CRLF ++ CRLF ++ str "ab") (fed ex_start (request_reset request_ctor)).

Lemma request_memory_bounded_witness :
  m_buf (fed ex_start (request_reset request_ctor)) = Some (str "Content-") /\
  m_body (base ex_half) = str "ab" /\ m_body_bytes_needed (base ex_half) = 3 /\
  zlen (m_body (base ex_half)) + m_body_bytes_needed (base ex_half) <= max_body_size.
Proof.
  assert (Hr : reached max_body_size ex_half).
  { apply fed_reached; [|vm_compute; reflexivity]. apply fed_reached; [exact ex_reached|vm_compute; reflexivity]. }
  split; [vm_compute; reflexivity|]. split; [vm_compute; reflexivity|]. split; [vm_compute; reflexivity|].
  apply (request_memory_bounded max_body_size ex_half); [by vm_compute|exact Hr].
Defined.

(** C20. Faulty requests are refused with the status the source names, however the octets
    are cut into pieces: 400 for a start line without blanks, for a header line without a
    colon and for a head without [Host]; 413 for a [Content-Length] above the limit; unless
    the head passes the header limit before, for which it is 431.  The octets of a line, and
    three for each line and each piece, count against that limit through all pieces: a head whose
    lines pass it is refused in any pieces, and a line that does not end is refused
    exactly when its octets and three for each piece pass the limit. *)
Theorem request_refused r0 d l t :
  head_ok d -> line_ok l ->
  let q := request_reset r0 in
  let refuses text code := forall chunks, concat chunks = text ->
    refusal chunks q = Some (http_exception code) \/
    (refusal chunks q = Some (http_exception request_header_fields_too_large) /\
     max_header_size < lines_cost (message_lines d ++ [l]) + DELIMITER_SIZE * zlen chunks + 4) in
  (32 ∉ l -> refuses (l ++ CRLF ++ t) bad_request) /\
  (58 ∉ l -> refuses (lines_text (message_lines d) ++ l ++ CRLF ++ t) bad_request) /\
  (message_header (str "Host") d = [] -> refuses (lines_text (message_lines d) ++ CRLF ++ t) bad_request) /\
  (message_header (str "Host") d <> [] -> message_header (str "Content-Length") d <> [] ->
   body_max r0 < strtoul (message_header (str "Content-Length") d) ->
   refuses (lines_text (message_lines d) ++ CRLF ++ t) request_entity_too_large) /\
  (max_header_size < lines_cost (message_lines d) + DELIMITER_SIZE ->
   forall chunks, concat chunks = lines_text (message_lines d) ++ CRLF ++ t ->
   refusal chunks q = Some (http_exception request_header_fields_too_large)) /\
  (forall chunks, str_find CRLF (concat chunks) = None ->
   refusal chunks q = if max_header_size <? zlen (concat chunks) + DELIMITER_SIZE * zlen chunks
                      then Some (http_exception request_header_fields_too_large) else None).
Proof.
  intros Hd Hl q refuses. change q with (frame 0 (Some []) q) in refuses |- *.
  pose proof (lines_cost_nonneg (message_lines d)). pose proof (zlen_nonneg l).
  assert (Hc : lines_cost (message_lines d ++ [l]) = lines_cost (message_lines d) + (zlen l + DELIMITER_SIZE))
    by (rewrite lines_cost_app, lines_cost_cons; change (lines_cost []) with 0; lia).
  pose proof (message_lines_ok _ Hd) as Hls. pose proof (run_message d r0 Hd) as Hrun.
  assert (Hm : m_method (head_of d r0) <> []) by apply Hd.
  split_and!.
  - intros Hb chunks Ht. destruct (feed_bad chunks 0 [] q q [] l (http_exception bad_request) t) as [E|[E Hx]]; try done.
    + unfold request_line. cbn [m_method q request_reset]. unfold process. change (str " ") with [32]. by rewrite str_find_char_None.
    + cbn [app]. by rewrite Ht, lines_text_cons.
    + cbn [app]. rewrite <- (app_nil_r (lines_text [l])), lines_text_cons, length_app. cbn. lia.
    + by left.
    + right. split; [exact E|]. cbn [app] in Hx. rewrite lines_cost_cons in Hx. change (lines_cost []) with 0 in Hx. lia.
  - intros Hb chunks Ht. destruct (feed_bad chunks 0 [] q (head_of d r0) (message_lines d) l (http_exception bad_request) t) as [E|[E Hx]]; try done.
    + unfold request_line. destruct (m_method (head_of d r0)) eqn:E; [done|].
      unfold process_header. change (str ":") with [58]. by rewrite str_find_char_None.
    + cbn [app]. rewrite Ht, lines_text_app, <- app_assoc. f_equal. by rewrite lines_text_cons.
    + rewrite lines_text_app, length_app, <- (app_nil_r (lines_text [l])), lines_text_cons, length_app. cbn. lia.
    + by left.
    + right. split; [exact E|lia].
  - intros Hh chunks Ht. destruct (blank_refused d r0 t (http_exception bad_request) chunks Hd) as [E|[E Hx]]; [|done|by left|right; split; [exact E|unfold DELIMITER_SIZE in *; lia]].
    intros c t' n b. unfold consume_blank. change (get_header (str "Host") _) with (message_header (str "Host") d). rewrite Hh.
    destruct (m_method _); eauto.
  - intros Hh Hcl Hmx chunks Ht. destruct (blank_refused d r0 t (http_exception request_entity_too_large) chunks Hd) as [E|[E Hx]]; [|done|by left|right; split; [exact E|unfold DELIMITER_SIZE in *; lia]].
    intros c t' n b. unfold consume_blank. change (get_header (str "Host") _) with (message_header (str "Host") d).
    change (m_method (frame n b (head_of d r0))) with (m_method (head_of d r0)). destruct (m_method (head_of d r0)); [done|].
    destruct (message_header (str "Host") d); [done|]. unfold prepare_body.
    change (get_header (str "Content-Length") _) with (message_header (str "Content-Length") d).
    destruct (message_header (str "Content-Length") d) as [|x cl]; [done|].
    cbn [m_body_bytes_max m_body_bytes_needed with_body]. rewrite (proj2 (Z.ltb_lt _ _)) by (exact Hmx). eauto.
  - intros Hx chunks Ht.
    destruct (feed_lines chunks 0 [] q (head_of d r0) (message_lines d) t) as [(c & t' & cs' & n' & b & _ & _ & _ & _ & Hy & _)|[E _]]; try done.
    + rewrite length_app. cbn. lia.
    + lia.
  - intros chunks Hn. destruct (feed_endless chunks 0 [] q) as [H1 H2]; try done. cbn [app] in H1, H2. rewrite Z.add_0_l in H1, H2.
    destruct (_ <? _) eqn:E; bool_to_prop; auto.
Qed.

Definition ex_head : message :=
  mk_message (str "GET") (str "/") (str "HTTP/1.1") [(str "Host", str "h"); (str "Content-Length", str "99999999")] [].

Lemma request_refused_witness :
  refusal [str "GE"; str "T/" ++ CRLF] (request_reset request_ctor) = Some (http_exception 400) /\
  refusal [lines_text (message_lines ex_head) ++ [CR]; [LF]] (request_reset request_ctor) = Some (http_exception 413) /\
  refusal (repeat [65] 4001) (request_reset request_ctor) = Some (http_exception 431).
Proof.
  destruct (request_refused request_ctor ex_head (str "GET/") []) as (H1 & _ & _ & H4 & _ & H6).
  - split; [split; [done|decide_now]|split; decide_now|decide_now..].
  - split; [done|decide_now].
  - split_and!.
    + destruct (H1 ltac:(decide_now) [str "GE"; str "T/" ++ CRLF] eq_refl) as [E|[_ E]]; [exact E|by vm_compute in E].
    + destruct (H4 ltac:(by vm_compute) ltac:(by vm_compute) ltac:(by vm_compute) [lines_text (message_lines ex_head) ++ [CR]; [LF]]) as [E|[_ E]];
        [vm_compute; reflexivity|exact E|by vm_compute in E].
    + rewrite (H6 (repeat [65] 4001)) by (vm_compute; reflexivity). vm_compute. reflexivity.
Defined.
