(* ===== verification/HttpResponse.v ===== *)
(** * HTTP responses

    Models [sylar/protocol/http/response.hpp] and [impl/response.hpp] with the
    status codes of [constants.hpp]: a response that is built and written with
    [raw], or read with [consume], and [HttpSession::co_sendResp()] of
    [sylar/server/http/httpServer.cc], which completes and sends it. *)

From S2P Require Import Prelude CppString HttpMessage HttpRequest Http.

(** ** Status codes *)

Definition uninitialized : Z := 0.
Definition status_ok : Z := 200.

(** The cases of [get_string]. *)
Definition status_strings : list (Z * list Z) :=
  [(0, str "Uninitialized"); (100, str "Continue"); (101, str "Switching Protocols"); (200, str "OK");
   (201, str "Created"); (202, str "Accepted"); (203, str "Non Authoritative Information");
   (204, str "No Content"); (205, str "Reset Content"); (206, str "Partial Content");
   (300, str "Multiple Choices"); (301, str "Moved Permanently"); (302, str "Found");
   (303, str "See Other"); (304, str "Not Modified"); (305, str "Use Proxy");
   (307, str "Temporary Redirect"); (400, str "Bad Request"); (401, str "Unauthorized");
   (402, str "Payment Required"); (403, str "Forbidden"); (404, str "Not Found");
   (405, str "Method Not Allowed"); (406, str "Not Acceptable");
   (407, str "Proxy Authentication Required"); (408, str "Request Timeout"); (409, str "Conflict");
   (410, str "Gone"); (411, str "Length Required"); (412, str "Precondition Failed");
   (413, str "Request Entity Too Large"); (414, str "Request-URI Too Long");
   (415, str "Unsupported Media Type"); (416, str "Requested Range Not Satisfiable");
   (417, str "Expectation Failed"); (418, str "I'm a teapot"); (426, str "Upgrade Required");
   (428, str "Precondition Required"); (429, str "Too Many Requests");
   (431, str "Request Header Fields Too Large"); (500, str "Internal Server Error");
   (501, str "Not Implemented"); (502, str "Bad Gateway"); (503, str "Service Unavailable");
   (504, str "Gateway Timeout"); (505, str "HTTP Version Not Supported"); (510, str "Not Extended");
   (511, str "Network Authentication Required")].

Definition get_string (c : Z) : list Z :=
  match find (fun e => e.1 =? c) status_strings with Some e => e.2 | None => str "Unknown" end.

(** ** Numbers read from a stream *)

(** The sign and the magnitude of a decimal number after white space; [None]: no
    digit. *)
Definition num_get (s : list Z) : option (bool * Z) :=
  let s := skip_space s in
  let '(neg, s) := match s with
                   | 45 :: s => (true, s)
                   | 43 :: s => (false, s)
                   | _ => (false, s)
                   end in
  match s with
  | c :: _ => if isdigit c then Some (neg, digits_value 0 s) else None
  | [] => None
  end.

(** [ss >> m_read] for a [size_t] and [ss >> code] for an [int]; [None]: [fail()]. *)
Definition stream_size (s : list Z) : option Z :=
  match num_get s with
  | None => None
  | Some (neg, v) => if ULONG_MAX <? v then None else Some (if neg then u64 (- v) else v)
  end.
Definition stream_int (s : list Z) : option Z :=
  match num_get s with
  | None => None
  | Some (neg, v) =>
      let v := if neg then - v else v in
      if (- 2 ^ 31 <=? v) && (v <? 2 ^ 31) then Some v else None
  end.

(** ** The response *)

Inductive state := RESPONSE_LINE | HEADERS | BODY | DONE.
#[global] Instance state_eq_dec : EqDecision state.
Proof. solve_decision. Defined.

Record response := mk_response {
  base : parser;
  m_status_msg : list Z;
  m_read : Z;
  m_buf : option (list Z);
  m_status_code : Z;
  m_state : state;
}.

Definition response_ctor : response := mk_response parser_ctor [] 0 (Some []) uninitialized RESPONSE_LINE.
Definition response_reset (r : response) : response :=
  mk_response (parser_reset (base r)) [] 0 (Some []) uninitialized RESPONSE_LINE.

Definition with_base (p : parser) (r : response) : response :=
  mk_response p (m_status_msg r) (m_read r) (m_buf r) (m_status_code r) (m_state r).
Definition with_buf (b : option (list Z)) (r : response) : response :=
  mk_response (base r) (m_status_msg r) (m_read r) b (m_status_code r) (m_state r).
Definition with_read (n : Z) (st : state) (r : response) : response :=
  mk_response (base r) (m_status_msg r) n (m_buf r) (m_status_code r) st.

Definition set_status (code : Z) (msg : list Z) (r : response) : response :=
  mk_response (base r) msg (m_read r) (m_buf r) code (m_state r).
Definition set_status_default (code : Z) (r : response) : response := set_status code (get_string code) r.

Definition raw (r : response) : list Z :=
  m_version (base r) ++ str " " ++ to_string (m_status_code r) ++ str " " ++ m_status_msg r
  ++ CRLF ++ raw_headers (base r) ++ CRLF ++ m_body (base r).

(** ** Reading *)

(** [process] on the status line. *)
Definition process (line : list Z) (r : response) : response * option exn :=
  match str_find (str " ") line with
  | None => (r, Some (http_exception bad_request))
  | Some n =>
      let r := with_base (set_version (take n line) (base r)) r in
      let rest := drop (n + 1) line in
      match str_find (str " ") rest with
      | None => (r, Some (http_exception bad_request))
      | Some k =>
          match stream_int (take k rest) with
          | None => (r, Some (http_exception bad_request))
          | Some code => (set_status code (drop (k + 1) rest) r, None)
          end
      end
  end.

Definition response_line (line : list Z) (r : response) : response * option exn :=
  if decide (m_state r = RESPONSE_LINE) then
    match process line r with
    | (r, None) => (with_read (m_read r) HEADERS r, None)
    | threw => threw
    end
  else
    match process_header line (base r) with
    | inl p => (with_base p r, None)
    | inr e => (r, Some e)
    end.

(** [response::process_body]: how many octets it took. *)
Definition process_body (buf : list Z) (r : response) : Z * response :=
  if m_read r =? 0 then (0, with_read (m_read r) DONE r)
  else
    let to_read := if m_read r <=? zlen buf then m_read r else zlen buf in
    let st := if m_read r <=? zlen buf then DONE else m_state r in
    let p := base r in
    (to_read,
     with_read (m_read r - to_read) st
       (with_base (with_body (m_body p ++ take (Z.to_nat to_read) buf) (m_body_bytes_needed p) (m_body_encoding p) p) r)).

Inductive consume_end :=
  | Consumed (n : Z) (r : response)
  | Consume_threw (e : exn) (r : response)
  | Consume_undefined.

Definition consume_blank (rest buf : list Z) (r : response) : consume_end :=
  if decide (m_state r = RESPONSE_LINE) then Consume_threw (http_exception bad_request) r
  else
    let length_ := get_header (str "Content-Length") (base r) in
    match (match length_ with [] => Some 0 | _ => stream_size length_ end) with
    | None => Consume_threw (http_exception bad_request) r
    | Some n =>
        let r := with_read n BODY r in
        let read := u64 (zlen buf - zlen rest + DELIMITER_SIZE - 1) in
        if read <? zlen buf then
          let (k, r) := process_body (drop (Z.to_nat read) buf) r in Consumed (read + k) (with_buf None r)
        else Consumed read (with_buf None r)
    end.

Definition header_bytes (r : response) : Z := m_header_bytes (base r).
Definition set_header_bytes (n : Z) (r : response) : response := with_base (with_header_bytes n (base r)) r.

Definition consume (buf : list Z) (r : response) : consume_end :=
  if decide (m_state r = DONE) then Consumed 0 r
  else if decide (m_state r = BODY) then let (n, r) := process_body buf r in Consumed n r
  else
    match m_buf r with
    | None => Consume_undefined
    | Some old =>
        let text := old ++ buf in
        let r := with_buf (Some text) r in
        match lines_loop header_bytes set_header_bytes response_line (S (length text)) text r with
        | L_more rest r => Consumed (zlen buf) (with_read (u64 (m_read r + zlen buf)) (m_state r) (with_buf (Some rest) r))
        | L_blank rest r => consume_blank rest buf r
        | L_throw e r => Consume_threw e r
        | L_fuel => Consume_undefined
        end
    end.

(** [consume(std::istream&)].  One [getline] into the buffer of 512 octets: what is
    given to [consume], the rest of the stream, and whether the stream is still
    good.  A line of more than 511 octets sets [failbit], the end [eofbit]. *)
Definition istream_buffer : nat := 512.

Definition stream_getline (s : list Z) : list Z * list Z * bool :=
  match str_find [LF] (take istream_buffer s) with
  | Some k => (take (k + 1) s, drop (k + 1) s, true)
  | None => (take (istream_buffer - 1) s, drop (istream_buffer - 1) s, false)
  end.

(** The loop; every [getline] that leaves the stream good takes an octet. *)
Fixpoint stream_loop (fuel : nat) (s : list Z) (total : Z) (r : response) : consume_end :=
  match fuel with
  | O => Consume_undefined
  | S fuel =>
      let '(buf, s, good) := stream_getline s in
      match consume buf r with
      | Consumed bytes_processed r =>
          let total := u64 (total + bytes_processed) in
          if negb (bytes_processed =? zlen buf) || negb good then Consumed total r
          else stream_loop fuel s total r
      | e => e
      end
  end.

Definition consume_stream (s : list Z) (r : response) : consume_end := stream_loop (S (length s)) s 0 r.

(** ** [HttpSession::co_sendResp()] *)

(** The response as it is sent, or the exception of [append_header]. *)
Definition prepare_response (keep : bool) (r : response) : response + exn :=
  let r := if m_status_code r =? uninitialized then set_status_default status_ok r else r in
  let r := with_base (set_version (str "HTTP/1.1") (base r)) r in
  match append_header (str "Connection") (str (if keep then "keep-alive" else "close")) (base r) with
  | inl p => inl (with_base p r)
  | inr e => inr e
  end.

Definition co_sendResp_default (answers : list (Z * Z)) (keep : bool) (r : response) : (response * send_end) + exn :=
  match prepare_response keep r with
  | inl r => inl (r, co_sendResp answers (raw r))
  | inr e => inr e
  end.

(** ** Reading what was written *)

Lemma num_get_to_string n : 0 <= n <= ULONG_MAX -> num_get (to_string n) = Some (false, n).
Proof.
  intros Hn. unfold ULONG_MAX in Hn. unfold to_string.
  pose proof (digits_value_digits 20 n [] ltac:(change (10 ^ Z.of_nat 20) with 100000000000000000000; lia) ltac:(lia)) as Hv.
  destruct (digits_head 20 n []) as (c & s & Hs & Hc); [lia|lia|]. rewrite Hs in *.
  assert (c = 48 \/ c = 49 \/ c = 50 \/ c = 51 \/ c = 52 \/ c = 53 \/ c = 54 \/ c = 55 \/ c = 56 \/ c = 57) as Hcs by lia.
  assert (num_get (c :: s) = Some (false, digits_value 0 (c :: s))) as ->
    by (by repeat (destruct Hcs as [-> | Hcs]; [done|]); subst c).
  by rewrite Hv.
Qed.

Lemma stream_int_to_string n : 0 <= n < 2 ^ 31 -> stream_int (to_string n) = Some n.
Proof.
  intros Hn. unfold stream_int. rewrite num_get_to_string by (unfold ULONG_MAX; lia).
  by rewrite (proj2 (Z.leb_le _ _)), (proj2 (Z.ltb_lt _ _)) by lia.
Qed.

Lemma stream_size_to_string n : 0 <= n <= ULONG_MAX -> stream_size (to_string n) = Some n.
Proof. intros Hn. unfold stream_size. rewrite num_get_to_string by done. by rewrite (proj2 (Z.ltb_ge _ _)) by lia. Qed.

Lemma digits_no (c : Z) fuel n acc : 0 <= n -> c < 48 \/ 57 < c -> c ∉ acc -> c ∉ digits fuel n acc.
Proof.
  intros Hn Hc. revert n acc Hn. induction fuel as [|fuel IH]; intros n acc Hn Ha; [done|]. cbn [digits].
  pose proof (Z.mod_pos_bound n 10 ltac:(lia)).
  destruct (n <? 10) eqn:E; bool_to_prop.
  - rewrite not_elem_of_cons. split; [lia|done].
  - apply IH; [apply Z.div_pos; lia|]. rewrite not_elem_of_cons. split; [lia|done].
Qed.

Lemma to_string_no (c n : Z) : 0 <= n -> c < 48 \/ 57 < c -> c ∉ to_string n.
Proof. intros Hn Hc. unfold to_string. apply digits_no; [done|done|by apply not_elem_of_nil]. Qed.

(** The status line. *)
Definition status_line (r : response) : list Z :=
  m_version (base r) ++ str " " ++ to_string (m_status_code r) ++ str " " ++ m_status_msg r.
Definition response_lines (r : response) : list (list Z) := status_line r :: map header_line (m_headers (base r)).

Record response_ok (r : response) : Prop := mk_response_ok {
  ro_version : (32 ∉ m_version (base r)) /\ (CR ∉ m_version (base r));
  ro_code : 0 <= m_status_code r < 2 ^ 31;
  ro_msg : CR ∉ m_status_msg r;
  ro_headers : Forall header_ok (m_headers (base r));
  ro_sorted : header_sorted (m_headers (base r));
  ro_body : zlen (m_body (base r)) < 2 ^ 63;
  ro_length : get_header (str "Content-Length") (base r) =
    match m_body (base r) with [] => [] | b => to_string (zlen b) end;
}.

Lemma response_line_bytes l n r :
  response_line l (set_header_bytes n r) = (set_header_bytes n (response_line l r).1, (response_line l r).2).
Proof.
  destruct r as [p msg rd b code st]. unfold response_line, set_header_bytes, with_base. cbn [m_state base m_status_msg m_read m_buf m_status_code].
  destruct (decide (st = RESPONSE_LINE)).
  - unfold process. destruct (str_find _ l) as [k|]; [|done]. destruct (str_find _ (drop _ l)); [|done].
    by destruct (stream_int _).
  - rewrite process_header_bytes. by destruct (process_header l p).
Qed.

Lemma run_response_headers hs r :
  Forall header_ok hs -> m_state r = HEADERS ->
  run_lines response_line (map header_line hs) r =
  Some (with_base (with_headers (fold_left add_header hs (m_headers (base r))) (base r)) r).
Proof.
  intros Hh. revert r. induction Hh as [|e hs He _ IH]; intros r Hm; cbn [map run_lines fold_left].
  - by destruct r as [[]].
  - unfold response_line. rewrite decide_False by (by rewrite Hm). rewrite process_header_line by done.
    rewrite IH by done. by destruct r as [[]].
Qed.

Lemma process_status_line r q :
  response_ok r -> m_state q = RESPONSE_LINE ->
  response_line (status_line r) q =
  (mk_response (set_version (m_version (base r)) (base q)) (m_status_msg r) (m_read q) (m_buf q) (m_status_code r) HEADERS,
   None).
Proof.
  intros [[Hv _] Hc _ _ _ _ _] Hq. unfold response_line. rewrite decide_True by done. unfold process, status_line.
  change (str " ") with [32]. cbn [app]. rewrite str_find_char by done. rewrite take_app_length, drop_app_add.
  set (rest := to_string (m_status_code r) ++ 32 :: m_status_msg r).
  change (drop 1 (32 :: rest)) with rest. unfold rest.
  rewrite str_find_char, take_app_length, drop_app_add by (apply to_string_no; lia).
  rewrite stream_int_to_string by done. by destruct q.
Qed.

Lemma status_line_ok r : response_ok r -> line_ok (status_line r).
Proof.
  intros [[_ Hv] Hc Hm _ _ _ _]. unfold status_line. split; [by destruct (m_version (base r))|].
  rewrite !not_elem_of_app. split_and!; [done|decide_now| |decide_now|done].
  apply to_string_no; unfold CR; lia.
Qed.

Lemma run_response r q :
  response_ok r -> m_state q = RESPONSE_LINE -> m_headers (base q) = [] ->
  run_lines response_line (response_lines r) q =
  Some (mk_response (with_headers (m_headers (base r)) (set_version (m_version (base r)) (base q)))
          (m_status_msg r) (m_read q) (m_buf q) (m_status_code r) HEADERS).
Proof.
  intros Hr Hq Hh. unfold response_lines. cbn [run_lines]. rewrite process_status_line by done.
  rewrite run_response_headers; [|apply Hr|done]. cbn [base m_headers set_version with_base]. rewrite Hh.
  by rewrite (rebuild_headers []) by apply Hr.
Qed.

Lemma raw_response_text r : raw r = lines_text (response_lines r) ++ CRLF ++ m_body (base r).
Proof.
  unfold raw, response_lines. rewrite raw_headers_text.
  change (lines_text (?l :: ?ls)) with ((l ++ CRLF) ++ lines_text ls). unfold status_line. by rewrite <- !app_assoc.
Qed.

Lemma response_lines_ok r : response_ok r -> Forall line_ok (response_lines r).
Proof.
  intros Hr. unfold response_lines. constructor; [by apply status_line_ok|]. apply Forall_map.
  apply (Forall_impl _ _ _ (ro_headers _ Hr)). intros e. apply header_line_ok.
Qed.

(** The whole text of a response up to the blank line. *)
Lemma consume_response_head r :
  response_ok r -> lines_cost (response_lines r) + DELIMITER_SIZE <= max_header_size ->
  exists n b, consume (raw r) response_ctor =
    consume_blank (CRLF ++ m_body (base r)) (raw r)
      (mk_response (with_header_bytes n (with_headers (m_headers (base r)) (set_version (m_version (base r)) parser_ctor)))
         (m_status_msg r) 0 b (m_status_code r) HEADERS).
Proof.
  intros Hr Hcost. unfold consume. rewrite !decide_False by done. cbn [m_buf response_ctor app].
  pose proof (length_lines_text (response_lines r)) as Hlen. rewrite raw_response_text.
  set (k := (length (lines_text (response_lines r) ++ CRLF ++ m_body (base r)) - length (response_lines r))%nat).
  replace (S (length (lines_text (response_lines r) ++ CRLF ++ m_body (base r))))
    with (length (response_lines r) + S k)%nat by (unfold k; rewrite length_app; lia).
  set (q := with_buf _ _). erewrite loop_lines;
    [|done|done|by intros [[]]|apply response_line_bytes|by apply response_lines_ok
     |by apply (run_response r q)|change (header_bytes q) with 0; unfold DELIMITER_SIZE in *; lia].
  erewrite loop_blank; [|done|change (0 + lines_cost (response_lines r) + DELIMITER_SIZE <= max_header_size); lia].
  eexists _, _. reflexivity.
Qed.

(** C35. Writing a response and reading it back: [consume] takes all of the text [raw]
    makes of a well-formed response and gives its version, status, headers and
    body; it is ready when there is a body, and waits for one more octet when
    there is none. *)
Theorem response_raw_roundtrip r :
  response_ok r -> lines_cost (response_lines r) + DELIMITER_SIZE <= max_header_size ->
  exists r', consume (raw r) response_ctor = Consumed (zlen (raw r)) r' /\
    m_version (base r') = m_version (base r) /\ m_status_code r' = m_status_code r /\
    m_status_msg r' = m_status_msg r /\ m_headers (base r') = m_headers (base r) /\
    m_body (base r') = m_body (base r) /\ raw r' = raw r /\
    m_state r' = (match m_body (base r) with [] => BODY | _ => DONE end).
Proof.
  intros Hr Hcost. destruct (consume_response_head r Hr Hcost) as (n & b & ->).
  unfold consume_blank. rewrite decide_False by done. cbn [base].
  change (get_header (str "Content-Length") (with_header_bytes n (with_headers (m_headers (base r)) (set_version (m_version (base r)) parser_ctor))))
    with (get_header (str "Content-Length") (base r)). rewrite (ro_length _ Hr).
  assert (Hz : zlen (raw r) = zlen (lines_text (response_lines r)) + 2 + zlen (m_body (base r))).
  { rewrite raw_response_text. zlen_simpl. change (zlen CRLF) with 2. lia. }
  pose proof (zlen_nonneg (lines_text (response_lines r))) as Hl. pose proof (zlen_nonneg (m_body (base r))) as Hb.
  assert (Hread : u64 (zlen (raw r) - zlen (CRLF ++ m_body (base r)) + DELIMITER_SIZE - 1) =
    zlen (lines_text (response_lines r)) + 2).
  { rewrite zlen_app. change (zlen CRLF) with 2. unfold DELIMITER_SIZE in *.
    replace (zlen (raw r) - _ + 3 - 1) with (zlen (lines_text (response_lines r)) + 2) by lia.
    apply wrap_small. pose proof (lines_text_cost (response_lines r)). unfold max_header_size in *. lia. }
  destruct (m_body (base r)) as [|x body] eqn:Ebody.
  - change (zlen []) with 0 in Hz. rewrite Hread, (proj2 (Z.ltb_ge _ _)) by lia.
    eexists. split; [f_equal; lia|]. cbn. split_and!; try done. unfold raw. cbn. by rewrite Ebody.
  - rewrite stream_size_to_string by (pose proof (ro_body _ Hr) as H; rewrite Ebody in H; unfold ULONG_MAX; lia).
    destruct (to_string (zlen (x :: body))) eqn:Et.
    { exfalso. destruct (digits_head 20 (zlen (x :: body)) []) as (c & s & Hs & _); [lia|lia|]. unfold to_string in Et. congruence. }
    assert (Hpos : 0 < zlen (x :: body)) by (rewrite zlen_cons; pose proof (zlen_nonneg body); lia).
    rewrite Hread, (proj2 (Z.ltb_lt _ _)) by lia.
    assert (Hdrop : drop (Z.to_nat (zlen (lines_text (response_lines r)) + 2)) (raw r) = x :: body).
    { rewrite raw_response_text, Ebody, app_assoc. apply drop_app_length'.
      rewrite length_app. cbn [CRLF length]. unfold zlen. lia. }
    rewrite Hdrop. unfold process_body. cbn [m_read with_read]. rewrite (proj2 (Z.eqb_neq _ _)), Z.leb_refl by lia.
    assert (Htake : take (Z.to_nat (zlen (x :: body))) (x :: body) = x :: body) by (apply take_ge; unfold zlen; lia).
    rewrite Htake. eexists. split; [f_equal; lia|]. cbn. split_and!; try done. unfold raw. cbn. by rewrite Ebody.
Qed.

Definition ex_response : response :=
  with_base (set_body (str "hello") (set_version (str "HTTP/1.1") parser_ctor)) (set_status_default 200 response_ctor).

Lemma response_raw_roundtrip_witness :
  raw ex_response = str "HTTP/1.1 200 OK" ++ CRLF ++ str "Content-Length: 5" ++ CRLF ++ CRLF ++ str "hello" /\
  exists r', consume (raw ex_response) response_ctor = Consumed (zlen (raw ex_response)) r' /\
    m_status_code r' = 200 /\ m_body (base r') = str "hello" /\ m_state r' = DONE.
Proof.
  split; [by vm_compute|].
  destruct (response_raw_roundtrip ex_response) as (r' & Hc & _ & H2 & _ & _ & H5 & _ & H7).
  - split; [split; decide_now|by vm_compute|decide_now|decide_now|repeat constructor|by vm_compute|by vm_compute].
  - by vm_compute.
  - exists r'. by rewrite H2, H5, H7.
Defined.

(** ** Sending *)

Lemma prepare_response_total keep r :
  exists r', prepare_response keep r = inl r' /\ m_version (base r') = str "HTTP/1.1" /\
    m_status_code r' = (if m_status_code r =? uninitialized then status_ok else m_status_code r) /\
    m_body (base r') = m_body (base r) /\
    (get_header (str "Connection") (base r) = [] ->
     get_header (str "Connection") (base r') = str (if keep then "keep-alive" else "close")) /\
    (forall k, ~ ci_eq k (str "Connection") -> get_header k (base r') = get_header k (base r)).
Proof.
  unfold prepare_response. set (q := if _ =? _ then _ else r).
  assert (Hq : base q = base r) by (unfold q; by destruct (_ =? _)).
  unfold append_header. change (existsb is_not_token_char (str "Connection")) with false. cbv iota.
  eexists. split; [reflexivity|]. cbn [base with_base m_version with_headers set_version m_status_code m_body]. rewrite Hq.
  split_and!; [done|unfold q; by destruct (_ =? _)|done| |].
  - intros Hc. unfold get_header in *. cbn [m_headers with_headers set_version]. rewrite Hc, header_find_set.
    by rewrite decide_True by done.
  - intros k Hk. unfold get_header. cbn [m_headers with_headers set_version]. by rewrite header_find_set, decide_False.
Qed.

(** Reading a response from a stream stops at a line of more than 511 octets: the
    parser is given the first 511 octets and nothing of the rest. *)
Theorem stream_long_line s r :
  LF ∉ take 512 s -> consume_stream s r =
  match consume (take 511 s) r with Consumed n r' => Consumed (u64 n) r' | e => e end.
Proof.
  intros Hs. unfold consume_stream. cbn [stream_loop]. unfold stream_getline. unfold istream_buffer.
  rewrite str_find_char_None by done. destruct (consume _ r); try done. by rewrite orb_true_r.
Qed.
