(* ===== verification/HttpApi.v ===== *)
(** * What a handler does with a response

    Models the class [Response] of [sylar/protocol/http/http.hpp], through which a
    handler builds its answer, on the message of [HttpMessage] and [HttpResponse], and
    relates it to what it stands for: a map from header names, taken without regard to case, to
    values, a body and a status. *)

From stdpp Require Import gmap.
From S2P Require Import Prelude CppString HttpMessage HttpResponse.

(** The calls of a handler. *)
Inductive resp_op :=
  | setStatus (code : Z)
  | appendHeader (key value : list Z)
  | replaceHeader (key value : list Z)
  | removeHeader (key : list Z)
  | setBody (body : list Z).

Definition resp_run (o : resp_op) (r : response) : response + exn :=
  match o with
  | setStatus code => inl (set_status_default code r)
  | appendHeader key value =>
      match append_header key value (base r) with inl p => inl (with_base p r) | inr e => inr e end
  | replaceHeader key value => inl (with_base (replace_header key value (base r)) r)
  | removeHeader key => inl (with_base (remove_header key (base r)) r)
  | setBody body => inl (with_base (set_body body (base r)) r)
  end.

Definition getStatus (r : response) : Z := m_status_code r.
Definition getHeader (key : list Z) (r : response) : list Z := get_header key (base r).
Definition getBody (r : response) : list Z := m_body (base r).

(** A handler: it ends at the first exception. *)
Fixpoint resp_runs (os : list resp_op) (r : response) : response * option exn :=
  match os with
  | [] => (r, None)
  | o :: os => match resp_run o r with inl r => resp_runs os r | inr e => (r, Some e) end
  end.

(** ** What it stands for *)

Record reply := mk_reply { r_headers : gmap (list Z) (list Z); r_body : list Z; r_status : Z }.

Definition token (key : list Z) : bool := negb (existsb is_not_token_char key).
Definition content_length : list Z := lower (str "Content-Length").

Definition spec_op (o : resp_op) (v : reply) : option reply :=
  match o with
  | setStatus code => Some (mk_reply (r_headers v) (r_body v) code)
  | appendHeader key value =>
      if token key then
        let new := match r_headers v !! lower key with Some ((_ :: _) as old) => old ++ str ", " ++ value | _ => value end in
        Some (mk_reply (<[lower key := new]> (r_headers v)) (r_body v) (r_status v))
      else None
  | replaceHeader key value => Some (mk_reply (<[lower key := value]> (r_headers v)) (r_body v) (r_status v))
  | removeHeader key => Some (mk_reply (delete (lower key) (r_headers v)) (r_body v) (r_status v))
  | setBody [] => Some (mk_reply (delete content_length (r_headers v)) [] (r_status v))
  | setBody body => Some (mk_reply (<[content_length := to_string (zlen body)]> (r_headers v)) body (r_status v))
  end.

Fixpoint spec_ops (os : list resp_op) (v : reply) : reply * bool :=
  match os with
  | [] => (v, true)
  | o :: os => match spec_op o v with Some v => spec_ops os v | None => (v, false) end
  end.

Record stands_for (r : response) (v : reply) : Prop := {
  sf_headers : forall k, header_find k (m_headers (base r)) = r_headers v !! lower k;
  sf_sorted : header_sorted (m_headers (base r));
  sf_body : getBody r = r_body v;
  sf_status : getStatus r = r_status v;
}.

Lemma header_find_erase k k' h :
  header_find k (header_erase k' h) = if decide (ci_eq k k') then None else header_find k h.
Proof.
  induction h as [|[x y] h IH]; [cbn; by case_decide|]. unfold header_erase in *. cbn [List.filter fst].
  destruct (ci_compare k' x) eqn:E; [|rewrite !header_find_cons, IH..].
  - apply ci_compare_Eq in E. rewrite IH, header_find_cons. unfold ci_eq in *. repeat case_decide; congruence.
  - assert (~ ci_eq k' x) by (intros D; by rewrite (proj2 (ci_compare_Eq k' x) D) in E). unfold ci_eq in *. repeat case_decide; congruence.
  - assert (~ ci_eq k' x) by (intros D; by rewrite (proj2 (ci_compare_Eq k' x) D) in E). unfold ci_eq in *. repeat case_decide; congruence.
Qed.

Lemma header_erase_sorted k h : header_sorted h -> header_sorted (header_erase k h).
Proof.
  unfold header_erase. induction 1 as [|e h Hs IH Hf]; cbn [List.filter]; [constructor|].
  destruct (ci_compare k e.1); [done| |]; (constructor; [done|]); rewrite Forall_forall in *; intros x Hx; apply Hf;
    rewrite list_elem_of_In, filter_In, <- list_elem_of_In in Hx; tauto.
Qed.

Lemma lower_insert (k k' x : list Z) (m : gmap (list Z) (list Z)) :
  (if decide (ci_eq k k') then Some x else m !! lower k) = <[lower k' := x]> m !! lower k.
Proof. unfold ci_eq. case_decide as E; [by rewrite E, lookup_insert_eq|by rewrite lookup_insert_ne]. Qed.

Lemma lower_delete (k k' : list Z) (m : gmap (list Z) (list Z)) :
  (if decide (ci_eq k k') then None else m !! lower k) = delete (lower k') m !! lower k.
Proof. unfold ci_eq. case_decide as E; [by rewrite E, lookup_delete_eq|by rewrite lookup_delete_ne]. Qed.

(** A header is set or erased. *)
Lemma stands_set r v k x : stands_for r v ->
  stands_for (with_base (replace_header k x (base r)) r) (mk_reply (<[lower k := x]> (r_headers v)) (r_body v) (r_status v)).
Proof.
  intros [H1 H2 H3 H4]. split; try done; [|by apply header_set_sorted].
  intros k'. cbn. by rewrite header_find_set, H1, lower_insert.
Qed.

Lemma stands_erase r v k : stands_for r v ->
  stands_for (with_base (remove_header k (base r)) r) (mk_reply (delete (lower k) (r_headers v)) (r_body v) (r_status v)).
Proof.
  intros [H1 H2 H3 H4]. split; try done; [|by apply header_erase_sorted].
  intros k'. cbn [base with_base remove_header with_headers m_headers r_headers]. by rewrite header_find_erase, H1, lower_delete.
Qed.

Lemma stands_body r h b c body n e : stands_for r (mk_reply h b c) -> stands_for (with_base (with_body body n e (base r)) r) (mk_reply h body c).
Proof. intros [H1 H2 H3 H4]. by split. Qed.

Lemma resp_run_refines o r v : stands_for r v ->
  match spec_op o v with
  | Some v' => exists r', resp_run o r = inl r' /\ stands_for r' v'
  | None => resp_run o r = inr (http_exception bad_request)
  end.
Proof.
  intros Hs. destruct o as [code|k x|k x|k|[|c body]]; cbn [resp_run spec_op].
  - eexists. split; [done|]. by destruct Hs.
  - unfold append_header, token, get_header. destruct (existsb is_not_token_char k); cbn [negb]; [done|].
    rewrite (sf_headers _ _ Hs). eexists. split; [done|].
    destruct (r_headers v !! lower k) as [[|o old]|]; cbn [default from_option id]; by apply (stands_set r v k).
  - eexists. split; [done|]. by apply stands_set.
  - eexists. split; [done|]. by apply stands_erase.
  - eexists. split; [done|]. apply (stands_erase r v (str "Content-Length")) in Hs. by eapply stands_body in Hs.
  - eexists. split; [done|]. apply (stands_set r v (str "Content-Length") (to_string (zlen (c :: body)))) in Hs. by eapply stands_body in Hs.
Qed.

Lemma resp_runs_refines os : forall r v, stands_for r v ->
  let '(r', e) := resp_runs os r in let '(v', ok) := spec_ops os v in
  stands_for r' v' /\ e = if ok then None else Some (http_exception bad_request).
Proof.
  induction os as [|o os IH]; intros r v Hs; cbn [resp_runs spec_ops]; [done|].
  pose proof (resp_run_refines o r v Hs) as Ho. destruct (spec_op o v) as [v'|].
  - destruct Ho as (r' & -> & Hs'). by apply IH.
  - by rewrite Ho.
Qed.

(** * Results *)

Definition no_reply : reply := mk_reply ∅ [] uninitialized.

(** A response is a map without regard to case: whatever calls a handler makes, each header
    reads as the calls on the map say, in particular headers that are appended to are joined, and a name
    that is no token is the only thing that throws, with the calls before it in force. *)
Theorem response_is_map os key :
  let '(r, e) := resp_runs os response_ctor in let '(v, ok) := spec_ops os no_reply in
  getHeader key r = default [] (r_headers v !! lower key) /\ getBody r = r_body v /\ getStatus r = r_status v /\
  (e = None <-> ok = true).
Proof.
  assert (H0 : stands_for response_ctor no_reply) by (split; try done; constructor).
  pose proof (resp_runs_refines os _ _ H0) as H. destruct (resp_runs os response_ctor) as [r e], (spec_ops os no_reply) as [v ok].
  destruct H as [[H1 _ H3 H4] ->]. unfold getHeader, get_header. rewrite H1. split_and!; [done..|by destruct ok].
Qed.

(** A call that does not name the header [Content-Length]. *)
Definition other_header (o : resp_op) : bool :=
  match o with
  | appendHeader k _ | replaceHeader k _ | removeHeader k => negb (bool_decide (lower k = content_length))
  | _ => true
  end.

Definition length_right (v : reply) : Prop :=
  r_headers v !! content_length = match r_body v with [] => None | b => Some (to_string (zlen b)) end.

Lemma spec_op_length o v v' : other_header o = true -> length_right v -> spec_op o v = Some v' -> length_right v'.
Proof.
  unfold length_right. destruct o as [code|k x|k x|k|[|c body]]; cbn [other_header spec_op]; intros Ho Hl E.
  - by injection E as <-.
  - destruct (token k); [|done]. injection E as <-. cbn [r_headers r_body]. apply negb_true_iff, bool_decide_eq_false in Ho. by rewrite lookup_insert_ne.
  - injection E as <-. cbn [r_headers r_body]. apply negb_true_iff, bool_decide_eq_false in Ho. by rewrite lookup_insert_ne.
  - injection E as <-. cbn [r_headers r_body]. apply negb_true_iff, bool_decide_eq_false in Ho. by rewrite lookup_delete_ne.
  - injection E as <-. cbn [r_headers r_body]. apply lookup_delete_eq.
  - injection E as <-. cbn [r_headers r_body]. apply lookup_insert_eq.
Qed.

(** The length a response announces is the length of its body, as long as the handler leaves that
    header alone. *)
Theorem content_length_right os :
  forallb other_header os = true ->
  let r := (resp_runs os response_ctor).1 in
  getHeader (str "Content-Length") r = match getBody r with [] => [] | b => to_string (zlen b) end.
Proof.
  intros Ho. assert (H0 : stands_for response_ctor no_reply) by (split; try done; constructor).
  pose proof (resp_runs_refines os _ _ H0) as H.
  assert (Hl : forall v, length_right v -> length_right (spec_ops os v).1).
  { clear H. induction os as [|o os IH]; intros v Hv; cbn [spec_ops]; [done|]. cbn [forallb] in Ho. apply andb_true_iff in Ho as [Ho Hos].
    destruct (spec_op o v) as [v'|] eqn:E; [|done]. apply IH; [done|]. by eapply spec_op_length. }
  specialize (Hl no_reply eq_refl). destruct (resp_runs os response_ctor) as [r e], (spec_ops os no_reply) as [v ok]. cbn [fst] in *.
  destruct H as [[H1 _ H3 _] _]. unfold getHeader, get_header. rewrite H1. change (lower (str "Content-Length")) with content_length.
  rewrite Hl, H3. by destruct (r_body v).
Qed.

Lemma content_length_right_witness :
  getHeader (str "content-length") (resp_runs [appendHeader (str "Accept") (str "a"); setBody (str "abc"); appendHeader (str "ACCEPT") (str "b")] response_ctor).1 = str "3" /\
  getHeader (str "accept") (resp_runs [appendHeader (str "Accept") (str "a"); setBody (str "abc"); appendHeader (str "ACCEPT") (str "b")] response_ctor).1 = str "a, b".
Proof.
  split; [|reflexivity].
  exact (content_length_right [appendHeader (str "Accept") (str "a"); setBody (str "abc"); appendHeader (str "ACCEPT") (str "b")] eq_refl).
Defined.

(** Values are not checked: one that contains a line end gives the client a header of its
    own. *)
Theorem header_value_splits v w :
  let r := (resp_runs [setStatus 200; replaceHeader (str "X") (v ++ CRLF ++ str "Y: " ++ w)] response_ctor).1 in
  raw r = str " 200 OK" ++ CRLF ++ str "X: " ++ v ++ CRLF ++ str "Y: " ++ w ++ CRLF ++ CRLF.
Proof. cbn zeta. unfold raw. cbn. unfold raw_headers. cbn. rewrite !app_nil_r, <- !app_assoc. done. Qed.
