(* ===== verification/HttpParams.v ===== *)
(** * Parameter lists of HTTP headers

    Models the extraction functions of [sylar/protocol/http/parser.hpp] (tokens,
    quoted strings, attributes and parameters) and the two methods of
    [impl/parser.hpp] on them.  An iterator is the text from it on; two iterators
    into one text are equal when their texts have the same length. *)

From stdpp Require Import gmap.
From S2P Require Import Prelude CppString HttpMessage HttpRequest.

Abbreviation attribute_list := (gmap (list Z) (list Z)).
Abbreviation parameter_list := (list (list Z * attribute_list)).

Definition QUOTE : Z := 34.
Definition BACKSLASH : Z := 92.
Definition SEMI : Z := 59.
Definition COMMA : Z := 44.
Definition EQUALS : Z := 61.

Definition same_it (a b : list Z) : bool := (length a =? length b)%nat.

(** [extract_token]: the token and the iterator after it. *)
Fixpoint extract_token (s : list Z) : list Z * list Z :=
  match s with
  | c :: s' => if is_not_token_char c then ([], s) else let (t, r) := extract_token s' in (c :: t, r)
  | [] => ([], [])
  end.

(** The loop of [extract_quoted_string]: [t] is the text from [marker] on.  The
    octet before the first quote of [t] is a quote when the quote is at [marker]. *)
Fixpoint quoted_loop (fuel : nat) (t s : list Z) : option (list Z * list Z) :=
  match fuel with
  | O => None
  | S fuel =>
      match str_find [QUOTE] t with
      | None => None
      | Some k =>
          if match k with O => false | S j => default 0 (t !! j) =? BACKSLASH end
          then quoted_loop fuel (drop (k + 1) t) (s ++ take (k - 1) t ++ [QUOTE])
          else Some (s ++ take k t, drop (k + 1) t)
      end
  end.

(** [extract_quoted_string]; without a closing quote it returns its argument. *)
Definition extract_quoted_string (begin : list Z) : list Z * list Z :=
  match begin with
  | c :: t => if negb (c =? QUOTE) then ([], begin) else default ([], begin) (quoted_loop (length begin) t [])
  | [] => ([], begin)
  end.

Definition at_char (c : Z) (s : list Z) : bool := match s with x :: _ => x =? c | [] => false end.

(** One round of [extract_attributes] after the separator: the attributes and the
    iterator with which the loop goes on; [None]: an error, [begin] is returned
    (the attributes read so far stay). *)
Definition attribute_step (cursor : list Z) (attributes : attribute_list) : attribute_list * option (list Z) :=
  match extract_token (extract_all_lws cursor) with
  | ([], _) => (attributes, None)
  | (name, cursor) =>
      let cursor := extract_all_lws cursor in
      if negb (at_char EQUALS cursor) then (<[name := []]> attributes, Some cursor)
      else
        match extract_all_lws (tail cursor) with
        | [] => (attributes, None)
        | cursor =>
            let ret := extract_quoted_string cursor in
            if negb (same_it ret.2 cursor) then (<[name := ret.1]> attributes, Some ret.2)
            else
              match extract_token cursor with
              | ([], _) => (attributes, None)
              | (value, cursor) => (<[name := value]> attributes, Some cursor)
              end
        end
  end.

(** The loop; every round takes a token.  [None]: out of fuel. *)
Fixpoint attributes_loop (fuel : nat) (begin cursor : list Z) (first : bool) (attributes : attribute_list) :
    option (list Z * attribute_list) :=
  match fuel with
  | O => None
  | S fuel =>
      match extract_all_lws cursor with
      | [] => Some ([], attributes)
      | cursor =>
          if negb first && negb (at_char SEMI cursor) then Some (cursor, attributes)
          else
            let cursor := if first then cursor else tail cursor in
            match attribute_step cursor attributes with
            | (attributes, None) => Some (begin, attributes)
            | (attributes, Some cursor) => attributes_loop fuel begin cursor false attributes
            end
      end
  end.

Definition extract_attributes (begin : list Z) (attributes : attribute_list) : option (list Z * attribute_list) :=
  match begin with
  | [] => Some (begin, attributes)
  | _ => attributes_loop (S (length begin)) begin begin true attributes
  end.

(** The attribute list after a parameter, if there is one; [Some None]: a syntax
    error (the outer [None]: out of fuel). *)
Definition read_attributes (cursor : list Z) : option (option (list Z * attribute_list)) :=
  if at_char SEMI cursor then
    r ← extract_attributes (tail cursor) ∅;
    Some (if same_it r.1 (tail cursor) then None else Some r)
  else Some (Some (cursor, ∅)).

(** The loop of [extract_parameters].  The vector keeps what was pushed before an
    error. *)
Fixpoint parameters_loop (fuel : nat) (begin cursor : list Z) (parameters : parameter_list) :
    option (list Z * parameter_list) :=
  match fuel with
  | O => None
  | S fuel =>
      match extract_all_lws cursor with
      | [] => Some ([], parameters)
      | cursor =>
          match extract_token cursor with
          | ([], _) => Some (begin, parameters)
          | (parameter_name, cursor) =>
              match extract_all_lws cursor with
              | [] => Some ([], parameters ++ [(parameter_name, ∅)])
              | cursor =>
                  read ← read_attributes cursor;
                  match read with
                  | None => Some (begin, parameters)
                  | Some (cursor, attributes) =>
                      let parameters := parameters ++ [(parameter_name, attributes)] in
                      match extract_all_lws cursor with
                      | [] => Some ([], parameters)
                      | cursor =>
                          if negb (at_char COMMA cursor) then Some (cursor, parameters)
                          else
                            match tail cursor with
                            | [] => Some (begin, parameters)
                            | cursor => parameters_loop fuel begin cursor parameters
                            end
                      end
                  end
              end
          end
      end
  end.

Definition extract_parameters (begin : list Z) (parameters : parameter_list) : option (list Z * parameter_list) :=
  match begin with
  | [] => Some (begin, parameters)
  | _ => parameters_loop (S (length begin)) begin begin parameters
  end.

(** [parse_parameter_list]: its value and the list. *)
Definition parse_parameter_list (in_ : list Z) (out : parameter_list) : option (bool * parameter_list) :=
  match in_ with
  | [] => Some (false, out)
  | _ => r ← extract_parameters in_ out; Some (same_it r.1 in_, r.2)
  end.

Definition get_header_as_plist (key : list Z) (p : parser) (out : parameter_list) : option (bool * parameter_list) :=
  match header_find key (m_headers p) with
  | None | Some [] => Some (false, out)
  | Some v => parse_parameter_list v out
  end.

(** ** The loops end *)

Lemma skip_ws_le s : (length (skip_ws s) <= length s)%nat.
Proof. induction s as [|c s IH]; cbn; [lia|]. destruct (is_whitespace_char c); cbn; lia. Qed.

Lemma extract_lws_le s : (length (extract_lws s) <= length s)%nat.
Proof.
  pose proof (skip_ws_le s). destruct s as [|c1 [|c2 [|c3 s]]]; try done. unfold extract_lws.
  destruct (_ && _); [|done]. pose proof (skip_ws_le s). cbn. lia.
Qed.

Lemma all_lws_le s : (length (extract_all_lws s) <= length s)%nat.
Proof.
  unfold extract_all_lws. generalize (length s) at 1. intros n. revert s.
  induction n as [|n IH]; intros s; cbn [all_lws_loop]; pose proof (extract_lws_le s); [done|].
  destruct (_ || _); [done|]. specialize (IH (extract_lws s)). lia.
Qed.

Lemma extract_token_split s : s = (extract_token s).1 ++ (extract_token s).2.
Proof.
  induction s as [|c s IH]; [done|]. cbn [extract_token]. destruct (is_not_token_char c); [done|].
  destruct (extract_token s) as [t r]. cbn [fst snd app] in *. by rewrite <- IH.
Qed.

Lemma extract_token_le c s r n : extract_token s = (c :: n, r) -> (length r < length s)%nat.
Proof. intros E. rewrite (extract_token_split s), E. cbn. rewrite length_app. lia. Qed.

Lemma quoted_loop_le fuel t s r : quoted_loop fuel t s = Some r -> (length r.2 <= length t)%nat.
Proof.
  revert t s. induction fuel as [|fuel IH]; intros t s; cbn [quoted_loop]; [done|].
  destruct (str_find _ t) as [k|]; [|done].
  destruct (match k with O => _ | S _ => _ end).
  - intros H. apply IH in H. rewrite length_drop in H. lia.
  - intros [= <-]. cbn. rewrite length_drop. lia.
Qed.

Lemma quoted_string_le s : (length (extract_quoted_string s).2 <= length s)%nat.
Proof.
  destruct s as [|c s]; [done|]. unfold extract_quoted_string. destruct (negb _); [done|].
  destruct (quoted_loop _ s []) as [r|] eqn:E; cbn [default from_option id]; [|done]. apply quoted_loop_le in E. cbn. lia.
Qed.

Lemma attribute_step_lt cursor attrs c : (attribute_step cursor attrs).2 = Some c -> (length c < length cursor)%nat.
Proof.
  unfold attribute_step. pose proof (all_lws_le cursor). destruct (extract_token _) as [[|x name] r] eqn:Et; [done|].
  apply extract_token_le in Et. pose proof (all_lws_le r). destruct (negb (at_char EQUALS _)); [intros [= <-]; lia|].
  pose proof (all_lws_le (tail (extract_all_lws r))) as Hw.
  assert (Htl : (length (tail (extract_all_lws r)) <= length (extract_all_lws r))%nat) by (destruct (extract_all_lws r); cbn; lia).
  destruct (extract_all_lws (tail _)) as [|y v] eqn:Ev; [done|]. rewrite <- Ev in *.
  destruct (negb _); [intros [= <-]; pose proof (quoted_string_le (extract_all_lws (tail (extract_all_lws r)))); lia|].
  destruct (extract_token (extract_all_lws (tail _))) as [[|z val] r2] eqn:E2; [done|]. apply extract_token_le in E2.
  intros [= <-]. lia.
Qed.

Lemma attributes_loop_total fuel : forall begin cursor first attrs,
  (length cursor < fuel)%nat -> (length cursor <= length begin)%nat ->
  exists r, attributes_loop fuel begin cursor first attrs = Some r /\ (length r.1 <= length begin)%nat.
Proof.
  induction fuel as [|fuel IH]; intros begin cursor first attrs Hf Hb; [lia|]. cbn [attributes_loop].
  pose proof (all_lws_le cursor) as Hw. destruct (extract_all_lws cursor) as [|x c].
  { eexists. split; [done|cbn; lia]. }
  destruct (negb first && _). { eexists. split; [done|cbn in *; lia]. }
  set (c1 := if first then x :: c else tail (x :: c)).
  assert (Hc1 : (length c1 <= length (x :: c))%nat) by (unfold c1; destruct first; cbn; lia).
  pose proof (attribute_step_lt c1 attrs) as Hs. destruct (attribute_step c1 attrs) as [attrs' [c2|]].
  - specialize (Hs c2 eq_refl). apply IH; lia.
  - eexists. split; [done|cbn; lia].
Qed.

Lemma extract_attributes_total begin attrs :
  exists r, extract_attributes begin attrs = Some r /\ (length r.1 <= length begin)%nat.
Proof.
  unfold extract_attributes. destruct begin as [|x b]; [eexists; split; [done|cbn; lia]|].
  apply attributes_loop_total; lia.
Qed.

Lemma read_attributes_total cursor :
  exists r, read_attributes cursor = Some r /\ match r with Some (c, _) => (length c <= length cursor)%nat | None => True end.
Proof.
  unfold read_attributes. destruct (at_char SEMI cursor); [|eexists; split; [done|cbn; lia]].
  destruct (extract_attributes_total (tail cursor) ∅) as ([c a] & -> & H). cbn [mbind option_bind fst] in *. eexists. split; [done|].
  destruct (same_it _ _); [done|]. destruct cursor; cbn in *; lia.
Qed.

Lemma parameters_loop_total fuel : forall begin cursor ps,
  (length cursor < fuel)%nat -> exists r, parameters_loop fuel begin cursor ps = Some r.
Proof.
  induction fuel as [|fuel IH]; intros begin cursor ps Hf; [lia|]. cbn [parameters_loop].
  pose proof (all_lws_le cursor) as Hw. destruct (extract_all_lws cursor) as [|x c]; [by eexists|].
  destruct (extract_token (x :: c)) as [[|y name] r] eqn:Et; [by eexists|]. apply extract_token_le in Et.
  pose proof (all_lws_le r) as Hw2. destruct (extract_all_lws r) as [|z c2]; [by eexists|].
  destruct (read_attributes_total (z :: c2)) as (rd & -> & Hrd). cbn [mbind option_bind]. destruct rd as [[c3 attrs]|]; [|by eexists].
  pose proof (all_lws_le c3) as Hw3. destruct (extract_all_lws c3) as [|v c4]; [by eexists|].
  destruct (negb (at_char COMMA _)); [by eexists|]. cbn [tail] in *. destruct c4 as [|v2 c4]; [by eexists|].
  apply IH. cbn [length] in *. lia.
Qed.

(** ** Printed lists *)

Inductive value := V_none | V_token (t : list Z) | V_quoted (v : list Z).

Definition value_of (v : value) : list Z := match v with V_none => [] | V_token t => t | V_quoted v => v end.

Definition escape (v : list Z) : list Z := concat (map (fun c => if c =? QUOTE then [BACKSLASH; QUOTE] else [c]) v).

Section Print.
Context (pad : list Z).

Definition print_value (v : value) : list Z :=
  match v with
  | V_none => []
  | V_token t => pad ++ EQUALS :: pad ++ t
  | V_quoted v => pad ++ EQUALS :: pad ++ QUOTE :: escape v ++ [QUOTE]
  end.
Definition print_attr (a : list Z * value) : list Z := pad ++ SEMI :: pad ++ a.1 ++ print_value a.2.
Definition print_attrs (l : list (list Z * value)) : list Z := concat (map print_attr l).
Definition print_param (p : list Z * list (list Z * value)) : list Z := pad ++ p.1 ++ print_attrs p.2.
Definition print_more (ps : list (list Z * list (list Z * value))) : list Z :=
  concat (map (fun p => pad ++ COMMA :: print_param p) ps).
End Print.

(** The attributes in order; a later one with the same name replaces an earlier. *)
Definition attrs_from (m : attribute_list) (l : list (list Z * value)) : attribute_list :=
  fold_left (fun m a => <[a.1 := value_of a.2]> m) l m.

Definition name_ok (n : list Z) : Prop := n <> [] /\ token n.
Definition value_ok (v : value) : Prop :=
  match v with V_none => True | V_token t => name_ok t | V_quoted v => BACKSLASH ∉ v end.
Definition attr_ok (a : list Z * value) : Prop := name_ok a.1 /\ value_ok a.2.
Definition param_ok (p : list Z * list (list Z * value)) : Prop := name_ok p.1 /\ Forall attr_ok p.2.

Definition blank (w : list Z) : Prop := Forall (fun c => is_whitespace_char c = true) w.

(** Text at which neither white space nor a token goes on. *)
Definition stops (x : list Z) : Prop :=
  match x with [] => True | c :: _ => is_whitespace_char c = false /\ c <> CR end.
Definition delimiter (c : Z) : Prop := c = SEMI \/ c = COMMA \/ c = EQUALS \/ c = QUOTE.

Lemma delimiter_stops c x : delimiter c -> stops (c :: x) /\ is_token_char c = false.
Proof. intros [->|[->|[->| ->]]]; done. Qed.

Lemma name_stops n x : name_ok n -> stops (n ++ x).
Proof.
  intros [Hn Ht]. destruct n as [|c n]; [done|]. cbn. inversion_clear Ht as [|? ? Hc _].
  split; [|by intros ->]. unfold is_whitespace_char.
  destruct (c =? 9) eqn:E1; [bool_to_prop; by subst|]. destruct (c =? 32) eqn:E2; [bool_to_prop; by subst|done].
Qed.

Lemma stops_lws x : stops x -> extract_lws x = x.
Proof.
  destruct x as [|c1 [|c2 [|c3 x]]]; cbn [stops]; try done; intros [Hw Hc]; unfold extract_lws; try (cbn; by rewrite Hw).
  rewrite (proj2 (Z.eqb_neq c1 CR)) by done. cbn. by rewrite Hw.
Qed.

Lemma all_lws_stops x : stops x -> extract_all_lws x = x.
Proof.
  intros Hx. unfold extract_all_lws. destruct (length x); cbn [all_lws_loop]; rewrite stops_lws by done; [done|].
  by rewrite Nat.eqb_refl, orb_true_r.
Qed.

Lemma skip_ws_blank w x : blank w -> stops x -> skip_ws (w ++ x) = x.
Proof.
  induction 1 as [|c w Hc _ IH]; intros Hx; cbn; [|by rewrite Hc, IH].
  destruct x as [|c x]; [done|]. destruct Hx as [Hx _]. cbn. by rewrite Hx.
Qed.

Lemma all_lws_pad w x : blank w -> stops x -> extract_all_lws (w ++ x) = x.
Proof.
  intros Hw Hx. destruct w as [|c w]; [by apply all_lws_stops|].
  assert (Hl : extract_lws ((c :: w) ++ x) = x).
  { assert (c <> CR) by (inversion_clear Hw as [|? ? Hc _]; by intros ->).
    assert (forall y, extract_lws (c :: y) = skip_ws (c :: y)) as E.
    { intros [|c2 [|c3 y]]; try done. unfold extract_lws. by rewrite (proj2 (Z.eqb_neq c CR)). }
    cbn [app]. rewrite E. by apply (skip_ws_blank (c :: w)). }
  unfold extract_all_lws. cbn [app length all_lws_loop]. change (c :: w ++ x) with ((c :: w) ++ x). rewrite Hl.
  destruct (_ || _); [done|]. clear Hl. induction (length (w ++ x)); cbn [all_lws_loop]; rewrite stops_lws by done; [done|].
  by rewrite Nat.eqb_refl, orb_true_r.
Qed.

Lemma extract_token_app t x :
  token t -> (match x with [] => True | c :: _ => is_token_char c = false end) -> extract_token (t ++ x) = (t, x).
Proof.
  intros Ht Hx. induction Ht as [|c t Hc _ IH]; cbn [app extract_token].
  - destruct x as [|c x]; [done|]. cbn. unfold is_not_token_char. by rewrite Hx.
  - unfold is_not_token_char at 1. rewrite Hc. cbn [negb]. by rewrite IH.
Qed.

Lemma no_token_pad w c x : blank w -> is_token_char c = false ->
  match w ++ c :: x with [] => True | c :: _ => is_token_char c = false end.
Proof.
  intros Hw Hc. destruct Hw as [|b w Hb _]; [done|]. cbn. unfold is_whitespace_char in Hb.
  apply orb_true_iff in Hb as [Hb|Hb]; bool_to_prop; by subst.
Qed.

(** ** Reading back *)

Lemma escape_plain v : QUOTE ∉ v -> escape v = v.
Proof.
  unfold escape. induction v as [|c v IH]; [done|]. rewrite not_elem_of_cons. intros [Hc Hv]. cbn [map concat].
  rewrite (proj2 (Z.eqb_neq c QUOTE)) by done. cbn. by rewrite IH.
Qed.

Lemma escape_app a b : escape (a ++ b) = escape a ++ escape b.
Proof. unfold escape. by rewrite map_app, concat_app. Qed.

Lemma split_quote v : (QUOTE ∉ v) \/ exists a b, v = a ++ QUOTE :: b /\ (QUOTE ∉ a).
Proof.
  destruct (decide (QUOTE ∈ v)) as [Hin|]; [right|by left].
  apply list_elem_of_split_l in Hin as (a & b & -> & Ha). eauto.
Qed.

Lemma quoted_loop_reads fuel : forall v acc x,
  BACKSLASH ∉ v -> (length v < fuel)%nat ->
  quoted_loop fuel (escape v ++ QUOTE :: x) acc = Some (acc ++ v, x).
Proof.
  induction fuel as [|fuel IH]; intros v acc x Hv Hf; [lia|]. cbn [quoted_loop].
  destruct (split_quote v) as [Hq|(a & b & -> & Ha)].
  - rewrite escape_plain, str_find_char by done. rewrite take_app_length, drop_app_add.
    change (drop 1 (QUOTE :: x)) with x. destruct (length v) as [|j] eqn:El; [done|].
    destruct (lookup_lt_is_Some_2 v j) as [c Hc]; [lia|]. rewrite lookup_app_l by lia. rewrite Hc.
    cbn [default from_option id]. rewrite (proj2 (Z.eqb_neq c BACKSLASH)); [done|].
    intros ->. apply Hv. by eapply list_elem_of_lookup_2.
  - rewrite not_elem_of_app, not_elem_of_cons in Hv. destruct Hv as (Hva & _ & Hvb).
    rewrite escape_app, escape_plain by done.
    change (escape (QUOTE :: b)) with (BACKSLASH :: QUOTE :: escape b).
    assert (E : (a ++ BACKSLASH :: QUOTE :: escape b) ++ QUOTE :: x = (a ++ [BACKSLASH]) ++ QUOTE :: escape b ++ QUOTE :: x)
      by app_simpl.
    assert (Hq : QUOTE ∉ a ++ [BACKSLASH]) by (rewrite not_elem_of_app; split; [done|decide_now]).
    rewrite E, str_find_char by done. rewrite length_app. cbn [length]. replace (length a + 1)%nat with (S (length a)) by lia. cbv iota.
    rewrite (lookup_app_l (a ++ [BACKSLASH])) by (rewrite length_app; cbn; lia).
    rewrite list_lookup_middle by done. cbn [default from_option id]. rewrite Z.eqb_refl.
    replace (S (length a) + 1)%nat with (length (a ++ [BACKSLASH]) + 1)%nat by (rewrite length_app; cbn; lia).
    rewrite drop_app_add. change (drop 1 (QUOTE :: ?l)) with l.
    replace (S (length a) - 1)%nat with (length a) by lia. rewrite <- app_assoc, take_app_length.
    rewrite IH; [|done|rewrite length_app in Hf; cbn in Hf; lia]. f_equal. f_equal. app_simpl.
Qed.

Lemma quoted_reads v x :
  BACKSLASH ∉ v -> extract_quoted_string (QUOTE :: escape v ++ QUOTE :: x) = (v, x).
Proof.
  intros Hv. unfold extract_quoted_string. change (QUOTE =? QUOTE) with true. cbn [negb].
  rewrite quoted_loop_reads; [done|done|]. cbn [length]. rewrite length_app. cbn [length].
  assert (H : (length v <= length (escape v))%nat).
  { clear. unfold escape. induction v as [|c v IH]; cbn [map concat length]; [lia|]. rewrite length_app.
    destruct (c =? QUOTE); cbn [length]; lia. }
  lia.
Qed.

Section Reads.
Context (pad : list Z) (Hpad : blank pad).

(** What may follow an attribute: nothing, or white space and a delimiter that is
    not an equals sign. *)
Definition follows (x : list Z) : Prop := x = [] \/ exists c y, x = pad ++ c :: y /\ (c = SEMI \/ c = COMMA).

Lemma follows_token x : follows x -> match x with [] => True | c :: _ => is_token_char c = false end.
Proof. intros [-> |(c & y & -> & Hc)]; [done|]. apply no_token_pad; [done|]. by destruct Hc as [-> | ->]. Qed.

Lemma follows_lws x : follows x ->
  stops (extract_all_lws x) /\ at_char EQUALS (extract_all_lws x) = false /\
  extract_all_lws (extract_all_lws x) = extract_all_lws x.
Proof.
  intros [-> |(c & y & -> & Hc)]; [done|].
  assert (Hs : stops (c :: y)) by (by destruct Hc as [-> | ->]).
  rewrite all_lws_pad by done. split_and!; [done|by destruct Hc as [-> | ->]|by apply all_lws_stops].
Qed.

(** One attribute; the rest is reached up to white space. *)
Lemma attribute_reads a x attrs :
  attr_ok a -> follows x ->
  exists c, attribute_step (a.1 ++ print_value pad a.2 ++ x) attrs = (<[a.1 := value_of a.2]> attrs, Some c) /\
    extract_all_lws c = extract_all_lws x.
Proof.
  intros [[Hn Ht] Hv] Hx. destruct a as [k v]. cbn [fst snd] in *. destruct (follows_lws x Hx) as (Hs & Heq & Hid).
  unfold attribute_step. rewrite all_lws_stops by (by apply name_stops).
  assert (Hk : forall c y, is_token_char c = false -> extract_token (k ++ pad ++ c :: y) = (k, pad ++ c :: y)).
  { intros c y Hc. apply extract_token_app; [done|]. by apply no_token_pad. }
  destruct v as [|t|v]; cbn [print_value value_of app value_ok] in *.
  - rewrite extract_token_app by (done || by apply follows_token). destruct k as [|kc k]; [done|].
    rewrite Heq. cbn [negb]. eauto.
  - assert (E : (pad ++ EQUALS :: pad ++ t) ++ x = pad ++ EQUALS :: pad ++ t ++ x) by app_simpl.
    rewrite E, Hk by done. destruct k as [|kc k]; [done|].
    rewrite all_lws_pad by done. cbn [at_char tail]. rewrite Z.eqb_refl. cbn [negb].
    rewrite all_lws_pad by (done || by apply name_stops). destruct Hv as [Hv1 Hv2]. destruct t as [|tc t]; [done|]. cbn [app].
    assert (extract_quoted_string (tc :: t ++ x) = ([], tc :: t ++ x)) as ->.
    { unfold extract_quoted_string. inversion_clear Hv2 as [|? ? Hc _]. destruct (tc =? QUOTE) eqn:Eq; [|done].
      bool_to_prop. by subst. }
    unfold same_it. cbn [snd]. rewrite Nat.eqb_refl. cbn [negb].
    change (tc :: t ++ x) with ((tc :: t) ++ x). rewrite extract_token_app by (done || by apply follows_token). eauto.
  - assert (E : (pad ++ EQUALS :: pad ++ QUOTE :: escape v ++ [QUOTE]) ++ x =
      pad ++ EQUALS :: pad ++ QUOTE :: escape v ++ QUOTE :: x) by app_simpl.
    rewrite E, Hk by done. destruct k as [|kc k]; [done|].
    rewrite all_lws_pad by done. cbn [at_char tail]. rewrite Z.eqb_refl. cbn [negb].
    rewrite all_lws_pad, quoted_reads by done. unfold same_it. cbn [fst snd].
    rewrite (proj2 (Nat.eqb_neq _ _)) by (cbn [length]; rewrite length_app; cbn; lia). cbn [negb]. eauto.
Qed.

Lemma follows_attrs l x : follows x -> follows (print_attrs pad l ++ x).
Proof.
  intros Hx. destruct l as [|a l]; [done|]. right. unfold print_attrs. cbn [map concat]. unfold print_attr at 1.
  exists SEMI, ((pad ++ a.1 ++ print_value pad a.2) ++ print_attrs pad l ++ x). split; [|by left]. unfold print_attrs. app_simpl.
Qed.

(** Where an attribute list ends. *)
Definition ends_attrs (x : list Z) : Prop := x = [] \/ exists y, x = pad ++ COMMA :: y.
Lemma ends_follows x : ends_attrs x -> follows x.
Proof. intros [-> |[y ->]]; [by left|]. right. exists COMMA, y. auto. Qed.

Lemma attributes_read fuel : forall begin l x c attrs,
  Forall attr_ok l -> ends_attrs x -> (length l < fuel)%nat ->
  extract_all_lws c = extract_all_lws (print_attrs pad l ++ x) ->
  attributes_loop fuel begin c false attrs = Some (extract_all_lws x, attrs_from attrs l).
Proof.
  induction fuel as [|fuel IH]; intros begin l x c attrs Hl Hx Hf Hc; [lia|]. cbn [attributes_loop]. rewrite Hc.
  destruct Hl as [|a l Ha Hl].
  - unfold print_attrs. cbn [map concat app attrs_from fold_left]. destruct Hx as [-> |[y ->]]; [done|].
    by rewrite all_lws_pad.
  - assert (E : print_attrs pad (a :: l) ++ x = pad ++ SEMI :: pad ++ a.1 ++ print_value pad a.2 ++ print_attrs pad l ++ x).
    { unfold print_attrs, print_attr. cbn [map concat]. app_simpl. }
    rewrite E, all_lws_pad by done. cbn [negb andb at_char tail]. rewrite Z.eqb_refl. cbn [negb].
    pose proof (follows_attrs l x (ends_follows x Hx)) as Hfol.
    destruct (attribute_reads a (print_attrs pad l ++ x) attrs Ha Hfol) as (c2 & Hstep & Hc2).
    assert (attribute_step (pad ++ a.1 ++ print_value pad a.2 ++ print_attrs pad l ++ x) attrs =
      (<[a.1 := value_of a.2]> attrs, Some c2)) as ->.
    { rewrite <- Hstep. unfold attribute_step. destruct Ha as [Ha _]. by rewrite all_lws_pad, all_lws_stops by (done || by apply name_stops). }
    cbn [length] in Hf. rewrite (IH begin l x c2); [done|done|done|lia|done].
Qed.

Lemma extract_attributes_reads a l x :
  attr_ok a -> Forall attr_ok l -> ends_attrs x ->
  extract_attributes (pad ++ a.1 ++ print_value pad a.2 ++ print_attrs pad l ++ x) ∅ =
  Some (extract_all_lws x, attrs_from ∅ (a :: l)).
Proof.
  intros Ha Hl Hx. set (text := pad ++ _). pose proof Ha as [Hn _].
  assert (Hlen : (length l <= length (print_attrs pad l))%nat).
  { clear. unfold print_attrs. induction l as [|b l IH]; cbn [map concat length]; [lia|]. unfold print_attr at 1.
    rewrite !length_app. cbn [length]. lia. }
  assert (Hne : exists b0 t, text = b0 :: t).
  { destruct text as [|b0 t] eqn:Et; [|eauto]. exfalso. unfold text in Et. apply app_eq_nil in Et as [_ Et].
    destruct Hn as [Hn _]. by destruct a.1. }
  destruct Hne as (b0 & t & Et). unfold extract_attributes. rewrite Et. rewrite <- Et.
  cbn [attributes_loop]. pose proof (name_stops a.1 (print_value pad a.2 ++ print_attrs pad l ++ x) Hn) as Hst.
  unfold text at 1. rewrite all_lws_pad by done.
  destruct (a.1 ++ print_value pad a.2 ++ print_attrs pad l ++ x) as [|n0 nt] eqn:En.
  { exfalso. destruct Hn as [Hn _]. by destruct a.1. }
  rewrite <- En. cbn [negb andb].
  destruct (attribute_reads a (print_attrs pad l ++ x) ∅ Ha (follows_attrs l x (ends_follows x Hx))) as (c2 & -> & Hc2).
  rewrite (attributes_read _ _ l x c2); [done|done|done| |done].
  assert (0 < length a.1)%nat by (clear -Hn; destruct Hn as [Hn _]; destruct a.1; [done|cbn; lia]).
  unfold text. rewrite <- En, !length_app. lia.
Qed.
End Reads.

Definition params_of (ps : list (list Z * list (list Z * value))) : parameter_list :=
  map (fun p => (p.1, attrs_from ∅ p.2)) ps.

Lemma print_more_ends pad ps : ends_attrs pad (print_more pad ps).
Proof.
  destruct ps as [|p ps]; [by left|]. right. unfold print_more. cbn [map concat].
  exists (print_param pad p ++ print_more pad ps). unfold print_more. app_simpl.
Qed.

Lemma print_param_nonempty pad p x : param_ok p -> print_param pad p ++ x <> [].
Proof.
  intros [[Hp _] _] E. apply app_eq_nil in E as [E _]. unfold print_param in E. apply app_eq_nil in E as [_ E].
  by apply app_eq_nil in E as [E _].
Qed.

(** Reading the attributes of one parameter. *)
Lemma read_attributes_reads pad l x :
  blank pad -> Forall attr_ok l -> ends_attrs pad x -> print_attrs pad l ++ x <> [] ->
  exists c, read_attributes (extract_all_lws (print_attrs pad l ++ x)) = Some (Some (c, attrs_from ∅ l)) /\
    extract_all_lws c = extract_all_lws x.
Proof.
  intros Hpad Hl Hx Hne. destruct Hl as [|a l Ha Hl].
  - unfold print_attrs. cbn [map concat app attrs_from fold_left]. destruct Hx as [-> |[y ->]]; [done|].
    rewrite all_lws_pad by done. unfold read_attributes. change (at_char SEMI (COMMA :: y)) with false.
    exists (COMMA :: y). split; [done|]. by apply all_lws_stops.
  - assert (print_attrs pad (a :: l) ++ x = pad ++ SEMI :: pad ++ a.1 ++ print_value pad a.2 ++ print_attrs pad l ++ x) as ->.
    { unfold print_attrs, print_attr. cbn [map concat]. app_simpl. }
    rewrite all_lws_pad by done. unfold read_attributes. cbn [at_char tail]. rewrite Z.eqb_refl.
    rewrite extract_attributes_reads by done. cbn [mbind option_bind fst]. exists (extract_all_lws x). split.
    + unfold same_it. rewrite (proj2 (Nat.eqb_neq _ _)); [done|]. pose proof (all_lws_le x).
      destruct Ha as [[Hn _] _]. rewrite !length_app. destruct a.1; [done|]. cbn [length]. lia.
    + by apply (follows_lws pad), ends_follows.
Qed.

Lemma parameters_read pad fuel : forall begin p ps out,
  blank pad -> param_ok p -> Forall param_ok ps -> (length ps < fuel)%nat ->
  parameters_loop fuel begin (print_param pad p ++ print_more pad ps) out = Some ([], out ++ params_of (p :: ps)).
Proof.
  induction fuel as [|fuel IH]; intros begin p ps out Hpad [Hn Ha] Hps Hf; [lia|]. cbn [parameters_loop].
  set (x := print_more pad ps). pose proof (print_more_ends pad ps) as Hx. fold x in Hx.
  assert (print_param pad p ++ x = pad ++ p.1 ++ print_attrs pad p.2 ++ x) as -> by (unfold print_param; app_simpl).
  pose proof (name_stops p.1 (print_attrs pad p.2 ++ x) Hn) as Hst. rewrite all_lws_pad by done.
  destruct (p.1 ++ print_attrs pad p.2 ++ x) as [|n0 nt] eqn:En; [destruct Hn as [Hn _]; by destruct p.1|]. rewrite <- En.
  pose proof (follows_attrs pad p.2 x (ends_follows pad x Hx)) as Hfol.
  rewrite extract_token_app by (apply Hn || by apply (follows_token pad)).
  destruct p.1 as [|c name] eqn:Ep; [by destruct Hn|].
  destruct (decide (print_attrs pad p.2 ++ x = [])) as [E|E].
  { rewrite E. cbn. apply app_eq_nil in E as [E1 E2]. destruct ps as [|q ps]; [|].
    - destruct p as [pn [|a l]]; cbn [fst snd] in *; [by subst|]. unfold print_attrs in E1. cbn [map concat] in E1.
      unfold print_attr at 1 in E1. apply (f_equal length) in E1. rewrite !length_app in E1. cbn in E1. lia.
    - unfold x, print_more in E2. cbn [map concat] in E2. apply (f_equal length) in E2. rewrite !length_app in E2. cbn in E2. lia. }
  destruct (read_attributes_reads pad p.2 x Hpad Ha Hx E) as (c2 & Hr & Hc2).
  destruct (extract_all_lws (print_attrs pad p.2 ++ x)) as [|z c3] eqn:Ez.
  { exfalso. destruct Hfol as [E0|(d & y & Ed & Hd)]; [done|]. rewrite Ed, all_lws_pad in Ez; [done|done|by destruct Hd as [-> | ->]]. }
  rewrite Hr. cbn [mbind option_bind]. rewrite Hc2.
  destruct Hps as [|q ps Hq Hps].
  - unfold x, print_more. cbn. rewrite Ep. done.
  - assert (x = pad ++ COMMA :: print_param pad q ++ print_more pad ps) as ->.
    { unfold x, print_more. cbn [map concat]. app_simpl. }
    rewrite all_lws_pad by done. cbn [at_char tail negb]. rewrite Z.eqb_refl. cbn [negb].
    destruct (print_param pad q ++ print_more pad ps) as [|y0 y] eqn:Ey; [by apply print_param_nonempty in Ey|].
    rewrite <- Ey. cbn [length] in Hf. rewrite IH by (done || lia). rewrite <- app_assoc. cbn. by rewrite Ep.
Qed.

Lemma parameters_text pad p ps out :
  blank pad -> Forall param_ok (p :: ps) ->
  extract_parameters (print_param pad p ++ print_more pad ps) out = Some ([], out ++ params_of (p :: ps)).
Proof.
  intros Hpad Hps. inversion_clear Hps as [|? ? Hp Hps']. unfold extract_parameters.
  destruct (print_param pad p ++ print_more pad ps) as [|y0 y] eqn:Ey; [by apply print_param_nonempty in Ey|].
  rewrite <- Ey. apply parameters_read; [done..|].
  assert (H : (length ps <= length (print_more pad ps))%nat).
  { clear. unfold print_more. induction ps as [|q ps IH]; cbn [map concat length]; [lia|]. rewrite length_app.
    rewrite length_app. cbn [length]. lia. }
  rewrite length_app. lia.
Qed.

(** * Results *)

(** Extracting parameters always ends, with an iterator into the text: the loops
    have fuel for every octet. *)
Lemma extract_parameters_total begin out : exists r, extract_parameters begin out = Some r.
Proof. unfold extract_parameters. destruct begin; [by eexists|]. apply parameters_loop_total. lia. Qed.

(** A printed parameter list is read back: for every list of parameters with
    attributes whose values are absent, tokens or quoted strings (quotes escaped, no
    backslashes), with any white space around names, values and separators, all of
    the text is read, and every parameter is appended in order with its attributes,
    the last value of a repeated name. *)
Theorem parameters_roundtrip pad p ps out :
  blank pad -> Forall param_ok (p :: ps) ->
  extract_parameters (print_param pad p ++ print_more pad ps) out = Some ([], out ++ params_of (p :: ps)).
Proof. apply parameters_text. Qed.

Definition ex_params : list (list Z * list (list Z * value)) :=
  [(str "permessage-deflate", [(str "a", V_token (str "15")); (str "b", V_none); (str "a", V_quoted [QUOTE; 120])]);
   (str "x", [])].

Lemma parameters_roundtrip_witness :
  extract_parameters (str "permessage-deflate ; a = 15 ; b ; a = " ++ [QUOTE; BACKSLASH; QUOTE; 120; QUOTE] ++ str " , x") [] =
  Some ([], [(str "permessage-deflate", {[str "a" := [QUOTE; 120]; str "b" := []]}); (str "x", ∅)]).
Proof.
  assert (E : params_of ex_params =
    [(str "permessage-deflate", {[str "a" := [QUOTE; 120]; str "b" := []]}); (str "x", ∅)]) by (by vm_compute).
  rewrite <- E.
  exact (parameters_roundtrip [32] (str "permessage-deflate", [(str "a", V_token (str "15")); (str "b", V_none); (str "a", V_quoted [QUOTE; 120])])
    [(str "x", [])] [] ltac:(repeat constructor)
    ltac:(repeat (apply Forall_cons_2 || apply Forall_nil_2 || split); (done || decide_now))).
Defined.

(** The value of [parse_parameter_list] is inverted: it is [false] for every printed
    list, which it reads in full, and [true] for every text that starts with
    something other than white space or a token, of which it reads nothing.  The
    same holds for [get_header_as_plist]. *)
Theorem parse_result_inverted pad p ps out c text :
  blank pad -> Forall param_ok (p :: ps) ->
  is_token_char c = false -> is_whitespace_char c = false -> c <> CR ->
  parse_parameter_list (print_param pad p ++ print_more pad ps) out = Some (false, out ++ params_of (p :: ps)) /\
  parse_parameter_list (c :: text) out = Some (true, out).
Proof.
  intros Hpad Hps Ht Hw Hc. split; unfold parse_parameter_list.
  - rewrite parameters_text by done. inversion_clear Hps as [|? ? Hp _].
    pose proof (print_param_nonempty pad p (print_more pad ps) Hp) as Hne.
    destruct (print_param pad p ++ print_more pad ps) as [|y0 y]; [done|]. done.
  - unfold extract_parameters. cbn [parameters_loop]. rewrite all_lws_stops by done.
    cbn [extract_token]. unfold is_not_token_char. rewrite Ht. cbn. unfold same_it. by rewrite Nat.eqb_refl.
Qed.

Lemma parse_result_inverted_witness :
  parse_parameter_list (print_param [] (str "x", []) ++ print_more [] []) [] = Some (false, [(str "x", ∅)]) /\
  parse_parameter_list (44 :: str "x") [] = Some (true, []).
Proof.
  apply (parse_result_inverted [] (str "x", []) [] [] 44 (str "x")); try done; [constructor|].
  repeat (apply Forall_cons_2 || apply Forall_nil_2 || split); (done || decide_now).
Defined.
