(* ===== verification/HttpServer.v ===== *)
(** * HTTP sessions and the client loop

    Models [HttpSession] and [HttpServer::handleClient] of
    [sylar/server/http/httpServer.cc]: receiving requests over the session
    buffer, and the loop that receives, routes and answers on one connection.
    The peer is the list of the answers its socket gives to [recv]; a coroutine
    that needs an answer the list does not hold waits.  [errno] is threaded
    through, since the loop looks at it.  What a user's handler does to the
    session is an argument. *)

From stdpp Require Import gmap.
From S2P Require Import Prelude CppString Session HttpMessage HttpRequest HttpResponse Http.

Record HttpSession := mk_http {
  h_session : Session;
  h_request : request;
  h_response : response;
  m_is_keep_alive : bool;
}.

(** The constructor; [g_http_buffer_size] only changes the believed size. *)
Definition HttpSession_ctor (g_http_buffer_size : Z) (se : Session) : HttpSession :=
  mk_http (setBufferSize g_http_buffer_size se) request_ctor response_ctor true.

Definition isKeep (s : HttpSession) : bool := m_is_keep_alive s.
Definition setKeepAlive (v : bool) (s : HttpSession) : HttpSession :=
  mk_http (h_session s) (h_request s) (h_response s) v.
Definition with_io (se : Session) (r : request) (s : HttpSession) : HttpSession :=
  mk_http se r (h_response s) (m_is_keep_alive s).

(** [updateSession] always returns [true]. *)
Definition updateSession (s : HttpSession) : HttpSession :=
  if str_eqb (get_header (str "Connection") (HttpRequest.base (h_request s))) (str "close") then setKeepAlive false s else s.

(** ** [co_recvRequest] *)

Inductive recv_end :=
  | RQ_ret (rc : Z) (errno : Z) (s : HttpSession) (peer : list recv_out)
  | RQ_waits (s : HttpSession)
  | RQ_undefined
  | RQ_fuel.

Section Receive.
Context (max_request_size : Z).

(** One request; [errno] changes when the socket reports an error.  The length is
    returned as an [int]. *)
Fixpoint recv_loop (fuel : nat) (total_length errno : Z) (s : HttpSession) (peer : list recv_out) : recv_end :=
  match fuel with
  | O => RQ_fuel
  | S fuel =>
      let se := h_session s in
      let asks := m_buffer_end_pos se <? m_buffer_size se in
      match asks, peer with
      | true, [] => RQ_waits s
      | _, _ =>
          let answer := default RecvClosed (head peer) in
          let peer' := if asks then tail peer else peer in
          let errno := if asks then match answer with RecvError e => e | _ => errno end else errno in
          match recvMessage se npos answer with
          | RM_overflow | RM_assert => RQ_undefined
          | RM_ret recv_len at_ se =>
              let s := with_io se (h_request s) s in
              if recv_len =? 0 then RQ_ret 0 errno s peer'
              else if recv_len <? 0 then RQ_ret (-1) errno s peer'
              else
                match HttpRequest.consume (handed_out se at_ recv_len) (h_request s) with
                | HttpRequest.Consume_undefined => RQ_undefined
                | HttpRequest.Consume_threw _ r => RQ_ret (-1) errno (with_io se r s) peer'
                | HttpRequest.Consumed sloved r =>
                    let s := with_io (Session.consume sloved se).2 r s in
                    let total_length := total_length + sloved in
                    if max_request_size <? total_length then RQ_ret (-1) errno s peer'
                    else if m_ready r then RQ_ret (to_int total_length) errno (updateSession s) peer'
                    else recv_loop fuel total_length errno s peer'
                end
          end
      end
  end.

(** Every round but the last takes at least one octet. *)
Definition co_recvRequest (errno : Z) (s : HttpSession) (peer : list recv_out) : recv_end :=
  recv_loop (S (S (Z.to_nat max_request_size))) 0 errno
    (mk_http (h_session s) (request_reset (h_request s)) (response_reset (h_response s)) (m_is_keep_alive s)) peer.

(** ** [handleClient] *)

Context (m_urls : gmap (list Z) (Z * nat)) (user : nat -> HttpSession -> HttpSession).

(** How a client's coroutine ends, with the handlers it called: the connection is
    closed, or the coroutine is scheduled again with a new session, or it waits. *)
Inductive client_end :=
  | HC_closed (log : list nat)
  | HC_rescheduled (log : list nat) (peer : list recv_out)
  | HC_waits (log : list nat) (s : HttpSession)
  | HC_undefined.

Definition EAGAIN : Z := 11.

Definition call_handler (s : HttpSession) : list nat * HttpSession :=
  match execHandler m_urls (m_uri (h_request s)) (m_method (h_request s)) with
  | Some cb => ([cb], user cb s)
  | None => ([], s)
  end.

(** The loop with [n] requests left before the limit. *)
Fixpoint client_loop (n : nat) (errno : Z) (s : HttpSession) (peer : list recv_out) (log : list nat) : client_end :=
  match n with
  | O => HC_undefined
  | S n =>
      match co_recvRequest errno s peer with
      | RQ_waits s => HC_waits log s
      | RQ_undefined | RQ_fuel => HC_undefined
      | RQ_ret rt errno s peer =>
          if (rt =? 0) || ((rt =? -1) && negb (errno =? EAGAIN)) || (rt =? -2) then HC_closed log
          else
            let (called, s) := call_handler s in
            let log := log ++ called in
            if isKeep s then
              match n with
              | O => HC_rescheduled log peer
              | _ => client_loop n errno s peer log
              end
            else HC_closed log
      end
  end.

(** A new session over [basic] octets, of which it believes to have
    [g_http_buffer_size]; [stack_deep] requests at most. *)
Definition handleClient (g_http_buffer_size basic unset : Z) (garbage : Z -> list Z) (errno : Z) (peer : list recv_out) :
    client_end :=
  client_loop 1000 errno (HttpSession_ctor g_http_buffer_size (Session_ctor basic unset garbage)) peer [].

(** A client from its first session to the end: a coroutine that is scheduled again makes a
    new session for the socket; [errno] is what a run finds. *)
Fixpoint serve (runs : nat) (g_http_buffer_size basic unset : Z) (garbage : Z -> list Z) (errno : nat -> Z) (peer : list recv_out)
    (log : list nat) : client_end :=
  match runs with
  | O => HC_rescheduled log peer
  | S runs =>
      match handleClient g_http_buffer_size basic unset garbage (errno runs) peer with
      | HC_closed called => HC_closed (log ++ called)
      | HC_rescheduled called peer => serve runs g_http_buffer_size basic unset garbage errno peer (log ++ called)
      | HC_waits called s => HC_waits (log ++ called) s
      | HC_undefined => HC_undefined
      end
  end.
End Receive.

(** ** Receiving over the session *)

Section Receive_lemmas.
Context (max_request_size : Z).

(** One read that the request parser takes in part or whole. *)
Lemma recv_round fuel total errno s data peer n r :
  session_ok (h_session s) -> recv_fits (h_session s) data ->
  HttpRequest.consume (unread (h_session s) ++ data) (h_request s) = HttpRequest.Consumed n r ->
  0 <= n <= zlen (unread (h_session s) ++ data) -> total + n <= max_request_size ->
  exists se, session_ok se /\ unread se = drop (Z.to_nat n) (unread (h_session s) ++ data) /\
    m_buffer_size se = m_buffer_size (h_session s) /\ (n = zlen (unread (h_session s) ++ data) -> drained se) /\
    recv_loop max_request_size (S fuel) total errno s (RecvData data :: peer) =
    if m_ready r then RQ_ret (to_int (total + n)) errno (updateSession (with_io se r s)) peer
    else recv_loop max_request_size fuel (total + n) errno (with_io se r s) peer.
Proof.
  intros Hok Hfit Hc Hn Hmax. destruct (recv_hands_out _ data Hok Hfit) as (se1 & Hr & Hout & Hcons).
  destruct (Hcons n Hn) as (H1 & H2 & H3 & H4). exists (Session.consume n se1).2. split_and!; [done..|].
  cbn [recv_loop]. rewrite (proj2 (Z.ltb_lt _ _)) by (destruct Hfit; lia). cbn [head default from_option id tail].
  rewrite Hr. assert (0 < zlen (unread (h_session s) ++ data)).
  { rewrite zlen_app. pose proof (zlen_nonneg (unread (h_session s))). destruct Hfit. lia. }
  rewrite (proj2 (Z.eqb_neq _ 0)), (proj2 (Z.ltb_ge _ 0)) by lia. rewrite Hout. cbn [h_request with_io]. rewrite Hc.
  rewrite (proj2 (Z.ltb_ge _ _)) by lia. done.
Qed.

Lemma drained_unread se : drained se -> unread se = [].
Proof. intros [H1 H2]. unfold unread. by rewrite H1, H2. Qed.

Definition reads_ok (se : Session) (cs : list (list Z)) : Prop := Forall (fun c => 0 < zlen c <= m_buffer_size se) cs.

Lemma length_last_concat (l : list (list Z)) : (length (List.last l []) <= length (concat l))%nat.
Proof.
  induction l as [|x [|y l] IH]; cbn [List.last concat length] in *; [lia|rewrite length_app; lia|].
  rewrite length_app. lia.
Qed.

(** What one step of [feed] says of the read it takes. *)
Lemma feed_cons c cs q r extra :
  m_ready q = false -> feed (c :: cs) q = Some (r, extra) -> m_ready r = true ->
  exists n r1, HttpRequest.consume c q = HttpRequest.Consumed n r1 /\ 0 <= n <= zlen c /\
    if m_ready r1 then r = r1 /\ extra = drop (Z.to_nat n) c ++ concat cs
    else n = zlen c /\ feed cs r1 = Some (r, extra).
Proof.
  intros Hq. cbn [feed]. rewrite Hq. destruct (HttpRequest.consume c q) as [n r1| |]; try done.
  destruct (negb _) eqn:Hn; [done|]. apply negb_false_iff in Hn. bool_to_prop. intros Hf Hr.
  exists n, r1. split_and!; [done..|]. destruct (m_ready r1) eqn:E; [by injection Hf as <- <-|].
  destruct (n =? zlen c) eqn:En; [|done]. bool_to_prop. done.
Qed.

(** Reads that complete a request with the last of them. *)
Lemma recv_feed cs : forall fuel total errno s data peer r extra,
  session_ok (h_session s) -> recv_fits (h_session s) data -> reads_ok (h_session s) cs ->
  m_ready (h_request s) = false ->
  feed ((unread (h_session s) ++ data) :: cs) (h_request s) = Some (r, extra) -> m_ready r = true ->
  (length extra < length (List.last (data :: cs) []))%nat -> (length cs < fuel)%nat ->
  total + zlen (unread (h_session s) ++ concat (data :: cs)) <= max_request_size + zlen extra ->
  exists se, session_ok se /\ unread se = extra /\ m_buffer_size se = m_buffer_size (h_session s) /\
    (extra = [] -> drained se) /\
    recv_loop max_request_size fuel total errno s (map RecvData (data :: cs) ++ peer) =
    RQ_ret (to_int (total + zlen (unread (h_session s) ++ concat (data :: cs)) - zlen extra)) errno
      (updateSession (with_io se r s)) peer.
Proof.
  induction cs as [|c cs IH]; intros [|fuel] total errno s data peer r extra Hok Hfit Hreads Hnr Hfeed Hr Hlast Hfuel Htot;
    try (cbn [length] in Hfuel; lia); set (u := unread (h_session s)) in *;
    destruct (feed_cons _ _ _ _ _ Hnr Hfeed Hr) as (n & r1 & Hc & Hn & Hcase); destruct (m_ready r1) eqn:Er.
  - destruct Hcase as [-> ->]. cbn [concat] in *. rewrite !app_nil_r in *.
    assert (Hze : zlen (u ++ data) - zlen (drop (Z.to_nat n) (u ++ data)) = n) by (unfold zlen in *; rewrite length_drop; lia).
    destruct (recv_round fuel total errno s data peer n r1 Hok Hfit Hc Hn) as (se & H1 & H2 & H3 & H4 & H5); [lia|].
    exists se. split_and!; [done..| |].
    + intros E. apply H4. fold u. rewrite E in Hze. change (zlen []) with 0 in Hze. lia.
    + cbn [map app]. rewrite H5, Er. do 2 f_equal. fold u. lia.
  - destruct Hcase as [_ Hf]. cbn [feed] in Hf. simplify_eq. congruence.
  - exfalso. destruct Hcase as [-> ->]. rewrite length_app in Hlast.
    change (List.last (data :: c :: cs) []) with (List.last (c :: cs) []) in Hlast.
    pose proof (length_last_concat (c :: cs)). lia.
  - destruct Hcase as [-> Hf]. inversion_clear Hreads as [|? ? Hcr Hreads'].
    assert (Hcat : zlen (u ++ concat (data :: c :: cs)) = zlen (u ++ data) + zlen (concat (c :: cs))).
    { change (concat (data :: c :: cs)) with (data ++ concat (c :: cs)). rewrite !zlen_app. lia. }
    change (List.last (data :: c :: cs) []) with (List.last (c :: cs) []) in Hlast.
    assert (Hze : zlen extra <= zlen (concat (c :: cs))) by (pose proof (length_last_concat (c :: cs)); unfold zlen; lia).
    destruct (recv_round fuel total errno s data (map RecvData (c :: cs) ++ peer) _ r1 Hok Hfit Hc Hn)
      as (se & H1 & H2 & H3 & H4 & H5); [lia|].
    specialize (H4 eq_refl). pose proof (drained_unread se H4) as Hu.
    destruct (IH fuel (total + zlen (u ++ data)) errno (with_io se r1 s) c peer r extra) as (se2 & J1 & J2 & J3 & J4 & J5);
      cbn [h_session with_io h_request]; rewrite ?Hu; cbn [app]; try done.
    + unfold recv_fits. rewrite H3. destruct H4 as [_ ->]. lia.
    + unfold reads_ok. by rewrite H3.
    + cbn [length] in Hfuel. lia.
    + lia.
    + exists se2. split_and!; [done|done|by rewrite J3; cbn [h_session with_io]|done|].
      change (map RecvData (data :: c :: cs) ++ peer) with (RecvData data :: map RecvData (c :: cs) ++ peer).
      rewrite H5, Er, J5. cbn [h_session with_io]. rewrite Hu. cbn [app]. fold u. do 2 f_equal. lia.
Qed.

(** A request and the reads in which it arrives. *)
Record arrival_ok (size limit : Z) (a : message * list (list Z)) : Prop := mk_arrival_ok {
  ao_message : message_ok limit a.1;
  ao_text : concat a.2 = message_text a.1;
  ao_reads : Forall (fun c => 0 < zlen c <= size) a.2;
  ao_head : lines_cost (message_lines a.1) + DELIMITER_SIZE * zlen a.2 + 4 <= max_header_size;
  ao_total : zlen (message_text a.1) <= max_request_size /\ zlen (message_text a.1) < 2 ^ 31;
}.

(** A session between two requests. *)
Record idle (size limit : Z) (s : HttpSession) : Prop := mk_idle {
  id_session : session_ok (h_session s);
  id_drained : drained (h_session s);
  id_size : m_buffer_size (h_session s) = size;
  id_limit : body_max (h_request s) = limit;
}.

Lemma reads_count size (cs : list (list Z)) :
  Forall (fun c => 0 < zlen c <= size) cs -> (length cs <= length (concat cs))%nat.
Proof. induction 1 as [|c cs Hc _ IH]; cbn [concat length]; [lia|]. rewrite length_app. unfold zlen in *. lia. Qed.

Lemma last_read size (c : list Z) cs :
  Forall (fun c => 0 < zlen c <= size) (c :: cs) -> (0 < length (List.last (c :: cs) []))%nat.
Proof.
  revert c. induction cs as [|d cs IH]; intros c H; inversion_clear H as [|? ? Hc Hcs].
  - cbn. unfold zlen in Hc. lia.
  - change (List.last (c :: d :: cs) []) with (List.last (d :: cs) []). by apply IH.
Qed.

Definition wants_close (d : message) : bool := str_eqb (message_header (str "Connection") d) (str "close").

(** One request is received whole, and the session is idle again. *)
Lemma request_arrives size limit a errno s peer :
  arrival_ok size limit a -> idle size limit s ->
  exists s', co_recvRequest max_request_size errno s (map RecvData a.2 ++ peer) =
      RQ_ret (zlen (message_text a.1)) errno s' peer /\
    idle size limit s' /\ holds a.1 (h_request s') /\
    m_is_keep_alive s' = m_is_keep_alive s && negb (wants_close a.1).
Proof.
  destruct a as [d cs]. intros [Hd Ht Hr Hh Hm] [Hok Hdr Hsz Hl]. cbn [fst snd] in *.
  destruct (request_stream d (h_request s) cs []) as (r & Hf & Hholds).
  { unfold body_max in Hl. by rewrite Hl. }
  { by rewrite app_nil_r. }
  { eapply Forall_impl; [exact Hr|]. cbn. intros c Hc. pose proof (so_int _ Hok). lia. }
  { done. }
  destruct cs as [|c cs].
  { exfalso. cbn in Ht. unfold message_text, message_lines, lines_text in Ht. symmetry in Ht.
    apply app_eq_nil in Ht as [_ Ht]. discriminate Ht. }
  pose proof (drained_unread _ Hdr) as Hu. pose proof (last_read _ _ _ Hr) as Hlast.
  pose proof (reads_count _ _ Hr) as Hcount. inversion_clear Hr as [|? ? Hc Hcs].
  destruct (recv_feed cs (S (S (Z.to_nat max_request_size))) 0 errno
    (mk_http (h_session s) (request_reset (h_request s)) (response_reset (h_response s)) (m_is_keep_alive s))
    c peer r []) as (se & J1 & J2 & J3 & J4 & J5); cbn [h_session h_request]; rewrite ?Hu; cbn [app]; try done.
  - unfold recv_fits. destruct Hdr as [_ ->]. rewrite Hsz. lia.
  - unfold reads_ok. by rewrite Hsz.
  - apply Hholds.
  - rewrite Ht in Hcount. cbn [length] in Hcount. unfold zlen in Hm. lia.
  - rewrite Ht. change (zlen []) with 0. lia.
  - cbn [h_session] in J5. rewrite Hu in J5. cbn [app] in J5. eexists. split.
    + unfold co_recvRequest. rewrite J5, Ht. change (zlen []) with 0.
      rewrite Z.add_0_l, Z.sub_0_r, to_int_small by (pose proof (zlen_nonneg (message_text d)); lia). reflexivity.
    + unfold updateSession. cbn [h_request with_io]. unfold get_header.
      destruct Hholds as (H1 & H2 & H3 & H4 & H5 & H6).
      assert (Hmax : body_max r = limit) by (apply feed_max in Hf; by rewrite Hf).
      assert (Hi : forall k rs, idle size limit (mk_http se r rs k)).
      { intros k rs. split; cbn [h_session h_request]; [done|by apply J4|by rewrite J3|done]. }
      rewrite H5. fold (message_header (str "Connection") d). unfold wants_close.
      destruct (str_eqb _ (str "close")); (split; [apply Hi|]); (split; [done|]);
        cbn [m_is_keep_alive setKeepAlive with_io]; by rewrite ?andb_false_r, ?andb_true_r.
Qed.
End Receive_lemmas.

(** ** One connection *)

Section Client.
Context (max_request_size : Z) (m_urls : gmap (list Z) (Z * nat)) (user : nat -> HttpSession -> HttpSession).

(** The handlers of a user answer; they do not touch the receive buffer, the
    keep-alive flag or the limit of bodies. *)
Definition user_keeps : Prop := forall cb s,
  h_session (user cb s) = h_session s /\ m_is_keep_alive (user cb s) = m_is_keep_alive s /\
  body_max (h_request (user cb s)) = body_max (h_request s).

(** The handler the routing table has for a request. *)
Definition routed (d : message) : list nat :=
  match execHandler m_urls (d_uri d) (d_method d) with Some cb => [cb] | None => [] end.

(** The requests that are answered: up to the first that asks to close. *)
Fixpoint answered (ds : list message) : list message :=
  match ds with
  | [] => []
  | d :: ds => d :: (if wants_close d then [] else answered ds)
  end.

Lemma call_handler_idle size limit d s :
  user_keeps -> idle size limit s -> holds d (h_request s) ->
  exists s', call_handler m_urls user s = (routed d, s') /\ idle size limit s' /\
    m_is_keep_alive s' = m_is_keep_alive s.
Proof.
  intros Hu [H1 H2 H3 H4] (_ & Hm & Huri & _). unfold call_handler, routed. rewrite Huri, Hm.
  destruct (execHandler _ _ _) as [cb|]; [|by exists s].
  destruct (Hu cb s) as (E1 & E2 & E3). exists (user cb s). split; [done|]. split; [|done].
  split; rewrite ?E1, ?E3; done.
Qed.

Lemma zlen_message_text d : 0 < zlen (message_text d).
Proof. unfold message_text. rewrite !zlen_app. change (zlen CRLF) with 2. pose proof (zlen_nonneg (lines_text (message_lines d))). pose proof (zlen_nonneg (d_body d)). lia. Qed.

(** The peer closes, or the socket reports an error other than [EAGAIN]. *)
Definition ends_with (a : recv_out) : Prop :=
  match a with RecvData _ => False | RecvClosed => True | RecvError e => e <> EAGAIN end.

Lemma client_loop_ends size limit n errno s final peer log :
  idle size limit s -> 0 < size -> ends_with final ->
  client_loop max_request_size m_urls user (S n) errno s (final :: peer) log = HC_closed log.
Proof.
  intros [Hok [Hb He] Hsz _] Hs Hf. cbn [client_loop]. unfold co_recvRequest. cbn [recv_loop h_session].
  rewrite He, Hsz, (proj2 (Z.ltb_lt 0 size)) by done. cbn [head tail default from_option id].
  unfold recvMessage. rewrite He, Hsz, (proj2 (Z.ltb_lt 0 size)) by done. destruct final as [data| |e]; [done..|].
  cbn in Hf. unfold recv_error_code. destruct (_ || _); cbn; by rewrite (proj2 (Z.eqb_neq e EAGAIN)).
Qed.

(** What the peer answers: the reads of the requests, and then [final]. *)
Definition sends (arrivals : list (message * list (list Z))) (final : recv_out) (peer : list recv_out) : list recv_out :=
  concat (map (fun a => map RecvData a.2) arrivals) ++ final :: peer.

Abbreviation stays := (Forall (fun a : message * list (list Z) => wants_close a.1 = false)).

Lemma answered_stays (l : list (message * list (list Z))) n :
  stays (take n l) -> answered (map fst l) = map fst (take n l) ++ answered (map fst (drop n l)).
Proof.
  revert n. induction l as [|a l IH]; intros [|n] Hn; cbn [take drop map answered app] in *; [done..|].
  apply Forall_cons in Hn as [Ha Hn]. by rewrite Ha, (IH n Hn).
Qed.

(** One request. *)
Lemma client_loop_step size limit final n a arrivals errno s peer log :
  user_keeps -> arrival_ok max_request_size size limit a -> idle size limit s -> m_is_keep_alive s = true ->
  exists s', idle size limit s' /\ m_is_keep_alive s' = negb (wants_close a.1) /\
    client_loop max_request_size m_urls user (S n) errno s (sends (a :: arrivals) final peer) log =
    if wants_close a.1 then HC_closed (log ++ routed a.1)
    else match n with
         | O => HC_rescheduled (log ++ routed a.1) (sends arrivals final peer)
         | _ => client_loop max_request_size m_urls user n errno s' (sends arrivals final peer) (log ++ routed a.1)
         end.
Proof.
  intros Hu Ha Hi Hk. unfold sends. cbn [client_loop map concat]. rewrite <- app_assoc.
  destruct (request_arrives _ _ _ _ errno s (concat (map (fun a => map RecvData a.2) arrivals) ++ final :: peer) Ha Hi)
    as (s1 & -> & Hi1 & Hh & Hk1).
  pose proof (zlen_message_text a.1). rewrite !(proj2 (Z.eqb_neq (zlen _) _)) by lia. cbn [orb andb].
  destruct (call_handler_idle size limit a.1 s1 Hu Hi1 Hh) as (s2 & -> & Hi2 & Hk2). exists s2.
  rewrite Hk in Hk1. cbn [andb] in Hk1. unfold isKeep. rewrite Hk2, Hk1. split_and!; [done..|]. by destruct (wants_close a.1).
Qed.

(** One run of the loop: it ends with the last request, or with the first that asks to
    close, or after [n] requests with the rest to come. *)
Lemma client_loop_round size limit final n : forall arrivals errno s peer log,
  user_keeps -> ends_with final -> Forall (arrival_ok max_request_size size limit) arrivals -> idle size limit s -> 0 < size ->
  m_is_keep_alive s = true ->
  let run := client_loop max_request_size m_urls user (S n) errno s (sends arrivals final peer) log in
  (stays (take (S n) arrivals) /\ (S n <= length arrivals)%nat /\
     run = HC_rescheduled (log ++ concat (map routed (map fst (take (S n) arrivals)))) (sends (drop (S n) arrivals) final peer)) \/
  run = HC_closed (log ++ concat (map routed (answered (map fst arrivals)))).
Proof.
  induction n as [|n IH]; intros [|a arrivals] errno s peer log Hu Hfin Ha Hi Hs Hk; cbn zeta;
    try (right; cbn [map concat answered app]; rewrite app_nil_r; by apply (client_loop_ends size limit)).
  all: apply Forall_cons in Ha as [Ha1 Ha2]; edestruct (client_loop_step size limit final) as (s2 & Hi2 & Hk2 & ->); [done..|];
    cbn [map answered]; destruct (wants_close a.1) eqn:Ew; cbn [map concat take drop length]; [right; by rewrite app_nil_r|].
  - left. rewrite take_0, drop_0. cbn [map concat]. rewrite app_nil_r. split_and!; [by constructor|lia|done].
  - destruct (IH arrivals errno s2 peer (log ++ routed a.1) Hu Hfin Ha2 Hi2 Hs Hk2) as [(H1 & H2 & ->)| -> ];
      rewrite <- app_assoc; [left|by right]. split_and!; [by constructor|lia|done].
Qed.

Lemma serve_all size basic unset garbage errno final peer runs : forall arrivals log,
  user_keeps -> ends_with final -> Forall (arrival_ok max_request_size size max_body_size) arrivals -> 0 < size ->
  idle size max_body_size (HttpSession_ctor size (Session_ctor basic unset garbage)) -> (length arrivals < 1000 * runs)%nat ->
  serve max_request_size m_urls user runs size basic unset garbage errno (sends arrivals final peer) log =
  HC_closed (log ++ concat (map routed (answered (map fst arrivals)))).
Proof.
  induction runs as [|runs IH]; intros arrivals log Hu Hfin Ha Hs Hi Hn; [lia|]. cbn [serve]. unfold handleClient.
  destruct (client_loop_round size max_body_size final 999 arrivals (errno runs) _ peer [] Hu Hfin Ha Hi Hs eq_refl) as [(H1 & H2 & ->)| -> ]; [|done].
  rewrite (IH (drop 1000 arrivals) _ Hu Hfin (Forall_drop _ _ _ Ha) Hs Hi) by (rewrite length_drop; lia).
  by rewrite (answered_stays arrivals 1000 H1), map_app, concat_app, <- app_assoc.
Qed.
End Client.

(** ** Receiving is total *)

(** What a socket asked for [size] octets may answer. *)
Definition answer_fits (size : Z) (a : recv_out) : Prop :=
  match a with RecvData data => 0 < zlen data <= size | _ => True end.
#[global] Instance answer_fits_dec size a : Decision (answer_fits size a).
Proof. destruct a; cbn; apply _. Defined.

(** How receiving a request may end: an error, the peer closed, or a complete
    request of at most the limit. *)
Definition recv_result_ok (max_request_size : Z) (e : recv_end) : Prop :=
  match e with
  | RQ_ret rc _ s _ => session_ok (h_session s) /\
      (rc = -1 \/ rc = 0 \/ (0 < rc <= max_request_size /\ m_ready (h_request s) = true))
  | RQ_waits s => session_ok (h_session s) /\ drained (h_session s) /\ m_ready (h_request s) = false
  | RQ_undefined | RQ_fuel => False
  end.

(** A round that gets no octets returns. *)
Lemma recv_round_none max fuel total errno s a peer :
  session_ok (h_session s) -> m_buffer_end_pos (h_session s) < m_buffer_size (h_session s) ->
  (a = RecvClosed \/ exists e, a = RecvError e) ->
  recv_result_ok max (recv_loop max (S fuel) total errno s (a :: peer)).
Proof.
  intros Hok Hlt Ha. cbn [recv_loop]. rewrite (proj2 (Z.ltb_lt _ _)) by done. cbn [head default from_option id tail].
  unfold recvMessage. rewrite (proj2 (Z.ltb_lt _ _)) by done. destruct Ha as [-> |[e ->]].
  - split; [done|auto].
  - unfold recv_error_code. destruct (_ || _); (split; [done|auto]).
Qed.

Lemma updateSession_same s : h_session (updateSession s) = h_session s /\ h_request (updateSession s) = h_request s.
Proof. unfold updateSession. by destruct (str_eqb _ _). Qed.

(** A round that gets octets the parser throws on, or that pass the limit, returns. *)
Lemma recv_round_fails max fuel total errno s data peer :
  session_ok (h_session s) -> drained (h_session s) -> recv_fits (h_session s) data ->
  (match HttpRequest.consume data (h_request s) with
   | HttpRequest.Consumed n r => 0 <= n <= zlen data /\ max < total + n
   | HttpRequest.Consume_threw _ _ => True
   | HttpRequest.Consume_undefined => False
   end) ->
  recv_result_ok max (recv_loop max (S fuel) total errno s (RecvData data :: peer)).
Proof.
  intros Hok Hd Hfit Hc. pose proof (drained_unread _ Hd) as Hu.
  destruct (recv_hands_out _ data Hok Hfit) as (se1 & Hr & Hout & Hcons). rewrite Hu in Hr, Hout, Hcons. cbn [app] in *.
  assert (Hok1 : session_ok se1).
  { destruct (recv_appends _ data npos Hok Hfit) as (se' & Hr' & Hok' & _). rewrite Hr in Hr'. injection Hr' as _ ->. done. }
  cbn [recv_loop]. rewrite (proj2 (Z.ltb_lt _ _)) by (destruct Hfit; lia). cbn [head default from_option id tail].
  rewrite Hr. destruct Hfit as [Hpos _]. rewrite (proj2 (Z.eqb_neq _ 0)), (proj2 (Z.ltb_ge _ 0)) by lia.
  rewrite Hout. cbn [h_request with_io]. destruct (HttpRequest.consume data (h_request s)) as [n r| |]; [| |done].
  - destruct Hc as [Hn Hm]. rewrite (proj2 (Z.ltb_lt _ _)) by done. split; [|auto]. by apply Hcons.
  - split; [done|auto].
Qed.

Lemma recv_loop_total max size peer : forall fuel total errno s,
  Forall (answer_fits size) peer -> session_ok (h_session s) -> drained (h_session s) ->
  m_buffer_size (h_session s) = size -> 0 < size -> m_ready (h_request s) = false -> parsing (h_request s) ->
  0 <= total <= max -> max < 2 ^ 31 -> (Z.to_nat (max - total) < fuel)%nat ->
  recv_result_ok max (recv_loop max fuel total errno s peer).
Proof.
  induction peer as [|a peer IH]; intros [|fuel] total errno s Ha Hok Hd Hsz Hs Hnr Hp Ht Hm Hf; try lia.
  { cbn [recv_loop]. destruct Hd as [Hb He]. rewrite He, Hsz, (proj2 (Z.ltb_lt _ _)) by done. done. }
  inversion_clear Ha as [|? ? Ha1 Ha2]. destruct a as [data| |e];
    [|apply recv_round_none; [done|destruct Hd; lia|eauto]..].
  cbn in Ha1. pose proof (drained_unread _ Hd) as Hu.
  assert (Hfit : recv_fits (h_session s) data) by (unfold recv_fits; destruct Hd as [_ ->]; rewrite Hsz; lia).
  pose proof (so_int _ Hok). pose proof (consume_takes data (h_request s) Hp Hnr ltac:(lia)) as Htk.
  destruct (HttpRequest.consume data (h_request s)) as [n r|e r|] eqn:E; cbn [takes] in Htk; [| |done].
  2: { apply recv_round_fails; try done. by rewrite E. }
  destruct Htk as (Hn & Hall & Hpr).
  destruct (decide (total + n <= max)) as [Hle|Hgt]; [|apply recv_round_fails; try done; rewrite E; lia].
  destruct (recv_round max fuel total errno s data peer n r Hok Hfit) as (se & J1 & J2 & J3 & J4 & ->);
    rewrite ?Hu; cbn [app]; try done; try lia.
  rewrite Hu in J4. cbn [app] in J4. destruct (m_ready r) eqn:Er.
  - unfold recv_result_ok. destruct (updateSession_same (with_io se r s)) as [-> ->]. cbn [h_session h_request with_io].
    rewrite to_int_small by lia. split; [done|]. right. right. split; [lia|done].
  - apply IH; try done; cbn [h_session h_request with_io]; try lia; by apply J4, Hall.
Qed.

(** * Results *)

(** C9. A client's requests are all answered, in order and however many: a client that sends
    well-formed requests within the size limits, each cut into reads of at most a
    buffer (of a size that was allocated), one at a time (no read spans two requests), and then
    closes or fails with an error other than [EAGAIN], has the handler called for each of
    them that the table has for its method and path, up to and including the first request
    that asks to close, whatever the earlier [errno]; then the connection is closed.  That the
    coroutine starts over with a new session every 1000 requests cannot be seen.  The cut is
    limited by [ao_head]: the octets of the head, and three for each line and each read, stay
    within the header limit; the handlers leave the receive buffer, the keep-alive flag and the body limit alone. *)
Theorem client_served max_request_size m_urls user size basic unset garbage errno arrivals final peer runs :
  0 < size <= basic -> size < 2 ^ 31 -> zlen (garbage basic) = basic -> user_keeps user -> ends_with final ->
  Forall (arrival_ok max_request_size size max_body_size) arrivals -> (length arrivals < 1000 * runs)%nat ->
  serve max_request_size m_urls user runs size basic unset garbage errno (sends arrivals final peer) [] =
  HC_closed (concat (map (routed m_urls) (answered (map fst arrivals)))).
Proof.
  intros Hs Hi Hg Hu Hfin Ha Hn. apply (serve_all max_request_size m_urls user size basic unset garbage errno final peer runs arrivals []); try done; try lia. split; try done. split; cbn; lia.
Qed.

(** C14. Receiving a request always comes to an end within its limits: on a session
    whose buffer is empty, whatever octets, closing and errors the peer sends (each
    read at most the buffer), receiving returns an error, reports that the peer
    closed, or returns a complete request of at least one and at most
    [max_request_size] octets; or it waits for the peer with its buffer empty.  It
    never uses the parser's released buffer or writes outside its own, and the
    rounds its loop is given are enough. *)
Theorem recv_total max_request_size size errno s peer :
  session_ok (h_session s) -> drained (h_session s) -> m_buffer_size (h_session s) = size -> 0 < size ->
  0 <= max_request_size < 2 ^ 31 -> Forall (answer_fits size) peer ->
  recv_result_ok max_request_size (co_recvRequest max_request_size errno s peer).
Proof.
  intros Hok Hd Hsz Hs Hm Ha. unfold co_recvRequest.
  apply (recv_loop_total max_request_size size); try done; cbn [h_session h_request]; try lia. apply parsing_reset.
Qed.

Definition ex_http_session : HttpSession :=
  HttpSession_ctor 64 (Session_ctor 64 0 (fun n => replicate (Z.to_nat n) 0)).

Lemma recv_total_witness :
  recv_result_ok 128 (co_recvRequest 128 0 ex_http_session [RecvData (str "GET / HTTP"); RecvError EAGAIN]).
Proof.
  apply (recv_total 128 64); [|done|done|done|done|decide_now].
  by split; vm_compute.
Defined.

(** Two requests of a client. *)
Definition ex_get : message :=
  mk_message (str "GET") (str "/a?x=1") (str "HTTP/1.1") [(str "Host", str "h")] [].
Definition ex_post : message :=
  mk_message (str "POST") (str "/b") (str "HTTP/1.1")
    [(str "Host", str "h"); (str "content-length", str "3"); (str "Connection", str "close")] (str "abc").
Definition ex_urls : gmap (list Z) (Z * nat) := POST (str "/b") 2 (GET (str "/a") 1 ∅).
Definition cut (n : nat) (t : list Z) : list (list Z) := [take n t; drop n t].

Lemma client_served_witness :
  serve 4096 ex_urls (fun _ s => s) 1 64 64 0 (fun n => replicate (Z.to_nat n) 0) (fun _ => EAGAIN)
    (sends [(ex_get, cut 7 (message_text ex_get)); (ex_post, cut 60 (message_text ex_post))] RecvClosed []) [] =
  HC_closed [1; 2]%nat.
Proof.
  refine (client_served 4096 ex_urls (fun _ s => s) 64 64 0 (fun n => replicate (Z.to_nat n) 0) (fun _ => EAGAIN)
    [(ex_get, cut 7 (message_text ex_get)); (ex_post, cut 60 (message_text ex_post))] RecvClosed [] 1 _ _ _ _ _ _ _);
    try (done || lia); [|cbn [length]; lia].
  repeat (apply Forall_cons_2; [|]); [..|done]; (split;
    [split; [split; [split; [done|decide_now]|split; decide_now|decide_now..]|by vm_compute|first [by left; vm_compute|by right; vm_compute]]
    |by vm_compute|decide_now|by vm_compute|by vm_compute]).
Defined.

(** A request that arrived with an earlier one waits for more octets: when one read
    brings two requests, the first is answered, and the coroutine asks the socket
    again although the second request is whole in the buffer. *)
Theorem pipelined_request_waits :
  exists s, handleClient 4096 ex_urls (fun _ s => s) 128 128 0 (fun n => replicate (Z.to_nat n) 0) 0
      [RecvData (message_text ex_get ++ message_text ex_get)] = HC_waits [1%nat] s /\
    unread (h_session s) = message_text ex_get.
Proof. eexists. split; vm_compute; reflexivity. Qed.

(** A malformed request is answered when [errno] is left over from an earlier
    call: the parser throws on its second line, and with [errno] at [EAGAIN] the
    handler is called with what was read of the head; with another [errno] the
    connection is closed without a call. *)
Theorem malformed_request_answered :
  let peer := [RecvData (str "GET /a HTTP/1.1" ++ CRLF ++ str "no colon" ++ CRLF); RecvClosed] in
  let run errno := handleClient 4096 ex_urls (fun _ s => s) 64 64 0 (fun n => replicate (Z.to_nat n) 0) errno peer in
  run EAGAIN = HC_closed [1%nat] /\ run 0 = HC_closed [].
Proof. split; vm_compute; reflexivity. Qed.
