(* ===== verification/Upgrade.v ===== *)
(** * From the HTTP request to the WebSocket

    Models [WsServer::handShake] ([sylar/server/websocket/wsserver.cc]), which joins the
    HTTP server and the WebSocket handshake: the request the HTTP session received is
    written out again, read by the handshake parser, and answered on the connection. *)

From stdpp Require Import sorting.
From S2P Require Import Prelude CppString Sha1 Handshake HttpMessage HttpRequest HttpLimits Http.

Inductive shake_end := HS_ret (rc : Z) (out : list Z) | HS_waits (out : list Z) | HS_undefined.

(** [answers] are those of the socket to [send]; [out] is what it took. *)
Definition handShake (garbage uninit : list Z) (answers : list (Z * Z)) (r : request) : shake_end :=
  let '(state, ws) := parseHandshake WebSocket_ctor (raw r) in
  if negb (bool_decide (state = OPENING_FRAME)) then HS_ret (-1) []
  else
    match co_sendResp answers (answerHandshake garbage uninit ws) with
    | Sent rc out => HS_ret (if rc =? -1 then -1 else 0) out
    | Send_waits out => HS_waits out
    | Send_undefined => HS_undefined
    end.

(** ** The rows of a request that was received *)

Definition KEY : list Z := str "Sec-WebSocket-Key".

Definition entry_ok (e : list Z * list Z) : Prop := e.1 <> [] /\ token e.1 /\ CR ∉ e.2.

Lemma header_find_clean k h : Forall entry_ok h -> CR ∉ default [] (header_find k h).
Proof.
  induction 1 as [|[x y] h (_ & _ & Hy) _ IH]; cbn [header_find]; [by apply not_elem_of_nil|]. by destruct (ci_compare k x).
Qed.

Lemma message_headers_ok hs : forall h,
  Forall header_ok hs -> header_sorted h -> Forall entry_ok h ->
  header_sorted (fold_left add_header hs h) /\ Forall entry_ok (fold_left add_header hs h).
Proof.
  induction hs as [|e hs IH]; intros h Hh Hs Hok; [done|]. apply Forall_cons in Hh as [(H1 & H2 & H3 & _) Hh].
  cbn [fold_left]. apply IH; [done|by apply header_set_sorted|].
  assert (Hv : CR ∉ match default [] (header_find e.1 h) with [] => e.2 | old => old ++ str ", " ++ e.2 end).
  { pose proof (header_find_clean e.1 h Hok) as Hold.
    destruct (default [] (header_find e.1 h)) as [|c old]; [done|]. rewrite !not_elem_of_app. split_and!; [done|decide_now|done]. }
  apply header_set_Forall; [|done|done]. intros k' w (K1 & K2 & _). done.
Qed.

(** A row that starts like a field of the handshake is that field. *)
Lemma prefix_is_name a k t : 58 ∉ a -> 58 ∉ k -> starts_with (a ++ [58]) (k ++ 58 :: t) = true -> a = k.
Proof.
  intros Ha Hk (r & E)%starts_with_spec. rewrite <- app_assoc in E. cbn [app] in E. revert k Hk E.
  induction a as [|x a IH]; intros [|y k] Hk E; cbn [app] in E; try done.
  - injection E as E _. apply not_elem_of_cons in Hk as [Hk _]. congruence.
  - injection E as E _. apply not_elem_of_cons in Ha as [Ha _]. congruence.
  - injection E as <- E. apply not_elem_of_cons in Ha as [_ Ha]. apply not_elem_of_cons in Hk as [_ Hk]. f_equal. by eapply IH.
Qed.

Lemma lines_text_join rows : rows <> [] -> lines_text rows = join CRLF rows ++ CRLF.
Proof.
  induction rows as [|r rows IH]; [done|]. intros _. destruct rows as [|r2 rows]; [unfold lines_text; cbn; by rewrite app_nil_r|].
  rewrite join_cons by done. change (lines_text (r :: r2 :: rows)) with ((r ++ CRLF) ++ lines_text (r2 :: rows)).
  rewrite IH by done. by rewrite <- !app_assoc.
Qed.

Lemma line_row l : line_ok l -> row_ok l.
Proof. intros [H1 H2]. split; [done|]. apply Forall_forall. intros c Hc ->. done. Qed.

Lemma entry_row e : entry_ok e -> row_ok (header_line e).
Proof.
  intros (H1 & H2 & H3). apply line_row. unfold header_line. split; [destruct e as [[|] ?]; done|].
  rewrite !not_elem_of_app. split_and!; [by apply token_excludes|decide_now|done].
Qed.

(** Headers in order: what comes after the key has another name. *)
Lemma after_key key pre post :
  header_sorted (pre ++ (KEY, key) :: post) -> Forall entry_ok post ->
  Forall (fun r => starts_with key_prefix r = false) (map header_line post).
Proof.
  intros Hs Hok. assert (Hlt : Forall (fun e => ci_compare KEY e.1 = Lt) post).
  { clear Hok. induction pre as [|x pre IH]; cbn [app] in Hs; inversion_clear Hs as [|? ? Hs' Hf]; [done|by apply IH]. }
  apply Forall_map, Forall_forall. intros [k v] Hin. rewrite Forall_forall in Hlt, Hok.
  specialize (Hlt _ Hin). destruct (Hok _ Hin) as (_ & Ht & _). cbn [fst] in *.
  destruct (starts_with key_prefix (header_line (k, v))) eqn:E; [|done]. exfalso.
  change key_prefix with (KEY ++ [58]) in E. unfold header_line in E. cbn [fst snd] in E.
  change (str ": " ++ v) with (58 :: 32 :: v) in E.
  apply prefix_is_name in E; [|decide_now|by apply token_excludes]. subst k. unfold ci_compare in Hlt. by rewrite lex_refl in Hlt.
Qed.

(** A header that sorts after the key is after it. *)
Lemma later_header key pre post k v :
  header_sorted (pre ++ (KEY, key) :: post) -> (k, v) ∈ pre ++ (KEY, key) :: post -> ci_compare KEY k = Lt -> post <> [].
Proof.
  intros Hs Hin Hk ->. apply elem_of_app in Hin as [Hin|Hin].
  - assert (Hp : Forall (fun e => ci_compare e.1 KEY = Lt) pre).
    { clear -Hs. induction pre as [|x pre IH]; [done|]. cbn [app] in Hs. inversion_clear Hs as [|? ? Hs' Hf]. constructor; [|by apply IH].
      apply Forall_app in Hf as [_ Hf]. by inversion_clear Hf. }
    rewrite Forall_forall in Hp. specialize (Hp _ Hin). cbn [fst] in Hp. unfold ci_compare in *. rewrite lex_opp, Hp in Hk. done.
  - apply list_elem_of_singleton in Hin. injection Hin as -> _. unfold ci_compare in Hk. by rewrite lex_refl in Hk.
Qed.

Lemma header_find_in k h v : header_find k h = Some v -> exists k', (k', v) ∈ h /\ ci_eq k k'.
Proof.
  induction h as [|[x y] h IH]; [done|]. rewrite header_find_cons. case_decide as E.
  - intros [= ->]. exists x. split; [by left|done].
  - intros (k' & Hin & He)%IH. exists k'. split; [by right|done].
Qed.

(** The rows of a request that was received, around its key. *)
Lemma received_rows d r key up :
  holds d r -> head_ok d -> (KEY, key) ∈ message_headers d -> header_find (str "Upgrade") (message_headers d) = Some up ->
  exists pre post last body,
    raw r = join CRLF (pre ++ [key_row key] ++ post ++ [last]) ++ (CRLF ++ CRLF) ++ body /\
    Forall row_ok (pre ++ [key_row key] ++ post ++ [last]) /\
    Forall (fun r => starts_with key_prefix r = false) post.
Proof.
  intros (_ & Hm & Hu & Hv & Hh & Hb) Hd Hkey Hup.
  destruct (message_headers_ok (d_headers d) [] (mo_headers _ Hd)) as [Hs Hok]; [constructor|constructor|].
  fold (message_headers d) in Hs, Hok. apply list_elem_of_split in Hkey as (hpre & hpost & Eh). rewrite Eh in *.
  destruct (header_find_in _ _ _ Hup) as (k' & Hin & Hci).
  assert (Hne : hpost <> []).
  { eapply later_header; [exact Hs|exact Hin|]. unfold ci_compare, ci_eq in *. rewrite <- Hci. by vm_compute. }
  apply Forall_app in Hok as [Hok1 [Hok2 Hok3]%Forall_cons].
  destruct hpost as [|l hpost] using rev_ind; [done|]. clear IHhpost Hne.
  exists (start_line d :: map header_line hpre), (map header_line hpost), (header_line l), (d_body d). split_and!.
  - rewrite raw_is_text. unfold message_text, message_of, message_lines, start_line. cbn [d_method d_uri d_version d_headers d_body].
    rewrite Hm, Hu, Hv, Hh, Hb, lines_text_join by done. rewrite map_app, map_cons, map_app. cbn [map].
    rewrite <- !app_assoc. done.
  - apply Forall_app. split; [constructor; [by apply line_row, start_line_ok|]|].
    + apply Forall_map, (Forall_impl _ _ _ Hok1). intros e. apply entry_row.
    + apply Forall_app in Hok3 as [Hok3 [Hok4 _]%Forall_cons]. constructor; [by apply (entry_row (KEY, key))|].
      apply Forall_app. split; [|by constructor; [apply entry_row|constructor]].
      apply Forall_map, (Forall_impl _ _ _ Hok3). intros e. apply entry_row.
  - assert (Hall : Forall (fun r => starts_with key_prefix r = false) (map header_line (hpost ++ [l]))) by (by eapply after_key).
    rewrite map_app in Hall. by apply Forall_app in Hall as [Hall _].
Qed.

(** * Results *)

(** C15. The upgrade from end to end: a GET request that names a key (in the spelling of the
    RFC: the handshake compares names with case) and has an [Upgrade] header, received by the HTTP
    session in any pieces and followed by anything, is answered on the connection with a
    response that carries the accept key of RFC 6455, when the socket takes the octets; the
    order in which the client sent its headers does not matter, nor do its other headers.
    The one other outcome is that the head is refused with 431, because its octets with three
    for each line and each piece come to the header limit. *)
Theorem upgrade_accepts garbage uninit d r0 chunks extra key :
  length garbage = 64%nat -> message_ok (m_body_bytes_max (base r0)) d ->
  (KEY, key) ∈ message_headers d -> is_Some (header_find (str "Upgrade") (message_headers d)) ->
  key <> [] -> Forall (fun c => is_whitespace c = false) key -> bytes_ok key -> zlen key < 2 ^ 31 ->
  concat chunks = message_text d ++ extra -> Forall (fun c => zlen c < 2 ^ 63) chunks ->
  (exists r rest, feed chunks (request_reset r0) = Some (r, extra) /\
    let resp := str "HTTP/1.1 101 Switching Protocols" ++ CRLF ++ str "Upgrade: WebSocket" ++ CRLF
      ++ str "Connection: Upgrade" ++ CRLF ++ str "Sec-WebSocket-Accept: " ++ accept_spec key ++ CRLF ++ rest in
    forall answers, takes answers (zlen resp) ->
    (total answers = zlen resp -> handShake garbage uninit answers r = HS_ret 0 resp) /\
    forall errno more, total answers < zlen resp -> errno <> EPIPE ->
      handShake garbage uninit (answers ++ (-1, errno) :: more) r = HS_ret (-1) (take (Z.to_nat (total answers)) resp)) \/
  (refusal chunks (request_reset r0) = Some (http_exception request_header_fields_too_large) /\
    max_header_size < lines_cost (message_lines d) + DELIMITER_SIZE * zlen chunks + 4).
Proof.
  intros Hg Hd Hkey [up Hup] Hne Hws Hb Hl Hc Hsize.
  destruct (request_stream_or d r0 chunks extra Hd Hc Hsize) as [(r & Hf & Hh)|?]; [left|by right].
  destruct (received_rows d r key up Hh (mo_head _ _ Hd) Hkey Hup) as (pre & post & last & body & Hraw & Hrows & Hpost).
  destruct (handshake_accept garbage uninit pre key post last body Hg Hrows Hne Hws Hb Hl Hpost) as (ws & rest & Hp & _ & Ha).
  exists r, rest. split; [done|]. cbn zeta. set (resp := str "HTTP/1.1 101 Switching Protocols" ++ _) in *.
  assert (Hs : forall answers, handShake garbage uninit answers r =
    match co_sendResp answers resp with
    | Sent rc out => HS_ret (if rc =? -1 then -1 else 0) out
    | Send_waits out => HS_waits out
    | Send_undefined => HS_undefined
    end) by (intros an; unfold handShake; by rewrite Hraw, Hp, Ha).
  intros answers Ht. split.
  - intros Htot. rewrite Hs, (proj1 (co_sendResp_spec answers resp 0 [] Ht) Htot).
    rewrite (proj2 (Z.eqb_neq _ _)); [done|]. pose proof (zlen_nonneg resp). lia.
  - intros errno more Htot He. rewrite Hs, (proj2 (proj2 (co_sendResp_spec answers resp errno more Ht) Htot)).
    by rewrite (proj2 (Z.eqb_neq errno EPIPE)).
Qed.

Definition ex_upgrade : message :=
  mk_message (str "GET") (str "/chat") (str "HTTP/1.1")
    [(str "Upgrade", str "websocket"); (str "host", str "example.com"); (KEY, str "dGhlIHNhbXBsZSBub25jZQ==")] [].

Lemma upgrade_accepts_witness :
  exists r rest, feed [message_text ex_upgrade] (request_reset request_ctor) = Some (r, []) /\
    exists answers, handShake (replicate 64 0) [] answers r =
      HS_ret 0 (str "HTTP/1.1 101 Switching Protocols" ++ CRLF ++ str "Upgrade: WebSocket" ++ CRLF
        ++ str "Connection: Upgrade" ++ CRLF ++ str "Sec-WebSocket-Accept: " ++ str "s3pPLMBiTxaQ9kYGzzhZRbK+xOo=" ++ CRLF ++ rest).
Proof.
  replace (str "s3pPLMBiTxaQ9kYGzzhZRbK+xOo=") with (accept_spec (str "dGhlIHNhbXBsZSBub25jZQ==")) by (by vm_compute).
  destruct (upgrade_accepts (replicate 64 0) [] ex_upgrade request_ctor [message_text ex_upgrade] [] (str "dGhlIHNhbXBsZSBub25jZQ=="))
    as [(r & rest & Hf & Hs)|[_ Hs]].
  - done.
  - split; [split; [split; [done|decide_now]|split; decide_now|decide_now..]|by vm_compute|by left].
  - vm_compute. right. left.
  - by eexists.
  - done.
  - decide_now.
  - decide_now.
  - by vm_compute.
  - by rewrite app_nil_r.
  - decide_now.
  - exists r, rest. split; [exact Hf|]. cbn zeta in Hs. match type of Hs with forall answers, takes answers (zlen ?x) -> _ => exists [(zlen x, 0)]; set (resp := x) in * end.
    assert (Hz : 0 < zlen resp).
    { unfold resp. rewrite zlen_app. change (zlen (str "HTTP/1.1 101 Switching Protocols")) with 32.
      match goal with |- context [32 + zlen ?x] => pose proof (zlen_nonneg x) end. lia. }
    clearbody resp. apply Hs; cbn [takes total foldr fst]; lia.
  - by vm_compute in Hs.
Defined.

(** A client that writes its header names in lower case, as HTTP allows, is sent a 101
    response without an accept key: the HTTP parser compares names without case, the
    handshake parser does not. *)
Definition ex_lower_upgrade : message :=
  mk_message (str "GET") (str "/chat") (str "HTTP/1.1")
    [(str "upgrade", str "websocket"); (str "host", str "example.com"); (str "sec-websocket-key", str "dGhlIHNhbXBsZSBub25jZQ==")] [].

Theorem lowercase_key_ignored :
  exists r, feed [message_text ex_lower_upgrade] (request_reset request_ctor) = Some (r, []) /\
    get_header KEY (base r) = str "dGhlIHNhbXBsZSBub25jZQ==" /\
    handShake (replicate 64 0) [] [(77, 0)] r =
      HS_ret 0 (str "HTTP/1.1 101 Switching Protocols" ++ CRLF ++ str "Upgrade: WebSocket" ++ CRLF ++ str "Connection: Upgrade" ++ CRLF ++ CRLF).
Proof. eexists. split; [vm_compute; reflexivity|]. split; vm_compute; reflexivity. Qed.
