(* ===== verification/Route.v ===== *)
(** * The route of a WebSocket

    Models the handler that [WsServer::registerUrl] ([sylar/server/websocket/wsserver.tpp])
    installs in the HTTP server: the handshake on the HTTP session, then [handleClient]
    again and again, each call for up to 1000 frames, until the session is over.  [now]
    gives the clock of each call; [answers] and [peer] are those of the socket to [send]
    during the handshake and to [recv] afterwards. *)

From S2P Require Import Prelude CppString WsParser WsFrame WsSpec WsRefine WsProps Session WsSession IdAlloc WsServer WsServerProps.
From S2P Require Import Handshake HttpMessage HttpRequest HttpLimits HttpResponse Http HttpServer Upgrade.

Section Route.
Context {A : Type} {IA : IdAllocator A}.
Context (max_size : Z) (cfg : ws_config) (T : handler) (valid : bool).
Context (garbage : Z -> list Z) (added : bool) (onOpen : WsSession -> WsSession).

(** How the route ends: with the handler calls and what was sent; [bad]: the last call of
    [handleClient] called [co_onBadClose]. *)
Inductive route_end :=
  | RT_ret (sv : WsServer A) (log : list event) (sent : list (list Z)) (bad : bool)
  | RT_waits (sv : WsServer A) (log : list event) (sent : list (list Z))
  | RT_threw (log : list event)
  | RT_undefined
  | RT_fuel.

(** What follows a call of [handleClient]. *)
Definition next_round (again : Z -> WsServer A -> list recv_out -> list event -> list (list Z) -> route_end)
    (log : list event) (sent : list (list Z)) (r : client_res A) : route_end :=
  match r with
  | HC_ret sessionId sv peer evs out bad =>
      if 0 <=? sessionId then again sessionId sv peer (log ++ evs) (sent ++ out)
      else RT_ret sv (log ++ evs) (sent ++ out) bad
  | HC_blocked sv evs => RT_waits sv (log ++ evs) sent
  | HC_threw evs => RT_threw (log ++ evs)
  | WsServer.HC_undefined => RT_undefined
  end.

(** do ... while(sessionId >= 0) *)
Fixpoint route_loop (fuel : nat) (now : nat -> nat -> Z) (sessionId : Z) (sv : WsServer A) (peer : list recv_out)
    (log : list event) (sent : list (list Z)) : route_end :=
  match fuel with
  | O => RT_fuel
  | S fuel =>
      next_round (route_loop fuel now) log sent
        (WsServer.handleClient max_size cfg T valid garbage added onOpen (now fuel) sessionId sv peer)
  end.

Definition ws_route (stack uninit : list Z) (fuel : nat) (now : nat -> nat -> Z) (answers : list (Z * Z))
    (session : HttpSession) (sv : WsServer A) (peer : list recv_out) : HttpSession * route_end :=
  let session := setKeepAlive false session in
  (session,
   match handShake stack uninit answers (h_request session) with
   | HS_ret rt out => if negb (rt =? 0) then RT_ret sv [] [out] false else route_loop fuel now (-1) sv peer [] [out]
   | HS_waits out => RT_waits sv [] [out]
   | HS_undefined => RT_undefined
   end).
End Route.
Arguments route_end : clear implicits.

(** ** Rounds *)

(** The limit on the frames of one call cannot be seen from outside. *)
Lemma spec_handle_more n m F :
  spec_handle (n + m) F =
  match spec_handle n F with
  | (evs, E_loop) => let (evs', e) := spec_handle m (drop n F) in (evs ++ evs', e)
  | r => r
  end.
Proof.
  revert F. induction n as [|n IH]; intros F; cbn [Nat.add].
  { cbn [spec_handle]. rewrite drop_0. by destruct (spec_handle m F). }
  destruct F as [|f F]; cbn [spec_handle drop]; [done|].
  destruct (getType f =? WS_OP_CLOSE); [done|]. destruct (is_error (route_event f)); [done|].
  rewrite IH. destruct (spec_handle n F) as [evs []]; try done. by destruct (spec_handle m (drop n F)).
Qed.

Lemma spec_handle_enough n F : (length F < n)%nat -> (spec_handle n F).2 <> E_loop.
Proof.
  revert F. induction n as [|n IH]; intros F Hn; [lia|]. destruct F as [|f F]; cbn [spec_handle]; [done|].
  destruct (getType f =? WS_OP_CLOSE); [done|]. destruct (is_error (route_event f)); [done|].
  specialize (IH F ltac:(cbn in Hn; lia)). by destruct (spec_handle n F) as [evs e].
Qed.

Lemma spec_handle_stable n m F : (length F < n)%nat -> (n <= m)%nat -> spec_handle m F = spec_handle n F.
Proof.
  intros Hn Hm. replace m with (n + (m - n))%nat by lia. rewrite spec_handle_more.
  pose proof (spec_handle_enough n F Hn). by destruct (spec_handle n F) as [evs []].
Qed.

(** The calls for a stream of frames, without a limit. *)
Definition spec_serve (F : list Frame) : list event * loop_end := spec_handle (S (length F)) F.

Lemma spec_serve_round F :
  spec_serve F =
  match spec_handle 1000 F with
  | (evs, E_loop) => let (evs', e) := spec_serve (drop 1000 F) in (evs ++ evs', e)
  | r => r
  end.
Proof.
  unfold spec_serve. rewrite <- (spec_handle_stable (S (length F)) (1000 + S (length F))) by lia. rewrite spec_handle_more.
  destruct (spec_handle 1000 F) as [evs []]; try done.
  by rewrite (spec_handle_stable (S (length (drop 1000 F))) (S (length F))) by (rewrite length_drop; lia).
Qed.

Section Rounds.
Context {A : Type} {IA : IdAllocator A}.
Context (max_size : Z) (cfg : ws_config) (T : handler) (valid : bool) (garbage : Z -> list Z) (added : bool)
  (onOpen : WsSession -> WsSession).
Context (Hmax : 0 <= max_size < 2 ^ 63) (HT : quiet T).

(** What a served connection leaves: [id] is its entry. *)
Definition served (id : Z) (sv sv' : WsServer A) (sent : list (list Z)) (evs : list event) (e : loop_end) (run : route_end A) : Prop :=
  server_inv sv' /\ (forall j, j <> id -> getSession sv' j = getSession sv j) /\
  match e with
  | E_wait => run = RT_waits sv' evs sent /\ is_Some (getSession sv' id)
  | E_loop => False
  | E_close f => run = RT_ret sv' evs (sent ++ sent_close valid (getCloseCode f) (getCloseReason f)) false /\ getSession sv' id = None
  | E_protocol => run = RT_ret sv' evs (sent ++ sent_close valid 1002 (str "Protocol Error")) false /\ getSession sv' id = None
  end.

(** A session of the table is served to the end of its stream; [s] is what the call works
    on, [s0] what the table holds. *)
Lemma route_rounds fuel : forall now clock sv id s0 s d reads dF log sent,
  server_inv sv -> getSession sv id = Some s0 -> pending max_size cfg s d reads dF ->
  (length (d_frames dF) < 1000 * S fuel)%nat ->
  let '(evs, e) := spec_serve (d_frames dF) in
  exists sv', served id sv sv' sent (log ++ evs) e
    (next_round (route_loop max_size cfg T valid garbage added onOpen fuel now) log sent
      (run_client max_size cfg T valid clock id s sv (map RecvData reads))).
Proof.
  induction fuel as [|fuel IH]; intros now clock sv id s0 s d reads dF log sent Hinv Hg Hp Hf;
    pose proof (getSession_range sv id ltac:(by rewrite Hg)) as Hr;
    pose proof (run_client_good max_size cfg T valid clock sv id s0 s d reads dF Hmax HT Hinv Hg Hp) as Hrun; cbn zeta in Hrun;
    rewrite spec_serve_round; pose proof (spec_handle_enough 1000 (d_frames dF)) as Hen;
    destruct (spec_handle 1000 (d_frames dF)) as [evs e]; destruct Hrun as (sv1 & Hinv1 & Hoth & He);
    destruct e as [| |f|]; try (destruct He as (Hn & rest & ->); by exists sv1); try (destruct He as [-> He]; by exists sv1).
  - exfalso. by apply Hen; [lia|].
  - destruct He as (s' & rest & d' & dF' & -> & Hg' & Hp' & Hd'). cbn [next_round]. rewrite (proj2 (Z.leb_le 0 id)), app_nil_r by lia.
    cbn [route_loop]. unfold WsServer.handleClient. rewrite (proj2 (Z.ltb_ge id 0)), Hg' by lia.
    specialize (IH now (now fuel) sv1 id s' s' d' rest dF' (log ++ evs) sent Hinv1 Hg' Hp'). rewrite Hd' in IH.
    assert (Hlen : (length (drop 1000 (d_frames dF)) < 1000 * S fuel)%nat)
      by (rewrite length_drop; destruct (decide (length (d_frames dF) < 1000)%nat) as [Hlt|]; [by destruct (Hen Hlt)|lia]).
    specialize (IH Hlen). destruct (spec_serve (drop 1000 (d_frames dF))) as [evs' e].
    destruct IH as (sv' & Hi & Ho & He). exists sv'. rewrite <- app_assoc in He. split_and!; [done| |done].
    intros j Hj. by rewrite Ho, Hoth.
Qed.
End Rounds.

(** * Results *)

Section Results.
Context {A : Type} {IA : IdAllocator A}.

(** C7. A WebSocket route serves its connection to the end: after a handshake that succeeded, and
    when the table of sessions has a free entry, the handler is called for exactly the
    frames of the stream of octets, in order, however the reads cut it and however many
    frames there are; the limit of 1000 frames in one call of [handleClient] cannot be seen.
    A close frame is answered with its own code and reason, an unknown opcode with a protocol
    error, and both release the entry of the session; without them the route waits for
    more.  The HTTP session is not kept alive.  A read is at most what the session asks for
    and at most what was allocated ([Session.resized_session_overflows] is the other
    case); between two reads that complete frames no more than [g_ws_max_request_size] octets
    are received; the stream decodes; the handlers do not close or read the session themselves, nor throw on
    an unknown opcode. *)
Theorem route_serves max_size cfg T valid garbage onOpen now stack uninit fuel answers out hs (sv : WsServer A) reads dF :
  0 <= max_size < 2 ^ 63 -> quiet T -> opens onOpen ->
  handShake stack uninit answers (h_request hs) = HS_ret 0 out ->
  server_inv sv -> ia_room (m_sessionIdAllocator sv) ->
  (exists id, 0 <= id < zlen (m_sessions sv) /\ getSession sv id = None) ->
  0 < g_ws_buffer_size cfg < 2 ^ 31 -> 0 < zlen (garbage (g_basic_buffer_size cfg)) -> 0 <= g_ws_max_request_size cfg ->
  Forall (read_ok (Z.min (g_ws_buffer_size cfg) (zlen (garbage (g_basic_buffer_size cfg))))) reads ->
  recv_within max_size cfg decoder_init 0 reads = true ->
  decode max_size decoder_init (concat reads) = Some dF -> (length (d_frames dF) < 1000 * fuel)%nat ->
  let '(hs', run) := ws_route max_size cfg T valid garbage true onOpen stack uninit fuel now answers hs sv (map RecvData reads) in
  let '(evs, e) := spec_serve (d_frames dF) in
  isKeep hs' = false /\
  exists id sv', getSession sv id = None /\ served valid id sv sv' [out] evs e run.
Proof.
  intros Hmax HT Hop Hh Hinv Hroom Hfree Hsz Halloc Hm Hreads Hw Hd Hf. unfold ws_route. cbn [setKeepAlive h_request]. rewrite Hh.
  cbn [Z.eqb negb]. destruct fuel as [|fuel]; [lia|]. cbn [route_loop]. unfold WsServer.handleClient. cbn [Z.ltb Z.compare].
  destruct (createSession_good cfg garbage (now fuel 1000%nat) sv Hinv Hroom Hfree) as (id & sv1 & -> & Hinv1 & Hid & Hg & Hget).
  destruct (fresh_session_rel max_size cfg garbage (now fuel 1000%nat) onOpen id Hop Hsz Halloc) as [Hrel Hcap].
  set (s := (init _ _ _).2) in *. rewrite <- Hcap in Hreads.
  assert (Hg1 : getSession sv1 id = Some s) by (rewrite Hget; by rewrite decide_True).
  pose proof (route_rounds max_size cfg T valid garbage true onOpen Hmax HT fuel now (now fuel) sv1 id s (onOpen s) decoder_init reads dF [] [out]
    Hinv1 Hg1 (mk_pending _ _ _ _ _ _ Hrel Hreads Hw Hm Hd) Hf) as Hl.
  destruct (spec_serve (d_frames dF)) as [evs e]. split; [done|]. destruct Hl as (sv' & Hi & Ho & He).
  exists id, sv'. split; [done|]. split_and!; [done| |done]. intros j Hj. by rewrite Ho, Hget, decide_False.
Qed.
End Results.

(** The request of the handshake, received, and then a text and a close frame in three
    reads. *)
Definition ex_session : HttpSession :=
  mk_http (Session_ctor 1024 0 ex_garbage)
    (match feed [message_text ex_upgrade] (request_reset request_ctor) with Some (r, _) => r | None => request_ctor end)
    response_ctor true.

Definition ex_shake : shake_end := handShake (replicate 64 0) [] [(129, 0)] (h_request ex_session).
Definition ex_shake_out : list Z := match ex_shake with HS_ret _ out => out | _ => [] end.

Lemma route_serves_witness :
  exists sv', (ws_route (IA := packed_id_allocator 4) 1000 ex_cfg ex_handler true ex_garbage true (fun s => s) (replicate 64 0) []
      1 (fun _ _ => 5) [(129, 0)] ex_session ex_server (map RecvData ex_stream)).2 =
    RT_ret sv' [co_onMessage [72; 105]; co_onClose 1001 [111; 107]] [ex_shake_out; close_bytes 1001 [111; 107]] false.
Proof.
  assert (Hlen : (2 < 1000 * 1)%nat) by lia. assert (Hmax : 0 <= 1000 < 2 ^ 63) by lia. assert (HT : quiet ex_handler) by done.
  assert (Hs : handShake (replicate 64 0) [] [(129, 0)] (h_request ex_session) = HS_ret 0 ex_shake_out) by (vm_compute; reflexivity).
  assert (Ho : opens (fun s => s)) by (intros s; split; [|split]; reflexivity). assert (Hsz : 0 < g_ws_buffer_size ex_cfg < 2 ^ 31) by (split; vm_compute; reflexivity).
  assert (Ha : 0 < zlen (ex_garbage (g_basic_buffer_size ex_cfg))) by (vm_compute; reflexivity).
  assert (Hm : 0 <= g_ws_max_request_size ex_cfg) by (vm_compute; discriminate).
  assert (Hr : Forall (read_ok (Z.min (g_ws_buffer_size ex_cfg) (zlen (ex_garbage (g_basic_buffer_size ex_cfg))))) ex_stream) by decide_now.
  assert (Hw : recv_within 1000 ex_cfg decoder_init 0 ex_stream = true) by (vm_compute; reflexivity).
  pose proof (route_serves (IA := packed_id_allocator 4) 1000 ex_cfg ex_handler true ex_garbage (fun s => s) (fun _ _ => 5) (replicate 64 0) []
    1 [(129, 0)] ex_shake_out ex_session ex_server ex_stream
    (mk_decoder D_start [0; 0; 0; 0] [spec_frame 1 [72; 105]; spec_frame 8 [3; 233; 111; 107]])
    Hmax HT Ho Hs ex_server_inv ex_server_room ex_server_free Hsz Ha Hm Hr Hw ltac:(vm_compute; reflexivity) Hlen) as H.
  destruct (ws_route _ _ _ _ _ _ _ _ _ _ _ _ _ _ _) as [hs' run].
  destruct H as (_ & id & sv' & _ & _ & _ & Hrun & _). exists sv'. exact Hrun.
Defined.
