(* ===== verification/WsHandlers.v ===== *)
(** * The default handlers of a WebSocket route

    Models the handlers of [WsHandler] ([sylar/server/websocket/wsserver.cc]), which a
    user's handler class inherits for the events it does not care about: all of them do
    nothing but [co_onPing], which answers with a pong that carries the payload of the
    ping. *)

From S2P Require Import Prelude WsParser WsFrame WsSpec WsRefine WsProps Session WsSession WsSend WsServerProps Route.

(** [co_onPing] *)
Definition pongFrame (reason : list Z) : Frame := setPongPayload reason (setOpcode WS_OP_PONG Frame_default).

(** The call of [co_sendFrame] a handler makes; the other handlers make none. *)
Definition default_call (e : event) : option pc :=
  match e with
  | co_onPing reason => Some (at_cas (make (pongFrame reason) None))
  | co_onMessage _ | co_onBinary _ | co_onClose _ _ | co_onPong _ | co_onError _ => None
  end.

Definition WsHandler : handler := fun _ s => (s, false).

(** A call of [co_sendFrame] that no other disturbs, on a socket that takes everything. *)
Fixpoint send_alone (fuel : nat) (g : shared) (p : pc) : option shared :=
  match fuel with
  | O => None
  | S fuel => match call_step true g p with Some (g, p) => send_alone fuel g p | None => Some g end
  end.

(** The default handlers, one event after the other. *)
Fixpoint handle_events (evs : list event) (g : shared) : option shared :=
  match evs with
  | [] => Some g
  | e :: evs => match default_call e with Some p => g ← send_alone 10 g p; handle_events evs g | None => handle_events evs g end
  end.

(** The payloads of the pings. *)
Definition pings (evs : list event) : list (list Z) := omap (fun e => match e with co_onPing msg => Some msg | _ => None end) evs.

Lemma WsHandler_quiet : quiet WsHandler.
Proof. done. Qed.

Definition idle_send (g : shared) : Prop := m_bf_state g = READY /\ m_send_buffer g = [].

Lemma send_alone_idle g data :
  idle_send g -> exists g', send_alone 10 g (at_cas data) = Some g' /\ idle_send g' /\ sent g' = sent g ++ [data].
Proof. destruct g as [st bf sn fl]. intros [E1 E2]. cbn [m_bf_state m_send_buffer] in *. subst. by eexists. Qed.

Lemma handle_events_sends evs : forall g, idle_send g ->
  exists g', handle_events evs g = Some g' /\ idle_send g' /\ sent g' = sent g ++ map (fun p => make (pongFrame p) None) (pings evs).
Proof.
  induction evs as [|e evs IH]; intros g Hg; [exists g; by rewrite app_nil_r|].
  destruct e as [msg|data|code reason|msg|msg|op]; cbn [handle_events default_call]; try (by apply IH).
  destruct (send_alone_idle g (make (pongFrame msg) None) Hg) as (g1 & -> & Hg1 & Hs1). cbn [mbind option_bind].
  destruct (IH g1 Hg1) as (g2 & -> & Hg2 & Hs2). exists g2. split_and!; [done|done|]. by rewrite Hs2, Hs1, <- app_assoc.
Qed.

(** * Results *)

(** Every ping is answered, in order, with a pong of its payload: what the default
    handlers send for the events of a connection is, for a peer that reads it in whatever
    pieces, one pong for each ping. *)
Theorem pings_answered max_size evs g :
  0 <= max_size < 2 ^ 63 -> idle_send g -> Forall (fun p => bytes_ok p /\ zlen p <= max_size) (pings evs) ->
  exists g' out, handle_events evs g = Some g' /\ sent g' = sent g ++ out /\
    forall reads, concat reads = concat out ->
      exists fb, feed max_size FrameBuffer_init reads = consumed (zlen (concat reads)) fb /\
        m_buffered_frames fb = map (spec_frame WS_OP_PONG) (pings evs).
Proof.
  intros Hmax Hg Hp. destruct (handle_events_sends evs g Hg) as (g' & He & _ & Hs).
  exists g', (map (fun p => make (pongFrame p) None) (pings evs)). split_and!; [done|done|]. intros reads Heq.
  assert (Hwf : Forall (frame_wf max_size) (map pongFrame (pings evs))).
  { apply Forall_map. eapply Forall_impl; [exact Hp|]. intros p [Hok Hl]. by split_and!. }
  rewrite <- (map_map pongFrame (fun f => make f None)) in Heq.
  pose proof (decode_stream max_size Hmax _ decoder_init Hwf eq_refl eq_refl) as Hd. rewrite <- Heq in Hd.
  apply (feed_init max_size Hmax) in Hd as (fb & Hf & Hfr); [|rewrite Heq; by eapply stream_ok]. exists fb. split; [done|].
  by rewrite Hfr, map_map.
Qed.

(** A text, two pings and a close. *)
Example two_pings :
  exists g', handle_events (spec_serve [spec_frame 1 [72]; spec_frame 9 [1; 2]; spec_frame 9 []; spec_frame 8 [3; 232]]).1 (mk_shared READY [] [] []) = Some g' /\
    sent g' = [[138; 2; 1; 2]; [138; 0]].
Proof. eexists. split; [vm_compute; reflexivity|done]. Qed.
