(* ===== verification/StdMap.v ===== *)
(** * [std::map] with string keys, and [std::set] ordered by a string

    The entries in the order of the keys ([lex]).  [sm_set] is [m[k] = v],
    [sm_insert] is [m.insert], which keeps an entry that is there, and [sm_erase]
    is [m.erase].  A [std::set] whose order compares a name is such a map from the
    names. *)

From stdpp Require Import sets sorting.
From S2P Require Import Prelude CppString.

Abbreviation smap V := (list (list Z * V)).

Definition key_lt (a b : list Z) : bool := match lex a b with Lt => true | _ => false end.

Fixpoint sm_find {V} (k : list Z) (m : smap V) : option V :=
  match m with
  | [] => None
  | (k', v) :: m => if str_eqb k k' then Some v else sm_find k m
  end.

Fixpoint sm_set {V} (k : list Z) (v : V) (m : smap V) : smap V :=
  match m with
  | [] => [(k, v)]
  | (k', v') :: m' =>
      if str_eqb k k' then (k, v) :: m'
      else if key_lt k k' then (k, v) :: m
      else (k', v') :: sm_set k v m'
  end.

Definition sm_insert {V} (k : list Z) (v : V) (m : smap V) : smap V :=
  match sm_find k m with Some _ => m | None => sm_set k v m end.

Definition sm_erase {V} (k : list Z) (m : smap V) : smap V := filter (fun e => e.1 <> k) m.

(** ** Lemmas *)

Section Maps.
Context {V : Type}.
Implicit Types (m : smap V) (v : V) (k : list Z).

Definition sorted m : Prop := StronglySorted (fun a b => key_lt a.1 b.1 = true) m.

Lemma str_eqb_refl k : str_eqb k k = true.
Proof. by apply str_eqb_spec. Qed.

Lemma str_eqb_ne k k' : k <> k' -> str_eqb k k' = false.
Proof. intros H. destruct (str_eqb k k') eqn:E; [by apply str_eqb_spec in E|done]. Qed.

Lemma key_lt_irrefl k : key_lt k k = false.
Proof. unfold key_lt. by rewrite lex_refl. Qed.

Lemma key_lt_trans a b c : key_lt a b = true -> key_lt b c = true -> key_lt a c = true.
Proof.
  unfold key_lt. intros. destruct (lex a b) eqn:E1; try done. destruct (lex b c) eqn:E2; try done.
  by rewrite (lex_trans a b c).
Qed.

Lemma key_lt_total a b : a <> b -> key_lt a b = false -> key_lt b a = true.
Proof.
  unfold key_lt. rewrite (lex_opp a b). destruct (lex a b) eqn:E; try done. by apply lex_Eq in E.
Qed.

Lemma sm_find_set k v m : sm_find k (sm_set k v m) = Some v.
Proof.
  induction m as [|[k' v'] m IH]; cbn [sm_set sm_find]; [by rewrite str_eqb_refl|].
  destruct (str_eqb k k') eqn:E; cbn [sm_find]; [by rewrite str_eqb_refl|].
  destruct (key_lt k k'); cbn [sm_find]; [by rewrite str_eqb_refl|by rewrite E].
Qed.

Lemma sm_find_set_ne k k2 v m : k2 <> k -> sm_find k2 (sm_set k v m) = sm_find k2 m.
Proof.
  intros Hne. induction m as [|[k' v'] m IH]; cbn [sm_set sm_find]; [by rewrite str_eqb_ne|].
  destruct (str_eqb k k') eqn:E; cbn [sm_find].
  - apply str_eqb_spec in E as <-. by rewrite str_eqb_ne.
  - destruct (key_lt k k'); cbn [sm_find]; [by rewrite str_eqb_ne|by rewrite IH].
Qed.

Lemma sm_find_insert k v m : sm_find k (sm_insert k v m) = Some (default v (sm_find k m)).
Proof. unfold sm_insert. destruct (sm_find k m) eqn:E; [done|]. apply sm_find_set. Qed.

Lemma sm_find_insert_ne k k2 v m : k2 <> k -> sm_find k2 (sm_insert k v m) = sm_find k2 m.
Proof. intros. unfold sm_insert. destruct (sm_find k m); [done|]. by apply sm_find_set_ne. Qed.

Lemma sm_find_erase k m : sm_find k (sm_erase k m) = None.
Proof.
  unfold sm_erase. induction m as [|[k' v'] m IH]; [done|]. rewrite filter_cons. case_decide as H; [|done].
  cbn [sm_find fst] in *. by rewrite str_eqb_ne.
Qed.

Lemma sm_find_erase_ne k k2 m : k2 <> k -> sm_find k2 (sm_erase k m) = sm_find k2 m.
Proof.
  intros Hne. unfold sm_erase. induction m as [|[k' v'] m IH]; [done|]. rewrite filter_cons.
  case_decide as H; cbn [sm_find fst] in *; [by rewrite IH|].
  destruct (decide (k' = k)) as [->|Hk]; [by rewrite str_eqb_ne|]. by destruct H.
Qed.

Lemma sm_find_elem k v m : sm_find k m = Some v -> (k, v) ∈ m.
Proof.
  induction m as [|[k' v'] m IH]; cbn [sm_find]; [done|]. destruct (str_eqb k k') eqn:E.
  - apply str_eqb_spec in E as <-. intros [= ->]. left.
  - right. auto.
Qed.

Lemma sm_set_elem e k v m : e ∈ sm_set k v m -> e = (k, v) \/ e ∈ m.
Proof.
  induction m as [|[k' v'] m IH]; cbn [sm_set]; rewrite ?elem_of_cons; [set_solver|].
  destruct (str_eqb k k'); [set_solver|]. destruct (key_lt k k'); set_solver.
Qed.

Lemma sm_insert_elem e k v m : e ∈ sm_insert k v m -> e = (k, v) \/ e ∈ m.
Proof. unfold sm_insert. destruct (sm_find k m); [by right|]. apply sm_set_elem. Qed.

Lemma sorted_nil : sorted [].
Proof. constructor. Qed.

Lemma sorted_set k v m : sorted m -> sorted (sm_set k v m).
Proof.
  unfold sorted. induction 1 as [|[k' v'] m Hs IH Hall]; cbn [sm_set]; [by repeat constructor|].
  rewrite Forall_forall in Hall.
  destruct (str_eqb k k') eqn:E; [apply str_eqb_spec in E as <-; constructor; [done|by apply Forall_forall]|].
  destruct (key_lt k k') eqn:El.
  - constructor; [constructor; [done|by apply Forall_forall]|]. constructor; [done|].
    apply Forall_forall. intros x Hx. eapply key_lt_trans; [done|]. by apply (Hall x).
  - constructor; [done|]. apply Forall_forall. intros x [-> | Hx]%sm_set_elem; [|by apply Hall].
    cbn [fst]. apply key_lt_total; [|done]. intros ->. by rewrite str_eqb_refl in E.
Qed.

Lemma sorted_insert k v m : sorted m -> sorted (sm_insert k v m).
Proof. unfold sm_insert. destruct (sm_find k m); auto using sorted_set. Qed.

(** Appending the largest key. *)
Lemma sm_set_last k v m : Forall (fun e => key_lt e.1 k = true) m -> sm_set k v m = m ++ [(k, v)].
Proof.
  induction 1 as [|[k' v'] m Hlt Hall IH]; [done|]. cbn [sm_set fst app] in *.
  destruct (str_eqb k k') eqn:E; [apply str_eqb_spec in E as <-; by rewrite key_lt_irrefl in Hlt|].
  destruct (key_lt k k') eqn:El; [|by rewrite IH].
  assert (key_lt k' k' = true) as Hi by (by eapply key_lt_trans). by rewrite key_lt_irrefl in Hi.
Qed.

Lemma sm_find_above k m : Forall (fun e => key_lt e.1 k = true) m -> sm_find k m = None.
Proof.
  induction 1 as [|[k' v'] m Hlt Hall IH]; [done|]. cbn [sm_find fst] in *.
  rewrite str_eqb_ne; [done|]. intros <-. by rewrite key_lt_irrefl in Hlt.
Qed.

(** Inserting the entries of a map in order rebuilds it. *)
Lemma sm_insert_all m acc :
  sorted (acc ++ m) -> fold_left (fun acc e => sm_insert e.1 e.2 acc) m acc = acc ++ m.
Proof.
  revert acc. induction m as [|[k v] m IH]; intros acc Hs; [by rewrite app_nil_r|]. cbn [fold_left fst snd].
  assert (Hlt : Forall (fun e => key_lt e.1 k = true) acc).
  { apply StronglySorted_app in Hs as (Hc & _ & _). apply Forall_forall. intros x Hx.
    by apply (Hc x (k, v) Hx); left. }
  unfold sm_insert at 2. rewrite sm_find_above, sm_set_last by done.
  rewrite IH; rewrite <- app_assoc; done.
Qed.

Lemma sorted_NoDup m : sorted m -> NoDup (map fst m).
Proof.
  induction 1 as [|[k v] m _ IH Hall]; [constructor|]. constructor; [|done].
  intros ([k' v'] & E & Hin)%list_elem_of_fmap. cbn [fst] in E. subst k'.
  rewrite Forall_forall in Hall. apply Hall in Hin. by rewrite key_lt_irrefl in Hin.
Qed.

Lemma sorted_find k v m : sorted m -> (k, v) ∈ m -> sm_find k m = Some v.
Proof.
  induction 1 as [|[k' v'] m _ IH Hall]; [by intros H%not_elem_of_nil|].
  intros [[= -> ->] | Hin]%elem_of_cons; cbn [sm_find]; [by rewrite str_eqb_refl|].
  rewrite str_eqb_ne; [auto|]. intros ->. rewrite Forall_forall in Hall.
  apply Hall in Hin. by rewrite key_lt_irrefl in Hin.
Qed.
End Maps.
