(* ===== verification/LogFormat.v ===== *)
(** * Log levels, events and the pattern language of the log formatter

    Models [LogLevel], [LogEvent] and [LogFormatter] of [sylar/basic/log.h] and
    [log.cc].  A pattern is read by the loop of [LogFormatter::init]; the rest of
    the pattern from index [i] on stands for the index.  The specification is a
    type of directives with the text each is written as and the output each
    stands for: every pattern is the text of a list of directives, and the
    formatter prints the outputs of the directives in order. *)

From S2P Require Import Prelude CppString.

Inductive Level := UNKNOWN | DEBUG | INFO | WARN | ERROR | FATAL.
#[global] Instance Level_eq_dec : EqDecision Level.
Proof. solve_decision. Defined.

Definition level_num (l : Level) : Z :=
  match l with UNKNOWN => 0 | DEBUG => 1 | INFO => 2 | WARN => 3 | ERROR => 4 | FATAL => 5 end.

(** [a >= b] on levels. *)
Definition level_ge (a b : Level) : bool := level_num b <=? level_num a.

Definition level_to_string (l : Level) : list Z :=
  match l with
  | DEBUG => str "DEBUG"
  | INFO => str "INFO"
  | WARN => str "WARN"
  | ERROR => str "ERROR"
  | FATAL => str "FATAL"
  | UNKNOWN => str "UNKNOWN"
  end.

Definition Level_FromString (s : list Z) : Level :=
  if str_eqb s (str "DEBUG") then DEBUG
  else if str_eqb s (str "INFO") then INFO
  else if str_eqb s (str "WARN") then WARN
  else if str_eqb s (str "ERROR") then ERROR
  else if str_eqb s (str "FATAL") then FATAL
  else UNKNOWN.

Lemma level_roundtrip l : Level_FromString (level_to_string l) = l.
Proof. by destruct l. Qed.

(** A logger is named by its address. *)
Record LogEvent := MkEvent {
  file_name : list Z;
  m_line : Z;
  m_elapse : Z;
  m_threadID : Z;
  m_threadName : list Z;
  m_fiberID : Z;
  m_timer : Z;
  m_ss : list Z;
  m_logger : positive;
  m_level : Level;
}.

(** [getTimer] returns the 64-bit stamp as a [uint32_t]. *)
Definition getTimer (e : LogEvent) : Z := u32 (m_timer e).

(** [os << n] for an [int32_t]. *)
Definition show_int (n : Z) : list Z := if n <? 0 then 45 :: to_string (- n) else to_string n.

(** ** Items *)

Inductive formatterItem :=
  | MessageFormatItem
  | LevelFormatItem
  | ElapseFormatItem
  | NameFormatItem
  | threadFormatItem
  | fiberFormatItem
  | DateTimeFormatItem (format : list Z)
  | FilenameFormatItem
  | LineFormatItem
  | NewLineFormatItem
  | stringFormatItem (s : list Z)
  | TabFormatItem.

Definition ESC : list Z := [27].

Definition getLevelColor (l : Level) : list Z :=
  ESC ++ match l with
         | DEBUG => str "[36m"
         | INFO => str "[32m"
         | WARN => str "[33m"
         | ERROR => str "[31m"
         | FATAL => str "[35m"
         | UNKNOWN => str "[0m"
         end.

Section Format.
(** Whether the standard output is a terminal, and the names of the loggers. *)
Context (is_tty : bool) (getName : positive -> list Z).

Definition level_format (l : Level) : list Z :=
  (if is_tty then getLevelColor l else []) ++ level_to_string l ++ (if is_tty then ESC ++ str "[0m" else []).

Definition item_format (l : Level) (e : LogEvent) (it : formatterItem) : list Z :=
  match it with
  | MessageFormatItem => m_ss e
  | LevelFormatItem => level_format l
  | ElapseFormatItem => to_string (m_elapse e)
  | NameFormatItem => getName (m_logger e)
  | threadFormatItem => to_string (m_threadID e) ++ str ":" ++ m_threadName e
  | fiberFormatItem => to_string (m_fiberID e)
  | DateTimeFormatItem _ => to_string (getTimer e)
  | FilenameFormatItem => file_name e
  | LineFormatItem => show_int (m_line e)
  | NewLineFormatItem => [LF]
  | stringFormatItem s => s
  | TabFormatItem => [9]
  end.

Definition items_format (l : Level) (e : LogEvent) (its : list formatterItem) : list Z :=
  its ≫= item_format l e.
End Format.

(** ** [LogFormatter::init] *)

Definition PERCENT : Z := 37.
Definition LBRACE : Z := 123.
Definition RBRACE : Z := 125.
Definition LETTER_D : Z := 100.

Definition isalpha (c : Z) : bool := ((65 <=? c) && (c <=? 90)) || ((97 <=? c) && (c <=? 122)).

(** An entry of [vec]. *)
Record piece := Piece { p_text : list Z; p_arg : list Z; p_status : Z }.

(** [if(!nstr.empty()) vec.push_back(...)] *)
Definition push_text (vec : list piece) (nstr : list Z) (fmt_status : Z) : list piece :=
  match nstr with [] => vec | _ => vec ++ [Piece nstr [] fmt_status] end.

(** The loop over what follows a [%d]: the text read and the rest.  Its index stays
    inside the pattern, so that the entry is pushed whether a brace closed it or not. *)
Fixpoint date_loop (is_in : bool) (time_str s : list Z) : list Z * list Z :=
  match s with
  | [] => (time_str, [])
  | c :: s' =>
      let is_in := (c =? LBRACE) || is_in in
      let time_str := time_str ++ [c] in
      if is_in && (c =? RBRACE) then (time_str, s') else date_loop is_in time_str s'
  end.

(** [m_pattern[i + 1] != '{' && (i + 1) < m_pattern.size()], on what follows index [i]. *)
Definition no_date_format (s : list Z) : bool :=
  match s with [] => false | c :: _ => negb (c =? LBRACE) end.

Fixpoint init_loop (fuel : nat) (vec : list piece) (nstr : list Z) (fmt_status : Z) (s : list Z) : option (list piece) :=
  match fuel with
  | O => None
  | S fuel =>
      match s with
      | [] => Some (push_text vec nstr fmt_status)
      | c :: s =>
          if c =? PERCENT then
            let vec := push_text vec nstr fmt_status in
            match s with
            | [] => Some (push_text vec [] 1)
            | k :: s =>
                if k =? LETTER_D then
                  if no_date_format s then init_loop fuel (vec ++ [Piece [LETTER_D] [] 1]) [] 0 s
                  else
                    let (time_str, s) := date_loop false [] s in
                    init_loop fuel (vec ++ [Piece [LETTER_D] time_str 1]) [] 0 s
                else if k =? PERCENT then init_loop fuel (vec ++ [Piece [k] [] 0]) [] 0 s
                else if isalpha k then init_loop fuel (vec ++ [Piece [k] [] 1]) [] 0 s
                else init_loop fuel (vec ++ [Piece [k] [] 0]) [] 0 s
            end
          else init_loop fuel vec (nstr ++ [c]) fmt_status s
      end
  end.

Definition s_format_items (key arg : list Z) : option formatterItem :=
  match key with
  | [c] =>
      if c =? 109 then Some MessageFormatItem
      else if c =? 112 then Some LevelFormatItem
      else if c =? 114 then Some ElapseFormatItem
      else if c =? 99 then Some NameFormatItem
      else if c =? 116 then Some threadFormatItem
      else if c =? 102 then Some fiberFormatItem
      else if c =? 100 then Some (DateTimeFormatItem arg)
      else if c =? 70 then Some FilenameFormatItem
      else if c =? 76 then Some LineFormatItem
      else if c =? 110 then Some NewLineFormatItem
      else if c =? 115 then Some (stringFormatItem arg)
      else if c =? 84 then Some TabFormatItem
      else None
  | _ => None
  end.

(** One round of the second loop: the item and whether it sets [m_error]. *)
Definition piece_item (p : piece) : formatterItem * bool :=
  if p_status p =? 0 then (stringFormatItem (p_text p), false)
  else match s_format_items (p_text p) (p_arg p) with
       | None => (stringFormatItem (str "<<error_format %" ++ p_text p ++ str ">>"), true)
       | Some it => (it, false)
       end.

Record LogFormatter := MkFormatter {
  m_pattern : list Z;
  m_items : list formatterItem;
  m_error : bool;
}.

(** The constructor; the loop runs once per character at most. *)
Definition newFormatter (pattern : list Z) : LogFormatter :=
  let ps := default [] (init_loop (S (length pattern)) [] [] 0 pattern) in
  MkFormatter pattern (map (fun p => (piece_item p).1) ps) (existsb (fun p => (piece_item p).2) ps).

Definition formatter_format (is_tty : bool) (getName : positive -> list Z) (f : LogFormatter) (l : Level) (e : LogEvent) : list Z :=
  items_format is_tty getName l e (m_items f).

(** ** Specification: directives *)

Inductive directive :=
  | Text (s : list Z)          (** characters that stand for themselves *)
  | Escaped (k : Z)            (** a percent sign and a character that is no letter *)
  | Field (k : Z)              (** a percent sign and a letter *)
  | Date (arg : option (list Z)) (** [%d], with a format in braces or without *)
  | OpenDate (arg : list Z)    (** [%d{...] without the closing brace *)
  | Dangling.                  (** a percent sign at the end *)

Definition directive_text (d : directive) : list Z :=
  match d with
  | Text s => s
  | Escaped k | Field k => [PERCENT; k]
  | Date None => [PERCENT; LETTER_D]
  | Date (Some a) => [PERCENT; LETTER_D; LBRACE] ++ a ++ [RBRACE]
  | OpenDate a => [PERCENT; LETTER_D; LBRACE] ++ a
  | Dangling => [PERCENT]
  end.

Definition pattern_of (ds : list directive) : list Z := ds ≫= directive_text.

Definition directive_ok (d : directive) : Prop :=
  match d with
  | Text s => s <> [] /\ PERCENT ∉ s
  | Escaped k => isalpha k = false
  | Field k => isalpha k = true /\ k <> LETTER_D
  | Date (Some a) | OpenDate a => RBRACE ∉ a
  | Date None | Dangling => True
  end.

(** What may follow a directive. *)
Definition may_follow (d : directive) (rest : list directive) : Prop :=
  match d with
  | Date None => head (pattern_of rest) <> Some LBRACE
  | OpenDate _ | Dangling => rest = []
  | _ => True
  end.

Fixpoint directives_ok (ds : list directive) : Prop :=
  match ds with
  | [] => True
  | d :: rest => directive_ok d /\ may_follow d rest /\ directives_ok rest
  end.

(** The letters with a meaning. *)
Definition known (k : Z) : bool := match s_format_items [k] [] with Some _ => true | None => false end.

Section Output.
Context (is_tty : bool) (getName : positive -> list Z) (l : Level) (e : LogEvent).

Definition directive_output (d : directive) : list Z :=
  match d with
  | Text s => s
  | Escaped k => [k]
  | Field k =>
      match s_format_items [k] [] with
      | Some it => item_format is_tty getName l e it
      | None => str "<<error_format %" ++ [k] ++ str ">>"
      end
  | Date _ | OpenDate _ => to_string (getTimer e)
  | Dangling => []
  end.
End Output.

Definition directive_error (d : directive) : bool :=
  match d with Field k => negb (known k) | _ => false end.

Example pattern_sample :
  pattern_of [Date (Some (str "%Y")); Field 84; Text (str "["); Field 112; Text (str "]"); Escaped PERCENT; Field 122; Dangling]
  = str "%d{%Y}%T[%p]%%%z%".
Proof. reflexivity. Qed.

(** ** The formatter prints the outputs of the directives *)

Definition pieces_out (is_tty : bool) (getName : positive -> list Z) (l : Level) (e : LogEvent) (ps : list piece) : list Z :=
  items_format is_tty getName l e (map (fun p => (piece_item p).1) ps).
Definition pieces_err (ps : list piece) : bool := existsb (fun p => (piece_item p).2) ps.

Section Correct.
Context (is_tty : bool) (getName : positive -> list Z) (l : Level) (e : LogEvent).
#[local] Abbreviation out := (pieces_out is_tty getName l e).
#[local] Abbreviation item_out := (fun p => item_format is_tty getName l e (piece_item p).1).

Lemma out_app ps qs : out (ps ++ qs) = out ps ++ out qs.
Proof. unfold pieces_out, items_format. by rewrite map_app, bind_app. Qed.

Lemma out_one p : out [p] = item_out p.
Proof. unfold pieces_out, items_format. cbn [map mbind list_bind]. by rewrite app_nil_r. Qed.

Lemma out_push_text ps s : out (push_text ps s 0) = out ps ++ s.
Proof. destruct s; cbn [push_text]; [by rewrite app_nil_r|]. by rewrite out_app, out_one. Qed.

Lemma err_app ps qs : pieces_err (ps ++ qs) = pieces_err ps || pieces_err qs.
Proof. apply existsb_app. Qed.

Lemma err_push_text ps s : pieces_err (push_text ps s 0) = pieces_err ps.
Proof. destruct s; cbn [push_text]; [done|]. rewrite err_app. cbn. by rewrite orb_false_r. Qed.

(** The text before the next percent sign is collected. *)
Lemma init_text fuel vec nstr st s r :
  PERCENT ∉ s -> init_loop (length s + fuel) vec nstr st (s ++ r) = init_loop fuel vec (nstr ++ s) st r.
Proof.
  revert nstr. induction s as [|c s IH]; intros nstr H; [by rewrite app_nil_r|].
  apply not_elem_of_cons in H as [Hc H]. cbn [length Nat.add app init_loop].
  destruct (Z.eqb_spec c PERCENT) as [->|_]; [done|]. rewrite IH by done. by rewrite <- app_assoc.
Qed.

Lemma date_loop_closed acc a r : RBRACE ∉ a -> date_loop true acc (a ++ RBRACE :: r) = (acc ++ a ++ [RBRACE], r).
Proof.
  revert acc. induction a as [|c a IH]; intros acc H; [done|].
  apply not_elem_of_cons in H as [Hc H]. cbn [app date_loop]. rewrite orb_true_r. cbn [andb].
  destruct (Z.eqb_spec c RBRACE) as [->|_]; [done|]. rewrite IH by done. by rewrite <- app_assoc.
Qed.

Lemma date_loop_open acc a : RBRACE ∉ a -> date_loop true acc a = (acc ++ a, []).
Proof.
  revert acc. induction a as [|c a IH]; intros acc H; [cbn; by rewrite app_nil_r|].
  apply not_elem_of_cons in H as [Hc H]. cbn [app date_loop]. rewrite orb_true_r. cbn [andb].
  destruct (Z.eqb_spec c RBRACE) as [->|_]; [done|]. rewrite IH by done. by rewrite <- app_assoc.
Qed.

(** The entry a directive other than text makes. *)
Definition directive_piece (d : directive) : piece :=
  match d with
  | Text s => Piece s [] 0
  | Escaped k => Piece [k] [] 0
  | Field k => Piece [k] [] 1
  | Date None => Piece [LETTER_D] [] 1
  | Date (Some a) => Piece [LETTER_D] (LBRACE :: a ++ [RBRACE]) 1
  | OpenDate a => Piece [LETTER_D] (LBRACE :: a) 1
  | Dangling => Piece [] [] 0
  end.

Lemma directive_piece_out d : item_out (directive_piece d) = directive_output is_tty getName l e d.
Proof.
  destruct d as [s|k|k|[a|]|a|]; try done.
  unfold piece_item. cbn [directive_piece p_status p_text p_arg Z.eqb directive_output].
  by destruct (s_format_items [k] []).
Qed.

Lemma directive_piece_err d : (piece_item (directive_piece d)).2 = directive_error d.
Proof.
  destruct d as [s|k|k|[a|]|a|]; try done.
  unfold piece_item, directive_error, known. cbn [directive_piece p_status p_text p_arg Z.eqb].
  by destruct (s_format_items [k] []).
Qed.

(** One directive that starts with a percent sign is one round. *)
Lemma init_directive fuel vec nstr d rest :
  directive_ok d -> may_follow d rest -> (forall s, d <> Text s) ->
  init_loop (S (S fuel)) vec nstr 0 (directive_text d ++ pattern_of rest)
  = match d with
    | Dangling => Some (push_text vec nstr 0)
    | _ => init_loop (S fuel) (push_text vec nstr 0 ++ [directive_piece d]) [] 0 (pattern_of rest)
    end.
Proof.
  intros Hok Hf Ht. destruct d as [s|k|k|[a|]|a|]; [by destruct (Ht s)| | | | | |];
    cbn [directive_ok may_follow directive_text directive_piece app] in *.
  - cbn [init_loop]. change (PERCENT =? PERCENT) with true. cbv beta iota zeta.
    destruct (Z.eqb_spec k LETTER_D) as [->|_]; [done|]. rewrite Hok.
    by destruct (k =? PERCENT).
  - destruct Hok as [Ha Hd]. cbn [init_loop]. change (PERCENT =? PERCENT) with true. cbv beta iota zeta.
    destruct (Z.eqb_spec k LETTER_D) as [->|_]; [done|]. rewrite Ha.
    destruct (Z.eqb_spec k PERCENT) as [->|_]; [done|]. done.
  - rewrite <- app_assoc. cbn [app]. remember (a ++ RBRACE :: pattern_of rest) as t eqn:Et.
    change (init_loop (S (S fuel)) vec nstr 0 (PERCENT :: LETTER_D :: LBRACE :: t))
      with (let (time_str, s) := date_loop true [LBRACE] t in
            init_loop (S fuel) (push_text vec nstr 0 ++ [Piece [LETTER_D] time_str 1]) [] 0 s).
    subst t. by rewrite date_loop_closed.
  - destruct (pattern_of rest) as [|c r] eqn:Er; [done|].
    cbn [init_loop]. change (PERCENT =? PERCENT) with true. change (LETTER_D =? LETTER_D) with true. cbv beta iota zeta.
    cbn [no_date_format]. destruct (Z.eqb_spec c LBRACE) as [->|_]; [done|]. done.
  - subst rest. rewrite app_nil_r.
    change (init_loop (S (S fuel)) vec nstr 0 (PERCENT :: LETTER_D :: LBRACE :: a))
      with (let (time_str, s) := date_loop true [LBRACE] a in
            init_loop (S fuel) (push_text vec nstr 0 ++ [Piece [LETTER_D] time_str 1]) [] 0 s).
    by rewrite date_loop_open.
  - by subst rest.
Qed.

Lemma init_correct ds : forall fuel vec nstr,
  directives_ok ds -> (length (pattern_of ds) < fuel)%nat ->
  exists ps, init_loop fuel vec nstr 0 (pattern_of ds) = Some ps
    /\ out ps = out vec ++ nstr ++ (ds ≫= directive_output is_tty getName l e)
    /\ pieces_err ps = pieces_err vec || existsb directive_error ds.
Proof.
  induction ds as [|d ds IH]; intros fuel vec nstr Hok Hfuel.
  - destruct fuel as [|fuel]; [cbn in Hfuel; lia|]. exists (push_text vec nstr 0). split; [done|].
    rewrite out_push_text, err_push_text. cbn. by rewrite app_nil_r, orb_false_r.
  - destruct Hok as (Hd & Hf & Hok). change (pattern_of (d :: ds)) with (directive_text d ++ pattern_of ds) in *.
    rewrite length_app in Hfuel. cbn [mbind list_bind existsb].
    assert (Hcase : (exists s, d = Text s) \/ forall s, d <> Text s) by (destruct d; eauto).
    destruct Hcase as [[s ->]|Hnt].
    + destruct Hd as [_ Hp]. cbn [directive_text] in *.
      replace fuel with (length s + (fuel - length s))%nat by lia. rewrite init_text by done.
      destruct (IH (fuel - length s)%nat vec (nstr ++ s) Hok ltac:(lia)) as (ps & -> & Ho & He).
      exists ps. split; [done|]. rewrite Ho, He. split; [|done]. cbn [directive_output]. by rewrite <- !app_assoc.
    + assert (Hl : (1 <= length (directive_text d))%nat)
        by (destruct d as [s|k|k|[a|]|a|]; cbn; [by destruct (Hnt s)|lia..]).
      destruct fuel as [|[|fuel]]; [lia|lia|]. rewrite init_directive by done.
      assert (Hdd : d = Dangling \/ d <> Dangling) by (destruct d; auto).
      destruct Hdd as [->|Hnd].
      * cbn in Hf. subst ds. exists (push_text vec nstr 0). split; [done|].
        rewrite out_push_text, err_push_text. cbn. by rewrite app_nil_r, orb_false_r.
      * destruct (IH (S fuel) (push_text vec nstr 0 ++ [directive_piece d]) [] Hok ltac:(lia)) as (ps & E & Ho & He).
        exists ps. split; [destruct d; done || by destruct Hnd|]. rewrite Ho, He, out_app, err_app, out_push_text, err_push_text, out_one.
        rewrite directive_piece_out. unfold pieces_err at 2. cbn [existsb]. rewrite directive_piece_err, orb_false_r.
        split; [cbn [app]; by rewrite <- !app_assoc|by rewrite orb_assoc].
Qed.
End Correct.

Lemma newFormatter_output ds is_tty getName l e :
  directives_ok ds ->
  formatter_format is_tty getName (newFormatter (pattern_of ds)) l e = ds ≫= directive_output is_tty getName l e
  /\ m_error (newFormatter (pattern_of ds)) = existsb directive_error ds.
Proof.
  intros Hok.
  destruct (init_correct is_tty getName l e ds (S (length (pattern_of ds))) [] [] Hok ltac:(lia)) as (ps & E & Ho & He).
  unfold formatter_format, newFormatter. cbn [m_items m_error]. rewrite E. cbn [default from_option id].
  exact (conj Ho He).
Qed.

(** Every pattern is the text of directives. *)
Lemma pattern_directives p : exists ds, directives_ok ds /\ pattern_of ds = p.
Proof.
  remember (length p) as n eqn:Hn. revert p Hn. induction (lt_wf n) as [n _ IH]. intros p ->.
  assert (Hrec : forall r, (length r < length p)%nat -> exists ds, directives_ok ds /\ pattern_of ds = r)
    by (intros r Hr; by eapply IH). clear IH.
  assert (Hcons : forall d r, p = directive_text d ++ r -> (length r < length p)%nat -> directive_ok d ->
    (forall ds, pattern_of ds = r -> may_follow d ds) -> exists ds, directives_ok ds /\ pattern_of ds = p).
  { intros d r -> Hr Hd Hf. destruct (Hrec r Hr) as (ds & Hds & <-). exists (d :: ds). split; [|done].
    by repeat split; auto. }
  destruct p as [|c s]; [by exists []|]. destruct (Z.eqb_spec c PERCENT) as [->|Hc].
  2:{ apply (Hcons (Text [c]) s); [done|cbn; lia| |done]. split; [done|]. intros H%list_elem_of_singleton. by subst c. }
  destruct s as [|k s]; [by exists [Dangling]|].
  destruct (Z.eqb_spec k LETTER_D) as [->|Hk].
  2:{ destruct (isalpha k) eqn:Ha;
      [apply (Hcons (Field k) s)|apply (Hcons (Escaped k) s)]; done || (cbn; lia). }
  destruct s as [|b t]; [by exists [Date None]|].
  destruct (Z.eqb_spec b LBRACE) as [->|Hb].
  2:{ apply (Hcons (Date None) (b :: t)); [done|cbn; lia|done|]. intros ds E. cbn [may_follow]. rewrite E. by intros [= ->]. }
  destruct (decide (RBRACE ∈ t)) as [Hin|Hin].
  - apply list_elem_of_split_l in Hin as (a & r & -> & Ha).
    apply (Hcons (Date (Some a)) r); [cbn [directive_text]; by rewrite <- !app_assoc| |done|done].
    cbn [length]. rewrite length_app. cbn [length]. lia.
  - exists [OpenDate t]. split; [done|]. unfold pattern_of. cbn. by rewrite app_nil_r.
Qed.

(** C29. The formatter's meaning: however a pattern is read as directives, a formatter
    made from it prints the outputs of the directives in order and is in error
    exactly when a directive is a letter without a meaning; and every pattern can
    be read as directives. *)
Theorem formatter_output pattern :
  (forall ds, directives_ok ds -> pattern_of ds = pattern ->
    (forall is_tty getName l e,
      formatter_format is_tty getName (newFormatter pattern) l e = ds ≫= directive_output is_tty getName l e)
    /\ m_error (newFormatter pattern) = existsb directive_error ds)
  /\ exists ds, directives_ok ds /\ pattern_of ds = pattern.
Proof.
  split; [|apply pattern_directives]. intros ds Hok <-. split.
  - intros. by apply newFormatter_output.
  - by destruct (newFormatter_output ds false (fun _ => []) INFO
      (MkEvent [] 0 0 0 [] 0 0 [] 1%positive INFO) Hok).
Qed.

(** The format of a date is dropped: [%d] prints the number of seconds, modulo the
    32 bits of [getTimer], whatever format follows it. *)
Theorem date_format_dropped a is_tty getName l e :
  RBRACE ∉ a ->
  formatter_format is_tty getName (newFormatter (str "%d{" ++ a ++ str "}")) l e = to_string (m_timer e mod 2 ^ 32).
Proof.
  intros Ha.
  destruct (newFormatter_output [Date (Some a)] is_tty getName l e) as [H _]; [done|].
  unfold pattern_of in H. cbn [mbind list_bind directive_output directive_text] in H.
  rewrite app_nil_r, (app_nil_r (to_string _)) in H. exact H.
Qed.

Lemma date_format_dropped_witness :
  RBRACE ∉ str "%Y-%m-%d %H:%M:%S"
  /\ formatter_format false (fun _ => []) (newFormatter (str "%d{%Y-%m-%d %H:%M:%S}")) INFO
       (MkEvent [] 0 0 0 [] 0 1700000000 [] 1%positive INFO) = str "1700000000".
Proof.
  assert (H : RBRACE ∉ str "%Y-%m-%d %H:%M:%S") by decide_now. split; [done|].
  exact (date_format_dropped (str "%Y-%m-%d %H:%M:%S") false (fun _ => []) INFO
    (MkEvent [] 0 0 0 [] 0 1700000000 [] 1%positive INFO) H).
Defined.

(** The pattern a logger starts with has no error. *)
Definition default_pattern : list Z :=
  str "╭─%d{%Y-%m-%d %H:%M:%S}%T[%p]%T[%c]%T[thread:%t fiber:%f]%T%F:%L%T%n╰─%m%n".

Example default_pattern_output :
  formatter_format false (fun _ => str "root") (newFormatter default_pattern) WARN
    (MkEvent (str "a.cc") 12 0 7 (str "main") 3 99 (str "hello") 1%positive WARN)
  = str "╭─99" ++ [9] ++ str "[WARN]" ++ [9] ++ str "[root]" ++ [9] ++ str "[thread:7:main fiber:3]" ++ [9]
    ++ str "a.cc:12" ++ [9; 10] ++ str "╰─hello" ++ [10]
  /\ m_error (newFormatter default_pattern) = false.
Proof. vm_compute. done. Qed.
