(* ===== verification/Logger.v ===== *)
(** * Loggers, appenders and the logger manager

    Models [Logger], [LogAppender] with its two classes, [LogAppenderDefine],
    [LogDefine] and [LoggerManager] of [sylar/basic/log.h] and [log.cc].  Loggers
    and appenders are shared objects: the state holds them by address, and a
    pointer is an address or null.  A formatter does not change once it is built
    and is a value.  [None] as the result of an operation is a crash (a null
    pointer is followed) or a thread that waits for itself.

    The octets written to the standard output and to the stream of every file
    appender are part of the state, with how many of a stream's were flushed. *)

From stdpp Require Import gmap.
From S2P Require Import Prelude CppString StdMap LogFormat.

Record Stream := MkStream { s_written : list Z; s_flushed : nat }.

(** A file appender has its file name and its stream, [None] when the file could not
    be opened: what is written to such a stream is lost. *)
Inductive AppenderClass :=
  | StdoutLogAppender
  | FileLogAppender (m_file_name : list Z) (m_file_stream : option Stream).

Record LogAppender := MkAppender {
  a_class : AppenderClass;
  a_level : Level;
  a_formatter : option LogFormatter;
}.

Record Logger := MkLogger {
  l_name : list Z;
  l_level : Level;
  l_appenders : list (option positive);
  l_formatter : option LogFormatter;
  l_root : option positive;
}.

Record LogState := MkState {
  loggers : gmap positive Logger;
  appenders : gmap positive LogAppender;
  out : list Z;
  m_loggers : smap positive;
  m_root : positive;
  m_system : positive;
}.

Definition set_loggers (ls : gmap positive Logger) (st : LogState) : LogState :=
  MkState ls (appenders st) (out st) (m_loggers st) (m_root st) (m_system st).
Definition set_appenders (aps : gmap positive LogAppender) (st : LogState) : LogState :=
  MkState (loggers st) aps (out st) (m_loggers st) (m_root st) (m_system st).
Definition set_registry (m : smap positive) (st : LogState) : LogState :=
  MkState (loggers st) (appenders st) (out st) m (m_root st) (m_system st).
(** [std::cout << s] *)
Definition cout (s : list Z) (st : LogState) : LogState :=
  MkState (loggers st) (appenders st) (out st ++ s) (m_loggers st) (m_root st) (m_system st).

(** [std::endl] *)
Definition endl : list Z := [LF].

(** [p->f()] on a logger. *)
Definition on_logger (p : positive) (f : Logger -> Logger) (st : LogState) : option LogState :=
  lg ← loggers st !! p; Some (set_loggers (<[p := f lg]> (loggers st)) st).

Definition put_logger (lg : Logger) (st : LogState) : positive * LogState :=
  let p := fresh (dom (loggers st)) in (p, set_loggers (<[p := lg]> (loggers st)) st).
Definition put_appender (a : LogAppender) (st : LogState) : positive * LogState :=
  let p := fresh (dom (appenders st)) in (p, set_appenders (<[p := a]> (appenders st)) st).

(** ** Loggers *)

Definition newLogger (name : list Z) : Logger :=
  MkLogger name INFO [] (Some (newFormatter default_pattern)) None.

Definition addAppender (a : option positive) (lg : Logger) : Logger :=
  MkLogger (l_name lg) (l_level lg) (l_appenders lg ++ [a]) (l_formatter lg) (l_root lg).
Definition delAppender (a : option positive) (lg : Logger) : Logger :=
  MkLogger (l_name lg) (l_level lg) (filter (fun b => b <> a) (l_appenders lg)) (l_formatter lg) (l_root lg).
Definition clearAppenders (lg : Logger) : Logger :=
  MkLogger (l_name lg) (l_level lg) [] (l_formatter lg) (l_root lg).
Definition setLevel (v : Level) (lg : Logger) : Logger :=
  MkLogger (l_name lg) v (l_appenders lg) (l_formatter lg) (l_root lg).
Definition setFormatter_ptr (f : option LogFormatter) (lg : Logger) : Logger :=
  MkLogger (l_name lg) (l_level lg) (l_appenders lg) f (l_root lg).
Definition set_root (r : option positive) (lg : Logger) : Logger :=
  MkLogger (l_name lg) (l_level lg) (l_appenders lg) (l_formatter lg) r.

(** [setFormatter(const std::string&)]: it is the formatter the logger has, not the
    new one, that is asked for an error; a complaint is printed then. *)
Definition setFormatter (pattern : list Z) (p : positive) (st : LogState) : option LogState :=
  lg ← loggers st !! p;
  f ← l_formatter lg;
  if m_error f
  then Some (cout (str "Logger LogFormatter name=" ++ l_name lg ++ str "  pattern=" ++ pattern) st)
  else on_logger p (setFormatter_ptr (Some (newFormatter pattern))) st.

(** [*dst = *src], either assignment: the right-hand side is [const], so that moving
    from it copies.  [m_root] is not assigned.  Both locks of one logger are never
    obtained. *)
Definition logger_assign (dst src : positive) (st : LogState) : option LogState :=
  if bool_decide (dst = src) then None
  else
    d ← loggers st !! dst;
    s ← loggers st !! src;
    Some (set_loggers (<[dst := MkLogger (l_name s) (l_level s) (l_appenders s) (l_formatter s) (l_root d)]>
                         (loggers st)) st).

(** ** Appenders *)

Section World.
(** Whether a file can be opened for writing, and whether the standard output is a terminal. *)
Context (can_open : list Z -> bool) (is_tty : bool).

(** [m_file_stream.open(m_file_name)] truncates the file. *)
Definition open_stream (file : list Z) : option Stream :=
  if can_open file then Some (MkStream [] 0) else None.

Definition newStdoutAppender : LogAppender := MkAppender StdoutLogAppender UNKNOWN None.
Definition newFileAppender (file : list Z) : LogAppender :=
  MkAppender (FileLogAppender file (open_stream file)) UNKNOWN None.

Definition appender_setLevel (v : Level) (a : LogAppender) : LogAppender := MkAppender (a_class a) v (a_formatter a).
Definition appender_setFormatter (f : option LogFormatter) (a : LogAppender) : LogAppender :=
  MkAppender (a_class a) (a_level a) f.

(** [FileLogAppender::reopen]: the appender and the result. *)
Definition reopen (a : LogAppender) : LogAppender * bool :=
  match a_class a with
  | StdoutLogAppender => (a, false)
  | FileLogAppender file _ =>
      let s := open_stream file in
      (MkAppender (FileLogAppender file s) (a_level a) (a_formatter a), match s with Some _ => true | None => false end)
  end.

(** [m_file_stream << text], flushed or not. *)
Definition stream_write (flush : bool) (text : list Z) (s : option Stream) : option Stream :=
  s ← s;
  let w := s_written s ++ text in
  Some (MkStream w (if flush then length w else s_flushed s)).

(** [appender->log(level, logger, event)]: the two classes.  The names of the loggers
    are those of the state. *)
Definition getName (st : LogState) (p : positive) : list Z :=
  match loggers st !! p with Some lg => l_name lg | None => [] end.

Definition appender_log (lvl : Level) (lg : Logger) (e : LogEvent) (p : positive) (st : LogState) : option LogState :=
  a ← appenders st !! p;
  if level_ge lvl (a_level a) then
    f ← match a_formatter a with Some f => Some f | None => l_formatter lg end;
    let text := formatter_format is_tty (getName st) f lvl e in
    match a_class a with
    | StdoutLogAppender => Some (cout text st)
    | FileLogAppender file s =>
        let own := match a_formatter a with Some _ => true | None => false end in
        Some (set_appenders
                (<[p := MkAppender (FileLogAppender file (stream_write own text s)) (a_level a) (a_formatter a)]>
                   (appenders st)) st)
    end
  else Some st.

Fixpoint appenders_log (lvl : Level) (lg : Logger) (e : LogEvent) (ps : list (option positive)) (st : LogState) : option LogState :=
  match ps with
  | [] => Some st
  | None :: _ => None
  | Some p :: ps => st ← appender_log lvl lg e p st; appenders_log lvl lg e ps st
  end.

(** [Logger::log]; the fuel bounds the chain of [m_root] pointers. *)
Fixpoint logger_log (fuel : nat) (self : positive) (lvl : Level) (e : LogEvent) (st : LogState) : option LogState :=
  match fuel with
  | O => None
  | S fuel =>
      lg ← loggers st !! self;
      if level_ge lvl (l_level lg) then
        match l_appenders lg with
        | [] =>
            match l_root lg with
            | None => Some st
            | Some r => logger_log fuel r lvl e (cout (str "没有appender,使用m_root" ++ endl) st)
            end
        | ps => appenders_log lvl lg e ps st
        end
      else Some st
  end.

(** [M_SYLAR_LOG_EVENT]: the level of the logger is tested, the event is filled and,
    when the wrapper is destroyed, logged by its logger at its level. *)
Definition log_event (fuel : nat) (e : LogEvent) (st : LogState) : option LogState :=
  lg ← loggers st !! m_logger e;
  if level_num (l_level lg) <=? level_num (m_level e) then logger_log fuel (m_logger e) (m_level e) e st else Some st.

(** ** Definitions of loggers *)

Record LogAppenderDefine := MkAppenderDefine {
  d_type : Z;
  d_level : Level;
  d_formatter : option LogFormatter;
  d_file : list Z;
}.

Definition isValid (d : LogAppenderDefine) : bool :=
  (d_type d =? 0) || ((d_type d =? 1) && match d_file d with [] => false | _ => true end).

Record LogDefine := MkDefine {
  ld_name : list Z;
  ld_level : Level;
  ld_formatter : option LogFormatter;
  ld_appenders : list LogAppenderDefine;
}.

(** [LogAppenderDefine::toAppender] *)
Definition toAppender (d : LogAppenderDefine) (st : LogState) : option positive * LogState :=
  let make a :=
    let a := appender_setLevel (d_level d) a in
    let a := match d_formatter d with Some f => appender_setFormatter (Some f) a | None => a end in
    let (p, st) := put_appender a st in (Some p, st) in
  if d_type d =? 0 then make newStdoutAppender
  else if d_type d =? 1 then make (newFileAppender (d_file d))
  else (None, cout (str "[log error]" ++ str "unknown appender type => LogAppenderDefine::toAppender()" ++ endl) st).

(** The loop of [LogDefine::toLogger]: the logger is not shared before it is done. *)
Fixpoint add_defined (ds : list LogAppenderDefine) (lg : Logger) (st : LogState) : Logger * LogState :=
  match ds with
  | [] => (lg, st)
  | d :: ds => let (a, st) := toAppender d st in add_defined ds (addAppender a lg) st
  end.

Definition toLogger (ld : LogDefine) (st : LogState) : positive * LogState :=
  let lg := setLevel (ld_level ld) (newLogger (ld_name ld)) in
  let lg := match ld_formatter ld with Some f => setFormatter_ptr (Some f) lg | None => lg end in
  let (lg, st) := add_defined (ld_appenders ld) lg st in
  put_logger lg st.

(** The round of the loop of [Logger::toDefine] for one appender. *)
Definition appender_define (a : LogAppender) : LogAppenderDefine :=
  match a_class a with
  | StdoutLogAppender => MkAppenderDefine 0 (a_level a) (a_formatter a) []
  | FileLogAppender file _ => MkAppenderDefine 1 (a_level a) (a_formatter a) file
  end.

(** [Logger::toDefine] *)
Definition toDefine (p : positive) (st : LogState) : option LogDefine :=
  lg ← loggers st !! p;
  ds ← mapM (fun o => q ← o; a ← appenders st !! q; Some (appender_define a)) (l_appenders lg);
  Some (MkDefine (l_name lg) (l_level lg) (l_formatter lg) ds).

(** ** [LoggerManager] *)

(** [m_loggers[lg->getName()] = lg] *)
Definition register (p : positive) (st : LogState) : LogState :=
  set_registry (sm_set (getName st p) p (m_loggers st)) st.

(** The constructor; [dir] is [getExecutableDir()]. *)
Definition newManager (dir : list Z) : LogState :=
  let st := MkState ∅ ∅ [] [] 1%positive 1%positive in
  let (stdout1, st) := put_appender newStdoutAppender st in
  let (root, st) := put_logger (addAppender (Some stdout1) (newLogger (str "root"))) st in
  let (file, st) := put_appender (appender_setLevel DEBUG (newFileAppender (dir ++ str "/build/log.txt"))) st in
  let (stdout2, st) := put_appender newStdoutAppender st in
  let (system, st) :=
    put_logger (addAppender (Some stdout2) (addAppender (Some file) (newLogger (str "system")))) st in
  let st := MkState (loggers st) (appenders st) (out st) (m_loggers st) root system in
  register system (register root st).

(** The two critical sections of [getLogger]; other threads may run between them. *)
Definition getLogger_find (name : list Z) (st : LogState) : option positive := sm_find name (m_loggers st).

Definition getLogger_create (name : list Z) (st : LogState) : positive * LogState :=
  match sm_find name (m_loggers st) with
  | Some p => (p, st)
  | None =>
      if str_eqb name (str "system") then (m_system st, cout (str "提供默认system logger" ++ endl) st)
      else
        let st := cout (str "供默认logger" ++ endl) st in
        let (p, st) := put_logger (set_root (Some (m_root st)) (newLogger name)) st in
        (p, set_registry (sm_set name p (m_loggers st)) st)
  end.

Definition getLogger (name : list Z) (st : LogState) : positive * LogState :=
  match getLogger_find name st with
  | Some p => (p, st)
  | None => getLogger_create name st
  end.

Definition addLogger (p : positive) (st : LogState) : bool * LogState :=
  match sm_find (getName st p) (m_loggers st) with
  | None => (true, set_registry (sm_insert (getName st p) p (m_loggers st)) st)
  | Some _ => (false, st)
  end.

Definition delLogger (name : list Z) (st : LogState) : Z * LogState :=
  match sm_find name (m_loggers st) with
  | None => (-1, st)
  | Some _ => (0, set_registry (sm_erase name (m_loggers st)) st)
  end.

(** [resetLoggerWithDefines], either of the two. *)
Fixpoint resetLoggerWithDefines (new : smap positive) (st : LogState) : option LogState :=
  match new with
  | [] => Some st
  | (name, p) :: new =>
      st ← match sm_find name (m_loggers st) with
           | None => Some (set_registry (sm_insert name p (m_loggers st)) st)
           | Some q => logger_assign q p st
           end;
      resetLoggerWithDefines new st
  end.

(** [toDefines]: the set is ordered by the names. *)
Definition toDefines (st : LogState) : option (smap LogDefine) :=
  ds ← mapM (fun e => toDefine e.2 st) (m_loggers st);
  Some (fold_left (fun acc d => sm_insert (ld_name d) d acc) ds []).

(** [updataLogger] *)
Fixpoint new_loggers (ds : list LogDefine) (acc : smap positive) (st : LogState) : smap positive * LogState :=
  match ds with
  | [] => (acc, st)
  | d :: ds =>
      let (p, st) := toLogger d st in
      new_loggers ds (sm_set (getName st p) p acc) st
  end.

Definition updataLogger (ds : smap LogDefine) (st : LogState) : option LogState :=
  let (new, st) := new_loggers (map snd ds) [] st in
  resetLoggerWithDefines new st.
End World.

(** ** What logging writes *)

(** Every appender pointer of a logger is an appender, it has a formatter, and its
    [m_root] has no [m_root]. *)
Definition pointer_ok (st : LogState) (o : option positive) : Prop := exists p, o = Some p /\ is_Some (appenders st !! p).

Definition root_ok (st : LogState) (r : option positive) : Prop :=
  match r with None => True | Some r => exists lr, loggers st !! r = Some lr /\ l_root lr = None end.

Definition logger_ok (st : LogState) (lg : Logger) : Prop :=
  Forall (pointer_ok st) (l_appenders lg) /\ is_Some (l_formatter lg) /\ root_ok st (l_root lg).

Definition heap_ok (st : LogState) : Prop := map_Forall (fun _ lg => logger_ok st lg) (loggers st).

(** The settings of an appender: what is left of it when its stream is dropped. *)
Definition settings (st : LogState) (p : positive) : option LogAppenderDefine := appender_define <$> appenders st !! p.

Definition written (st : LogState) (p : positive) : option (list Z) :=
  a ← appenders st !! p;
  match a_class a with FileLogAppender _ s => s_written <$> s | StdoutLogAppender => None end.

(** Two states that differ in what was written. *)
Definition same_settings (st st' : LogState) : Prop :=
  loggers st' = loggers st /\ m_loggers st' = m_loggers st /\ m_root st' = m_root st /\ m_system st' = m_system st
  /\ forall p, settings st' p = settings st p.

Section Delivery.
Context (is_tty : bool).

(** The text logger [lg] has appender [p] write for an event. *)
Definition emission (st : LogState) (lvl : Level) (lg : Logger) (e : LogEvent) (p : positive) : list Z :=
  match settings st p with
  | Some d =>
      if level_ge lvl (d_level d) then
        match (match d_formatter d with Some f => Some f | None => l_formatter lg end) with
        | Some f => formatter_format is_tty (getName st) f lvl e
        | None => []
        end
      else []
  | None => []
  end.

Definition is_stdout (st : LogState) (p : positive) : bool :=
  match settings st p with Some d => d_type d =? 0 | None => false end.

(** What goes to the standard output, and what goes to the stream of [q]. *)
Definition to_stdout (st : LogState) (lvl : Level) (lg : Logger) (e : LogEvent) (o : option positive) : list Z :=
  match o with Some p => if is_stdout st p then emission st lvl lg e p else [] | None => [] end.
Definition to_stream (st : LogState) (lvl : Level) (lg : Logger) (e : LogEvent) (q : positive) (o : option positive) : list Z :=
  if bool_decide (o = Some q) then emission st lvl lg e q else [].

(** [lg] delivered the event to the appenders [ps]. *)
Definition delivered (lvl : Level) (lg : Logger) (e : LogEvent) (ps : list (option positive)) (st st' : LogState) : Prop :=
  same_settings st st'
  /\ out st' = out st ++ (ps ≫= to_stdout st lvl lg e)
  /\ forall q w, written st q = Some w -> written st' q = Some (w ++ (ps ≫= to_stream st lvl lg e q)).

#[global] Instance same_settings_preorder : PreOrder same_settings.
Proof.
  split; [done|]. intros a b c (H1 & H2 & H3 & H4 & H5) (K1 & K2 & K3 & K4 & K5).
  repeat split; congruence.
Qed.

Lemma same_settings_getName st st' : same_settings st st' -> getName st' = getName st.
Proof. intros (H & _). unfold getName. by rewrite H. Qed.

Lemma same_settings_emission st st' lvl lg e p :
  same_settings st st' -> emission st' lvl lg e p = emission st lvl lg e p.
Proof.
  intros H. unfold emission. rewrite (same_settings_getName _ _ H).
  by rewrite (proj2 (proj2 (proj2 (proj2 H)))).
Qed.

Lemma same_settings_to_stdout st st' lvl lg e o :
  same_settings st st' -> to_stdout st' lvl lg e o = to_stdout st lvl lg e o.
Proof.
  intros H. destruct o as [p|]; [|done]. cbn. unfold is_stdout.
  rewrite (same_settings_emission st st') by done. by rewrite (proj2 (proj2 (proj2 (proj2 H)))).
Qed.

Lemma same_settings_to_stream st st' lvl lg e q o :
  same_settings st st' -> to_stream st' lvl lg e q o = to_stream st lvl lg e q o.
Proof. intros H. unfold to_stream. by rewrite (same_settings_emission st st'). Qed.

Lemma same_settings_pointer st st' o : same_settings st st' -> pointer_ok st o -> pointer_ok st' o.
Proof.
  intros (_ & _ & _ & _ & H) (p & -> & [a Ha]). exists p. split; [done|].
  specialize (H p). unfold settings in H. rewrite Ha in H. destruct (appenders st' !! p); [by eexists|done].
Qed.

Lemma emission_at st lvl lg e p a :
  appenders st !! p = Some a ->
  emission st lvl lg e p =
    if level_ge lvl (a_level a) then
      match (match a_formatter a with Some f => Some f | None => l_formatter lg end) with
      | Some f => formatter_format is_tty (getName st) f lvl e
      | None => []
      end
    else [].
Proof. intros H. unfold emission, settings. rewrite H. by destruct a as [[]]. Qed.

Lemma is_stdout_at st p a :
  appenders st !! p = Some a ->
  is_stdout st p = match a_class a with StdoutLogAppender => true | FileLogAppender _ _ => false end.
Proof. intros H. unfold is_stdout, settings. rewrite H. by destruct a as [[]]. Qed.

Lemma written_at st p a :
  appenders st !! p = Some a ->
  written st p = match a_class a with FileLogAppender _ s => s_written <$> s | StdoutLogAppender => None end.
Proof. intros H. unfold written. by rewrite H. Qed.

(** Delivering nothing. *)
Lemma delivered_nothing lvl lg e p st :
  emission st lvl lg e p = [] -> delivered lvl lg e [Some p] st st.
Proof.
  intros H. split; [done|]. cbn [mbind list_bind to_stdout]. unfold to_stream. rewrite H. split.
  - destruct (is_stdout st p); by rewrite !app_nil_r.
  - intros q w ->. case_bool_decide as E; [|by rewrite !app_nil_r]. injection E as ->. by rewrite H, !app_nil_r.
Qed.

Lemma delivered_stdout lvl lg e p st :
  is_stdout st p = true -> delivered lvl lg e [Some p] st (cout (emission st lvl lg e p) st).
Proof.
  intros H. split; [done|]. cbn [mbind list_bind to_stdout]. rewrite H. split; [by rewrite app_nil_r|].
  intros q w Hw. unfold to_stream. case_bool_decide as E; [|by rewrite !app_nil_r]. injection E as ->. exfalso.
  unfold written in Hw. unfold is_stdout, settings in H.
  destruct (appenders st !! q) as [[[|file s] al af]|]; done.
Qed.

Lemma delivered_file flush lvl lg e p st file s al af :
  appenders st !! p = Some (MkAppender (FileLogAppender file s) al af) ->
  delivered lvl lg e [Some p] st
    (set_appenders (<[p := MkAppender (FileLogAppender file (stream_write flush (emission st lvl lg e p) s)) al af]>
                      (appenders st)) st).
Proof.
  intros H. cbn [mbind list_bind to_stdout]. repeat split.
  - intros q. unfold settings. cbn [appenders set_appenders].
    destruct (decide (q = p)) as [->|Hq]; [rewrite lookup_insert_eq, H; done|by rewrite lookup_insert_ne].
  - cbn [mbind list_bind to_stdout]. rewrite (is_stdout_at _ _ _ H). cbn. by rewrite app_nil_r.
  - intros q w. cbn [mbind list_bind]. unfold written, to_stream. cbn [appenders set_appenders].
    destruct (decide (q = p)) as [->|Hq].
    + rewrite lookup_insert_eq, H, bool_decide_eq_true_2 by done. destruct s as [s|]; [|done].
      cbn. intros [= <-]. by rewrite app_nil_r.
    + rewrite lookup_insert_ne by done. rewrite bool_decide_eq_false_2 by congruence. intros ->. by rewrite !app_nil_r.
Qed.

Lemma appender_log_spec lvl lg e p st :
  is_Some (appenders st !! p) -> is_Some (l_formatter lg) ->
  exists st', appender_log is_tty lvl lg e p st = Some st' /\ delivered lvl lg e [Some p] st st'.
Proof.
  intros [a Ha] [fl Hfl]. pose proof (emission_at st lvl lg e p a Ha) as He.
  pose proof (is_stdout_at st p a Ha) as Hs.
  unfold appender_log. rewrite Ha. cbn [mbind option_bind].
  destruct a as [cl al af]. cbn [a_level a_class a_formatter] in *.
  destruct (level_ge lvl al); [|exists st; split; [done|by apply delivered_nothing]].
  assert (Hf : exists f, (match af with Some f => Some f | None => l_formatter lg end) = Some f)
    by (destruct af; rewrite ?Hfl; eauto).
  destruct Hf as [f Hf]. rewrite Hf in *. cbn [mbind option_bind]. rewrite <- He.
  destruct cl as [|file s]; eexists; (split; [done|]); [by apply delivered_stdout|by apply delivered_file].
Qed.

Lemma delivered_app lvl lg e o ps st st1 st2 :
  delivered lvl lg e [o] st st1 -> delivered lvl lg e ps st1 st2 -> delivered lvl lg e (o :: ps) st st2.
Proof.
  intros (H1 & O1 & W1) (H2 & O2 & W2). split; [by etrans|].
  split.
  - rewrite O2, O1, <- app_assoc. f_equal. cbn. rewrite app_nil_r. f_equal.
    apply list_bind_ext; [|done]. intros x. by apply same_settings_to_stdout.
  - intros q w Hw. apply W1 in Hw. apply W2 in Hw. rewrite Hw. f_equal. rewrite <- app_assoc. f_equal.
    cbn. rewrite app_nil_r. f_equal. apply list_bind_ext; [|done]. intros x. by apply same_settings_to_stream.
Qed.

Lemma appenders_log_spec lvl lg e ps : forall st,
  Forall (pointer_ok st) ps -> is_Some (l_formatter lg) ->
  exists st', appenders_log is_tty lvl lg e ps st = Some st' /\ delivered lvl lg e ps st st'.
Proof.
  induction ps as [|o ps IH]; intros st Hps Hf.
  - exists st. split; [done|]. split; [done|]. cbn. split; [by rewrite app_nil_r|]. intros q w ->. by rewrite app_nil_r.
  - apply Forall_cons in Hps as [(p & -> & Hp) Hps]. cbn [appenders_log].
    destruct (appender_log_spec lvl lg e p st Hp Hf) as (st1 & -> & H1). cbn [mbind option_bind].
    destruct (IH st1) as (st2 & -> & H2); [|done|].
    + eapply Forall_impl; [done|]. intros o. apply same_settings_pointer, H1.
    + exists st2. split; [done|]. by eapply delivered_app.
Qed.
End Delivery.

Section LoggerLog.
Context (is_tty : bool).

(** What [Logger::log] does with an event. *)
Definition log_result (lvl : Level) (lg : Logger) (e : LogEvent) (st st' : LogState) : Prop :=
  if level_ge lvl (l_level lg) then
    match l_appenders lg, l_root lg with
    | [], None => st' = st
    | [], Some r =>
        exists lr, loggers st !! r = Some lr /\
          let st1 := cout (str "没有appender,使用m_root" ++ endl) st in
          if level_ge lvl (l_level lr) then delivered is_tty lvl lr e (l_appenders lr) st1 st' else st' = st1
    | ps, _ => delivered is_tty lvl lg e ps st st'
    end
  else st' = st.

Lemma logger_log_delivers self lvl lg e st :
  heap_ok st -> loggers st !! self = Some lg ->
  exists st', logger_log is_tty 2 self lvl e st = Some st' /\ log_result lvl lg e st st'.
Proof.
  intros Hok Hs. cbn [logger_log]. rewrite Hs. cbn [mbind option_bind]. unfold log_result.
  destruct (level_ge lvl (l_level lg)); [|by eexists].
  destruct (Hok self lg Hs) as (Hps & Hf & Hr).
  destruct (l_appenders lg) as [|o ps]; [|by apply appenders_log_spec].
  destruct (l_root lg) as [r|]; [|by eexists]. destruct Hr as (lr & Hlr & Hrr).
  set (st1 := cout _ st). change (loggers st1) with (loggers st). rewrite Hlr. cbn [mbind option_bind].
  destruct (Hok r lr Hlr) as (Hpr & Hfr & _).
  destruct (level_ge lvl (l_level lr)) eqn:El; [|exists st1; split; [done|]; exists lr; by rewrite El].
  destruct (appenders_log_spec is_tty lvl lr e (l_appenders lr) st1 Hpr Hfr) as (st' & E & Hd).
  exists st'. split; [|exists lr; by rewrite El].
  destruct (l_appenders lr); [|done]. rewrite Hrr. exact E.
Qed.
End LoggerLog.

(** ** The invariant of the manager *)

Record state_ok (st : LogState) : Prop := {
  ok_heap : heap_ok st;
  ok_listed : forall n p, (n, p) ∈ m_loggers st -> exists lg, loggers st !! p = Some lg /\ l_name lg = n;
  ok_root : exists lr, loggers st !! m_root st = Some lr /\ l_root lr = None;
  ok_system : exists ls, loggers st !! m_system st = Some ls /\ l_name ls = str "system";
}.

Lemma ok_names st : state_ok st ->
  forall n p, sm_find n (m_loggers st) = Some p -> exists lg, loggers st !! p = Some lg /\ l_name lg = n.
Proof. intros Hok n p H. by apply (ok_listed _ Hok), sm_find_elem. Qed.

(** Objects stay, and a logger keeps its name and its [m_root]. *)
Definition extends (st st' : LogState) : Prop :=
  (forall p, is_Some (appenders st !! p) -> is_Some (appenders st' !! p))
  /\ (forall p lg, loggers st !! p = Some lg ->
        exists lg', loggers st' !! p = Some lg' /\ l_root lg' = l_root lg /\ l_name lg' = l_name lg).

#[global] Instance extends_preorder : PreOrder extends.
Proof.
  split; [intros st; split; eauto|]. intros a b c [A1 L1] [A2 L2]. split; [auto|].
  intros p lg H. apply L1 in H as (lg1 & H & R1 & N1). apply L2 in H as (lg2 & H & R2 & N2).
  exists lg2. split; [done|]. split; congruence.
Qed.

Lemma logger_ok_extends st st' lg : extends st st' -> logger_ok st lg -> logger_ok st' lg.
Proof.
  intros [Ha Hl] (Hps & Hf & Hr). split; [|split; [done|]].
  - eapply Forall_impl; [done|]. intros o (p & -> & Hp). exists p. auto.
  - destruct (l_root lg) as [r|]; [|done]. destruct Hr as (lr & Hlr & Hn).
    apply Hl in Hlr as (lr' & Hlr' & R & _). exists lr'. split; congruence.
Qed.

(** A step that keeps the objects and makes only good loggers keeps the invariant;
    the registry may change as long as its names are right. *)
Lemma state_ok_extends st st' :
  state_ok st -> extends st st' ->
  (forall p lg, loggers st' !! p = Some lg -> loggers st !! p = Some lg \/ logger_ok st' lg) ->
  (forall n p, (n, p) ∈ m_loggers st' ->
     (n, p) ∈ m_loggers st \/ exists lg, loggers st' !! p = Some lg /\ l_name lg = n) ->
  m_root st' = m_root st -> m_system st' = m_system st -> state_ok st'.
Proof.
  intros [Hh Hn (lr & Hr & Hrr) (ls & Hs & Hsn)] He Hl Hm Er Es. pose proof He as [_ Hel]. split.
  - intros p lg Hp. destruct (Hl p lg Hp) as [H|H]; [|done]. eapply logger_ok_extends; [done|]. by apply (Hh p).
  - intros n p Hp. destruct (Hm n p Hp) as [H|H]; [|done]. destruct (Hn n p H) as (lg & Hlg & <-).
    destruct (Hel p lg Hlg) as (lg' & ? & _ & ?). by exists lg'.
  - rewrite Er. destruct (Hel _ _ Hr) as (lr' & ? & ? & _). exists lr'. split; congruence.
  - rewrite Es. destruct (Hel _ _ Hs) as (ls' & ? & _ & ?). exists ls'. split; congruence.
Qed.

Lemma same_settings_extends st st' : same_settings st st' -> extends st st'.
Proof.
  intros (Hl & _ & _ & _ & Hs). split.
  - intros p [a Ha]. specialize (Hs p). unfold settings in Hs. rewrite Ha in Hs.
    destruct (appenders st' !! p); [by eexists|done].
  - rewrite Hl. eauto.
Qed.

Lemma same_settings_ok st st' : same_settings st st' -> state_ok st -> state_ok st'.
Proof.
  intros H Hok. pose proof H as (Hl & Hm & Hr & Hy & _).
  apply (state_ok_extends st); [done|by apply same_settings_extends|rewrite Hl; auto|rewrite Hm; auto|done|done].
Qed.

Lemma fresh_logger st : loggers st !! fresh (dom (loggers st)) = None.
Proof. apply not_elem_of_dom, is_fresh. Qed.
Lemma fresh_appender st : appenders st !! fresh (dom (appenders st)) = None.
Proof. apply not_elem_of_dom, is_fresh. Qed.

(** A new appender. *)
Lemma put_appender_extends a st : extends st (put_appender a st).2.
Proof.
  split; cbn [put_appender snd appenders set_appenders loggers]; [|eauto].
  intros p Hp. destruct (decide (p = fresh (dom (appenders st)))) as [->|Hn];
    [by rewrite lookup_insert_eq|by rewrite lookup_insert_ne].
Qed.

(** A new logger. *)
Lemma put_logger_extends lg st : extends st (put_logger lg st).2.
Proof.
  split; [auto|]. intros p lg' Hp. exists lg'. cbn [put_logger snd loggers set_loggers].
  rewrite lookup_insert_ne; [done|]. intros <-. by rewrite fresh_logger in Hp.
Qed.

(** A change of one logger that keeps its name and its [m_root]. *)
Lemma set_logger_extends p lg lg' st :
  loggers st !! p = Some lg -> l_name lg' = l_name lg -> l_root lg' = l_root lg ->
  extends st (set_loggers (<[p := lg']> (loggers st)) st).
Proof.
  intros Hp Hn Hr. split; [auto|]. cbn [loggers set_loggers]. intros q lq Hq.
  destruct (decide (q = p)) as [->|Hne]; [rewrite lookup_insert_eq|rewrite lookup_insert_ne by done; eauto].
  exists lg'. split; [done|]. split; congruence.
Qed.

Lemma set_logger_ok p lg lg' st :
  state_ok st -> loggers st !! p = Some lg -> l_name lg' = l_name lg -> l_root lg' = l_root lg ->
  logger_ok st lg' -> state_ok (set_loggers (<[p := lg']> (loggers st)) st).
Proof.
  intros Hok Hp Hn Hr Hlg. pose proof (set_logger_extends p lg lg' st Hp Hn Hr) as He.
  apply (state_ok_extends st); [done|done| |auto|done|done].
  cbn [loggers set_loggers]. intros q lq. rewrite lookup_insert_Some. intros [[<- <-]|[_ Hq]]; [|by left].
  right. by eapply logger_ok_extends.
Qed.
