(* ===== verification/LogManager.v ===== *)
(** * The logger manager: its invariant, and reconfiguration

    Theorems on [LoggerManager] of [sylar/basic/log.cc], modelled in [Logger]: a
    definition makes the logger it describes, a change of the configuration gives
    the loggers that exist their new settings in place, and no sequence of the
    operations on loggers, appenders and the manager makes an operation fail. *)

From stdpp Require Import gmap.
From S2P Require Import Prelude CppString StdMap LogFormat Logger.

(** ** Making a logger from its definition *)

(** The definition an appender made from a definition has. *)
Definition normal (d : LogAppenderDefine) : LogAppenderDefine :=
  MkAppenderDefine (d_type d) (d_level d) (d_formatter d) (if d_type d =? 0 then [] else d_file d).

(** The definition a logger made from a definition has. *)
Definition completed (ld : LogDefine) : LogDefine :=
  MkDefine (ld_name ld) (ld_level ld) (Some (default (newFormatter default_pattern) (ld_formatter ld)))
    (map normal (ld_appenders ld)).

Definition define_ok (ld : LogDefine) : Prop := Forall (fun d => isValid d = true) (ld_appenders ld).

(** Only appenders are added. *)
Definition grows (st st' : LogState) : Prop :=
  loggers st' = loggers st /\ m_loggers st' = m_loggers st /\ m_root st' = m_root st /\ m_system st' = m_system st
  /\ appenders st ⊆ appenders st'.

#[global] Instance grows_preorder : PreOrder grows.
Proof.
  split; [done|]. intros a b c (H1 & H2 & H3 & H4 & H5) (K1 & K2 & K3 & K4 & K5).
  repeat split; try congruence. by etrans.
Qed.

Lemma grows_extends st st' : grows st st' -> extends st st'.
Proof.
  intros (Hl & _ & _ & _ & Ha). split; [|rewrite Hl; eauto].
  intros p [a Hp]. exists a. by eapply lookup_weaken.
Qed.

Lemma grows_settings st st' p d : grows st st' -> settings st p = Some d -> settings st' p = Some d.
Proof.
  intros (_ & _ & _ & _ & Ha). unfold settings. destruct (appenders st !! p) as [a|] eqn:E; [|done].
  by rewrite (lookup_weaken _ _ _ _ E Ha).
Qed.

Section Manager.
Context (can_open : list Z -> bool) (is_tty : bool).

Lemma toAppender_spec d st :
  isValid d = true ->
  exists p st', toAppender can_open d st = (Some p, st') /\ grows st st' /\ settings st' p = Some (normal d).
Proof.
  intros Hv.
  assert (Hput : forall a, appender_define a = normal d ->
    exists p st', (let (p, st) := put_appender a st in (Some p, st)) = (Some p, st') /\ grows st st'
      /\ settings st' p = Some (normal d)).
  { intros a <-. do 2 eexists. split; [done|]. split.
    - repeat split. cbn [appenders set_appenders]. apply insert_subseteq, fresh_appender.
    - unfold settings. cbn [appenders set_appenders]. by rewrite lookup_insert_eq. }
  unfold toAppender. destruct (d_type d =? 0) eqn:E0.
  - apply Hput. unfold normal. rewrite E0. bool_to_prop. rewrite E0. by destruct (d_formatter d).
  - unfold isValid in Hv. rewrite E0 in Hv. cbn [orb] in Hv. apply andb_true_iff in Hv as [E1 _]. rewrite E1.
    apply Hput. unfold normal. rewrite E0. bool_to_prop. rewrite E1. by destruct (d_formatter d).
Qed.

Lemma add_defined_spec ds : forall lg st,
  Forall (fun d => isValid d = true) ds ->
  exists ps st', add_defined can_open ds lg st
      = (MkLogger (l_name lg) (l_level lg) (l_appenders lg ++ map Some ps) (l_formatter lg) (l_root lg), st')
    /\ grows st st' /\ Forall2 (fun p d => settings st' p = Some (normal d)) ps ds.
Proof.
  induction ds as [|d ds IH]; intros lg st Hv.
  - exists [], st. cbn. rewrite app_nil_r. by destruct lg.
  - apply Forall_cons in Hv as [Hd Hv]. cbn [add_defined].
    destruct (toAppender_spec d st Hd) as (p & st1 & -> & G1 & S1).
    destruct (IH (addAppender (Some p) lg) st1 Hv) as (ps & st2 & -> & G2 & S2).
    exists (p :: ps), st2. cbn [addAppender l_name l_level l_appenders l_formatter l_root map].
    split; [by rewrite <- app_assoc|]. split; [by etrans|]. constructor; [|done]. by eapply grows_settings.
Qed.

(** The logger of a definition: at a new address, otherwise only appenders are new. *)
Lemma toLogger_spec ld st :
  define_ok ld ->
  exists p st' ps,
    let lg := MkLogger (ld_name ld) (ld_level ld) (map Some ps)
                (Some (default (newFormatter default_pattern) (ld_formatter ld))) None in
    toLogger can_open ld st = (p, set_loggers (<[p := lg]> (loggers st')) st')
    /\ grows st st' /\ loggers st !! p = None
    /\ Forall2 (fun p d => settings st' p = Some (normal d)) ps (ld_appenders ld).
Proof.
  intros Hv. unfold toLogger.
  set (lg0 := match ld_formatter ld with Some _ => _ | None => _ end).
  destruct (add_defined_spec (ld_appenders ld) lg0 st Hv) as (ps & st1 & -> & G & S).
  exists (fresh (dom (loggers st1))), st1, ps. cbn zeta.
  split; [|split; [done|split; [|done]]].
  - unfold put_logger, lg0. by destruct (ld_formatter ld).
  - destruct G as (<- & _). apply fresh_logger.
Qed.

(** What [toDefine] says of a logger with these appenders. *)
Lemma toDefine_of st p n lv f r ps ds :
  loggers st !! p = Some (MkLogger n lv (map Some ps) f r) ->
  Forall2 (fun p d => settings st p = Some d) ps ds ->
  toDefine p st = Some (MkDefine n lv f ds).
Proof.
  intros Hp Hs. unfold toDefine. rewrite Hp. cbn [mbind option_bind l_appenders l_name l_level l_formatter].
  assert (E : mapM (fun o => q ← o; a ← appenders st !! q; Some (appender_define a)) (map Some ps) = Some ds).
  { apply mapM_Some, Forall2_fmap_l. eapply Forall2_impl; [exact Hs|]. intros q d Hq. cbn.
    unfold settings in Hq. by destruct (appenders st !! q). }
  by rewrite E.
Qed.

(** A definition describes the logger it makes: the definition of the new logger
    is the one it was made from, with the default formatter where it names none
    and without a file name where the appender writes to the standard output. *)
Theorem toLogger_toDefine ld st :
  define_ok ld ->
  let (p, st') := toLogger can_open ld st in toDefine p st' = Some (completed ld).
Proof.
  intros Hv. destruct (toLogger_spec ld st Hv) as (p & st' & ps & -> & _ & _ & S).
  apply (toDefine_of _ _ _ _ _ None ps); [cbn [loggers set_loggers]; by rewrite lookup_insert_eq|].
  change (settings (set_loggers _ st')) with (settings st').
  apply Forall2_fmap_r. eapply Forall2_impl; [done|]. done.
Qed.

(** ** A new configuration *)

(** Objects are added, the others and the registry stay as they are. *)
Definition adds (st st' : LogState) : Prop :=
  loggers st ⊆ loggers st' /\ appenders st ⊆ appenders st'
  /\ m_loggers st' = m_loggers st /\ m_root st' = m_root st /\ m_system st' = m_system st.

#[local] Instance adds_preorder : PreOrder adds.
Proof.
  split; [done|]. intros a b c (H1 & H2 & H3 & H4 & H5) (K1 & K2 & K3 & K4 & K5).
  repeat split; [by etrans|by etrans|congruence..].
Qed.

Lemma adds_extends st st' : adds st st' -> extends st st'.
Proof.
  intros (Hl & Ha & _). split.
  - intros p [a Hp]. exists a. by eapply lookup_weaken.
  - intros p lg Hp. exists lg. split; [by eapply lookup_weaken|done].
Qed.

Lemma adds_settings st st' p d : adds st st' -> settings st p = Some d -> settings st' p = Some d.
Proof.
  intros (_ & Ha & _). unfold settings. destruct (appenders st !! p) as [a|] eqn:E; [|done].
  by rewrite (lookup_weaken _ _ _ _ E Ha).
Qed.

(** [p] is the logger made from [d]. *)
Definition made (st : LogState) (p : positive) (d : LogDefine) : Prop :=
  exists ps,
    loggers st !! p = Some (MkLogger (ld_name d) (ld_level d) (map Some ps)
                              (Some (default (newFormatter default_pattern) (ld_formatter d))) None)
    /\ Forall2 (fun p a => settings st p = Some (normal a)) ps (ld_appenders d).

Lemma made_adds st st' p d : adds st st' -> made st p d -> made st' p d.
Proof.
  intros Ha (ps & Hp & Hs). exists ps. split; [eapply lookup_weaken; [done|apply Ha]|].
  eapply Forall2_impl; [done|]. intros q a. by apply adds_settings.
Qed.

Lemma made_ok st p d : made st p d -> exists lg, loggers st !! p = Some lg /\ logger_ok st lg /\ l_name lg = ld_name d.
Proof.
  intros (ps & Hp & Hs). eexists. split; [done|]. split; [|done]. split; [|split; [by eexists|done]].
  cbn [l_appenders]. apply Forall_fmap. clear Hp. induction Hs as [|q a ps ds Hq _ IH]; constructor; [|done].
  exists q. split; [done|]. unfold settings in Hq. destruct (appenders st !! q); [by eexists|done].
Qed.

Lemma toLogger_made d st :
  define_ok d -> exists p st', toLogger can_open d st = (p, st') /\ adds st st' /\ loggers st !! p = None /\ made st' p d
    /\ forall q lg, loggers st' !! q = Some lg -> loggers st !! q = Some lg \/ q = p.
Proof.
  intros Hd. destruct (toLogger_spec d st Hd) as (p & st1 & ps & -> & (Hl & Hm & Hr & Hs & Ha) & Hp & Hset).
  do 2 eexists. split; [done|]. split; [|split; [done|split]].
  - repeat split; try done. cbn [loggers set_loggers]. rewrite Hl. by apply insert_subseteq.
  - exists ps. cbn [loggers set_loggers]. by rewrite lookup_insert_eq.
  - cbn [loggers set_loggers]. rewrite Hl. intros q lg. rewrite lookup_insert_Some. intros [[<- _]|[_ H]]; auto.
Qed.

Lemma new_loggers_spec ds : forall acc st,
  Forall define_ok ds -> sorted acc ->
  exists new st', new_loggers can_open ds acc st = (new, st') /\ adds st st' /\ sorted new
    /\ (forall n p, sm_find n new = Some p ->
          sm_find n acc = Some p
          \/ exists d, d ∈ ds /\ ld_name d = n /\ made st' p d /\ loggers st !! p = None)
    /\ (forall n, is_Some (sm_find n acc) \/ (exists d, d ∈ ds /\ ld_name d = n) -> is_Some (sm_find n new))
    /\ (forall q lg, loggers st' !! q = Some lg -> loggers st !! q = Some lg \/ exists d, made st' q d).
Proof.
  induction ds as [|d ds IH]; intros acc st Hok Hs.
  - exists acc, st. split; [done|]. split; [done|]. split; [done|]. split; [auto|]. split; [|auto].
    intros n [H|(d & H & _)]; [done|]. by apply not_elem_of_nil in H.
  - apply Forall_cons in Hok as [Hd Hok]. cbn [new_loggers].
    destruct (toLogger_made d st Hd) as (p & st1 & -> & A1 & Hp & M1 & L1).
    assert (Hn : getName st1 p = ld_name d).
    { destruct M1 as (ps & E & _). unfold getName. by rewrite E. }
    rewrite Hn. destruct (IH (sm_set (ld_name d) p acc) st1 Hok (sorted_set _ _ _ Hs))
      as (new & st2 & -> & A2 & S2 & F2 & I2 & L2).
    exists new, st2. split; [done|]. split; [by etrans|]. split; [done|]. split; [|split].
    + intros n q Hq. destruct (F2 n q Hq) as [H|(d' & ? & ? & ? & Hnone)].
      * destruct (decide (n = ld_name d)) as [->|Hne].
        -- rewrite sm_find_set in H. injection H as <-. right. exists d. split; [left|]. split; [done|].
           split; [by eapply made_adds|done].
        -- rewrite sm_find_set_ne in H by done. by left.
      * right. exists d'. split; [by right|]. do 2 (split; [done|]).
        destruct (loggers st !! q) as [lg|] eqn:E; [|done].
        assert (Hq1 : loggers st1 !! q = Some lg) by (eapply lookup_weaken; [done|apply A1]). congruence.
    + intros n Hin. apply I2. destruct (decide (n = ld_name d)) as [->|Hne]; [left; by rewrite sm_find_set|].
      destruct Hin as [H|(d' & [-> | H]%elem_of_cons & E)]; [left; by rewrite sm_find_set_ne|done|right; eauto].
    + intros q lg Hq. destruct (L2 q lg Hq) as [H|H]; [|by right].
      destruct (L1 q lg H) as [?| ->]; [by left|]. right. exists d. by eapply made_adds.
Qed.

(** The settings of a logger other than its [m_root]. *)
Definition core (lg : Logger) : list Z * Level * list (option positive) * option LogFormatter :=
  (l_name lg, l_level lg, l_appenders lg, l_formatter lg).

Lemma logger_assign_spec q p lq lp st :
  state_ok st -> loggers st !! q = Some lq -> loggers st !! p = Some lp -> q <> p -> l_name lp = l_name lq ->
  exists st', logger_assign q p st = Some st' /\ state_ok st' /\ extends st st'
    /\ appenders st' = appenders st /\ m_loggers st' = m_loggers st
    /\ (exists lq', loggers st' !! q = Some lq' /\ core lq' = core lp)
    /\ forall r, r <> q -> loggers st' !! r = loggers st !! r.
Proof.
  intros Hok Hq Hp Hne Hn. unfold logger_assign. rewrite bool_decide_eq_false_2, Hq, Hp by done. cbn [mbind option_bind].
  eexists. split; [done|]. pose proof (ok_heap _ Hok) as Hh.
  split; [|split; [|split; [done|split; [done|split]]]].
  - apply (set_logger_ok q lq); [done|done|done|done|]. destruct (Hh _ _ Hp) as (? & ? & _), (Hh _ _ Hq) as (_ & _ & ?).
    done.
  - by apply (set_logger_extends q lq).
  - cbn [loggers set_loggers]. rewrite lookup_insert_eq. by eexists.
  - intros r Hr. cbn [loggers set_loggers]. by rewrite lookup_insert_ne.
Qed.

Lemma set_registry_extends m st : extends st (set_registry m st).
Proof. split; eauto. Qed.

Lemma register_new_spec n p lg st :
  state_ok st -> loggers st !! p = Some lg -> l_name lg = n ->
  state_ok (set_registry (sm_insert n p (m_loggers st)) st).
Proof.
  intros Hok Hp Hn. apply (state_ok_extends st); [done|apply set_registry_extends|auto| |done|done].
  cbn [m_loggers set_registry loggers]. intros n' p' [[= -> ->] | H]%sm_insert_elem; [right; eauto|by left].
Qed.

(** An entry of the new loggers that the reset can take. *)
Definition takeable (st : LogState) (e : list Z * positive) : Prop :=
  exists lg, loggers st !! e.2 = Some lg /\ l_name lg = e.1 /\ sm_find e.1 (m_loggers st) <> Some e.2.

(** The logger of name [n] has the settings of [p]: the one that was registered, or
    [p] itself when there was none. *)
Definition taken (st st' : LogState) (n : list Z) (p : positive) : Prop :=
  let q := default p (sm_find n (m_loggers st)) in
  sm_find n (m_loggers st') = Some q
  /\ exists src dst, loggers st !! p = Some src /\ loggers st' !! q = Some dst /\ core dst = core src.

(** The round of the loop for one entry. *)
Lemma reset_one n p lg st :
  state_ok st -> loggers st !! p = Some lg -> l_name lg = n -> sm_find n (m_loggers st) <> Some p ->
  exists st1,
    match sm_find n (m_loggers st) with
    | None => Some (set_registry (sm_insert n p (m_loggers st)) st)
    | Some q => logger_assign q p st
    end = Some st1 /\ state_ok st1 /\ extends st st1 /\ appenders st1 = appenders st
    /\ taken st st1 n p
    /\ (forall n', n' <> n -> sm_find n' (m_loggers st1) = sm_find n' (m_loggers st))
    /\ (forall r, sm_find n (m_loggers st) <> Some r -> loggers st1 !! r = loggers st !! r).
Proof.
  intros Hok Hp Hname Hreg. unfold taken.
  destruct (sm_find n (m_loggers st)) as [q|] eqn:Eq; cbn [default from_option id].
  - destruct (ok_names _ Hok n q Eq) as (lq & Hq & Hqn).
    destruct (logger_assign_spec q p lq lg st) as (st1 & E & Hok1 & He & Ha & Hm & (lq' & Hl & Hc) & Hrest);
      [done|done|done|congruence|congruence|].
    exists st1. do 4 (split; [done|]). split; [|split].
    + rewrite Hm, Eq. split; [done|]. by exists lg, lq'.
    + intros n' _. by rewrite Hm.
    + intros r Hr. apply Hrest. congruence.
  - eexists. split; [done|]. split; [by eapply register_new_spec|]. split; [apply set_registry_extends|].
    split; [done|]. split; [|split; [|done]].
    + cbn [m_loggers set_registry loggers]. rewrite sm_find_insert, Eq. split; [done|]. by exists lg, lg.
    + intros n' Hne. cbn [m_loggers set_registry]. by apply sm_find_insert_ne.
Qed.

Lemma reset_spec new : forall st,
  state_ok st -> NoDup (map fst new) -> Forall (takeable st) new ->
  exists st', resetLoggerWithDefines new st = Some st' /\ state_ok st' /\ extends st st' /\ appenders st' = appenders st
    /\ (forall n p, (n, p) ∈ new -> taken st st' n p)
    /\ (forall n, n ∉ map fst new -> sm_find n (m_loggers st') = sm_find n (m_loggers st))
    /\ (forall r lg, loggers st !! r = Some lg -> (forall n, n ∈ map fst new -> sm_find n (m_loggers st) <> Some r) ->
          loggers st' !! r = Some lg).
Proof.
  induction new as [|[n p] new IH]; intros st Hok Hnd Ht.
  - exists st. do 4 (split; [done|]). split; [|auto]. intros n p H. by apply not_elem_of_nil in H.
  - apply NoDup_cons in Hnd as [Hn Hnd]. apply Forall_cons in Ht as [(lg & Hp & Hname & Hreg) Ht].
    cbn [fst snd] in *. cbn [resetLoggerWithDefines].
    destruct (reset_one n p lg st Hok Hp Hname Hreg)
      as (st1 & -> & Hok1 & He1 & Ha1 & Ht1 & Hm1 & Hl1). cbn [mbind option_bind].
    (* the sources of the other entries are as before *)
    assert (Hsrc : forall n' p', (n', p') ∈ new -> n' <> n /\ loggers st1 !! p' = loggers st !! p' /\ takeable st1 (n', p')).
    { intros n' p' Hin. assert (n' <> n) as Hne.
      { intros ->. apply Hn. apply list_elem_of_fmap. by exists (n, p'). }
      rewrite Forall_forall in Ht. destruct (Ht _ Hin) as (lg' & Hp' & Hn' & Hr'). cbn [fst snd] in *.
      assert (E : loggers st1 !! p' = loggers st !! p').
      { apply Hl1. intros Hq. destruct (ok_names _ Hok _ _ Hq) as (lq & Hq2 & Hqn). congruence. }
      split; [done|]. split; [done|]. exists lg'. cbn [fst snd]. rewrite E, Hm1 by done. done. }
    destruct (IH st1 Hok1 Hnd) as (st2 & -> & Hok2 & He2 & Ha2 & Ht2 & Hm2 & Hl2).
    { apply Forall_forall. intros [n' p'] Hin. by apply Hsrc. }
    exists st2. split; [done|]. split; [done|]. split; [by etrans|]. split; [congruence|].
    split; [|split].
    + intros n' p' [[= -> ->] | Hin]%elem_of_cons.
      * destruct Ht1 as (F1 & src & dst & Hs1 & Hd1 & Hc). split; [by rewrite Hm2|]. exists src, dst. split; [done|].
        split; [|done]. apply Hl2; [done|]. intros n2 Hn2 E.
        destruct (ok_names _ Hok1 _ _ E) as (l1 & El1 & Nl1), (ok_names _ Hok1 _ _ F1) as (l2 & El2 & Nl2).
        apply Hn. fold (map (@fst (list Z) positive) new). replace n with n2 by congruence. exact Hn2.
      * destruct (Hsrc n' p' Hin) as (Hne & Esrc & _). destruct (Ht2 n' p' Hin) as (F2 & src & dst & Hs2 & Hd2 & Hc).
        unfold taken. rewrite Hm1 in F2, Hd2 by done. split; [done|]. exists src, dst. by rewrite <- Esrc.
    + intros n' Hin. cbn [map fst] in Hin. apply not_elem_of_cons in Hin as [Hne Hin]. by rewrite Hm2, Hm1.
    + intros r lr Hr Hno. apply Hl2.
      * rewrite Hl1; [done|]. apply Hno. left.
      * intros n' Hn'. assert (n' <> n) by (by intros ->). rewrite Hm1 by done. apply Hno. by right.
Qed.

(** A set of definitions, by name. *)
Definition defines_ok (ds : smap LogDefine) : Prop :=
  sorted ds /\ Forall (fun e => ld_name e.2 = e.1 /\ define_ok e.2) ds.

Lemma defines_find ds d : defines_ok ds -> d ∈ map snd ds -> sm_find (ld_name d) ds = Some d.
Proof.
  intros [Hs Hall] ([n d'] & -> & Hin)%list_elem_of_fmap. rewrite Forall_forall in Hall.
  destruct (Hall _ Hin) as [E _]. cbn [fst snd] in *. rewrite E. by apply sorted_find.
Qed.

(** The new loggers are made and can be taken. *)
Lemma new_loggers_ready ds st :
  state_ok st -> defines_ok ds ->
  exists new st1, new_loggers can_open (map snd ds) [] st = (new, st1) /\ adds st st1 /\ state_ok st1
    /\ NoDup (map fst new) /\ Forall (takeable st1) new
    /\ (forall n p, (n, p) ∈ new -> exists d, sm_find n ds = Some d /\ made st1 p d)
    /\ (forall n d, sm_find n ds = Some d -> exists p, (n, p) ∈ new).
Proof.
  intros Hok Hds. pose proof Hds as [_ Hall]. rewrite Forall_forall in Hall.
  destruct (new_loggers_spec (map snd ds) [] st) as (new & st1 & E & A & S & F & I & L); [|apply sorted_nil|].
  { apply Forall_fmap, Forall_forall. intros e He. by apply Hall. }
  assert (Hok1 : state_ok st1).
  { apply (state_ok_extends st); [done|by apply adds_extends| | |apply A|apply A].
    - intros p lg Hp. destruct (L p lg Hp) as [H|(d & Hd)]; [by left|right].
      destruct (made_ok _ _ _ Hd) as (lg' & Hlg' & ? & _). congruence.
    - destruct A as (_ & _ & -> & _). auto. }
  assert (Hmade : forall n p, (n, p) ∈ new -> exists d, sm_find n ds = Some d /\ made st1 p d /\ loggers st !! p = None).
  { intros n p Hin. destruct (F n p (sorted_find _ _ _ S Hin)) as [H|(d & Hd & <- & Hm & Hn)]; [done|].
    exists d. split; [by apply defines_find|done]. }
  exists new, st1. split; [done|]. split; [done|]. split; [done|]. split; [by apply sorted_NoDup|].
  split; [|split].
  - apply Forall_forall. intros [n p] Hin. destruct (Hmade n p Hin) as (d & Hd & Hm & Hn).
    destruct (made_ok _ _ _ Hm) as (lg & Hlg & _ & Hname). exists lg. cbn [fst snd].
    split; [done|]. split; [apply sm_find_elem, Hall in Hd as [E1 _]; rewrite Hname; exact E1|].
    destruct A as (_ & _ & -> & _). intros Hr. destruct (ok_names _ Hok _ _ Hr) as (l' & ? & _). congruence.
  - intros n p Hin. destruct (Hmade n p Hin) as (d & ? & ? & _). eauto.
  - intros n d Hd. apply sm_find_elem in Hd. destruct (Hall _ Hd) as [Hn _]. cbn [fst snd] in Hn.
    destruct (I n) as [p Hp]; [right; exists d; split; [apply list_elem_of_fmap; by exists (n, d)|done]|].
    exists p. by apply sm_find_elem.
Qed.

Lemma toDefine_made st st' p q d src dst :
  made st p d -> loggers st !! p = Some src -> loggers st' !! q = Some dst -> core dst = core src ->
  appenders st' = appenders st -> toDefine q st' = Some (completed d).
Proof.
  intros (ps & Hp & Hs) Hsrc Hdst Hc Ha. rewrite Hp in Hsrc. injection Hsrc as <-.
  destruct dst as [n lv aps f r]. unfold core in Hc. cbn in Hc. injection Hc as -> -> -> ->.
  apply (toDefine_of _ _ _ _ _ r ps); [done|]. unfold settings. rewrite Ha.
  apply Forall2_fmap_r. eapply Forall2_impl; [exact Hs|]. done.
Qed.

Lemma toDefine_kept st st' r lg d :
  loggers st !! r = Some lg -> loggers st' !! r = Some lg -> appenders st ⊆ appenders st' ->
  toDefine r st = Some d -> toDefine r st' = Some d.
Proof.
  intros H1 H2 Ha. unfold toDefine. rewrite H1, H2. cbn [mbind option_bind].
  destruct (mapM _ (l_appenders lg)) as [ds|] eqn:E; [|done]. cbn [mbind option_bind]. intros <-.
  apply mapM_Some in E. erewrite (proj2 (mapM_Some _ _ _)); [done|].
  eapply Forall2_impl; [exact E|]. intros [q|] a; [|done]. cbn.
  destruct (appenders st !! q) as [x|] eqn:Eq; [|done]. by rewrite (lookup_weaken _ _ _ _ Eq Ha).
Qed.

Lemma updataLogger_spec ds st :
  state_ok st -> defines_ok ds ->
  exists st', updataLogger can_open ds st = Some st' /\ state_ok st' /\ extends st st'
    /\ (forall n d, sm_find n ds = Some d ->
          exists q, sm_find n (m_loggers st') = Some q /\ (forall p, sm_find n (m_loggers st) = Some p -> q = p)
            /\ toDefine q st' = Some (completed d))
    /\ (forall n, sm_find n ds = None ->
          sm_find n (m_loggers st') = sm_find n (m_loggers st)
          /\ forall r d, sm_find n (m_loggers st) = Some r -> toDefine r st = Some d -> toDefine r st' = Some d).
Proof.
  intros Hok Hds. unfold updataLogger.
  destruct (new_loggers_ready ds st Hok Hds) as (new & st1 & -> & A & Hok1 & Hnd & Ht & Hnew & Hall).
  destruct (reset_spec new st1 Hok1 Hnd Ht) as (st2 & -> & Hok2 & He2 & Ha2 & Htk & Hm & Hl).
  pose proof A as (Hls & Has & Hreg & _). rewrite Hreg in Hm.
  assert (Hfst : forall n, n ∈ map fst new -> exists p, (n, p) ∈ new).
  { intros n ([n' p] & -> & Hin)%list_elem_of_fmap. by exists p. }
  exists st2. split; [done|]. split; [done|]. split; [etrans; [by apply adds_extends|done]|]. split.
  - intros n d Hd. destruct (Hall n d Hd) as (p & Hin). destruct (Hnew n p Hin) as (d' & Hd' & Hmd).
    assert (d' = d) as -> by congruence. destruct (Htk n p Hin) as (Hq & src & dst & Hsrc & Hdst & Hc).
    rewrite Hreg in Hq, Hdst. eexists. split; [exact Hq|]. split; [by intros p' ->|].
    by eapply toDefine_made.
  - intros n Hn. assert (Hnot : n ∉ map fst new).
    { intros (p & Hin)%Hfst. destruct (Hnew n p Hin) as (d & Hd & _). congruence. }
    split; [by apply Hm|]. intros r d Hr Hd. destruct (ok_names _ Hok _ _ Hr) as (lg & Hlg & Hname).
    eapply toDefine_kept; [exact Hlg| |by rewrite Ha2|done]. apply Hl; [by eapply lookup_weaken|].
    rewrite Hreg. intros n' Hn' Hr'. destruct (ok_names _ Hok _ _ Hr') as (lg' & ? & ?).
    apply Hnot. replace n with n' by congruence. exact Hn'.
Qed.

(** ** The operations of a program on its loggers *)

Definition on_appender (p : positive) (f : LogAppender -> LogAppender) (st : LogState) : option LogState :=
  a ← appenders st !! p; Some (set_appenders (<[p := f a]> (appenders st)) st).

(** Whether a thread that has a [std::shared_mutex] shared obtains it shared again:
    the language leaves it undefined, and [toDefine] does so. *)
Context (relock : bool).

(** A call of the logging library.  [GetLogger] is the second critical section of
    [getLogger], the one that changes the manager.  A pointer that is given away may be null. *)
Inductive log_op :=
  | GetLogger (name : list Z)
  | AddLogger (p : positive)
  | DelLogger (name : list Z)
  | Update (ds : smap LogDefine)
  | MakeLogger (name : list Z)
  | MakeStdoutAppender
  | MakeFileAppender (file : list Z)
  | AddAppender (p : positive) (a : option positive)
  | DelAppender (p : positive) (a : option positive)
  | ClearAppenders (p : positive)
  | SetLevel (p : positive) (v : Level)
  | SetPattern (p : positive) (pattern : list Z)
  | SetFormatter (p : positive) (f : option LogFormatter)
  | AppenderSetLevel (a : positive) (v : Level)
  | AppenderSetFormatter (a : positive) (f : option LogFormatter)
  | Reopen (a : positive)
  | ToDefine (p : positive)
  | ToDefines
  | LogIt (e : LogEvent).

(** [logger->toDefine()]: [getLevel] and [getFormatter] ask for the lock it holds. *)
Definition call_toDefine (p : positive) (st : LogState) : option LogDefine := if relock then toDefine p st else None.

Definition exec (o : log_op) (st : LogState) : option LogState :=
  match o with
  | GetLogger name => Some (getLogger_create name st).2
  | AddLogger p => _ ← loggers st !! p; Some (addLogger p st).2
  | DelLogger name => Some (delLogger name st).2
  | Update ds => updataLogger can_open ds st
  | MakeLogger name => Some (put_logger (newLogger name) st).2
  | MakeStdoutAppender => Some (put_appender newStdoutAppender st).2
  | MakeFileAppender file => Some (put_appender (newFileAppender can_open file) st).2
  | AddAppender p a => on_logger p (addAppender a) st
  | DelAppender p a => on_logger p (delAppender a) st
  | ClearAppenders p => on_logger p clearAppenders st
  | SetLevel p v => on_logger p (setLevel v) st
  | SetPattern p pattern => setFormatter pattern p st
  | SetFormatter p f => on_logger p (setFormatter_ptr f) st
  | AppenderSetLevel a v => on_appender a (appender_setLevel v) st
  | AppenderSetFormatter a f => on_appender a (appender_setFormatter f) st
  | Reopen a => on_appender a (fun x => (reopen can_open x).1) st
  | ToDefine p => _ ← call_toDefine p st; Some st
  | ToDefines => _ ← mapM (fun e => call_toDefine e.2 st) (m_loggers st); Some st
  | LogIt e => log_event is_tty 2 e st
  end.

(** The calls that do not return: those through a pointer to no object, and
    [toDefine] where the lock is not obtained twice. *)
Definition fails (st : LogState) (o : log_op) : Prop :=
  match o with
  | GetLogger _ | DelLogger _ | MakeLogger _ | MakeStdoutAppender | MakeFileAppender _ | Update _ => False
  | AddLogger p | AddAppender p _ | DelAppender p _ | ClearAppenders p | SetLevel p _ | SetPattern p _
  | SetFormatter p _ => loggers st !! p = None
  | AppenderSetLevel a _ | AppenderSetFormatter a _ | Reopen a => appenders st !! a = None
  | ToDefine p => relock = false \/ loggers st !! p = None
  | ToDefines => relock = false /\ m_loggers st <> []
  | LogIt e => loggers st !! m_logger e = None
  end.

(** The calls that give no logger a null appender or formatter, and no definition
    with an appender of an unknown type or without its file name to the manager. *)
Definition harmless (st : LogState) (o : log_op) : Prop :=
  match o with
  | AddAppender _ a => pointer_ok st a
  | SetFormatter _ f => is_Some f
  | Update ds => defines_ok ds
  | _ => True
  end.

#[global] Instance fails_dec st o : Decision (fails st o).
Proof. destruct o; apply _. Defined.

(** Changing a logger so that it stays good. *)
Lemma on_logger_ok p f st :
  state_ok st -> is_Some (loggers st !! p) ->
  (forall lg, l_name (f lg) = l_name lg /\ l_root (f lg) = l_root lg) ->
  (forall lg, logger_ok st lg -> logger_ok st (f lg)) ->
  exists st', on_logger p f st = Some st' /\ state_ok st' /\ extends st st'.
Proof.
  intros Hok [lg Hp] Hk Hf. destruct (Hk lg). unfold on_logger. rewrite Hp. cbn [mbind option_bind].
  eexists. split; [done|]. split; [|by eapply set_logger_extends].
  eapply set_logger_ok; [done|done|done|done|]. apply Hf. by apply (ok_heap _ Hok p).
Qed.

Lemma on_appender_ok p f st :
  state_ok st -> is_Some (appenders st !! p) ->
  exists st', on_appender p f st = Some st' /\ state_ok st' /\ extends st st'.
Proof.
  intros Hok [a Hp]. unfold on_appender. rewrite Hp. cbn [mbind option_bind]. eexists. split; [done|].
  assert (He : extends st (set_appenders (<[p := f a]> (appenders st)) st)).
  { split; [|cbn [loggers set_appenders]; eauto]. cbn [appenders set_appenders]. intros q Hq.
    destruct (decide (q = p)) as [->|Hne]; [by rewrite lookup_insert_eq|by rewrite lookup_insert_ne]. }
  split; [|done]. by apply (state_ok_extends st); auto.
Qed.

Lemma put_logger_ok lg st :
  state_ok st -> logger_ok st lg -> state_ok (put_logger lg st).2 /\ extends st (put_logger lg st).2.
Proof.
  intros Hok Hlg. pose proof (put_logger_extends lg st) as He. split; [|done].
  apply (state_ok_extends st); [done|done| |by left|done|done].
  cbn [put_logger snd loggers set_loggers]. intros p lp. rewrite lookup_insert_Some.
  intros [[<- <-]|[_ H]]; [right|by left]. by eapply logger_ok_extends.
Qed.

Lemma put_appender_ok a st : state_ok st -> state_ok (put_appender a st).2 /\ extends st (put_appender a st).2.
Proof.
  intros Hok. pose proof (put_appender_extends a st) as He. split; [|done].
  apply (state_ok_extends st); [done|done|by left|by left|done|done].
Qed.

Lemma newLogger_ok st name r : root_ok st r -> logger_ok st (set_root r (newLogger name)).
Proof. intros Hr. split; [constructor|]. split; [by eexists|done]. Qed.

Lemma setFormatter_ptr_ok st f lg : logger_ok st lg -> logger_ok st (setFormatter_ptr (Some f) lg).
Proof. intros (Hps & _ & Hr). split; [done|]. split; [by exists f|done]. Qed.

Lemma cout_extends s st : extends st (cout s st).
Proof. split; eauto. Qed.

Lemma cout_ok s st : state_ok st -> state_ok (cout s st).
Proof. by apply same_settings_ok. Qed.

Lemma getLogger_create_ok name st :
  state_ok st -> let '(p, st') := getLogger_create name st in
  state_ok st' /\ extends st st' /\ exists lg, loggers st' !! p = Some lg /\ l_name lg = name.
Proof.
  intros Hok. unfold getLogger_create. destruct (sm_find name (m_loggers st)) as [p|] eqn:Ef.
  { split; [done|]. split; [done|]. by apply (ok_names _ Hok). }
  destruct (str_eqb name (str "system")) eqn:Es.
  { apply str_eqb_spec in Es as ->. split; [by apply cout_ok|]. split; [apply cout_extends|]. apply (ok_system _ Hok). }
  set (st0 := cout _ st). set (lg := set_root _ _).
  destruct (put_logger_ok lg st0) as [Hok1 He1]; [by apply cout_ok|apply newLogger_ok; exact (ok_root _ Hok)|].
  unfold put_logger in *. cbn [snd] in *. set (p := fresh _) in *. set (st1 := set_loggers _ st0) in *.
  assert (Hp : loggers st1 !! p = Some lg) by apply lookup_insert_eq.
  split; [|split; [etrans; [apply cout_extends|etrans; [exact He1|apply set_registry_extends]]|by exists lg]].
  apply (state_ok_extends st1); [done|apply set_registry_extends|by left| |done|done].
  cbn [m_loggers set_registry loggers]. intros n q [[= -> ->] | H]%sm_set_elem; [right; by exists lg|by left].
Qed.

Lemma delLogger_ok name st :
  state_ok st -> state_ok (set_registry (sm_erase name (m_loggers st)) st)
    /\ extends st (set_registry (sm_erase name (m_loggers st)) st).
Proof.
  intros Hok. split; [|apply set_registry_extends].
  apply (state_ok_extends st); [done|apply set_registry_extends|by left| |done|done].
  cbn [m_loggers set_registry]. intros n q Hin. apply list_elem_of_filter in Hin as [_ Hin]. by left.
Qed.

Lemma log_event_ok e st :
  state_ok st -> is_Some (loggers st !! m_logger e) ->
  exists st', log_event is_tty 2 e st = Some st' /\ same_settings st st'.
Proof.
  intros Hok [lg Hlg]. unfold log_event. rewrite Hlg. cbn [mbind option_bind].
  case_match; [|by exists st].
  destruct (logger_log_delivers is_tty (m_logger e) (m_level e) lg e st (ok_heap _ Hok) Hlg) as (st' & E & Hr).
  exists st'. split; [exact E|]. unfold log_result in Hr. destruct (level_ge _ _); [|by subst].
  destruct (l_appenders lg); [|apply Hr]. destruct (l_root lg); [|by subst].
  destruct Hr as (lr & _ & Hr). destruct (level_ge _ _); [|by subst]. destruct Hr as [Hr _].
  etrans; [|exact Hr]. done.
Qed.

(** Configurations that are not valid: the loggers are made all the same, each at an
    address of its own, and taken over. *)
Lemma toAppender_grows d st : grows st (toAppender can_open d st).2.
Proof.
  assert (Hput : forall a, grows st (let (p, st) := put_appender a st in (Some p, st)).2).
  { intros a. cbn [put_appender snd]. repeat (split; [done|]). apply insert_subseteq, fresh_appender. }
  unfold toAppender. destruct (d_type d =? 0); [apply Hput|]. by destruct (d_type d =? 1); [apply Hput|].
Qed.

Lemma add_defined_grows ds : forall lg st,
  grows st (add_defined can_open ds lg st).2 /\ l_name (add_defined can_open ds lg st).1 = l_name lg.
Proof.
  induction ds as [|d ds IH]; intros lg st; [done|]. cbn [add_defined].
  pose proof (toAppender_grows d st) as G. destruct (toAppender can_open d st) as [a st1]. cbn [snd] in G.
  destruct (IH (addAppender a lg) st1) as [H1 H2]. split; [by etrans|done].
Qed.

Lemma new_loggers_total ds : forall acc st new st',
  new_loggers can_open ds acc st = (new, st') -> sorted acc ->
  sorted new /\ loggers st ⊆ loggers st' /\ m_loggers st' = m_loggers st
  /\ forall n p, sm_find n new = Some p ->
       sm_find n acc = Some p \/ is_Some (loggers st' !! p) /\ loggers st !! p = None.
Proof.
  induction ds as [|d ds IH]; intros acc st new st'; cbn [new_loggers].
  { intros [= <- <-] Hs. repeat (split; [done|]). auto. }
  unfold toLogger. set (lg0 := match ld_formatter d with Some _ => _ | None => _ end).
  destruct (add_defined_grows (ld_appenders d) lg0 st) as [(Hl & Hm & _) _].
  destruct (add_defined can_open (ld_appenders d) lg0 st) as [lg st0]. cbn [snd put_logger] in *.
  set (p := fresh _). set (st1 := set_loggers _ st0). intros E Hs.
  destruct (IH _ _ _ _ E (sorted_set _ _ _ Hs)) as (Hs' & Hsub & Hm' & Hf).
  assert (Hp : loggers st !! p = None) by (rewrite <- Hl; apply fresh_logger).
  assert (Hsub1 : loggers st ⊆ loggers st1) by (cbn; rewrite <- Hl in *; by apply insert_subseteq).
  split; [done|]. split; [by etrans|]. split; [by rewrite Hm'|]. intros n q Hq.
  assert (Hsome : is_Some (loggers st' !! p)).
  { exists lg. eapply lookup_weaken; [apply lookup_insert_eq|exact Hsub]. }
  destruct (Hf n q Hq) as [H|[H1 H2]].
  - destruct (decide (n = getName st1 p)) as [->|Hne].
    + rewrite sm_find_set in H. injection H as <-. by right.
    + rewrite sm_find_set_ne in H by done. by left.
  - right. split; [done|]. apply eq_None_not_Some. intros [x Hx].
    by rewrite (lookup_weaken _ _ _ _ Hx Hsub1) in H2.
Qed.

Lemma reset_total new : forall st,
  (forall n q, sm_find n (m_loggers st) = Some q -> is_Some (loggers st !! q)) ->
  NoDup (map fst new) ->
  Forall (fun e => is_Some (loggers st !! e.2) /\ sm_find e.1 (m_loggers st) <> Some e.2) new ->
  is_Some (resetLoggerWithDefines new st).
Proof.
  induction new as [|[n p] new IH]; intros st Hreg Hnd Hall; [by eexists|].
  apply NoDup_cons in Hnd as [Hn Hnd]. apply Forall_cons in Hall as [[[lp Hp] Hne] Hall]. cbn [fst snd] in *.
  assert (Hkey : forall e, e ∈ new -> e.1 <> n).
  { intros e He <-. apply Hn. apply list_elem_of_fmap. by exists e. }
  cbn [resetLoggerWithDefines]. destruct (sm_find n (m_loggers st)) as [q|] eqn:Eq.
  - destruct (Hreg n q Eq) as [lq Hq]. unfold logger_assign. rewrite bool_decide_false by congruence.
    rewrite Hq, Hp. cbn [mbind option_bind].
    assert (Hk : forall r, is_Some (loggers st !! r) -> is_Some (<[q := MkLogger (l_name lp) (l_level lp)
      (l_appenders lp) (l_formatter lp) (l_root lq)]> (loggers st) !! r)).
    { intros r Hr. destruct (decide (r = q)) as [->|Hrq]; [by rewrite lookup_insert_eq|by rewrite lookup_insert_ne]. }
    apply IH; [|done|]; cbn [loggers m_loggers set_loggers]; [eauto|].
    eapply Forall_impl; [exact Hall|]. intros e [H1 H2]. auto.
  - cbn [mbind option_bind]. apply IH; [|done|]; cbn [loggers m_loggers set_registry].
    + intros n' q'. destruct (decide (n' = n)) as [->|Hn'].
      * rewrite sm_find_insert, Eq. intros [= <-]. by eexists.
      * rewrite sm_find_insert_ne by done. apply Hreg.
    + rewrite Forall_forall in *. intros e He. rewrite sm_find_insert_ne by (by apply Hkey). auto.
Qed.

Lemma updataLogger_total ds st : state_ok st -> is_Some (updataLogger can_open ds st).
Proof.
  intros Hok. unfold updataLogger. destruct (new_loggers can_open (map snd ds) [] st) as [new st1] eqn:E.
  destruct (new_loggers_total _ _ _ _ _ E sorted_nil) as (Hs & Hsub & Hm & Hf). apply reset_total.
  - rewrite Hm. intros n q Hq. destruct (ok_names _ Hok _ _ Hq) as (lg & Hlg & _).
    exists lg. by eapply lookup_weaken.
  - by apply sorted_NoDup.
  - apply Forall_forall. intros [n p] Hin. destruct (Hf n p (sorted_find _ _ _ Hs Hin)) as [H|[H1 H2]]; [done|].
    cbn [fst snd]. split; [done|]. rewrite Hm. intros Hq.
    destruct (ok_names _ Hok _ _ Hq) as (lg & Hlg & _). congruence.
Qed.

Lemma toDefine_total p st : state_ok st -> is_Some (loggers st !! p) -> is_Some (toDefine p st).
Proof.
  intros Hok [lg Hp]. unfold toDefine. rewrite Hp. cbn [mbind option_bind].
  destruct (ok_heap _ Hok p lg Hp) as (Hps & _). clear Hp.
  assert (exists ds, mapM (fun o => q ← o; a ← appenders st !! q; Some (appender_define a)) (l_appenders lg) = Some ds)
    as [ds ->]; [|by eexists].
  induction Hps as [|o ps (q & -> & [a Ha]) _ [ds IH]]; [by exists []|].
  exists (appender_define a :: ds). cbn. rewrite Ha. cbn [mbind option_bind]. by rewrite IH.
Qed.

Lemma toDefines_total st : state_ok st -> is_Some (mapM (fun e => toDefine e.2 st) (m_loggers st)).
Proof.
  intros Hok. assert (H : Forall (fun e => is_Some (toDefine e.2 st)) (m_loggers st)); [|by apply mapM_is_Some].
  apply Forall_forall. intros [n p] Hin. apply toDefine_total; [done|]. cbn [snd].
  destruct (ok_listed _ Hok _ _ Hin) as (lg & ? & _). by exists lg.
Qed.

Lemma on_logger_total p f st : is_Some (loggers st !! p) -> is_Some (on_logger p f st).
Proof. intros [lg Hp]. unfold on_logger. rewrite Hp. by eexists. Qed.

Lemma on_appender_total p f st : is_Some (appenders st !! p) -> is_Some (on_appender p f st).
Proof. intros [a Hp]. unfold on_appender. rewrite Hp. by eexists. Qed.

(** A call returns unless it fails. *)
Lemma exec_returns o st : state_ok st -> ~ fails st o -> is_Some (exec o st).
Proof.
  intros Hok Ho. assert (Hsome : forall {A} (x : option A), x <> None -> is_Some x) by (intros A x H; by apply not_eq_None_Some).
  destruct o; cbn [exec fails] in *;
    try (by eexists); try (apply on_logger_total; auto); try (apply on_appender_total; auto).
  - apply Hsome in Ho as [lg ->]. by eexists.
  - by apply updataLogger_total.
  - apply Hsome in Ho as [lg Hlg]. unfold setFormatter. rewrite Hlg. cbn [mbind option_bind].
    destruct (ok_heap _ Hok p lg Hlg) as (_ & [f ->] & _). cbn [mbind option_bind].
    destruct (LogFormat.m_error f); [by eexists|]. apply on_logger_total. by eexists.
  - unfold call_toDefine. destruct relock; [|tauto]. apply Decidable.not_or in Ho as [_ Ho].
    destruct (toDefine_total p st Hok (Hsome _ _ Ho)) as [d ->]. by eexists.
  - unfold call_toDefine. destruct relock.
    + destruct (toDefines_total st Hok) as [ds ->]. by eexists.
    + destruct (m_loggers st); [by eexists|]. by destruct Ho.
  - destruct (log_event_ok e st Hok) as (st' & -> & _); [auto|by eexists].
Qed.

Lemma exec_fails o st : fails st o -> exec o st = None.
Proof.
  assert (Hl : forall p f, loggers st !! p = None -> on_logger p f st = None) by (intros p f H; unfold on_logger; by rewrite H).
  assert (Ha : forall p f, appenders st !! p = None -> on_appender p f st = None)
    by (intros p f H; unfold on_appender; by rewrite H).
  destruct o; cbn [exec fails]; try done; auto.
  - by intros ->.
  - intros H. unfold setFormatter. by rewrite H.
  - unfold call_toDefine. destruct relock; intros [H|H]; try done. unfold toDefine. by rewrite H.
  - unfold call_toDefine. intros [-> Hne]. by destruct (m_loggers st).
  - intros H. unfold log_event. by rewrite H.
Qed.

Lemma exec_fails_iff o st : state_ok st -> exec o st = None <-> fails st o.
Proof.
  intros Hok. split; [|apply exec_fails]. intros E.
  destruct (decide (fails st o)) as [H|H]; [done|]. destruct (exec_returns o st Hok H) as [st' E']. congruence.
Qed.

(** A harmless call that returns keeps the state good. *)
Lemma exec_ok o st st' :
  state_ok st -> harmless st o -> exec o st = Some st' -> state_ok st' /\ extends st st'.
Proof.
  intros Hok Ho E.
  assert (Hlg : forall p f, on_logger p f st = Some st' ->
    (forall lg, l_name (f lg) = l_name lg /\ l_root (f lg) = l_root lg) ->
    (forall lg, logger_ok st lg -> logger_ok st (f lg)) -> state_ok st' /\ extends st st').
  { intros p f Ep H1 H2. destruct (loggers st !! p) as [lg|] eqn:Hp; [|unfold on_logger in Ep; by rewrite Hp in Ep].
    destruct (on_logger_ok p f st Hok (ex_intro _ lg Hp) H1 H2) as (st2 & E2 & ?). congruence. }
  assert (Hap : forall p f, on_appender p f st = Some st' -> state_ok st' /\ extends st st').
  { intros p f Ep. destruct (appenders st !! p) as [a|] eqn:Hp; [|unfold on_appender in Ep; by rewrite Hp in Ep].
    destruct (on_appender_ok p f st Hok (ex_intro _ a Hp)) as (st2 & E2 & ?). congruence. }
  destruct o; cbn [exec harmless] in *; eauto.
  - pose proof (getLogger_create_ok name st Hok) as H. destruct (getLogger_create name st) as [p s].
    injection E as <-. by destruct H as (? & ? & _).
  - destruct (loggers st !! p) as [lg|] eqn:Hp; [|done]. injection E as <-. unfold addLogger.
    destruct (sm_find _ _); [done|]. split; [|apply set_registry_extends]. eapply register_new_spec; [done|done|].
    unfold getName. by rewrite Hp.
  - injection E as <-. unfold delLogger. destruct (sm_find _ _); [|done]. by apply delLogger_ok.
  - destruct (updataLogger_spec ds st Hok Ho) as (st2 & E2 & ? & ? & _). by assert (st2 = st') as -> by congruence.
  - injection E as <-. apply put_logger_ok; [done|]. by apply (newLogger_ok st name None).
  - injection E as <-. by apply put_appender_ok.
  - injection E as <-. by apply put_appender_ok.
  - eapply Hlg; [exact E|done|]. intros lg (Hps & Hf & Hr).
    split; [|done]. apply Forall_app. split; [done|]. by apply Forall_singleton.
  - eapply Hlg; [exact E|done|]. intros lg (Hps & Hf & Hr). split; [|done].
    apply Forall_forall. intros o Hin. cbn in Hin. apply list_elem_of_filter in Hin as [_ Hin].
    rewrite Forall_forall in Hps. auto.
  - eapply Hlg; [exact E|done|]. intros lg (Hps & Hf & Hr). split; [constructor|done].
  - unfold setFormatter in E. destruct (loggers st !! p) as [lg|]; [|done]. cbn [mbind option_bind] in E.
    destruct (l_formatter lg) as [f|]; [|done]. cbn [mbind option_bind] in E.
    destruct (LogFormat.m_error f); [injection E as <-; split; [by apply cout_ok|apply cout_extends]|].
    eapply Hlg; [exact E|done|]. intros l0. apply setFormatter_ptr_ok.
  - destruct Ho as [f' ->]. eapply Hlg; [exact E|done|]. intros l0. apply setFormatter_ptr_ok.
  - destruct (call_toDefine p st); [|done]. by injection E as <-.
  - destruct (mapM _ (m_loggers st)); [|done]. by injection E as <-.
  - destruct (loggers st !! m_logger e) as [lg|] eqn:Hp; [|unfold log_event in E; by rewrite Hp in E].
    destruct (log_event_ok e st Hok (ex_intro _ lg Hp)) as (st2 & E2 & Hs). assert (st2 = st') as -> by congruence.
    split; [by eapply same_settings_ok|by apply same_settings_extends].
Qed.

(** ** Reachable states *)

Lemma newManager_ok dir : state_ok (newManager can_open dir).
Proof.
  assert (Hl : loggers (newManager can_open dir)
    = <[2%positive := addAppender (Some 3%positive) (addAppender (Some 2%positive) (newLogger (str "system")))]>
        {[1%positive := addAppender (Some 1%positive) (newLogger (str "root"))]}) by reflexivity.
  assert (Ha : forall p, p ∈ [1; 2; 3]%positive -> is_Some (appenders (newManager can_open dir) !! p)).
  { intros p Hp. repeat (apply elem_of_cons in Hp as [-> | Hp]; [by eexists|]). by apply not_elem_of_nil in Hp. }
  assert (Hlogger : forall n ps, Forall (fun q => q ∈ [1; 2; 3]%positive) ps ->
    logger_ok (newManager can_open dir) (MkLogger n INFO (map Some ps) (Some (newFormatter default_pattern)) None)).
  { intros n ps Hps. split; [|split; [by eexists|done]]. apply Forall_fmap. eapply Forall_impl; [exact Hps|].
    intros q Hq. exists q. auto. }
  split.
  - intros p lg. rewrite Hl, lookup_insert_Some, lookup_singleton_Some. intros [[<- <-]|[_ [<- <-]]].
    + apply (Hlogger (str "system") [2; 3]%positive). decide_now.
    + apply (Hlogger (str "root") [1]%positive). decide_now.
  - change (m_loggers (newManager can_open dir)) with [(str "root", 1%positive); (str "system", 2%positive)].
    intros n p. rewrite Hl, !elem_of_cons. intros [[= -> ->] | [[= -> ->] | H%not_elem_of_nil]]; [by eexists..|done].
  - exists (addAppender (Some 1%positive) (newLogger (str "root"))). by rewrite Hl.
  - eexists. split; [rewrite Hl; apply lookup_insert_eq|done].
Qed.

(** The states of a program that starts with the manager and calls the library. *)
Inductive log_reachable (dir : list Z) : LogState -> Prop :=
  | log_start : log_reachable dir (newManager can_open dir)
  | log_next o st st' : log_reachable dir st -> harmless st o -> exec o st = Some st' -> log_reachable dir st'.

Lemma log_reachable_ok dir st : log_reachable dir st -> state_ok st.
Proof.
  induction 1 as [|o st st' _ IH Ho He]; [apply newManager_ok|].
  destruct (exec_ok o st st' IH Ho He) as [Hok _]. done.
Qed.
End Manager.

(** C22. Logging fails only where the call itself is wrong: in every state a program
    reaches with calls that give no logger a null appender or formatter and no
    invalid definition to the manager, the next call does not return exactly when
    it goes through a pointer to no object, or is [toDefine], or [toDefines] with a
    logger registered, where the lock a thread holds shared is not granted to it
    again; a call that returns and gives away no null pointer and no invalid
    definition leaves the state sound: no logger has a null appender or formatter
    or a chain of roots longer than one. *)
Theorem logging_never_fails can_open is_tty relock dir st o :
  log_reachable can_open is_tty relock dir st ->
  (exec can_open is_tty relock o st = None <-> fails relock st o)
  /\ forall st', exec can_open is_tty relock o st = Some st' -> harmless st o -> state_ok st'.
Proof.
  intros Hr%log_reachable_ok. split; [by apply exec_fails_iff|].
  intros st' E Ho. by apply (exec_ok can_open is_tty relock o st st').
Qed.

(** C26. Logging reaches the appenders: an event below the level of its logger
    writes nothing; otherwise each appender of the logger, or of the root logger
    when it has none, whose level admits the event gets, in order, the event
    formatted with its own formatter or else with the logger's; the settings of
    loggers and appenders do not change. *)
Theorem log_delivers is_tty self lvl lg e st :
  heap_ok st -> loggers st !! self = Some lg ->
  exists st', logger_log is_tty 2 self lvl e st = Some st' /\ log_result is_tty lvl lg e st st'.
Proof. apply logger_log_delivers. Qed.

(** Reconfiguration in place: after a new configuration every logger it defines
    is registered with the settings of its definition, at the address it had
    before if it was registered, so that the references the program holds are to
    the reconfigured loggers; the loggers it does not define keep their settings. *)
Theorem loggers_reconfigured can_open is_tty relock dir ds st :
  log_reachable can_open is_tty relock dir st -> defines_ok ds ->
  exists st', updataLogger can_open ds st = Some st'
    /\ (forall n d, sm_find n ds = Some d ->
          exists q, sm_find n (m_loggers st') = Some q /\ (forall p, sm_find n (m_loggers st) = Some p -> q = p)
            /\ toDefine q st' = Some (completed d))
    /\ (forall n, sm_find n ds = None ->
          sm_find n (m_loggers st') = sm_find n (m_loggers st)
          /\ forall r d, sm_find n (m_loggers st) = Some r -> toDefine r st = Some d -> toDefine r st' = Some d).
Proof.
  intros Hr Hds. apply log_reachable_ok in Hr.
  destruct (updataLogger_spec can_open ds st Hr Hds) as (st' & ? & _ & _ & ? & ?). by exists st'.
Qed.

(** ** A sample *)

Definition sample_open (file : list Z) : bool := negb (str_eqb file (str "locked.log")).

Definition sample_defines : smap LogDefine :=
  [(str "net", MkDefine (str "net") DEBUG (Some (newFormatter (str "%p %c: %m%n")))
      [MkAppenderDefine 1 WARN None (str "net.log"); MkAppenderDefine 0 UNKNOWN (Some (newFormatter (str "%m"))) []]);
   (str "root", MkDefine (str "root") WARN None [MkAppenderDefine 0 DEBUG None []])].

Definition sample_event (p : positive) : LogEvent :=
  MkEvent (str "a.cc") 12 0 7 (str "main") 3 99 (str "hello") p WARN.

Definition sample_start : LogState := newManager sample_open (str "/srv").
Definition sample_named : LogState := (getLogger_create (str "net") sample_start).2.

Lemma sample_defines_ok : defines_ok sample_defines.
Proof. split; [repeat constructor|]. repeat (apply Forall_cons_2; [split; [done|repeat constructor]|]). constructor. Qed.

Lemma sample_named_reachable relock : log_reachable sample_open false relock (str "/srv") sample_named.
Proof.
  eapply (log_next sample_open false relock (str "/srv") (GetLogger (str "net")) sample_start);
    [constructor|exact I|done].
Qed.

Lemma logging_never_fails_witness :
  exec sample_open false false (ToDefine 3) sample_named = None
  /\ exec sample_open false false (LogIt (sample_event 9)) sample_named = None
  /\ exists st', exec sample_open false false (Update sample_defines) sample_named = Some st' /\ state_ok st'.
Proof.
  pose proof (sample_named_reachable false) as Hr. split; [|split].
  - apply (logging_never_fails sample_open false false (str "/srv") sample_named (ToDefine 3) Hr). by left.
  - by apply (logging_never_fails sample_open false false (str "/srv") sample_named (LogIt (sample_event 9)) Hr).
  - destruct (logging_never_fails sample_open false false (str "/srv") sample_named (Update sample_defines) Hr)
      as [[Hn _] Hk].
    destruct (exec sample_open false false (Update sample_defines) sample_named) as [st'|]; [|by destruct (Hn eq_refl)].
    exists st'. split; [done|]. apply Hk; [done|]. exact sample_defines_ok.
Defined.

Lemma log_delivers_witness :
  exists st', logger_log false 2 1 WARN (sample_event 1) sample_start = Some st'
    /\ log_result false WARN (addAppender (Some 1%positive) (newLogger (str "root"))) (sample_event 1) sample_start st'.
Proof.
  apply (log_delivers false 1 WARN).
  - exact (ok_heap _ (newManager_ok sample_open (str "/srv"))).
  - reflexivity.
Defined.

Lemma loggers_reconfigured_witness :
  exists st', updataLogger sample_open sample_defines sample_named = Some st'
    /\ sm_find (str "net") (m_loggers st') = sm_find (str "net") (m_loggers sample_named).
Proof.
  destruct (loggers_reconfigured sample_open false true (str "/srv") sample_defines sample_named
    (sample_named_reachable true) sample_defines_ok) as (st' & E & Hd & _).
  exists st'. split; [exact E|]. destruct (Hd (str "net") _ eq_refl) as (q & Hq & Hold & _).
  rewrite Hq. assert (Hs : sm_find (str "net") (m_loggers sample_named) = Some 3%positive) by reflexivity.
  rewrite Hs. f_equal. by apply Hold.
Defined.

(** What the sample writes: before the configuration the new logger has no appender
    and its events go to the root logger; after it, to its own two appenders. *)
Example sample_output :
  let before := st ← log_event false 2 (sample_event 3) sample_named; Some (drop (length (out sample_named)) (out st)) in
  let after :=
    st1 ← updataLogger sample_open sample_defines sample_named;
    st ← log_event false 2 (sample_event 3) st1;
    Some (drop (length (out st1)) (out st), written st 4, written st 2) in
  before = Some (str "没有appender,使用m_root" ++ endl
    ++ formatter_format false (fun _ => str "net") (newFormatter default_pattern) WARN (sample_event 3))
  /\ after = Some (str "hello", Some (str "WARN net: hello" ++ [LF]), Some []).
Proof. vm_compute. done. Qed.

(** ** Defects *)

(** A pattern with an error is accepted when the logger's formatter has none, and
    every later pattern is then refused: the test is on the formatter the logger
    has, not on the new one. *)
Theorem bad_pattern_sticks p lg f bad st :
  loggers st !! p = Some lg -> l_formatter lg = Some f -> m_error f = false -> m_error (newFormatter bad) = true ->
  exists st1 lg1, setFormatter bad p st = Some st1
    /\ loggers st1 !! p = Some lg1 /\ l_formatter lg1 = Some (newFormatter bad)
    /\ forall pattern, exists st2, setFormatter pattern p st1 = Some st2 /\ loggers st2 = loggers st1.
Proof.
  intros Hp Hf Hok Hbad. unfold setFormatter at 1, on_logger. rewrite Hp. cbn [mbind option_bind]. rewrite Hf.
  cbn [mbind option_bind]. rewrite Hok. cbn [mbind option_bind].
  do 2 eexists. split; [done|]. split; [apply lookup_insert_eq|]. split; [done|].
  intros pattern. unfold setFormatter. cbn [loggers set_loggers]. rewrite lookup_insert_eq. cbn [mbind option_bind].
  cbn [l_formatter setFormatter_ptr mbind option_bind]. rewrite Hbad. by eexists.
Qed.

Lemma bad_pattern_sticks_witness :
  exists st1 lg1, setFormatter (str "%z") 1 sample_start = Some st1
    /\ loggers st1 !! 1%positive = Some lg1 /\ l_formatter lg1 = Some (newFormatter (str "%z"))
    /\ forall pattern, exists st2, setFormatter pattern 1 st1 = Some st2 /\ loggers st2 = loggers st1.
Proof.
  exact (bad_pattern_sticks 1 (addAppender (Some 1%positive) (newLogger (str "root"))) (newFormatter default_pattern)
    (str "%z") sample_start eq_refl eq_refl eq_refl eq_refl).
Defined.

(** A definition with an appender of an unknown type makes a logger with a null
    appender: the first event it admits follows the null pointer. *)
Theorem unknown_appender_crashes can_open is_tty name fuel e st :
  let (p, st') := toLogger can_open (MkDefine name UNKNOWN None [MkAppenderDefine (-1) UNKNOWN None []]) st in
  logger_log is_tty (S fuel) p (m_level e) e st' = None.
Proof.
  cbn [toLogger ld_name ld_level ld_formatter ld_appenders add_defined toAppender d_type Z.eqb put_logger].
  cbn [logger_log loggers set_loggers]. rewrite lookup_insert_eq. cbn [mbind option_bind].
  change (l_level _) with UNKNOWN. assert (level_ge (m_level e) UNKNOWN = true) as -> by (by destruct (m_level e)).
  reflexivity.
Qed.
