(* ===== verification/Config.v ===== *)
(** * Configuration

    Models [sylar/basic/config.h] and [config.cc]: the lookup of a dotted path in a
    JSON document, the listeners of a configuration, the variables registered on
    it and the loading of a new document.  The JSON library is an interface: what
    the code calls of it are the operations of the class [Json], and what the
    library documents of them are the laws of [JsonLaws], with an instance.

    An operation on the world returns, throws, in both cases leaving a world
    behind, or neither: it follows a pointer to a destroyed object or waits for itself. *)

From stdpp Require Import gmap.
From S2P Require Import Prelude CppString StdMap.

(** ** The JSON library *)

Class Json := {
  json : Type;
  jnull : json;
  jstr : list Z -> json;
  jsize : json -> Z;
  jfind : json -> list Z -> option json;        (** [j.find(key)]; [None] is [j.end()] *)
  jat : json -> Z -> option json;               (** [j[idx]]; [None] is a type error *)
  jstring : json -> option (list Z);            (** the conversion to a string *)
  jset : list Z -> json -> json -> json;        (** [j[key] = v] *)
  jpush : json -> json -> json;                 (** [j.push_back(v)] *)
}.

(** Objects and arrays grow from null. *)
Inductive jobject `{Json} : json -> Prop :=
  | jobject_null : jobject jnull
  | jobject_set k v o : jobject o -> jobject (jset k v o).
Inductive jarray `{Json} : json -> Prop :=
  | jarray_null : jarray jnull
  | jarray_push a v : jarray a -> jarray (jpush a v).

Class JsonLaws `{Json} : Prop := {
  jstring_jstr s : jstring (jstr s) = Some s;
  jfind_null k : jfind jnull k = None;
  jfind_set o k k' v : jobject o -> jfind (jset k v o) k' = if str_eqb k' k then Some v else jfind o k';
  jsize_null : jsize jnull = 0;
  jsize_push a v : jarray a -> jsize (jpush a v) = jsize a + 1;
  jat_push a v i : jarray a -> 0 <= i <= jsize a -> jat (jpush a v) i = if i =? jsize a then Some v else jat a i;
}.

(** ** [getJsonValueByPath] *)

(** [std::stoi] of a text that starts with a digit; [None] is [std::out_of_range]. *)
Definition stoi (s : list Z) : option Z :=
  let n := digits_value 0 s in if n <? 2 ^ 31 then Some n else None.

Inductive lookup_result (A : Type) := Found (v : A) | NotFound | Thrown.
Arguments Found {A}.
Arguments NotFound {A}.
Arguments Thrown {A}.

Definition DOT : Z := 46.

Section Path.
Context `{J : Json}.

(** One key of the path: an index when it starts with a digit ([key[0]] of an empty
    key is zero). *)
Definition path_step (node : json) (key : list Z) : lookup_result json :=
  if isdigit (default 0 (head key)) then
    match stoi key with
    | None => Thrown
    | Some idx =>
        if (idx <? 0) || (to_int (jsize node) <=? idx) then NotFound
        else match jat node idx with Some v => Found v | None => Thrown end
    end
  else match jfind node key with Some v => Found v | None => NotFound end.

(** The loop; [path] is the rest of the path from [front_pos] on. *)
Fixpoint path_loop (fuel : nat) (node : json) (path : list Z) : option (lookup_result json) :=
  match fuel with
  | O => None
  | S fuel =>
      match str_find [DOT] path with
      | Some k =>
          match path_step node (take k path) with
          | Found v => path_loop fuel v (drop (k + 1) path)
          | r => Some r
          end
      | None => Some (path_step node path)
      end
  end.

Definition getJsonValueByPath (j : json) (path : list Z) : option (lookup_result json) :=
  path_loop (S (length path)) j path.

(** Specification: the keys of a path one after the other. *)
Definition path_of (key : list Z) (keys : list (list Z)) : list Z := key ++ (keys ≫= cons DOT).

Fixpoint walk (node : json) (key : list Z) (keys : list (list Z)) : lookup_result json :=
  match keys with
  | [] => path_step node key
  | k :: keys => match path_step node key with Found v => walk v k keys | r => r end
  end.

Lemma path_loop_spec keys : forall fuel node key,
  Forall (fun k => DOT ∉ k) (key :: keys) -> (length keys < fuel)%nat ->
  path_loop fuel node (path_of key keys) = Some (walk node key keys).
Proof.
  induction keys as [|k keys IH]; intros fuel node key Hk Hf; (destruct fuel as [|fuel]; [cbn in Hf; lia|]);
    apply Forall_cons in Hk as [Hkey Hk]; unfold path_of; cbn [path_loop mbind list_bind walk].
  - rewrite app_nil_r. by rewrite str_find_char_None.
  - change ((DOT :: k) ++ keys ≫= cons DOT) with (DOT :: path_of k keys).
    rewrite str_find_char, take_app_length by done.
    rewrite (drop_app_ge key) by lia. replace (length key + 1 - length key)%nat with 1%nat by lia. cbn [drop].
    destruct (path_step node key); [|done|done]. apply IH; [done|]. cbn [length] in Hf. lia.
Qed.

Lemma path_keys (path : list Z) : exists key keys, Forall (fun k => DOT ∉ k) (key :: keys) /\ path_of key keys = path.
Proof.
  induction path as [|c path (key & keys & Hk & E)]; [by exists [], []; split; [repeat constructor; apply not_elem_of_nil|]|].
  destruct (Z.eqb_spec c DOT) as [->|Hc].
  - exists [], (key :: keys). split; [constructor; [apply not_elem_of_nil|done]|].
    rewrite <- E. done.
  - exists (c :: key), keys. apply Forall_cons in Hk as [H1 H2]. split; [constructor; [|done]|by rewrite <- E].
    by apply not_elem_of_cons.
Qed.

Lemma length_path_of key keys : (length keys <= length (path_of key keys))%nat.
Proof.
  unfold path_of. rewrite length_app. induction keys as [|k keys IH]; [cbn; lia|].
  change ((k :: keys) ≫= cons DOT) with ((DOT :: k) ++ (keys ≫= cons DOT)). rewrite length_app. cbn [length]. lia.
Qed.

(** The lookup follows the keys of the path, and every path has keys. *)
Theorem path_lookup j path :
  (forall key keys, Forall (fun k => DOT ∉ k) (key :: keys) -> path_of key keys = path ->
     getJsonValueByPath j path = Some (walk j key keys))
  /\ exists key keys, Forall (fun k => DOT ∉ k) (key :: keys) /\ path_of key keys = path.
Proof.
  split; [|apply path_keys]. intros key keys Hk <-. apply path_loop_spec; [done|].
  pose proof (length_path_of key keys). lia.
Qed.

Lemma getJsonValueByPath_total j path : exists r, getJsonValueByPath j path = Some r.
Proof.
  destruct (path_keys path) as (key & keys & Hk & <-). eexists. apply path_loop_spec; [done|].
  pose proof (length_path_of key keys). lia.
Qed.
End Path.

(** ** Configurations, listeners and variables

    A listener is the function a variable registers; it is named by the variable.
    [W] is the rest of the program, which the callback of a variable may change.
    Messages on the standard output are left out. *)

(** The mutex of a configuration as one thread holds it; [None] is a thread that
    waits for itself. *)
Inductive held := Unlocked | Shared | Exclusive.
Definition lock_unique (h : held) : option held := match h with Unlocked => Some Exclusive | _ => None end.
Definition lock_shared (h : held) : option held := match h with Exclusive => None | _ => Some Shared end.

Inductive outcome (A S : Type) :=
  | Returns (a : A) (s : S)
  | Throws (s : S)
  | Dies.
Arguments Returns {A S}.
Arguments Throws {A S}.
Arguments Dies {A S}.

(** The world an operation leaves behind. *)
Definition left_behind {A S} (o : outcome A S) : option S :=
  match o with Returns _ s | Throws s => Some s | Dies => None end.

Section Config.
Context `{J : Json} {V W : Type}.

Record ConfigVar := MkVar {
  v_path : list Z;
  v_config_id : Z;
  v_conv : json -> option V;
  v_cb : option (V -> W -> outcome unit W);
  v_val : V;
  v_listen_key : Z;
}.

Record ConfigData := MkData {
  m_json_data : json;
  m_cbs : list (Z * positive);
  m_max_listener_id : Z;
}.

Record World := MkWorld {
  vars : gmap positive ConfigVar;
  datas : gmap Z ConfigData;
  rest : W;
}.

Definition set_vars (vs : gmap positive ConfigVar) (w : World) : World := MkWorld vs (datas w) (rest w).
Definition set_data (id : Z) (d : ConfigData) (w : World) : World := MkWorld (vars w) (<[id := d]> (datas w)) (rest w).
Definition set_rest (r : W) (w : World) : World := MkWorld (vars w) (datas w) r.

Definition emptyData : ConfigData := MkData jnull [] 0.

(** [ConfigManager::getConfigData]: the configuration is made when it is missing. *)
Definition getConfigData (id : Z) (w : World) : ConfigData * World :=
  match datas w !! id with
  | Some d => (d, w)
  | None => (emptyData, set_data id emptyData w)
  end.

(** [ConfigData::addListener]: the key is the largest so far, so that the entry comes last. *)
Definition addListener (v : positive) (d : ConfigData) : Z * ConfigData :=
  let key := m_max_listener_id d + 1 in
  (key, MkData (m_json_data d) (m_cbs d ++ [(key, v)]) key).

Definition delListener (key : Z) (d : ConfigData) : Z * ConfigData :=
  if negb (existsb (fun e => e.1 =? key) (m_cbs d)) || (key <=? -1) then (-1, d)
  else (0, MkData (m_json_data d) (filter (fun e => e.1 <> key) (m_cbs d)) (m_max_listener_id d)).

Definition setValue (x : V) (v : ConfigVar) : ConfigVar :=
  MkVar (v_path v) (v_config_id v) (v_conv v) (v_cb v) x (v_listen_key v).

(** [if(cb) cb(x)] *)
Definition call_cb (cb : option (V -> W -> outcome unit W)) (x : V) (w : World) : outcome unit World :=
  match cb with
  | Some f =>
      match f x (rest w) with
      | Returns _ r => Returns tt (set_rest r w)
      | Throws r => Throws (set_rest r w)
      | Dies => Dies
      end
  | None => Returns tt w
  end.

(** The listener of a variable. *)
Definition listener (v : positive) (new_val : json) (w : World) : outcome unit World :=
  match vars w !! v with
  | None => Dies
  | Some var =>
      match getJsonValueByPath new_val (v_path var) with
      | None => Dies
      | Some NotFound => Returns tt w
      | Some Thrown => Throws w
      | Some (Found j) =>
          match v_conv var j with
          | None => Throws w
          | Some x => call_cb (v_cb var) x (set_vars (<[v := setValue x var]> (vars w)) w)
          end
      end
  end.

(** An exception of a listener ends the loop. *)
Fixpoint notify (cbs : list (Z * positive)) (new_val : json) (w : World) : outcome unit World :=
  match cbs with
  | [] => Returns tt w
  | (_, v) :: cbs =>
      match listener v new_val w with
      | Returns _ w => notify cbs new_val w
      | Throws w => Throws w
      | Dies => Dies
      end
  end.

(** [setConfig(nlohmann::json&&)]: the exclusive lock is given up before the shared
    one is taken, under which the listeners run. *)
Definition setConfig (id : Z) (j : json) (w : World) : outcome Z World :=
  let (d, w) := getConfigData id w in
  match lock_unique Unlocked with
  | None => Dies
  | Some _ =>
      let d := MkData j (m_cbs d) (m_max_listener_id d) in
      let w := set_data id d w in
      match lock_shared Unlocked with
      | None => Dies
      | Some _ =>
          match notify (m_cbs d) j w with
          | Returns _ w => Returns 0 w
          | Throws w => Throws w
          | Dies => Dies
          end
      end
  end.

(** [setConfig(const nlohmann::json&)]: the shared lock is taken with the exclusive one held. *)
Definition setConfig_copy (id : Z) (j : json) (w : World) : outcome Z World :=
  let (d, w) := getConfigData id w in
  match lock_unique Unlocked with
  | None => Dies
  | Some h =>
      let d := MkData j (m_cbs d) (m_max_listener_id d) in
      let w := set_data id d w in
      match lock_shared h with
      | None => Dies
      | Some _ =>
          match notify (m_cbs d) j w with
          | Returns _ w => Returns 0 w
          | Throws w => Throws w
          | Dies => Dies
          end
      end
  end.

(** [LoadJson]: the file cannot be opened, its text is no JSON, or its document. *)
Inductive file_content := CannotOpen | ParseError | Document (j : json).

Definition LoadJson (file : file_content) (id : Z) (w : World) : outcome Z World :=
  match file with
  | CannotOpen | ParseError => Returns (-1) w
  | Document j =>
      match setConfig id j w with
      | Returns _ w => Returns 0 w
      | Throws w => Throws w
      | Dies => Dies
      end
  end.

(** [LookUp], which makes a variable; [conv] is [FormatConversion<json, ValueType>].
    A constructor that throws makes none. *)
Definition LookUp (path : list Z) (default_value : V) (id : Z) (conv : json -> option V)
    (cb : option (V -> W -> outcome unit W)) (w : World) : outcome positive World :=
  let (d, w) := getConfigData id w in
  match getJsonValueByPath (m_json_data d) path with
  | None => Dies
  | Some r =>
      match match r with NotFound => Some default_value | Thrown => None | Found j => conv j end with
      | None => Throws w
      | Some x =>
          match call_cb cb x w with
          | Throws w => Throws w
          | Dies => Dies
          | Returns _ w =>
              let v := fresh (dom (vars w)) in
              let (d, w) := getConfigData id w in
              let (key, d) := addListener v d in
              let w := set_data id d w in
              Returns v (set_vars (<[v := MkVar path id conv cb x key]> (vars w)) w)
          end
      end
  end.

(** [~ConfigVar] *)
Definition destroyVar (v : positive) (w : World) : option World :=
  var ← vars w !! v;
  let (d, w) := getConfigData (v_config_id var) w in
  let (_, d) := delListener (v_listen_key var) d in
  let w := set_data (v_config_id var) d w in
  Some (set_vars (delete v (vars w)) w).

(** [var->setValue(x)], which the program may call as well. *)
Definition assign (v : positive) (x : V) (w : World) : option World :=
  var ← vars w !! v;
  Some (set_vars (<[v := setValue x var]> (vars w)) w).

(** ** The invariant

    The listeners of a configuration are its variables, each once, under keys that
    grow up to the largest. *)
Definition data_ok (w : World) (id : Z) (d : ConfigData) : Prop :=
  NoDup (map snd (m_cbs d))
  /\ Forall (fun e => 0 < e.1 <= m_max_listener_id d
       /\ exists var, vars w !! e.2 = Some var /\ v_listen_key var = e.1 /\ v_config_id var = id) (m_cbs d)
  /\ 0 <= m_max_listener_id d /\ NoDup (map fst (m_cbs d)).

Record world_ok (w : World) : Prop := {
  ok_data : map_Forall (data_ok w) (datas w);
  ok_vars : forall v var, vars w !! v = Some var ->
    exists d, datas w !! v_config_id var = Some d /\ (v_listen_key var, v) ∈ m_cbs d;
}.

(** The value a document gives to a variable. *)
Definition reloaded (j : json) (var : ConfigVar) : ConfigVar :=
  match getJsonValueByPath j (v_path var) with
  | Some (Found x) => match v_conv var x with Some x => setValue x var | None => var end
  | _ => var
  end.

(** The document is acceptable to a variable: the path does not throw and the
    value, if there is one, converts. *)
Definition accepts (j : json) (var : ConfigVar) : Prop :=
  match getJsonValueByPath j (v_path var) with
  | Some (Found x) => is_Some (v_conv var x)
  | Some NotFound => True
  | _ => False
  end.

Section Reload.
(** An invariant of the rest of the program under which the callbacks return. *)
Context (I : W -> Prop).
Definition cb_ok (var : ConfigVar) : Prop :=
  forall f x r, v_cb var = Some f -> I r -> exists r', f x r = Returns tt r' /\ I r'.

Lemma listener_spec v var j w :
  vars w !! v = Some var -> accepts j var -> cb_ok var -> I (rest w) ->
  exists w', listener v j w = Returns tt w' /\ I (rest w') /\ datas w' = datas w
    /\ vars w' = <[v := reloaded j var]> (vars w).
Proof.
  intros Hv Ha Hc Hi. unfold listener, accepts, reloaded in *. rewrite Hv.
  destruct (getJsonValueByPath j (v_path var)) as [[x| |]|]; [|by exists w; rewrite insert_id|done|done].
  destruct Ha as [y ->]. unfold call_cb. destruct (v_cb var) as [f|] eqn:Ef; [|by eexists].
  destruct (Hc f y (rest w) Ef Hi) as (r' & Hr & Hi'). cbn [rest set_vars]. rewrite Hr. by eexists.
Qed.

Lemma notify_spec j cbs : forall w,
  NoDup (map snd cbs) -> I (rest w) ->
  (forall k v, (k, v) ∈ cbs -> exists var, vars w !! v = Some var /\ accepts j var /\ cb_ok var) ->
  exists w', notify cbs j w = Returns tt w' /\ I (rest w') /\ datas w' = datas w
    /\ (forall v, v ∈ map snd cbs -> vars w' !! v = reloaded j <$> vars w !! v)
    /\ (forall v, v ∉ map snd cbs -> vars w' !! v = vars w !! v).
Proof.
  induction cbs as [|[k v] cbs IH]; intros w Hnd Hi Hall.
  - exists w. do 3 (split; [done|]). split; [|done]. intros v Hv. by apply not_elem_of_nil in Hv.
  - apply NoDup_cons in Hnd as [Hv Hnd]. cbn [notify].
    destruct (Hall k v) as (var & Hvar & Ha & Hc); [left|].
    destruct (listener_spec v var j w Hvar Ha Hc Hi) as (w1 & -> & Hi1 & Hd1 & Hv1).
    destruct (IH w1 Hnd Hi1) as (w2 & -> & Hi2 & Hd2 & Hin2 & Hout2).
    { intros k' v' Hin. rewrite Hv1, lookup_insert_ne; [apply (Hall k'); by right|].
      intros <-. apply Hv. apply list_elem_of_fmap. by exists (k', v). }
    exists w2. do 2 (split; [done|]). split; [congruence|]. cbn [map snd]. split.
    + intros u [-> | Hu]%elem_of_cons.
      * rewrite Hout2 by done. by rewrite Hv1, lookup_insert_eq, Hvar.
      * rewrite Hin2 by done. rewrite Hv1, lookup_insert_ne; [done|]. by intros <-.
    + intros u [Hne Hu]%not_elem_of_cons. rewrite Hout2 by done. by rewrite Hv1, lookup_insert_ne.
Qed.
End Reload.

Lemma reloaded_static j var :
  v_path (reloaded j var) = v_path var /\ v_config_id (reloaded j var) = v_config_id var
  /\ v_conv (reloaded j var) = v_conv var /\ v_listen_key (reloaded j var) = v_listen_key var.
Proof.
  unfold reloaded. destruct (getJsonValueByPath j (v_path var)) as [[x| |]|]; try done. by destruct (v_conv var x).
Qed.

Lemma reloaded_idemp j var : reloaded j (reloaded j var) = reloaded j var.
Proof.
  unfold reloaded at 2 3. destruct (getJsonValueByPath j (v_path var)) as [[x| |]|] eqn:E;
    try (unfold reloaded; by rewrite E).
  destruct (v_conv var x) as [y|] eqn:Ey; unfold reloaded; cbn [v_path v_conv setValue]; by rewrite E, Ey.
Qed.

(** What a listener leaves behind: it changes the value of its own variable only,
    to that of the document when it returns. *)
Lemma listener_inv v j w w' :
  left_behind (listener v j w) = Some w' ->
  datas w' = datas w /\ exists var x, vars w !! v = Some var /\ vars w' = <[v := setValue x var]> (vars w)
    /\ (forall a, listener v j w = Returns a w' -> setValue x var = reloaded j var).
Proof.
  unfold listener. destruct (vars w !! v) as [var|] eqn:Hv; [|done]. intros H.
  cut (datas w' = datas w /\ exists x, vars w' = <[v := setValue x var]> (vars w)
    /\ (forall a, listener v j w = Returns a w' -> setValue x var = reloaded j var)).
  { unfold listener. rewrite Hv. intros (Hd & x & Hx). split; [done|]. by exists var, x. }
  unfold listener, reloaded. rewrite Hv.
  assert (Hstay : w' = w -> vars w' = <[v := setValue (v_val var) var]> (vars w) /\ setValue (v_val var) var = var).
  { intros ->. assert (setValue (v_val var) var = var) as -> by (by destruct var). by rewrite insert_id. }
  destruct (getJsonValueByPath j (v_path var)) as [[x| |]|]; [| | |done].
  - destruct (v_conv var x) as [y|].
    + assert (datas w' = datas w /\ vars w' = <[v := setValue y var]> (vars w)) as [H1 H2]; [|split; [done|by exists y]].
      unfold call_cb in H. destruct (v_cb var) as [f|]; [|by injection H as <-].
      cbn [rest set_vars] in H. destruct (f y (rest w)); [by injection H as <-..|done].
    + injection H as <-. destruct Hstay as [H1 H2]; [done|]. split; [done|]. by eexists.
  - injection H as <-. destruct Hstay as [H1 H2]; [done|]. split; [done|]. by eexists.
  - injection H as <-. destruct Hstay as [H1 H2]; [done|]. split; [done|]. by eexists.
Qed.

(** The listeners change the values of the variables that listen only. *)
Lemma notify_kept j cbs : forall w w',
  left_behind (notify cbs j w) = Some w' ->
  datas w' = datas w
  /\ forall v, vars w' !! v = vars w !! v
       \/ v ∈ map snd cbs /\ exists var x, vars w !! v = Some var /\ vars w' !! v = Some (setValue x var).
Proof.
  induction cbs as [|[k u] cbs IH]; intros w w' E; [injection E as <-; by auto|]. cbn [notify] in E.
  assert (Hone : forall w1, left_behind (listener u j w) = Some w1 -> datas w1 = datas w
    /\ forall v, vars w1 !! v = vars w !! v
       \/ v = u /\ exists var x, vars w !! v = Some var /\ vars w1 !! v = Some (setValue x var)).
  { intros w1 (Hd & var & x & Hu & Hv & _)%listener_inv. split; [done|]. intros v. rewrite Hv.
    destruct (decide (v = u)) as [->|Hne]; [|left; by rewrite lookup_insert_ne].
    right. split; [done|]. exists var, x. by rewrite lookup_insert_eq. }
  destruct (listener u j w) as [a w1|w1|]; [| |done]; destruct (Hone w1 eq_refl) as [Hd1 H1].
  - destruct (IH w1 w' E) as [Hd2 H2]. split; [congruence|]. intros v. cbn [map snd].
    destruct (H2 v) as [->|(Hin & var & x & Hx1 & Hx2)].
    + destruct (H1 v) as [->|[-> H]]; [by left|right]. split; [left|done].
    + right. split; [by right|]. destruct (H1 v) as [H|(-> & var0 & x0 & Hy1 & Hy2)].
      * exists var, x. by rewrite <- H.
      * exists var0, x. split; [done|]. rewrite Hy2 in Hx1. injection Hx1 as <-. by rewrite Hx2.
  - injection E as <-. split; [done|]. intros v. cbn [map snd].
    destruct (H1 v) as [->|[-> H]]; [by left|right]. split; [left|done].
Qed.

(** A document that was taken: every variable of the configuration has been given its value. *)
Lemma notify_inv j cbs : forall a w w',
  NoDup (map snd cbs) -> notify cbs j w = Returns a w' ->
  datas w' = datas w
  /\ (forall v, v ∈ map snd cbs -> vars w' !! v = reloaded j <$> vars w !! v)
  /\ (forall v, v ∉ map snd cbs -> vars w' !! v = vars w !! v).
Proof.
  induction cbs as [|[k v] cbs IH]; intros a w w' Hnd E.
  - injection E as _ <-. split; [done|]. split; [|done]. intros v Hv. by apply not_elem_of_nil in Hv.
  - apply NoDup_cons in Hnd as [Hv Hnd]. cbn [notify] in E.
    destruct (listener v j w) as [b w1|w1|] eqn:El; [|done|done].
    destruct (IH a w1 w' Hnd E) as (Hd & Hin & Hout).
    destruct (listener_inv v j w w1) as (Hd1 & var & x & Hvar & Hv1 & Hx); [by rewrite El|].
    rewrite (Hx b El) in Hv1. split; [congruence|]. cbn [map snd]. split.
    + intros u [-> | Hu]%elem_of_cons.
      * rewrite Hout by done. by rewrite Hv1, lookup_insert_eq, Hvar.
      * rewrite Hin by done. rewrite Hv1, lookup_insert_ne; [done|]. by intros <-.
    + intros u [Hne Hu]%not_elem_of_cons. rewrite Hout by done. by rewrite Hv1, lookup_insert_ne.
Qed.

(** ** What every step keeps *)

Lemma getConfigData_ok id w :
  world_ok w -> let (d, w') := getConfigData id w in
  world_ok w' /\ datas w' !! id = Some d /\ vars w' = vars w /\ rest w' = rest w
  /\ (forall i d, datas w !! i = Some d -> datas w' !! i = Some d)
  /\ (datas w !! id = Some d \/ datas w !! id = None /\ m_cbs d = []).
Proof.
  intros [Hd Hv]. unfold getConfigData. destruct (datas w !! id) as [d|] eqn:E; [split; [by split|]; by auto 10|].
  assert (Hk : forall i d, datas w !! i = Some d -> datas (set_data id emptyData w) !! i = Some d).
  { intros i d Hi. cbn [datas set_data]. rewrite lookup_insert_ne; [done|]. intros <-. congruence. }
  split; [|split; [apply lookup_insert_eq|]; auto 10]. split.
  - intros i d. cbn [datas set_data]. rewrite lookup_insert_Some. intros [[<- <-]|[_ Hi]]; [|by apply Hd].
    split; [constructor|]. split; [constructor|]. split; [done|constructor].
  - intros v var Hvar. destruct (Hv v var Hvar) as (d & Hid & Hin). exists d. split; [by apply Hk|done].
Qed.

(** A document replaces the old one. *)
Lemma set_json_ok id d j w :
  world_ok w -> datas w !! id = Some d ->
  world_ok (set_data id (MkData j (m_cbs d) (m_max_listener_id d)) w).
Proof.
  intros [Hd Hv] Hid. split.
  - intros i d'. cbn [datas set_data]. rewrite lookup_insert_Some.
    intros [[<- <-]|[_ Hi]]; [exact (Hd id d Hid)|exact (Hd i d' Hi)].
  - intros v var Hvar. destruct (Hv v var Hvar) as (d' & Hd' & Hin). cbn [datas set_data].
    destruct (decide (v_config_id var = id)) as [E|Hne]; [rewrite E, lookup_insert_eq|rewrite lookup_insert_ne by done; eauto].
    eexists. split; [done|]. assert (d' = d) as -> by congruence. done.
Qed.

(** Values do not matter to the invariant. *)
Lemma world_ok_values w w' :
  world_ok w -> datas w' = datas w ->
  (forall v var', vars w' !! v = Some var' -> exists var, vars w !! v = Some var
     /\ v_config_id var' = v_config_id var /\ v_listen_key var' = v_listen_key var) ->
  (forall v, is_Some (vars w !! v) -> is_Some (vars w' !! v)) -> world_ok w'.
Proof.
  intros [Hd Hv] Ed Hback Hfwd. split; rewrite Ed.
  - intros i d Hi. destruct (Hd i d Hi) as (Hnd & Hall & Hm). split; [done|]. split; [|done].
    eapply Forall_impl; [exact Hall|]. intros e (Hk & var & Hvar & Hkey & Hid). split; [done|].
    destruct (Hfwd e.2) as [var' Hvar']; [by eexists|]. destruct (Hback _ _ Hvar') as (x & Hx & ? & ?).
    exists var'. split; [done|]. split; congruence.
  - intros v var' Hvar'. destruct (Hback v var' Hvar') as (var & Hvar & -> & ->). by apply Hv.
Qed.

Lemma listeners_complete id d w v :
  world_ok w -> datas w !! id = Some d ->
  (v ∈ map snd (m_cbs d) <-> exists var, vars w !! v = Some var /\ v_config_id var = id).
Proof.
  intros [Hd Hv] Hid. split.
  - intros ([k u] & -> & Hin)%list_elem_of_fmap. destruct (Hd id d Hid) as (_ & Hall & _).
    rewrite Forall_forall in Hall. destruct (Hall _ Hin) as (_ & var & ? & _ & ?). by exists var.
  - intros (var & Hvar & <-). destruct (Hv v var Hvar) as (d' & Hd' & Hin). assert (d' = d) as -> by congruence.
    apply list_elem_of_fmap. by exists (v_listen_key var, v).
Qed.

(** The variables after a document was taken. *)
Definition reload_var (id : Z) (j : json) (var : ConfigVar) : ConfigVar :=
  if v_config_id var =? id then reloaded j var else var.

Lemma notified_ok id d j w w' :
  world_ok w -> datas w !! id = Some d -> datas w' = datas w ->
  (forall v, v ∈ map snd (m_cbs d) -> vars w' !! v = reloaded j <$> vars w !! v) ->
  (forall v, v ∉ map snd (m_cbs d) -> vars w' !! v = vars w !! v) ->
  world_ok w' /\ forall v, vars w' !! v = reload_var id j <$> vars w !! v.
Proof.
  intros Hok Hid Ed Hin Hout.
  assert (Hall : forall v, vars w' !! v = reload_var id j <$> vars w !! v).
  { intros v. destruct (decide (v ∈ map snd (m_cbs d))) as [H|H].
    - rewrite Hin by done. apply (listeners_complete id d w v Hok Hid) in H as (var & -> & Hi).
      cbn. unfold reload_var. by rewrite Hi, Z.eqb_refl.
    - rewrite Hout by done. destruct (vars w !! v) as [var|] eqn:Hvar; [|done]. cbn. unfold reload_var.
      destruct (Z.eqb_spec (v_config_id var) id) as [E|_]; [|done].
      destruct H. apply (listeners_complete id d w v Hok Hid). by exists var. }
  split; [|done]. apply (world_ok_values w); [done|done| |].
  - intros v var'. rewrite Hall. destruct (vars w !! v) as [var|]; [|done]. intros [= <-]. exists var.
    split; [done|]. unfold reload_var. destruct (_ =? _); [|done]. destruct (reloaded_static j var) as (_ & ? & _ & ?). done.
  - intros v [var Hvar]. rewrite Hall, Hvar. by eexists.
Qed.

Lemma setConfig_total (I : W -> Prop) id j w :
  world_ok w -> I (rest w) ->
  (forall v var, vars w !! v = Some var -> v_config_id var = id -> accepts j var /\ cb_ok I var) ->
  exists w', setConfig id j w = Returns 0 w' /\ I (rest w').
Proof.
  intros Hok Hi Hall. unfold setConfig. pose proof (getConfigData_ok id w Hok) as H.
  destruct (getConfigData id w) as [d w1]. destruct H as (Hok1 & Hid & Ev & Er & _). cbn [lock_unique lock_shared m_cbs].
  set (w2 := set_data id _ w1). destruct (ok_data _ Hok1 id d Hid) as (Hnd & _).
  destruct (notify_spec I j (m_cbs d) w2 Hnd) as (w' & E & Hi' & _).
  - cbn. by rewrite Er.
  - intros k v Hin. change (vars w2) with (vars w1).
    assert (Hv : v ∈ map snd (m_cbs d)) by (apply list_elem_of_fmap; by exists (k, v)).
    apply (listeners_complete id d w1 v Hok1 Hid) in Hv as (var & Hvar & Hvi). exists var. split; [done|].
    rewrite Ev in Hvar. by apply (Hall v).
  - rewrite E. by exists w'.
Qed.

Lemma setConfig_spec id j a w w' :
  world_ok w -> setConfig id j w = Returns a w' ->
  world_ok w' /\ (forall v, vars w' !! v = reload_var id j <$> vars w !! v)
  /\ (exists d, datas w' !! id = Some d /\ m_json_data d = j)
  /\ (forall i d, i <> id -> datas w !! i = Some d -> datas w' !! i = Some d).
Proof.
  intros Hok. unfold setConfig. pose proof (getConfigData_ok id w Hok) as H.
  destruct (getConfigData id w) as [d w1]. destruct H as (Hok1 & Hid & Ev & _ & Hkeep & _).
  cbn [lock_unique lock_shared m_cbs]. set (d2 := MkData j _ _). set (w2 := set_data id d2 w1).
  destruct (notify (m_cbs d) j w2) as [b w3|w3|] eqn:E; [|done|done]. intros [= _ <-].
  assert (Hok2 : world_ok w2) by (by apply set_json_ok).
  assert (Hid2 : datas w2 !! id = Some d2) by apply lookup_insert_eq.
  destruct (ok_data _ Hok2 id d2 Hid2) as (Hnd & _).
  destruct (notify_inv j (m_cbs d2) b w2 w3 Hnd E) as (Ed & Hin & Hout).
  destruct (notified_ok id d2 j w2 w3 Hok2 Hid2 Ed Hin Hout) as [Hok' Hall].
  split; [done|]. split; [intros v; rewrite Hall; cbn; by rewrite Ev|]. rewrite Ed. split; [by exists d2|].
  intros i d' Hne Hi. cbn [datas set_data w2]. unfold w2, set_data. cbn [datas].
  rewrite lookup_insert_ne by done. auto.
Qed.

(** A load that throws: the document is replaced all the same, and of the variables
    of the configuration the values may have changed. *)
Lemma setConfig_throws id j w w' :
  world_ok w -> setConfig id j w = Throws w' ->
  world_ok w' /\ (exists d, datas w' !! id = Some d /\ m_json_data d = j)
  /\ (forall i d, i <> id -> datas w !! i = Some d -> datas w' !! i = Some d)
  /\ (forall v var', vars w' !! v = Some var' -> exists var, vars w !! v = Some var
       /\ v_config_id var' = v_config_id var /\ (v_config_id var <> id -> var' = var)).
Proof.
  intros Hok. unfold setConfig. pose proof (getConfigData_ok id w Hok) as H.
  destruct (getConfigData id w) as [d w1]. destruct H as (Hok1 & Hid & Ev & _ & Hkeep & _).
  cbn [lock_unique lock_shared m_cbs]. set (d2 := MkData j _ _). set (w2 := set_data id d2 w1).
  destruct (notify (m_cbs d) j w2) as [b w3|w3|] eqn:E; [done| |done]. intros [= <-].
  assert (Hok2 : world_ok w2) by (by apply set_json_ok).
  assert (Hid2 : datas w2 !! id = Some d2) by apply lookup_insert_eq.
  destruct (notify_kept j (m_cbs d2) w2 w3) as [Ed Hv]; [unfold d2; cbn [m_cbs]; by rewrite E|].
  assert (Hback : forall v var', vars w3 !! v = Some var' -> exists var, vars w2 !! v = Some var
    /\ v_config_id var' = v_config_id var /\ v_listen_key var' = v_listen_key var
    /\ (v_config_id var <> id -> var' = var)).
  { intros v var' Hvar'. destruct (Hv v) as [H|(Hin & var & x & H1 & H2)]; [exists var'; by rewrite <- H|].
    exists var. split; [done|]. rewrite H2 in Hvar'. injection Hvar' as <-. do 2 (split; [done|]). intros Hne.
    apply (listeners_complete id d2 w2 v Hok2 Hid2) in Hin as (var0 & H0 & ?). congruence. }
  split; [|split; [rewrite Ed; by exists d2|split]].
  - apply (world_ok_values w2); [done|done| |].
    + intros v var' (var & ? & ? & ? & _)%Hback. by exists var.
    + intros v [var Hvar]. destruct (Hv v) as [->|(_ & var0 & x & _ & ->)]; by eexists.
  - intros i di Hne Hi. rewrite Ed. cbn. rewrite lookup_insert_ne by done. auto.
  - intros v var' (var & Hvar & ? & _ & ?)%Hback. exists var. split; [|done]. cbn in Hvar. congruence.
Qed.

Lemma set_rest_ok r w : world_ok w -> world_ok (set_rest r w).
Proof. intros [Hd Hv]. by split. Qed.

(** The world with a new variable [p] that listens to configuration [id]. *)
Definition add_var (p : positive) (nv : ConfigVar) (id : Z) (d : ConfigData) (w : World) : World :=
  set_vars (<[p := nv]> (vars w)) (set_data id (addListener p d).2 w).

Lemma add_var_data p nv id d w i di :
  vars w !! p = None -> v_listen_key nv = m_max_listener_id d + 1 -> v_config_id nv = id ->
  data_ok w id d -> data_ok w i di -> data_ok (add_var p nv id d w) i (if decide (i = id) then (addListener p d).2 else di).
Proof.
  intros Hp Hkey Hid (Hnd & Hall & Hmax & Hkeys) (Hndi & Halli & Hmi).
  assert (Hvars : forall u var, vars w !! u = Some var -> vars (add_var p nv id d w) !! u = Some var).
  { intros u var Hu. cbn. rewrite lookup_insert_ne; [done|]. intros <-. congruence. }
  assert (Hkeep : forall m m' i (cbs : list (Z * positive)), m <= m' ->
    Forall (fun e => 0 < e.1 <= m /\ exists var, vars w !! e.2 = Some var /\ v_listen_key var = e.1 /\ v_config_id var = i) cbs ->
    Forall (fun e => 0 < e.1 <= m' /\ exists var, vars (add_var p nv id d w) !! e.2 = Some var
      /\ v_listen_key var = e.1 /\ v_config_id var = i) cbs).
  { intros m m' i' cbs Hm H. eapply Forall_impl; [exact H|]. intros e (Hk & var & Hvar & ?). split; [lia|].
    exists var. split; [by apply Hvars|done]. }
  case_decide as Hi; [subst i|split; [done|split; [by apply (Hkeep (m_max_listener_id di)); [lia|]|done]]].
  split; [|split].
  - cbn. rewrite map_app. apply NoDup_app. split; [done|]. split; [|apply NoDup_singleton].
    intros u ([k u'] & -> & Hin)%list_elem_of_fmap. cbn. rewrite list_elem_of_singleton. intros ->.
    rewrite Forall_forall in Hall. destruct (Hall _ Hin) as (_ & var & Hvar & _). cbn [snd] in Hvar. congruence.
  - cbn [addListener snd m_cbs m_max_listener_id]. apply Forall_app. split; [apply (Hkeep (m_max_listener_id d)); [lia|done]|].
    apply Forall_singleton. cbn [fst snd]. split; [lia|]. exists nv. cbn. by rewrite lookup_insert_eq.
  - cbn. split; [lia|]. rewrite map_app. apply NoDup_app. split; [done|]. split; [|apply NoDup_singleton].
    intros k ([k' u] & -> & Hin)%list_elem_of_fmap. cbn. rewrite list_elem_of_singleton. intros ->.
    rewrite Forall_forall in Hall. destruct (Hall _ Hin) as [Hk _]. cbn [fst] in Hk. lia.
Qed.

Lemma add_var_ok p nv id d w :
  world_ok w -> datas w !! id = Some d -> vars w !! p = None ->
  v_listen_key nv = m_max_listener_id d + 1 -> v_config_id nv = id -> world_ok (add_var p nv id d w).
Proof.
  intros [Hd Hv] Hid Hp Hkey Hnv. split.
  - intros i di. cbn [add_var datas set_vars set_data]. rewrite lookup_insert_Some. intros [[<- <-]|[Hne Hi]].
    + pose proof (add_var_data p nv id d w id d Hp Hkey Hnv (Hd _ _ Hid) (Hd _ _ Hid)) as H. by rewrite decide_True in H.
    + pose proof (add_var_data p nv id d w i di Hp Hkey Hnv (Hd _ _ Hid) (Hd _ _ Hi)) as H. by rewrite decide_False in H.
  - intros u var. cbn [add_var vars datas set_vars set_data]. rewrite lookup_insert_Some. intros [[<- <-]|[Hne Hu]].
    + rewrite Hnv, lookup_insert_eq. eexists. split; [done|]. cbn. rewrite Hkey. apply elem_of_app. right. left.
    + destruct (Hv u var Hu) as (di & Hdi & Hin). destruct (decide (v_config_id var = id)) as [E|Hni].
      * rewrite E, lookup_insert_eq. eexists. split; [done|]. cbn. apply elem_of_app. left.
        assert (di = d) as -> by congruence. done.
      * rewrite lookup_insert_ne by done. eauto.
Qed.

Lemma LookUp_spec path dv id conv cb w v w' :
  world_ok w -> LookUp path dv id conv cb w = Returns v w' ->
  exists w1 d r x, world_ok w1 /\ vars w1 = vars w /\ datas w1 !! id = Some d
    /\ (forall i di, datas w !! i = Some di -> datas w1 !! i = Some di)
    /\ getJsonValueByPath (m_json_data d) path = Some r
    /\ match r with NotFound => Some dv | Thrown => None | Found j => conv j end = Some x
    /\ vars w1 !! v = None /\ w' = add_var v (MkVar path id conv cb x (m_max_listener_id d + 1)) id d w1.
Proof.
  intros Hok. unfold LookUp. pose proof (getConfigData_ok id w Hok) as H.
  destruct (getConfigData id w) as [d w1]. destruct H as (Hok1 & Hid & Ev & _ & Hkeep & _).
  destruct (getJsonValueByPath (m_json_data d) path) as [r|] eqn:Er; [|done].
  destruct (match r with NotFound => Some dv | Thrown => None | Found j => conv j end) as [x|] eqn:Ex; [|done].
  destruct (call_cb cb x w1) as [a w2|w2|] eqn:Ec; [|done|done].
  assert (Hw2 : exists r', w2 = set_rest r' w1).
  { unfold call_cb in Ec. destruct cb as [f|]; [|injection Ec as _ <-; exists (rest w1); by destruct w1].
    destruct (f x (rest w1)) as [a0 r'|r'|]; [|done|done]. injection Ec as _ <-. by exists r'. }
  destruct Hw2 as [r' ->]. unfold getConfigData. cbn [datas set_rest]. rewrite Hid. cbn [addListener]. intros [= <- <-].
  exists (set_rest r' w1), d, r, x. split; [by apply set_rest_ok|]. repeat (split; [done|]).
  split; [apply not_elem_of_dom, is_fresh|done].
Qed.

(** A constructor that throws leaves the variables and the documents as they were. *)
Lemma LookUp_throws path dv id conv cb w w' :
  world_ok w -> LookUp path dv id conv cb w = Throws w' ->
  world_ok w' /\ vars w' = vars w /\ forall i d, datas w !! i = Some d -> datas w' !! i = Some d.
Proof.
  intros Hok. unfold LookUp. pose proof (getConfigData_ok id w Hok) as H.
  destruct (getConfigData id w) as [d w1]. destruct H as (Hok1 & Hid & Ev & _ & Hkeep & _).
  destruct (getJsonValueByPath (m_json_data d) path) as [r|]; [|done].
  destruct (match r with NotFound => Some dv | Thrown => None | Found j => conv j end) as [x|];
    [|by intros [= <-]].
  destruct (call_cb cb x w1) as [a w2|w2|] eqn:Ec; [by destruct (getConfigData id w2)| |done]. intros [= <-].
  unfold call_cb in Ec. destruct cb as [f|]; [|done]. destruct (f x (rest w1)); [done| |done].
  injection Ec as <-. split; [by apply set_rest_ok|done].
Qed.

(** A variable has the value of the document [d] of its configuration. *)
Definition current (w : World) (v : positive) : Prop :=
  forall var d, vars w !! v = Some var -> datas w !! v_config_id var = Some d -> reloaded (m_json_data d) var = var.

(** The same variable and document, the same answer. *)
Lemma current_kept w w' v :
  (forall var', vars w' !! v = Some var' -> vars w !! v = Some var'
     /\ (exists d, datas w !! v_config_id var' = Some d
         /\ forall d', datas w' !! v_config_id var' = Some d' -> m_json_data d' = m_json_data d)) ->
  current w v -> current w' v.
Proof.
  intros Hk Hc var' d' Hv' Hd'. destruct (Hk var' Hv') as (Hv & d & Hd & Hj).
  rewrite (Hj d' Hd'). by apply Hc.
Qed.

Lemma LookUp_ok path dv id conv cb w v w' :
  world_ok w -> LookUp path dv id conv cb w = Returns v w' ->
  world_ok w' /\ current w' v /\ forall u, u <> v -> current w u -> current w' u.
Proof.
  intros Hok E. destruct (LookUp_spec path dv id conv cb w v w' Hok E)
    as (w1 & d & r & x & Hok1 & Ev & Hid & Hkeep & Er & Ex & Hv & ->).
  split; [by apply add_var_ok|]. split.
  - intros var du. cbn [add_var vars datas set_vars set_data]. rewrite lookup_insert_eq. intros [= <-].
    cbn [v_config_id]. rewrite lookup_insert_eq. intros [= <-]. unfold reloaded.
    cbn [v_path v_conv addListener snd m_json_data]. rewrite Er. destruct r; [by rewrite Ex|done|done].
  - intros u Hne. apply current_kept. cbn [add_var vars datas set_vars set_data]. intros var.
    rewrite lookup_insert_ne, Ev by done. intros Hu. split; [done|].
    destruct (ok_vars _ Hok u var Hu) as (d0 & Hd0 & _). pose proof (Hkeep _ _ Hd0) as Hd1. exists d0. split; [done|].
    intros d'. destruct (decide (v_config_id var = id)) as [Ei|Hni].
    + rewrite Ei, lookup_insert_eq. intros [= <-]. cbn. congruence.
    + rewrite lookup_insert_ne by done. congruence.
Qed.

Lemma setConfig_current id j a w w' :
  world_ok w -> setConfig id j w = Returns a w' ->
  forall v, (forall var, vars w !! v = Some var -> v_config_id var <> id -> current w v) -> current w' v.
Proof.
  intros Hok E v Hc. destruct (setConfig_spec id j a w w' Hok E) as (_ & Hall & (dj & Hdj & Ej) & Hkeep).
  intros var' d Hv Hd. rewrite Hall in Hv. destruct (vars w !! v) as [var|] eqn:Hvar; [|done].
  injection Hv as <-. unfold reload_var in *. destruct (Z.eqb_spec (v_config_id var) id) as [Hid|Hne].
  - destruct (reloaded_static j var) as (_ & Hi & _). rewrite Hi, Hid in Hd.
    assert (d = dj) as -> by congruence. rewrite Ej. apply reloaded_idemp.
  - destruct (ok_vars _ Hok v var Hvar) as (d0 & Hd0 & _). pose proof (Hkeep _ _ Hne Hd0) as H.
    assert (d = d0) as -> by congruence. by apply (Hc var).
Qed.

Lemma delListener_spec d k v :
  NoDup (map fst (m_cbs d)) -> 0 < k -> (k, v) ∈ m_cbs d ->
  (delListener k d).1 = 0 /\ m_json_data (delListener k d).2 = m_json_data d
  /\ m_max_listener_id (delListener k d).2 = m_max_listener_id d
  /\ m_cbs (delListener k d).2 = filter (fun e => e.1 <> k) (m_cbs d)
  /\ forall e, e ∈ m_cbs (delListener k d).2 <-> e ∈ m_cbs d /\ e <> (k, v).
Proof.
  intros Hnd Hk Hin. unfold delListener.
  assert (existsb (fun e => e.1 =? k) (m_cbs d) = true) as ->.
  { apply existsb_exists. exists (k, v). split; [by apply list_elem_of_In|]. cbn. lia. }
  destruct (Z.leb_spec k (-1)); [lia|]. cbn [negb orb fst snd m_json_data m_cbs m_max_listener_id].
  do 4 (split; [done|]). intros e. rewrite list_elem_of_filter. split; intros [H1 H2].
  - split; [done|]. by intros ->.
  - split; [|done]. intros E. apply H2. destruct e as [k' u]. cbn [fst] in E. subst k'. f_equal.
    apply list_elem_of_lookup in H1 as [n1 H1]. apply list_elem_of_lookup in Hin as [n2 Hin].
    assert (n1 = n2) as -> by (eapply NoDup_lookup; [exact Hnd|by rewrite list_lookup_fmap, H1|by rewrite list_lookup_fmap, Hin]).
    congruence.
Qed.

Lemma destroyVar_ok v w w' :
  world_ok w -> destroyVar v w = Some w' ->
  world_ok w' /\ vars w' = delete v (vars w) /\ forall u, current w u -> current w' u.
Proof.
  intros Hok. unfold destroyVar. destruct (vars w !! v) as [var|] eqn:Hv; [|done]. cbn [mbind option_bind].
  destruct (ok_vars _ Hok v var Hv) as (d & Hd & Hin). unfold getConfigData. rewrite Hd.
  destruct (ok_data _ Hok _ _ Hd) as (Hnd & Hall & Hmax & Hkeys).
  assert (Hk : 0 < v_listen_key var).
  { rewrite Forall_forall in Hall. destruct (Hall _ Hin) as [H _]. cbn in H. lia. }
  destruct (delListener_spec d (v_listen_key var) v Hkeys Hk Hin) as (_ & Ej & Em & Ec & Hel).
  destruct (delListener (v_listen_key var) d) as [rt d']. cbn [fst snd] in *. intros [= <-].
  set (id := v_config_id var) in *.
  assert (Hvars : forall u x, vars w !! u = Some x -> u <> v -> delete v (vars w) !! u = Some x).
  { intros u x Hu Hne. by rewrite lookup_delete_ne. }
  split; [|split; [done|]].
  - split; cbn [vars datas set_vars set_data].
    + intros i di. rewrite lookup_insert_Some. intros [[<- <-]|[Hne Hi]].
      * split; [|split].
        -- rewrite Ec. eapply sublist_NoDup; [exact Hnd|]. apply fmap_sublist, sublist_filter.
        -- rewrite Em. apply Forall_forall. intros [k u] [He Hne]%Hel. rewrite Forall_forall in Hall.
           destruct (Hall _ He) as (Hke & x & Hx & Hxk & Hxi). split; [done|]. exists x. split; [|done].
           cbn [vars set_vars snd] in *. apply Hvars; [done|]. intros ->. apply Hne.
           f_equal. cbn [fst] in Hxk. congruence.
        -- rewrite Em, Ec. split; [done|]. eapply sublist_NoDup; [exact Hkeys|]. apply fmap_sublist, sublist_filter.
      * destruct (ok_data _ Hok i di Hi) as (Hndi & Halli & Hmi). split; [done|]. split; [|done].
        eapply Forall_impl; [exact Halli|]. intros e (Hke & x & Hx & Hxk & Hxi). split; [done|]. exists x. split; [|done].
        cbn [vars set_vars]. apply Hvars; [done|]. intros E. rewrite E in Hx. assert (x = var) by congruence. by subst x.
    + intros u x. rewrite lookup_delete_Some. intros [Hne Hu]. destruct (ok_vars _ Hok u x Hu) as (di & Hdi & Hdin).
      destruct (decide (v_config_id x = id)) as [E|Hni]; [rewrite E, lookup_insert_eq|rewrite lookup_insert_ne by done; eauto].
      eexists. split; [done|]. apply Hel. assert (di = d) as -> by congruence. split; [done|]. congruence.
  - intros u. apply current_kept. intros x. cbn [vars datas set_vars set_data]. rewrite lookup_delete_Some.
    intros [Hne Hu]. split; [done|]. destruct (ok_vars _ Hok u x Hu) as (di & Hdi & _). exists di. split; [done|].
    intros d1. destruct (decide (v_config_id x = id)) as [E|Hni].
    + rewrite E, lookup_insert_eq. intros [= <-]. rewrite Ej. congruence.
    + rewrite lookup_insert_ne by done. congruence.
Qed.

Lemma config_assign_ok v x w w' :
  world_ok w -> assign v x w = Some w' -> world_ok w' /\ forall u, u <> v -> current w u -> current w' u.
Proof.
  intros Hok. unfold assign. destruct (vars w !! v) as [var|] eqn:Hv; [|done]. intros [= <-]. split.
  - apply (world_ok_values w); [done|done| |]; cbn [vars set_vars]; intros u.
    + intros var'. rewrite lookup_insert_Some. intros [[<- <-]|[_ H]]; [by exists var|by exists var'].
    + intros H. destruct (decide (u = v)) as [->|Hne]; [by rewrite lookup_insert_eq|by rewrite lookup_insert_ne].
  - intros u Hne. apply current_kept. cbn [vars datas set_vars]. intros var'. rewrite lookup_insert_ne by done.
    intros Hu. split; [done|]. destruct (ok_vars _ Hok u var' Hu) as (d & Hd & _). exists d. split; [done|].
    intros d'. congruence.
Qed.

(** ** Histories *)

(** What a program does: makes a variable or fails to, destroys one, assigns to one,
    loads a document into a configuration, with or without an exception, or a file
    that has none. *)
Inductive config_event :=
  | Made (v : positive)
  | NotMade
  | Destroyed (v : positive)
  | Assigned (v : positive)
  | Loaded (id : Z)
  | Interrupted (id : Z)
  | NotLoaded.

Inductive config_step : World -> config_event -> World -> Prop :=
  | step_lookup path dv id conv cb v w w' :
      LookUp path dv id conv cb w = Returns v w' -> config_step w (Made v) w'
  | step_lookup_throws path dv id conv cb w w' :
      LookUp path dv id conv cb w = Throws w' -> config_step w NotMade w'
  | step_destroy v w w' : destroyVar v w = Some w' -> config_step w (Destroyed v) w'
  | step_assign v x w w' : assign v x w = Some w' -> config_step w (Assigned v) w'
  | step_load j id rt w w' : LoadJson (Document j) id w = Returns rt w' -> config_step w (Loaded id) w'
  | step_load_throws j id w w' : LoadJson (Document j) id w = Throws w' -> config_step w (Interrupted id) w'
  | step_no_document file id rt w w' :
      (forall j, file <> Document j) -> LoadJson file id w = Returns rt w' -> config_step w NotLoaded w'.

(** The worlds after a history, the last event first. *)
Inductive config_reachable : list config_event -> World -> Prop :=
  | config_start r : config_reachable [] (MkWorld ∅ ∅ r)
  | config_next h w e w' : config_reachable h w -> config_step w e w' -> config_reachable (e :: h) w'.

(** Whether the last thing that happened to variable [v] of configuration [id] was
    that it was made or that a load of its configuration returned, and not that it
    was assigned to or that a load was interrupted. *)
Fixpoint follows (v : positive) (id : Z) (h : list config_event) : bool :=
  match h with
  | [] => true
  | Made u :: h => bool_decide (u = v) || follows v id h
  | Assigned u :: h => negb (bool_decide (u = v)) && follows v id h
  | Loaded i :: h => (i =? id) || follows v id h
  | Interrupted i :: h => negb (i =? id) && follows v id h
  | (NotMade | Destroyed _ | NotLoaded) :: h => follows v id h
  end.

Definition tracks (h : list config_event) (w : World) : Prop :=
  forall v var, vars w !! v = Some var -> follows v (v_config_id var) h = true -> current w v.

Lemma config_load_ok h w id j w' :
  world_ok w -> tracks h w ->
  (forall rt, LoadJson (Document j) id w = Returns rt w' -> world_ok w' /\ tracks (Loaded id :: h) w')
  /\ (LoadJson (Document j) id w = Throws w' -> world_ok w' /\ tracks (Interrupted id :: h) w').
Proof.
  intros Hok Ht. cbn [LoadJson]. destruct (setConfig id j w) as [a w1|w1|] eqn:E; (split; [intros rt|]); try done.
  - intros [= _ <-]. destruct (setConfig_spec id j a w w1 Hok E) as (Hok1 & Hall & _). split; [done|].
    intros v var' Hv Hf. apply (setConfig_current id j a w w1 Hok E). intros var Hvar Hne. apply (Ht v var Hvar).
    rewrite Hall, Hvar in Hv. injection Hv as <-. unfold reload_var in Hf. cbn [follows] in Hf.
    rewrite (proj2 (Z.eqb_neq _ _) Hne), orb_comm in Hf.
    destruct (Z.eqb_spec id (v_config_id var)); [congruence|]. by rewrite orb_false_r in Hf.
  - intros [= <-]. destruct (setConfig_throws id j w w1 Hok E) as (Hok1 & _ & Hkeep & Hback). split; [done|].
    intros v var' Hv Hf. cbn [follows] in Hf. apply andb_true_iff in Hf as [Hi Hf].
    destruct (Hback v var' Hv) as (var & Hvar & Hid & Hsame). apply negb_true_iff, Z.eqb_neq in Hi.
    assert (var' = var) as -> by (apply Hsame; congruence). pose proof (Ht v var Hvar Hf) as Hc. revert Hc.
    apply current_kept. intros x Hx. assert (x = var) as -> by congruence. split; [done|].
    destruct (ok_vars _ Hok v var Hvar) as (d & Hd & _). exists d. split; [done|]. intros d' Hd'.
    assert (v_config_id var <> id) as Hne by congruence. rewrite (Hkeep _ _ Hne Hd) in Hd'. congruence.
Qed.

Lemma config_step_ok h w e w' :
  world_ok w -> tracks h w -> config_step w e w' -> world_ok w' /\ tracks (e :: h) w'.
Proof.
  intros Hok Ht. destruct 1 as [path dv id conv cb v w w' E|path dv id conv cb w w' E|v w w' E|v x w w' E
    |j id rt w w' E|j id w w' E|file id rt w w' Hf E].
  - destruct (LookUp_ok _ _ _ _ _ _ _ _ Hok E) as (Hok' & Hv & Hrest). split; [done|]. intros u var Hu Hf.
    destruct (decide (u = v)) as [->|Hne]; [done|]. apply Hrest; [done|].
    destruct (LookUp_spec _ _ _ _ _ _ _ _ Hok E) as (w1 & d & r & x & _ & Ev & _ & _ & _ & _ & _ & ->).
    cbn [add_var vars set_vars set_data] in Hu. rewrite lookup_insert_ne, Ev in Hu by done. apply (Ht u var Hu).
    cbn [follows] in Hf. by rewrite bool_decide_false in Hf.
  - destruct (LookUp_throws _ _ _ _ _ _ _ Hok E) as (Hok' & Ev & Hkeep). split; [done|]. intros u var Hu Hf.
    cbn [follows] in Hf.
    rewrite Ev in Hu. apply (current_kept w); [|by apply (Ht u var)]. intros var'. rewrite Ev. intros Hvar'.
    split; [done|]. destruct (ok_vars _ Hok u var' Hvar') as (d & Hd & _). exists d. split; [done|].
    intros d' Hd'. rewrite (Hkeep _ _ Hd) in Hd'. congruence.
  - destruct (destroyVar_ok v w w' Hok E) as (Hok' & Ev & Hrest). split; [done|]. intros u var Hu Hf.
    rewrite Ev, lookup_delete_Some in Hu. destruct Hu as [_ Hu]. apply Hrest. exact (Ht u var Hu Hf).
  - destruct (config_assign_ok v x w w' Hok E) as [Hok' Hrest]. split; [done|]. intros u var Hu Hf. cbn [follows] in Hf.
    apply andb_true_iff in Hf as [Hne Hf]. destruct (bool_decide_reflect (v = u)) as [|Hvu]; [done|].
    unfold assign in E. destruct (vars w !! v) as [var0|]; [|done]. injection E as <-.
    cbn [vars set_vars] in Hu. rewrite lookup_insert_ne in Hu by done. apply Hrest; [congruence|]. by apply (Ht u var).
  - by eapply config_load_ok.
  - by eapply config_load_ok.
  - destruct file as [| |j]; [by injection E as _ <-..|]. by destruct (Hf j).
Qed.

Lemma config_reachable_ok h w : config_reachable h w -> world_ok w /\ tracks h w.
Proof.
  induction 1 as [r|h w e w' _ [Hok Ht] E]; [|by eapply config_step_ok].
  split; [split; [apply map_Forall_empty|]|]; intros v var; cbn [vars]; by rewrite lookup_empty.
Qed.
End Config.

(** C30. Variables follow their configuration: after any history of making,
    destroying and assigning to variables and of loading documents, exceptions of
    constructors, conversions and callbacks included, a variable has the value that
    the current document of its configuration gives to its path, if the last thing
    that happened to it was that it was made or that a load of its configuration
    returned.  After an assignment to it, or a load that an exception interrupted,
    it need not, until the next load returns. *)
Theorem variables_track `{J : Json} {V W} h (w : World (V := V) (W := W)) v var d j x :
  config_reachable h w -> vars w !! v = Some var -> datas w !! v_config_id var = Some d ->
  follows v (v_config_id var) h = true ->
  getJsonValueByPath (m_json_data d) (v_path var) = Some (Found j) -> v_conv var j = Some x -> v_val var = x.
Proof.
  intros Hr Hv Hd Hf Hj Hx. destruct (config_reachable_ok h w Hr) as [_ Ht]. pose proof (Ht v var Hv Hf var d Hv Hd) as H.
  unfold reloaded in H. rewrite Hj, Hx in H. by rewrite <- H.
Qed.

(** A document is taken as a whole: when every variable of the configuration
    accepts it and the callbacks return, loading it returns 0, replaces the
    document and gives each of these variables its value, or leaves it as it is
    where the path is missing, and leaves the variables of other configurations alone. *)
Theorem document_taken `{J : Json} {V W} (I : W -> Prop) id j h (w : World (V := V) (W := W)) :
  config_reachable h w -> I (rest w) ->
  (forall v var, vars w !! v = Some var -> v_config_id var = id -> accepts j var /\ cb_ok I var) ->
  exists w', LoadJson (Document j) id w = Returns 0 w' /\ I (rest w')
    /\ (exists d, datas w' !! id = Some d /\ m_json_data d = j)
    /\ forall v, vars w' !! v = reload_var id j <$> vars w !! v.
Proof.
  intros Hr Hi Hall. destruct (config_reachable_ok h w Hr) as [Hok _].
  destruct (setConfig_total I id j w Hok Hi Hall) as (w' & E & Hi').
  destruct (setConfig_spec id j 0 w w' Hok E) as (_ & Hv & Hd & _).
  exists w'. split; [cbn; by rewrite E|]. done.
Qed.

(** [setConfig(const nlohmann::json&)] does not return: it asks for the shared lock
    of the mutex it holds exclusively. *)
Theorem setConfig_copy_waits `{J : Json} {V W} id j (w : World (V := V) (W := W)) : setConfig_copy id j w = Dies.
Proof. unfold setConfig_copy. by destruct (getConfigData id w). Qed.

(** ** An instance of the JSON library *)

Inductive jdoc := JNull | JText (s : list Z) | JArray (l : list jdoc) | JObject (l : smap jdoc).

Definition jdoc_set (k : list Z) (v o : jdoc) : jdoc :=
  match o with JNull => JObject [(k, v)] | JObject l => JObject (sm_set k v l) | _ => o end.
Definition jdoc_push (a v : jdoc) : jdoc :=
  match a with JNull => JArray [v] | JArray l => JArray (l ++ [v]) | _ => a end.

#[export] Instance doc_json : Json := {|
  json := jdoc;
  jnull := JNull;
  jstr := JText;
  jsize j := match j with JNull => 0 | JText _ => 1 | JArray l => zlen l | JObject l => zlen l end;
  jfind j k := match j with JObject l => sm_find k l | _ => None end;
  jat j i := match j with JArray l => if i <? 0 then None else l !! Z.to_nat i | _ => None end;
  jstring j := match j with JText s => Some s | _ => None end;
  jset := jdoc_set;
  jpush := jdoc_push;
|}.

Lemma doc_object (o : jdoc) : jobject o -> o = JNull \/ exists l, o = JObject l.
Proof. induction 1 as [|k v o _ [-> | [l ->]]]; [by left|right; by eexists..]. Qed.
Lemma doc_array (a : jdoc) : jarray a -> a = JNull \/ exists l, a = JArray l.
Proof. induction 1 as [|a v _ [-> | [l ->]]]; [by left|right; by eexists..]. Qed.

#[export] Instance doc_json_laws : JsonLaws.
Proof.
  split; try done.
  - intros o k k' v [-> | [l ->]]%doc_object; [done|]. cbn. destruct (str_eqb k' k) eqn:E.
    + apply str_eqb_spec in E as ->. apply sm_find_set.
    + apply sm_find_set_ne. intros ->. by rewrite str_eqb_refl in E.
  - intros a v [-> | [l ->]]%doc_array; [done|]. cbn. by rewrite zlen_app.
  - intros a v i [-> | [l ->]]%doc_array Hi; cbn in *.
    + by replace i with 0 by lia.
    + destruct (Z.ltb_spec i 0); [lia|]. unfold zlen in *. destruct (Z.eqb_spec i (Z.of_nat (length l))) as [->|Hne].
      * rewrite Nat2Z.id. by apply list_lookup_middle.
      * apply lookup_app_l. lia.
Qed.

(** ** A sample *)

Definition sample_doc (v : list Z) : jdoc :=
  JObject [(str "servers", JArray [JObject [(str "name", JText (str "first"))]; JObject [(str "name", JText v)]])].

Definition sample_var_world : World (V := list Z) (W := unit) :=
  match LookUp (str "servers.1.name") (str "none") 0 jstring None (MkWorld ∅ ∅ tt) with
  | Returns _ w => w
  | _ => MkWorld ∅ ∅ tt
  end.
Definition sample_loaded : World (V := list Z) (W := unit) :=
  match LoadJson (Document (sample_doc (str "second"))) 0 sample_var_world with
  | Returns _ w => w
  | _ => sample_var_world
  end.

Lemma sample_var_reachable : config_reachable [Made 1] sample_var_world.
Proof.
  exact (config_next [] _ _ _ (config_start tt)
    (step_lookup (str "servers.1.name") (str "none") 0 jstring None 1%positive (MkWorld ∅ ∅ tt) sample_var_world eq_refl)).
Qed.

Lemma variables_track_witness :
  exists var, vars sample_loaded !! 1%positive = Some var /\ v_val var = str "second".
Proof.
  eexists. split; [reflexivity|].
  apply (variables_track [Loaded 0; Made 1] sample_loaded 1 _
    (MkData (J := doc_json) (sample_doc (str "second")) [(1, 1%positive)] 1) (JText (str "second"))).
  - exact (config_next [Made 1] _ _ _ sample_var_reachable
      (step_load (sample_doc (str "second") : json) 0 0 sample_var_world sample_loaded eq_refl)).
  - reflexivity.
  - reflexivity.
  - reflexivity.
  - reflexivity.
  - reflexivity.
Defined.

Lemma document_taken_witness :
  exists w', LoadJson (Document (sample_doc (str "third"))) 0 sample_var_world = Returns 0 w'
    /\ True
    /\ (exists d, datas w' !! 0 = Some d /\ m_json_data d = sample_doc (str "third"))
    /\ forall v, vars w' !! v = reload_var 0 (sample_doc (str "third")) <$> vars sample_var_world !! v.
Proof.
  apply (document_taken (J := doc_json) (fun _ => True) 0 (sample_doc (str "third")) [Made 1] sample_var_world).
  - exact sample_var_reachable.
  - exact I.
  - intros v var Hv _.
    assert (Hall : map_Forall (fun _ var => accepts (J := doc_json) (sample_doc (str "third")) var /\ v_cb var = None)
      (vars sample_var_world)) by (apply map_Forall_insert_2; [split; [by eexists|done]|apply map_Forall_empty]).
    destruct (Hall v var Hv) as [Ha Hn]. split; [done|]. intros f x r Hf. congruence.
Defined.

(** An exception stops a load half-way: of two variables, the first cannot convert
    the new document; the document is replaced, and the second keeps the value of
    the document before. *)
Definition sample_bad : jdoc := JObject [(str "servers", JArray [JObject [(str "name", JNull)]; JObject [(str "name", JText (str "new"))]])].

Theorem throwing_load_leaves_stale :
  exists w0 w' var d,
    LookUp (J := doc_json) (str "servers.0.name") (str "none") 0 jstring None (MkWorld ∅ ∅ tt) = Returns 1%positive w0
    /\ match LookUp (J := doc_json) (str "servers.1.name") (str "none") 0 jstring None w0 with
       | Returns 2%positive w1 => LoadJson (Document (J := doc_json) sample_bad) 0 w1 = Throws w'
       | _ => False
       end
    /\ vars w' !! 2%positive = Some var /\ v_val var = str "none"
    /\ datas w' !! 0 = Some d /\ m_json_data d = sample_bad
    /\ getJsonValueByPath (m_json_data d) (v_path var) = Some (Found (JText (str "new"))).
Proof. do 4 eexists. split; [reflexivity|]. split; [reflexivity|]. repeat (split; [reflexivity|]). reflexivity. Qed.
