(* ===== verification/LogConfig.v ===== *)
(** * The configuration of the loggers

    Models the two conversions of [sylar/basic/log.cc] between a JSON document and a
    set of logger definitions, and the variable [logs] through which a document
    that is loaded reconfigures the loggers.  [None] is an exception of the JSON
    library.  A member a constructor leaves uninitialised has an arbitrary value. *)

From stdpp Require Import gmap.
From S2P Require Import Prelude CppString StdMap LogFormat Logger LogManager Config.

Section Conversion.
Context `{J : Json} (junk_type : Z) (junk_level : Level).

(** [j["key"]] as a string if the key is there. *)
Definition member (j : json) (key : string) : option (option (list Z)) :=
  match jfind j (str key) with
  | Some v => s ← jstring v; Some (Some s)
  | None => Some None
  end.

Definition has (j : json) (key : string) : bool := match jfind j (str key) with Some _ => true | None => false end.

(** The round of the loop over the appenders. *)
Definition appender_of (j : json) : option LogAppenderDefine :=
  type ← member j "type";
  '(t, file) ← match type with
               | None => Some (junk_type, [])
               | Some type =>
                   if str_eqb type (str "StdoutLogAppender") then Some (0, [])
                   else if str_eqb type (str "FileLogAppender") && has j "file" then
                     file ← member j "file"; Some (1, default [] file)
                   else Some (-1, [])
               end;
  level ← member j "level";
  formatter ← member j "formatter";
  Some (MkAppenderDefine t (match level with Some s => Level_FromString s | None => UNKNOWN end)
          (newFormatter <$> formatter) file).

(** [for(int j = 0; j < appender_json.size(); j++)]: [n] rounds are left from index [i] on. *)
Fixpoint appenders_of (j : json) (n : nat) (i : Z) : option (list LogAppenderDefine) :=
  match n with
  | O => Some []
  | S n =>
      a ← jat j i;
      d ← appender_of a;
      ds ← appenders_of j n (i + 1);
      Some (if isValid d then d :: ds else ds)
  end.

(** The round of the outer loop; [None] inside: the definition is skipped. *)
Definition define_of (j : json) : option (option LogDefine) :=
  name ← member j "name";
  level ← member j "level";
  formatter ← member j "formatter";
  match jfind j (str "appenders") with
  | None => Some None
  | Some aps =>
      ds ← appenders_of aps (Z.to_nat (jsize aps)) 0;
      Some (Some (MkDefine (default [] name) (match level with Some s => Level_FromString s | None => junk_level end)
                    (newFormatter <$> formatter) ds))
  end.

Fixpoint defines_loop (j : json) (n : nat) (i : Z) (acc : smap LogDefine) : option (smap LogDefine) :=
  match n with
  | O => Some acc
  | S n =>
      x ← jat j i;
      d ← define_of x;
      defines_loop j n (i + 1) (match d with Some d => sm_insert (ld_name d) d acc | None => acc end)
  end.

(** [FormatConversion<nlohmann::json, std::set<LogDefine>>] *)
Definition defines_of_json (j : json) : option (smap LogDefine) := defines_loop j (Z.to_nat (jsize j)) 0 [].

(** ** To JSON *)

Definition set_formatter (f : option LogFormatter) (j : json) : json :=
  match f with Some f => jset (str "formatter") (jstr (m_pattern f)) j | None => j end.

Definition appender_json (d : LogAppenderDefine) : json :=
  let j := jnull in
  let j := if d_type d =? 0 then jset (str "type") (jstr (str "StdoutLogAppender")) j
           else if d_type d =? 1 then
             jset (str "file") (jstr (d_file d)) (jset (str "type") (jstr (str "FileLogAppender")) j)
           else j in
  let j := jset (str "level") (jstr (level_to_string (d_level d))) j in
  set_formatter (d_formatter d) j.

(** [j["appenders"].push_back(a)] *)
Definition push_appender (j a : json) : json :=
  jset (str "appenders") (jpush (default jnull (jfind j (str "appenders"))) a) j.

Definition define_json (d : LogDefine) : json :=
  let j := jset (str "name") (jstr (ld_name d)) jnull in
  let j := jset (str "level") (jstr (level_to_string (ld_level d))) j in
  let j := set_formatter (ld_formatter d) j in
  fold_left push_appender (map appender_json (ld_appenders d)) j.

(** [FormatConversion<std::set<LogDefine>, nlohmann::json>] *)
Definition json_of_defines (ds : smap LogDefine) : json := fold_left jpush (map (fun e => define_json e.2) ds) jnull.

(** ** The round trip *)

Definition formatter_ok (f : option LogFormatter) : Prop :=
  match f with Some f => f = newFormatter (m_pattern f) | None => True end.

(** Definitions as configurations make them: known types, a file name exactly for
    the file appenders. *)
Definition appender_plain (d : LogAppenderDefine) : Prop :=
  (d_type d = 0 /\ d_file d = [] \/ d_type d = 1 /\ d_file d <> []) /\ formatter_ok (d_formatter d).

Definition define_plain (d : LogDefine) : Prop :=
  Forall appender_plain (ld_appenders d) /\ formatter_ok (ld_formatter d).

(** Whatever a document converts to is a set of valid definitions. *)
Lemma appenders_of_valid j n : forall i ds, appenders_of j n i = Some ds -> Forall (fun d => isValid d = true) ds.
Proof.
  induction n as [|n IH]; intros i ds; cbn [appenders_of]; [by intros [= <-]|].
  destruct (jat j i) as [a|]; [|done]. cbn [mbind option_bind]. destruct (appender_of a) as [d|]; [|done].
  cbn [mbind option_bind]. destruct (appenders_of j n (i + 1)) as [ds'|] eqn:E; [|done]. cbn [mbind option_bind].
  apply IH in E. destruct (isValid d) eqn:Ev; intros [= <-]; [by constructor|done].
Qed.

Lemma define_of_ok j d : define_of j = Some (Some d) -> define_ok d.
Proof.
  unfold define_of. destruct (member j "name"); [|done]. destruct (member j "level"); [|done].
  destruct (member j "formatter"); [|done]. cbn [mbind option_bind]. destruct (jfind j (str "appenders")); [|done].
  destruct (appenders_of _ _ _) as [ds|] eqn:E; [|done]. cbn [mbind option_bind]. intros [= <-].
  by eapply appenders_of_valid.
Qed.

Lemma sm_insert_defines d ds : defines_ok ds -> define_ok d -> defines_ok (sm_insert (ld_name d) d ds).
Proof.
  intros [Hs Hall] Hd. split; [by apply sorted_insert|]. unfold sm_insert. destruct (sm_find _ _); [done|].
  rewrite Forall_forall in *. intros e [-> | He]%sm_set_elem; auto.
Qed.

Lemma defines_loop_ok j n : forall i acc ds, defines_ok acc -> defines_loop j n i acc = Some ds -> defines_ok ds.
Proof.
  induction n as [|n IH]; intros i acc ds Ha; cbn [defines_loop]; [by intros [= <-]|].
  destruct (jat j i) as [x|]; [|done]. cbn [mbind option_bind]. destruct (define_of x) as [d|] eqn:E; [|done].
  cbn [mbind option_bind]. apply IH. destruct d as [d|]; [|done]. apply sm_insert_defines; [done|]. by eapply define_of_ok.
Qed.

Lemma defines_of_json_ok j ds : defines_of_json j = Some ds -> defines_ok ds.
Proof. apply defines_loop_ok. split; [apply sorted_nil|constructor]. Qed.

Context `{!JsonLaws}.

Hint Constructors jobject jarray : sylar.

Lemma set_formatter_object f o : jobject o -> jobject (set_formatter f o).
Proof. destruct f; cbn; auto with sylar. Qed.

Lemma find_formatter f o k : jobject o ->
  jfind (set_formatter f o) k = if str_eqb k (str "formatter")
    then match f with Some f => Some (jstr (m_pattern f)) | None => jfind o k end else jfind o k.
Proof.
  intros Ho. destruct f as [f|]; cbn [set_formatter]; [by rewrite jfind_set|by destruct (str_eqb _ _)].
Qed.

Lemma appender_json_object d : jobject (appender_json d).
Proof. unfold appender_json. apply set_formatter_object. repeat case_bool; auto with sylar. Qed.

(** Looks the keys up in objects that were built key by key. *)
Ltac find_keys :=
  repeat first
    [ rewrite find_formatter by eauto 6 with sylar
    | rewrite jfind_set by eauto 6 with sylar
    | match goal with
      | |- context [str_eqb (str ?a) (str ?b)] =>
          let r := eval vm_compute in (str_eqb (str a) (str b)) in change (str_eqb (str a) (str b)) with r; cbv iota
      end ];
  rewrite ?jfind_null.

Lemma member_formatter f o key : jobject o ->
  jfind o (str key) = None -> key = "formatter"%string -> formatter_ok f ->
  exists p, member (set_formatter f o) key = Some p /\ newFormatter <$> p = f.
Proof.
  intros Ho Hn -> Hf. unfold member. rewrite find_formatter by done. find_keys.
  destruct f as [f|]; [|rewrite Hn; by exists None]. rewrite jstring_jstr. cbn [mbind option_bind].
  exists (Some (m_pattern f)). split; [done|]. cbn. by rewrite <- Hf.
Qed.

Lemma appender_roundtrip d : appender_plain d -> appender_of (appender_json d) = Some d.
Proof.
  intros [Ht Hf]. destruct d as [t lv f file]. cbn [d_type d_level d_formatter d_file] in *.
  unfold appender_json. cbn [d_type d_level d_formatter d_file].
  assert (E : exists o, jobject o /\ jfind o (str "formatter") = None
    /\ (t = 0 -> jfind o (str "type") = Some (jstr (str "StdoutLogAppender")))
    /\ (t = 1 -> jfind o (str "type") = Some (jstr (str "FileLogAppender")) /\ jfind o (str "file") = Some (jstr file))
    /\ jfind o (str "level") = Some (jstr (level_to_string lv))
    /\ set_formatter f (jset (str "level") (jstr (level_to_string lv))
         (if t =? 0 then jset (str "type") (jstr (str "StdoutLogAppender")) jnull
          else if t =? 1 then jset (str "file") (jstr file) (jset (str "type") (jstr (str "FileLogAppender")) jnull)
          else jnull)) = set_formatter f o).
  { eexists. split; [|split; [|split; [|split; [|split; [|reflexivity]]]]].
    - destruct (t =? 0), (t =? 1); eauto with sylar.
    - destruct (t =? 0), (t =? 1); by find_keys.
    - intros ->. cbn [Z.eqb]. by find_keys.
    - intros ->. change (1 =? 0) with false; change (1 =? 1) with true; cbv iota. split; by find_keys.
    - destruct (t =? 0), (t =? 1); by find_keys. }
  destruct E as (o & Ho & Hnf & H0 & H1 & Hl & ->). unfold appender_of.
  destruct (member_formatter f o "formatter" Ho Hnf eq_refl Hf) as (p & Hp & Hpf).
  assert (Hmem : forall k v, str_eqb (str k) (str "formatter") = false -> jfind o (str k) = Some (jstr v) ->
    member (set_formatter f o) k = Some (Some v)).
  { intros k v Hk Hfind. unfold member. rewrite find_formatter, Hk, Hfind, jstring_jstr by done. done. }
  rewrite Hp. rewrite (Hmem "level"%string (level_to_string lv)) by done.
  destruct Ht as [[-> ->]|[-> Hne]].
  - rewrite (Hmem "type"%string (str "StdoutLogAppender")) by auto. cbn [mbind option_bind].
    change (str_eqb (str "StdoutLogAppender") (str "StdoutLogAppender")) with true; cbv iota. cbn [mbind option_bind]. by rewrite level_roundtrip, Hpf.
  - destruct (H1 eq_refl) as [Hty Hfile]. rewrite (Hmem "type"%string (str "FileLogAppender")) by auto.
    rewrite (Hmem "file"%string file) by auto. unfold has. rewrite find_formatter, Hfile by done.
    cbn [mbind option_bind default from_option id]. change (str_eqb (str "FileLogAppender") (str "FileLogAppender")) with true.
    change (str_eqb (str "FileLogAppender") (str "StdoutLogAppender")) with false.
    change (str_eqb (str "file") (str "formatter")) with false. cbn [andb mbind option_bind].
    by rewrite level_roundtrip, Hpf.
Qed.

(** Arrays read back as they were pushed. *)
Lemma push_all xs a :
  jarray a ->
  jarray (fold_left jpush xs a) /\ jsize (fold_left jpush xs a) = jsize a + zlen xs
  /\ (forall i, 0 <= i < jsize a -> jat (fold_left jpush xs a) i = jat a i)
  /\ (forall n x, 0 <= jsize a -> xs !! n = Some x -> jat (fold_left jpush xs a) (jsize a + Z.of_nat n) = Some x).
Proof.
  revert a. induction xs as [|x xs IH]; intros a Ha; cbn [fold_left].
  - split; [done|]. split; [rewrite zlen_nil; lia|]. split; [done|]. intros n x _ Hx. done.
  - destruct (IH (jpush a x) (jarray_push _ _ Ha)) as (H1 & H2 & H3 & H4). rewrite jsize_push in * by done.
    split; [done|]. split; [rewrite zlen_cons; lia|]. split.
    + intros i Hi. rewrite H3 by lia. rewrite jat_push by (done || lia). destruct (Z.eqb_spec i (jsize a)); [lia|done].
    + intros [|n] y Hs Hy.
      * injection Hy as <-. replace (jsize a + Z.of_nat 0) with (jsize a) by lia. rewrite H3 by lia.
        rewrite jat_push by (done || lia). by rewrite Z.eqb_refl.
      * replace (jsize a + Z.of_nat (S n)) with (jsize a + 1 + Z.of_nat n) by lia. apply H4; [lia|done].
Qed.

Lemma push_all_null xs :
  jsize (fold_left jpush xs jnull) = zlen xs
  /\ forall n x, xs !! n = Some x -> jat (fold_left jpush xs jnull) (Z.of_nat n) = Some x.
Proof.
  destruct (push_all xs jnull jarray_null) as (_ & Hs & _ & Ha). rewrite jsize_null in *.
  split; [lia|]. intros n x Hx. rewrite <- (Z.add_0_l (Z.of_nat n)). apply Ha; [lia|done].
Qed.

Lemma appenders_roundtrip j ds : forall pre,
  (forall n d, (pre ++ ds) !! n = Some d -> jat j (Z.of_nat n) = Some (appender_json d)) ->
  Forall appender_plain ds ->
  appenders_of j (length ds) (zlen pre) = Some ds.
Proof.
  induction ds as [|d ds IH]; intros pre Hj Hp; [done|]. apply Forall_cons in Hp as [Hd Hp]. cbn [length appenders_of].
  unfold zlen. rewrite (Hj (length pre) d) by (by apply list_lookup_middle). cbn [mbind option_bind].
  rewrite appender_roundtrip by done. cbn [mbind option_bind].
  replace (Z.of_nat (length pre) + 1) with (zlen (pre ++ [d])) by (rewrite zlen_app; done).
  rewrite IH; [|intros n x Hx; apply Hj; by rewrite <- app_assoc in Hx|done]. cbn [mbind option_bind].
  assert (isValid d = true) as ->; [|done]. unfold isValid. destruct Hd as [[[-> _]|[-> Hne]] _]; [done|].
  cbn. by destruct (d_file d).
Qed.

Lemma push_appenders xs : forall o,
  jobject o ->
  (forall k, str_eqb k (str "appenders") = false -> jfind (fold_left push_appender xs o) k = jfind o k)
  /\ jfind (fold_left push_appender xs o) (str "appenders")
     = match xs with
       | [] => jfind o (str "appenders")
       | _ => Some (fold_left jpush xs (default jnull (jfind o (str "appenders"))))
       end.
Proof.
  induction xs as [|x xs IH]; intros o Ho; [done|]. cbn [fold_left].
  destruct (IH (push_appender o x)) as [H1 H2]; [by constructor|]. unfold push_appender in *. split.
  - intros k Hk. rewrite H1 by done. by rewrite jfind_set, Hk.
  - rewrite H2, jfind_set, str_eqb_refl by done. by destruct xs.
Qed.

(** The members of the object of a definition. *)
Lemma define_json_members d :
  formatter_ok (ld_formatter d) ->
  member (define_json d) "name" = Some (Some (ld_name d))
  /\ member (define_json d) "level" = Some (Some (level_to_string (ld_level d)))
  /\ (exists p, member (define_json d) "formatter" = Some p /\ newFormatter <$> p = ld_formatter d)
  /\ jfind (define_json d) (str "appenders")
     = match ld_appenders d with
       | [] => None
       | _ => Some (fold_left jpush (map appender_json (ld_appenders d)) jnull)
       end.
Proof.
  intros Hf. unfold define_json.
  set (o := jset (str "level") _ _). assert (Ho : jobject o) by (unfold o; auto with sylar).
  assert (Hso : jobject (set_formatter (ld_formatter d) o)) by (by apply set_formatter_object).
  destruct (push_appenders (map appender_json (ld_appenders d)) _ Hso) as [Hk Ha].
  assert (Hmem : forall k, str_eqb (str k) (str "appenders") = false ->
    member (fold_left push_appender (map appender_json (ld_appenders d)) (set_formatter (ld_formatter d) o)) k
    = member (set_formatter (ld_formatter d) o) k) by (intros k Hne; unfold member; by rewrite Hk).
  rewrite !Hmem by done. split; [|split; [|split]].
  - unfold member, o. find_keys. by rewrite jstring_jstr.
  - unfold member, o. find_keys. by rewrite jstring_jstr.
  - apply member_formatter; [done| |done|done]. unfold o. by find_keys.
  - rewrite Ha. assert (jfind (set_formatter (ld_formatter d) o) (str "appenders") = None) as ->
      by (unfold o; by find_keys). by destruct (ld_appenders d).
Qed.

Lemma define_roundtrip d :
  define_plain d ->
  define_of (define_json d) = Some (if bool_decide (ld_appenders d = []) then None else Some d).
Proof.
  intros [Hp Hf]. destruct (define_json_members d Hf) as (Hn & Hl & (p & Hfm & Hpf) & Ha).
  unfold define_of. rewrite Hn, Hl, Hfm, Ha. cbn [mbind option_bind].
  destruct (ld_appenders d) as [|a ds] eqn:Ed; [done|]. rewrite <- Ed in *.
  destruct (push_all_null (map appender_json (ld_appenders d))) as [Hsize Hat].
  rewrite Hsize. unfold zlen. rewrite length_map, Nat2Z.id.
  rewrite (appenders_roundtrip _ (ld_appenders d) []); [|intros n x Hx; cbn [app] in Hx; apply Hat; by rewrite list_lookup_fmap, Hx|done].
  cbn [mbind option_bind]. rewrite bool_decide_eq_false_2 by (by rewrite Ed).
  rewrite level_roundtrip, Hpf. by destruct d.
Qed.

Lemma defines_loop_roundtrip j (es : smap LogDefine) : forall pre acc,
  (forall n e, (pre ++ es) !! n = Some e -> jat j (Z.of_nat n) = Some (define_json e.2)) ->
  Forall (fun e => ld_name e.2 = e.1 /\ define_plain e.2) es ->
  defines_loop j (length es) (zlen pre) acc
  = Some (fold_left (fun acc e => sm_insert e.1 e.2 acc) (filter (fun e => ld_appenders e.2 <> []) es) acc).
Proof.
  induction es as [|[n d] es IH]; intros pre acc Hj Hp; [done|].
  apply Forall_cons in Hp as [[Hn Hd] Hp]. cbn [fst snd] in Hn, Hd. cbn [length defines_loop].
  unfold zlen. rewrite (Hj (length pre) (n, d)) by (by apply list_lookup_middle). cbn [mbind option_bind snd].
  rewrite define_roundtrip by done. cbn [mbind option_bind].
  replace (Z.of_nat (length pre) + 1) with (zlen (pre ++ [(n, d)])) by (rewrite zlen_app; done).
  rewrite IH; [|intros m e He; apply Hj; by rewrite <- app_assoc in He|done].
  rewrite filter_cons. cbn [snd]. case_bool_decide as Hb; case_decide as Hc; try done.
  cbn [fold_left fst snd]. by rewrite Hn.
Qed.

Lemma sorted_filter (P : list Z * LogDefine -> Prop) `{!forall x, Decision (P x)} (m : smap LogDefine) :
  sorted m -> sorted (filter P m).
Proof.
  unfold sorted. induction 1 as [|e m Hs IH Hall]; [constructor|]. rewrite filter_cons. case_decide; [|done].
  constructor; [done|]. apply Forall_forall. intros x [_ Hx]%list_elem_of_filter. rewrite Forall_forall in Hall. auto.
Qed.

(** Definitions written as JSON read back as they were, except those without appenders. *)
Lemma json_roundtrip ds :
  sorted ds -> Forall (fun e => ld_name e.2 = e.1 /\ define_plain e.2) ds ->
  defines_of_json (json_of_defines ds) = Some (filter (fun e => ld_appenders e.2 <> []) ds).
Proof.
  intros Hs Hp. unfold defines_of_json, json_of_defines.
  destruct (push_all_null (map (fun e => define_json e.2) ds)) as [Hsize Hat].
  rewrite Hsize. unfold zlen. rewrite length_map, Nat2Z.id.
  rewrite (defines_loop_roundtrip _ ds [] []); [|intros n x Hx; cbn [app] in Hx; apply Hat; by rewrite list_lookup_fmap, Hx|done].
  f_equal. apply (sm_insert_all _ []). by apply sorted_filter.
Qed.
End Conversion.

(** C34. The configuration of the loggers written as JSON and read back: of a set
    of definitions with formatters made from their patterns, appenders of the two
    known types and a file name exactly for the file appenders, the definitions
    that have appenders read back as they were, whatever the uninitialised members
    hold, and those without appenders are gone. *)
Theorem log_config_roundtrip `{J : Json, !JsonLaws} junk_type junk_level ds :
  sorted ds -> Forall (fun e => ld_name e.2 = e.1 /\ define_plain e.2) ds ->
  defines_of_json junk_type junk_level (json_of_defines ds) = Some (filter (fun e => ld_appenders e.2 <> []) ds).
Proof. exact (json_roundtrip junk_type junk_level ds). Qed.

(** A definition without appenders, such as that of a logger [getLogger] made, is
    written but not read back. *)
Theorem define_without_appenders_dropped `{J : Json, !JsonLaws} junk_type junk_level n lv :
  defines_of_json junk_type junk_level (json_of_defines [(n, MkDefine n lv None [])]) = Some [].
Proof. apply (json_roundtrip junk_type junk_level [(n, MkDefine n lv None [])]); repeat constructor. Qed.

(** ** The variable [logs]

    The configuration has other variables, with values of type [U] and callbacks
    that act on the rest of the program [R]; they may log. *)

Section Logs.
Context `{Json} {U R : Type} (can_open : list Z -> bool) (junk_type : Z) (junk_level : Level).
Notation value := (smap LogDefine + U)%type.
Notation state := (LogState * R)%type.

(** The callback of [logs]: a call that does not return is the end of the thread. *)
Definition logs_cb (x : value) (r : state) : outcome unit state :=
  match x with
  | inl ds => match updataLogger can_open ds r.1 with Some st => Returns tt (st, r.2) | None => Dies end
  | inr _ => Dies
  end.

Definition logs_conv (j : json) : option value := inl <$> defines_of_json junk_type junk_level j.

Definition logs_var (val : value) (key : Z) : ConfigVar (V := value) (W := state) :=
  MkVar (str "logs") 0 logs_conv (Some logs_cb) val key.

(** A variable that takes the document, with a callback that returns and leaves the
    settings of the loggers alone. *)
Definition bystander (j : json) (var : ConfigVar (V := value) (W := state)) : Prop :=
  accepts j var
  /\ forall f x r, v_cb var = Some f -> exists r', f x r = Returns tt r' /\ same_settings r.1 r'.1.

Lemma notify_bystanders j cbs (w : World (V := value) (W := state)) :
  NoDup (map snd cbs) ->
  (forall k v, (k, v) ∈ cbs -> exists var, vars w !! v = Some var /\ bystander j var) ->
  exists w', notify cbs j w = Returns tt w' /\ same_settings (rest w).1 (rest w').1
    /\ forall v, v ∉ map snd cbs -> vars w' !! v = vars w !! v.
Proof.
  intros Hnd Hall.
  destruct (notify_spec (fun r => same_settings (rest w).1 r.1) j cbs w Hnd) as (w' & E & Hs & _ & _ & Ho);
    [done| |by exists w'].
  intros k v Hin. destruct (Hall k v Hin) as (var & Hvar & Ha & Hc). exists var. split; [done|]. split; [done|].
  intros f x r Hf Hr. destruct (Hc f x r Hf) as (r' & E & Hs). exists r'. split; [done|]. by etrans.
Qed.

Lemma notify_app xs ys j (w : World (V := value) (W := state)) :
  notify (xs ++ ys) j w = match notify xs j w with Returns _ w => notify ys j w | o => o end.
Proof.
  revert w. induction xs as [|[k v] xs IH]; intros w; [done|]. cbn [notify app].
  destruct (listener v j w); [apply IH|done|done].
Qed.

Lemma listener_logs v val key j jl ds (w : World (V := value) (W := state)) st' :
  vars w !! v = Some (logs_var val key) -> getJsonValueByPath j (str "logs") = Some (Found jl) ->
  defines_of_json junk_type junk_level jl = Some ds -> updataLogger can_open ds (rest w).1 = Some st' ->
  exists w', listener v j w = Returns tt w' /\ (rest w').1 = st' /\ forall u, u <> v -> vars w' !! u = vars w !! u.
Proof.
  intros Hv Hj Hds E. unfold listener. rewrite Hv. cbn [logs_var v_path v_conv v_cb]. rewrite Hj.
  unfold logs_conv. rewrite Hds. cbn [fmap option_fmap option_map call_cb logs_cb rest set_vars]. rewrite E.
  eexists. split; [done|]. split; [done|]. intros u Hne. cbn. by rewrite lookup_insert_ne.
Qed.
End Logs.

Lemma toDefine_settings p st st' : same_settings st st' -> toDefine p st' = toDefine p st.
Proof.
  intros (Hl & _ & _ & _ & Hs). unfold toDefine. rewrite Hl. destruct (loggers st !! p) as [lg|]; [|done].
  cbn [mbind option_bind]. f_equal. apply mapM_ext. intros [q|]; [|done]. cbn [mbind option_bind].
  specialize (Hs q). unfold settings in Hs. by destruct (appenders st !! q), (appenders st' !! q).
Qed.

(** C23. Loading a document reconfigures the loggers: when the document has a value
    at the path [logs] that converts, and the other variables of the configuration
    take the document and their callbacks return and leave the settings of the
    loggers alone, loading it returns 0, and every logger the converted value
    defines is then registered with the settings of its definition, at the address
    it had if it was registered before.  (A definition without appenders converts
    to none.) *)
Theorem document_reconfigures `{Json} {U R} can_open junk_type junk_level h
    (w : World (V := smap LogDefine + U) (W := LogState * R)) v val key j jl ds :
  config_reachable h w ->
  vars w !! v = Some (logs_var can_open junk_type junk_level val key) ->
  (forall u var, vars w !! u = Some var -> v_config_id var = 0 -> u <> v -> bystander j var) ->
  state_ok (rest w).1 ->
  getJsonValueByPath j (str "logs") = Some (Found jl) -> defines_of_json junk_type junk_level jl = Some ds ->
  exists w', LoadJson (Document j) 0 w = Returns 0 w' /\ state_ok (rest w').1
    /\ forall n ld, sm_find n ds = Some ld ->
         exists q, sm_find n (m_loggers (rest w').1) = Some q
           /\ (forall p, sm_find n (m_loggers (rest w).1) = Some p -> q = p)
           /\ toDefine q (rest w').1 = Some (completed ld).
Proof.
  intros Hr Hv Hby Hok Hj Hds. destruct (config_reachable_ok h w Hr) as [Hw _].
  destruct (ok_vars _ Hw v _ Hv) as (d & Hd & Hin). cbn [v_config_id v_listen_key logs_var] in Hd, Hin.
  destruct (ok_data _ Hw 0 d Hd) as (Hnd & Hlist & _). apply list_elem_of_split in Hin as (pre & post & Ecbs).
  rewrite Ecbs, map_app in Hnd. cbn [map snd] in Hnd.
  apply NoDup_app in Hnd as (Hnd1 & Hdisj & Hnd2). apply NoDup_cons in Hnd2 as [Hv2 Hnd2].
  assert (Hv1 : v ∉ map snd pre) by (intros Hin; apply (Hdisj v Hin); left).
  assert (Hothers : forall k u, (k, u) ∈ pre \/ (k, u) ∈ post -> u <> v /\ exists var, vars w !! u = Some var /\ bystander j var).
  { intros k u Hku. assert (u <> v) as Hne.
    { intros ->. destruct Hku as [Hku|Hku]; [apply Hv1|apply Hv2]; apply list_elem_of_fmap; by exists (k, v). }
    split; [done|]. rewrite Forall_forall in Hlist.
    destruct (Hlist (k, u)) as (_ & var & Hvar & _ & Hid); [rewrite Ecbs; set_solver|]. eauto. }
  unfold LoadJson, setConfig, getConfigData. rewrite Hd. cbn [lock_unique lock_shared m_cbs]. rewrite Ecbs, notify_app.
  set (w0 := set_data 0 _ w).
  destruct (notify_bystanders j pre w0 Hnd1) as (w1 & -> & S1 & V1); [intros k u Hku; apply (Hothers k u); by left|].
  assert (Hok1 : state_ok (rest w1).1) by (by eapply same_settings_ok).
  destruct (updataLogger_spec can_open ds (rest w1).1 Hok1 (defines_of_json_ok _ _ _ _ Hds)) as (st' & E & Hst & _ & Hall & _).
  cbn [notify]. destruct (listener_logs can_open junk_type junk_level v val key j jl ds w1 st') as (w2 & -> & E2 & V2);
    [by rewrite V1|done|done|done|].
  destruct (notify_bystanders j post w2 Hnd2) as (w3 & -> & S3 & _).
  { intros k u Hku. destruct (Hothers k u) as [Hne Hex]; [by right|]. rewrite V2 by done. rewrite V1; [exact Hex|].
    intros Hpre. apply (Hdisj u Hpre). right. apply list_elem_of_fmap. by exists (k, u). }
  rewrite E2 in S3. exists w3. split; [done|]. split; [by eapply same_settings_ok|]. intros n ld Hld.
  destruct (Hall n ld Hld) as (q & Hq & Hp & Hdef). exists q. rewrite (toDefine_settings _ _ _ S3).
  destruct S1 as (_ & M1 & _), S3 as (_ & M3 & _). rewrite M3. rewrite M1 in Hp. done.
Qed.

(** ** A sample *)

Definition sample_logs : jdoc :=
  JObject [(str "logs", json_of_defines (J := doc_json) sample_defines)].

(** Three variables: a text, [logs], and another text. *)
Definition text_conv (j : jdoc) : option (smap LogDefine + list Z) := inr <$> jstring (Json := doc_json) j.

Definition logs_world : World (J := doc_json) (V := smap LogDefine + list Z) (W := LogState * unit) :=
  let start := MkWorld ∅ ∅ (sample_named, tt) in
  match LookUp (J := doc_json) (str "name") (inr (str "none")) 0 text_conv None start with
  | Returns _ w =>
      match LookUp (J := doc_json) (str "logs") (inl []) 0 (logs_conv (H := doc_json) 7 FATAL) (Some (logs_cb sample_open)) w with
      | Returns _ w =>
          match LookUp (J := doc_json) (str "other") (inr (str "none")) 0 text_conv None w with
          | Returns _ w => w
          | _ => start
          end
      | _ => start
      end
  | _ => start
  end.

Lemma logs_world_reachable : config_reachable (J := doc_json) [Made 3; Made 2; Made 1] logs_world.
Proof.
  eapply config_next; [eapply config_next; [eapply config_next; [apply (config_start (sample_named, tt))|]|]|].
  - apply (step_lookup (J := doc_json) (str "name") (inr (str "none")) 0 text_conv None). reflexivity.
  - apply (step_lookup (J := doc_json) (str "logs") (inl []) 0 (logs_conv (H := doc_json) 7 FATAL) (Some (logs_cb sample_open))).
    reflexivity.
  - apply (step_lookup (J := doc_json) (str "other") (inr (str "none")) 0 text_conv None). reflexivity.
Qed.

Definition sample_silent : smap LogDefine := sm_set (str "quiet") (MkDefine (str "quiet") WARN None []) sample_defines.

Lemma sample_silent_plain : Forall (fun e => ld_name e.2 = e.1 /\ define_plain e.2) sample_silent.
Proof.
  repeat (apply Forall_cons_2; [split; [done|]; split; [|done];
    repeat (apply Forall_cons_2; [split; [by auto|done]|]); constructor|]). constructor.
Qed.

(** A definition without appenders is not read back, the others are. *)
Lemma log_config_roundtrip_witness :
  defines_of_json (J := doc_json) 7 FATAL (json_of_defines (J := doc_json) sample_silent) = Some sample_defines.
Proof.
  apply (log_config_roundtrip 7 FATAL sample_silent).
  - repeat constructor.
  - exact sample_silent_plain.
Defined.

Lemma document_reconfigures_witness :
  exists w', LoadJson (J := doc_json) (Document (J := doc_json) sample_logs) 0 logs_world = Returns 0 w'
    /\ sm_find (str "net") (m_loggers (rest w').1) = Some 3%positive.
Proof.
  destruct (document_reconfigures (H := doc_json) sample_open 7 FATAL [Made 3; Made 2; Made 1] logs_world 2%positive (inl []) 2
    sample_logs (json_of_defines (J := doc_json) sample_defines) sample_defines) as (w' & E & _ & Hall).
  - exact logs_world_reachable.
  - reflexivity.
  - intros u var Hu _ Hne.
    assert (Hothers : map_Forall (fun u var => u <> 2%positive -> bystander (H := doc_json) (U := list Z) (R := unit) sample_logs var)
      (vars logs_world)); [|exact (Hothers u var Hu Hne)].
    apply map_Forall_insert_2; [intros _; split; [exact I|done]|].
    apply map_Forall_insert_2; [done|].
    apply map_Forall_insert_2; [intros _; split; [exact I|done]|]. apply map_Forall_empty.
  - exact (log_reachable_ok sample_open false true (str "/srv") sample_named (sample_named_reachable true)).
  - reflexivity.
  - vm_compute. reflexivity.
  - exists w'. split; [exact E|]. destruct (Hall (str "net") _ eq_refl) as (q & Hq & Hold & _).
    rewrite Hq. f_equal. by apply Hold.
Defined.
