(* ===== verification/Mysql.v ===== *)
(** * MySQL connections and responses

    Models [MysqlAwaiter], [MySQLConn] and [MySQLResp] of [sylar/DBPool/mysql.hpp]
    and [mysql.cc].  Of the client library, a call in its two halves ([_start],
    [_cont]) answers a mask of events to wait for, zero when the call is over, and
    the result it stores; the answers are an argument, and so is what each wait
    yields.  A coroutine that needs an answer or a wait its list does not hold is
    still running.  A result set is an interface ([ResultSet]) with the documented
    behaviour of its cursors as laws ([ResultSetView]) and an instance. *)

From S2P Require Import Prelude CppString StdMap TimeLimit FdContext.

Inductive IOState := IO_SUCCESS | IO_TIMEOUT | IO_FAILED | IO_UNKNOWN | IO_INIT.
#[global] Instance IOState_eq_dec : EqDecision IOState.
Proof. solve_decision. Defined.

(** ** [MysqlAwaiter] *)

Definition MYSQL_WAIT_READ : Z := 1.
Definition MYSQL_WAIT_WRITE : Z := 2.
Definition MYSQL_QUERY_TIMEOUT : Z := 30000.

(** The events of the constructor. *)
Definition await_event (status : Z) : Z :=
  let e := NONE in
  let e := if truthy (status & MYSQL_WAIT_READ) then e ||| READ else e in
  if truthy (status & MYSQL_WAIT_WRITE) then e ||| WRITE else e.

(** What the callback registered by [on_suspend] resumes with. *)
Definition await_result (w : LimitState) : IOState :=
  match w with FINISHED => IO_SUCCESS | TIMEOUT => IO_TIMEOUT | _ => IO_UNKNOWN end.

(** What a [_start] or [_cont] answers. *)
Record answer := Ans { a_status : Z; a_ret : Z }.

(** How a coroutine that runs calls of the library ends, if it does. *)
Inductive ended (A : Type) := Ended (a : A) | Awaits (event : Z) | Calls.
Arguments Ended {A}.
Arguments Awaits {A}.
Arguments Calls {A}.

(** ** [MySQLConn] *)

Inductive ConnState := C_READY | C_INIT.

(** The connection and whether a call of the library on it is under way. *)
Record MySQLConn := MkConn { c_state : ConnState; c_pending : bool }.

(** The constructor; [None] is the exception when [mysql_init] fails. *)
Definition newConn (mysql_init : bool) : option MySQLConn :=
  if mysql_init then Some (MkConn C_INIT false) else None.

(** [connect]; [is_mysql]: the information is a [MySQLConnectInfo]; [connects]: the answer of
    [mysql_real_connect]. *)
Definition connect (is_mysql connects : bool) (c : MySQLConn) : Z * MySQLConn :=
  if negb is_mysql then (-1, c)
  else if negb connects then (-1, c)
  else (0, MkConn C_READY (c_pending c)).

(** Whether the destructor closes the connection. *)
Definition conn_closes (c : MySQLConn) : bool := match c_state c with C_INIT => false | C_READY => true end.

(** The loop of [executeQuery]: the state of the response, and whether the query is still under way. *)
Fixpoint query_loop (status : Z) (answers : list answer) (waits : list LimitState) : ended (IOState * bool) :=
  if status =? 0 then Ended (IO_SUCCESS, false)
  else
    match waits with
    | [] => Awaits (await_event status)
    | w :: waits =>
        if bool_decide (await_result w = IO_TIMEOUT) then Ended (IO_TIMEOUT, true)
        else
          match answers with
          | [] => Calls
          | a :: answers =>
              if truthy (a_ret a) then Ended (IO_FAILED, truthy (a_status a))
              else query_loop (a_status a) answers waits
          end
    end.

Definition executeQuery (answers : list answer) (waits : list LimitState) : ended (IOState * bool) :=
  match answers with
  | [] => Calls
  | a :: answers =>
      if a_status a =? 0 then Ended (IO_SUCCESS, false)
      else if truthy (a_ret a) then Ended (IO_FAILED, true)
      else query_loop (a_status a) answers waits
  end.

(** ** Result sets *)

(** A value of the result; [None] is SQL's NULL, a null pointer. *)
Abbreviation cell := (option (list Z)).

Class ResultSet := {
  rset : Type;
  rs_fetch_row : rset -> option (list cell * list Z) * rset;  (** [mysql_fetch_row], [mysql_fetch_lengths] *)
  rs_fetch_field : rset -> option (list Z) * rset;            (** the name of [mysql_fetch_field] *)
  rs_seek_start : rset -> rset;                               (** [mysql_data_seek(res, 0)] *)
  rs_num_rows : rset -> Z;
}.

Definition cell_length (c : cell) : Z := match c with Some d => zlen d | None => 0 end.

(** Rows and names with a cursor each. *)
Class ResultSetView `{ResultSet} := {
  rs_rows : rset -> list (list cell);
  rs_names : rset -> list (list Z);
  rs_row_pos : rset -> nat;
  rs_field_pos : rset -> nat;
  rs_fetch_row_law s :
    let (r, s') := rs_fetch_row s in
    r = (fun row => (row, map cell_length row)) <$> rs_rows s !! rs_row_pos s
    /\ rs_rows s' = rs_rows s /\ rs_names s' = rs_names s /\ rs_field_pos s' = rs_field_pos s
    /\ rs_row_pos s' = Nat.min (length (rs_rows s)) (S (rs_row_pos s));
  rs_fetch_field_law s :
    let (r, s') := rs_fetch_field s in
    r = rs_names s !! rs_field_pos s
    /\ rs_rows s' = rs_rows s /\ rs_names s' = rs_names s /\ rs_row_pos s' = rs_row_pos s
    /\ rs_field_pos s' = Nat.min (length (rs_names s)) (S (rs_field_pos s));
  rs_seek_start_law s :
    rs_rows (rs_seek_start s) = rs_rows s /\ rs_names (rs_seek_start s) = rs_names s
    /\ rs_field_pos (rs_seek_start s) = rs_field_pos s /\ rs_row_pos (rs_seek_start s) = 0%nat;
  rs_num_rows_law s : rs_num_rows s = zlen (rs_rows s);
}.

Section Response.
Context `{RS : ResultSet}.

(** [MySQLResp::Value] and [MySQLResp::Row] *)
Record Value := MkValue { v_data : cell; v_isValid : bool; v_length : Z }.

Record Row := MkRow { r_row : option (list cell); r_colCount : Z; r_colIdx : Z; r_eleLength : list Z }.

(** [std::string(data, length)]; [None] where it throws or reads past the value. *)
Definition make_string (data : cell) (len : Z) : option (list Z) :=
  match data with
  | None => if len =? 0 then Some [] else None
  | Some d => if (0 <=? len) && (len <=? zlen d) then Some (take (Z.to_nat len) d) else None
  end.

Definition value_get (v : Value) : option (list Z) :=
  if negb (v_isValid v) then Some [] else make_string (v_data v) (v_length v).

(** [Row::nextValue]; [None] follows a null row. *)
Definition nextValue (r : Row) : option (Value * Row) :=
  if r_colIdx r <? r_colCount r then
    len ← r_eleLength r !! Z.to_nat (r_colIdx r);
    row ← r_row r;
    c ← row !! Z.to_nat (r_colIdx r);
    Some (MkValue c true (to_int len), MkRow (r_row r) (r_colCount r) (r_colIdx r + 1) (r_eleLength r))
  else Some (MkValue None false 0, r).

Record MySQLResp := MkResp {
  m_state : IOState;
  m_respBody : option rset;
  m_colCount : Z;
  m_rowCount : Z;
  m_respMapData : smap (list (cell * Z));
}.

(** The constructor; [mysql] tells whether the connection is not null. *)
Definition newResp (mysql : bool) (state : IOState) : MySQLResp :=
  MkResp (if mysql then state else IO_FAILED) None 0 0 [].

Definition set_body (b : rset) (r : MySQLResp) : MySQLResp :=
  MkResp (m_state r) (Some b) (m_colCount r) (m_rowCount r) (m_respMapData r).
Definition set_map (m : smap (list (cell * Z))) (r : MySQLResp) : MySQLResp :=
  MkResp (m_state r) (m_respBody r) (m_colCount r) (m_rowCount r) m.
Definition set_state (s : IOState) (b : option rset) (cols rows : Z) (r : MySQLResp) : MySQLResp :=
  MkResp s b cols rows (m_respMapData r).

Definition null_row : Row := MkRow None 0 0 [].

Definition nextRow (r : MySQLResp) : Row * MySQLResp :=
  match m_state r, m_respBody r with
  | IO_SUCCESS, Some b =>
      let (row, b) := rs_fetch_row b in
      (match row with
       | Some (row, len) => MkRow (Some row) (m_colCount r) 0 len
       | None => MkRow None (m_colCount r) 0 []
       end, set_body b r)
  | _, _ => (null_row, r)
  end.

Definition resetRow (r : MySQLResp) : MySQLResp :=
  match m_state r, m_respBody r with
  | IO_SUCCESS, Some b => set_body (rs_seek_start b) r
  | _, _ => r
  end.

(** ** [co_fetchAll] *)

(** [body] is the result set once the call is over, [field_count] the answer of [mysql_field_count]. *)
Definition fetched (body : option rset) (field_count : Z) (r : MySQLResp) : IOState * MySQLResp :=
  match body with
  | None =>
      if truthy field_count then (IO_FAILED, set_state IO_FAILED None (m_colCount r) (m_rowCount r) r)
      else (IO_SUCCESS, set_state IO_SUCCESS None 0 0 r)
  | Some b =>
      let cols := to_int field_count in
      let rows := to_int (rs_num_rows b) in
      if cols =? 0 then (IO_FAILED, set_state IO_FAILED (Some b) cols rows r)
      else (IO_SUCCESS, set_state IO_SUCCESS (Some b) cols rows r)
  end.

Fixpoint fetch_loop (status : Z) (answers : list Z) (waits : list LimitState) (body : option rset) (field_count : Z)
    (r : MySQLResp) : ended (IOState * MySQLResp) :=
  if status =? 0 then Ended (fetched body field_count r)
  else
    match waits with
    | [] => Awaits (await_event status)
    | w :: waits =>
        if bool_decide (await_result w = IO_TIMEOUT)
        then Ended (IO_TIMEOUT, set_state IO_FAILED (m_respBody r) (m_colCount r) (m_rowCount r) r)
        else
          match answers with
          | [] => Calls
          | status :: answers => fetch_loop status answers waits body field_count r
          end
    end.

Definition co_fetchAll (answers : list Z) (waits : list LimitState) (body : option rset) (field_count : Z)
    (r : MySQLResp) : ended (IOState * MySQLResp) :=
  if bool_decide (m_state r <> IO_SUCCESS) then Ended (m_state r, r)
  else
    match answers with
    | [] => Calls
    | status :: answers => fetch_loop status answers waits body field_count r
    end.

(** ** [formatDate] *)

(** The loop over the fields: the set, the columns by name and, for each column, the
    name whose vector [map[i]] points to.  [None] follows a null field. *)
Fixpoint fields_loop (n : nat) (rowCount : Z) (b : rset) (m : smap (list (cell * Z))) (ptrs : list (list Z))
    : option (rset * smap (list (cell * Z)) * list (list Z)) :=
  match n with
  | O => Some (b, m, ptrs)
  | S n =>
      let (field, b) := rs_fetch_field b in
      name ← field;
      fields_loop n rowCount b (sm_set name (repeat (None, 0) (Z.to_nat rowCount)) m) (ptrs ++ [name])
  end.

(** Writing row [row_idx] of the vector [map[col_idx]] points to; [None] outside the vectors. *)
Definition put_cell (ptrs : list (list Z)) (col_idx row_idx : nat) (x : cell * Z) (m : smap (list (cell * Z)))
    : option (smap (list (cell * Z))) :=
  name ← ptrs !! col_idx;
  vec ← sm_find name m;
  if (row_idx <? length vec)%nat then Some (sm_set name (<[row_idx := x]> vec) m) else None.

(** The inner loop; a row has no more values than columns. *)
Fixpoint cols_loop (fuel : nat) (ptrs : list (list Z)) (row : Row) (col : Value) (col_idx row_idx : nat)
    (m : smap (list (cell * Z))) : option (smap (list (cell * Z))) :=
  match fuel with
  | O => None
  | S fuel =>
      if v_isValid col then
        m ← put_cell ptrs col_idx row_idx (v_data col, u64 (v_length col)) m;
        '(col, row) ← nextValue row;
        cols_loop fuel ptrs row col (S col_idx) row_idx m
      else Some m
  end.

(** The outer loop, until the set has no more rows. *)
Fixpoint rows_loop (fuel : nat) (ptrs : list (list Z)) (row : Row) (row_idx : nat) (r : MySQLResp) : option MySQLResp :=
  match fuel with
  | O => None
  | S fuel =>
      match r_row row with
      | None => Some r
      | Some _ =>
          '(col, row) ← nextValue row;
          m ← cols_loop (S (Z.to_nat (m_colCount r))) ptrs row col 0 row_idx (m_respMapData r);
          let (row, r) := nextRow (set_map m r) in
          rows_loop fuel ptrs row (S row_idx) r
      end
  end.

Definition formatDate (r : MySQLResp) : option (Z * MySQLResp) :=
  match m_state r, m_respBody r with
  | IO_SUCCESS, Some b =>
      '(b, m, ptrs) ← fields_loop (Z.to_nat (m_colCount r)) (m_rowCount r) b (m_respMapData r) [];
      let r := set_map m (set_body b r) in
      let (row, r) := nextRow r in
      r ← rows_loop (S (Z.to_nat (rs_num_rows b))) ptrs row 0 r;
      Some (0, resetRow r)
  | _, _ => Some (-1, r)
  end.

(** [resp[fieldName][i]]; [None] is the failed assertion. *)
Definition resp_at (fieldName : list Z) (i : Z) (r : MySQLResp) : option (list Z) :=
  vec ← sm_find fieldName (m_respMapData r);
  if (0 <=? i) && (i <? zlen vec) then
    x ← vec !! Z.to_nat i;
    make_string x.1 x.2
  else None.
End Response.

(** ** Queries *)

(** An answer of a call that goes on. *)
Definition in_progress (a : answer) : Prop := a_status a <> 0 /\ a_ret a = 0.

Lemma query_loop_done last : forall mids status waits,
  status <> 0 -> Forall in_progress mids -> a_status last = 0 -> TIMEOUT ∉ waits -> length waits = S (length mids) ->
  query_loop status (mids ++ [last]) waits = Ended (if truthy (a_ret last) then IO_FAILED else IO_SUCCESS, false).
Proof.
  intros mids. induction mids as [|a mids IH]; intros status [|w waits] Hs Hm Hl Hw Hlen; try done;
    apply not_elem_of_cons in Hw as [Hw1 Hw]; cbn [app query_loop]; rewrite (proj2 (Z.eqb_neq status 0)) by done;
    rewrite bool_decide_eq_false_2 by (by destruct w).
  - destruct waits; [|done]. rewrite Hl. change (truthy 0) with false. by destruct (truthy (a_ret last)).
  - apply Forall_cons in Hm as [[Ha1 Ha2] Hm]. rewrite Ha2. change (truthy 0) with false. apply IH; try done.
    cbn in Hlen. lia.
Qed.

(** A query that takes several rounds and whose waits do not time out ends with the
    result of its last round. *)
Theorem query_reports first mids last waits :
  Forall in_progress (first :: mids) -> a_status last = 0 -> TIMEOUT ∉ waits -> length waits = S (length mids) ->
  executeQuery (first :: mids ++ [last]) waits = Ended (if truthy (a_ret last) then IO_FAILED else IO_SUCCESS, false).
Proof.
  intros [[Hf1 Hf2] Hm]%Forall_cons Hl Hw Hlen. cbn [executeQuery].
  rewrite (proj2 (Z.eqb_neq _ 0)), Hf2 by done. by apply query_loop_done.
Qed.

(** A query that fails at once is reported as a success: its result is looked at only
    after the mask of events. *)
Theorem immediate_error_is_success err waits : executeQuery [Ans 0 err] waits = Ended (IO_SUCCESS, false).
Proof. reflexivity. Qed.

(** A wait that times out leaves the query under way on the connection. *)
Lemma query_loop_timeout mids : forall status waits,
  status <> 0 -> Forall in_progress mids -> TIMEOUT ∉ waits -> (length waits <= length mids)%nat ->
  query_loop status mids (waits ++ [TIMEOUT]) = Ended (IO_TIMEOUT, true).
Proof.
  induction mids as [|a mids IH]; intros status [|w waits] Hs Hm Hw Hlen; cbn [length] in Hlen; try lia;
    cbn [app query_loop]; rewrite (proj2 (Z.eqb_neq status 0)) by done.
  - by rewrite bool_decide_eq_true_2.
  - by rewrite bool_decide_eq_true_2.
  - apply not_elem_of_cons in Hw as [Hw1 Hw]. rewrite bool_decide_eq_false_2 by (by destruct w).
    apply Forall_cons in Hm as [[Ha1 Ha2] Hm]. rewrite Ha2. change (truthy 0) with false. apply IH; try done. lia.
Qed.

(** ** Tables *)

Section Table.
Context `{RSV : ResultSetView}.

Definition enc (c : cell) : cell * Z := (c, cell_length c).

(** The column [c] when [k] rows have been entered. *)
Definition col_vec (rows : list (list cell)) (c k : nat) : list (cell * Z) :=
  map (fun row => enc (default None (row !! c))) (take k rows) ++ repeat (None, 0) (length rows - k).

Lemma length_col_vec rows c k : (k <= length rows)%nat -> length (col_vec rows c k) = length rows.
Proof. intros. unfold col_vec. rewrite length_app, length_map, length_take, repeat_length. lia. Qed.

Lemma col_vec_put rows c k row x :
  rows !! k = Some row -> row !! c = Some x -> <[k := enc x]> (col_vec rows c k) = col_vec rows c (S k).
Proof.
  intros Hk Hx. assert (Hlt := lookup_lt_Some _ _ _ Hk). unfold col_vec.
  rewrite (take_S_r rows k row Hk), map_app. cbn [map]. rewrite Hx. cbn [default from_option id].
  rewrite insert_app_r_alt by (rewrite length_map, length_take; lia).
  rewrite length_map, length_take, Nat.min_l, Nat.sub_diag by lia.
  destruct (length rows - k)%nat as [|n] eqn:En; [lia|]. cbn [repeat]. rewrite <- app_assoc. cbn [app list_insert insert].
  replace (length rows - S k)%nat with n by lia. done.
Qed.

(** The columns when [k] rows and, of the next one, [c] values have been entered. *)
Definition entered (rows : list (list cell)) (names : list (list Z)) (k c : nat) (m : smap (list (cell * Z))) : Prop :=
  forall j n, names !! j = Some n -> sm_find n m = Some (col_vec rows j (if (j <? c)%nat then S k else k)).

Lemma put_cell_entered rows names k c m row x :
  NoDup names -> rows !! k = Some row -> row !! c = Some x -> is_Some (names !! c) -> entered rows names k c m ->
  exists m', put_cell names c k (enc x) m = Some m' /\ entered rows names k (S c) m'.
Proof.
  intros Hnd Hk Hx [n Hn] He. assert (Hlt := lookup_lt_Some _ _ _ Hk).
  unfold put_cell. rewrite Hn. cbn [mbind option_bind]. rewrite (He c n Hn). cbn [mbind option_bind].
  rewrite Nat.ltb_irrefl, length_col_vec by lia. rewrite (proj2 (Nat.ltb_lt _ _)) by done.
  eexists. split; [done|]. intros j n' Hj. destruct (decide (j = c)) as [->|Hne].
  - assert (n' = n) as -> by congruence. rewrite sm_find_set, (proj2 (Nat.ltb_lt c (S c))) by lia.
    by rewrite (col_vec_put rows c k row x).
  - rewrite sm_find_set_ne by (intros ->; apply Hne; by eapply NoDup_lookup). rewrite (He j n' Hj). do 2 f_equal.
    destruct (Nat.ltb_spec j c), (Nat.ltb_spec j (S c)); lia || done.
Qed.

(** A row that has delivered [c] values. *)
Definition row_at (row : list cell) (c : nat) : Row := MkRow (Some row) (zlen row) (Z.of_nat c) (map cell_length row).

Lemma nextValue_at row c :
  Forall (fun x => cell_length x < 2 ^ 31) row ->
  nextValue (row_at row c) =
    match row !! c with
    | Some x => Some (MkValue x true (cell_length x), row_at row (S c))
    | None => Some (MkValue None false 0, row_at row c)
    end.
Proof.
  intros Hsmall. unfold nextValue, row_at. cbn [r_colIdx r_colCount r_eleLength r_row]. unfold zlen.
  destruct (row !! c) as [x|] eqn:Hx.
  - assert (Hlt := lookup_lt_Some _ _ _ Hx). destruct (Z.ltb_spec (Z.of_nat c) (Z.of_nat (length row))); [|lia].
    rewrite Nat2Z.id, list_lookup_fmap, Hx. cbn [fmap option_fmap option_map mbind option_bind]. rewrite Hx. cbn [mbind option_bind].
    rewrite Forall_forall in Hsmall. pose proof (Hsmall x (list_elem_of_lookup_2 _ _ _ Hx)) as Hs.
    rewrite to_int_small; [do 3 f_equal; lia|]. destruct x; cbn in *; [pose proof (zlen_nonneg l)|]; lia.
  - apply lookup_ge_None in Hx. destruct (Z.ltb_spec (Z.of_nat c) (Z.of_nat (length row))); [lia|done].
Qed.

Lemma cols_loop_spec rows names k row n : forall c m fuel,
  NoDup names -> rows !! k = Some row -> length row = length names ->
  Forall (fun x => cell_length x < 2 ^ 31) row ->
  n = (length row - c)%nat -> (c <= length row)%nat -> (n < fuel)%nat -> entered rows names k c m ->
  exists m', ('(v, r) ← nextValue (row_at row c); cols_loop fuel names r v c k m) = Some m'
    /\ entered rows names k (length names) m'.
Proof.
  induction n as [|n IH]; intros c m fuel Hnd Hk Hlen Hsmall Hn Hc Hf He; rewrite nextValue_at by done.
  - assert (Hx : row !! c = None) by (apply lookup_ge_None; lia). rewrite Hx. cbn [mbind option_bind].
    destruct fuel as [|fuel]; [lia|]. cbn [cols_loop v_isValid]. exists m. split; [done|].
    replace (length names) with c by lia. done.
  - destruct (lookup_lt_is_Some_2 row c ltac:(lia)) as [x Hx]. rewrite Hx. cbn [mbind option_bind].
    destruct fuel as [|fuel]; [lia|]. cbn [cols_loop v_isValid v_data v_length].
    assert (Hxl : u64 (cell_length x) = cell_length x).
    { apply wrap_small. rewrite Forall_forall in Hsmall. pose proof (Hsmall x (list_elem_of_lookup_2 _ _ _ Hx)).
      destruct x; cbn in *; [pose proof (zlen_nonneg l)|]; lia. }
    rewrite Hxl. change (x, cell_length x) with (enc x).
    destruct (put_cell_entered rows names k c m row x) as (m1 & -> & He1); [done..|apply lookup_lt_is_Some_2; lia|done|].
    cbn [mbind option_bind]. apply IH; try done; lia.
Qed.

(** The next row of a response whose body has delivered [k] rows. *)
Lemma nextRow_at r b row :
  m_state r = IO_SUCCESS -> m_respBody r = Some b -> rs_rows b !! rs_row_pos b = Some row -> m_colCount r = zlen row ->
  exists b', nextRow r = (row_at row 0, set_body b' r) /\ rs_rows b' = rs_rows b /\ rs_names b' = rs_names b
    /\ rs_field_pos b' = rs_field_pos b /\ rs_row_pos b' = S (rs_row_pos b).
Proof.
  intros Hs Hb Hrow Hc. unfold nextRow. rewrite Hs, Hb. pose proof (rs_fetch_row_law b) as Hlaw.
  destruct (rs_fetch_row b) as [x b']. destruct Hlaw as (-> & H1 & H2 & H3 & H4). rewrite Hrow.
  exists b'. cbn. split; [by rewrite Hc|]. repeat split; try done. rewrite H4.
  apply lookup_lt_Some in Hrow. lia.
Qed.

Lemma nextRow_end r b :
  m_state r = IO_SUCCESS -> m_respBody r = Some b -> rs_rows b !! rs_row_pos b = None ->
  exists b' row, nextRow r = (row, set_body b' r) /\ r_row row = None /\ rs_rows b' = rs_rows b /\ rs_names b' = rs_names b
    /\ rs_field_pos b' = rs_field_pos b.
Proof.
  intros Hs Hb Hrow. unfold nextRow. rewrite Hs, Hb. pose proof (rs_fetch_row_law b) as Hlaw.
  destruct (rs_fetch_row b) as [x b']. destruct Hlaw as (-> & H1 & H2 & H3 & H4). rewrite Hrow.
  exists b'. eexists. split; [done|]. done.
Qed.

(** A rectangular set of values that fit an [int]. *)
Definition table_ok (rows : list (list cell)) (names : list (list Z)) : Prop :=
  Forall (fun row => length row = length names /\ Forall (fun x => cell_length x < 2 ^ 31) row) rows.

Lemma rows_loop_spec rows names n : forall k r b fuel,
  NoDup names -> table_ok rows names -> m_state r = IO_SUCCESS -> m_respBody r = Some b ->
  rs_rows b = rows -> rs_row_pos b = k -> m_colCount r = zlen names ->
  n = (length rows - k)%nat -> (k <= length rows)%nat -> (n < fuel)%nat -> entered rows names k 0 (m_respMapData r) ->
  exists r' b', (let (row, r) := nextRow r in rows_loop fuel names row k r) = Some r'
    /\ m_state r' = IO_SUCCESS /\ m_respBody r' = Some b' /\ rs_rows b' = rows /\ rs_names b' = rs_names b
    /\ rs_field_pos b' = rs_field_pos b
    /\ m_colCount r' = m_colCount r /\ m_rowCount r' = m_rowCount r
    /\ entered rows names (length rows) 0 (m_respMapData r').
Proof.
  induction n as [|n IH]; intros k r b fuel Hnd Hok Hs Hb Hrows Hpos Hcols Hn Hk Hf He.
  - destruct (nextRow_end r b) as (b' & row & -> & Hrow & H1 & H2 & H3); [done|done|apply lookup_ge_None; rewrite Hrows; lia|].
    destruct fuel as [|fuel]; [lia|]. cbn [rows_loop]. rewrite Hrow. exists (set_body b' r), b'. cbn.
    repeat (split; [done || congruence|]). by replace (length rows) with k by lia.
  - destruct (lookup_lt_is_Some_2 rows k ltac:(lia)) as [row Hrow].
    unfold table_ok in Hok. rewrite Forall_forall in Hok.
    destruct (Hok row (list_elem_of_lookup_2 _ _ _ Hrow)) as [Hlen Hsmall].
    destruct (nextRow_at r b row) as (b1 & -> & H1 & H2 & H3 & H4); [done|done|by rewrite Hrows, Hpos|unfold zlen; by rewrite Hcols, Hlen|].
    destruct fuel as [|fuel]; [lia|]. cbn [rows_loop row_at r_row].
    change (MkRow (Some row) (zlen row) (Z.of_nat 0) (map cell_length row)) with (row_at row 0).
    destruct (cols_loop_spec rows names k row (length row) 0 (m_respMapData r) (S (Z.to_nat (m_colCount r))))
      as (m & Em & Hm); try done; try lia.
    { rewrite Hcols. unfold zlen. lia. }
    rewrite nextValue_at in Em |- * by done. cbn [set_body m_colCount m_respMapData].
    destruct (row !! 0%nat) as [x|]; cbn [mbind option_bind] in Em |- *; rewrite Em; cbn [mbind option_bind];
      (destruct (IH (S k) (set_map m (set_body b1 r)) b1 fuel) as (r' & b' & E & R1 & R2 & R3 & R4 & R5 & R6 & R7 & R8);
       [done|by apply Forall_forall|done|done|congruence|lia|done|lia|lia|lia| |
        exists r', b'; split; [exact E|]; repeat (split; [done || congruence|]); done]);
      intros j nm Hj; cbn [set_map m_respMapData]; rewrite (Hm j nm Hj);
      rewrite (proj2 (Nat.ltb_lt j (length names))) by (by eapply lookup_lt_Some); done.
Qed.

Lemma fields_loop_spec rowCount (rows : list (list cell)) n : forall b m ptrs names,
  rs_names b = names -> names = ptrs ++ drop (length ptrs) names -> rs_field_pos b = length ptrs ->
  n = (length names - length ptrs)%nat -> (length ptrs <= length names)%nat -> NoDup names -> rowCount = zlen rows ->
  (forall j nm, ptrs !! j = Some nm -> sm_find nm m = Some (repeat (None, 0) (length rows))) ->
  exists b' m', fields_loop n rowCount b m ptrs = Some (b', m', names)
    /\ rs_rows b' = rs_rows b /\ rs_names b' = names /\ rs_row_pos b' = rs_row_pos b /\ rs_field_pos b' = length names
    /\ (forall j nm, names !! j = Some nm -> sm_find nm m' = Some (repeat (None, 0) (length rows))).
Proof.
  induction n as [|n IH]; intros b m ptrs names Hb Hnames Hpos Hn Hle Hnd Hr Hm.
  - assert (drop (length ptrs) names = []) as Ed by (apply drop_ge; lia). rewrite Ed, app_nil_r in Hnames. subst ptrs.
    exists b, m. done.
  - destruct (lookup_lt_is_Some_2 names (length ptrs) ltac:(lia)) as [nm Hnm]. cbn [fields_loop].
    pose proof (rs_fetch_field_law b) as Hlaw. destruct (rs_fetch_field b) as [x b1].
    destruct Hlaw as (-> & H1 & H2 & H3 & H4). rewrite Hb, Hpos, Hnm. cbn [mbind option_bind].
    assert (Hlen : length (ptrs ++ [nm]) = S (length ptrs)) by (rewrite length_app; cbn; lia).
    destruct (IH b1 (sm_set nm (repeat (None, 0) (Z.to_nat rowCount)) m) (ptrs ++ [nm]) names)
      as (b' & m' & E & R1 & R2 & R3 & R4 & R5); try done; try congruence; try lia.
    + rewrite Hlen, <- app_assoc. cbn [app]. rewrite Hnames at 1. f_equal. by apply drop_S.
    + rewrite Hlen, H4, Hb, Hpos. lia.
    + intros j n' Hj. destruct (decide (n' = nm)) as [->|Hne].
      * rewrite sm_find_set. do 2 f_equal. rewrite Hr. unfold zlen. lia.
      * rewrite sm_find_set_ne by done. apply lookup_app_Some in Hj as [Hj|[_ Hj]]; [by eapply Hm|].
        by apply list_lookup_singleton_Some in Hj as [_ ->].
    + exists b', m'. rewrite E. split; [done|]. split; [congruence|]. split; [done|]. split; [congruence|done].
Qed.

(** A response with a result set that has not been read yet. *)
Record fresh_resp (r : MySQLResp) (b : rset) : Prop := {
  fr_state : m_state r = IO_SUCCESS;
  fr_body : m_respBody r = Some b;
  fr_cols : m_colCount r = zlen (rs_names b);
  fr_rows : m_rowCount r = zlen (rs_rows b);
  fr_names : NoDup (rs_names b);
  fr_table : table_ok (rs_rows b) (rs_names b);
  fr_pos : rs_row_pos b = 0%nat /\ rs_field_pos b = 0%nat;
}.

Lemma formatDate_spec r b :
  fresh_resp r b ->
  exists r' b', formatDate r = Some (0, r') /\ m_state r' = IO_SUCCESS /\ m_respBody r' = Some b'
    /\ rs_rows b' = rs_rows b /\ rs_names b' = rs_names b /\ rs_row_pos b' = 0%nat /\ rs_field_pos b' = length (rs_names b)
    /\ m_colCount r' = m_colCount r
    /\ entered (rs_rows b) (rs_names b) (length (rs_rows b)) 0 (m_respMapData r').
Proof.
  intros [Hs Hb Hc Hr Hnd Ht [Hp1 Hp2]]. unfold formatDate. rewrite Hs, Hb, Hc. unfold zlen at 1. rewrite Nat2Z.id.
  destruct (fields_loop_spec (m_rowCount r) (rs_rows b) (length (rs_names b)) b (m_respMapData r) [] (rs_names b))
    as (b1 & m1 & -> & R1 & R2 & R3 & R4 & R5); [done|done|done|cbn; lia|cbn; lia|done|done|done|].
  cbn [mbind option_bind]. set (r1 := set_map m1 (set_body b1 r)).
  destruct (rows_loop_spec (rs_rows b) (rs_names b) (length (rs_rows b)) 0 r1 b1 (S (Z.to_nat (rs_num_rows b1))))
    as (r2 & b2 & E & Q1 & Q2 & Q3 & Q4 & Q5 & Q6 & Q7 & Q8); try done; try congruence; try lia.
  - rewrite rs_num_rows_law, R1. unfold zlen. lia.
  - intros j nm Hj. cbn. rewrite (R5 j nm Hj). unfold col_vec. rewrite Nat.sub_0_r. by destruct (j <? 0)%nat.
  - destruct (nextRow r1) as [row r1']. rewrite E. cbn [mbind option_bind]. unfold resetRow. rewrite Q1, Q2.
    destruct (rs_seek_start_law b2) as (S1 & S2 & S3 & S4). do 2 eexists. split; [done|]. cbn.
    change (m_colCount r1) with (m_colCount r) in Q6. repeat (split; [done || congruence|]). done.
Qed.

(** A response that is indexed gives every value of the result by the name of its
    column and the number of its row, NULL as the empty string, and can still be
    read from its first row. *)
Theorem table_indexed r b :
  fresh_resp r b ->
  exists r' b', formatDate r = Some (0, r') /\ m_respBody r' = Some b' /\ rs_rows b' = rs_rows b /\ rs_row_pos b' = 0%nat
    /\ forall i c row name x, rs_rows b !! i = Some row -> rs_names b !! c = Some name -> row !! c = Some x ->
         resp_at name (Z.of_nat i) r' = Some (default [] x).
Proof.
  intros Hf. destruct (formatDate_spec r b Hf) as (r' & b' & E & H1 & H2 & H3 & H4 & H5 & H6 & H7 & H8).
  exists r', b'. repeat (split; [done|]). intros i c row name x Hi Hc Hx. assert (Hlt := lookup_lt_Some _ _ _ Hi).
  unfold resp_at. rewrite (H8 c name Hc). cbn [mbind option_bind Nat.ltb Nat.leb].
  assert (Hl : zlen (col_vec (rs_rows b) c (length (rs_rows b))) = zlen (rs_rows b)) by (unfold zlen; by rewrite length_col_vec).
  rewrite Hl. unfold zlen. destruct (Z.ltb_spec (Z.of_nat i) (Z.of_nat (length (rs_rows b)))); [|lia].
  destruct (Z.leb_spec 0 (Z.of_nat i)); [|lia]. cbn [andb]. rewrite Nat2Z.id. unfold col_vec.
  rewrite lookup_app_l by (rewrite length_map, length_take; lia). rewrite list_lookup_fmap, lookup_take_lt, Hi by lia.
  cbn [fmap option_fmap option_map mbind option_bind]. rewrite Hx. cbn. destruct x as [d|]; [|done]. cbn. unfold zlen.
  destruct (Z.leb_spec 0 (Z.of_nat (length d))); [|lia]. rewrite Z.leb_refl. cbn. by rewrite Nat2Z.id, firstn_all.
Qed.

(** Indexing a second time follows a null pointer: the cursor of the fields is not
    put back to the first one. *)
Theorem formatDate_twice_crashes r b :
  fresh_resp r b -> rs_names b <> [] -> exists r', formatDate r = Some (0, r') /\ formatDate r' = None.
Proof.
  intros Hf Hne. destruct (formatDate_spec r b Hf) as (r' & b' & E & H1 & H2 & H3 & H4 & H5 & H6 & H7 & H8).
  exists r'. split; [done|]. unfold formatDate. rewrite H1, H2, H7, (fr_cols _ _ Hf). unfold zlen. rewrite Nat2Z.id.
  destruct (rs_names b) as [|n ns] eqn:En; [done|]. cbn [length fields_loop].
  pose proof (rs_fetch_field_law b') as Hlaw. destruct (rs_fetch_field b') as [x b1]. destruct Hlaw as (-> & _).
  rewrite H4, H6. rewrite (lookup_ge_None_2 (n :: ns)); done.
Qed.
End Table.

(** ** An instance of the result sets *)

Record table := MkTable { t_rows : list (list cell); t_names : list (list Z); t_row : nat; t_field : nat }.

#[export] Instance table_set : ResultSet := {|
  rset := table;
  rs_fetch_row t :=
    ((fun row => (row, map cell_length row)) <$> t_rows t !! t_row t,
     MkTable (t_rows t) (t_names t) (Nat.min (length (t_rows t)) (S (t_row t))) (t_field t));
  rs_fetch_field t :=
    (t_names t !! t_field t,
     MkTable (t_rows t) (t_names t) (t_row t) (Nat.min (length (t_names t)) (S (t_field t))));
  rs_seek_start t := MkTable (t_rows t) (t_names t) 0 (t_field t);
  rs_num_rows t := zlen (t_rows t);
|}.

#[export] Instance table_view : ResultSetView.
Proof. by refine (Build_ResultSetView table_set t_rows t_names t_row t_field _ _ _ _). Defined.

(** ** A sample *)

Definition sample_table : table :=
  MkTable [[Some (str "1"); Some (str "ada")]; [Some (str "2"); None]] [str "id"; str "name"] 0 0.

Definition sample_resp : MySQLResp :=
  match co_fetchAll [1; 0] [FINISHED] (Some sample_table) 2 (newResp true IO_SUCCESS) with
  | Ended (_, r) => r
  | _ => newResp false IO_FAILED
  end.

Lemma sample_resp_fresh : fresh_resp sample_resp sample_table.
Proof. split; try done. all: decide_now. Qed.

Lemma table_indexed_witness :
  exists r' b', formatDate sample_resp = Some (0, r') /\ m_respBody r' = Some b' /\ t_rows b' = t_rows sample_table /\ t_row b' = 0%nat
    /\ resp_at (str "name") 0 r' = Some (str "ada") /\ resp_at (str "name") 1 r' = Some [].
Proof.
  destruct (table_indexed sample_resp sample_table sample_resp_fresh) as (r' & b' & E & H1 & H2 & H3 & H4).
  exists r', b'. repeat (split; [done|]). split.
  - exact (H4 0%nat 1%nat _ _ _ eq_refl eq_refl eq_refl).
  - exact (H4 1%nat 1%nat _ _ _ eq_refl eq_refl eq_refl).
Defined.

Lemma formatDate_twice_crashes_witness : exists r', formatDate sample_resp = Some (0, r') /\ formatDate r' = None.
Proof. exact (formatDate_twice_crashes sample_resp sample_table sample_resp_fresh ltac:(done)). Defined.

Lemma query_reports_witness :
  executeQuery [Ans 1 0; Ans 2 0; Ans 0 7] [FINISHED; FINISHED] = Ended (IO_FAILED, false).
Proof.
  apply (query_reports (Ans 1 0) [Ans 2 0] (Ans 0 7) [FINISHED; FINISHED]).
  - by repeat constructor.
  - reflexivity.
  - decide_now.
  - reflexivity.
Defined.
