(* ===== verification/MysqlStmt.v ===== *)
(** * Prepared statements

    Models [MySQLStmt] with its parameters and result columns
    ([sylar/DBPool/mysql.hpp], [mysql.tpp]).  As in [Mysql] the answers of the client
    library and the results of the waits are arguments.  The statement records the
    calls it makes of the library; the order the library demands of them is an
    automaton, against which the statement is proved. *)

From S2P Require Import Prelude CppString TimeLimit FdContext Mysql.

(** ** Text columns *)

Record STMT_Text := MkText { t_buf : list Z; t_length : Z; t_is_null : bool; t_error : bool }.

(** [StringToText<N>]; [None] is the failed assertion. *)
Definition StringToText (N : nat) (s : list Z) : option STMT_Text :=
  if (N =? 0)%nat then None
  else
    let error := (N - 1 <? length s)%nat in
    let len := if (length s <? N - 1)%nat then length s else (N - 1)%nat in
    let buf := write_at 0 (take len s) (repeat 0 N) in
    Some (MkText (<[len := 0]> buf) (Z.of_nat len) false error).

(** [TextToString]; [None] reads past the buffer. *)
Definition TextToString (t : STMT_Text) : option (list Z) :=
  if t_is_null t then Some []
  else if (0 <=? t_length t) && (t_length t <=? zlen (t_buf t)) then Some (take (Z.to_nat (t_length t)) (t_buf t))
  else None.

(** A string that fits survives; a longer one is cut to the buffer without its last
    octet and marked. *)
Theorem text_roundtrip (N : nat) (s : list Z) :
  (0 < N)%nat ->
  exists t, StringToText N s = Some t /\ TextToString t = Some (take (N - 1) s)
    /\ t_error t = (N - 1 <? length s)%nat /\ length (t_buf t) = N.
Proof.
  intros HN. unfold StringToText. rewrite (proj2 (Nat.eqb_neq N 0)) by lia.
  set (len := if (length s <? N - 1)%nat then length s else (N - 1)%nat).
  assert (Hlen : len = Nat.min (N - 1) (length s)) by (unfold len; destruct (Nat.ltb_spec (length s) (N - 1)); lia).
  clearbody len.
  assert (Hbuf : length (<[len := 0]> (write_at 0 (take len s) (repeat 0 N))) = N).
  { rewrite length_insert, length_write_at; rewrite repeat_length; [done|]. rewrite length_take. lia. }
  eexists. split; [done|]. cbn [t_error t_buf]. split; [|done]. unfold TextToString. cbn [t_is_null t_length t_buf].
  unfold zlen. rewrite Hbuf. destruct (Z.leb_spec 0 (Z.of_nat len)); [|lia].
  destruct (Z.leb_spec (Z.of_nat len) (Z.of_nat N)); [|lia]. cbn [andb]. rewrite Nat2Z.id. f_equal.
  rewrite take_insert_ge by lia. unfold write_at. rewrite take_0; cbn [app]. rewrite take_app_le by (rewrite length_take; lia).
  rewrite take_take, Nat.min_id, Hlen. destruct (decide (N - 1 <= length s)%nat) as [H1|H1].
  - by rewrite Nat.min_l.
  - rewrite Nat.min_r by lia. by rewrite !take_ge by lia.
Qed.

Lemma text_roundtrip_witness :
  exists t, StringToText 4 (str "abcd") = Some t /\ TextToString t = Some (str "abc") /\ t_error t = true /\ length (t_buf t) = 4%nat.
Proof. exact (text_roundtrip 4 (str "abcd") ltac:(lia)). Defined.

(** ** Parameters *)

(** A value of the parameter pack; numbers are given by the octets that store them.
    Optionals of optionals are left out. *)
Inductive scalar :=
  | P_string (s : list Z)
  | P_bool (b : bool)
  | P_integral (unsigned : bool) (octets : list Z)
  | P_float (octets : list Z)
  | P_double (octets : list Z).

Inductive param := P_scalar (x : scalar) | P_optional (o : option scalar).

Inductive buffer_kind :=
  | MYSQL_TYPE_DECIMAL | MYSQL_TYPE_STRING | MYSQL_TYPE_TINY | MYSQL_TYPE_LONG | MYSQL_TYPE_LONGLONG
  | MYSQL_TYPE_FLOAT | MYSQL_TYPE_DOUBLE.

(** [MYSQL_BIND]; a pointer is what it points to. *)
Record MYSQL_BIND := MkBind {
  buffer_type : buffer_kind;
  buffer : list Z;
  buffer_length : Z;
  b_length : option Z;
  b_is_null : option bool;
  is_unsigned : bool;
}.

(** After [memset]. *)
Definition zero_bind : MYSQL_BIND := MkBind MYSQL_TYPE_DECIMAL [] 0 None None false.

Definition integral_type (octets : list Z) : buffer_kind :=
  if (length octets =? 8)%nat then MYSQL_TYPE_LONGLONG else MYSQL_TYPE_LONG.

(** [StmtParams::bindOne] of a value that is not optional *)
Definition bindScalar (x : scalar) (b : MYSQL_BIND) : MYSQL_BIND :=
  match x with
  | P_string s => MkBind MYSQL_TYPE_STRING s (zlen s) (Some (zlen s)) (b_is_null b) (is_unsigned b)
  | P_bool x => MkBind MYSQL_TYPE_TINY [if x then 1 else 0] (buffer_length b) (b_length b) (b_is_null b) (is_unsigned b)
  | P_integral u o => MkBind (integral_type o) o (buffer_length b) (b_length b) (b_is_null b) u
  | P_float o => MkBind MYSQL_TYPE_FLOAT o (buffer_length b) (b_length b) (b_is_null b) (is_unsigned b)
  | P_double o => MkBind MYSQL_TYPE_DOUBLE o (buffer_length b) (b_length b) (b_is_null b) (is_unsigned b)
  end.

(** [StmtParams::bindOne] *)
Definition bindOne (p : param) (b : MYSQL_BIND) : MYSQL_BIND :=
  let null n := MkBind (buffer_type b) (buffer b) (buffer_length b) (b_length b) (Some n) (is_unsigned b) in
  match p with
  | P_scalar x => bindScalar x b
  | P_optional None => null true
  | P_optional (Some x) => bindScalar x (null false)
  end.

(** The binds of a pack: [StmtParams] *)
Definition bindAll (ps : list param) : list MYSQL_BIND := map (fun p => bindOne p zero_bind) ps.

(** The bind of a text column: [StmtResultRow::bindOne] of a text. *)
Definition bindText (N : nat) (t : STMT_Text) (b : MYSQL_BIND) : MYSQL_BIND :=
  MkBind MYSQL_TYPE_STRING (t_buf t) (Z.of_nat N) (Some (t_length t)) (Some (t_is_null t)) (is_unsigned b).

(** The octets the library documents to read from, or write to, a buffer of each type. *)
Definition bound_octets (b : MYSQL_BIND) : Z :=
  match buffer_type b with
  | MYSQL_TYPE_STRING => default (buffer_length b) (b_length b)
  | MYSQL_TYPE_TINY => 1
  | MYSQL_TYPE_LONG | MYSQL_TYPE_FLOAT => 4
  | MYSQL_TYPE_LONGLONG | MYSQL_TYPE_DOUBLE => 8
  | MYSQL_TYPE_DECIMAL => 0
  end.

(** What the library takes from a bound parameter: NULL, or octets; [None] reads past the value. *)
Definition bound_value (b : MYSQL_BIND) : option (option (list Z)) :=
  if default false (b_is_null b) then Some None
  else if bound_octets b <=? zlen (buffer b) then Some (Some (take (Z.to_nat (bound_octets b)) (buffer b)))
  else None.

(** The value of a parameter as SQL sees it, and the parameters whose types have a
    buffer type of their size. *)
Definition scalar_value (x : scalar) : list Z :=
  match x with
  | P_string s => s
  | P_bool x => [if x then 1 else 0]
  | P_integral _ o | P_float o | P_double o => o
  end.

Definition scalar_fits (x : scalar) : Prop :=
  match x with
  | P_integral _ o => length o = 4%nat \/ length o = 8%nat
  | P_float o => length o = 4%nat
  | P_double o => length o = 8%nat
  | P_string _ | P_bool _ => True
  end.

Definition param_value (p : param) : option (list Z) :=
  match p with P_scalar x => Some (scalar_value x) | P_optional o => scalar_value <$> o end.

Definition param_fits (p : param) : Prop :=
  match p with P_scalar x | P_optional (Some x) => scalar_fits x | P_optional None => True end.

Lemma bindScalar_value x b :
  scalar_fits x -> default false (b_is_null b) = false -> bound_value (bindScalar x b) = Some (Some (scalar_value x)).
Proof.
  intros Hf Hb. unfold bound_value.
  assert (Hs : bound_octets (bindScalar x b) = zlen (scalar_value x)).
  { destruct x; cbn in *; unfold bound_octets, integral_type, zlen; cbn; try rewrite Hf; try done. by destruct Hf as [-> | ->]. }
  assert (Hv : buffer (bindScalar x b) = scalar_value x /\ b_is_null (bindScalar x b) = b_is_null b) by (by destruct x).
  destruct Hv as [Hv Hn]. rewrite Hs, Hv, Hn, Hb, Z.leb_refl. unfold zlen. by rewrite Nat2Z.id, firstn_all.
Qed.

(** Parameters reach the server: what the library reads through the binds of values
    whose sizes have a buffer type are the values, NULL for an empty optional. *)
Theorem params_reach_server ps :
  Forall param_fits ps -> map bound_value (bindAll ps) = map (fun p => Some (param_value p)) ps.
Proof.
  intros H. unfold bindAll. rewrite map_map. induction H as [|p ps Hp _ IH]; [done|]. cbn [map]. f_equal; [|done].
  destruct p as [x|[x|]]; [by apply bindScalar_value|by apply bindScalar_value|done].
Qed.

Lemma params_reach_server_witness :
  map bound_value (bindAll [P_optional (Some (P_integral false [7; 0; 0; 0])); P_optional None; P_scalar (P_string (str "x"))])
  = [Some (Some [7; 0; 0; 0]); Some None; Some (Some (str "x"))].
Proof.
  apply (params_reach_server [P_optional (Some (P_integral false [7; 0; 0; 0])); P_optional None; P_scalar (P_string (str "x"))]).
  repeat constructor.
Defined.

(** A number of one or two octets is bound with a buffer type of four: the library
    reads, and for a result column writes, past it. *)
Theorem short_integral_overrun u o : (length o < 4)%nat -> bound_value (bindOne (P_scalar (P_integral u o)) zero_bind) = None.
Proof.
  intros H. unfold bound_value, bound_octets. cbn [bindOne bindScalar b_is_null zero_bind default from_option id buffer_type buffer].
  unfold integral_type. rewrite (proj2 (Nat.eqb_neq _ _)) by lia.
  unfold zlen. destruct (Z.leb_spec 4 (Z.of_nat (length o))); [lia|done].
Qed.

Lemma short_integral_overrun_witness : bound_value (bindOne (P_scalar (P_integral true [1; 0])) zero_bind) = None.
Proof. exact (short_integral_overrun true [1; 0] ltac:(cbn; lia)). Defined.

(** ** Statements *)

Inductive StmtState := INIT | PREPARE | BIND | EXECUTE | STORE | FETCH | CLOSED.
#[global] Instance StmtState_eq_dec : EqDecision StmtState.
Proof. solve_decision. Defined.

(** A call of the library, whether it was over when the statement went on, and whether it succeeded. *)
Inductive call_kind := K_prepare | K_bind_param | K_bind_result | K_execute | K_store | K_fetch | K_close.
Record lib_call := MkCall { k_kind : call_kind; k_over : bool; k_ok : bool }.

(** The answers and waits of one call in two halves. *)
Abbreviation script := (list answer * list LimitState)%type.

Definition MYSQL_NO_DATA : Z := 100.

Section Statement.
(** A tuple of the result type. *)
Context {R : Type}.

(** [m_stmt] and [m_conn_wrapper] are null or not; [s_calls] are the calls made. *)
Record MySQLStmt := MkStmt {
  s_stmt : bool;
  s_conn : bool;
  s_state : StmtState;
  s_result : list R;
  s_calls : list lib_call;
}.

(** The constructor; [mysql_stmt_init] may answer null. *)
Definition newStmt (stmt_init : bool) : MySQLStmt := MkStmt stmt_init true INIT [] [].

Definition set_stmt_state (st : StmtState) (s : MySQLStmt) : MySQLStmt :=
  MkStmt (s_stmt s) (s_conn s) st (s_result s) (s_calls s).
Definition append (row : R) (s : MySQLStmt) : MySQLStmt :=
  MkStmt (s_stmt s) (s_conn s) (s_state s) (s_result s ++ [row]) (s_calls s).
Definition record_call (k : call_kind) (over ok : bool) (s : MySQLStmt) : MySQLStmt :=
  MkStmt (s_stmt s) (s_conn s) (s_state s) (s_result s) (s_calls s ++ [MkCall k over ok]).

(** [while (status)]: the state of the last wait, and the result once the call is over. *)
Fixpoint call_loop (status ret : Z) (answers : list answer) (waits : list LimitState) : ended (IOState * Z) :=
  if status =? 0 then Ended (IO_SUCCESS, ret)
  else
    match waits with
    | [] => Awaits (await_event status)
    | w :: waits =>
        if bool_decide (await_result w <> IO_SUCCESS) then Ended (await_result w, ret)
        else
          match answers with
          | [] => Calls
          | a :: answers => call_loop (a_status a) (a_ret a) answers waits
          end
    end.

Definition run_call (sc : script) : ended (IOState * Z) :=
  match sc.1 with [] => Calls | a :: answers => call_loop (a_status a) (a_ret a) answers sc.2 end.

(** Runs a call on the statement and goes on; [Ended None] is a crash: the library or
    the wait follows a null pointer. *)
Definition on_call {A} (k : call_kind) (sc : script) (s : MySQLStmt)
    (next : IOState -> Z -> MySQLStmt -> ended (option A)) : ended (option A) :=
  if negb (s_stmt s && s_conn s) then Ended None
  else
    match run_call sc with
    | Ended (io, ret) =>
        next io ret (record_call k (bool_decide (io = IO_SUCCESS)) (bool_decide (io = IO_SUCCESS) && negb (truthy ret)) s)
    | Awaits e => Awaits e
    | Calls => Calls
    end.

Abbreviation outcome := (ended (option (IOState * MySQLStmt))).

Definition co_prepare (sc : script) (s : MySQLStmt) : outcome :=
  if bool_decide (s_state s <> INIT) then Ended (Some (IO_FAILED, s))
  else on_call K_prepare sc s (fun io ret s =>
    if bool_decide (io <> IO_SUCCESS) then Ended (Some (io, s))
    else if truthy ret then Ended (Some (IO_FAILED, s))
    else Ended (Some (IO_SUCCESS, set_stmt_state PREPARE s))).

(** The part of [co_execute] after [co_prepare]; [cols] tells whether there are result columns. *)
Definition bind_and_execute (cols bind_param bind_result : bool) (sc : script) (s : MySQLStmt) : outcome :=
  if bool_decide (s_state s <> PREPARE) then Ended (Some (IO_FAILED, s))
  else
    let s := record_call K_bind_param true bind_param s in
    if negb bind_param then Ended (Some (IO_FAILED, s))
    else
      let s := if cols then record_call K_bind_result true bind_result s else s in
      if cols && negb bind_result then Ended (Some (IO_FAILED, s))
      else on_call K_execute sc s (fun io ret s =>
        if bool_decide (io <> IO_SUCCESS) then Ended (Some (io, s))
        else if truthy ret then Ended (Some (IO_FAILED, s))
        else Ended (Some (IO_SUCCESS, set_stmt_state EXECUTE s))).

Definition co_execute (prepare : script) (cols bind_param bind_result : bool) (execute : script) (s : MySQLStmt) : outcome :=
  match co_prepare prepare s with
  | Ended (Some (IO_SUCCESS, s)) => bind_and_execute cols bind_param bind_result execute s
  | Ended (Some (_, s)) => Ended (Some (IO_FAILED, s))
  | r => r
  end.

Definition co_storeAll (sc : script) (s : MySQLStmt) : outcome :=
  if bool_decide (s_state s <> EXECUTE) then Ended (Some (IO_FAILED, s))
  else on_call K_store sc s (fun io ret s =>
    if bool_decide (io <> IO_SUCCESS) then Ended (Some (IO_FAILED, s))
    else if truthy ret then Ended (Some (IO_FAILED, s))
    else Ended (Some (IO_SUCCESS, set_stmt_state STORE s))).

(** [co_fetchNext]; [row] is what the library writes to the bound columns. *)
Definition co_fetchNext (sc : script) (row : R) (s : MySQLStmt) : ended (option (option R * MySQLStmt)) :=
  if bool_decide (s_state s <> EXECUTE /\ s_state s <> STORE) then Ended (Some (None, s))
  else on_call K_fetch sc s (fun io ret s =>
    if bool_decide (io <> IO_SUCCESS) then Ended (Some (None, s))
    else if ret =? MYSQL_NO_DATA then Ended (Some (None, set_stmt_state FETCH s))
    else if truthy ret then Ended (Some (None, s))
    else Ended (Some (Some row, s))).

(** [co_fetchAll], one script and row per round; it still calls the library when they run out. *)
Fixpoint stmt_fetchAll (rounds : list (script * R)) (s : MySQLStmt) : outcome :=
  match rounds with
  | [] => Calls
  | (sc, row) :: rounds =>
      match co_fetchNext sc row s with
      | Ended (Some (Some row, s)) => stmt_fetchAll rounds (append row s)
      | Ended (Some (None, s)) => Ended (Some (if bool_decide (s_state s = FETCH) then IO_SUCCESS else IO_FAILED, s))
      | Ended None => Ended None
      | Awaits e => Awaits e
      | Calls => Calls
      end
  end.

Definition co_close (sc : script) (s : MySQLStmt) : outcome :=
  on_call K_close sc s (fun io ret s =>
    if bool_decide (io <> IO_SUCCESS) then Ended (Some (IO_FAILED, s))
    else if negb (ret =? 0) then Ended (Some (IO_FAILED, s))
    else Ended (Some (IO_SUCCESS, MkStmt false false (s_state s) (s_result s) (s_calls s)))).

(** ** The order the library demands *)

Inductive lib_state := L_new | L_prepared | L_executed | L_closed | L_under_way.

(** [None] is a call the library does not allow in this state.  After a call that was
    left under way only its other half would be allowed.  Closing frees the handle,
    whatever it answers. *)
Definition lib_step (l : lib_state) (c : lib_call) : option lib_state :=
  match l, k_kind c with
  | L_new, K_prepare => Some (if negb (k_over c) then L_under_way else if k_ok c then L_prepared else L_new)
  | L_prepared, (K_bind_param | K_bind_result) => Some L_prepared
  | L_prepared, K_execute => Some (if negb (k_over c) then L_under_way else if k_ok c then L_executed else L_prepared)
  | L_executed, (K_store | K_fetch) => Some (if negb (k_over c) then L_under_way else L_executed)
  | (L_new | L_prepared | L_executed), K_close => Some (if negb (k_over c) then L_under_way else L_closed)
  | _, _ => None
  end.

Fixpoint lib_run (l : lib_state) (cs : list lib_call) : option lib_state :=
  match cs with [] => Some l | c :: cs => l ← lib_step l c; lib_run l cs end.










(** ** What a program can do with a statement *)

Inductive stmt_op :=
  | Execute (prepare : script) (cols bind_param bind_result : bool) (execute : script)
  | StoreAll (sc : script)
  | FetchNext (sc : script) (row : R)
  | FetchAll (rounds : list (script * R))
  | Close (sc : script).

Definition stmt_exec (o : stmt_op) (s : MySQLStmt) : ended (option MySQLStmt) :=
  let drop {A} (r : ended (option (A * MySQLStmt))) : ended (option MySQLStmt) :=
    match r with Ended x => Ended (snd <$> x) | Awaits e => Awaits e | Calls => Calls end in
  match o with
  | Execute p c b1 b2 e => drop (co_execute p c b1 b2 e s)
  | StoreAll sc => drop (co_storeAll sc s)
  | FetchNext sc row => drop (co_fetchNext sc row s)
  | FetchAll rounds => drop (stmt_fetchAll rounds s)
  | Close sc => drop (co_close sc s)
  end.















End Statement.

Arguments MySQLStmt : clear implicits.
Arguments stmt_op : clear implicits.


(** A call that is over after a list of rounds. *)
Definition over_with (sc : script) (ret : Z) : Prop := run_call sc = Ended (IO_SUCCESS, ret).

(** Fetching all rows: when the library delivers rows and then reports the end, the
    result of the statement grows by exactly these rows, in order, and the call
    succeeds; when it reports an error instead, the rows before it are kept and the
    call fails. *)
Theorem fetchAll_collects {R} (rounds : list (script * R)) last row ret (s : MySQLStmt R) :
  s_stmt s = true -> s_conn s = true -> s_state s = EXECUTE \/ s_state s = STORE ->
  Forall (fun x => over_with x.1 0) rounds -> over_with last ret -> ret <> 0 ->
  exists s', stmt_fetchAll (rounds ++ [(last, row)]) s
      = Ended (Some (if ret =? MYSQL_NO_DATA then IO_SUCCESS else IO_FAILED, s'))
    /\ s_result s' = s_result s ++ map snd rounds.
Proof.
  intros H1 H2 Hst Hr Hl Hret. revert s H1 H2 Hst.
  induction Hr as [|[sc x] rounds Hx _ IH]; intros s H1 H2 Hst; cbn [app stmt_fetchAll];
    unfold co_fetchNext, on_call; rewrite H1, H2, bool_decide_eq_false_2 by (destruct Hst; tauto); cbn [andb negb].
  - unfold over_with in Hl. rewrite Hl. change (bool_decide (IO_SUCCESS = IO_SUCCESS)) with true; change (bool_decide (IO_SUCCESS <> IO_SUCCESS)) with false.
    cbn [andb].
    assert (truthy ret = true) as -> by (by apply truthy_spec). destruct (ret =? MYSQL_NO_DATA).
    + eexists. split; [done|]. cbn. by rewrite app_nil_r.
    + eexists. cbn [record_call s_state]. rewrite bool_decide_eq_false_2 by (destruct Hst as [-> | ->]; done).
      split; [done|]. cbn. by rewrite app_nil_r.
  - cbn [fst] in Hx. unfold over_with in Hx. rewrite Hx. change (bool_decide (IO_SUCCESS = IO_SUCCESS)) with true; change (bool_decide (IO_SUCCESS <> IO_SUCCESS)) with false.
    change (truthy 0) with false. cbn [andb negb Z.eqb MYSQL_NO_DATA].
    destruct (IH (append x (record_call K_fetch true true s))) as (s' & -> & Hres); [done|done|done|].
    exists s'. split; [done|]. rewrite Hres. cbn. by rewrite <- app_assoc.
Qed.

(** ** A sample *)

Definition ok_call : script := ([Ans 1 0; Ans 0 0], [FINISHED]).
Definition end_call : script := ([Ans 0 MYSQL_NO_DATA], []).

Definition executed_stmt : MySQLStmt Z :=
  match stmt_exec (Execute ok_call true true true ok_call) (newStmt true) with Ended (Some s) => s | _ => newStmt true end.





Lemma fetchAll_collects_witness :
  exists s', stmt_fetchAll [(ok_call, 5); (ok_call, 6); (end_call, 0)] executed_stmt = Ended (Some (IO_SUCCESS, s'))
    /\ s_result s' = [5; 6].
Proof.
  apply (fetchAll_collects [(ok_call, 5); (ok_call, 6)] end_call 0 MYSQL_NO_DATA executed_stmt).
  - reflexivity.
  - reflexivity.
  - left. reflexivity.
  - by repeat constructor.
  - reflexivity.
  - done.
Defined.

(** ** Defects *)

(** Closing does not change the state: fetching from a closed statement follows the
    null pointer instead of being refused. *)
Theorem closed_stmt_crashes {R} (s s' : MySQLStmt R) close sc row :
  s_state s = EXECUTE \/ s_state s = STORE -> co_close close s = Ended (Some (IO_SUCCESS, s')) ->
  co_fetchNext sc row s' = Ended None.
Proof.
  intros Hst. unfold co_close, on_call. destruct (negb _); [done|].
  destruct (run_call close) as [[io ret]| |]; [|done|done]. case_bool_decide; [done|]. destruct (negb (ret =? 0)); [done|].
  intros [= <-]. unfold co_fetchNext. rewrite bool_decide_eq_false_2; [done|]. cbn. destruct Hst as [-> | ->]; tauto.
Qed.

Lemma closed_stmt_crashes_witness :
  exists s', co_close ok_call executed_stmt = Ended (Some (IO_SUCCESS, s')) /\ co_fetchNext ok_call 0 s' = Ended None.
Proof.
  eexists. split; [reflexivity|].
  apply (closed_stmt_crashes executed_stmt _ ok_call ok_call 0).
  - left. reflexivity.
  - reflexivity.
Defined.

(** A statement runs one query: once it is prepared, executing again is refused,
    whatever became of the first query. *)
Theorem stmt_runs_once {R} (s : MySQLStmt R) p c b1 b2 e :
  s_state s <> INIT -> co_execute p c b1 b2 e s = Ended (Some (IO_FAILED, s)).
Proof. intros H. unfold co_execute, co_prepare. by rewrite bool_decide_eq_true_2. Qed.

Lemma stmt_runs_once_witness : co_execute ok_call true true true ok_call executed_stmt = Ended (Some (IO_FAILED, executed_stmt)).
Proof. apply (stmt_runs_once executed_stmt). done. Defined.

(** A call that times out is left under way, and trying again starts another on the
    same statement, which the library does not allow. *)
Theorem timeout_breaks_protocol {R} first again b1 b2 e :
  run_call first = Ended (IO_TIMEOUT, 0) -> run_call again = Ended (IO_SUCCESS, 1) ->
  exists s s' : MySQLStmt R, co_execute first true b1 b2 e (newStmt true) = Ended (Some (IO_FAILED, s))
    /\ co_execute again true b1 b2 e s = Ended (Some (IO_FAILED, s')) /\ lib_run L_new (s_calls s') = None.
Proof.
  intros H1 H2. unfold co_execute at 1, co_prepare at 1, on_call. rewrite H1. cbn.
  eexists _, _. split; [done|]. unfold co_execute, co_prepare, on_call. cbn. rewrite H2. cbn. split; done.
Qed.

Lemma timeout_breaks_protocol_witness :
  exists s s' : MySQLStmt Z, co_execute ([Ans 1 0], [TIMEOUT]) true true true ok_call (newStmt true) = Ended (Some (IO_FAILED, s))
    /\ co_execute ([Ans 0 1], []) true true true ok_call s = Ended (Some (IO_FAILED, s')) /\ lib_run L_new (s_calls s') = None.
Proof. exact (timeout_breaks_protocol ([Ans 1 0], [TIMEOUT]) ([Ans 0 1], []) true true ok_call eq_refl eq_refl). Defined.
