(* ===== verification/StmtRow.v ===== *)
(** * The row of a prepared statement

    Models [StmtResultRow] and [StmtResult] of [sylar/DBPool/mysql.hpp]: the variables
    into which the client library writes the columns of a row, their binds, and the
    values that are taken out of them after each fetch.  The library is an interface: what it
    documents of [mysql_stmt_fetch]. *)

From S2P Require Import Prelude CppString MysqlStmt.

(** A result variable: the octets of a number, or a text. *)
Inductive column :=
  | C_bool (octets : list Z)
  | C_integral (unsigned : bool) (octets : list Z)
  | C_float (octets : list Z)
  | C_double (octets : list Z)
  | C_text (N : nat) (t : STMT_Text).

(** A variable with its entry of [nulls_]. *)
Abbreviation cell := (column * bool)%type.

(** [StmtResultRow::bindOne] *)
Definition bindColumn (c : cell) : MYSQL_BIND :=
  let num ty o u := MkBind ty o 0 None (Some c.2) u in
  match c.1 with
  | C_bool o => num MYSQL_TYPE_TINY o false
  | C_integral u o => num (integral_type o) o u
  | C_float o => num MYSQL_TYPE_FLOAT o false
  | C_double o => num MYSQL_TYPE_DOUBLE o false
  | C_text N t => bindText N t zero_bind
  end.

(** What a fetch writes through a bind. *)
Record written := mk_written { w_buffer : list Z; w_length : Z; w_null : bool; w_error : bool }.

(** The library: [None] is a write past the variable.  A NULL sets the flag and nothing
    else; a number takes the octets of its buffer type; of a string as much as the buffer takes is written, and
    the length is that of the string. *)
Class FetchLib := {
  store : MYSQL_BIND -> option (list Z) -> option written;
  store_null : forall b, exists l e, store b None = Some (mk_written (buffer b) l true e);
  store_number : forall b v, buffer_type b <> MYSQL_TYPE_STRING -> zlen v = bound_octets b ->
    match store b (Some v) with
    | Some w => w_buffer w = v ++ drop (length v) (buffer b) /\ w_null w = false /\ zlen v <= zlen (buffer b)
    | None => zlen (buffer b) < zlen v
    end;
  store_text : forall b v, buffer_type b = MYSQL_TYPE_STRING -> buffer_length b = zlen (buffer b) ->
    exists w, store b (Some v) = Some w /\ w_buffer w = take (length (buffer b)) v ++ drop (length v) (buffer b) /\
      w_length w = zlen v /\ w_null w = false /\ w_error w = (zlen (buffer b) <? zlen v);
}.

Section Row.
Context `{FetchLib}.

(** The variable after a fetch. *)
Definition fetch_cell (v : option (list Z)) (c : cell) : option cell :=
  match store (bindColumn c) v with
  | None => None
  | Some w =>
      Some match c.1 with
           | C_bool _ => (C_bool (w_buffer w), w_null w)
           | C_integral u _ => (C_integral u (w_buffer w), w_null w)
           | C_float _ => (C_float (w_buffer w), w_null w)
           | C_double _ => (C_double (w_buffer w), w_null w)
           | C_text N t => (C_text N (MkText (w_buffer w) (if w_null w then t_length t else w_length w) (w_null w) (w_error w)), c.2)
           end
  end.

Fixpoint fetch_row (vs : list (option (list Z))) (row : list cell) : option (list cell) :=
  match vs, row with
  | v :: vs, c :: row => c ← fetch_cell v c; row ← fetch_row vs row; Some (c :: row)
  | _, _ => Some []
  end.

(** [getValues]: a number is its octets, a text what [TextToString] gives; [None] reads past
    the buffer. *)
Definition cell_value (c : cell) : option (list Z) :=
  match c.1 with
  | C_bool o | C_integral _ o | C_float o | C_double o => Some o
  | C_text _ t => TextToString t
  end.

Definition getValues (row : list cell) : list (option (list Z)) := map cell_value row.

(** A variable of a type that has a buffer type of its size, and a value for it that fits. *)
Definition cell_ok (c : column) : Prop :=
  match c with
  | C_bool o => length o = 1%nat
  | C_integral _ o => length o = 4%nat \/ length o = 8%nat
  | C_float o => length o = 4%nat
  | C_double o => length o = 8%nat
  | C_text N t => length (t_buf t) = N
  end.

Definition value_ok (v : option (list Z)) (c : cell) : Prop :=
  cell_ok c.1 /\
  match v, c.1 with
  | Some v, C_text N _ => (length v <= N)%nat
  | Some v, (C_bool o | C_integral _ o | C_float o | C_double o) => length v = length o
  | None, C_text _ _ => True
  | None, _ => False
  end.

Lemma bound_size c : cell_ok c.1 -> (forall N t, c.1 <> C_text N t) ->
  buffer_type (bindColumn c) <> MYSQL_TYPE_STRING /\ bound_octets (bindColumn c) = zlen (buffer (bindColumn c)).
Proof.
  destruct c as [[o|u o|o|o|N t] n]; cbn; intros Hc Ht; unfold bound_octets, integral_type, zlen; cbn.
  - by rewrite Hc.
  - destruct Hc as [-> | ->]; done.
  - by rewrite Hc.
  - by rewrite Hc.
  - by destruct (Ht N t).
Qed.

Lemma fetch_number c v o :
  buffer (bindColumn c) = o -> buffer_type (bindColumn c) <> MYSQL_TYPE_STRING -> bound_octets (bindColumn c) = zlen o -> length v = length o ->
  exists w, store (bindColumn c) (Some v) = Some w /\ w_buffer w = v.
Proof.
  intros Hb Ht Ho Hv. assert (Hz : zlen v = zlen o) by (unfold zlen; by rewrite Hv).
  pose proof (store_number (bindColumn c) v Ht ltac:(congruence)) as Hs. rewrite Hb in Hs.
  destruct (store (bindColumn c) (Some v)) as [w|]; [|lia]. exists w. split; [done|]. destruct Hs as (-> & _). rewrite drop_ge by lia. apply app_nil_r.
Qed.

(** A value that fits is read back; a text that is NULL reads as empty. *)
Lemma fetch_cell_ok v c : value_ok v c ->
  exists c', fetch_cell v c = Some c' /\ cell_value c' = Some (default [] v) /\ cell_ok c'.1.
Proof.
  intros [Hc Hv]. unfold fetch_cell.
  assert (Hnum : forall o, (forall N t, c.1 <> C_text N t) -> buffer (bindColumn c) = o ->
            match v with Some v => length v = length o | None => False end ->
            exists w, store (bindColumn c) v = Some w /\ v = Some (w_buffer w) /\ length (w_buffer w) = length o).
  { intros o Ht Hb Ho. destruct v as [v|]; [|done]. destruct (bound_size c Hc Ht) as [H1 H2]. rewrite Hb in H2.
    destruct (fetch_number c v o Hb H1 H2 Ho) as (w & Hw & <-). exists w. by rewrite <- Ho. }
  destruct c as [[o|u o|o|o|N t] n]; cbn [fst snd] in *; cbn [cell_ok] in Hc.
  1-4: destruct (Hnum o ltac:(done) eq_refl ltac:(by destruct v)) as (w & -> & -> & Hl); eexists; split; [done|]; split; [done|]; cbn; by rewrite Hl.
  destruct v as [v|].
  - destruct (store_text (bindColumn (C_text N t, n)) v eq_refl) as (w & Hw & Hb & Hl & Hn & _); [cbn; unfold zlen; by rewrite Hc|].
    rewrite Hw. cbn in Hb. rewrite Hc, take_ge in Hb by lia. eexists. split; [done|]. cbn [cell_value fst default from_option id].
    rewrite Hn, Hl, Hb. unfold TextToString. cbn [t_is_null t_length t_buf cell_ok]. unfold zlen. rewrite length_app, length_drop, Hc.
    rewrite (proj2 (Z.leb_le 0 _)), (proj2 (Z.leb_le _ _)) by lia. cbn [andb]. rewrite Nat2Z.id, take_app_length. split; [done|lia].
  - destruct (store_null (bindColumn (C_text N t, n))) as (l & e & ->). eexists. split; [done|]. cbn. done.
Qed.

(** * Results *)

(** A row is read back: values of numeric columns whose types have a buffer type of their size, and texts that fit
    their buffer, come out of the row as the server sent them, whatever the row held before; a NULL text is
    empty. *)
Theorem row_reads_back vs row :
  Forall2 value_ok vs row ->
  exists row', fetch_row vs row = Some row' /\ getValues row' = map (fun v => Some (default [] v)) vs /\ Forall (fun c => cell_ok c.1) row'.
Proof.
  unfold getValues. induction 1 as [|v c vs row Hv _ (row' & IH & Hvs & Hok)]; [by exists []|].
  destruct (fetch_cell_ok v c Hv) as (c' & Hc & Hcv & Hco). exists (c' :: row'). cbn [fetch_row]. rewrite Hc. cbn [mbind option_bind].
  rewrite IH. split_and!; [done| |by constructor]. cbn [map]. by rewrite Hcv, Hvs.
Qed.

(** A NULL in a numeric column leaves the variable, and the values of the row hold what the row before
    had there. *)
Theorem null_number_is_stale u o n :
  exists n', fetch_cell None (C_integral u o, n) = Some (C_integral u o, n') /\ cell_value (C_integral u o, n') = Some o.
Proof. unfold fetch_cell. destruct (store_null (bindColumn (C_integral u o, n))) as (l & e & ->). by eexists. Qed.

(** A text that is longer than its buffer has the length the server sent: [TextToString] reads past
    the buffer. *)
Theorem long_text_overreads N t n v :
  length (t_buf t) = N -> (N < length v)%nat ->
  exists c, fetch_cell (Some v) (C_text N t, n) = Some c /\ cell_value c = None.
Proof.
  intros Ht Hv. unfold fetch_cell.
  destruct (store_text (bindColumn (C_text N t, n)) v eq_refl) as (w & -> & Hb & Hl & Hn & _); [cbn; unfold zlen; by rewrite Ht|].
  eexists. split; [done|]. cbn in Hb |- *. unfold TextToString. cbn [t_is_null t_length t_buf]. rewrite Hn, Hl, Hb. unfold zlen.
  rewrite length_app, length_take, length_drop, Ht. rewrite (proj2 (Z.leb_le 0 _)), (proj2 (Z.leb_gt _ _)) by lia. done.
Qed.

(** A column of one or two octets is bound as one of four: the library writes past it. *)
Theorem short_column_overrun u o n v : (length o < 4)%nat -> length v = 4%nat -> fetch_cell (Some v) (C_integral u o, n) = None.
Proof.
  intros Ho Hv. unfold fetch_cell.
  assert (Hty : integral_type o = MYSQL_TYPE_LONG) by (unfold integral_type; rewrite (proj2 (Nat.eqb_neq _ _)) by lia; done).
  assert (Hb : bindColumn (C_integral u o, n) = MkBind MYSQL_TYPE_LONG o 0 None (Some n) u) by (unfold bindColumn; cbn [fst snd]; by rewrite Hty).
  rewrite Hb. pose proof (store_number (MkBind MYSQL_TYPE_LONG o 0 None (Some n) u) v ltac:(done)) as Hs. unfold zlen in Hs. rewrite Hv in Hs.
  specialize (Hs eq_refl). destruct (store _ (Some v)) as [w|]; [|done]. destruct Hs as (_ & _ & Hle). cbn in Hle. lia.
Qed.
End Row.

(** ** A library *)

Definition lib_store (b : MYSQL_BIND) (v : option (list Z)) : option written :=
  match v with
  | None => Some (mk_written (buffer b) 0 true false)
  | Some v =>
      match buffer_type b with
      | MYSQL_TYPE_STRING => Some (mk_written (take (length (buffer b)) v ++ drop (length v) (buffer b)) (zlen v) false (zlen (buffer b) <? zlen v))
      | _ => if zlen v <=? zlen (buffer b) then Some (mk_written (v ++ drop (length v) (buffer b)) (zlen v) false false) else None
      end
  end.

#[export] Instance lib_fetch : FetchLib.
Proof.
  refine {| store := lib_store |}.
  - intros b. by eexists _, _.
  - intros b v Ht _. unfold lib_store. destruct (buffer_type b); try done; (destruct (Z.leb_spec (zlen v) (zlen (buffer b))); [done|lia]).
  - intros b v Ht Hl. unfold lib_store. rewrite Ht. by eexists.
Defined.

(** A number and a text, and the row that is fetched after them. *)
Definition ex_row : list cell := [(C_integral false [9; 9; 9; 9], false); (C_text 3 (MkText [1; 2; 3] 3 false false), false)].

Lemma row_reads_back_witness :
  exists row, fetch_row [Some [7; 0; 0; 0]; Some (str "ab")] ex_row = Some row /\ getValues row = [Some [7; 0; 0; 0]; Some (str "ab")].
Proof.
  destruct (row_reads_back [Some [7; 0; 0; 0]; Some (str "ab")] ex_row) as (row & Hf & Hv & _).
  - repeat constructor; cbn; auto.
  - exists row. split; [exact Hf|exact Hv].
Defined.
