(* ===== verification/DbQuery.v ===== *)
(** * Queries on a pool of connections

    Models [init] and [executeQuery] of the two pool managers
    ([sylar/DBPool/mysql.cc], [redis.cc]) on the pool of [DbPool]: any number of
    queries, each a coroutine that borrows a connection, grows the pool or waits
    for a connection ([GetConnAwaiter] of [database.hpp]), runs on it and gives it
    back.  A step is one operation of the pool by one query; the steps of the
    queries interleave, and the program may close the pool at any time.  The
    callback a query registers is its number. *)

From stdpp Require Import relations.
From S2P Require Import Prelude TimeLimit FdContext Mysql DbPool.

(** ** [init] *)

(** The connections are opened one after the other until one fails; [results] are
    those of [connect], success where the list is shorter. *)
Definition manager_init (results : list bool) (p : DBPool) : Z * DBPool :=
  let '(free, ok, _) := expand_loop (Z.to_nat (m_minConnector p)) 0 results (m_freeConnInfos p) 0 in
  if negb ok then (-1, set_conns free (m_connectorCount p) (m_busyConnCount p) ERROR p)
  else (0, set_conns free (m_minConnector p) (m_busyConnCount p) READY p).

(** ** [executeQuery] of the managers *)

Inductive query :=
  | Q_new                       (** not started *)
  | Q_borrow                    (** about to borrow *)
  | Q_busy                      (** got no connection *)
  | Q_wait                      (** in [co_await GetConnAwaiter] *)
  | Q_run (idx : Z)             (** runs on connection [idx] *)
  | Q_done (st : IOState).

(** What one query does next: the result of its step on the pool.  [resumed] is given
    to a query that waits when its callback runs. *)
Definition query_start (p : DBPool) : query := if checkRunState p then Q_borrow else Q_done IO_FAILED.

Definition query_borrow (p : DBPool) : option (query * DBPool) :=
  match borrowOneConn p with
  | Bo_idx idx p => Some (if 0 <=? idx then Q_run idx else Q_busy, p)
  | Bo_assert => None
  end.

(** No connection is free: the pool grows, whether or not the new connections can be opened
    ([results]), and the query tries again; or it registers. *)
Definition query_busy (results : list bool) (me : nat) (p : DBPool) : query * DBPool :=
  if m_connectorCount p <? m_maxConnector p then (Q_borrow, (expand results p).2)
  else (Q_wait, (registeConnCb (Some me) p).2).

Definition query_finish (idx : Z) (p : DBPool) : DBPool := ConnectWrapper_dtor idx false true p.

(** Taking callback [l1 ++ me :: l2] from those scheduled. *)
Definition take_callback (l1 l2 : list nat) (p : DBPool) : DBPool := set_waiters (m_waitConnCb p) (l1 ++ l2) p.

(** One operation of one query; [connects] are the results that opening connections may
    have while the queries run. *)
Inductive query_step (connects : list bool -> Prop) : DBPool * list query -> DBPool * list query -> Prop :=
  | qs_start p l1 l2 : query_step connects (p, l1 ++ Q_new :: l2) (p, l1 ++ query_start p :: l2)
  | qs_borrow p l1 l2 q p' :
      query_borrow p = Some (q, p') -> query_step connects (p, l1 ++ Q_borrow :: l2) (p', l1 ++ q :: l2)
  | qs_busy p l1 l2 results :
      connects results ->
      query_step connects (p, l1 ++ Q_busy :: l2)
        ((query_busy results (length l1) p).2, l1 ++ (query_busy results (length l1) p).1 :: l2)
  | qs_resume p l1 l2 s1 s2 :
      scheduled p = s1 ++ length l1 :: s2 ->
      query_step connects (p, l1 ++ Q_wait :: l2) (take_callback s1 s2 p, l1 ++ query_start p :: l2)
  | qs_finish p l1 l2 idx st : query_step connects (p, l1 ++ Q_run idx :: l2) (query_finish idx p, l1 ++ Q_done st :: l2).

(** The program may also close the pool. *)
Inductive pool_step (connects : list bool -> Prop) : DBPool * list query -> DBPool * list query -> Prop :=
  | ps_query c c' : query_step connects c c' -> pool_step connects c c'
  | ps_close p qs : pool_step connects (p, qs) (close p, qs).

(** Every connection that is tried can be opened. *)
Abbreviation succeed := (Forall (eq true)).

Lemma expand_loop_succeed rs : succeed rs -> forall n i free m, expand_loop n i rs free m = expand_loop n i [] free m.
Proof. induction 1 as [|r rs <- _ IH]; intros [|n] i free m; cbn [expand_loop]; [done..|]. by rewrite IH. Qed.

Lemma expand_succeed rs p : succeed rs -> expand rs p = expand [] p.
Proof. intros H. unfold expand. by rewrite (expand_loop_succeed rs H). Qed.

Lemma query_busy_succeed rs me p : succeed rs -> query_busy rs me p = query_busy [] me p.
Proof. intros H. unfold query_busy. by rewrite (expand_succeed rs). Qed.

(** The connections in use. *)
Definition held1 (q : query) : list Z := match q with Q_run idx => [idx] | _ => [] end.
Definition held (qs : list query) : list Z := qs ≫= held1.

Lemma held_mid l1 q l2 : held (l1 ++ q :: l2) ≡ₚ held1 q ++ held (l1 ++ l2).
Proof.
  unfold held. rewrite !bind_app. cbn [mbind list_bind]. rewrite !app_assoc. apply Permutation_app_tail, Permutation_app_comm.
Qed.

(** ** No connection is used twice *)

Record exclusive (p : DBPool) (qs : list query) : Prop := {
  ex_distinct : NoDup (m_freeConnInfos p ++ held qs);
  ex_range : Forall (fun i => 0 <= i < m_connectorCount p) (m_freeConnInfos p ++ held qs);
  ex_count : 0 <= m_connectorCount p <= m_maxConnector p;
  ex_incr : 0 <= m_increaseNum p;
}.

(** The invariant depends on the free and used connections, in any order. *)
Lemma exclusive_perm p qs p' qs' :
  exclusive p qs -> m_freeConnInfos p' ++ held qs' ≡ₚ m_freeConnInfos p ++ held qs ->
  m_connectorCount p' = m_connectorCount p -> m_maxConnector p' = m_maxConnector p -> m_increaseNum p' = m_increaseNum p ->
  exclusive p' qs'.
Proof. intros [H1 H2 H3 H4] E C1 C2 C3. split; rewrite ?E, ?C1, ?C2, ?C3; done. Qed.

Lemma exclusive_same_held p l1 q q' l2 :
  exclusive p (l1 ++ q :: l2) -> held1 q' = held1 q -> exclusive p (l1 ++ q' :: l2).
Proof.
  intros H E. eapply exclusive_perm; [exact H| |done|done|done]. by rewrite !held_mid, E.
Qed.

(** Only the waiters change. *)
Lemma exclusive_waiters p qs w s : exclusive p qs -> exclusive (set_waiters w s p) qs.
Proof. intros H. by eapply exclusive_perm; [exact H|..]. Qed.

Lemma exclusive_tickle p qs : exclusive p qs -> exclusive (tickle p) qs.
Proof. intros H. unfold tickle. destruct (m_waitConnCb p); [done|]. by apply exclusive_waiters. Qed.

Lemma exclusive_state p qs busy st :
  exclusive p qs -> exclusive (set_conns (m_freeConnInfos p) (m_connectorCount p) busy st p) qs.
Proof. intros H. by eapply exclusive_perm; [exact H|..]. Qed.

Lemma exclusive_drop p l1 q l2 st : exclusive p (l1 ++ q :: l2) -> exclusive p (l1 ++ Q_done st :: l2).
Proof.
  intros [H1 H2 H3 H4]. rewrite held_mid in H1, H2. split; [| |done|done]; rewrite held_mid; cbn [held1 app].
  - rewrite (Permutation_app_comm (held1 q)), app_assoc in H1. by apply NoDup_app in H1 as [H1 _].
  - rewrite (Permutation_app_comm (held1 q)), app_assoc in H2. by apply Forall_app in H2 as [H2 _].
Qed.

Lemma exclusive_borrow p l1 l2 :
  exclusive p (l1 ++ Q_borrow :: l2) ->
  exists q p', query_borrow p = Some (q, p') /\ exclusive p' (l1 ++ q :: l2).
Proof.
  intros H. unfold query_borrow, borrowOneConn.
  destruct (negb (checkRunState p) || bool_decide (m_state p = FULL)).
  { exists Q_busy, p. split; [done|]. by eapply exclusive_same_held. }
  destruct (m_freeConnInfos p) as [|i free] eqn:Ef.
  { exists Q_busy, p. split; [done|]. by eapply exclusive_same_held. }
  assert (Hi : 0 <= i < m_connectorCount p).
  { pose proof (ex_range _ _ H) as Hr. rewrite Ef in Hr. by apply Forall_cons in Hr as [Hr _]. }
  destruct (Z.leb_spec 0 i); [|lia]. destruct (Z.ltb_spec i (m_connectorCount p)); [|lia]. cbn [andb].
  destruct (Z.leb_spec 0 i); [|lia]. eexists _, _. split; [done|].
  eapply exclusive_perm; [exact H| |done|done|done]. cbn [set_conns m_freeConnInfos].
  rewrite !held_mid, Ef. cbn [held1 app]. by rewrite <- Permutation_middle.
Qed.

Lemma exclusive_expand p qs : exclusive p qs -> exclusive (expand [] p).2 qs.
Proof.
  intros H. unfold expand. destruct (Z.eqb_spec (m_maxConnector p) (m_connectorCount p)) as [|Hne]; [done|].
  set (inc := if _ <? _ then _ else _).
  assert (Hinc : 0 <= inc <= m_maxConnector p - m_connectorCount p).
  { pose proof (ex_count _ _ H). pose proof (ex_incr _ _ H). unfold inc. destruct (Z.ltb_spec (m_increaseNum p) (m_maxConnector p - m_connectorCount p)); lia. }
  clearbody inc. rewrite expand_loop_ok, Z2Nat.id by lia. cbn [negb snd].
  destruct H as [H1 H2 H3 H4]. set (new := seqZ (m_connectorCount p) inc).
  assert (E : (m_freeConnInfos p ++ new) ++ held qs ≡ₚ (m_freeConnInfos p ++ held qs) ++ new)
    by (rewrite <- !app_assoc; apply Permutation_app_head, Permutation_app_comm).
  split; cbn [set_conns m_freeConnInfos m_connectorCount m_maxConnector m_increaseNum]; rewrite ?E; [| |lia|done].
  - apply NoDup_app. split; [done|]. split; [|apply NoDup_seqZ].
    intros i Hi Hn. apply elem_of_seqZ in Hn. rewrite Forall_forall in H2. apply H2 in Hi. lia.
  - apply Forall_app. split; [eapply Forall_impl; [exact H2|]; cbn; lia|].
    apply Forall_forall. intros i Hi. apply elem_of_seqZ in Hi. lia.
Qed.

Lemma exclusive_return p l1 idx l2 st :
  exclusive p (l1 ++ Q_run idx :: l2) -> exclusive (query_finish idx p) (l1 ++ Q_done st :: l2).
Proof.
  intros H. unfold query_finish, ConnectWrapper_dtor. destruct (idx <? 0); [by eapply exclusive_drop|].
  unfold returnConn. destruct (_ || _); [by eapply exclusive_drop|]. cbn [andb snd]. apply exclusive_tickle.
  eapply exclusive_perm; [exact H| |done|done|done]. cbn [set_conns m_freeConnInfos].
  rewrite !held_mid. cbn [held1 app]. rewrite <- app_assoc. done.
Qed.

Lemma exclusive_step c c' : pool_step succeed c c' -> exclusive c.1 c.2 -> exclusive c'.1 c'.2.
Proof.
  intros Hs H. destruct Hs as [c c' Hs|p qs]; [|cbn in *; by apply exclusive_tickle, exclusive_state].
  destruct Hs as [p l1 l2|p l1 l2 q p' E|p l1 l2 rs Hrs|p l1 l2 s1 s2 Es|p l1 l2 idx st]; cbn [fst snd] in *.
  - eapply exclusive_same_held; [exact H|]. unfold query_start. by destruct (checkRunState p).
  - destruct (exclusive_borrow p l1 l2 H) as (q2 & p2 & E2 & H2). by rewrite E in E2; injection E2 as -> ->.
  - rewrite (query_busy_succeed rs) by done. unfold query_busy. destruct (_ <? _); cbn [fst snd].
    + apply exclusive_expand. by eapply exclusive_same_held.
    + assert (H' : exclusive p (l1 ++ Q_wait :: l2)) by (by eapply exclusive_same_held).
      unfold registeConnCb. destruct (negb _); [done|]. by case_decide; apply exclusive_waiters.
  - apply exclusive_waiters. eapply exclusive_same_held; [exact H|]. unfold query_start. by destruct (checkRunState p).
  - by apply exclusive_return.
Qed.

Lemma exclusive_steps c c' : rtc (pool_step succeed) c c' -> exclusive c.1 c.2 -> exclusive c'.1 c'.2.
Proof. induction 1 as [|c1 c2 c3 H12 _ IH]; [done|]. intros H. by eapply IH, exclusive_step. Qed.

(** A pool right after an [init] that returned 0. *)
Definition ready_pool (min_conn max_conn increaseNum : Z) (p : DBPool) : Prop :=
  exists p0 results, DBPool_ctor min_conn max_conn increaseNum = Some p0 /\ manager_init results p0 = (0, p).

Lemma expand_loop_flag n : forall i rs free m free' m',
  expand_loop n i rs free m = (free', true, m') -> free' = free ++ seqZ i (Z.of_nat n).
Proof.
  induction n as [|n IH]; intros i rs free m free' m'; cbn [expand_loop]; [intros [= <- _]; by rewrite app_nil_r|].
  destruct rs as [|[] rs]; try done; intros ->%IH; rewrite <- app_assoc; cbn [app]; f_equal;
    rewrite (seqZ_cons i) by lia; f_equal; f_equal; lia.
Qed.

Lemma ready_pool_eq min_conn max_conn inc p :
  ready_pool min_conn max_conn inc p ->
  0 <= min_conn <= max_conn /\ p = mk_db (seqZ 0 min_conn) [] min_conn 0 min_conn max_conn READY inc [].
Proof.
  intros (p0 & rs & E & Ei). unfold DBPool_ctor in E. destruct (_ || _) eqn:Ev; [done|]. bool_to_prop. injection E as <-.
  split; [lia|]. unfold manager_init in Ei. cbn [m_minConnector m_freeConnInfos] in Ei.
  destruct (expand_loop _ _ _ _ _) as [[free ok] m] eqn:El. destruct ok; [|done]. apply expand_loop_flag in El.
  rewrite Z2Nat.id in El by lia. injection Ei as <-. cbn in El. by subst free.
Qed.

Lemma ready_exclusive min_conn max_conn inc p n :
  ready_pool min_conn max_conn inc p -> 0 <= inc -> exclusive p (repeat Q_new n).
Proof.
  intros [Hr ->]%ready_pool_eq Hinc.
  assert (held (repeat Q_new n) = []) as Hh by (induction n; done).
  split; cbn [m_freeConnInfos m_connectorCount m_maxConnector m_increaseNum]; rewrite ?Hh, ?app_nil_r; [| |lia|done].
  - apply NoDup_seqZ.
  - apply Forall_forall. intros i Hi. apply elem_of_seqZ in Hi. lia.
Qed.


(** * Results *)

(** C16. No connection is lent to two queries at once, whatever the interleaving, also when the
    program closes the pool while queries run, as long as every connection that is tried can be opened
    ([DbFaults.failed_growth_lends_twice] is what happens otherwise): at every moment the
    connections lent out are distinct, open and none of them is free, and a query that
    borrows never fails the range check of the pool.  A query that timed out counts as ended. *)
Theorem queries_exclusive min_conn max_conn inc p0 n p qs :
  ready_pool min_conn max_conn inc p0 -> 0 <= inc -> rtc (pool_step succeed) (p0, repeat Q_new n) (p, qs) ->
  NoDup (held qs) /\ Forall (fun i => 0 <= i < m_connectorCount p /\ ~ i ∈ m_freeConnInfos p) (held qs) /\
  m_connectorCount p <= m_maxConnector p /\
  (Q_borrow ∈ qs -> exists q p', query_borrow p = Some (q, p')).
Proof.
  intros Hr Hinc Hs. pose proof (exclusive_steps _ _ Hs (ready_exclusive _ _ _ _ n Hr Hinc)) as H. cbn [fst snd] in H.
  pose proof (ex_distinct _ _ H) as Hd. apply NoDup_app in Hd as (_ & Hd & Hn). split_and!.
  - done.
  - apply Forall_forall. intros i Hi. split; [|intros Hf; by apply (Hd i)].
    pose proof (ex_range _ _ H) as Hrg. rewrite Forall_forall in Hrg. apply Hrg, elem_of_app. by right.
  - apply (ex_count _ _ H).
  - intros (l1 & l2 & ->)%list_elem_of_split. destruct (exclusive_borrow p l1 l2 H) as (q & p' & E & _). by exists q, p'.
Qed.

Definition ex_ready : DBPool := mk_db (seqZ 0 1) [] 1 0 1 2 READY 1 [].

(** Two queries on a pool with one connection, which grows. *)
Definition ex_both : DBPool := mk_db [] [] 2 2 1 2 FULL 1 [].

Lemma ex_both_reached : rtc (pool_step succeed) (ex_ready, [Q_new; Q_new]) (ex_both, [Q_run 0; Q_run 1]).
Proof.
  eapply rtc_l; [apply ps_query, (qs_start _ _ [] [Q_new])|].
  eapply rtc_l; [apply ps_query, (qs_start _ _ [Q_borrow] [])|].
  eapply rtc_l; [apply ps_query; eapply (qs_borrow _ _ [] [Q_borrow]); reflexivity|].
  eapply rtc_l; [apply ps_query; eapply (qs_borrow _ _ [Q_run 0] []); reflexivity|].
  eapply rtc_l; [apply ps_query, (qs_busy _ _ [Q_run 0] [] [true]); by repeat constructor|].
  eapply rtc_l; [apply ps_query; eapply (qs_borrow _ _ [Q_run 0] []); reflexivity|].
  apply rtc_refl.
Qed.

Lemma queries_exclusive_witness :
  ready_pool 1 2 1 ex_ready /\ rtc (pool_step succeed) (ex_ready, repeat Q_new 2) (ex_both, [Q_run 0; Q_run 1]) /\ NoDup [0; 1].
Proof.
  assert (Hr : ready_pool 1 2 1 ex_ready) by (exists (mk_db [] [] 0 0 1 2 INIT 1 []), [true]; split; reflexivity).
  split; [exact Hr|]. split; [exact ex_both_reached|].
  exact (proj1 (queries_exclusive 1 2 1 ex_ready 2 ex_both [Q_run 0; Q_run 1] Hr ltac:(lia) ex_both_reached)).
Defined.
