(* ===== verification/DbLive.v ===== *)
(** * Every query on a pool ends

    The queries of [DbQuery] on a pool that is not closed: at every moment one of
    those that are left can go on, and the number of steps is bounded, whatever the
    interleaving.  A step either is one of the few each query does once (or grows the
    pool), or brings a query closer to waiting for a connection to come back. *)

From stdpp Require Import relations.
From S2P Require Import Prelude DbPool DbQuery.

(** The numbers of the queries that wait. *)
Fixpoint waiting (k : nat) (qs : list query) : list nat :=
  match qs with
  | [] => []
  | Q_wait :: qs => k :: waiting (S k) qs
  | _ :: qs => waiting (S k) qs
  end.

Definition waiting1 (k : nat) (q : query) : list nat := match q with Q_wait => [k] | _ => [] end.

Lemma waiting_mid l1 q l2 : forall k,
  waiting k (l1 ++ q :: l2) ≡ₚ waiting1 (k + length l1) q ++ waiting k l1 ++ waiting (k + S (length l1)) l2.
Proof.
  induction l1 as [|x l1 IH]; intros k; cbn [app length waiting].
  - rewrite Nat.add_0_r, Nat.add_1_r. by destruct q.
  - replace (k + S (S (length l1)))%nat with (S k + S (length l1))%nat by lia.
    replace (k + S (length l1))%nat with (S k + length l1)%nat by lia.
    destruct x; rewrite IH; try done. cbn [app]. by apply Permutation_cons_app.
Qed.

Lemma waiting_wait qs : forall k i, i ∈ waiting k qs -> (k <= i)%nat /\ qs !! (i - k)%nat = Some Q_wait.
Proof.
  induction qs as [|q qs IH]; intros k i Hi; [by apply elem_of_nil in Hi|].
  assert (Hn : i ∈ waiting (S k) qs -> (k <= i)%nat /\ (q :: qs) !! (i - k)%nat = Some Q_wait).
  { intros [Hle Hl]%IH. split; [lia|]. by replace (i - k)%nat with (S (i - S k)) by lia. }
  destruct q; cbn [waiting] in Hi; try by apply Hn.
  apply elem_of_cons in Hi as [-> | Hi]; [|by apply Hn]. split; [lia|]. by rewrite Nat.sub_diag.
Qed.

(** Sums over the queries. *)
Definition total (w : query -> Z) (qs : list query) : Z := foldr (fun q acc => w q + acc) 0 qs.

Lemma total_mid w l1 q l2 : total w (l1 ++ q :: l2) = w q + (total w l1 + total w l2).
Proof. unfold total. induction l1 as [|x l1 IH]; cbn [app foldr]; [lia|]. rewrite IH. lia. Qed.

(** What a query does once. *)
Definition todo (q : query) : Z :=
  match q with Q_new => 3 | Q_borrow | Q_busy | Q_wait => 2 | Q_run _ => 1 | Q_done _ => 0 end.
Definition major (p : DBPool) (qs : list query) : Z := total todo qs + (m_maxConnector p - m_connectorCount p).

(** How far the queries are from waiting, when no connection is free, and from
    borrowing, when one is. *)
Definition far_full (q : query) : Z := match q with Q_borrow => 2 | Q_busy => 1 | _ => 0 end.
Definition far_ready (q : query) : Z := match q with Q_busy => 2 | _ => 0 end.
Definition rank (p : DBPool) (qs : list query) : Z :=
  match m_state p with
  | FULL => 3 * zlen (scheduled p) + total far_full qs
  | _ => zlen (scheduled p) + total far_ready qs
  end.

Definition budget (p : DBPool) (qs : list query) : Z := major p qs * (3 * zlen qs + 1) + rank p qs.

(** A query that goes on by itself. *)
Definition active (q : query) : bool := match q with Q_borrow | Q_busy | Q_run _ => true | _ => false end.

Record live (p : DBPool) (qs : list query) : Prop := {
  lv_db : db_inv (held qs) p;
  lv_pos : 0 < m_connectorCount p;
  lv_inc : 0 < m_increaseNum p;
  lv_wait : m_waitConnCb p ++ scheduled p ≡ₚ waiting 0 qs;
  lv_active : m_waitConnCb p <> [] -> existsb active qs = true \/ scheduled p <> [];
}.

Lemma live_state p qs : live p qs -> m_state p = READY \/ m_state p = FULL.
Proof.
  intros H. pose proof (di_state _ _ (lv_db _ _ H)) as Hs. pose proof (lv_pos _ _ H). unfold state_ok in Hs.
  destruct (m_state p); try done; [lia|by left|by right].
Qed.

Lemma live_running p qs : live p qs -> query_start p = Q_borrow.
Proof. intros H. unfold query_start, checkRunState. by destruct (live_state _ _ H) as [-> | ->]. Qed.

(** *** The bounds of the measure *)

Lemma waiting_total qs : forall k, 3 * zlen (waiting k qs) + total far_full qs <= 3 * zlen qs.
Proof.
  induction qs as [|q qs IH]; intros k; [done|]. specialize (IH (S k)). unfold total in *.
  destruct q; cbn [waiting foldr far_full]; rewrite ?zlen_cons in *; lia.
Qed.
Lemma waiting_total_ready qs : forall k, zlen (waiting k qs) + total far_ready qs <= 3 * zlen qs.
Proof.
  induction qs as [|q qs IH]; intros k; [done|]. specialize (IH (S k)). unfold total in *.
  destruct q; cbn [waiting foldr far_ready]; rewrite ?zlen_cons in *; lia.
Qed.

Lemma total_nonneg w qs : (forall q, 0 <= w q) -> 0 <= total w qs.
Proof. intros Hw. induction qs as [|q qs IH]; [done|]. unfold total in *. cbn. specialize (Hw q). lia. Qed.

Lemma rank_bounds p qs : live p qs -> 0 <= rank p qs <= 3 * zlen qs.
Proof.
  intros H. assert (Hl : zlen (m_waitConnCb p) + zlen (scheduled p) = zlen (waiting 0 qs)).
  { rewrite <- zlen_app. unfold zlen. by rewrite (lv_wait _ _ H). }
  pose proof (waiting_total qs 0). pose proof (waiting_total_ready qs 0).
  pose proof (zlen_nonneg (m_waitConnCb p)). pose proof (zlen_nonneg (scheduled p)).
  assert (0 <= total far_full qs) by (apply total_nonneg; by intros []).
  assert (0 <= total far_ready qs) by (apply total_nonneg; by intros []).
  unfold rank. destruct (m_state p); lia.
Qed.

Lemma major_nonneg p qs : live p qs -> 0 <= major p qs.
Proof.
  intros H. pose proof (di_count _ _ (lv_db _ _ H)). unfold major.
  assert (0 <= total todo qs) by (apply total_nonneg; by intros []). lia.
Qed.

(** A step that is major, or moves one query, costs budget. *)
Lemma budget_less p qs p' qs' :
  live p qs -> live p' qs' -> zlen qs' = zlen qs ->
  major p' qs' < major p qs \/ major p' qs' = major p qs /\ rank p' qs' < rank p qs ->
  budget p' qs' < budget p qs.
Proof.
  intros H H' E Hd. pose proof (rank_bounds _ _ H). pose proof (rank_bounds _ _ H'). unfold budget. rewrite E in *.
  destruct Hd as [Hd|[-> Hd]]; [|lia]. nia.
Qed.

(** *** The steps *)

Lemma held_split l1 q l2 : held (l1 ++ q :: l2) = held l1 ++ held1 q ++ held l2.
Proof. unfold held. by rewrite bind_app, bind_cons. Qed.

Lemma db_inv_perm lent lent' p : db_inv lent p -> lent' ≡ₚ lent -> db_inv lent' p.
Proof.
  intros [H1 H2 H3 H4 H5] E. split; [by rewrite E|by rewrite H2; unfold zlen; rewrite E|done|done|done].
Qed.

Lemma active_mid l1 q l2 : existsb active (l1 ++ q :: l2) = active q || existsb active (l1 ++ l2).
Proof. rewrite !existsb_app. cbn [existsb]. by destruct (active q), (existsb active l1). Qed.

(** A query that goes on keeps some query going. *)
Lemma active_now l1 q l2 : active q = true -> existsb active (l1 ++ q :: l2) = true.
Proof. intros H. by rewrite active_mid, H. Qed.

(** Replacing a query by one that waits neither before nor after. *)
Lemma waiting_swap l1 q q' l2 k :
  q <> Q_wait -> q' <> Q_wait -> waiting k (l1 ++ q' :: l2) ≡ₚ waiting k (l1 ++ q :: l2).
Proof. intros H H'. rewrite !waiting_mid. by destruct q, q'. Qed.

(** A step from one configuration to a live one that costs budget. *)
Definition pays (p : DBPool) (qs : list query) (p' : DBPool) (qs' : list query) : Prop :=
  live p' qs' /\ (major p' qs' < major p qs \/ major p' qs' = major p qs /\ rank p' qs' < rank p qs).

Lemma start_pays p l1 l2 : live p (l1 ++ Q_new :: l2) -> pays p (l1 ++ Q_new :: l2) p (l1 ++ query_start p :: l2).
Proof.
  intros H. rewrite (live_running _ _ H). destruct H as [H1 H2 H3 H4 H5]. split; [split|].
  - rewrite held_split in *. done.
  - done.
  - done.
  - rewrite H4. by apply waiting_swap.
  - intros _. left. by apply active_now.
  - left. unfold major. rewrite !total_mid. cbn [todo]. lia.
Qed.

Lemma resume_pays p l1 l2 s1 s2 :
  live p (l1 ++ Q_wait :: l2) -> scheduled p = s1 ++ length l1 :: s2 ->
  pays p (l1 ++ Q_wait :: l2) (take_callback s1 s2 p) (l1 ++ query_start p :: l2).
Proof.
  intros H Es. pose proof (live_state _ _ H) as Hst. rewrite (live_running _ _ H). destruct H as [H1 H2 H3 H4 H5]. split; [split|].
  - apply inv_waiters. rewrite held_split in *. done.
  - done.
  - done.
  - cbn [take_callback set_waiters m_waitConnCb scheduled]. rewrite Es, !waiting_mid in H4. rewrite waiting_mid.
    cbn [waiting1 app Nat.add] in *. apply (Permutation_cons_inv (a := length l1)). rewrite <- H4.
    rewrite !app_assoc. apply Permutation_middle.
  - intros _. left. by apply active_now.
  - right. unfold major, rank. cbn [take_callback set_waiters m_state scheduled m_maxConnector m_connectorCount].
    rewrite Es, !total_mid, !zlen_app, zlen_cons. cbn [todo far_full far_ready].
    split; [lia|]. destruct Hst as [-> | ->]; lia.
Qed.

Lemma borrow_pays p l1 l2 q p' :
  live p (l1 ++ Q_borrow :: l2) -> query_borrow p = Some (q, p') -> pays p (l1 ++ Q_borrow :: l2) p' (l1 ++ q :: l2).
Proof.
  intros H E. pose proof (live_state _ _ H) as Hst. destruct H as [H1 H2 H3 H4 H5].
  destruct (borrow_inv _ _ H1) as (idx & p2 & Eb & Hi & Hcase & Hready). unfold query_borrow in E. rewrite Eb in E.
  injection E as Eq <-. destruct Hcase as [[-> ->]|[Hr _]].
  - cbn in Eq, Hi. subst q. destruct Hst as [Hst|Hst]; [by destruct (Hready Hst)|]. split; [split|].
    + rewrite held_split in *. done.
    + done.
    + done.
    + rewrite H4. by apply waiting_swap.
    + intros _. left. by apply active_now.
    + right. unfold major, rank. rewrite !total_mid, Hst. cbn [todo far_full]. lia.
  - destruct (Z.leb_spec 0 idx); [|lia]. destruct (Z.ltb_spec idx 0); [lia|]. subst q.
    assert (Hsame : m_connectorCount p2 = m_connectorCount p /\ m_maxConnector p2 = m_maxConnector p /\
              m_increaseNum p2 = m_increaseNum p /\ m_waitConnCb p2 = m_waitConnCb p /\ scheduled p2 = scheduled p).
    { unfold borrowOneConn in Eb. repeat case_match; simplify_eq; done. }
    destruct Hsame as (E1 & E2 & E3 & E4 & E5). split; [split|].
    + eapply db_inv_perm; [exact Hi|]. rewrite !held_split. cbn [held1 app]. by rewrite Permutation_middle.
    + by rewrite E1.
    + by rewrite E3.
    + rewrite E4, E5, H4. by apply waiting_swap.
    + intros _. left. by apply active_now.
    + left. unfold major. rewrite E1, E2, !total_mid. cbn [todo]. lia.
Qed.

(** Growing a pool that can grow opens a connection and keeps the rest. *)
Lemma expand_grows p :
  m_connectorCount p < m_maxConnector p -> 0 < m_increaseNum p ->
  let p' := (expand [] p).2 in
  m_connectorCount p < m_connectorCount p' /\ m_maxConnector p' = m_maxConnector p /\
  m_increaseNum p' = m_increaseNum p /\ m_waitConnCb p' = m_waitConnCb p /\ scheduled p' = scheduled p.
Proof.
  intros Hlt Hinc. unfold expand. rewrite (proj2 (Z.eqb_neq (m_maxConnector p) _)) by lia. rewrite expand_loop_ok.
  cbn. split; [|done]. destruct (Z.ltb_spec (m_increaseNum p) (m_maxConnector p - m_connectorCount p)); lia.
Qed.

Lemma busy_pays p l1 l2 :
  live p (l1 ++ Q_busy :: l2) ->
  pays p (l1 ++ Q_busy :: l2) (query_busy [] (length l1) p).2 (l1 ++ (query_busy [] (length l1) p).1 :: l2).
Proof.
  intros H. pose proof (live_state _ _ H) as Hst. destruct H as [H1 H2 H3 H4 H5]. unfold query_busy.
  destruct (Z.ltb_spec (m_connectorCount p) (m_maxConnector p)) as [Hlt|Hge]; cbn [fst snd].
  - destruct (expand_grows p Hlt H3) as (E1 & E2 & E3 & E4 & E5).
    destruct (expand [] p) as [rc p'] eqn:Ee. cbn [snd] in *. destruct (expand_inv _ _ _ _ H1 Ee) as [_ Hi]. split; [split|].
    + rewrite held_split in *. done.
    + lia.
    + lia.
    + rewrite E4, E5, H4. by apply waiting_swap.
    + intros _. left. by apply active_now.
    + left. unfold major. rewrite E2, !total_mid. cbn [todo]. lia.
  - unfold registeConnCb, checkRunState. rewrite held_split in H1. cbn [held1 app] in H1.
    assert (Hw : waiting 0 (l1 ++ Q_wait :: l2) ≡ₚ length l1 :: waiting 0 (l1 ++ Q_busy :: l2)) by by rewrite !waiting_mid.
    pose proof (db_lengths _ _ H1) as Hl. pose proof (di_state _ _ H1) as Hso. unfold state_ok in Hso.
    destruct Hst as [Hst|Hst]; rewrite Hst in *; cbn [negb]; case_decide; try done; cbn [snd]; (split; [split|]).
    all: cbn [set_waiters m_connectorCount m_increaseNum m_waitConnCb scheduled].
    + apply inv_waiters. by rewrite held_split.
    + done.
    + done.
    + rewrite Hw, app_assoc, H4. by rewrite Permutation_app_comm.
    + intros _. right. by destruct (scheduled p).
    + right. unfold major, rank. cbn [set_waiters m_state scheduled m_maxConnector m_connectorCount].
      rewrite Hst, !total_mid, zlen_app. cbn [todo far_ready]. change (zlen [length l1]) with 1. lia.
    + apply inv_waiters. by rewrite held_split.
    + done.
    + done.
    + rewrite Hw, <- H4, <- app_assoc. cbn [app]. by rewrite Permutation_middle.
    + intros _. left. destruct Hso as [Hf Hc]. rewrite Hf in Hl. change (zlen []) with 0 in Hl.
      assert (Hh : held (l1 ++ Q_wait :: l2) <> []).
      { rewrite held_split. cbn [held1 app]. intros E. rewrite E in Hl. change (zlen []) with 0 in Hl. lia. }
      unfold held in Hh. clear -Hh. induction (l1 ++ Q_wait :: l2) as [|q qs IH]; [done|].
      cbn [existsb]. apply orb_true_iff. destruct q; try (by left); right; by apply IH.
    + right. unfold major, rank. cbn [set_waiters m_state scheduled m_maxConnector m_connectorCount].
      rewrite Hst, !total_mid. cbn [todo far_full]. lia.
Qed.

(** After a connection came back, no waiter is left alone. *)
Lemma tickle_schedules p :
  m_freeConnInfos p <> [] -> m_waitConnCb (tickle p) <> [] -> scheduled (tickle p) <> [].
Proof.
  unfold tickle. intros Hf. destruct (m_waitConnCb p) as [|w ws] eqn:Ew; [by rewrite Ew|]. cbn [set_waiters m_waitConnCb scheduled].
  intros _. destruct (m_freeConnInfos p); [done|].
  case_decide; cbn [length Nat.min take]; intros E; by apply app_nil in E as [_ ?].
Qed.

Lemma tickle_callbacks p : m_waitConnCb (tickle p) ++ scheduled (tickle p) ≡ₚ m_waitConnCb p ++ scheduled p.
Proof.
  unfold tickle. destruct (m_waitConnCb p) as [|w ws] eqn:Ew; [by rewrite Ew|]. cbn [set_waiters m_waitConnCb scheduled].
  set (n := if decide _ then _ else _). clearbody n.
  rewrite (Permutation_app_comm (scheduled p)), app_assoc, (Permutation_app_comm (drop _ _)), take_drop. done.
Qed.

Lemma tickle_counts p :
  m_connectorCount (tickle p) = m_connectorCount p /\ m_maxConnector (tickle p) = m_maxConnector p /\
  m_increaseNum (tickle p) = m_increaseNum p.
Proof. unfold tickle. by destruct (m_waitConnCb p). Qed.

Lemma finish_pays p l1 l2 idx st :
  live p (l1 ++ Q_run idx :: l2) -> pays p (l1 ++ Q_run idx :: l2) (query_finish idx p) (l1 ++ Q_done st :: l2).
Proof.
  intros H. pose proof (live_state _ _ H) as Hst. destruct H as [H1 H2 H3 H4 H5]. rewrite held_split in H1. cbn [held1 app] in H1.
  destruct (db_in_range _ p idx H1) as [Hi0 Hi1]; [right; apply elem_of_app; right; by left|].
  pose proof (di_count _ _ H1) as Hc.
  unfold query_finish, ConnectWrapper_dtor. destruct (Z.ltb_spec idx 0); [lia|].
  destruct (returnConn idx false true p) as [rc p'] eqn:Er. cbn [snd]. destruct (return_inv _ _ _ _ _ _ _ H1 Er) as [-> Hi].
  unfold returnConn, checkRunState in Er.
  destruct (Z.ltb_spec idx 0); [lia|]. destruct (Z.leb_spec (m_maxConnector p) idx); [lia|].
  assert (Er' : p' = tickle (set_conns (m_freeConnInfos p ++ [idx]) (m_connectorCount p) (m_busyConnCount p - 1) READY p)).
  { destruct Hst as [Hst|Hst]; rewrite Hst in Er; cbn [negb orb andb] in Er; case_decide; try done; by injection Er as <-. }
  clear Er. subst p'. match goal with |- pays _ _ (tickle ?x) _ => set (p1 := x) in * end.
  destruct (tickle_counts p1) as (E1 & E2 & E3). split; [split|].
  - rewrite held_split. done.
  - by rewrite E1.
  - by rewrite E3.
  - rewrite tickle_callbacks. unfold p1. cbn [set_conns m_waitConnCb scheduled]. rewrite H4. by apply waiting_swap.
  - intros Hw. right. apply tickle_schedules; [|done]. unfold p1. cbn. intros E. by apply app_nil in E as [_ ?].
  - left. unfold major. rewrite E1, E2, !total_mid. unfold p1. cbn [todo set_conns m_connectorCount m_maxConnector]. lia.
Qed.

Lemma step_pays p qs p' qs' : query_step succeed (p, qs) (p', qs') -> live p qs -> pays p qs p' qs'.
Proof.
  intros Hs H. inversion Hs; subst.
  - by apply start_pays.
  - by apply borrow_pays.
  - rewrite !query_busy_succeed by done. by apply busy_pays.
  - by apply resume_pays.
  - by apply finish_pays.
Qed.

Lemma step_length p qs p' qs' : query_step succeed (p, qs) (p', qs') -> zlen qs' = zlen qs.
Proof. intros Hs. inversion Hs; subst; by rewrite !zlen_app, !zlen_cons. Qed.

Lemma steps_budget k : forall p qs p' qs',
  nsteps (query_step succeed) k (p, qs) (p', qs') -> live p qs -> live p' qs' /\ Z.of_nat k + budget p' qs' <= budget p qs.
Proof.
  induction k as [|k IH]; intros p qs p' qs' Hs H; [inversion Hs; subst; by split|].
  apply nsteps_inv_r in Hs as ([p1 qs1] & Hs & Hstep). destruct (IH _ _ _ _ Hs H) as [H1 Hb].
  destruct (step_pays _ _ _ _ Hstep H1) as [H2 Hd]. split; [done|].
  pose proof (budget_less _ _ _ _ H1 H2 (step_length _ _ _ _ Hstep) Hd). lia.
Qed.

(** *** Progress *)

Definition is_done (q : query) : bool := match q with Q_done _ => true | _ => false end.

Lemma active_steps p l1 q l2 : live p (l1 ++ q :: l2) -> active q = true -> exists c, query_step succeed (p, l1 ++ q :: l2) c.
Proof.
  intros H Ha. destruct q; try done.
  - destruct (borrow_inv _ _ (lv_db _ _ H)) as (idx & p' & E & _). eexists. apply qs_borrow. unfold query_borrow. by rewrite E.
  - eexists. by apply (qs_busy _ _ _ _ []).
  - eexists. by apply (qs_finish _ _ _ _ _ Mysql.IO_SUCCESS).
Qed.

Lemma scheduled_steps p qs i s : live p qs -> scheduled p = i :: s -> exists c, query_step succeed (p, qs) c.
Proof.
  intros H Es. assert (Hi : i ∈ waiting 0 qs).
  { rewrite <- (lv_wait _ _ H), Es. apply elem_of_app. right. by left. }
  apply waiting_wait in Hi as [_ Hi]. rewrite Nat.sub_0_r in Hi.
  apply list_elem_of_split_length in Hi as (l1 & l2 & -> & ->). eexists. apply (qs_resume _ _ _ _ [] s). by rewrite Es.
Qed.

Lemma not_all_done qs : forallb is_done qs = false -> exists l1 q l2, qs = l1 ++ q :: l2 /\ is_done q = false.
Proof.
  induction qs as [|q qs IH]; [done|]. cbn. destruct (is_done q) eqn:E; [|by exists [], q, qs].
  intros (l1 & q' & l2 & -> & H)%IH. by exists (q :: l1), q', l2.
Qed.

Lemma live_progress p qs : live p qs -> forallb is_done qs = false -> exists c, query_step succeed (p, qs) c.
Proof.
  intros H Hd. destruct (existsb active qs) eqn:Ea.
  { apply existsb_exists in Ea as (q & Hq & Ha). apply list_elem_of_In, list_elem_of_split in Hq as (l1 & l2 & ->).
    by apply active_steps. }
  destruct (scheduled p) as [|i s] eqn:Es; [|by eapply scheduled_steps].
  assert (Hw : m_waitConnCb p = []).
  { destruct (m_waitConnCb p) eqn:Ew; [done|]. destruct (lv_active _ _ H) as [?|?]; [by rewrite Ew|congruence|done]. }
  pose proof (lv_wait _ _ H) as Hwait. rewrite Hw, Es in Hwait. apply Permutation_nil_l in Hwait.
  destruct (not_all_done _ Hd) as (l1 & q & l2 & -> & Hnd).
  rewrite active_mid in Ea. apply orb_false_iff in Ea as [Ea _].
  destruct q; try done; [eexists; apply qs_start|].
  assert (Hin : (length l1) ∈ waiting 0 (l1 ++ Q_wait :: l2)) by (rewrite waiting_mid; by left).
  rewrite <- Hwait in Hin. by apply elem_of_nil in Hin.
Qed.

(** The queries that have not started. *)
Lemma ready_live min_conn max_conn inc p n :
  ready_pool min_conn max_conn inc p -> 0 < min_conn -> 0 < inc ->
  live p (repeat Q_new n) /\ budget p (repeat Q_new n) = (3 * Z.of_nat n + (max_conn - min_conn)) * (3 * Z.of_nat n + 1).
Proof.
  intros [Hr ->]%ready_pool_eq Hmin Hinc.
  assert (Hh : held (repeat Q_new n) = []) by (clear; induction n; done).
  assert (Hw : forall k, waiting k (repeat Q_new n) = []) by (clear; induction n as [|n IH]; intros k; [done|apply IH]).
  assert (Ht : forall w, total w (repeat Q_new n) = w Q_new * Z.of_nat n).
  { clear. intros w. unfold total. induction n as [|n IH]; cbn [repeat foldr]; [lia|]. rewrite IH. lia. }
  split.
  - split; cbn [m_connectorCount m_increaseNum m_waitConnCb scheduled]; rewrite ?Hh, ?Hw; [|lia|lia|done|done].
    split; cbn; [by rewrite app_nil_r|done|lia|lia|]. unfold state_ok. cbn. rewrite seqZ_cons by lia. done.
  - unfold budget, major, rank. cbn [m_state m_connectorCount m_maxConnector scheduled]. rewrite !Ht.
    cbn [todo far_ready]. unfold zlen. rewrite repeat_length. cbn [length]. lia.
Qed.

(** * Results *)

(** C10. Every query on a pool comes to an end: with [n] queries on a pool of at least one
    connection that is not closed, that can grow by at least one connection at a time and whose new connections can
    all be opened, no interleaving has more than [(3 n + max_conn - min_conn) (3 n + 1)]
    steps, so no query is retried for ever; and when no step is left every query is done,
    every connection is free again and no callback is left behind.  No wake-up is lost: a
    query that registers while a connection comes back is resumed. *)
Theorem queries_complete min_conn max_conn inc p0 n k p qs :
  ready_pool min_conn max_conn inc p0 -> 0 < min_conn -> 0 < inc ->
  nsteps (query_step succeed) k (p0, repeat Q_new n) (p, qs) ->
  Z.of_nat k <= (3 * Z.of_nat n + (max_conn - min_conn)) * (3 * Z.of_nat n + 1) /\
  ((exists c, query_step succeed (p, qs) c) \/
   forallb is_done qs = true /\ zlen (m_freeConnInfos p) = m_connectorCount p /\ m_busyConnCount p = 0 /\
   m_waitConnCb p = [] /\ scheduled p = []).
Proof.
  intros Hr Hmin Hinc Hs. destruct (ready_live _ _ _ _ n Hr Hmin Hinc) as [H0 Hb].
  destruct (steps_budget _ _ _ _ _ Hs H0) as [H Hk]. split.
  - pose proof (rank_bounds _ _ H). pose proof (major_nonneg _ _ H). pose proof (zlen_nonneg qs).
    rewrite <- Hb. assert (0 <= budget p qs) by (unfold budget; nia). lia.
  - destruct (forallb is_done qs) eqn:Ed; [right|left; by apply live_progress].
    assert (Hh : held qs = [] /\ forall i, waiting i qs = []).
    { clear -Ed. induction qs as [|q qs IH]; [done|]. cbn in Ed. apply andb_true_iff in Ed as [Eq Ed].
      destruct (IH Ed) as [IH1 IH2]. destruct q; try done. split; [done|]. intros i. cbn. apply IH2. }
    destruct Hh as [Hh Hw]. pose proof (db_lengths _ _ (lv_db _ _ H)) as Hl. pose proof (di_busy _ _ (lv_db _ _ H)) as Hbz.
    rewrite Hh in Hl, Hbz. pose proof (lv_wait _ _ H) as Hwt. rewrite Hw in Hwt. apply Permutation_nil_r, app_nil in Hwt as [Hw1 Hw2].
    split_and!; [done| |done|done|done]. rewrite zlen_nil in Hl. lia.
Qed.

(** One connection, two queries: the second waits for the first. *)
Definition ex_one : DBPool := mk_db [0] [] 1 0 1 1 READY 1 [].

Lemma queries_complete_witness :
  ready_pool 1 1 1 ex_one /\ exists k p, nsteps (query_step succeed) k (ex_one, repeat Q_new 2) (p, [Q_run 0; Q_wait]) /\ Z.of_nat k <= 42.
Proof.
  assert (Hr : ready_pool 1 1 1 ex_one) by (exists (mk_db [] [] 0 0 1 1 INIT 1 []), []; split; reflexivity).
  split; [exact Hr|]. eexists _, _.
  match goal with |- ?R /\ _ => assert (Hs : R) end.
  { eapply nsteps_l; [apply (qs_start _ _ [] [Q_new])|].
    eapply nsteps_l; [apply (qs_start _ _ [Q_borrow] [])|].
    eapply nsteps_l; [eapply (qs_borrow _ _ [] [Q_borrow]); reflexivity|].
    eapply nsteps_l; [eapply (qs_borrow _ _ [Q_run 0] []); reflexivity|].
    eapply nsteps_l; [by apply (qs_busy _ _ [Q_run 0] [] [])|]. apply nsteps_O. }
  split; [exact Hs|]. exact (proj1 (queries_complete 1 1 1 ex_one 2 _ _ _ Hr ltac:(lia) ltac:(lia) Hs)).
Defined.
