(* ===== verification/DbFaults.v ===== *)
(** * What a query does on its connection, and what goes wrong

    The part of [MySQLPoolManager::executeQuery] ([sylar/DBPool/mysql.cc]) between
    borrowing a connection and giving it back, on the calls of [Mysql]; and the
    cases in which the queries of [DbQuery] do not behave as [DbLive] shows: a
    pool that is closed, that fails to grow, that is initialised twice. *)

From stdpp Require Import relations.
From S2P Require Import Prelude TimeLimit FdContext Mysql DbPool DbQuery.

Definition ended_bind {A B} (f : A -> ended B) (m : ended A) : ended B :=
  match m with Ended a => f a | Awaits e => Awaits e | Calls => Calls end.

(** A query that timed out is under way. *)
Lemma query_loop_pending answers : forall status waits pending,
  query_loop status answers waits = Ended (IO_TIMEOUT, pending) -> pending = true.
Proof.
  induction answers as [|a answers IH]; intros status [|w waits] pending; cbn [query_loop];
    destruct (status =? 0); try done; case_bool_decide; try done; try congruence.
  destruct (truthy (a_ret a)); [done|]. apply IH.
Qed.

Section PoolRun.
Context `{RS : ResultSet}.

(** What the library answers to a query and to the fetching of its result. *)
Record exchange := MkExchange {
  x_answers : list answer;
  x_waits : list LimitState;
  x_fetch : list Z;
  x_fetch_waits : list LimitState;
  x_body : option rset;
  x_fields : Z;
}.

(** A query and its [co_fetchAll]: the response, and whether the query was still under
    way when [executeQuery] of the connection returned. *)
Definition run_exchange (x : exchange) : ended (MySQLResp * bool) :=
  ended_bind (fun '(st, pending) =>
    ended_bind (fun '(_, resp) => Ended (resp, pending))
      (co_fetchAll (x_fetch x) (x_fetch_waits x) (x_body x) (x_fields x) (newResp true st)))
    (executeQuery (x_answers x) (x_waits x)).

(** The query, then ROLLBACK: the response of the query, and whether ROLLBACK was sent
    while the query was under way. *)
Definition pool_run (query rollback : exchange) : ended (MySQLResp * bool) :=
  ended_bind (fun '(resp, pending) => ended_bind (fun _ => Ended (resp, pending)) (run_exchange rollback))
    (run_exchange query).

(** After a time-out the connection is used as if the query were over: ROLLBACK is
    sent while the query is under way (the library forbids a call then), and the
    connection then goes back to the pool as a usable one. *)
Theorem timed_out_query_reused query rollback pending rb :
  executeQuery (x_answers query) (x_waits query) = Ended (IO_TIMEOUT, pending) -> run_exchange rollback = Ended rb ->
  pool_run query rollback = Ended (newResp true IO_TIMEOUT, true).
Proof.
  intros E Er. assert (pending = true) as ->.
  { destruct (x_answers query) as [|a l]; [done|]. cbn [executeQuery] in E. repeat case_match; simplify_eq.
    by eapply query_loop_pending. }
  unfold pool_run, run_exchange at 2. rewrite E. cbn. by rewrite Er.
Qed.
End PoolRun.

Definition ex_exchange : exchange (RS := table_set) := MkExchange (RS := table_set) [Ans 0 0] [] [0] [] None 0.

Lemma timed_out_query_reused_witness :
  pool_run (MkExchange [Ans 1 0] [TIMEOUT] [0] [] None 0) ex_exchange = Ended (newResp true IO_TIMEOUT, true).
Proof. by eapply (timed_out_query_reused (MkExchange [Ans 1 0] [TIMEOUT] [0] [] None 0) ex_exchange). Defined.

(** ** A query that finds the pool closed when it registers *)

(** A waiting query whose callback nobody holds. *)
Record orphan (i : nat) (p : DBPool) (qs : list query) : Prop := {
  or_wait : qs !! i = Some Q_wait;
  or_lost : i ∉ m_waitConnCb p ++ scheduled p;
}.

Lemma tickle_in p i : i ∈ m_waitConnCb (tickle p) ++ scheduled (tickle p) -> i ∈ m_waitConnCb p ++ scheduled p.
Proof.
  unfold tickle. destruct (m_waitConnCb p) as [|w ws] eqn:Ew; [by rewrite Ew|]. cbn [set_waiters m_waitConnCb scheduled].
  set (n := if decide _ then _ else _). clearbody n.
  rewrite !elem_of_app. intros [Hi|[Hi|Hi]]; [left|by right|left].
  - rewrite <- (take_drop n (w :: ws)). apply elem_of_app. by right.
  - rewrite <- (take_drop n (w :: ws)). apply elem_of_app. by left.
Qed.

Lemma mid_other {A} (l1 : list A) (x y : A) l2 (z : A) i :
  (l1 ++ x :: l2) !! i = Some z -> x <> z -> (l1 ++ y :: l2) !! i = Some z /\ i <> length l1.
Proof.
  intros H Hne. assert (i <> length l1) as Hi.
  { intros ->. rewrite list_lookup_middle in H by done. by injection H. }
  split; [|done]. destruct (decide (i < length l1)%nat).
  - rewrite lookup_app_l in * by done. done.
  - rewrite lookup_app_r in * by lia. destruct (i - length l1)%nat as [|k] eqn:E; [lia|done].
Qed.

Lemma borrow_callbacks p q p' :
  query_borrow p = Some (q, p') -> m_waitConnCb p' = m_waitConnCb p /\ scheduled p' = scheduled p.
Proof. unfold query_borrow, borrowOneConn. intros E. repeat case_match; by simplify_eq. Qed.

Lemma expand_callbacks rs p :
  m_waitConnCb (expand rs p).2 = m_waitConnCb p /\ scheduled (expand rs p).2 = scheduled p.
Proof. unfold expand. destruct (_ =? _); [done|]. destruct (expand_loop _ _ _ _ _) as [[free []] m]; done. Qed.

Lemma busy_callbacks i rs j p :
  i ∈ m_waitConnCb (query_busy rs j p).2 ++ scheduled (query_busy rs j p).2 -> i <> j -> i ∈ m_waitConnCb p ++ scheduled p.
Proof.
  intros H Hne. unfold query_busy in H. destruct (_ <? _); cbn [snd] in H.
  - destruct (expand_callbacks rs p) as [E1 E2]. by rewrite E1, E2 in H.
  - unfold registeConnCb in H. destruct (negb _); [done|]. case_decide; cbn [snd set_waiters m_waitConnCb scheduled] in H;
      rewrite !elem_of_app, ?list_elem_of_singleton in *; tauto.
Qed.

Lemma finish_callbacks i idx p :
  i ∈ m_waitConnCb (query_finish idx p) ++ scheduled (query_finish idx p) -> i ∈ m_waitConnCb p ++ scheduled p.
Proof.
  unfold query_finish, ConnectWrapper_dtor, returnConn. intros H. destruct (_ <? _); [done|]. destruct (_ || _); [done|].
  cbn [andb snd] in H. by apply tickle_in in H.
Qed.

Lemma orphan_step connects i p qs p' qs' : pool_step connects (p, qs) (p', qs') -> orphan i p qs -> orphan i p' qs'.
Proof.
  intros Hs [Hw Hl]. inversion Hs as [c c' Hq|p1 qs1]; subst.
  2:{ split; [done|]. intros Hi. by apply tickle_in in Hi. }
  inversion Hq as [p1 l1 l2|p1 l1 l2 q p2 E|p1 l1 l2 rs Hrs|p1 l1 l2 s1 s2 Es|p1 l1 l2 idx st]; subst.
  - split; [|done]. eapply mid_other; [exact Hw|done].
  - destruct (borrow_callbacks _ _ _ E) as [E1 E2]. split; [|by rewrite E1, E2]. by eapply mid_other.
  - destruct (mid_other _ _ (query_busy rs (length l1) p).1 _ _ _ Hw) as [Hw' Hne]; [done|].
    split; [done|]. intros Hi. by apply Hl, (busy_callbacks i rs (length l1)).
  - assert (i <> length l1) as Hne by (intros ->; apply Hl, elem_of_app; right; rewrite Es; set_solver).
    split.
    + destruct (decide (i < length l1)%nat); [by rewrite lookup_app_l in * by done|].
      rewrite lookup_app_r in * by lia. by destruct (i - length l1)%nat eqn:E; [lia|].
    + cbn [take_callback set_waiters m_waitConnCb scheduled]. intros Hi. apply Hl. rewrite Es, !elem_of_app, elem_of_cons in *. tauto.
  - split; [by eapply mid_other|]. intros Hi. by apply Hl, (finish_callbacks i idx).
Qed.

Lemma orphan_steps connects i c c' : rtc (pool_step connects) c c' -> orphan i c.1 c.2 -> orphan i c'.1 c'.2.
Proof. induction 1 as [|[p1 q1] [p2 q2] c3 H12 _ IH]; [done|]. intros H. eapply IH, orphan_step; done. Qed.

(** A query that got no connection and registers after the program closed the pool is
    never resumed: [registeConnCb] refuses the callback, the awaiter does not look at
    its result, and the coroutine stays suspended whatever happens next. *)
Theorem closed_pool_strands_query connects p l1 l2 c' :
  connects [] ->
  checkRunState p = false -> m_connectorCount p = m_maxConnector p ->
  length l1 ∉ m_waitConnCb p ++ scheduled p ->
  query_step connects (p, l1 ++ Q_busy :: l2) (p, l1 ++ Q_wait :: l2) /\
  (rtc (pool_step connects) (p, l1 ++ Q_wait :: l2) c' -> c'.2 !! length l1 = Some Q_wait).
Proof.
  intros Hc Hrun Hmax Hl. split.
  - pose proof (qs_busy connects p l1 l2 [] Hc) as H. unfold query_busy in H. rewrite Hmax, Z.ltb_irrefl in H. unfold registeConnCb in H.
    by rewrite Hrun in H.
  - intros Hs. assert (Ho : orphan (length l1) p (l1 ++ Q_wait :: l2)) by (split; [by apply list_lookup_middle|done]).
    apply (orphan_steps _ _ _ _ Hs Ho).
Qed.

Lemma closed_pool_strands_query_witness :
  exists p, rtc (pool_step (fun _ => True)) (mk_db [0] [] 1 0 1 1 READY 1 [], [Q_new; Q_new]) (p, [Q_run 0; Q_wait]) /\
    forall c, rtc (pool_step (fun _ => True)) (p, [Q_run 0; Q_wait]) c -> c.2 !! 1%nat = Some Q_wait.
Proof.
  set (p := mk_db [] [] 1 1 1 1 CLOSING 1 []). exists p. split.
  - eapply rtc_l; [apply ps_query, (qs_start _ _ [] [Q_new])|].
    eapply rtc_l; [apply ps_query, (qs_start _ _ [Q_borrow] [])|].
    eapply rtc_l; [apply ps_query; eapply (qs_borrow _ _ [] [Q_borrow]); reflexivity|].
    eapply rtc_l; [apply ps_query; eapply (qs_borrow _ _ [Q_run 0] []); reflexivity|].
    eapply rtc_l; [apply ps_close|].
    eapply rtc_l; [by apply ps_query, (qs_busy _ _ [Q_run 0] [] [])|]. apply rtc_refl.
  - intros c. apply (closed_pool_strands_query (fun _ => True) p [Q_run 0] [] c); [exact I|reflexivity|reflexivity|]. cbn. by apply not_elem_of_nil.
Defined.

(** ** Growing and initialising *)

(** A query that grows the pool opens it again after the program closed it: [expand]
    logs that the pool does not run and goes on, and its last assignment makes the
    pool [READY]. *)
Theorem closed_pool_reopens me p :
  m_state p = CLOSING -> 0 <= m_busyConnCount p <= m_connectorCount p -> m_connectorCount p < m_maxConnector p ->
  0 < m_increaseNum p ->
  (query_busy [] me p).1 = Q_borrow /\ DbPool.m_state (query_busy [] me p).2 = READY.
Proof.
  intros Hs Hb Hlt Hinc. unfold query_busy. rewrite (proj2 (Z.ltb_lt _ _)) by done. split; [done|]. cbn [snd]. unfold expand.
  rewrite (proj2 (Z.eqb_neq (m_maxConnector p) _)) by lia. rewrite expand_loop_ok. cbn [negb snd set_conns DbPool.m_state].
  destruct (Z.ltb_spec (m_increaseNum p) (m_maxConnector p - m_connectorCount p)) as [H|H];
    rewrite (proj2 (Z.ltb_lt (m_busyConnCount p) _)) by lia; done.
Qed.

Lemma closed_pool_reopens_witness :
  DbPool.m_state (query_busy [] 0 (close (mk_db [0] [] 1 0 1 2 READY 1 []))).2 = READY.
Proof. apply (closed_pool_reopens 0 (close (mk_db [0] [] 1 0 1 2 READY 1 []))); cbn; done. Defined.

Lemma expand_one (ok : bool) p :
  m_connectorCount p < m_maxConnector p -> m_increaseNum p = 1 ->
  expand (if ok then [] else [false]) p =
    (if ok then 0 else -1,
     set_conns (m_freeConnInfos p ++ [m_connectorCount p]) (if ok then m_connectorCount p + 1 else m_connectorCount p)
       (m_busyConnCount p)
       (if ok then if m_busyConnCount p <? m_connectorCount p + 1 then READY else DbPool.m_state p else DbPool.m_state p) p).
Proof.
  intros Hlt Hinc. unfold expand. rewrite (proj2 (Z.eqb_neq (m_maxConnector p) _)) by lia. rewrite Hinc.
  assert (E : (if 1 <? m_maxConnector p - m_connectorCount p then 1 else m_maxConnector p - m_connectorCount p) = 1).
  { destruct (Z.ltb_spec 1 (m_maxConnector p - m_connectorCount p)); lia. }
  rewrite E. by destruct ok.
Qed.

(** A full pool that fails to grow, and then grows twice, lends one connection to two
    queries: the index that could not be opened stays in the free list, and the next
    [expand] opens and appends the same index again. *)
Theorem failed_growth_lends_twice p :
  DbPool.m_state p = FULL -> m_freeConnInfos p = [] -> m_busyConnCount p = m_connectorCount p -> 0 <= m_connectorCount p ->
  m_connectorCount p + 2 <= m_maxConnector p -> m_increaseNum p = 1 ->
  exists p1 p2, borrowOneConn (expand [] (expand [false] p).2).2 = Bo_idx (m_connectorCount p) p1 /\
    borrowOneConn (expand [] p1).2 = Bo_idx (m_connectorCount p) p2.
Proof.
  intros Hst Hf Hb H0 Hmax Hinc.
  rewrite (expand_one false p), (expand_one true) by (cbn; lia). cbn [negb snd set_conns m_freeConnInfos m_connectorCount m_busyConnCount].
  rewrite Hf, Hb, (proj2 (Z.ltb_lt _ _)) by lia. unfold borrowOneConn at 1. cbn -[Z.add Z.leb Z.ltb Z.eqb].
  rewrite (proj2 (Z.leb_le _ _)), (proj2 (Z.ltb_lt _ _)), Z.eqb_refl by lia. cbn [andb]. eexists _, _. split; [reflexivity|].
  rewrite (expand_one true) by (cbn; lia). cbn -[Z.add Z.leb Z.ltb Z.eqb]. rewrite (proj2 (Z.ltb_lt _ _)) by lia.
  unfold borrowOneConn. cbn -[Z.add Z.leb Z.ltb Z.eqb].
  rewrite (proj2 (Z.leb_le _ _)), (proj2 (Z.ltb_lt _ _)) by lia. reflexivity.
Qed.

Lemma failed_growth_lends_twice_witness :
  exists p1 p2, borrowOneConn (expand [] (expand [false] (mk_db [] [] 1 1 1 3 FULL 1 [])).2).2 = Bo_idx 1 p1 /\
    borrowOneConn (expand [] p1).2 = Bo_idx 1 p2.
Proof. apply (failed_growth_lends_twice (mk_db [] [] 1 1 1 3 FULL 1 [])); cbn; lia || done. Defined.

(** Initialising a pool again lists every connection twice: a pool that is not new is
    marked [ERROR], but [init] goes on and marks it [READY]. *)
Theorem init_twice_lends_twice min_conn max_conn inc p :
  ready_pool min_conn max_conn inc p -> 2 <= min_conn ->
  exists p', manager_init [] p = (0, p') /\ DbPool.m_state p' = READY /\ m_freeConnInfos p' = seqZ 0 min_conn ++ seqZ 0 min_conn.
Proof.
  intros [Hr ->]%ready_pool_eq Hmin. unfold manager_init. cbn [m_minConnector m_freeConnInfos].
  rewrite expand_loop_ok, Z2Nat.id by lia. cbn [negb]. by eexists.
Qed.

Lemma init_twice_lends_twice_witness :
  exists p', manager_init [] (mk_db [0; 1] [] 2 0 2 2 READY 1 []) = (0, p') /\ DbPool.m_state p' = READY /\
    m_freeConnInfos p' = [0; 1; 0; 1].
Proof. apply (init_twice_lends_twice 2 2 1); [exists (mk_db [] [] 0 0 2 2 INIT 1 []), []; split; reflexivity|lia]. Defined.
