(* ===== verification/DbWrapper.v ===== *)
(** * The objects that hold a connection

    Models [ConnectWrapper] ([sylar/DBPool/database.hpp], [database.tpp]) as the objects of a
    program: [borrowOneConn] makes one, they are moved, copied and assigned, and the
    destructor gives the connection back.  A destroyed object is [None]; an operation on
    one is undefined. *)

From stdpp Require Import relations.
From S2P Require Import Prelude DbPool DbQuery DbLive.

Record ConnectWrapper := MkWrapper { m_conn_idx : Z; m_pool : bool; m_timeout : bool }.

Record holders := MkHolders { hpool : DBPool; wraps : list (option ConnectWrapper) }.

Definition newWrapper (idx : Z) (pool : bool) : ConnectWrapper := MkWrapper idx pool false.

(** What a wrapper is left with after a move. *)
Definition moved_from (o : ConnectWrapper) : ConnectWrapper := MkWrapper (-1) false (m_timeout o).

(** The move constructor; the mark of a time out is not moved. *)
Definition moveWrapper (o : ConnectWrapper) : ConnectWrapper * ConnectWrapper :=
  (MkWrapper (m_conn_idx o) (m_pool o) false, moved_from o).

(** The move assignment: what [self] held is overwritten. *)
Definition assignWrapper (self o : ConnectWrapper) : ConnectWrapper * ConnectWrapper :=
  (MkWrapper (m_conn_idx o) (m_pool o) (m_timeout self), moved_from o).

(** [~ConnectWrapper]; a connection that timed out is reconnected. *)
Definition dtorWrapper (o : ConnectWrapper) (p : DBPool) : option DBPool :=
  if (0 <=? m_conn_idx o) && negb (m_pool o) then None
  else Some (ConnectWrapper_dtor (m_conn_idx o) (m_timeout o) true p).

Inductive holder_op :=
  | H_borrow
  | H_move (i : nat)
  | H_copy (i : nat)
  | H_assign (i j : nat)                 (* wraps[i] = std::move(wraps[j]) *)
  | H_setTimeout (i : nat) (b : bool)
  | H_destroy (i : nat).

(** [borrowOneConn] makes a temporary object, from which [make_shared] moves. *)
Definition borrow_wrapper (h : holders) : option holders :=
  match borrowOneConn (hpool h) with
  | Bo_assert => None
  | Bo_idx idx p =>
      let (o, temp) := moveWrapper (newWrapper idx (0 <=? idx)) in
      p ← dtorWrapper temp p;
      Some (MkHolders p (wraps h ++ [Some o]))
  end.

Definition put (i : nat) (o : option ConnectWrapper) (h : holders) : holders := MkHolders (hpool h) (<[i := o]> (wraps h)).

Definition holder_exec (op : holder_op) (h : holders) : option holders :=
  match op with
  | H_borrow => borrow_wrapper h
  | H_move i =>
      o ← mjoin (wraps h !! i);
      let (o', o) := moveWrapper o in
      Some (MkHolders (hpool h) (<[i := Some o]> (wraps h) ++ [Some o']))
  | H_copy i =>
      o ← mjoin (wraps h !! i);
      Some (MkHolders (hpool h) (wraps h ++ [Some o]))
  | H_assign i j =>
      self ← mjoin (wraps h !! i);
      o ← mjoin (wraps h !! j);
      let (self, o) := assignWrapper self o in
      Some (put j (Some o) (put i (Some self) h))
  | H_setTimeout i b =>
      o ← mjoin (wraps h !! i);
      Some (put i (Some (MkWrapper (m_conn_idx o) (m_pool o) b)) h)
  | H_destroy i =>
      o ← mjoin (wraps h !! i);
      p ← dtorWrapper o (hpool h);
      Some (MkHolders p (<[i := None]> (wraps h)))
  end.

(** ** What is held *)

Definition holds (o : option ConnectWrapper) : list Z :=
  match o with Some w => if 0 <=? m_conn_idx w then [m_conn_idx w] else [] | None => [] end.

Definition holding (h : holders) : list Z := wraps h ≫= holds.

(** Every object that holds a connection has its pool. *)
Definition wrapper_ok (o : option ConnectWrapper) : Prop :=
  match o with Some w => 0 <= m_conn_idx w -> m_pool w = true | None => True end.

Definition holders_ok (h : holders) : Prop := db_inv (holding h) (hpool h) /\ Forall wrapper_ok (wraps h).

(** A program that does not copy, and assigns only to another object that is empty. *)
Definition tidy (op : holder_op) (h : holders) : Prop :=
  match op with
  | H_copy _ => False
  | H_assign i j => i <> j /\ forall w, wraps h !! i = Some (Some w) -> m_conn_idx w < 0
  | _ => True
  end.

Inductive tidy_step : holders -> holders -> Prop :=
  | ts_exec op h h' : tidy op h -> holder_exec op h = Some h' -> tidy_step h h'
  | ts_expand h : tidy_step h (MkHolders (expand [] (hpool h)).2 (wraps h))
  | ts_register cb h : tidy_step h (MkHolders (registeConnCb cb (hpool h)).2 (wraps h)).

(** The pool is seen through the connections that are held, in any order. *)
#[global] Instance db_inv_Proper : Proper ((≡ₚ) ==> (=) ==> iff) db_inv.
Proof. intros l1 l2 Hl p ? <-. split; intros H; (eapply db_inv_perm; [exact H|done]). Qed.

Lemma lookup_mjoin (l : list (option ConnectWrapper)) i o : mjoin (l !! i) = Some o -> l !! i = Some (Some o).
Proof. by destruct (l !! i) as [[]|]; simpl; intros; simplify_eq. Qed.

(** Replacing one object. *)
Lemma held_insert l i o o' : l !! i = Some o -> holds o ++ (<[i := o']> l ≫= holds) ≡ₚ holds o' ++ (l ≫= holds).
Proof.
  intros Hi. apply list_elem_of_split_length in Hi as (l1 & l2 & -> & ->).
  rewrite insert_app_r_alt, Nat.sub_diag by lia. cbn [insert list_insert]. rewrite !bind_app, !bind_cons.
  rewrite !(Permutation_app_comm (l1 ≫= holds)). rewrite <- !app_assoc, !app_assoc.
  do 2 apply Permutation_app_tail. apply Permutation_app_comm.
Qed.

Lemma wrapper_ok_insert l i o : Forall wrapper_ok l -> wrapper_ok o -> Forall wrapper_ok (<[i := o]> l).
Proof. apply Forall_insert. Qed.

Lemma wrapper_ok_lookup l i w : Forall wrapper_ok l -> l !! i = Some (Some w) -> wrapper_ok (Some w).
Proof. apply Forall_lookup_1. Qed.

Lemma wrapper_ok_moved w : wrapper_ok (Some (moved_from w)).
Proof. cbn. lia. Qed.
#[local] Hint Resolve wrapper_ok_insert wrapper_ok_moved : core.

Lemma held_snoc l o : (l ++ [o]) ≫= holds ≡ₚ holds o ++ (l ≫= holds).
Proof. rewrite bind_app, bind_cons. cbn. rewrite app_nil_r. apply Permutation_app_comm. Qed.

Lemma wrapper_borrow_ok h h' : holders_ok h -> borrow_wrapper h = Some h' -> holders_ok h'.
Proof.
  intros [Hi Hw]. unfold borrow_wrapper. destruct (borrow_inv _ _ Hi) as (idx & p' & -> & Hi' & Hc & _).
  cbn. intros [= <-]. split; cbn [hpool wraps holding].
  - unfold holding. cbn [wraps]. rewrite held_snoc. cbn [holds m_conn_idx].
    destruct (Z.ltb_spec idx 0), (Z.leb_spec 0 idx); try lia; exact Hi'.
  - apply Forall_app. split; [done|]. constructor; [|done]. cbn. intros. by apply Z.leb_le.
Qed.

Lemma wrapper_destroy_ok h i w p :
  holders_ok h -> wraps h !! i = Some (Some w) -> dtorWrapper w (hpool h) = Some p ->
  holders_ok (MkHolders p (<[i := None]> (wraps h))).
Proof.
  intros [Hi Hw] Hl Hd. split; cbn [hpool wraps]; [|by apply wrapper_ok_insert].
  unfold holding in *. cbn [wraps]. pose proof (held_insert _ _ _ None Hl) as Hh. cbn [holds app] in Hh.
  rewrite <- Hh in Hi. unfold dtorWrapper in Hd. destruct (_ && _); [done|]. injection Hd as <-.
  unfold ConnectWrapper_dtor. destruct (Z.ltb_spec (m_conn_idx w) 0), (Z.leb_spec 0 (m_conn_idx w)); try lia; [exact Hi|].
  destruct (returnConn _ _ _ _) as [rc p] eqn:Er. by destruct (return_inv [] _ _ _ _ _ _ Hi Er).
Qed.

Lemma wrapper_assign_ok h i j self w :
  holders_ok h -> i <> j -> wraps h !! i = Some (Some self) -> m_conn_idx self < 0 -> wraps h !! j = Some (Some w) ->
  holders_ok (put j (Some (assignWrapper self w).2) (put i (Some (assignWrapper self w).1) h)).
Proof.
  intros [Hi Hw] Hij Hs Hneg Hj. pose proof (wrapper_ok_lookup _ _ _ Hw Hj) as Hok. split; cbn [hpool wraps put].
  - unfold holding in *. cbn [wraps put assignWrapper fst snd]. set (self' := MkWrapper _ _ _).
    pose proof (held_insert _ _ _ (Some self') Hs) as H1. cbn [holds] in H1.
    rewrite (proj2 (Z.leb_gt 0 (m_conn_idx self))) in H1 by lia. cbn [app] in H1.
    pose proof (held_insert (<[i := Some self']> (wraps h)) j (Some w) (Some (moved_from w))) as H2.
    rewrite list_lookup_insert_ne in H2 by done. specialize (H2 Hj). cbn [holds moved_from m_conn_idx Z.leb Z.compare app] in H2.
    rewrite H1 in H2. apply Permutation_app_inv_l in H2. by rewrite H2.
  - cbn [assignWrapper fst snd]. auto.
Qed.

Lemma wrapper_move_ok h i w :
  holders_ok h -> wraps h !! i = Some (Some w) ->
  holders_ok (MkHolders (hpool h) (<[i := Some (moveWrapper w).2]> (wraps h) ++ [Some (moveWrapper w).1])).
Proof.
  intros [Hi Hw] Hl. pose proof (wrapper_ok_lookup _ _ _ Hw Hl) as Hok. split; cbn [hpool wraps].
  - unfold holding in *. cbn [wraps]. rewrite held_snoc. change (holds (Some (moveWrapper w).1)) with (holds (Some w)).
    by rewrite (held_insert _ _ _ (Some (moveWrapper w).2) Hl).
  - apply Forall_app. cbn [moveWrapper fst snd]. auto.
Qed.

Lemma tidy_step_ok h h' : tidy_step h h' -> holders_ok h -> holders_ok h'.
Proof.
  intros Hs H. destruct Hs as [op h h' Ht E|h|cb h].
  - destruct op as [|i|i|i j|i b|i]; cbn [tidy holder_exec] in Ht, E; try done.
    + by eapply wrapper_borrow_ok.
    + destruct (mjoin _) as [w|] eqn:El; [|done]. injection E as <-. apply lookup_mjoin in El. exact (wrapper_move_ok h i w H El).
    + destruct Ht as [Hij Hn]. destruct (mjoin (wraps h !! i)) as [self|] eqn:Ei; [|done].
      destruct (mjoin (wraps h !! j)) as [w|] eqn:Ej; [|done]. injection E as <-. apply lookup_mjoin in Ei, Ej.
      exact (wrapper_assign_ok h i j self w H Hij Ei (Hn _ Ei) Ej).
    + destruct (mjoin _) as [w|] eqn:El; [|done]. injection E as <-. apply lookup_mjoin in El. destruct H as [Hi Hw].
      pose proof (wrapper_ok_lookup _ _ _ Hw El) as Hok. split; [|by apply wrapper_ok_insert]. unfold holding in *. cbn [wraps hpool put].
      pose proof (held_insert _ _ _ (Some (MkWrapper (m_conn_idx w) (m_pool w) b)) El) as Hh.
      apply Permutation_app_inv_l in Hh. by rewrite Hh.
    + destruct (mjoin _) as [w|] eqn:El; [|done]. apply lookup_mjoin in El. cbn in E.
      destruct (dtorWrapper _ _) as [p|] eqn:Ed; [|done]. injection E as <-. by eapply wrapper_destroy_ok.
  - destruct H as [Hi Hw]. split; [|done]. cbn [hpool wraps]. destruct (expand [] (hpool h)) as [rc p] eqn:E.
    by destruct (expand_inv _ _ _ _ Hi E).
  - destruct H as [Hi Hw]. split; [|done]. cbn [hpool wraps]. destruct (registeConnCb cb (hpool h)) as [rc p] eqn:E.
    eapply db_step_inv; [by eapply step_register|exact Hi].
Qed.

(** * Results *)

(** Programs that move wrappers, but do not copy them and do not assign to one that holds
    a connection, give every connection back exactly once: no connection is held by two
    wrappers or both held and free, destroying a wrapper never fails, and when
    all wrappers are gone all connections are free. *)
Theorem wrappers_return_once p0 h :
  db_inv [] p0 -> rtc tidy_step (MkHolders p0 []) h ->
  m_freeConnInfos (hpool h) ++ holding h ≡ₚ seqZ 0 (m_connectorCount (hpool h)) /\
  (forall i w, wraps h !! i = Some (Some w) -> is_Some (holder_exec (H_destroy i) h)) /\
  (Forall (fun o => o = None) (wraps h) -> zlen (m_freeConnInfos (hpool h)) = m_connectorCount (hpool h)).
Proof.
  intros H0 Hs. assert (H : holders_ok h).
  { revert h Hs. apply (rtc_ind_r holders_ok); [by split|]. intros h1 h2 _ H12 H. by eapply tidy_step_ok. }
  destruct H as [Hi Hw]. split_and!.
  - apply (di_conns _ _ Hi).
  - intros i w Hl. cbn [holder_exec]. rewrite Hl. cbn. pose proof (wrapper_ok_lookup _ _ _ Hw Hl) as Hok. cbn in Hok. unfold dtorWrapper.
    destruct (Z.leb_spec 0 (m_conn_idx w)); cbn [andb]; [rewrite Hok by done|]; by eexists.
  - intros Hn. pose proof (db_lengths _ _ Hi) as Hl. replace (holding h) with (@nil Z) in Hl; [rewrite zlen_nil in Hl; lia|].
    unfold holding. clear -Hn. induction Hn as [|o l -> _ IH]; [done|]. by rewrite bind_cons, <- IH.
Qed.

Definition ex_pool2 : DBPool := mk_db [0; 1] [] 2 0 2 2 READY 1 [].

Lemma ex_pool2_inv : db_inv [] ex_pool2.
Proof. split; try (cbn; lia); try done. Qed.

(** Executes a program. *)
Fixpoint holder_run (ops : list holder_op) (h : holders) : option holders :=
  match ops with [] => Some h | op :: ops => h ← holder_exec op h; holder_run ops h end.

Lemma wrappers_return_once_witness :
  exists h, rtc tidy_step (MkHolders ex_pool2 []) h /\ wraps h = [None; None] /\ zlen (m_freeConnInfos (hpool h)) = 2.
Proof.
  match goal with |- exists h, rtc _ ?s h /\ _ => assert (Hs : exists h, rtc tidy_step s h /\ holder_run [H_borrow; H_move 0; H_destroy 1; H_destroy 0] s = Some h) end.
  { eexists. split; [|reflexivity]. eapply rtc_l; [by eapply (ts_exec H_borrow)|]. eapply rtc_l; [by eapply (ts_exec (H_move 0))|].
    eapply rtc_l; [by eapply (ts_exec (H_destroy 1))|]. eapply rtc_l; [by eapply (ts_exec (H_destroy 0))|]. apply rtc_refl. }
  destruct Hs as (h & Hs & [= <-]). eexists. split; [exact Hs|]. split; [reflexivity|].
  apply (wrappers_return_once ex_pool2 _ ex_pool2_inv Hs). by repeat constructor.
Defined.

(** The copy constructor is the default one: a copy gives the connection back a second
    time, and the pool then lends it to two users at once. *)
Theorem copied_wrapper_lends_twice :
  exists h, holder_run [H_borrow; H_copy 0; H_destroy 0; H_destroy 1] (MkHolders ex_pool2 []) = Some h /\
    m_freeConnInfos (hpool h) = [1; 0; 0] /\ m_busyConnCount (hpool h) = -1.
Proof. eexists. by split. Qed.

(** Move assignment overwrites what the target held, and an assignment to itself forgets
    its own connection: it is never given back. *)
Theorem assigned_wrapper_loses :
  (exists h, holder_run [H_borrow; H_borrow; H_assign 0 1; H_destroy 0; H_destroy 1] (MkHolders ex_pool2 []) = Some h /\
     m_freeConnInfos (hpool h) = [1]) /\
  (exists h, holder_run [H_borrow; H_assign 0 0; H_destroy 0] (MkHolders ex_pool2 []) = Some h /\ m_freeConnInfos (hpool h) = [1]).
Proof. split; eexists; by split. Qed.
