(* ===== verification/Redis.v ===== *)
(** * Redis replies, connections and the factory of pools

    Models [RedisResp], [RedisConn] and the part of [RedisPoolManager] that is not
    in [DbQuery] ([sylar/DBPool/redis.h], [redis.cc]), and [DB] ([factory.cc]).  A
    reply is the tree the client library allocates; replies live in a store, and a
    response refers to a node of one by the number of the reply and the path to the
    node, so that a response of a reply that was freed refers to nothing.  Doubles are
    a parameter, with the conversion from integers. *)

From S2P Require Import Prelude CppString Mysql.

Inductive reply_type :=
  | REDIS_REPLY_STRING | REDIS_REPLY_ARRAY | REDIS_REPLY_INTEGER | REDIS_REPLY_NIL | REDIS_REPLY_STATUS
  | REDIS_REPLY_ERROR | REDIS_REPLY_DOUBLE | REDIS_REPLY_BOOL | REDIS_REPLY_MAP | REDIS_REPLY_SET
  | REDIS_REPLY_ATTR | REDIS_REPLY_PUSH | REDIS_REPLY_BIGNUM | REDIS_REPLY_VERB.

(** What an accessor does: a value, [std::bad_cast], or undefined (a null or freed reply). *)
Inductive outcome (A : Type) := Val (a : A) | BadCast | Undefined.
Arguments Val {A}.
Arguments BadCast {A}.
Arguments Undefined {A}.

Definition outcome_bind {A B} (f : A -> outcome B) (m : outcome A) : outcome B :=
  match m with Val a => f a | BadCast => BadCast | Undefined => Undefined end.

(** Running [f] on every object of a vector; each may change. *)
Fixpoint each {A B} (f : A -> outcome (B * A)) (l : list A) : outcome (list B * list A) :=
  match l with
  | [] => Val ([], [])
  | x :: l => outcome_bind (fun '(v, x) => outcome_bind (fun '(vs, l) => Val (v :: vs, x :: l)) (each f l)) (f x)
  end.

Lemma each_ok {A B C} (f : A -> outcome (B * A)) (g : C -> B) (R : A -> C -> Prop) l cs :
  Forall2 (fun x c => exists x', f x = Val (g c, x') /\ R x' c) l cs ->
  exists l', each f l = Val (map g cs, l') /\ Forall2 R l' cs.
Proof.
  induction 1 as [|x c l cs (x' & Ef & Hx) _ (l' & El & Hl)]; [by exists []|]. exists (x' :: l'). cbn [each map].
  rewrite Ef, El. split; [done|by constructor].
Qed.

(** [std::to_string] of a [long long]. *)
Definition to_string_signed (n : Z) : list Z := if n <? 0 then str "-" ++ to_string (- n) else to_string n.

Section Redis.
Variable double : Type.
Variable of_int : Z -> double.

(** [redisReply]; [r_str] is null for a reply without text. *)
Inductive redisReply := Reply {
  r_type : reply_type;
  r_integer : Z;
  r_dval : double;
  r_str : option (list Z);
  r_len : Z;
  r_element : list redisReply;
}.

(** The replies allocated so far; [None] is one that was freed. *)
Abbreviation store := (list (option redisReply)).

Fixpoint node (path : list nat) (r : redisReply) : option redisReply :=
  match path with
  | [] => Some r
  | i :: path => r_element r !! i ≫= node path
  end.

Definition deref (h : store) (a : nat * list nat) : option redisReply := h !! a.1 ≫= fun r => r ≫= node a.2.

(** ** [RedisResp] *)

Inductive RedisResp := MkRedisResp {
  m_reply : nat * list nat;
  m_is_arry_inited : bool;
  m_is_child : bool;
  m_array : list RedisResp;
  m_resp_state : IOState;
}.

(** The constructor; [None] is the failed assertion on a null reply. *)
Definition newRedisResp (reply : option (nat * list nat)) (state : IOState) (is_child : bool) : option RedisResp :=
  match reply with
  | None => None
  | Some a => Some (MkRedisResp a false is_child [] state)
  end.

(** The destructor; [None] frees a reply that was freed.  The responses of [m_array] are
    children, and free nothing. *)
Definition dtorRedisResp (o : RedisResp) (h : store) : option store :=
  if m_is_child o then Some h
  else match h !! (m_reply o).1 with
       | Some (Some _) => Some (<[(m_reply o).1 := None]> h)
       | _ => None
       end.

Definition with_reply {A} (h : store) (o : RedisResp) (f : redisReply -> outcome A) : outcome A :=
  match deref h (m_reply o) with Some r => f r | None => Undefined end.

Definition getType (h : store) (o : RedisResp) : outcome reply_type := with_reply h o (fun r => Val (r_type r)).

Definition asInt (h : store) (o : RedisResp) : outcome Z :=
  with_reply h o (fun r => match r_type r with REDIS_REPLY_INTEGER => Val (r_integer r) | _ => BadCast end).

Definition asDouble (h : store) (o : RedisResp) : outcome double :=
  with_reply h o (fun r =>
    match r_type r with
    | REDIS_REPLY_DOUBLE => Val (r_dval r)
    | REDIS_REPLY_INTEGER => Val (of_int (r_integer r))
    | _ => BadCast
    end).

Definition asString (h : store) (o : RedisResp) : outcome (list Z) :=
  with_reply h o (fun r =>
    match r_type r with
    | REDIS_REPLY_ERROR | REDIS_REPLY_STRING | REDIS_REPLY_VERB | REDIS_REPLY_DOUBLE
    | REDIS_REPLY_STATUS | REDIS_REPLY_BIGNUM =>
        match make_string (r_str r) (r_len r) with Some s => Val s | None => Undefined end
    | REDIS_REPLY_INTEGER => Val (to_string_signed (r_integer r))
    | _ => BadCast
    end).

(** [asArray]: the children, and the response that now holds them. *)
Definition child_at (o : RedisResp) (i : nat) : RedisResp :=
  MkRedisResp ((m_reply o).1, (m_reply o).2 ++ [i]) false true [] IO_SUCCESS.

Definition asArray (h : store) (o : RedisResp) : outcome (list RedisResp * RedisResp) :=
  if m_is_arry_inited o then Val (m_array o, o)
  else
    with_reply h o (fun r =>
      let arr := map (child_at o) (seq 0 (length (r_element r))) in
      Val (arr, MkRedisResp (m_reply o) true (m_is_child o) arr (m_resp_state o))).

(** ** [RedisConn] *)

(** The contexts the client library allocated and has not been told to free, and the one
    the connection refers to. *)
Record RedisConn := MkRedisConn { rc_open : list nat; rc_connect : option nat }.

Definition newRedisConn : RedisConn := MkRedisConn [] None.

(** [connect]; [ctx] is what [redisConnect] returns: nothing, or a context and its error flag. *)
Definition redis_connect (ctx : option (nat * bool)) (c : RedisConn) : Z * RedisConn :=
  match ctx with
  | None => (-1, MkRedisConn (rc_open c) None)
  | Some (k, err) => (if err then -1 else 0, MkRedisConn (k :: rc_open c) (Some k))
  end.

Definition dtorRedisConn (c : RedisConn) : list nat :=
  match rc_connect c with Some k => List.remove Nat.eq_dec k (rc_open c) | None => rc_open c end.

(** [executeQuery]: no response when the command has no reply; the assertion fails when
    there is no context. *)
Definition redis_query (reply : option redisReply) (c : RedisConn) (h : store) : option (option RedisResp * store) :=
  match rc_connect c with
  | None => None
  | Some _ =>
      match reply with
      | None => Some (None, h)
      | Some r => resp ← newRedisResp (Some (length h, [])) IO_SUCCESS false; Some (Some resp, h ++ [Some r])
      end
  end.

(** What the queries of the pool return when it does not run. *)
Definition redis_refused : option RedisResp := newRedisResp None IO_FAILED false.

(** ** Reading a whole reply *)

(** What a reply says. *)
Inductive value :=
  | V_int (n : Z)
  | V_double (d : double)
  | V_text (s : list Z)
  | V_list (vs : list value)
  | V_other.

Fixpoint value_of (r : redisReply) : value :=
  match r with
  | Reply ty n d s _ elems =>
      match ty with
      | REDIS_REPLY_INTEGER => V_int n
      | REDIS_REPLY_DOUBLE => V_double d
      | REDIS_REPLY_ERROR | REDIS_REPLY_STRING | REDIS_REPLY_VERB | REDIS_REPLY_STATUS | REDIS_REPLY_BIGNUM =>
          V_text (default [] s)
      | REDIS_REPLY_NIL | REDIS_REPLY_BOOL => V_other
      | _ => V_list (map value_of elems)
      end
  end.

(** The library stores the length of the text beside it. *)
Fixpoint well_formed (r : redisReply) : Prop :=
  match r with
  | Reply _ _ _ s len elems =>
      len = zlen (default [] s) /\ (fix all (l : list redisReply) : Prop := match l with [] => True | x :: l => well_formed x /\ all l end) elems
  end.

Fixpoint depth (r : redisReply) : nat :=
  match r with Reply _ _ _ _ _ elems => S (foldr (fun e n => Nat.max (depth e) n) 0%nat elems) end.

Definition read_list (f : RedisResp -> outcome (value * RedisResp)) (arr : outcome (list RedisResp * RedisResp))
    : outcome (value * RedisResp) :=
  outcome_bind (fun '(arr, o) =>
    outcome_bind (fun '(vs, arr) =>
      Val (V_list vs, MkRedisResp (m_reply o) (m_is_arry_inited o) (m_is_child o) arr (m_resp_state o)))
      (each f arr)) arr.

(** Reading with the accessors, the way a caller does that looks at the type first: the
    value, and the response with the arrays it holds by then. *)
Fixpoint read (fuel : nat) (h : store) (o : RedisResp) : outcome (value * RedisResp) :=
  match fuel with
  | O => Undefined
  | S fuel =>
      outcome_bind (fun ty =>
        match ty with
        | REDIS_REPLY_INTEGER => outcome_bind (fun n => Val (V_int n, o)) (asInt h o)
        | REDIS_REPLY_DOUBLE => outcome_bind (fun d => Val (V_double d, o)) (asDouble h o)
        | REDIS_REPLY_ERROR | REDIS_REPLY_STRING | REDIS_REPLY_VERB | REDIS_REPLY_STATUS | REDIS_REPLY_BIGNUM =>
            outcome_bind (fun s => Val (V_text s, o)) (asString h o)
        | REDIS_REPLY_NIL | REDIS_REPLY_BOOL => Val (V_other, o)
        | _ =>
            read_list (read fuel h) (asArray h o)
        end) (getType h o)
  end.
End Redis.

Arguments Reply {double}.
Arguments r_type {double}.
Arguments r_integer {double}.
Arguments r_dval {double}.
Arguments r_str {double}.
Arguments r_len {double}.
Arguments r_element {double}.
Arguments node {double}.
Arguments deref {double}.
Arguments dtorRedisResp {double}.
Arguments with_reply {double A}.
Arguments getType {double}.
Arguments asInt {double}.
Arguments asDouble {double}.
Arguments asString {double}.
Arguments asArray {double}.
Arguments redis_query {double}.
Arguments value_of {double}.
Arguments well_formed {double}.
Arguments depth {double}.
Arguments read_list {double}.
Arguments read {double}.
Arguments V_int {double}.
Arguments V_double {double}.
Arguments V_text {double}.
Arguments V_list {double}.
Arguments V_other {double}.

(** ** [DB] *)

(** The two public pools; a pool is a number and what it was constructed with. *)
Inductive pool_kind := MysqlPool | RedisPool.

Record pools := MkPools {
  created : list (pool_kind * Z * Z);
  MySQLPoolInstance : option nat;
  RedisPoolInstance : option nat;
}.

Definition createMysqlPool (min_conn max_conn : Z) (is_public : bool) (g : pools) : nat * pools :=
  let k := length (created g) in
  (k, MkPools (created g ++ [(MysqlPool, min_conn, max_conn)]) (if is_public then Some k else MySQLPoolInstance g)
        (RedisPoolInstance g)).

Definition createRedisPool (min_conn max_conn : Z) (is_public : bool) (g : pools) : nat * pools :=
  let k := length (created g) in
  (k, MkPools (created g ++ [(RedisPool, min_conn, max_conn)]) (MySQLPoolInstance g)
        (if is_public then Some k else RedisPoolInstance g)).

Definition Mysql_getInstance (g : pools) : option nat * pools :=
  match MySQLPoolInstance g with
  | Some k => (Some k, g)
  | None => let g := (createMysqlPool 5 15 true g).2 in (MySQLPoolInstance g, g)
  end.

Definition Redis_getInstance (g : pools) : option nat * pools :=
  match RedisPoolInstance g with
  | Some k => (Some k, g)
  | None => let g := (createMysqlPool 5 10 true g).2 in (RedisPoolInstance g, g)
  end.

(** ** Responses and the nodes they refer to *)

Section ReadProofs.
Context {double : Type} (of_int : Z -> double).
Implicit Types (h : list (option (redisReply double))) (r : redisReply double).

(** A response refers to node [r]; the children it holds refer to the elements. *)
Inductive resp_ok h : RedisResp -> redisReply double -> Prop :=
  | ok_fresh a child st r : deref h a = Some r -> resp_ok h (MkRedisResp a false child [] st) r
  | ok_cached a child arr st r :
      deref h a = Some r -> Forall2 (resp_ok h) arr (r_element r) -> resp_ok h (MkRedisResp a true child arr st) r.

Lemma resp_ok_deref h o r : resp_ok h o r -> deref h (m_reply o) = Some r.
Proof. by destruct 1. Qed.

Lemma deref_child h a r i e : deref h a = Some r -> r_element r !! i = Some e -> deref h (a.1, a.2 ++ [i]) = Some e.
Proof.
  unfold deref. cbn [fst snd]. destruct (h !! a.1) as [[root|]|]; cbn; try done.
  generalize root. induction (a.2) as [|j path IH]; intros root'; cbn.
  - intros [= ->] ->. done.
  - destruct (r_element root' !! j); [|done]. apply IH.
Qed.

Lemma children_ok h o r : resp_ok h o r -> forall n (l : list (redisReply double)),
  (forall i e, l !! i = Some e -> r_element r !! (n + i)%nat = Some e) ->
  Forall2 (resp_ok h) (map (child_at o) (seq n (length l))) l.
Proof.
  intros Ho n l. revert n. induction l as [|e l IH]; intros n Hl; cbn [length seq map]; [done|]. constructor.
  - apply ok_fresh, (deref_child h (m_reply o) r); [by apply resp_ok_deref|]. rewrite <- (Nat.add_0_r n). by apply Hl.
  - apply IH. intros i e' He. rewrite Nat.add_succ_l, <- Nat.add_succ_r. by apply Hl.
Qed.

Lemma asArray_ok h o r :
  resp_ok h o r ->
  exists arr, asArray h o = Val (arr, MkRedisResp (m_reply o) true (m_is_child o) arr (m_resp_state o))
    /\ Forall2 (resp_ok h) arr (r_element r).
Proof.
  intros [a child st r' Hd|a child arr st r' Hd Hf].
  - eexists. unfold asArray, with_reply. cbn [m_is_arry_inited m_reply m_is_child m_resp_state]. rewrite Hd. split; [done|]. by apply (children_ok h _ r' (ok_fresh _ _ _ _ _ Hd) 0).
  - exists arr. done.
Qed.

Lemma well_formed_elems r : well_formed r -> r_len r = zlen (default [] (r_str r)) /\ Forall well_formed (r_element r).
Proof.
  destruct r as [ty n d s len elems]. cbn. intros [H1 H2]. split; [done|].
  induction elems as [|e elems IH]; [done|]. destruct H2 as [H2 H3]. constructor; [done|by apply IH].
Qed.

Lemma depth_elems r fuel : (depth r <= S fuel)%nat -> Forall (fun e => (depth e <= fuel)%nat) (r_element r).
Proof.
  destruct r as [ty n d s len elems]. cbn [depth r_element]. intros H. induction elems as [|e elems IH]; [done|].
  cbn [foldr] in H. constructor; [lia|apply IH; lia].
Qed.

Lemma make_string_whole s : make_string s (zlen (default [] s)) = Some (default [] s).
Proof.
  destruct s as [s|]; [|done]. cbn [default from_option id make_string]. pose proof (zlen_nonneg s).
  rewrite Z.leb_refl, (proj2 (Z.leb_le _ _)) by done. cbn [andb]. unfold zlen. by rewrite Nat2Z.id, firstn_all.
Qed.

Lemma read_ok fuel : forall h o r,
  resp_ok h o r -> well_formed r -> (depth r <= fuel)%nat ->
  exists o', read of_int fuel h o = Val (value_of r, o') /\ resp_ok h o' r.
Proof.
  induction fuel as [|fuel IH]; intros h o r Ho Hwf Hd; [destruct r; cbn in Hd; lia|].
  destruct (well_formed_elems _ Hwf) as [Hlen Hel]. pose proof (depth_elems _ _ Hd) as Hde.
  pose proof (resp_ok_deref _ _ _ Ho) as Hr.
  assert (Hlist : exists o', read_list (read of_int fuel h) (asArray h o) = Val (V_list (map value_of (r_element r)), o') /\ resp_ok h o' r).
  { destruct (asArray_ok h o r Ho) as (arr & E0 & Hf). rewrite E0.
    destruct (each_ok (read of_int fuel h) value_of (resp_ok h) arr (r_element r)) as (arr' & E & Hf').
    - clear -IH Hf Hel Hde. induction Hf as [|x e arr elems Hx _ IHf]; [done|].
      apply Forall_cons in Hel as [He1 He2]. apply Forall_cons in Hde as [Hd1 Hd2]. constructor; [by apply IH|by apply IHf].
    - unfold read_list. cbn. rewrite E. eexists. split; [done|]. by constructor. }
  cbn [read]. unfold getType, asInt, asDouble, asString, with_reply in *. rewrite Hr. cbn [outcome_bind].
  destruct r as [ty n d s len elems]. cbn [r_type r_integer r_dval r_str r_len value_of r_element] in *.
  subst len. rewrite make_string_whole. destruct ty; try (exists o; done); exact Hlist.
Qed.
End ReadProofs.

(** * Results *)

(** A response of a live reply. *)
Lemma query_resp_ok {D} reply c h resp h' :
  redis_query (double := D) (Some reply) c h = Some (Some resp, h') -> resp_ok h' resp reply /\ m_is_child resp = false /\ (m_reply resp).1 = length h.
Proof.
  unfold redis_query. destruct (rc_connect c); [|done]. cbn. intros [= <- <-]. split; [|done]. constructor.
  unfold deref. cbn. rewrite list_lookup_middle by done. done.
Qed.

(** C40. A command's reply reads back as the server sent it: the accessors, used by
    type and through the cached arrays, give every number, text and nested list of the
    reply, no accessor throws, and a second reading, now of the cached children, gives
    the same. *)
Theorem reply_reads_back {D} (of_int : Z -> D) reply c h resp h' fuel :
  redis_query (Some reply) c h = Some (Some resp, h') -> well_formed reply -> (depth reply <= fuel)%nat ->
  exists resp1 resp2, read of_int fuel h' resp = Val (value_of reply, resp1) /\
    read of_int fuel h' resp1 = Val (value_of reply, resp2).
Proof.
  intros [Ho _]%query_resp_ok Hwf Hd. destruct (read_ok of_int fuel h' resp reply Ho Hwf Hd) as (o1 & E1 & Ho1).
  destruct (read_ok of_int fuel h' o1 reply Ho1 Hwf Hd) as (o2 & E2 & _). by exists o1, o2.
Qed.

(** Of a command such as LRANGE: two texts and a nested list. *)
Definition ex_reply : redisReply Z :=
  Reply REDIS_REPLY_ARRAY 0 0 None 0
    [Reply REDIS_REPLY_STRING 0 0 (Some (str "a")) 1 []; Reply REDIS_REPLY_INTEGER 7 0 None 0 [];
     Reply REDIS_REPLY_ARRAY 0 0 None 0 [Reply REDIS_REPLY_NIL 0 0 None 0 []]].

Lemma reply_reads_back_witness :
  exists resp h', redis_query (Some ex_reply) (MkRedisConn [4%nat] (Some 4%nat)) [] = Some (Some resp, h') /\
    exists resp1, read id 3 h' resp = Val (V_list [V_text (str "a"); V_int 7; V_list [V_other]], resp1).
Proof.
  eexists _, _. split; [reflexivity|].
  destruct (reply_reads_back id ex_reply (MkRedisConn [4%nat] (Some 4%nat)) [] _ _ 3 eq_refl) as (r1 & r2 & E & _).
  - cbn. by split_and!.
  - cbn. lia.
  - exists r1. exact E.
Defined.

(** A reply is freed exactly once: destroying any of the responses of its nodes
    frees nothing, in any order, and destroying the response of the command frees it
    and no other reply; a node read after that is a read of freed memory. *)
Theorem reply_freed_once {D} (reply : redisReply D) c h resp h' arr resp' :
  redis_query (Some reply) c h = Some (Some resp, h') -> asArray h' resp = Val (arr, resp') ->
  Forall (fun child => dtorRedisResp child h' = Some h') arr /\
  exists h'', dtorRedisResp resp' h' = Some h'' /\ h'' = h ++ [None] /\ dtorRedisResp resp' h'' = None /\
    Forall (fun child => asString h'' child = Undefined /\ getType h'' child = Undefined) arr.
Proof.
  intros Hq Ha. destruct (query_resp_ok _ _ _ _ _ Hq) as (Ho & Hc & Hid).
  assert (Eh : h' = h ++ [Some reply]).
  { unfold redis_query in Hq. destruct (rc_connect c); [|done]. cbn in Hq. by injection Hq. }
  assert (Hfresh : m_is_arry_inited resp = false).
  { unfold redis_query in Hq. destruct (rc_connect c); [|done]. cbn in Hq. by injection Hq as <- _. }
  unfold asArray, with_reply in Ha. rewrite Hfresh, (resp_ok_deref _ _ _ Ho) in Ha. injection Ha as <- <-. split.
  - apply Forall_forall. intros child (i & -> & _)%list_elem_of_fmap. done.
  - unfold dtorRedisResp. cbn [m_is_child m_reply]. rewrite Hc, Hid, Eh, list_lookup_middle by done.
    rewrite insert_app_r_alt, Nat.sub_diag by lia. cbn. eexists. split; [done|]. split; [done|].
    rewrite list_lookup_middle by done. split; [done|].
    apply Forall_forall. intros child (i & -> & _)%list_elem_of_fmap.
    unfold asString, getType, with_reply, deref, child_at. cbn [m_reply fst]. rewrite Hid, list_lookup_middle by done. done.
Qed.

Lemma reply_freed_once_witness :
  exists arr resp', asArray [Some ex_reply] (MkRedisResp (0%nat, []) false false [] IO_SUCCESS) = Val (arr, resp') /\
    exists h'', dtorRedisResp resp' [Some ex_reply] = Some h'' /\ h'' = [None].
Proof.
  eexists _, _. split; [reflexivity|].
  destruct (reply_freed_once ex_reply (MkRedisConn [4%nat] (Some 4%nat)) [] _ _ _ _ eq_refl eq_refl) as (_ & h'' & H1 & H2 & _).
  by exists h''.
Defined.

(** A query on a pool that does not run does not report [FAILED]: the response it
    constructs asserts that its reply is not null. *)
Theorem redis_refused_asserts : redis_refused = None.
Proof. reflexivity. Qed.

(** Connecting again, as [expand] does after a failure, drops the previous context
    without freeing it: the destructor frees the last one only. *)
Theorem redis_reconnect_leaks k err k' err' c :
  k <> k' -> k ∈ dtorRedisConn (redis_connect (Some (k', err')) (redis_connect (Some (k, err)) c).2).2.
Proof.
  intros Hne. cbn [redis_connect snd dtorRedisConn rc_connect rc_open].
  apply list_elem_of_In, in_in_remove; [done|]. right. by left.
Qed.

Lemma redis_reconnect_leaks_witness :
  1%nat ∈ dtorRedisConn (redis_connect (Some (2%nat, false)) (redis_connect (Some (1%nat, true)) newRedisConn).2).2.
Proof. by apply (redis_reconnect_leaks 1 true 2 false newRedisConn). Defined.

(** Asking for the Redis pool when there is none gives nothing, and replaces the public
    MySQL pool by a new one that is not initialised. *)
Theorem redis_instance_replaces_mysql g :
  RedisPoolInstance g = None ->
  (Redis_getInstance g).1 = None /\ MySQLPoolInstance (Redis_getInstance g).2 = Some (length (created g)) /\
  created (Redis_getInstance g).2 = created g ++ [(MysqlPool, 5, 10)].
Proof. intros H. unfold Redis_getInstance. by rewrite H. Qed.

Lemma redis_instance_replaces_mysql_witness :
  MySQLPoolInstance (Redis_getInstance (MkPools [(MysqlPool, 2, 4)] (Some 0%nat) None)).2 = Some 1%nat.
Proof. apply (redis_instance_replaces_mysql (MkPools [(MysqlPool, 2, 4)] (Some 0%nat) None) eq_refl). Defined.
