(* ===== verification/Result.v ===== *)
(** * Values or errors

    Models [ResultImpl] ([sylar/basic/utils/result.hpp]): a variant and a flag that
    says which alternative is meant.  What a value becomes when it is moved from is a
    parameter of the types. *)

From S2P Require Import Prelude.

(** What the accessors throw. *)
Inductive result_exn := NoValue | NoError | BadVariantAccess.

Section ResultImpl.
Context {ReturnType ErrorType : Type}.
Variable moved_value : ReturnType -> ReturnType.
Variable moved_error : ErrorType -> ErrorType.

Record ResultImpl := MkResult { m_value_or_error : ReturnType + ErrorType; m_isError : bool }.

(** The constructors, with the flag that defaults to the alternative. *)
Definition result_of_value (value : ReturnType) (type : bool) : ResultImpl := MkResult (inl value) type.
Definition result_of_error (error : ErrorType) (type : bool) : ResultImpl := MkResult (inr error) type.

Definition createValue (value : ReturnType) : ResultImpl := result_of_value value false.
Definition createError (error : ErrorType) : ResultImpl := result_of_error error true.

(** A moved-from result keeps its flag and its alternative. *)
Definition moved_from (r : ResultImpl) : ResultImpl :=
  MkResult (match m_value_or_error r with inl v => inl (moved_value v) | inr e => inr (moved_error e) end) (m_isError r).

(** The move constructor and the move assignment: the new result and the old one. *)
Definition move_ctor (other : ResultImpl) : ResultImpl * ResultImpl :=
  (MkResult (m_value_or_error other) (m_isError other), moved_from other).
Definition move_assign (self other : ResultImpl) (same : bool) : ResultImpl * ResultImpl :=
  if same then (self, self) else (MkResult (m_value_or_error other) (m_isError other), moved_from other).

Definition isError (r : ResultImpl) : bool := m_isError r.

Definition getValue (r : ResultImpl) : ReturnType + result_exn :=
  if m_isError r then inr NoValue
  else match m_value_or_error r with inl v => inl v | inr _ => inr BadVariantAccess end.

Definition getError (r : ResultImpl) : ErrorType + result_exn :=
  if negb (m_isError r) then inr NoError
  else match m_value_or_error r with inr e => inl e | inl _ => inr BadVariantAccess end.

Definition setValue (value : ReturnType) (r : ResultImpl) : ResultImpl := MkResult (inl value) false.
Definition setError (error : ErrorType) (r : ResultImpl) : ResultImpl := MkResult (inr error) true.

Definition operator_bool (r : ResultImpl) : bool := negb (m_isError r).

(** ** A result in use *)

(** What a program does to a result it got: set it, move it elsewhere and go on with the new
    one, assign another one to it. *)
Inductive result_op :=
  | Op_setValue (v : ReturnType)
  | Op_setError (e : ErrorType)
  | Op_move
  | Op_assign (other : ResultImpl)
  | Op_self_assign.

Definition apply_op (op : result_op) (r : ResultImpl) : ResultImpl :=
  match op with
  | Op_setValue v => setValue v r
  | Op_setError e => setError e r
  | Op_move => (move_ctor r).1
  | Op_assign other => (move_assign r other false).1
  | Op_self_assign => (move_assign r r true).1
  end.

(** What the result stands for, by the operations alone. *)
Definition meaning (r : ResultImpl) : ReturnType + ErrorType := m_value_or_error r.

Definition meaning_after (op : result_op) (x : ReturnType + ErrorType) : ReturnType + ErrorType :=
  match op with
  | Op_setValue v => inl v
  | Op_setError e => inr e
  | Op_assign other => meaning other
  | Op_move | Op_self_assign => x
  end.

(** The flag says which alternative the variant holds. *)
Definition tagged (r : ResultImpl) : Prop :=
  m_isError r = match m_value_or_error r with inl _ => false | inr _ => true end.

Definition op_tagged (op : result_op) : Prop := match op with Op_assign other => tagged other | _ => True end.

(** A result that is tagged behaves as the sum it stands for. *)
Definition behaves (x : ReturnType + ErrorType) (r : ResultImpl) : Prop :=
  match x with
  | inl v => isError r = false /\ operator_bool r = true /\ getValue r = inl v /\ getError r = inr NoError
  | inr e => isError r = true /\ operator_bool r = false /\ getValue r = inr NoValue /\ getError r = inl e
  end.

Lemma tagged_behaves r : tagged r -> behaves (meaning r) r.
Proof. destruct r as [[v|e] b]; unfold tagged; cbn; intros ->; done. Qed.

Lemma apply_op_tagged op r : tagged r -> op_tagged op -> tagged (apply_op op r) /\ meaning (apply_op op r) = meaning_after op (meaning r).
Proof. destruct r as [x b], op as [v|e| |[y c]|]; done. Qed.

(** A result that was created as a value or as an error stands for exactly what was
    last put into it, whatever is set, moved and assigned since: the flag, the test and
    both accessors agree, the accessor of the other alternative throws its own
    exception, and neither ever fails on the variant. *)
Theorem result_refines_sum r ops :
  (exists v, r = createValue v) \/ (exists e, r = createError e) -> Forall op_tagged ops ->
  behaves (fold_left (fun x op => meaning_after op x) ops (meaning r)) (fold_left (fun r op => apply_op op r) ops r).
Proof.
  intros Hr Hops. assert (Ht : tagged r) by (destruct Hr as [[v ->]|[e ->]]; done). clear Hr.
  revert r Ht. induction Hops as [|op ops Hop _ IH]; intros r Ht; cbn [fold_left]; [by apply tagged_behaves|].
  destruct (apply_op_tagged op r Ht Hop) as [Ht' Hm]. rewrite <- Hm. by apply IH.
Qed.

(** The flag of the constructors is not checked: a value marked as an error has neither. *)
Theorem mismarked_result v :
  getValue (result_of_value v true) = inr NoValue /\ getError (result_of_value v true) = inr BadVariantAccess.
Proof. done. Qed.
End ResultImpl.

Lemma result_refines_sum_witness :
  getError (setError 404 (createValue (ErrorType := Z) true)) = inl 404.
Proof.
  apply (result_refines_sum id id (createValue true) [Op_move; Op_setError 404]); [left; by exists true|].
  by repeat constructor.
Defined.
